(* ===== verification/_CoqProject ===== *)
-Q . S2P
Prelude.v
Libc.v
Ring.v
PackageQueue.v
Package.v
PackageSpec.v
PackagePairing.v
Frame.v
FrameSpec.v
Netpack.v
NetpackSpec.v
NetpackFilter.v
NetpackStreams.v
NetpackHandshake.v
NetpackClear.v
Skiplist.v
SkiplistCells.v
SkiplistInv.v
SkiplistOrder.v
SkiplistInsert.v
SkiplistDelete.v
SkiplistQueries.v
SkiplistProps.v
SkiplistScores.v
Strbuf.v
StrbufSpec.v
Double.v
DoubleSpec.v
Fpconv.v
FpconvSpec.v
Cjson.v
CjsonEncode.v
CjsonDecode.v
Json.v
CjsonEncodeSpec.v
CjsonEncodeProps.v
CjsonDecodeSafe.v
CjsonDecodeTypes.v
CjsonTokens.v
CjsonRoundtrip.v
ClientSocket.v
ClientStreams.v
ClientProps.v
ClientStdin.v
LuaHash.v
Loggers.v
WebClient.v
WebClientSpec.v
WebClientProps.v
Bigint.v
BigintSpec.v
BigintOps.v
BigintProps.v
Dtoa.v
FloatSpec.v
FloatOps.v
FloatRound.v
DtoaWords.v
DtoaEstimate.v
DtoaDigits.v
DtoaBig.v
DtoaScale.v
DtoaQuick.v
DtoaProps.v
Gfmt.v
GfmtSpec.v
GfmtProps.v
Gethex.v
Strtod.v
StrtodScan.v
StrtodShort.v
StrtodWords.v
StrtodRound.v
StrtodStart.v
StrtodLong.v
StrtodProps.v
Srp.v
SrpProps.v
Aes.v
AesProps.v
