(* ===== verification/Prelude.v ===== *)
(** * skynetServer: a verification development for the C parts of the server

    The server is a set of C modules that the skynet framework loads: services,
    which get messages through a callback, and Lua libraries, which Lua services
    call. This development models thirteen of them, with the C semantics that matters
    for them: memory as lists of cells that may be unwritten, reads and writes
    checked against the bounds, integers at their width, Lua errors, system calls
    and framework calls as values.

    ** The parts and how they interact

    A TCP connection reaches the server in one of two ways. The gate hands the
    chunks it receives to the websocket netpack filter, which reassembles frames
    and returns the packets to Lua; a [package] service owns one connection,
    cuts its stream into length-prefixed packages and answers requests with
    them. The websocket client is the other end of a gate connection. Lua
    services encode and decode messages and records with the JSON module, rank
    players with the skip list, hash tables, and log through the log services; the
    login exchanges keys over SRP and encrypts with AES, and the HTTP client fetches
    pages.

    - service_package.c. [PackageQueue] is the growing ring buffer ([struct queue]
      with init, pop, push), [Package] the service: [message_handler] with its
      three branches, [new_message], [response], [service_exit],
      [package_release]. Framework calls are effects, in order. [PackageSpec]
      has the parser of the stream, [PackagePairing] the runs of the service.
    - lua-websocketnetpack.c. [Frame] has the pure functions on bytes (header
      reader, unmasking, blank-line search, [lpack]); [Netpack] the queue
      userdata, the hash chains of unfinished packets and [lfilter], [lpop],
      [lclear]. [FrameSpec] states RFC 6455 frames, [NetpackSpec]
      (with the queue in a module of its own) and [NetpackFilter] prove the filter for one chunk,
      [NetpackStreams] for any number of connections and chunks,
      [NetpackHandshake] the HTTP handshake and the limits, [NetpackClear] the
      memory that is freed.
    - skiplist/*.c. [Skiplist] models nodes in a heap with forward pointers,
      spans and backward pointers, and every operation; the random levels are
      an argument. [SkiplistCells] and [SkiplistInv] give the representation
      invariant, [SkiplistOrder] the order of the elements, [SkiplistInsert],
      [SkiplistDelete] and [SkiplistQueries] (ranks, searches and ranges, a module each) the
      operations against a sorted list, [SkiplistProps] and [SkiplistScores]
      the claims.
    - lua-cjson. [Strbuf] is strbuf.c and strbuf.h; [Double] are exact models of
      [printf("%.<P>g")] and [strtod]; [Fpconv] is fpconv.c; [Cjson] the
      configuration, [CjsonEncode] and [CjsonDecode] the two directions of
      lua_cjson.c. [Json] has the documents and their text. [StrbufSpec],
      [DoubleSpec], [FpconvSpec], [CjsonEncodeSpec], [CjsonTokens] hold the
      lemmas; the claims are in [CjsonEncodeProps] (text and
      safety, a module each), [CjsonDecodeSafe], [CjsonDecodeTypes] and [CjsonRoundtrip].
    - dtoa.c and g_fmt.c, the number code of lua-cjson's own. [Bigint] has the big
      integers (blocks of words from free lists, the cached powers of 5), [Dtoa] the
      conversion of a double to digits in the mode g_fmt.c asks for, [Gfmt] the text.
      [BigintSpec], [BigintOps] and [BigintProps] prove the operations against the
      integers; [FloatSpec] and [FloatOps] are the lemmas on doubles, as reals with one
      rounding per operation; [DtoaWords], [DtoaEstimate], [DtoaDigits], [DtoaBig],
      [DtoaScale] and [DtoaQuick] the steps of [dtoa] (the words
      of a double, the estimate of the exponent, the three ways to the digits), and
      [DtoaProps] the whole; [GfmtSpec] and [GfmtProps] compare the text with [printf].
      [Strtod] is the way back, [fpconv_strtod] with the scanner, the short way, the first
      approximation, its correction with big integers and the comparison of long numerals;
      [Gethex] has the hexadecimal numerals and the names. [FloatRound] shows that a real
      has one rounding, and that [strtod] of [Double] is it; [StrtodScan] what the scanner
      finds in a numeral, [StrtodShort] the numerals of few digits, [StrtodStart] that the
      first approximation is within 2^-46. [StrtodWords] has the tests on words of doubles
      and the quotient of big integers, [StrtodRound] one round of the correction: whatever
      the approximation, it ends with the rounded numeral or comes closer, and three rounds
      are enough. [StrtodLong] has what is different for a numeral of more than 40 digits:
      the cut to 18 digits, the correction that stops below the numeral, and the comparison
      of the digits with those of the number halfway. [StrtodProps] puts them together.
    - lua-clientwebsocket.c. [ClientSocket] has the socket functions over a script
      of system call results, [ClientStdin] the reader thread and its queue.
      [ClientStreams] has the lemmas (sockets, streams and the handshake, a module each),
      [ClientProps] the claims.
    - lua-webclient.c. [WebClient] has the requests, the response buffer, the form
      table and the Lua functions, with what curl answers as arguments;
      [WebClientSpec] the lemmas, [WebClientProps] the claims.
    - lua-srp.c is [Srp], over a class of OpenSSL operations; [SrpProps] states their
      documented laws and has the lemmas, the claims and an instance with a small
      group. lua-aes.c is [Aes], over a class of EVP operations, with the laws,
      the claim and an instance in [AesProps].
    - lua-hash.c is [LuaHash]; service_busilogger.c and service_syslog.c are
      [Loggers].

    [Prelude] (this file) has what they share: outcomes of C functions with the
    faults of undefined behaviour ([outcome], [returns], [sound]), machine
    integers, checked buffer accesses, a state monad with effects ([M], [wp]), a
    queue interface ([Fifo], discharged by [PackageQueue] and [Ring]), the hint
    database and the tactics. [Libc] has the C library functions the sources
    call, [Ring] circular buffers.

    ** What the theorems show

    - Streams: whatever the chunks and the interleaving of connections, exactly the
      messages of the stream come out, in order ([feed_reassembles],
      [websocket_streams], [handshake_reassembles], [frames_received]); what one
      end writes the other end reads ([stream_roundtrip], [pack_roundtrip],
      [client_to_gate], [connect_handshake]). The limits are in the statements: packets
      of a gate have at most 10240 bytes, what the client sends 4092, what it receives
      4096; beyond them, and for fragments, the code does not do this. A response has the bytes curl delivered
      ([response_content]), a form the options of its fields ([forms_fit]), and every
      finished request is reported ([finished_reported]).
    - Keys: the two ends of an SRP exchange agree ([session_keys_agree]), but a client
      that sends 0 needs no password ([zero_public_key]); decryption undoes encryption exactly when
      OpenSSL writes no more than the length of the ciphertext, which its documentation
      does not promise ([decrypt_encrypt], [decrypt_overrun]).
    - Services: requests are answered in order under any interleaving
      ([requests_paired]), on a close answered as far as there are packages and failed
      otherwise ([close_fails_waiting]); a log message goes to the file opened on its day,
      or to standard output once a file could not be opened ([busilogger_daily]).
    - Containers: the ring buffers, the standard input queue and the skip list
      refine lists ([ring_refines_list], [packet_ring_refines_list], [stdin_fifo],
      [skiplist_refines_sorted_list] and the rank and score queries), the string
      buffer appends ([strbuf_appends]), the hash code of a table does not depend
      on the order of its entries ([hash_order_independent]).
    - JSON: [encode_text], [decode_text] and [json_roundtrip] for the documents the
      two agree on; [encode_safe] and [decode_safe] for every Lua value and every
      byte string; the types of what is decoded, and that its tables are a tree
      ([decode_typed]); numbers in any locale ([fpconv_prints_point]).
    - Numbers: the big integers compute as the integers ([bigint_refines_Z],
      [quorem_divides]), the estimate of the decimal exponent is at most one off
      ([estimate_within_one]), the digits are the correctly rounded ones
      ([dtoa_correct]), and g_fmt.c writes what printf writes ([g_fmt_same_text]); a numeral of up to 40
      digits is read as the C library reads it, rounded once to nearest even
      ([strtod_correct]; [strtod_short] for few digits, without any big integer), a longer
      one too unless it is one digit short of a number halfway ([strtod_long]), and
      one of up to 15 digits is written again with the same value ([numeral_roundtrip]).
    - Memory: everything is freed exactly once ([release_frees_all],
      [clear_frees_all], [close_frees_unfinished], [free_releases_all]).
    - Limits: inputs that lead to undefined behaviour ([handshake_overflow],
      [huge_length_crashes], [linear_growth_overflows], [array_length_overflows],
      [recv_split_uninitialised], [recv_too_long], [lsend_too_long], [short_response],
      [short_key], [forms_overrun]), or to an error of the program ([forms_full]); and hexadecimal
      numerals that are read wrongly ([hex_too_large] and what follows it in [Gethex]); a
      decimal one that is taken for a tie ([short_of_tie]).

    ** Bounds and fuel

    Loops that are not structural take fuel, and the operation that calls them
    computes it from its arguments: a length, a size of a queue, a depth limit, the
    number of system call results. The theorems state that the result is [Done]
    (or the error they name), so the fuel is enough. A skip list has at most 32
    levels, as in the source; sizes stay below the range of an int where the
    theorems say so. Loops over system calls take one result per round; when the
    script of results is used up the call blocks.

    ** What is not modelled

    Registration of functions and metatables; [close], [usleep], [fcntl] and the
    logging of skynet itself; file descriptors beyond their number. The allocator
    does not fail, except for the response buffer of the HTTP client. Of Lua: the stack is left out (but for the key that the form loop may leave on it),
    values and tables are explicit, a conversion of a numeric string is an argument, and no metamethod
    other than [__pairs] runs. curl, OpenSSL and its random source are arguments or
    classes with laws; lua-uuid.c and luaclock.c are one library call each. Of dtoa.c the
    modes of [dtoa] that g_fmt.c does not use, [errno] and the payload of a NaN are left out. Nothing
    is proved of [fpconv_strtod] for results outside [2^-1018, 2^1022), the smallest
    numbers and those near an overflow. luafilesystem,
    LuaPbIntf and everything under src/3rd are third-party code; the game logic is Lua. *)
From Stdlib Require Export ZArith Lia.
From Stdlib Require Ascii.
From stdpp Require Export base list option gmap strings.
From stdpp Require Import decidable.

#[global] Open Scope Z_scope.

(** Integer operations are not unfolded by [simpl]; [lia] and the kernel's
    conversion still compute them. *)
#[global] Arguments Z.eqb : simpl never.
#[global] Arguments Z.leb : simpl never.
#[global] Arguments Z.ltb : simpl never.
#[global] Arguments Z.add : simpl never.
#[global] Arguments Z.sub : simpl never.
#[global] Arguments Z.mul : simpl never.
#[global] Arguments Z.pow : simpl never.
#[global] Arguments Z.div : simpl never.
#[global] Arguments Z.modulo : simpl never.
#[global] Arguments Z.of_nat : simpl never.
#[global] Arguments Z.to_nat : simpl never.
#[global] Arguments Z.land : simpl never.
#[global] Arguments Z.lor : simpl never.
#[global] Arguments Z.lxor : simpl never.
#[global] Arguments Z.shiftl : simpl never.
#[global] Arguments Z.shiftr : simpl never.

(** ** Outcomes

    A C function called by the program either returns ([Done]), leaves
    through [luaL_error] ([Raise], carrying what the error is built from), runs
    into undefined behaviour, a failed [assert] or [abort] ([Fault]), or the
    model's fuel is exhausted ([NoFuel], excluded by the theorems). *)
Inductive fault : Type :=
  | OutOfBounds   (** a read or a write outside the buffer *)
  | Uninitialised (** a read of memory that was never written *)
  | NullDeref     (** a dereference of NULL or of a freed block *)
  | IntOverflow   (** a signed overflow or an allocation of a negative size *)
  | AssertFailed. (** a failed assert, an abort or an exit *)

Inductive outcome (E A : Type) : Type :=
  | Done (a : A)
  | Raise (e : E)
  | Fault (f : fault)
  | NoFuel.
Arguments Done {E A} _.
Arguments Raise {E A} _.
Arguments Fault {E A} _.
Arguments NoFuel {E A}.

#[export] Instance fault_eq_dec : EqDecision fault.
Proof. solve_decision. Defined.

Definition obind {E A B} (m : outcome E A) (k : A → outcome E B) : outcome E B :=
  match m with
  | Done a => k a
  | Raise e => Raise e
  | Fault f => Fault f
  | NoFuel => NoFuel
  end.

Declare Scope outcome_scope.
Delimit Scope outcome_scope with outcome.
Notation "'let!' x ':=' m 'in' k" := (obind m (fun x => k))
  (at level 10, x pattern, m at level 100, k at level 200) : outcome_scope.
Notation "m ';;!' k" := (obind m (fun _ => k))
  (at level 100, k at level 200, right associativity) : outcome_scope.
#[global] Open Scope outcome_scope.

(** [assert(b)], and the guard of a memory access. *)
Definition guard_or {E} (f : fault) (b : bool) : outcome E unit :=
  if b then Done tt else Fault f.

Lemma obind_done {E A B} (m : outcome E A) (k : A → outcome E B) b :
  obind m k = Done b ↔ ∃ a, m = Done a ∧ k a = Done b.
Proof. destruct m; naive_solver. Qed.

(** A computation that returns a value satisfying [Q]. *)
Definition returns {E A} (m : outcome E A) (Q : A → Prop) : Prop :=
  ∃ a, m = Done a ∧ Q a.

Section returns.
Context {E : Type}.

Lemma returns_done {A} (a : A) (Q : A → Prop) : Q a → returns (E:=E) (Done a) Q.
Proof. intros HQ. by exists a. Qed.

Lemma returns_bind {A B} (m : outcome E A) (k : A → outcome E B) P Q :
  returns m P → (∀ a, P a → returns (k a) Q) → returns (obind m k) Q.
Proof. intros (a & -> & Ha) Hk. simpl. by apply Hk. Qed.

Lemma returns_mono {A} (m : outcome E A) (P Q : A → Prop) :
  returns m P → (∀ a, P a → Q a) → returns m Q.
Proof. intros (a & ? & ?) HPQ. exists a. auto. Qed.

Lemma returns_eq {A} (m : outcome E A) a (Q : A → Prop) :
  m = Done a → Q a → returns m Q.
Proof. intros -> HQ. by exists a. Qed.

Lemma returns_inv {A} (m : outcome E A) a (Q : A → Prop) :
  returns m Q → m = Done a → Q a.
Proof. intros (a' & -> & ?) [= <-]. done. Qed.
End returns.

(** A computation that ends: with a value satisfying [Q], with an error
    satisfying [R], or with one of the faults [F]. *)
Definition sound {E A} (F : fault → Prop) (R : E → Prop) (Q : A → Prop) (o : outcome E A) : Prop :=
  match o with
  | Done a => Q a
  | Raise e => R e
  | Fault f => F f
  | NoFuel => False
  end.

Section sound.
Context {E : Type} (F : fault → Prop) (R : E → Prop).

Lemma sound_bind {A B} (P : A → Prop) (Q : B → Prop) (m : outcome E A) k :
  sound F R P m → (∀ a, P a → sound F R Q (k a)) → sound F R Q (obind m k).
Proof. destruct m; naive_solver. Qed.

Lemma sound_mono {A} (P Q : A → Prop) (m : outcome E A) :
  sound F R P m → (∀ a, P a → Q a) → sound F R Q m.
Proof. destruct m; naive_solver. Qed.

Lemma sound_returns {A} (Q : A → Prop) (m : outcome E A) : returns m Q → sound F R Q m.
Proof. by intros (a & -> & ?). Qed.
End sound.

(** ** Machine integers, as [Z] with the wrap-around written out *)
Definition wrap (bits z : Z) : Z := z mod 2 ^ bits.
Definition swrap (bits z : Z) : Z :=
  let u := z mod 2 ^ bits in if u <? 2 ^ (bits - 1) then u else u - 2 ^ bits.

Abbreviation u8 := (wrap 8).
Abbreviation u16 := (wrap 16).
Abbreviation u32 := (wrap 32).
Abbreviation u64 := (wrap 64).
Abbreviation i8 := (swrap 8).
Abbreviation i32 := (swrap 32).
Abbreviation i64 := (swrap 64).
Definition INT_MAX : Z := 2147483647.

(** The result of a sum or a product of ints, which must not overflow. *)
Definition int {E} (z : Z) : outcome E Z :=
  if (- INT_MAX - 1 <=? z) && (z <=? INT_MAX) then Done z else Fault IntOverflow.

Lemma int_ok {E} z : - INT_MAX - 1 ≤ z ≤ INT_MAX → int (E:=E) z = Done z.
Proof.
  intros. unfold int.
  destruct (Z.leb_spec (- INT_MAX - 1) z), (Z.leb_spec z INT_MAX); done || lia.
Qed.

Lemma int_overflow {E} z : INT_MAX < z → int (E:=E) z = Fault IntOverflow.
Proof. intros. unfold int. destruct (Z.leb_spec z INT_MAX); [lia|]. by rewrite andb_false_r. Qed.

Lemma wrap_small bits z : 0 ≤ z < 2 ^ bits → wrap bits z = z.
Proof. intros. unfold wrap. by apply Z.mod_small. Qed.

Lemma wrap_range bits z : 0 ≤ bits → 0 ≤ wrap bits z < 2 ^ bits.
Proof. intros. unfold wrap. apply Z.mod_pos_bound. lia. Qed.

(** Bits above [n] and below it. *)
Lemma lor_shiftl_add a n b :
  0 ≤ n → 0 ≤ b < 2 ^ n → Z.lor (Z.shiftl a n) b = a * 2 ^ n + b.
Proof.
  intros Hn Hb. assert (Z.land (Z.shiftl a n) b = 0) as Hland.
  { apply Z.bits_inj'. intros i Hi. rewrite Z.land_spec, Z.bits_0, Z.shiftl_spec by done.
    destruct (Z.lt_ge_cases i n) as [Hlt|Hge]; [by rewrite Z.testbit_neg_r by lia|].
    destruct (decide (b = 0)) as [->|]; [by rewrite Z.bits_0, andb_false_r|].
    rewrite (Z.bits_above_log2 b), andb_false_r; [done|lia|].
    eapply Z.lt_le_trans; [|exact Hge]. apply Z.log2_lt_pow2; lia. }
  by rewrite <- Z.lxor_lor, <- Z.add_nocarry_lxor, Z.shiftl_mul_pow2.
Qed.

Lemma swrap_range bits z : 0 < bits → - 2 ^ (bits - 1) ≤ swrap bits z < 2 ^ (bits - 1).
Proof.
  intros Hb. unfold swrap.
  assert (2 ^ bits = 2 * 2 ^ (bits - 1)) as Heq.
  { rewrite <- Z.pow_succ_r by lia. f_equal. lia. }
  pose proof (Z.mod_pos_bound z (2 ^ bits) ltac:(lia)).
  destruct (Z.ltb_spec (z mod 2 ^ bits) (2 ^ (bits - 1))); lia.
Qed.

Lemma swrap_small bits z :
  0 < bits → - 2 ^ (bits - 1) ≤ z < 2 ^ (bits - 1) → swrap bits z = z.
Proof.
  intros Hb Hz. unfold swrap.
  assert (2 ^ bits = 2 * 2 ^ (bits - 1)) as Heq.
  { rewrite <- Z.pow_succ_r by lia. f_equal. lia. }
  destruct (Z.ltb_spec (z mod 2 ^ bits) (2 ^ (bits - 1))) as [Hlt|Hge].
  - destruct (decide (0 ≤ z)).
    + rewrite Z.mod_small in * by lia. lia.
    + rewrite <- (Z.mod_add z 1) in Hlt |- * by lia.
      rewrite Z.mod_small in Hlt by lia. lia.
  - destruct (decide (0 ≤ z)).
    + rewrite Z.mod_small in * by lia. lia.
    + rewrite <- (Z.mod_add z 1) in Hge |- * by lia.
      rewrite Z.mod_small in Hge |- * by lia. lia.
Qed.

(** Truncating twice. *)
Lemma swrap_wrap a b z : 0 ≤ a ≤ b → swrap a (wrap b z) = swrap a z.
Proof.
  intros Hab. unfold swrap, wrap.
  assert ((z mod 2 ^ b) mod 2 ^ a = z mod 2 ^ a) as ->; [|done].
  apply Z.mod_mod_divide.
  exists (2 ^ (b - a)). rewrite <- Z.pow_add_r by lia. f_equal. lia.
Qed.

Lemma swrap_id_u8 z : 0 ≤ z < 128 → swrap 8 z = z.
Proof. intros. apply swrap_small; simpl; lia. Qed.

(** ** Bytes and buffers *)
Definition byte_ok (z : Z) : Prop := 0 ≤ z < 256.
Definition bytes_ok (l : list Z) : Prop := Forall byte_ok l.

#[export] Instance byte_ok_dec z : Decision (byte_ok z).
Proof. unfold byte_ok. apply _. Defined.
#[export] Instance bytes_ok_dec l : Decision (bytes_ok l).
Proof. unfold bytes_ok. apply _. Defined.

(** The bytes of a C string literal, without the terminator. *)
Fixpoint lit (s : string) : list Z :=
  match s with
  | EmptyString => []
  | String c s' => Z.of_nat (Ascii.nat_of_ascii c) :: lit s'
  end.

(** [len l] is a length as a C integer. *)
Abbreviation len l := (Z.of_nat (length l)).

(** The element at a C index: outside the array there is none. *)
Definition zget {A} (l : list A) (i : Z) : option A :=
  if i <? 0 then None else l !! Z.to_nat i.

Definition zset {A} (l : list A) (i : Z) (x : A) : list A := <[Z.to_nat i := x]> l.

(** A checked read of [l[i]] and a checked write. *)
Definition rd {E A} (l : list A) (i : Z) : outcome E A :=
  match zget l i with Some x => Done x | None => Fault OutOfBounds end.

Definition wr {E A} (l : list A) (i : Z) (x : A) : outcome E (list A) :=
  if (0 <=? i) && (i <? len l) then Done (zset l i x) else Fault OutOfBounds.

(** [memcpy(dst + off, src, length src)] into a buffer. *)
Definition splice {A} (dst : list A) (off : nat) (src : list A) : list A :=
  take off dst ++ src ++ drop (off + length src) dst.

Definition memcpy {E A} (dst : list A) (off : Z) (src : list A) : outcome E (list A) :=
  if (0 <=? off) && (off + len src <=? len dst)
  then Done (splice dst (Z.to_nat off) src) else Fault OutOfBounds.

(** The [n] first elements behind a pointer. *)
Definition rdn {E A} (l : list A) (n : Z) : outcome E (list A) :=
  if (0 <=? n) && (n <=? len l) then Done (take (Z.to_nat n) l) else Fault OutOfBounds.

Section buffers.
Context {A : Type}.
Implicit Types (l dst src : list A) (i : Z) (x : A).

Lemma zget_Some l i x : zget l i = Some x ↔ 0 ≤ i ∧ l !! Z.to_nat i = Some x.
Proof. unfold zget. destruct (Z.ltb_spec i 0); naive_solver lia. Qed.

Lemma zget_of_nat l (n : nat) : zget l (Z.of_nat n) = l !! n.
Proof.
  unfold zget. destruct (Z.ltb_spec (Z.of_nat n) 0); [lia|]. by rewrite Nat2Z.id.
Qed.

Lemma zget_lt l i x : zget l i = Some x → 0 ≤ i < len l.
Proof. intros [? ?%lookup_lt_Some]%zget_Some. lia. Qed.

Lemma length_zset l i x : length (zset l i x) = length l.
Proof. apply length_insert. Qed.

Lemma zget_zset_ne l i j x : 0 ≤ i → i ≠ j → zget (zset l i x) j = zget l j.
Proof.
  intros. unfold zget, zset. destruct (Z.ltb_spec j 0); [done|].
  apply list_lookup_insert_ne. lia.
Qed.

Lemma zget_zset_eq l i x : 0 ≤ i < len l → zget (zset l i x) i = Some x.
Proof.
  intros. unfold zget, zset. destruct (Z.ltb_spec i 0); [lia|].
  apply list_lookup_insert_eq. lia.
Qed.

Lemma rd_done {E} l i x : zget l i = Some x → rd (E:=E) l i = Done x.
Proof. unfold rd. by intros ->. Qed.

Lemma rd_total {E} l i : 0 ≤ i < len l → ∃ x, rd (E:=E) l i = Done x.
Proof.
  intros Hi. destruct (lookup_lt_is_Some_2 l (Z.to_nat i)) as [x Hx]; [lia|].
  exists x. apply rd_done, zget_Some. split; [lia|done].
Qed.

Lemma wr_done {E} l i x : 0 ≤ i < len l → wr (E:=E) l i x = Done (zset l i x).
Proof.
  intros Hi. unfold wr.
  destruct (Z.leb_spec 0 i), (Z.ltb_spec i (len l)); simpl; done || lia.
Qed.

Lemma length_splice dst off src :
  (off + length src ≤ length dst)%nat → length (splice dst off src) = length dst.
Proof. intros. unfold splice. rewrite !length_app, length_take, length_drop. lia. Qed.

Lemma splice_take dst off src :
  (off + length src ≤ length dst)%nat →
  take (off + length src) (splice dst off src) = take off dst ++ src.
Proof.
  intros. unfold splice. rewrite app_assoc, take_app_length'; [done|].
  rewrite length_app, length_take. lia.
Qed.

Lemma splice_nil dst off : splice dst off [] = dst.
Proof. unfold splice. simpl. rewrite Nat.add_0_r. apply take_drop. Qed.

Lemma memcpy_done {E} dst (off : nat) src :
  (off + length src ≤ length dst)%nat →
  memcpy (E:=E) dst (Z.of_nat off) src = Done (splice dst off src).
Proof.
  intros. unfold memcpy.
  destruct (Z.leb_spec 0 (Z.of_nat off)), (Z.leb_spec (Z.of_nat off + len src) (len dst));
    simpl; rewrite ?Nat2Z.id; done || lia.
Qed.

Lemma memcpy_fault {E} dst (off : nat) src :
  (length dst < off + length src)%nat → memcpy (E:=E) dst (Z.of_nat off) src = Fault OutOfBounds.
Proof.
  intros. unfold memcpy. rewrite (proj2 (Z.leb_gt _ (len dst))) by lia. by rewrite andb_false_r.
Qed.

Lemma rdn_done {E} l (n : nat) :
  (n ≤ length l)%nat → rdn (E:=E) l (Z.of_nat n) = Done (take n l).
Proof.
  intros. unfold rdn.
  destruct (Z.leb_spec 0 (Z.of_nat n)), (Z.leb_spec (Z.of_nat n) (len l));
    simpl; rewrite ?Nat2Z.id; done || lia.
Qed.
End buffers.

(** The bytes of a block that is completely written. *)
Lemma omap_id_Some {A} (l : list A) : omap id (Some <$> l) = l.
Proof. induction l as [|x l IH]; [done|]. simpl. f_equal. exact IH. Qed.

(** ** A state monad that emits effects

    [M S W E A]: a handler reads and writes a state of type [S], emits effects
    of type [W] (calls of the framework, kept in order) and returns an [A]. *)
Definition M (S W E A : Type) : Type := S → outcome E (A * S * list W).

Section state_monad.
Context {S W E : Type}.

Definition ret {A} (a : A) : M S W E A := fun s => Done (a, s, []).
Definition bind {A B} (m : M S W E A) (k : A → M S W E B) : M S W E B := fun s =>
  match m s with
  | Done (a, s', w) =>
      match k a s' with
      | Done (b, s'', w') => Done (b, s'', w ++ w')
      | Raise e => Raise e
      | Fault f => Fault f
      | NoFuel => NoFuel
      end
  | Raise e => Raise e
  | Fault f => Fault f
  | NoFuel => NoFuel
  end.
Definition get : M S W E S := fun s => Done (s, s, []).
Definition put (s : S) : M S W E unit := fun _ => Done (tt, s, []).
Definition modify (f : S → S) : M S W E unit := fun s => Done (tt, f s, []).
Definition emit (w : W) : M S W E unit := fun s => Done (tt, s, [w]).
Definition lift {A} (o : outcome E A) : M S W E A := fun s =>
  match o with
  | Done a => Done (a, s, [])
  | Raise e => Raise e
  | Fault f => Fault f
  | NoFuel => NoFuel
  end.
Definition fault_ {A} (f : fault) : M S W E A := fun _ => Fault f.

(** Total correctness of a handler: it returns, and [Q] holds of the result, the
    final state and the effects. *)
Definition wp {A} (m : M S W E A) (s : S) (Q : A → S → list W → Prop) : Prop :=
  ∃ a s' w, m s = Done (a, s', w) ∧ Q a s' w.

Lemma wp_ret {A} (a : A) s (Q : A → S → list W → Prop) : Q a s [] → wp (ret a) s Q.
Proof. intros. by exists a, s, []. Qed.

Lemma wp_bind {A B} (m : M S W E A) (k : A → M S W E B) s (Q : B → S → list W → Prop) :
  wp m s (fun a s' w => wp (k a) s' (fun b s'' w' => Q b s'' (w ++ w'))) →
  wp (bind m k) s Q.
Proof.
  intros (a & s' & w & Hm & b & s'' & w' & Hk & HQ).
  exists b, s'', (w ++ w'). unfold bind. by rewrite Hm, Hk.
Qed.

Lemma wp_get s (Q : S → S → list W → Prop) : Q s s [] → wp get s Q.
Proof. intros. by exists s, s, []. Qed.

Lemma wp_put s s' (Q : unit → S → list W → Prop) : Q tt s' [] → wp (put s') s Q.
Proof. intros. by exists tt, s', []. Qed.

Lemma wp_modify f s (Q : unit → S → list W → Prop) : Q tt (f s) [] → wp (modify f) s Q.
Proof. intros. by exists tt, (f s), []. Qed.

Lemma wp_emit x s (Q : unit → S → list W → Prop) : Q tt s [x] → wp (emit x) s Q.
Proof. intros. by exists tt, s, [x]. Qed.

Lemma wp_lift {A} (o : outcome E A) s (Q : A → S → list W → Prop) :
  returns o (fun a => Q a s []) → wp (lift o) s Q.
Proof. intros (a & -> & HQ). by exists a, s, []. Qed.

Lemma wp_mono {A} (m : M S W E A) s (P Q : A → S → list W → Prop) :
  wp m s P → (∀ a s' w, P a s' w → Q a s' w) → wp m s Q.
Proof. intros (a & s' & w & ? & ?) HPQ. exists a, s', w. auto. Qed.

Lemma wp_done {A} (m : M S W E A) s (Q : A → S → list W → Prop) a s' w :
  wp m s Q → m s = Done (a, s', w) → Q a s' w.
Proof. intros (? & ? & ? & -> & HQ). congruence. Qed.

(** A handler that runs into a fault. *)
Lemma bind_fault {A B} (m : M S W E A) (k : A → M S W E B) s a s' w f :
  m s = Done (a, s', w) → k a s' = Fault f → bind m k s = Fault f.
Proof. intros Hm Hk. unfold bind. by rewrite Hm, Hk. Qed.

Lemma bind_fault_wp {A B} (m : M S W E A) (k : A → M S W E B) s f :
  wp m s (fun a s' _ => k a s' = Fault f) → bind m k s = Fault f.
Proof. intros (a & s' & w & Hm & Hk). by eapply bind_fault. Qed.

Lemma bind_fault_now {A B} (m : M S W E A) (k : A → M S W E B) s f : m s = Fault f → bind m k s = Fault f.
Proof. intros Hm. unfold bind. by rewrite Hm. Qed.

Lemma lift_done {A} (o : outcome E A) s a : o = Done a → (lift o : M S W E A) s = Done (a, s, []).
Proof. by intros ->. Qed.

Lemma lift_fault {A} (o : outcome E A) s f : o = Fault f → (lift o : M S W E A) s = Fault f.
Proof. by intros ->. Qed.
End state_monad.

Declare Scope handler_scope.
Delimit Scope handler_scope with handler.
Notation "x '<-' m ';;' k" := (bind m (fun x => k))
  (at level 100, m at next level, k at level 200, right associativity) : handler_scope.
Notation "m ';;' k" := (bind m (fun _ => k))
  (at level 100, k at level 200, right associativity) : handler_scope.
Notation "'let*' x ':=' m 'in' k" := (bind m (fun x => k))
  (at level 10, x pattern, m at level 100, k at level 200) : handler_scope.
#[global] Open Scope handler_scope.

(** ** Automation

    [skynet] collects the lemmas that discharge the side conditions of the
    component files. *)
Create HintDb skynet.
Create Rewrite HintDb skynet.
#[export] Hint Resolve wp_ret wp_get wp_put wp_modify wp_emit returns_done : skynet.
#[export] Hint Rewrite @length_app @length_take @length_drop @length_replicate
  @length_insert @length_zset @length_fmap : skynet.

(** [lens]: rewrite the lengths of the buffers in sight, then decide. *)
Ltac lens := autorewrite with skynet in *; simpl in *; lia.

(** [zb]: case analysis on the boolean comparisons of the goal. *)
Ltac zb :=
  repeat match goal with
  | |- context [?a <? ?b] => destruct (Z.ltb_spec a b)
  | |- context [?a <=? ?b] => destruct (Z.leb_spec a b)
  | |- context [?a =? ?b] => destruct (Z.eqb_spec a b)
  end; simpl; try lia.

(** [dlia]: [lia] with divisions and remainders by constants. *)
Ltac dlia := Z.div_mod_to_equations; lia.

(** [bytes]: a concrete list of bytes is one. *)
Ltac bytes := unfold bytes_ok; repeat (apply List.Forall_cons || apply List.Forall_nil);
  unfold byte_ok; lia.

(** [step]: one step of a handler under [wp]. *)
Ltac step :=
  first
    [ apply wp_bind | apply wp_ret | apply wp_get | apply wp_put | apply wp_modify
    | apply wp_emit | apply wp_lift ]; simpl.

(** ** First-in first-out queues

    What a ring buffer promises to its clients: the buffer stands for the list
    of its elements in arrival order; a push succeeds as long as the queue stays
    shorter than [fifo_capacity], where the machine integers of the
    implementation would overflow. *)
Class Fifo (Q A E : Type) := {
  fifo_ok : Q → Prop;
  fifo_list : Q → list A;
  fifo_capacity : Z;
  fifo_push : Q → A → outcome E Q;
  fifo_pop : Q → outcome E (option (A * Q));
  fifo_empty : Q → bool;
  fifo_size : Q → Z;
  fifo_push_spec : ∀ q a, fifo_ok q → len (fifo_list q) + 1 < fifo_capacity →
    returns (fifo_push q a) (fun q' => fifo_ok q' ∧ fifo_list q' = fifo_list q ++ [a]);
  fifo_empty_spec : ∀ q, fifo_ok q → fifo_empty q = true ↔ fifo_list q = [];
  fifo_size_spec : ∀ q, fifo_ok q → fifo_size q = len (fifo_list q);
  fifo_pop_nil : ∀ q, fifo_ok q → fifo_list q = [] → fifo_pop q = Done None;
  fifo_pop_cons : ∀ q a l, fifo_ok q → fifo_list q = a :: l →
    returns (fifo_pop q) (fun r => ∃ q', r = Some (a, q') ∧ fifo_ok q' ∧ fifo_list q' = l)
}.

(** [n] more pushes fit. *)
Definition fifo_room {Q A E} `{Fifo Q A E} (n : nat) (q : Q) : Prop :=
  len (fifo_list q) + Z.of_nat n < fifo_capacity.

#[global] Arguments fifo_list {Q A E _} : simpl never.
#[global] Arguments fifo_ok {Q A E _} : simpl never.
#[global] Arguments fifo_push {Q A E _} : simpl never.
#[global] Arguments fifo_pop {Q A E _} : simpl never.
#[global] Arguments fifo_empty {Q A E _} : simpl never.
#[global] Arguments fifo_size {Q A E _} : simpl never.
#[global] Arguments fifo_capacity {Q A E _} : simpl never.

(** Sequences of operations on a queue, and on the list it stands for. *)
Inductive fifo_op (A : Type) := Push (a : A) | Pop.
Arguments Push {A} _.
Arguments Pop {A}.

Section fifo_runs.
Context {Q A E : Type} `{Fifo Q A E}.

Fixpoint fifo_run (q : Q) (ops : list (fifo_op A)) : outcome E (Q * list (option A)) :=
  match ops with
  | [] => Done (q, [])
  | Push a :: ops => let! q := fifo_push q a in fifo_run q ops
  | Pop :: ops =>
      let! r := fifo_pop q in
      match r with
      | None => let! (q, out) := fifo_run q ops in Done (q, None :: out)
      | Some (a, q) => let! (q, out) := fifo_run q ops in Done (q, Some a :: out)
      end
  end.

Fixpoint list_run (l : list A) (ops : list (fifo_op A)) : list A * list (option A) :=
  match ops with
  | [] => (l, [])
  | Push a :: ops => list_run (l ++ [a]) ops
  | Pop :: ops =>
      let '(l', out) := list_run (tail l) ops in (l', head l :: out)
  end.

Definition pushes (ops : list (fifo_op A)) : nat :=
  length (List.filter (fun o => match o with Push _ => true | Pop => false end) ops).

Lemma fifo_run_spec q ops :
  fifo_ok q → fifo_room (pushes ops) q →
  returns (fifo_run q ops) (fun r =>
    fifo_ok r.1 ∧ (fifo_list r.1, r.2) = list_run (fifo_list q) ops).
Proof.
  revert q. induction ops as [|[a|] ops IH]; intros q Hok Hroom; simpl.
  - by apply returns_done.
  - unfold fifo_room, pushes in *. simpl in Hroom.
    eapply returns_bind; [apply fifo_push_spec; [done|lia]|].
    intros q' [Hok' Hl]. rewrite <- Hl. apply IH; [done|].
    rewrite Hl, length_app. simpl. lia.
  - destruct (fifo_list q) as [|a l] eqn:Hl.
    + rewrite fifo_pop_nil by done. simpl.
      eapply returns_bind; [by apply IH|]. intros [q' out] [Hok' Hr]. simpl in *.
      apply returns_done. rewrite Hl in Hr. by destruct (list_run [] ops); simplify_eq.
    + eapply returns_bind; [by eapply fifo_pop_cons|].
      intros r (q1 & -> & Hok1 & Hl1). eapply returns_bind.
      * apply IH; [done|]. unfold fifo_room, pushes in *. rewrite Hl in Hroom.
        rewrite Hl1. simpl in Hroom. lia.
      * intros [q' out] [Hok' Hr]. simpl in *. apply returns_done.
        rewrite Hl1 in Hr. by destruct (list_run l ops); simplify_eq.
Qed.
End fifo_runs.
