(* ===== verification/Libc.v ===== *)
(** * The parts of the C library the server calls, as executable functions

    Character classes, decimal and hexadecimal output of [printf], the integer
    and word conversions of [sscanf], and the byte-order functions of
    [arpa/inet.h] on a little-endian machine. Characters are byte values; the
    locale is the C locale. *)
From S2P Require Import Prelude.

(** ** Character classes *)
Definition isspace (c : Z) : bool := (c =? 32) || ((9 <=? c) && (c <=? 13)).
Definition isdigit (c : Z) : bool := (48 <=? c) && (c <=? 57).

(** ** Decimal and hexadecimal output *)
Definition hexdigit (d : Z) : Z := if d <? 10 then 48 + d else 87 + d.

Fixpoint digits (fuel : nat) (base n : Z) (acc : list Z) : list Z :=
  match fuel with
  | O => acc
  | S f =>
      let acc' := hexdigit (n mod base) :: acc in
      if n / base =? 0 then acc' else digits f base (n / base) acc'
  end.

(** One step of fuel per bit is more than one per digit. *)
Definition digits_fuel (n : Z) : nat := S (Z.to_nat (Z.log2 n)).
Definition fmt_u (n : Z) : list Z := digits (digits_fuel n) 10 n [].
Definition fmt_d (n : Z) : list Z := if n <? 0 then 45 :: fmt_u (- n) else fmt_u n.
Definition pad_left (w : nat) (c : Z) (s : list Z) : list Z :=
  replicate (w - length s)%nat c ++ s.
Definition fmt_08x (n : Z) : list Z := pad_left 8 48 (digits (digits_fuel n) 16 n []).

(** ** Conversions of [sscanf] *)
Fixpoint skip_space (s : list Z) : list Z :=
  match s with
  | c :: s' => if isspace c then skip_space s' else s
  | [] => []
  end.

Fixpoint span {A} (p : A → bool) (s : list A) : list A * list A :=
  match s with
  | c :: s' => if p c then let '(a, b) := span p s' in (c :: a, b) else ([], s)
  | [] => ([], [])
  end.

Definition dec_value (ds : list Z) : Z := foldl (fun v c => v * 10 + (c - 48)) 0 ds.

(** [%d] and [%u]: blanks, a sign, digits. The value is the mathematical one;
    the caller stores it at the width of its variable. *)
Definition scan_int (s : list Z) : option (Z * list Z) :=
  let s := skip_space s in
  let '(neg, s) := match s with
    | 45 :: s' => (true, s')
    | 43 :: s' => (false, s')
    | _ => (false, s)
    end in
  match span isdigit s with
  | ([], _) => None
  | (ds, rest) => Some ((if neg then - dec_value ds else dec_value ds), rest)
  end.

(** [%s]: blanks, then the longest run of non-blanks, at least one. *)
Definition scan_word (s : list Z) : option (list Z * list Z) :=
  match span (fun c => negb (isspace c)) (skip_space s) with
  | ([], _) => None
  | (w, rest) => Some (w, rest)
  end.

(** ** Byte order *)
Definition be16 (b0 b1 : Z) : Z := b0 * 256 + b1.

(** The value of a big-endian byte string. *)
Definition be_value (l : list Z) : Z := foldl (fun v b => v * 256 + b) 0 l.

(** The value of the same bytes read by a little-endian machine. *)
Definition le_value (l : list Z) : Z := foldr (fun b v => b + 256 * v) 0 l.

(** [ntohs] and [ntohl] swap the bytes. *)
Definition ntohs (x : Z) : Z :=
  Z.lor (Z.shiftl (Z.land x 255) 8) (Z.land (Z.shiftr x 8) 255).
Definition ntohl (x : Z) : Z :=
  Z.lor (Z.shiftl (Z.land x 255) 24)
    (Z.lor (Z.shiftl (Z.land (Z.shiftr x 8) 255) 16)
      (Z.lor (Z.shiftl (Z.land (Z.shiftr x 16) 255) 8) (Z.land (Z.shiftr x 24) 255))).

(** [memcmp(a, b, n)] on the first [n] bytes of both: the difference of the first
    bytes that differ. *)
Fixpoint memcmp (n : nat) (a b : list Z) : Z :=
  match n, a, b with
  | S n', x :: a', y :: b' => if x =? y then memcmp n' a' b' else x - y
  | _, _, _ => 0
  end.

(** The C string at the beginning of a buffer. *)
Fixpoint cstr (s : list Z) : list Z :=
  match s with
  | c :: s' => if c =? 0 then [] else c :: cstr s'
  | [] => []
  end.

(** ** Lemmas *)
Lemma digits_value_aux fuel n acc :
  0 ≤ n < 2 ^ Z.of_nat fuel →
  (0 < fuel)%nat →
  ∃ ds, digits fuel 10 n acc = ds ++ acc ∧ ds ≠ [] ∧
    Forall (fun c => 48 ≤ c ≤ 57) ds ∧ dec_value ds = n.
Proof.
  revert n acc. induction fuel as [|f IH]; intros n acc Hn Hf; [lia|].
  cbn [digits]. pose proof (Z.div_mod n 10 ltac:(lia)) as Hdm.
  pose proof (Z.mod_pos_bound n 10 ltac:(lia)) as Hm.
  assert (hexdigit (n mod 10) = 48 + n mod 10) as Hh.
  { unfold hexdigit. zb. }
  destruct (Z.eqb_spec (n / 10) 0) as [Hz|Hz].
  - exists [48 + n mod 10]. rewrite Hh. split; [done|]. split; [done|]. split.
    + repeat constructor; lia.
    + unfold dec_value. simpl. lia.
  - rewrite Nat2Z.inj_succ, Z.pow_succ_r in Hn by lia.
    assert (0 < f)%nat as Hf'.
    { destruct f; [|lia]. simpl in Hn. lia. }
    destruct (IH (n / 10) (hexdigit (n mod 10) :: acc)) as (ds & Heq & Hne & Hds & Hv);
      [lia|done|].
    exists (ds ++ [48 + n mod 10]). rewrite Heq, Hh, <- app_assoc. split; [done|].
    split; [by destruct ds|]. split.
    + apply Forall_app. split; [done|]. repeat constructor; lia.
    + unfold dec_value in *. rewrite foldl_app, Hv. simpl. lia.
Qed.

(** [%u] prints the decimal digits of the value, at least one. *)
Lemma fmt_u_value n : 0 ≤ n →
  fmt_u n ≠ [] ∧ Forall (fun c => 48 ≤ c ≤ 57) (fmt_u n) ∧ dec_value (fmt_u n) = n.
Proof.
  intros Hn. unfold fmt_u, digits_fuel.
  destruct (digits_value_aux (S (Z.to_nat (Z.log2 n))) n []) as (ds & Heq & ? & ? & ?).
  - split; [done|]. rewrite Nat2Z.inj_succ, Z2Nat.id by apply Z.log2_nonneg.
    destruct (decide (n = 0)) as [->|]; [done|]. apply Z.log2_spec. lia.
  - lia.
  - rewrite Heq, app_nil_r. done.
Qed.

Lemma isdigit_true c : isdigit c = true ↔ 48 ≤ c ≤ 57.
Proof. unfold isdigit. rewrite andb_true_iff, !Z.leb_le. lia. Qed.

Lemma span_all {A} (p : A → bool) (s t : list A) :
  Forall (fun c => p c = true) s →
  match t with c :: _ => p c = false | [] => True end →
  span p (s ++ t) = (s, t).
Proof.
  intros Hs Ht. induction Hs as [|c s Hc Hs IH]; simpl.
  - destruct t; simpl; [done|]. by rewrite Ht.
  - by rewrite Hc, IH.
Qed.

(** ** Big-endian numbers *)
Lemma be_value_range l : bytes_ok l → 0 ≤ be_value l < 256 ^ len l.
Proof.
  unfold be_value. induction l as [|b l IH] using rev_ind; intros Hl; [done|].
  apply Forall_app in Hl as [Hl Hb]. rewrite Forall_singleton in Hb. unfold byte_ok in Hb.
  specialize (IH Hl). rewrite foldl_app, length_app, Nat2Z.inj_add, Z.pow_add_r by lia.
  simpl. change (256 ^ Z.of_nat 1) with 256. lia.
Qed.

Lemma be_value_app l1 l2 : be_value (l1 ++ l2) = be_value l1 * 256 ^ len l2 + be_value l2.
Proof.
  induction l2 as [|b l IH] using rev_ind.
  - rewrite app_nil_r. change (256 ^ len []) with 1. change (be_value []) with 0. lia.
  - rewrite app_assoc, length_app, Nat2Z.inj_add, Z.pow_add_r by lia.
    unfold be_value in *. rewrite (foldl_app _ (l1 ++ l)), (foldl_app _ l [b]), IH.
    simpl. change (256 ^ Z.of_nat 1) with 256. lia.
Qed.

(** The big-endian bytes of a number. *)
Fixpoint be_bytes (k : nat) (n : Z) : list Z :=
  match k with
  | O => []
  | S k' => be_bytes k' (n / 256) ++ [n mod 256]
  end.

Lemma length_be_bytes k n : length (be_bytes k n) = k.
Proof. revert n. induction k; intros n; simpl; [done|]. rewrite length_app, IHk. simpl. lia. Qed.

Lemma be_bytes_ok k n : bytes_ok (be_bytes k n).
Proof.
  revert n. induction k as [|k IH]; intros n; [constructor|].
  apply Forall_app. split; [apply IH|]. apply Forall_singleton. unfold byte_ok. dlia.
Qed.

Lemma be_value_bytes k n : 0 ≤ n < 256 ^ Z.of_nat k → be_value (be_bytes k n) = n.
Proof.
  revert n. induction k as [|k IH]; intros n Hn.
  { change (256 ^ Z.of_nat 0) with 1 in Hn. change (be_value (be_bytes 0 n)) with 0. lia. }
  rewrite Nat2Z.inj_succ, Z.pow_succ_r in Hn by lia.
  cbn [be_bytes]. rewrite be_value_app, IH by dlia. simpl.
  change (256 ^ Z.of_nat 1) with 256. unfold be_value. simpl. dlia.
Qed.
