(* ===== verification/Ring.v ===== *)
(** * Circular buffers

    The ring buffers of the server (service_package.c, lua-websocketnetpack.c)
    share a layout: [c] slots, a head and a tail index, one slot always free.
    This file relates such a buffer to the list of its elements; the component
    files prove their push and pop against it. *)
From S2P Require Import Prelude.

Section arithmetic.
Lemma next_mod c i : 0 < c → 0 ≤ i < c →
  (if c <=? i + 1 then 0 else i + 1) = (i + 1) mod c.
Proof.
  intros. destruct (Z.leb_spec c (i + 1)).
  - replace (i + 1) with c by lia. by rewrite Z.mod_same by lia.
  - by rewrite Z.mod_small by lia.
Qed.

Lemma mod_add_l c a b : 0 < c → (a mod c + b) mod c = (a + b) mod c.
Proof. intros. by rewrite Z.add_mod_idemp_l by lia. Qed.

Lemma mod_inj c h i j : 0 < c → 0 ≤ i < c → 0 ≤ j < c →
  (h + i) mod c = (h + j) mod c → i = j.
Proof.
  intros Hc Hi Hj Heq.
  assert ((i - j) mod c = 0) as Hd.
  { replace (i - j) with ((h + i) - (h + j)) by lia.
    rewrite Zminus_mod, Heq, Z.sub_diag. by apply Z.mod_0_l; lia. }
  apply Z.mod_divide in Hd as [k Hk]; [|lia].
  assert (k = 0) as -> by (destruct (Z.lt_trichotomy k 0) as [?|[?|?]]; nia). lia.
Qed.
End arithmetic.

Section ring.
Context {A : Type}.
Implicit Types (buf : list (option A)) (l : list A) (c h t : Z).

(** [n] slots from index [h] on. *)
Definition slots buf c h (n : nat) : list (option A) :=
  (fun i => default None (zget buf ((h + Z.of_nat i) mod c))) <$> seq 0 n.

Definition ring_size c h t : Z := if t <? h then t + c - h else t - h.

Definition ring_list buf c h t : list A :=
  omap id (slots buf c h (Z.to_nat (ring_size c h t))).

Record ring_ok buf c h t : Prop := {
  ring_cap : 0 < c;
  ring_head : 0 ≤ h < c;
  ring_tail : 0 ≤ t < c;
  ring_buffer : len buf = c;
  ring_slots : ∀ i : nat, Z.of_nat i < ring_size c h t →
    ∃ a, zget buf ((h + Z.of_nat i) mod c) = Some (Some a)
}.

Lemma ring_size_range buf c h t : ring_ok buf c h t → 0 ≤ ring_size c h t < c.
Proof. intros [? ? ? _ _]. unfold ring_size. destruct (Z.ltb_spec t h); lia. Qed.

(** The slot after the last element is the one [t] points to. *)
Lemma ring_size_tail buf c h t : ring_ok buf c h t → (h + ring_size c h t) mod c = t.
Proof.
  intros [? ? ? _ _]. unfold ring_size. destruct (Z.ltb_spec t h).
  - replace (h + (t + c - h)) with (t + 1 * c) by lia.
    rewrite Z.mod_add by lia. apply Z.mod_small. lia.
  - replace (h + (t - h)) with t by lia. apply Z.mod_small. lia.
Qed.

Lemma slots_cons buf c h n :
  0 < c → slots buf c h (S n) = default None (zget buf (h mod c)) :: slots buf c ((h + 1) mod c) n.
Proof.
  intros Hc. unfold slots. simpl. rewrite Z.add_0_r. f_equal.
  rewrite <- fmap_S_seq, <- list_fmap_compose. apply list_fmap_ext.
  intros i x _. cbn [compose]. rewrite mod_add_l by done.
  by replace (h + 1 + Z.of_nat x) with (h + Z.of_nat (S x)) by lia.
Qed.

Lemma slots_snoc buf c h n :
  slots buf c h (S n) = slots buf c h n ++ [default None (zget buf ((h + Z.of_nat n) mod c))].
Proof. unfold slots. by rewrite seq_S, fmap_app. Qed.

Lemma slots_ext buf buf' c h c' h' n :
  (∀ i : nat, (i < n)%nat →
    zget buf ((h + Z.of_nat i) mod c) = zget buf' ((h' + Z.of_nat i) mod c')) →
  slots buf c h n = slots buf' c' h' n.
Proof.
  intros Hext. unfold slots. apply list_fmap_ext. intros i x Hx.
  apply lookup_seq in Hx as [-> Hi]. simpl. by rewrite Hext.
Qed.

Lemma length_slots buf c h n : length (slots buf c h n) = n.
Proof. unfold slots. by rewrite length_fmap, length_seq. Qed.

Lemma slots_lookup buf c h n (i : nat) :
  (i < n)%nat → slots buf c h n !! i = Some (default None (zget buf ((h + Z.of_nat i) mod c))).
Proof. intros. unfold slots. by rewrite list_lookup_fmap, lookup_seq_lt. Qed.

Lemma ring_list_length buf c h t :
  ring_ok buf c h t → len (ring_list buf c h t) = ring_size c h t.
Proof.
  intros Hok. pose proof (ring_size_range _ _ _ _ Hok) as Hsz.
  assert (∀ l : list (option A), Forall is_Some l → length (omap id l) = length l) as Hom.
  { induction 1 as [|? ? [? ->] ? IH]; [done|]. simpl. f_equal. exact IH. }
  unfold ring_list. rewrite Hom, length_slots; [lia|].
  apply Forall_lookup_2. intros i x Hi.
  pose proof (lookup_lt_Some _ _ _ Hi) as Hlt. rewrite length_slots in Hlt.
  rewrite slots_lookup in Hi by done. simplify_eq.
  destruct (ring_slots _ _ _ _ Hok i) as [a ->]; [lia|]. by exists a.
Qed.

Lemma ring_empty buf c h t :
  ring_ok buf c h t → (h =? t) = true ↔ ring_list buf c h t = [].
Proof.
  intros Hok. pose proof (ring_list_length _ _ _ _ Hok) as Hlen.
  destruct Hok as [_ ? ? _ _]. unfold ring_size in *. rewrite Z.eqb_eq.
  split.
  - intros ->. apply nil_length_inv. rewrite Z.ltb_irrefl in Hlen. lia.
  - intros Hnil. rewrite Hnil in Hlen. change (len []) with 0 in Hlen.
    destruct (Z.ltb_spec t h); lia.
Qed.

(** One pop: the slot under the head, and the ring after it. *)
Lemma ring_pop buf c h t a l :
  ring_ok buf c h t → ring_list buf c h t = a :: l →
  h ≠ t ∧ zget buf h = Some (Some a) ∧
  ring_ok buf c ((h + 1) mod c) t ∧ ring_list buf c ((h + 1) mod c) t = l.
Proof.
  intros Hok Hl. pose proof (ring_list_length _ _ _ _ Hok) as Hlen.
  rewrite Hl in Hlen. cbn [length] in Hlen.
  pose proof (ring_size_range _ _ _ _ Hok) as Hr.
  pose proof Hok as [Hc Hh Ht Hb Hsl].
  destruct (Hsl 0%nat) as [x Hx]; [lia|]. rewrite Z.add_0_r, Z.mod_small in Hx by done.
  assert (ring_size c ((h + 1) mod c) t = ring_size c h t - 1 ∧ 0 ≤ (h + 1) mod c < c) as [Hs' Hh'].
  { rewrite <- next_mod by lia. unfold ring_size in *.
    destruct (Z.leb_spec c (h + 1)); zb; destruct (Z.ltb_spec t h); lia. }
  unfold ring_list in Hl |- *. rewrite Hs'.
  replace (Z.to_nat (ring_size c h t)) with (S (Z.to_nat (ring_size c h t - 1))) in Hl by lia.
  rewrite slots_cons, Z.mod_small, Hx in Hl by lia. simpl in Hl. injection Hl as <- Hl.
  split; [|split; [done|split; [|done]]].
  - intros ->. unfold ring_size in *. rewrite Z.ltb_irrefl in Hlen. lia.
  - split; try done. intros i Hi. rewrite Hs' in Hi.
    destruct (Hsl (S i)) as [b Hb']; [lia|]. exists b.
    rewrite mod_add_l by lia. rewrite <- Hb'. do 2 f_equal. lia.
Qed.

(** A buffer that extends another by one written slot. *)
Lemma ring_extend buf c h t buf' c' h' t' v :
  ring_ok buf c h t →
  0 ≤ h' < c' → 0 ≤ t' < c' → len buf' = c' →
  ring_size c' h' t' = ring_size c h t + 1 →
  (∀ i : nat, Z.of_nat i < ring_size c h t →
     zget buf' ((h' + Z.of_nat i) mod c') = zget buf ((h + Z.of_nat i) mod c)) →
  zget buf' ((h' + ring_size c h t) mod c') = Some (Some v) →
  ring_ok buf' c' h' t' ∧ ring_list buf' c' h' t' = ring_list buf c h t ++ [v].
Proof.
  intros Hok Hh Ht Hb Hs Hold Hnew. pose proof (ring_size_range _ _ _ _ Hok).
  split.
  - split; try done; [lia|]. intros i Hi. rewrite Hs in Hi.
    destruct (decide (Z.of_nat i < ring_size c h t)) as [Hlt|Hge].
    + rewrite Hold by done. by apply (ring_slots _ _ _ _ Hok).
    + exists v. replace (Z.of_nat i) with (ring_size c h t) by lia. done.
  - unfold ring_list. rewrite Hs.
    replace (Z.to_nat (ring_size c h t + 1)) with (S (Z.to_nat (ring_size c h t))) by lia.
    rewrite slots_snoc, omap_app. f_equal.
    + f_equal. apply slots_ext. intros i Hi. apply Hold. lia.
    + rewrite Z2Nat.id, Hnew by lia. done.
Qed.

(** A push that leaves a slot free. *)
Lemma ring_push buf c h t v :
  ring_ok buf c h t → ring_size c h t + 1 < c →
  h ≠ (t + 1) mod c ∧
  ring_ok (zset buf t (Some v)) c h ((t + 1) mod c) ∧
  ring_list (zset buf t (Some v)) c h ((t + 1) mod c) = ring_list buf c h t ++ [v].
Proof.
  intros Hok Hroom. pose proof (ring_size_range _ _ _ _ Hok).
  pose proof (ring_size_tail _ _ _ _ Hok) as Htail. pose proof Hok as [Hc Hh Ht Hb Hsl].
  split.
  { rewrite <- next_mod by lia. unfold ring_size in *.
    destruct (Z.leb_spec c (t + 1)), (Z.ltb_spec t h); lia. }
  apply ring_extend; try done.
  - apply Z.mod_pos_bound. lia.
  - by rewrite length_zset.
  - rewrite <- next_mod by lia. unfold ring_size in *.
    destruct (Z.leb_spec c (t + 1)); zb; destruct (Z.ltb_spec t h); lia.
  - intros i Hi. apply zget_zset_ne; [lia|]. rewrite <- Htail. intros Heq%mod_inj; lia.
  - rewrite Htail. apply zget_zset_eq. lia.
Qed.

(** The last free slot. *)
Lemma ring_full buf c h t :
  ring_ok buf c h t → ring_size c h t + 1 = c → h = (t + 1) mod c.
Proof.
  intros [? ? ? _ _] Hfull. rewrite <- next_mod by lia. unfold ring_size in *.
  destruct (Z.leb_spec c (t + 1)), (Z.ltb_spec t h); lia.
Qed.

(** A push that moves the elements of a full ring to a larger buffer. *)
Lemma ring_grow buf c h t buf' c' v :
  ring_ok buf c h t → ring_size c h t + 1 = c → c < c' → len buf' = c' →
  (∀ i : nat, Z.of_nat i < c - 1 → zget buf' (Z.of_nat i) = zget buf ((h + Z.of_nat i) mod c)) →
  zget buf' (c - 1) = Some (Some v) →
  ring_ok buf' c' 0 c ∧ ring_list buf' c' 0 c = ring_list buf c h t ++ [v].
Proof.
  intros Hok Hfull Hgrow Hlen Hold Hnew. pose proof (ring_size_range _ _ _ _ Hok).
  apply ring_extend; try done; try lia.
  - unfold ring_size in *. zb.
  - intros i Hi. rewrite Z.add_0_l, Z.mod_small by lia. apply Hold. lia.
  - rewrite Z.add_0_l, Z.mod_small by lia. by replace (ring_size c h t) with (c - 1) by lia.
Qed.
End ring.
