(* ===== verification/PackageQueue.v ===== *)
(** * The ring buffer of service_package.c

    [struct queue] with its operations [queue_init] .. [queue_size]: a circular
    buffer of fixed-size elements that doubles when it is full. The elements of
    the byte buffer are kept as the slots of a list; a slot that was never
    written holds [None]. The capacity, the indices and the allocation size are
    C [int]s: an allocation whose size overflows is a [Fault]. *)
From S2P Require Import Prelude Ring.

Module PackageQueue.

Record queue (A : Type) := Queue {
  cap : Z;
  sz : Z;                         (** the size of an element in bytes *)
  head : Z;
  tail : Z;
  buffer : list (option A)
}.
Arguments Queue {A} _ _ _ _ _.
Arguments cap {A} _.
Arguments sz {A} _.
Arguments head {A} _.
Arguments tail {A} _.
Arguments buffer {A} _.

Section ops.
Context {E A : Type}.
Implicit Types (q : queue A) (value : A).

Definition queue_init (size : Z) : queue A :=
  Queue 4 size 0 0 (replicate 4 None).

Definition queue_empty q : bool := head q =? tail q.

(** [None]: the queue is empty (the C function returns 1). *)
Definition queue_pop q : outcome E (option (A * queue A)) :=
  if head q =? tail q then Done None
  else
    let! slot := rd (buffer q) (head q) in
    match slot with
    | None => Fault Uninitialised
    | Some result =>
        let h := head q + 1 in
        Done (Some (result,
          Queue (cap q) (sz q) (if cap q <=? h then 0 else h) (tail q) (buffer q)))
    end.

(** The copy loop of [queue_push]: [n] slots, starting at [h] and going round. *)
Fixpoint copy_loop (n : nat) (capacity : Z) (buf : list (option A)) (h : Z)
    : outcome E (list (option A)) :=
  match n with
  | O => Done []
  | S n' =>
      let! x := rd buf h in
      let h' := h + 1 in
      let! rest := copy_loop n' capacity buf (if capacity <=? h' then 0 else h') in
      Done (x :: rest)
  end.

Definition queue_push q value : outcome E (queue A) :=
  let slot := tail q in
  let t := tail q + 1 in
  let t := if cap q <=? t then 0 else t in
  if head q =? t then
    (guard_or AssertFailed (0 <? sz q) ;;!
     let capacity := cap q * 2 in
     if INT_MAX <? capacity * sz q then Fault IntOverflow
     else
       let! copied := copy_loop (Z.to_nat (cap q)) (cap q) (buffer q) (head q) in
       let tmp := copied ++ replicate (Z.to_nat (cap q)) None in
       let! tmp := wr tmp (cap q - 1) (Some value) in
       Done (Queue capacity (sz q) 0 (cap q) tmp))
  else
    let! buf := wr (buffer q) slot (Some value) in
    Done (Queue (cap q) (sz q) (head q) t buf).

Definition queue_size q : Z :=
  if tail q <? head q then tail q + cap q - head q else tail q - head q.
End ops.

(** ** What the buffer stands for *)
Section spec.
Context {E A : Type}.
Implicit Types (q : queue A) (l : list A).

Definition queue_list q : list A := ring_list (buffer q) (cap q) (head q) (tail q).

(** A well-formed ring whose capacity is a power of two, at least four slots, and
    whose allocation size is an [int]. *)
Record queue_ok q : Prop := {
  ok_ring : ring_ok (buffer q) (cap q) (head q) (tail q);
  ok_sz : 0 < sz q ≤ 16;
  ok_cap : ∃ k : nat, (2 ≤ k ≤ 25)%nat ∧ cap q = 2 ^ Z.of_nat k
}.

Definition MAX_ELEMS : Z := 2 ^ 25.

Lemma cap_pos q : queue_ok q → 4 ≤ cap q ≤ 2 ^ 25.
Proof.
  intros [_ _ (k & Hk & ->)]. split.
  - change 4 with (2 ^ 2). apply Z.pow_le_mono_r; lia.
  - apply Z.pow_le_mono_r; lia.
Qed.

Lemma queue_size_ring q : queue_size q = ring_size (cap q) (head q) (tail q).
Proof. done. Qed.

Lemma copy_loop_spec n c (buf : list (option A)) h :
  0 < c → len buf = c → 0 ≤ h < c → copy_loop (E:=E) n c buf h = Done (slots buf c h n).
Proof.
  intros Hc Hlen. revert h. induction n as [|n IH]; intros h Hh; [done|].
  cbn [copy_loop]. destruct (rd_total (E:=E) buf h) as [x Hx]; [lia|].
  rewrite Hx. cbn [obind]. rewrite next_mod by lia.
  rewrite IH by (apply Z.mod_pos_bound; lia). cbn [obind]. f_equal.
  rewrite slots_cons by done. rewrite (Z.mod_small h) by lia. f_equal.
  unfold rd in Hx. destruct (zget buf h); by simplify_eq.
Qed.

Lemma queue_list_length q : queue_ok q → len (queue_list q) = queue_size q.
Proof. intros [Hr _ _]. by apply ring_list_length. Qed.

Lemma queue_init_ok size : 0 < size ≤ 16 → queue_ok (queue_init (A:=A) size).
Proof.
  intros. split; [|done|by exists 2%nat; split; [lia|]].
  split; simpl; try lia. unfold ring_size. simpl. lia.
Qed.

Lemma queue_empty_spec q : queue_ok q → queue_empty q = true ↔ queue_list q = [].
Proof. intros [Hr _ _]. by apply ring_empty. Qed.

Lemma queue_pop_nil q : queue_ok q → queue_list q = [] → queue_pop (E:=E) q = Done None.
Proof.
  intros Hok Hnil%queue_empty_spec; [|done]. unfold queue_pop, queue_empty in *. by rewrite Hnil.
Qed.

Lemma queue_pop_cons q a l :
  queue_ok q → queue_list q = a :: l →
  returns (queue_pop (E:=E) q) (fun r => ∃ q', r = Some (a, q') ∧ queue_ok q' ∧ queue_list q' = l).
Proof.
  intros Hok Hl. pose proof Hok as [Hr Hsz Hcap].
  destruct (ring_pop _ _ _ _ _ _ Hr Hl) as (Hne & Hg & Hr' & Hl').
  unfold queue_pop. destruct (Z.eqb_spec (head q) (tail q)); [done|].
  rewrite (rd_done _ _ _ Hg). simpl. rewrite next_mod by apply Hr.
  apply returns_done. by eexists.
Qed.

(** The push that finds room. *)
Lemma queue_push_plain q v :
  queue_ok q → queue_size q + 1 < cap q →
  returns (queue_push (E:=E) q v) (fun q' => queue_ok q' ∧ queue_list q' = queue_list q ++ [v]).
Proof.
  intros Hok Hroom. pose proof Hok as [Hr Hsz Hcap].
  destruct (ring_push _ _ _ _ v Hr Hroom) as (Hne & Hr' & Hl').
  destruct Hr as [Hc Hh Ht Hb _].
  unfold queue_push. rewrite next_mod by lia.
  destruct (Z.eqb_spec (head q) ((tail q + 1) mod cap q)); [done|].
  rewrite wr_done by lia. by apply returns_done.
Qed.

(** The push that doubles the ring. *)
Lemma queue_push_grow q v :
  queue_ok q → queue_size q + 1 = cap q → cap q < 2 ^ 25 →
  returns (queue_push (E:=E) q v) (fun q' => queue_ok q' ∧ queue_list q' = queue_list q ++ [v]).
Proof.
  intros Hok Hfull Hmax. pose proof (cap_pos q Hok) as Hc4.
  destruct Hok as [Hr Hsz (k & Hk & Hck)].
  pose proof (ring_full _ _ _ _ Hr Hfull) as Heq. pose proof Hr as [Hc Hh Ht Hb _].
  unfold queue_push. rewrite next_mod by lia.
  destruct (Z.eqb_spec (head q) ((tail q + 1) mod cap q)); [|done].
  unfold guard_or. destruct (Z.ltb_spec 0 (sz q)); [|lia]. cbn [obind].
  destruct (Z.ltb_spec INT_MAX (cap q * 2 * sz q)); [unfold INT_MAX in *; nia|].
  rewrite copy_loop_spec by lia. cbn [obind].
  set (sl := slots (buffer q) (cap q) (head q) (Z.to_nat (cap q))).
  assert (len sl = cap q) as Hlsl by (unfold sl; rewrite length_slots; lia).
  rewrite wr_done by lens. cbn [obind]. apply returns_done.
  destruct (ring_grow _ _ _ _ (zset (sl ++ replicate (Z.to_nat (cap q)) None) (cap q - 1) (Some v))
    (cap q * 2) v Hr Hfull) as [Hr' Hl']; try (lens || by apply zget_zset_eq; lens).
  { intros i Hi. rewrite zget_zset_ne by lia. rewrite zget_of_nat, lookup_app_l by lia.
    unfold sl. rewrite slots_lookup by lia.
    destruct (ring_slots _ _ _ _ Hr i) as [a ->]; [|done]. rewrite <- queue_size_ring. lia. }
  split; [|exact Hl']. split; [exact Hr'|done|]. exists (S k). cbn [cap].
  rewrite Nat2Z.inj_succ, Z.pow_succ_r by lia. split; [|lia].
  assert (Z.of_nat k < 25); [|lia]. apply (Z.pow_lt_mono_r_iff 2); lia.
Qed.

Lemma queue_push_spec q v :
  queue_ok q → len (queue_list q) + 1 < MAX_ELEMS →
  returns (queue_push (E:=E) q v) (fun q' =>
    queue_ok q' ∧ queue_list q' = queue_list q ++ [v]).
Proof.
  intros Hok Hroom. pose proof (cap_pos q Hok). pose proof (ring_size_range _ _ _ _ (ok_ring q Hok)) as Hr.
  rewrite <- queue_size_ring in Hr.
  rewrite queue_list_length in Hroom by done. unfold MAX_ELEMS in *.
  destruct (decide (queue_size q + 1 < cap q)).
  - eapply returns_mono; [by apply queue_push_plain|]. naive_solver.
  - eapply returns_mono; [apply queue_push_grow; [done|lia|lia]|]. naive_solver.
Qed.
End spec.

(** The ring keeps the promise of a queue. *)
#[export] Instance queue_fifo E A : Fifo (queue A) A E := {|
  fifo_ok := queue_ok;
  fifo_list := queue_list;
  fifo_capacity := MAX_ELEMS;
  fifo_push := queue_push;
  fifo_pop := queue_pop;
  fifo_empty := queue_empty;
  fifo_size := queue_size;
  fifo_push_spec := queue_push_spec;
  fifo_empty_spec := queue_empty_spec;
  fifo_size_spec := fun q Hq => eq_sym (queue_list_length q Hq);
  fifo_pop_nil := queue_pop_nil;
  fifo_pop_cons := queue_pop_cons
|}.

(** C20: any sequence of pushes and pops on the ring buffer behaves as on a list:
    elements leave in the order in which they came, across wrap-around and
    growth, and a pop of an empty queue is reported. *)
Theorem ring_refines_list {E A} (size : Z) (ops : list (fifo_op A)) :
  0 < size ≤ 16 → Z.of_nat (pushes ops) < MAX_ELEMS →
  returns (fifo_run (E:=E) (queue_init size) ops) (fun r =>
    queue_ok r.1 ∧ (queue_list r.1, r.2) = list_run [] ops).
Proof.
  intros Hsize Hroom. pose proof (queue_init_ok (A:=A) size Hsize) as Hok.
  exact (fifo_run_spec (Q:=queue A) (queue_init size) ops Hok Hroom).
Qed.

Definition demo_ops : list (fifo_op Z) :=
  [Pop; Push 1; Push 2; Push 3; Pop; Push 4; Push 5; Push 6; Pop].

Lemma ring_refines_list_witness :
  returns (fifo_run (E:=Empty_set) (queue_init 8) demo_ops) (fun r =>
    queue_ok r.1 ∧ (queue_list r.1, r.2) = ([3; 4; 5; 6], [None; Some 1; Some 2])).
Proof. apply (ring_refines_list 8 demo_ops); [lia|reflexivity]. Defined.

End PackageQueue.
