(* ===== verification/Package.v ===== *)
(** * service_package.c: the package service

    A service that owns one TCP connection, cuts the byte stream into packages
    with a two-byte big-endian length and answers the requests of other services
    with them. [package] is [struct package]; each handler of the C file is one
    definition, a program of the monad [M] whose effects are the calls of the
    skynet framework, in order. A heap block is kept as the list of its bytes,
    [None] for a byte that was never written. *)
From S2P Require Import Prelude Libc PackageQueue.

Module Package.
Import PackageQueue.

(** The message types of skynet.h and skynet_socket.h that the file uses. *)
Inductive ptype := PTYPE_TEXT | PTYPE_RESPONSE | PTYPE_CLIENT | PTYPE_SOCKET
  | PTYPE_ERROR | PTYPE_other (n : Z).
Inductive socket_type := SOCKET_DATA | SOCKET_CONNECT | SOCKET_CLOSE | SOCKET_ACCEPT
  | SOCKET_ERROR | SOCKET_WARNING | SOCKET_other (n : Z).

Record response_t := Response { rsz : Z; rmsg : list (option Z) }.
Record request_t := Request { source : Z; session : Z }.

Record package := Pkg {
  manager : Z;
  fd : Z;
  heartbeat_ : Z;
  recv : Z;
  init : Z;
  closed : Z;
  header_sz : Z;
  header : Z * Z;
  uncomplete_sz : Z;
  uncomplete : response_t;
  request : queue request_t;
  response : queue response_t
}.

Record socket_message_t := SockMsg { stype : socket_type; sid : Z; ud : Z; sbuffer : list Z }.

(** The calls of the framework. [Send dest type dontcopy session msg] is
    [skynet_send(ctx, 0, dest, type, session, msg, sz)]. *)
Inductive effect :=
  | Send (dest : Z) (type : ptype) (dontcopy : bool) (session : Z) (msg : list (option Z))
  | SocketShutdown (fd : Z)
  | SocketSend (fd : Z) (data : list Z)
  | SocketStart (fd : Z)
  | SocketNodelay (fd : Z)
  | Command (cmd : list Z) (arg : list Z)
  | SkynetError (text : list Z)
  | Callback
  | Free (block : list (option Z))
  | QueueExit
  | FreePackage.

(** The two queues are used through the interface of a queue. *)
Abbreviation fifo_empty := (fifo_empty (E:=Empty_set)).
Abbreviation fifo_size := (fifo_size (E:=Empty_set)).

Abbreviation HM A := (M package effect Empty_set A).
Abbreviation bytes l := (Some <$> l : list (option Z)).

(** ** Field updates *)
Definition set_manager_fd (m f : Z) (P : package) : package :=
  Pkg m f (heartbeat_ P) (recv P) (init P) (closed P) (header_sz P) (header P)
    (uncomplete_sz P) (uncomplete P) (request P) (response P).
Definition set_heartbeat (h r : Z) (P : package) : package :=
  Pkg (manager P) (fd P) h r (init P) (closed P) (header_sz P) (header P)
    (uncomplete_sz P) (uncomplete P) (request P) (response P).
Definition set_init (i : Z) (P : package) : package :=
  Pkg (manager P) (fd P) (heartbeat_ P) (recv P) i (closed P) (header_sz P) (header P)
    (uncomplete_sz P) (uncomplete P) (request P) (response P).
Definition set_closed (c : Z) (P : package) : package :=
  Pkg (manager P) (fd P) (heartbeat_ P) (recv P) (init P) c (header_sz P) (header P)
    (uncomplete_sz P) (uncomplete P) (request P) (response P).
Definition set_header (n : Z) (h : Z * Z) (P : package) : package :=
  Pkg (manager P) (fd P) (heartbeat_ P) (recv P) (init P) (closed P) n h
    (uncomplete_sz P) (uncomplete P) (request P) (response P).
Definition set_uncomplete (n : Z) (u : response_t) (P : package) : package :=
  Pkg (manager P) (fd P) (heartbeat_ P) (recv P) (init P) (closed P) (header_sz P) (header P)
    n u (request P) (response P).
Definition set_request (q : queue request_t) (P : package) : package :=
  Pkg (manager P) (fd P) (heartbeat_ P) (recv P) (init P) (closed P) (header_sz P) (header P)
    (uncomplete_sz P) (uncomplete P) q (response P).
Definition set_response (q : queue response_t) (P : package) : package :=
  Pkg (manager P) (fd P) (heartbeat_ P) (recv P) (init P) (closed P) (header_sz P) (header P)
    (uncomplete_sz P) (uncomplete P) (request P) q.

(** ** The stream parser *)

(** The second half of an iteration of [new_message]: read what is there of the
    next header. [None]: the function returns. *)
Definition read_header (P : package) (msg : list Z) (sz : Z)
    : outcome Empty_set (package * option (list Z * Z)) :=
  if sz <=? 0 then Done (P, None)
  else
    let start P msg sz :=
      let n := (header P).1 * 256 + (header P).2 in
      Done (set_uncomplete n (Response n (replicate (Z.to_nat n) None)) P, Some (msg, sz)) in
    if header_sz P =? 0 then
      let! h0 := rd msg 0 in
      if sz =? 1 then Done (set_header 1 (h0, (header P).2) P, None)
      else
        let! h1 := rd msg 1 in
        start (set_header (header_sz P) (h0, h1) P) (drop 2 msg) (sz - 2)
    else
      guard_or AssertFailed (header_sz P =? 1) ;;!
      let! h1 := rd msg 0 in
      start (set_header 0 ((header P).1, h1) P) (drop 1 msg) (sz - 1).

(** The [for (;;)] of [new_message]. *)
Fixpoint new_message_loop (fuel : nat) (P : package) (msg : list Z) (sz : Z)
    : outcome Empty_set package :=
  match fuel with
  | O => NoFuel
  | S fuel' =>
      let continue P msg sz :=
        let! (P, next) := read_header P msg sz in
        match next with
        | None => Done P
        | Some (msg, sz) => new_message_loop fuel' P msg sz
        end in
      let u := uncomplete P in
      if 0 <=? uncomplete_sz P then
        if uncomplete_sz P <=? sz then
          let! src := rdn msg (uncomplete_sz P) in
          let! buf := memcpy (rmsg u) (rsz u - uncomplete_sz P) (bytes src) in
          let u' := Response (rsz u) buf in
          let! q := fifo_push (response P) u' in
          continue (set_response q (set_uncomplete (-1) u' P))
            (drop (Z.to_nat (uncomplete_sz P)) msg) (sz - uncomplete_sz P)
        else
          let! src := rdn msg sz in
          let! buf := memcpy (rmsg u) (rsz u - uncomplete_sz P) (bytes src) in
          Done (set_uncomplete (uncomplete_sz P - sz) (Response (rsz u) buf) P)
      else continue P msg sz
  end.

(** Every iteration but the last consumes a byte of the message. *)
Definition new_message (P : package) (msg : list Z) (sz : Z) : outcome Empty_set package :=
  if recv P =? INT_MAX then Fault IntOverflow
  else new_message_loop (S (Z.to_nat sz)) (set_heartbeat (heartbeat_ P) (recv P + 1) P) msg sz.

(** ** The handlers *)
Fixpoint response_loop (fuel : nat) : HM unit :=
  match fuel with
  | O => fun _ => NoFuel
  | S fuel' =>
      P <- get;;
      if fifo_empty (request P) then ret tt
      else if fifo_empty (response P) then ret tt
      else
        r <- lift (fifo_pop (request P));;
        s <- lift (fifo_pop (response P));;
        match r, s with
        | Some (req, rq), Some (resp, rs) =>
            modify (set_request rq);;
            modify (set_response rs);;
            m <- lift (rdn (rmsg resp) (rsz resp));;
            emit (Send (source req) PTYPE_RESPONSE true (session req) m);;
            response_loop fuel'
        | _, _ => fault_ Uninitialised
        end
  end.

(** The loop pops a request in every turn. *)
Definition respond : HM unit :=
  P <- get;; response_loop (S (Z.to_nat (fifo_size (request P)))).

Fixpoint exit_loop (fuel : nat) : HM unit :=
  match fuel with
  | O => fun _ => NoFuel
  | S fuel' =>
      P <- get;;
      if fifo_empty (request P) then ret tt
      else
        r <- lift (fifo_pop (request P));;
        match r with
        | Some (req, rq) =>
            modify (set_request rq);;
            emit (Send (source req) PTYPE_ERROR false (session req) []);;
            exit_loop fuel'
        | None => fault_ Uninitialised
        end
  end.

Definition service_exit : HM unit :=
  modify (set_closed 1);;
  P <- get;;
  exit_loop (S (Z.to_nat (fifo_size (request P))));;
  emit (Send (manager P) PTYPE_TEXT false 0 (bytes (lit "CLOSED")));;
  emit (Command (lit "EXIT") []).

Definition report_info (sess src : Z) : HM unit :=
  P <- get;;
  let '(unc, unc_sz) :=
    if negb (header_sz P =? 0) then (-1, 0)
    else if uncomplete_sz P =? 0 then (0, 0)
    else (uncomplete_sz P, rsz (uncomplete P)) in
  let tmp := lit "req=" ++ fmt_d (fifo_size (request P)) ++ lit " resp=" ++
    fmt_d (fifo_size (response P)) ++ lit " uncomplete=" ++ fmt_d unc ++ lit "/" ++
    fmt_d unc_sz in
  emit (Send src PTYPE_RESPONSE false sess (bytes tmp)).

Definition command (sess src : Z) (msg : list Z) : HM unit :=
  c <- lift (rd msg 0);;
  P <- get;;
  if c =? 82 (* 'R' *) then
    if negb (closed P =? 0) then
      emit (Send src PTYPE_ERROR false sess [])
    else if negb (fifo_empty (response P)) then
      lift (guard_or AssertFailed (fifo_empty (request P)));;
      r <- lift (fifo_pop (response P));;
      match r with
      | Some (resp, rs) =>
          modify (set_response rs);;
          m <- lift (rdn (rmsg resp) (rsz resp));;
          emit (Send src PTYPE_RESPONSE true sess m)
      | None => fault_ Uninitialised
      end
    else
      q <- lift (fifo_push (request P) (Request src sess));;
      modify (set_request q)
  else if c =? 75 (* 'K' *) then emit (SocketShutdown (fd P))
  else if c =? 73 (* 'I' *) then report_info sess src
  else
    emit (SkynetError (lit "Invalid command " ++ cstr msg));;
    emit (Send src PTYPE_ERROR false sess []).

Definition fail_connect (m : list Z) (smsg : socket_message_t) : HM unit :=
  P <- get;;
  if (init P =? 0) && (sid smsg =? fd P) then
    emit (Send (manager P) PTYPE_TEXT false 0 (bytes m));;
    modify (set_init 1)
  else ret tt.

Definition socket_message (smsg : socket_message_t) : HM unit :=
  match stype smsg with
  | SOCKET_CONNECT => fail_connect (lit "SUCC") smsg
  | SOCKET_CLOSE | SOCKET_ERROR =>
      fail_connect (lit "FAIL") smsg;;
      P <- get;;
      if negb (sid smsg =? fd P) then
        emit (SkynetError (lit "Invalid fd (" ++ fmt_d (sid smsg) ++ lit "), should be (" ++
          fmt_d (fd P) ++ lit ")"))
      else
        respond;;
        service_exit
  | SOCKET_DATA =>
      P <- get;;
      P' <- lift (new_message P (sbuffer smsg) (ud smsg));;
      put P';;
      emit (Free (bytes (sbuffer smsg)));;
      respond
  | SOCKET_WARNING =>
      P <- get;;
      emit (SkynetError (lit "Overload on " ++ fmt_d (fd P)))
  | _ => ret tt
  end.

Definition heartbeat : HM unit :=
  P <- get;;
  if recv P =? heartbeat_ P then
    if closed P =? 0 then
      emit (SocketShutdown (fd P));;
      emit (SkynetError (lit "timeout " ++ fmt_d (fd P)))
    else ret tt
  else
    modify (set_heartbeat 0 0);;
    emit (Command (lit "TIMEOUT") (lit "1000")).

Definition send_out (msg : list Z) : HM unit :=
  let sz := len msg in
  if 65535 <? sz then
    emit (SkynetError (lit "package too long (" ++ fmt_08x (u32 sz) ++ lit ")"))
  else
    P <- get;;
    let p0 := u8 (Z.shiftr (Z.land sz 65280) 8) in
    let p1 := u8 (Z.land sz 255) in
    emit (SocketSend (fd P) (p0 :: p1 :: msg)).

(** What the dispatcher passes: a byte string, or a socket message. *)
Inductive message_t := Bytes (msg : list Z) | Socket (smsg : socket_message_t).

Definition message_handler (type : ptype) (sess src : Z) (msg : message_t) : HM unit :=
  match type, msg with
  | PTYPE_TEXT, Bytes m => command sess src m
  | PTYPE_CLIENT, Bytes m => send_out m
  | PTYPE_RESPONSE, _ => heartbeat
  | PTYPE_SOCKET, Socket s => socket_message s
  | PTYPE_ERROR, _ => ret tt
  | PTYPE_other _, _ =>
      if 0 <? sess then emit (Send src PTYPE_ERROR false sess []) else ret tt
  | _, _ => ret tt (* the framework passes the representation of the type *)
  end.

(** ** Life cycle *)
Definition package_create : package :=
  Pkg 0 0 (-1) 0 0 0 0 (0, 0) (-1) (Response 0 []) (queue_init 8) (queue_init 16).

Fixpoint release_loop (fuel : nat) : HM unit :=
  match fuel with
  | O => fun _ => NoFuel
  | S fuel' =>
      P <- get;;
      if fifo_empty (response P) then ret tt
      else
        r <- lift (fifo_pop (response P));;
        match r with
        | Some (resp, rs) =>
            modify (set_response rs);;
            emit (Free (rmsg resp));;
            release_loop fuel'
        | None => fault_ Uninitialised
        end
  end.

Definition package_release : HM unit :=
  P <- get;;
  release_loop (S (Z.to_nat (fifo_size (response P))));;
  P <- get;;
  (if 0 <=? uncomplete_sz P then emit (Free (rmsg (uncomplete P))) else ret tt);;
  emit QueueExit;;
  emit QueueExit;;
  emit FreePackage.

(** [sscanf(param ? param : "", "%u %d", &P->manager, &P->fd)]. *)
Definition package_init (param : option (list Z)) : HM Z :=
  P <- get;;
  let '(n, m, f) :=
    match scan_int (default [] param) with
    | None => (0, manager P, fd P)
    | Some (m, rest) =>
        match scan_int rest with
        | None => (1, u32 m, fd P)
        | Some (f, _) => (2, u32 m, i32 f)
        end
    end in
  modify (set_manager_fd m f);;
  if negb (n =? 2) || (m =? 0) || (f =? 0) then
    emit (SkynetError (lit "Invalid param [" ++ default (lit "(null)") param ++ lit "]"));;
    ret 1
  else
    emit (SocketStart f);;
    emit (SocketNodelay f);;
    heartbeat;;
    emit Callback;;
    ret 0.

End Package.
