(* ===== verification/PackageSpec.v ===== *)
(** * Properties of the package service

    The framing of the byte stream as a declarative specification
    ([encode_frame], [incomplete]), the invariant of [struct package], the
    correctness of the incremental parser under any chunking of the stream, and
    the pairing of requests with packages. *)
From S2P Require Import Prelude Libc PackageQueue Package.

Import PackageQueue Package.

(** ** Framing *)
Module Framing.

Definition encode_frame (p : list Z) : list Z := len p / 256 :: len p mod 256 :: p.

Definition payload_ok (p : list Z) : Prop := bytes_ok p ∧ len p < 65536.

(** No complete package can be cut from [r]. *)
Definition incomplete (r : list Z) : Prop :=
  match r with
  | h0 :: h1 :: rest => len rest < h0 * 256 + h1
  | _ => True
  end.

(** [s] is the packages [fs] followed by the incomplete [r]. *)
Definition framed (s : list Z) (fs : list (list Z)) (r : list Z) : Prop :=
  s = concat (encode_frame <$> fs) ++ r ∧ incomplete r.

Lemma header_value (p : list Z) : len p / 256 * 256 + len p mod 256 = len p.
Proof. pose proof (Z.div_mod (len p) 256 ltac:(lia)). lia. Qed.

Lemma framed_incomplete s fs r : incomplete s → framed s fs r → fs = [] ∧ r = s.
Proof.
  intros Hs [Heq _]. destruct fs as [|p fs]; [by subst|]. exfalso.
  subst s. simpl in Hs. rewrite !length_app, header_value in Hs. lia.
Qed.

Lemma framed_cons h0 h1 rest fs r :
  0 ≤ h1 < 256 → h0 * 256 + h1 ≤ len rest → 0 ≤ h0 →
  framed (h0 :: h1 :: rest) fs r →
  ∃ fs', fs = take (Z.to_nat (h0 * 256 + h1)) rest :: fs' ∧
    framed (drop (Z.to_nat (h0 * 256 + h1)) rest) fs' r.
Proof.
  intros Hh1 Hle Hh0 [Heq Hr]. destruct fs as [|p fs].
  { simpl in Heq. subst r. simpl in Hr. lia. }
  simpl in Heq. injection Heq as H0 H1 Hrest. pose proof (header_value p) as Hv.
  rewrite <- H0, <- H1 in Hv. exists fs.
  rewrite Hv, Nat2Z.id, Hrest, <- app_assoc, take_app_length, drop_app_length. done.
Qed.

(** Every byte string is framed in exactly one way. *)
Lemma framed_exists s : bytes_ok s → ∃ fs r, framed s fs r ∧ Forall payload_ok fs.
Proof.
  remember (length s) as k eqn:Hk. revert s Hk.
  induction k as [k IH] using lt_wf_ind. intros s -> Hs.
  destruct s as [|h0 [|h1 rest]]; [by exists [], []|by exists [], [h0]|].
  inversion Hs as [|? ? Hh0 Hs']; subst. inversion Hs' as [|? ? Hh1 Hrest]; subst.
  unfold byte_ok in *.
  destruct (decide (len rest < h0 * 256 + h1)) as [Hlt|Hge].
  { exists [], (h0 :: h1 :: rest). done. }
  set (n := Z.to_nat (h0 * 256 + h1)).
  destruct (IH (length (drop n rest))) with (s := drop n rest) as (fs & r & [Heq Hr] & Hfs);
    [rewrite length_drop; simpl; lia|done|by apply Forall_drop|].
  assert (len (take n rest) = h0 * 256 + h1) as Hlen.
  { rewrite length_take. lia. }
  exists (take n rest :: fs), r. split; [split; [|done]|].
  - rewrite fmap_cons. cbn [concat]. unfold encode_frame at 1. rewrite Hlen.
    rewrite Z.div_add_l, (Z.div_small h1), Z.add_0_r by lia.
    rewrite Z.add_comm, Z.mod_add, Z.mod_small by lia.
    cbn [app]. do 2 f_equal. by rewrite <- app_assoc, <- Heq, take_drop.
  - constructor; [|done]. split; [by apply Forall_take|]. lia.
Qed.

Lemma framed_inj s fs r fs' r' :
  bytes_ok s → framed s fs r → framed s fs' r' → fs = fs' ∧ r = r'.
Proof.
  revert s fs'. induction fs as [|p fs IH]; intros s fs' Hs H1 H2.
  - destruct H1 as [-> Hr]. simpl in *. by destruct (framed_incomplete _ _ _ Hr H2) as [-> ->].
  - destruct H1 as [-> Hr]. simpl in H2, Hs.
    inversion Hs as [|? ? Hb0 Hs1]; subst. inversion Hs1 as [|? ? Hb1 Hs2]; subst.
    unfold byte_ok in *.
    apply framed_cons in H2 as (fs'' & -> & H2);
      [|lia|rewrite header_value, !length_app; lia|lia].
    rewrite header_value, Nat2Z.id in *. rewrite <- app_assoc in *.
    rewrite take_app_length, drop_app_length in *.
    apply Forall_app in Hs2 as [_ Hs2].
    destruct (IH _ _ Hs2 (conj eq_refl Hr) H2) as [-> ->]. done.
Qed.

End Framing.
Import Framing.

Abbreviation qok := (fifo_ok (E:=Empty_set)).
Abbreviation qlist := (fifo_list (E:=Empty_set)).
Abbreviation qroom := (fifo_room (E:=Empty_set)).

(** ** The invariant of [struct package] *)

(** The received prefix of the package under way. *)
Definition received (P : package) : list (option Z) :=
  take (Z.to_nat (rsz (uncomplete P) - uncomplete_sz P)) (rmsg (uncomplete P)).

(** The bytes of the stream that are not yet in a complete package. *)
Definition partial (P : package) : list Z :=
  if 0 <=? uncomplete_sz P then
    (header P).1 :: (header P).2 :: omap id (received P)
  else if header_sz P =? 1 then [(header P).1] else [].

Record package_ok (P : package) : Prop := {
  ok_request : qok (request P);
  ok_response : qok (response P);
  ok_header_sz : header_sz P = 0 ∨ (header_sz P = 1 ∧ uncomplete_sz P = -1);
  ok_header : byte_ok (header P).1 ∧ byte_ok (header P).2;
  ok_uncomplete : uncomplete_sz P = -1 ∨
    (0 ≤ uncomplete_sz P ≤ rsz (uncomplete P) ∧
     rsz (uncomplete P) = (header P).1 * 256 + (header P).2 ∧
     len (rmsg (uncomplete P)) = rsz (uncomplete P) ∧
     ∃ pre, received P = Some <$> pre ∧ bytes_ok pre)
}.

(** A package as the response queue holds it. *)
Definition full (p : list Z) : response_t := Response (len p) (Some <$> p).

(** Fields the parser does not touch. *)
Definition same_service (P P' : package) : Prop :=
  manager P' = manager P ∧ fd P' = fd P ∧ init P' = init P ∧ closed P' = closed P ∧
  request P' = request P ∧ heartbeat_ P' = heartbeat_ P.

(** ** The parser *)
Section parser.
Implicit Types (P : package) (msg r : list Z) (fs : list (list Z)).

Lemma bytes_ok_partial P : package_ok P → bytes_ok (partial P).
Proof.
  intros [_ _ _ [Hh0 Hh1] Hu]. unfold partial.
  destruct (Z.leb_spec 0 (uncomplete_sz P)).
  - destruct Hu as [?|(_ & _ & _ & pre & -> & Hpre)]; [lia|].
    rewrite omap_id_Some. by repeat (apply Forall_cons; split).
  - destruct (header_sz P =? 1); [by apply Forall_singleton|constructor].
Qed.

(** Storing a fresh header keeps the rest of the service. *)
Lemma header_start P h0 h1 :
  package_ok P → byte_ok h0 → byte_ok h1 →
  let n := h0 * 256 + h1 in
  let P' := set_uncomplete n (Response n (replicate (Z.to_nat n) None))
              (set_header 0 (h0, h1) P) in
  package_ok P' ∧ partial P' = [h0; h1] ∧ 0 ≤ uncomplete_sz P'.
Proof.
  intros [Hq Hr _ _ _] Hh0 Hh1 n P'. unfold byte_ok in *.
  assert (received P' = []) as Hrec.
  { unfold received, P'. simpl. by rewrite Z.sub_diag. }
  split; [|split].
  - split; try done; [by left|]. right. repeat split; simpl; try lia.
    + rewrite length_replicate. lia.
    + exists []. split; [done|constructor].
  - unfold partial. rewrite Hrec. simpl. destruct (Z.leb_spec 0 n); [done|lia].
  - simpl. lia.
Qed.

Definition header_post P msg fs r '((P', next) : package * option (list Z * Z)) : Prop :=
  package_ok P' ∧ same_service P P' ∧ recv P' = recv P ∧ response P' = response P ∧
  match next with
  | None => fs = [] ∧ partial P' = r
  | Some (msg', sz') => sz' = len msg' ∧ (length msg' < length msg)%nat ∧
      bytes_ok msg' ∧ partial P' ++ msg' = partial P ++ msg
  end.

Lemma read_header_spec P msg fs r :
  package_ok P → uncomplete_sz P = -1 → bytes_ok msg →
  framed (partial P ++ msg) fs r →
  returns (read_header P msg (len msg)) (header_post P msg fs r).
Proof.
  intros Hok Hu Hmsg Hf. unfold read_header, header_post.
  assert (partial P = if header_sz P =? 1 then [(header P).1] else []) as Hp.
  { unfold partial. by rewrite Hu. }
  pose proof Hok as [_ _ Hsz [Hh0 Hh1] _].
  destruct msg as [|m0 msg].
  { simpl. apply returns_done. repeat (split; [done|]). rewrite app_nil_r in Hf.
    apply framed_incomplete in Hf as [-> ->]; [done|].
    rewrite Hp. by destruct (header_sz P =? 1). }
  inversion Hmsg as [|? ? Hm0 Hmsg']; subst.
  destruct (Z.leb_spec (len (m0 :: msg)) 0); [simpl in *; lia|].
  destruct Hsz as [Hsz|[Hsz _]]; rewrite Hsz; rewrite Hsz in Hp; simpl in Hp |- *.
  - destruct msg as [|m1 msg]; simpl.
    + apply returns_done. rewrite Hp in Hf. simpl in Hf.
      apply framed_incomplete in Hf as [-> ->]; [|done].
      split; [|repeat (split; [done|]); unfold partial; simpl; by rewrite Hu].
      destruct Hok. split; simpl; auto.
    + inversion Hmsg' as [|? ? Hm1 Hmsg'']; subst.
      destruct (Z.eqb_spec (Z.of_nat (S (S (length msg)))) 1); [lia|].
      rewrite drop_0.
      apply returns_done. destruct (header_start P m0 m1 Hok Hm0 Hm1) as (H1 & H2 & _).
      split; [exact H1|]. repeat (split; [done|]). split; [lia|]. split; [lia|].
      split; [done|]. rewrite H2, Hp. done.
  - rewrite drop_0. apply returns_done. destruct (header_start P (header P).1 m0 Hok Hh0 Hm0) as (H1 & H2 & _).
    split; [exact H1|]. repeat (split; [done|]). split; [lia|]. split; [lia|].
    split; [done|]. rewrite H2, Hp. done.
Qed.

(** The bytes of [msg] that belong to the package under way are all there. *)
Lemma complete_package P msg pre fs r :
  package_ok P → 0 ≤ uncomplete_sz P → uncomplete_sz P ≤ len msg →
  received P = Some <$> pre → framed (partial P ++ msg) fs r →
  let n := Z.to_nat (uncomplete_sz P) in
  ∃ fs', fs = (pre ++ take n msg) :: fs' ∧ framed (drop n msg) fs' r ∧
    len (pre ++ take n msg) = rsz (uncomplete P).
Proof.
  intros Hok Hu Hle Hpre Hf n. pose proof (bytes_ok_partial P Hok) as Hb.
  destruct Hok as [_ _ _ _ [?|(Hr & Hn & Hl & _)]]; [lia|].
  assert (len pre = rsz (uncomplete P) - uncomplete_sz P) as Hlp.
  { apply (f_equal length) in Hpre. unfold received in Hpre.
    rewrite length_take, length_fmap in Hpre. lia. }
  unfold partial in Hf, Hb. rewrite Hpre, omap_id_Some in Hf, Hb.
  destruct (Z.leb_spec 0 (uncomplete_sz P)); [|lia].
  inversion Hb as [|? ? Hb0 Hb']; subst. inversion Hb' as [|? ? Hb1 _]; subst.
  unfold byte_ok in *. simpl in Hf.
  apply framed_cons in Hf as (fs' & -> & Hf); [|lia|rewrite length_app; lia|lia].
  exists fs'. rewrite <- Hn in *.
  assert (Z.to_nat (rsz (uncomplete P)) = (length pre + n)%nat) as Heq by lia.
  rewrite Heq in *. rewrite take_app_add, drop_app_add in *. split; [done|].
  split; [done|]. rewrite length_app, length_take. lia.
Qed.

(** They are not all there. *)
Lemma incomplete_package P msg fs r :
  package_ok P → 0 ≤ uncomplete_sz P → len msg < uncomplete_sz P →
  framed (partial P ++ msg) fs r → fs = [] ∧ r = partial P ++ msg.
Proof.
  intros Hok Hu Hlt Hf. apply framed_incomplete; [|done].
  destruct Hok as [_ _ _ _ [?|(Hr & Hn & Hl & pre & Hpre & _)]]; [lia|].
  unfold partial. rewrite Hpre, omap_id_Some.
  destruct (Z.leb_spec 0 (uncomplete_sz P)); [|lia]. simpl.
  apply (f_equal length) in Hpre. unfold received in Hpre.
  rewrite length_take, length_fmap in Hpre. rewrite length_app. lia.
Qed.

Definition loop_post P fs r P' : Prop :=
  package_ok P' ∧ same_service P P' ∧ recv P' = recv P ∧ partial P' = r ∧
  qlist (response P') = qlist (response P) ++ (full <$> fs).

Lemma same_service_trans P P' P'' :
  same_service P P' → same_service P' P'' → same_service P P''.
Proof. unfold same_service. intuition congruence. Qed.

(** The buffer after the missing bytes were copied in. *)
Lemma splice_received P (src : list Z) :
  package_ok P → 0 ≤ uncomplete_sz P → len src ≤ uncomplete_sz P →
  let off := rsz (uncomplete P) - uncomplete_sz P in
  let buf := splice (rmsg (uncomplete P)) (Z.to_nat off) (Some <$> src) in
  memcpy (E:=Empty_set) (rmsg (uncomplete P)) off (Some <$> src) = Done buf ∧
  len buf = rsz (uncomplete P) ∧
  take (Z.to_nat (off + len src)) buf = received P ++ (Some <$> src).
Proof.
  intros Hok Hu Hle off buf.
  destruct Hok as [_ _ _ _ [?|(Hr & Hn & Hl & _)]]; [lia|].
  assert (Z.to_nat off + length (Some <$> src) ≤ length (rmsg (uncomplete P)))%nat as Hfit.
  { rewrite length_fmap. lia. }
  split; [|split].
  - rewrite <- (Z2Nat.id off) at 1 by lia. by apply memcpy_done.
  - unfold buf. by rewrite length_splice.
  - replace (Z.to_nat (off + len src)) with (Z.to_nat off + length (Some <$> src))%nat
      by (rewrite length_fmap; lia).
    by apply splice_take.
Qed.

(** The tail of an iteration: the next header, then the next iteration. *)
Lemma continue_spec fuel P msg fs r :
  (∀ P msg fs r, package_ok P → bytes_ok msg → framed (partial P ++ msg) fs r →
    qroom (length fs) (response P) → (length msg < fuel)%nat →
    returns (new_message_loop fuel P msg (len msg)) (loop_post P fs r)) →
  package_ok P → uncomplete_sz P = -1 → bytes_ok msg → framed (partial P ++ msg) fs r →
  qroom (length fs) (response P) → (length msg < S fuel)%nat →
  returns
    (let! (P, next) := read_header P msg (len msg) in
     match next with
     | None => Done P
     | Some (msg, sz) => new_message_loop fuel P msg sz
     end) (loop_post P fs r).
Proof.
  intros IH Hok Hu Hmsg Hf Hroom Hfuel.
  eapply returns_bind; [by eapply read_header_spec|].
  intros [P' [[msg' sz']|]] (Hok' & Hsame & Hrecv & Hresp & Hnext).
  - destruct Hnext as (-> & Hlt & Hmsg' & Hstream).
    eapply returns_mono.
    + apply IH; [done|done|by rewrite Hstream|by rewrite Hresp|lia].
    + intros P'' (? & ? & Hrecv' & ? & Hq). rewrite Hresp in Hq. rewrite Hrecv in Hrecv'.
      repeat (split; [by eauto using same_service_trans|]). done.
  - destruct Hnext as [-> Hp]. apply returns_done.
    repeat (split; [done|]). rewrite Hresp. by rewrite app_nil_r.
Qed.

(** The copy that completes a package gives its bytes. *)
Lemma complete_copy P msg pre :
  package_ok P → 0 ≤ uncomplete_sz P → uncomplete_sz P ≤ len msg → received P = Some <$> pre →
  let n := Z.to_nat (uncomplete_sz P) in
  rdn (E:=Empty_set) msg (uncomplete_sz P) = Done (take n msg) ∧
  memcpy (E:=Empty_set) (rmsg (uncomplete P)) (rsz (uncomplete P) - uncomplete_sz P) (Some <$> take n msg) =
    Done (Some <$> pre ++ take n msg).
Proof.
  intros Hok Hu Hle Hpre n. split.
  { rewrite <- (Z2Nat.id (uncomplete_sz P)) by lia. apply rdn_done. lia. }
  destruct (splice_received P (take n msg) Hok Hu) as (-> & Hlb & Htk);
    [rewrite length_take; lia|]. f_equal.
  rewrite length_take, Nat.min_l in Htk by lia.
  replace (Z.to_nat (rsz (uncomplete P) - uncomplete_sz P + Z.of_nat n))
    with (Z.to_nat (rsz (uncomplete P))) in Htk by lia.
  by rewrite take_ge, Hpre, <- fmap_app in Htk by lia.
Qed.

(** The service after a package was queued. *)
Lemma queued_package P q u : package_ok P → 0 ≤ uncomplete_sz P → fifo_ok (E:=Empty_set) q →
  let P1 := set_response q (set_uncomplete (-1) u P) in package_ok P1 ∧ partial P1 = [].
Proof.
  intros [Hq Hr Hsz Hh _] Hu Hqok P1. split.
  - split; try done; [|by left]. destruct Hsz as [?|[? ?]]; [by left|lia].
  - unfold partial, P1. simpl. by destruct Hsz as [->|[? ?]]; [|lia].
Qed.

(** The service after a part of a package was copied. *)
Lemma continued_package P msg pre buf :
  package_ok P → bytes_ok msg → 0 ≤ uncomplete_sz P → len msg < uncomplete_sz P →
  received P = Some <$> pre → bytes_ok pre → len buf = rsz (uncomplete P) →
  take (Z.to_nat (rsz (uncomplete P) - uncomplete_sz P + len msg)) buf = received P ++ (Some <$> msg) →
  loop_post P [] (partial P ++ msg)
    (set_uncomplete (uncomplete_sz P - len msg) (Response (rsz (uncomplete P)) buf) P).
Proof.
  intros Hok Hmsg Hu Hlt Hpre Hbpre Hlb Htk. set (P' := set_uncomplete _ _ P).
  pose proof Hok as [Hq Hr Hsz Hh [?|(Hur & Hun & Hul & _)]]; [lia|].
  assert (received P' = Some <$> (pre ++ msg)) as Hrec.
  { unfold received, P'. simpl. rewrite fmap_app, <- Hpre, <- Htk. f_equal. lia. }
  split; [|repeat (split; [done|])].
  - split; try done; [destruct Hsz as [?|[? ?]]; [by left|lia]|].
    right. repeat split; simpl; try lia.
    exists (pre ++ msg). split; [done|]. by apply Forall_app.
  - rewrite app_nil_r. split; [|done]. unfold partial. rewrite Hrec, Hpre, !omap_id_Some.
    simpl. destruct (Z.leb_spec 0 (uncomplete_sz P - len msg)); [|lia].
    by destruct (Z.leb_spec 0 (uncomplete_sz P)); [|lia].
Qed.

Lemma new_message_loop_spec fuel P msg fs r :
  package_ok P → bytes_ok msg → framed (partial P ++ msg) fs r →
  qroom (length fs) (response P) → (length msg < fuel)%nat →
  returns (new_message_loop fuel P msg (len msg)) (loop_post P fs r).
Proof.
  revert P msg fs r. induction fuel as [|fuel IH]; intros P msg fs r Hok Hmsg Hf Hroom Hfuel;
    [lia|].
  cbn [new_message_loop].
  destruct (Z.leb_spec 0 (uncomplete_sz P)) as [Hu|Hu].
  2: { apply continue_spec; try done. destruct Hok as [_ _ _ _ [?|?]]; [done|lia]. }
  pose proof Hok as [_ Hr _ _ [?|(_ & _ & _ & pre & Hpre & Hbpre)]]; [lia|].
  destruct (Z.leb_spec (uncomplete_sz P) (len msg)) as [Hle|Hlt].
  - (* the package is complete *)
    destruct (complete_package P msg pre fs r) as (fs' & -> & Hf' & Hlen); try done.
    destruct (complete_copy P msg pre) as [-> Hcopy]; try done. cbn [obind]. rewrite Hcopy. cbn [obind].
    set (n := Z.to_nat (uncomplete_sz P)) in *.
    destruct (fifo_push_spec (E:=Empty_set) (response P)
      (Response (rsz (uncomplete P)) (Some <$> pre ++ take n msg)))
      as (q & -> & Hqok & Hql); [done|unfold fifo_room in Hroom; simpl in *; lia|]. cbn [obind].
    match goal with |- context [set_response q ?P0] => set (P1 := set_response q P0) end.
    assert (package_ok P1 ∧ partial P1 = []) as [Hok1 Hp1] by (by apply queued_package).
    replace (len msg - uncomplete_sz P) with (len (drop n msg)) by (rewrite length_drop; lia).
    eapply returns_mono.
    + apply (continue_spec fuel P1 (drop n msg) fs' r); try done.
      * by apply Forall_drop.
      * by rewrite Hp1.
      * unfold fifo_room in *. change (response P1) with q. rewrite Hql, length_app.
        simpl in *. lia.
      * rewrite length_drop. lia.
    + intros P' (? & ? & ? & ? & Hq'). repeat (split; [done|]).
      rewrite Hq'. change (response P1) with q.
      rewrite Hql, <- app_assoc, fmap_cons. unfold full at 2. by rewrite Hlen.
  - (* it is not *)
    destruct (incomplete_package P msg fs r) as [-> ->]; try done.
    rewrite rdn_done by lia. rewrite firstn_all. cbn [obind].
    destruct (splice_received P msg Hok Hu) as (-> & Hlb & Htk); [lia|].
    cbn [obind]. apply returns_done. by apply (continued_package P msg pre).
Qed.
End parser.

(** ** Reassembly of the stream *)

(** The chunks in the order in which the socket delivers them. *)
Fixpoint feed (P : package) (chunks : list (list Z)) : outcome Empty_set package :=
  match chunks with
  | [] => Done P
  | c :: cs => let! P := new_message P c (len c) in feed P cs
  end.

Lemma new_message_spec P msg fs r :
  package_ok P → bytes_ok msg → framed (partial P ++ msg) fs r →
  qroom (length fs) (response P) → recv P < INT_MAX →
  returns (new_message P msg (len msg)) (fun P' =>
    package_ok P' ∧ same_service P P' ∧ recv P' = recv P + 1 ∧ partial P' = r ∧
    qlist (response P') = qlist (response P) ++ (full <$> fs)).
Proof.
  intros Hok Hmsg Hf Hroom Hrecv. unfold new_message.
  destruct (Z.eqb_spec (recv P) INT_MAX); [lia|].
  set (P1 := set_heartbeat _ _ P).
  assert (package_ok P1) as Hok1 by (by destruct Hok).
  eapply returns_mono; [by apply (new_message_loop_spec _ P1); try done; lia|].
  intros P' (? & ? & ? & ? & ?). done.
Qed.

Lemma framed_app s t fs r fs' r' :
  framed s fs r → framed (r ++ t) fs' r' → framed (s ++ t) (fs ++ fs') r'.
Proof.
  intros [-> _] [Heq ?]. split; [|done].
  by rewrite fmap_app, concat_app, <- !app_assoc, Heq.
Qed.

Lemma bytes_ok_app l1 l2 : bytes_ok (l1 ++ l2) ↔ bytes_ok l1 ∧ bytes_ok l2.
Proof. apply Forall_app. Qed.

(** Feeding from any state whose unfinished bytes are incomplete. *)
Lemma feed_spec P chunks fs r :
  package_ok P → incomplete (partial P) →
  bytes_ok (concat chunks) →
  framed (partial P ++ concat chunks) fs r →
  qroom (length fs) (response P) →
  recv P + len chunks ≤ INT_MAX →
  returns (feed P chunks) (fun P' =>
    package_ok P' ∧ partial P' = r ∧
    qlist (response P') = qlist (response P) ++ (full <$> fs)).
Proof.
  revert P fs. induction chunks as [|c cs IH]; intros P fs Hok Hi Hb Hf Hroom Hrecv;
    cbn [feed concat] in *.
  - rewrite app_nil_r in Hf. destruct (framed_incomplete _ _ _ Hi Hf) as [-> ->].
    apply returns_done. simpl. by rewrite app_nil_r.
  - apply bytes_ok_app in Hb as [Hbc Hb].
    destruct (framed_exists (partial P ++ c)) as (fs1 & r1 & Hf1 & _).
    { apply bytes_ok_app. split; [by apply bytes_ok_partial|done]. }
    destruct (framed_exists (r1 ++ concat cs)) as (fs2 & r2 & Hf2 & _).
    { destruct Hf1 as [Heq _]. apply bytes_ok_app. split; [|done].
      assert (bytes_ok (partial P ++ c)) as Hpc.
      { apply bytes_ok_app. split; [by apply bytes_ok_partial|done]. }
      rewrite Heq in Hpc. by apply bytes_ok_app in Hpc as [_ ?]. }
    assert (fs = fs1 ++ fs2 ∧ r = r2) as [-> ->].
    { eapply framed_inj; [|exact Hf|].
      - rewrite bytes_ok_app, bytes_ok_app. split; [by apply bytes_ok_partial|done].
      - rewrite app_assoc. by eapply framed_app. }
    rewrite length_app in Hroom. simpl in Hrecv.
    eapply returns_bind.
    + apply new_message_spec; [done|done|exact Hf1|unfold fifo_room in *; lia|lia].
    + intros P1 (Hok1 & _ & Hr1 & Hp1 & Hq1). eapply returns_mono.
      * apply (IH P1 fs2); try done.
        -- rewrite Hp1. by destruct Hf1.
        -- by rewrite Hp1.
        -- unfold fifo_room in *. rewrite Hq1, length_app, length_fmap. lia.
        -- lia.
      * intros P2 (? & ? & Hq2). rewrite Hq1, <- app_assoc, <- fmap_app in Hq2. done.
Qed.

(** The bytes [send_out] puts on the wire for a message. *)
Lemma send_out_frame P msg :
  payload_ok msg →
  send_out msg P = Done (tt, P, [SocketSend (fd P) (encode_frame msg)]).
Proof.
  intros [_ Hlen]. unfold send_out, encode_frame.
  destruct (Z.ltb_spec 65535 (len msg)); [lia|].
  assert (u8 (Z.shiftr (Z.land (len msg) 65280) 8) = len msg / 256) as ->.
  { assert (Z.shiftr (Z.land (len msg) 65280) 8 = len msg / 256) as ->.
    { rewrite Z.shiftr_land. change (Z.shiftr 65280 8) with (Z.ones 8).
      rewrite Z.land_ones, Z.shiftr_div_pow2 by lia.
      apply Z.mod_small. change (2 ^ 8) with 256. dlia. }
    apply wrap_small. change (2 ^ 8) with 256. dlia. }
  assert (u8 (Z.land (len msg) 255) = len msg mod 256) as ->.
  { change 255 with (Z.ones 8). rewrite Z.land_ones by lia. unfold wrap.
    by rewrite Z.mod_mod by lia. }
  done.
Qed.
