(* ===== verification/PackagePairing.v ===== *)
(** * Requests and packages

    The service answers the k-th request with the k-th package of the stream,
    whatever the order in which requests and data arrive; closing the connection
    answers the requests that are still waiting as far as there are packages and fails
    the others, and releasing the service frees
    every block it owns. *)
From S2P Require Import Prelude Ring Libc PackageQueue Package PackageSpec.

Import PackageQueue Package Framing.

(** The answer to a request, and what the dispatcher hands over. *)
Definition reply (q : request_t) (p : list Z) : effect :=
  Send (source q) PTYPE_RESPONSE true (session q) (Some <$> p).

Definition is_reply (e : effect) : bool :=
  match e with Send _ PTYPE_RESPONSE true _ _ => true | _ => false end.

Definition replies (w : list effect) : list effect := List.filter is_reply w.
Arguments replies : simpl never.

Inductive event :=
  | EvRequest (src sess : Z) (rest : list Z)   (** a text message that begins with R *)
  | EvData (id : Z) (chunk : list Z)           (** a chunk of the stream *)
  | EvTimer (sess src : Z)
  | EvClient (sess src : Z) (msg : list Z)
  | EvInfo (src sess : Z) (rest : list Z).

Definition handle (e : event) : HM unit :=
  match e with
  | EvRequest src sess rest => message_handler PTYPE_TEXT sess src (Bytes (82 :: rest))
  | EvData id chunk =>
      message_handler PTYPE_SOCKET 0 0 (Socket (SockMsg SOCKET_DATA id (len chunk) chunk))
  | EvTimer sess src => message_handler PTYPE_RESPONSE sess src (Bytes [])
  | EvClient sess src msg => message_handler PTYPE_CLIENT sess src (Bytes msg)
  | EvInfo src sess rest => message_handler PTYPE_TEXT sess src (Bytes (73 :: rest))
  end.

Fixpoint run (es : list event) : HM unit :=
  match es with
  | [] => ret tt
  | e :: es => handle e;; run es
  end.

(** The requests and the stream a sequence of events carries. *)
Definition requests_of (es : list event) : list request_t :=
  omap (fun e => match e with EvRequest src sess _ => Some (Request src sess) | _ => None end) es.

Definition stream_of (es : list event) : list Z :=
  concat (omap (fun e => match e with EvData _ c => Some c | _ => None end) es).

Definition set_queues (rq : queue request_t) (rs : queue response_t) (P : package) : package :=
  set_response rs (set_request rq P).

Section pairing.
Implicit Types (P : package) (R : list request_t) (D : list (list Z)).

Lemma empty_nil {A} (q : queue A) : qok q → fifo_empty q = true → qlist q = [].
Proof. intros Hok He. by apply (fifo_empty_spec (E:=Empty_set)) in He. Qed.

Lemma empty_cons {A} (q : queue A) a l : qok q → qlist q = a :: l → fifo_empty q = false.
Proof.
  intros Hok Hl. destruct (fifo_empty q) eqn:He; [|done].
  apply empty_nil in He; congruence.
Qed.

Lemma empty_true {A} (q : queue A) : qok q → qlist q = [] → fifo_empty q = true.
Proof. intros Hok Hl. by apply (fifo_empty_spec (E:=Empty_set)). Qed.

(** Popping both queues until one is empty pairs them up in order. *)
Lemma response_loop_spec fuel P R D :
  qok (request P) → qok (response P) →
  qlist (request P) = R → qlist (response P) = full <$> D →
  (length R < fuel)%nat →
  wp (response_loop fuel) P (fun _ P' w =>
    w = zip_with reply R D ∧
    ∃ rq rs, P' = set_queues rq rs P ∧ qok rq ∧ qok rs ∧
      qlist rq = drop (length D) R ∧ qlist rs = full <$> drop (length R) D).
Proof.
  revert P R D. induction fuel as [|fuel IH]; intros P R D Hq Hr HR HD Hf; [lia|].
  cbn [response_loop]. step. step. destruct R as [|q R].
  { rewrite empty_true by done. step. split; [by destruct D|].
    exists (request P), (response P). rewrite ?drop_nil, ?drop_0. by destruct P. }
  rewrite (empty_cons _ _ _ Hq HR).
  destruct D as [|p D].
  { rewrite (empty_true (response P)) by done. step. split; [done|].
    exists (request P), (response P). rewrite ?drop_nil, ?drop_0. by destruct P. }
  rewrite fmap_cons in HD. rewrite (empty_cons _ _ _ Hr HD).
  step. step. destruct (fifo_pop_cons (E:=Empty_set) _ _ _ Hq HR)
    as (r & -> & rq & -> & Hq' & HR'). apply returns_done.
  step. step. destruct (fifo_pop_cons (E:=Empty_set) _ _ _ Hr HD)
    as (s & -> & rs & -> & Hr' & HD'). apply returns_done.
  step. step. step. step. step. step.
  rewrite rdn_done by (rewrite length_fmap; lia). apply returns_done.
  step. step. rewrite take_ge by (rewrite length_fmap; lia).
  eapply wp_mono.
  - apply (IH _ R D); try done. simpl in Hf. lia.
  - intros [] P' w (-> & rq' & rs' & -> & ? & ? & ? & ?).
    split; [done|]. exists rq', rs'. by destruct P.
Qed.

Lemma respond_spec P R D :
  qok (request P) → qok (response P) →
  qlist (request P) = R → qlist (response P) = full <$> D →
  wp respond P (fun _ P' w =>
    w = zip_with reply R D ∧
    ∃ rq rs, P' = set_queues rq rs P ∧ qok rq ∧ qok rs ∧
      qlist rq = drop (length D) R ∧ qlist rs = full <$> drop (length R) D).
Proof.
  intros Hq Hr HR HD. unfold respond. apply wp_bind, wp_get.
  rewrite (fifo_size_spec (E:=Empty_set)), Nat2Z.id by done.
  eapply response_loop_spec; try done. rewrite HR. lia.
Qed.

(** Closing: every waiting request fails, in order. *)
Lemma exit_loop_spec fuel P R :
  qok (request P) → qlist (request P) = R → (length R < fuel)%nat →
  wp (exit_loop fuel) P (fun _ P' w =>
    w = (fun q => Send (source q) PTYPE_ERROR false (session q) []) <$> R ∧
    ∃ rq, P' = set_request rq P ∧ qok rq ∧ qlist rq = []).
Proof.
  revert P R. induction fuel as [|fuel IH]; intros P R Hq HR Hf; [lia|].
  cbn [exit_loop]. step. step. destruct R as [|q R].
  { rewrite empty_true by done. step. split; [done|]. exists (request P). by destruct P. }
  rewrite (empty_cons _ _ _ Hq HR).
  step. step. destruct (fifo_pop_cons (E:=Empty_set) _ _ _ Hq HR)
    as (r & -> & rq & -> & Hq' & HR'). apply returns_done.
  step. step. step. step. eapply wp_mono.
  - apply (IH _ R); try done. simpl in Hf. lia.
  - intros [] P' w (-> & rq' & -> & ? & ?). split; [done|]. exists rq'. by destruct P.
Qed.

Lemma release_loop_spec fuel P L :
  qok (response P) → qlist (response P) = L → (length L < fuel)%nat →
  wp (release_loop fuel) P (fun _ P' w =>
    w = (fun r => Free (rmsg r)) <$> L ∧
    ∃ rs, P' = set_response rs P ∧ qok rs ∧ qlist rs = []).
Proof.
  revert P L. induction fuel as [|fuel IH]; intros P L Hq HL Hf; [lia|].
  cbn [release_loop]. step. step. destruct L as [|r L].
  { rewrite empty_true by done. step. split; [done|]. exists (response P). by destruct P. }
  rewrite (empty_cons _ _ _ Hq HL).
  step. step. destruct (fifo_pop_cons (E:=Empty_set) _ _ _ Hq HL)
    as (x & -> & rs & -> & Hq' & HL'). apply returns_done.
  step. step. step. step. eapply wp_mono.
  - apply (IH _ L); try done. simpl in Hf. lia.
  - intros [] P' w (-> & rs' & -> & ? & ?). split; [done|]. exists rs'. by destruct P.
Qed.
End pairing.

(** ** Lists that are consumed in step *)
Section in_step.
Context {A B C : Type} (f : A → B → C).
Implicit Types (R : list A) (D fs : list B).

Lemma zip_extend R D fs :
  zip_with f R (D ++ fs) =
  zip_with f R D ++ zip_with f (drop (length D) R) (drop (length R) D ++ fs).
Proof.
  revert D. induction R as [|q R IH]; intros D; [by rewrite drop_nil|].
  destruct D as [|p D]; simpl; [done|]. by rewrite IH.
Qed.

Lemma zip_snoc R D q :
  zip_with f (R ++ [q]) D = zip_with f R D ++ zip_with f [q] (drop (length R) D).
Proof.
  revert D. induction R as [|q' R IH]; intros D; [by rewrite drop_0|].
  destruct D as [|p D]; simpl; [done|]. by rewrite IH.
Qed.

Lemma drop_waiting R D fs :
  drop (length (drop (length R) D ++ fs)) (drop (length D) R) = drop (length (D ++ fs)) R.
Proof.
  rewrite drop_drop, !length_app, length_drop.
  destruct (decide (length R ≤ length D)%nat).
  - by rewrite !drop_ge by lia.
  - f_equal. lia.
Qed.

Lemma drop_ready R D fs :
  drop (length (drop (length D) R)) (drop (length R) D ++ fs) = drop (length R) (D ++ fs).
Proof.
  rewrite length_drop. destruct (decide (length R ≤ length D)%nat).
  - replace (length R - length D)%nat with 0%nat by lia.
    by rewrite drop_0, drop_app_le by lia.
  - rewrite (drop_ge D), (drop_app_ge D) by lia. done.
Qed.
End in_step.

Lemma replies_zip R D : replies (zip_with reply R D) = zip_with reply R D.
Proof.
  unfold replies. revert D. induction R as [|q R IH]; intros [|p D]; simpl; [done..|].
  by rewrite IH.
Qed.

Lemma replies_app w w' : replies (w ++ w') = replies w ++ replies w'.
Proof. apply List.filter_app. Qed.

(** ** The invariant of a run *)
Record pair_inv (P : package) (R : list request_t) (D : list (list Z)) (S : list Z) : Prop := {
  pi_ok : package_ok P;
  pi_open : closed P = 0;
  pi_recv : 0 ≤ recv P;
  pi_request : qlist (request P) = drop (length D) R;
  pi_response : qlist (response P) = full <$> drop (length R) D;
  pi_stream : framed S D (partial P)
}.

Definition event_post (P : package) (R : list request_t) (D : list (list Z)) (S : list Z) (R' : list request_t) (D' : list (list Z)) (S' : list Z)
    (P' : package) (w : list effect) : Prop :=
  pair_inv P' R' D' S' ∧ recv P' ≤ recv P + 1 ∧
  zip_with reply R D ++ replies w = zip_with reply R' D'.

Section events.
Implicit Types (P : package) (R : list request_t) (D : list (list Z)) (S : list Z).

Lemma request_spec P R D S src sess rest :
  pair_inv P R D S → len R + 1 < fifo_capacity (E:=Empty_set) (Q:=queue request_t) →
  wp (handle (EvRequest src sess rest)) P (fun _ P' w =>
    event_post P R D S (R ++ [Request src sess]) D S P' w).
Proof.
  intros [Hok Hopen Hrecv Hreq Hres Hst] Hroom.
  pose proof Hok as [Hq Hr Hsz Hh Hu]. unfold event_post.
  cbn [handle message_handler]. unfold command.
  do 4 step. rewrite Hopen. simpl.
  rewrite zip_snoc.
  destruct (drop (length R) D) as [|p ps] eqn:Hps.
  - rewrite empty_true by (by rewrite Hres || done). simpl. step. step.
    destruct (fifo_push_spec (E:=Empty_set) (request P) (Request src sess))
      as (q & -> & Hqok & Hql); [done|rewrite Hreq, length_drop; lia|].
    apply returns_done. step. simpl. split; [|split; [lia|done]].
    split; try done.
    + change (request _) with q. rewrite Hql, Hreq, drop_app_le; [done|].
      apply (f_equal length) in Hps. rewrite length_drop in Hps. simpl in Hps. lia.
    + change (response _) with (response P). rewrite Hres, length_app.
      apply (f_equal length) in Hps. rewrite length_drop in Hps. simpl in *.
      by rewrite drop_ge by lia.
  - rewrite fmap_cons in Hres. rewrite (empty_cons _ _ _ Hr Hres). simpl.
    assert (length R < length D)%nat as Hlt.
    { apply (f_equal length) in Hps. rewrite length_drop in Hps. simpl in Hps. lia. }
    step. step. rewrite empty_true; [|done|rewrite Hreq; by rewrite drop_ge by lia].
    simpl. apply returns_done.
    step. step. destruct (fifo_pop_cons (E:=Empty_set) _ _ _ Hr Hres)
      as (x & -> & rs & -> & Hr' & HR'). apply returns_done.
    step. step. step. step.
    rewrite rdn_done by (rewrite length_fmap; lia). apply returns_done. step. simpl.
    rewrite take_ge by (rewrite length_fmap; lia).
    split; [|split; [lia|done]].
    split; try done.
    + change (request _) with (request P). rewrite Hreq, !drop_ge; [done|..]; lens.
    + change (response _) with rs. rewrite HR'. f_equal.
      rewrite length_app, <- drop_drop, Hps. done.
Qed.

Lemma data_spec P R D S id chunk D' r' :
  pair_inv P R D S → bytes_ok chunk → framed (S ++ chunk) D' r' → bytes_ok S →
  len D' < fifo_capacity (E:=Empty_set) (Q:=queue response_t) → recv P < INT_MAX →
  wp (handle (EvData id chunk)) P (fun _ P' w =>
    event_post P R D S R D' (S ++ chunk) P' w).
Proof.
  intros [Hok Hopen Hrecv Hreq Hres Hst] Hc Hf HS Hroom Hmax.
  destruct (framed_exists (partial P ++ chunk)) as (fs & r & Hf1 & _).
  { apply bytes_ok_app. split; [by apply bytes_ok_partial|done]. }
  assert (D' = D ++ fs ∧ r' = r) as [-> ->].
  { eapply framed_inj; [|exact Hf|by eapply framed_app].
    by apply bytes_ok_app. }
  unfold event_post. cbn [handle message_handler socket_message stype sbuffer ud].
  step. step. step. step.
  destruct (new_message_spec P chunk fs r) as (P1 & -> & Hok1 & Hs1 & Hr1 & Hp1 & Hq1);
    try done.
  { unfold fifo_room. rewrite Hres, length_fmap, length_drop.
    rewrite length_app in Hroom. lia. }
  apply returns_done. step. step. step. step.
  destruct Hs1 as (_ & _ & _ & Hcl & Hrq & _).
  rewrite Hres, <- fmap_app in Hq1. rewrite <- Hrq in Hreq.
  destruct Hok1 as [Hq Hr ? ? ?].
  eapply wp_mono; [by eapply respond_spec|].
  intros [] P' w (-> & rq & rs & -> & Hrqok & Hrsok & Hlq & Hlr).
  split; [|split; [simpl; lia|]].
  2: { rewrite (zip_extend _ R D fs). f_equal. apply replies_zip. }
  split; try done; simpl.
  - congruence.
  - lia.
  - rewrite Hlq. apply drop_waiting.
  - rewrite Hlr. f_equal. apply drop_ready.
  - change (partial _) with (partial P1). rewrite Hp1. done.
Qed.
End events.

Section runs.
Implicit Types (P : package) (R : list request_t) (D : list (list Z)) (S : list Z).

(** Timers, outgoing messages and status queries answer no request. *)
Definition quiet (e : event) : Prop :=
  match e with EvRequest _ _ _ | EvData _ _ => False | _ => True end.

Lemma quiet_spec P R D S e :
  quiet e → pair_inv P R D S →
  wp (handle e) P (fun _ P' w => event_post P R D S R D S P' w).
Proof.
  intros He Hinv. unfold event_post.
  assert (∀ h, pair_inv (set_heartbeat h 0 P) R D S) as Hbeat.
  { intros h. destruct Hinv as [[] ? ? ? ? ?]. by split. }
  assert (∀ w, replies w = [] → pair_inv P R D S ∧ recv P ≤ recv P + 1 ∧
    zip_with reply R D ++ replies w = zip_with reply R D) as Hnone.
  { intros w ->. rewrite app_nil_r. split; [done|]. split; [lia|done]. }
  pose proof (pi_recv _ _ _ _ Hinv).
  destruct e as [| |sess src|sess src msg|src sess rest]; try done;
    cbn [handle message_handler].
  - unfold heartbeat. do 2 step.
    destruct (recv P =? heartbeat_ P); [destruct (closed P =? 0)|].
    + do 3 step. by apply Hnone.
    + step. by apply Hnone.
    + do 3 step. split; [apply Hbeat|]. split; [simpl; lia|].
      change (replies _) with (@nil effect). by rewrite app_nil_r.
  - unfold send_out. destruct (65535 <? len msg).
    + step. by apply Hnone.
    + do 3 step. by apply Hnone.
  - unfold command. do 4 step. unfold report_info. do 2 step.
    repeat case_match; step; by apply Hnone.
Qed.

Lemma requests_of_cons e es :
  requests_of (e :: es) = requests_of [e] ++ requests_of es.
Proof. by destruct e. Qed.

Lemma stream_of_cons e es : stream_of (e :: es) = stream_of [e] ++ stream_of es.
Proof. destruct e; try done. unfold stream_of. simpl. by rewrite app_nil_r. Qed.

Lemma event_spec P R D S e D' r' :
  pair_inv P R D S → bytes_ok S → bytes_ok (stream_of [e]) →
  framed (S ++ stream_of [e]) D' r' →
  len (R ++ requests_of [e]) < fifo_capacity (E:=Empty_set) (Q:=queue request_t) →
  len D' < fifo_capacity (E:=Empty_set) (Q:=queue response_t) → recv P < INT_MAX →
  wp (handle e) P (fun _ P' w =>
    event_post P R D S (R ++ requests_of [e]) D' (S ++ stream_of [e]) P' w).
Proof.
  intros Hinv HS Hb Hf HR HD Hrecv.
  assert (stream_of [e] = [] → D' = D) as Hsame.
  { intros He. rewrite He, app_nil_r in Hf.
    by destruct (framed_inj _ _ _ _ _ HS Hf (pi_stream _ _ _ _ Hinv)). }
  destruct e as [src sess rest|id chunk| | |]; cbn [requests_of omap list_omap] in *.
  - rewrite (Hsame eq_refl). change (stream_of _) with (@nil Z). rewrite app_nil_r.
    apply request_spec; [done|]. lens.
  - assert (stream_of [EvData id chunk] = chunk) as Hst.
    { unfold stream_of. simpl. by rewrite app_nil_r. }
    rewrite Hst in *. change (requests_of _) with (@nil request_t).
    rewrite app_nil_r. by eapply data_spec.
  - rewrite (Hsame eq_refl), !app_nil_r. by apply quiet_spec.
  - rewrite (Hsame eq_refl), !app_nil_r. by apply quiet_spec.
  - rewrite (Hsame eq_refl), !app_nil_r. by apply quiet_spec.
Qed.

Lemma run_spec P R D S es D' r' :
  pair_inv P R D S → bytes_ok S → bytes_ok (stream_of es) →
  framed (S ++ stream_of es) D' r' →
  len (R ++ requests_of es) < fifo_capacity (E:=Empty_set) (Q:=queue request_t) →
  len D' < fifo_capacity (E:=Empty_set) (Q:=queue response_t) →
  recv P + len es ≤ INT_MAX →
  wp (run es) P (fun _ P' w =>
    pair_inv P' (R ++ requests_of es) D' (S ++ stream_of es) ∧
    zip_with reply R D ++ replies w = zip_with reply (R ++ requests_of es) D').
Proof.
  revert P R D S. induction es as [|e es IH]; intros P R D S Hinv HS Hb Hf HR HD Hrecv.
  { simpl. step. change (stream_of []) with (@nil Z) in *. rewrite !app_nil_r in *.
    destruct (framed_inj _ _ _ _ _ HS Hf (pi_stream _ _ _ _ Hinv)) as [-> _]. done. }
  rewrite requests_of_cons, stream_of_cons in *.
  apply bytes_ok_app in Hb as [Hbe Hb]. rewrite !app_assoc in *.
  assert (bytes_ok (S ++ stream_of [e])) as HSe by by apply bytes_ok_app.
  destruct (framed_exists (S ++ stream_of [e])) as (D1 & r1 & Hf1 & _); [done|].
  destruct (framed_exists (r1 ++ stream_of es)) as (D2 & r2 & Hf2 & _).
  { apply bytes_ok_app. split; [|done]. destruct Hf1 as [Heq _].
    rewrite Heq in HSe. by apply bytes_ok_app in HSe as [_ ?]. }
  assert (D' = D1 ++ D2) as ->.
  { eapply framed_inj; [|exact Hf|by eapply framed_app]. by apply bytes_ok_app. }
  cbn [run]. apply wp_bind. cbn [length] in Hrecv. eapply wp_mono.
  - eapply event_spec; [done..| | |lia].
    + rewrite length_app in HR. lia.
    + rewrite length_app in HD. lia.
  - intros [] P' w (Hinv' & Hrecv' & Hw).
    eapply wp_mono; [eapply IH; try done; lia|].
    intros [] P'' w' (Hinv'' & Hw'). split; [done|].
    by rewrite replies_app, app_assoc, Hw.
Qed.
End runs.

(** A service whose connection is up and that has done nothing yet. *)
Definition fresh (P : package) : Prop :=
  package_ok P ∧ closed P = 0 ∧ recv P = 0 ∧ partial P = [] ∧
  qlist (request P) = [] ∧ qlist (response P) = [].

Lemma fresh_inv P : fresh P → pair_inv P [] [] [].
Proof.
  intros (? & ? & ? & Hp & ? & ?). split; try done; [lia|]. rewrite Hp. done.
Qed.

Lemma package_create_ok : package_ok package_create.
Proof.
  split; simpl; auto.
  - apply queue_init_ok. lia.
  - apply queue_init_ok. lia.
  - by split.
Qed.

(** ** The properties *)

(** C1: however TCP cuts the stream into chunks, the service queues exactly the
    packages of the stream, complete and in order, and keeps the bytes of the
    unfinished one; no memory access of the parser is out of bounds. *)
Theorem feed_reassembles P chunks fs r :
  package_ok P → incomplete (partial P) →
  bytes_ok (concat chunks) →
  framed (partial P ++ concat chunks) fs r →
  qroom (length fs) (response P) →
  recv P + len chunks ≤ INT_MAX →
  returns (feed P chunks) (fun P' =>
    package_ok P' ∧ partial P' = r ∧
    qlist (response P') = qlist (response P) ++ (full <$> fs)).
Proof. apply feed_spec. Qed.

Definition demo_package : package := set_manager_fd 9 3 package_create.

Lemma demo_ok : package_ok demo_package.
Proof. destruct package_create_ok. by split. Qed.

Lemma feed_reassembles_witness :
  returns (feed demo_package [[0]; [2; 104]; [105; 0; 1]]) (fun P' =>
    package_ok P' ∧ partial P' = [0; 1] ∧
    qlist (response P') = [] ++ (full <$> [[104; 105]])).
Proof.
  apply (feed_reassembles demo_package [[0]; [2; 104]; [105; 0; 1]] [[104; 105]] [0; 1]).
  - apply demo_ok.
  - exact I.
  - vm_compute. repeat constructor; discriminate.
  - split; reflexivity.
  - reflexivity.
  - vm_compute. discriminate.
Defined.

(** C17: what [send_out] puts on the wire for a sequence of messages, cut into
    chunks in any way, is queued by the receiving service as those messages. *)
Theorem stream_roundtrip Psend P msgs wire chunks :
  Forall payload_ok msgs →
  Forall2 (fun m d => send_out m Psend = Done (tt, Psend, [SocketSend (fd Psend) d])) msgs wire →
  concat chunks = concat wire →
  package_ok P → partial P = [] →
  qroom (length msgs) (response P) →
  recv P + len chunks ≤ INT_MAX →
  returns (feed P chunks) (fun P' =>
    partial P' = [] ∧ qlist (response P') = qlist (response P) ++ (full <$> msgs)).
Proof.
  intros Hmsgs Hwire Hcat Hok Hp Hroom Hrecv.
  assert (wire = encode_frame <$> msgs) as ->.
  { clear - Hmsgs Hwire. induction Hwire as [|m d ms ds Hd _ IH]; [done|].
    apply Forall_cons in Hmsgs as [Hm Hms]. rewrite send_out_frame in Hd by done.
    rewrite fmap_cons, <- IH by done. congruence. }
  assert (bytes_ok (concat (encode_frame <$> msgs))) as Hb.
  { clear - Hmsgs. induction Hmsgs as [|m ms [Hm Hlen] _ IH]; [constructor|].
    simpl. unfold bytes_ok in *.
    repeat (apply Forall_cons; split; [unfold byte_ok; dlia|]).
    apply Forall_app. by split. }
  eapply returns_mono; [apply (feed_spec P chunks msgs [])|naive_solver]; try done.
  - by rewrite Hp.
  - by rewrite Hcat.
  - rewrite Hp, Hcat. split; [by rewrite app_nil_r|done].
Qed.

Lemma stream_roundtrip_witness :
  returns (feed demo_package [[0; 1]; [7; 0]; [2; 8; 9]]) (fun P' =>
    partial P' = [] ∧ qlist (response P') = [] ++ (full <$> [[7]; [8; 9]])).
Proof.
  apply (stream_roundtrip demo_package demo_package [[7]; [8; 9]] [[0; 1; 7]; [0; 2; 8; 9]]
    [[0; 1]; [7; 0]; [2; 8; 9]]).
  - repeat constructor; try discriminate.
  - repeat constructor.
  - reflexivity.
  - apply demo_ok.
  - reflexivity.
  - reflexivity.
  - vm_compute. discriminate.
Defined.

(** C2: the k-th request is answered with the k-th package of the stream, in
    whatever order requests, chunks of data, timers and other messages arrive;
    what is not matched yet waits in the two queues, and no assert fails. *)
Theorem requests_paired P es D r :
  fresh P → bytes_ok (stream_of es) → framed (stream_of es) D r →
  len (requests_of es) < fifo_capacity (E:=Empty_set) (Q:=queue request_t) →
  len D < fifo_capacity (E:=Empty_set) (Q:=queue response_t) →
  len es ≤ INT_MAX →
  wp (run es) P (fun _ P' w =>
    replies w = zip_with reply (requests_of es) D ∧
    qlist (request P') = drop (length D) (requests_of es) ∧
    qlist (response P') = full <$> drop (length (requests_of es)) D).
Proof.
  intros Hfresh Hb Hf HR HD Hes. pose proof Hfresh as (_ & _ & Hrecv & _).
  eapply wp_mono.
  - eapply (run_spec P [] [] [] es D r); try done.
    + by apply fresh_inv.
    + constructor.
    + lia.
  - intros [] P' w ([? ? ? ? ? ?] & Hw). done.
Qed.

Definition demo_events : list event :=
  [EvRequest 5 1 []; EvData 3 [0; 1; 7; 0]; EvRequest 6 2 []; EvData 3 [1; 8; 0; 0]].

Lemma requests_paired_witness :
  wp (run demo_events) demo_package (fun _ P' w =>
    replies w = [reply (Request 5 1) [7]; reply (Request 6 2) [8]] ∧
    qlist (request P') = [] ∧
    qlist (response P') = [full []]).
Proof.
  apply (requests_paired demo_package demo_events [[7]; [8]; []] []).
  - split; [apply demo_ok|]. repeat split; reflexivity.
  - vm_compute. repeat constructor; discriminate.
  - split; reflexivity.
  - reflexivity.
  - reflexivity.
  - vm_compute. discriminate.
Defined.

(** What a request that cannot be answered any more gets. *)
Definition fail_reply (q : request_t) : effect := Send (source q) PTYPE_ERROR false (session q) [].

(** C21: when the connection is closed or fails, whatever the service has done before:
    the manager is told FAIL if the connection was never up; the waiting requests
    are answered with the packages that are there, in order, and those left over
    fail, in order; then the manager is told CLOSED and the service exits. No request
    stays behind, and exactly the packages nobody asked for stay for the release. *)
Theorem close_fails_waiting P R D t sess src ud_ buf :
  package_ok P → t = SOCKET_CLOSE ∨ t = SOCKET_ERROR →
  qlist (request P) = R → qlist (response P) = full <$> D →
  wp (message_handler PTYPE_SOCKET sess src (Socket (SockMsg t (fd P) ud_ buf))) P
    (fun _ P' w =>
      w = (if init P =? 0 then [Send (manager P) PTYPE_TEXT false 0 (Some <$> lit "FAIL")] else []) ++
          zip_with reply R D ++ (fail_reply <$> drop (length D) R) ++
          [Send (manager P) PTYPE_TEXT false 0 (Some <$> lit "CLOSED"); Command (lit "EXIT") []] ∧
      closed P' = 1 ∧ init P' ≠ 0 ∧
      qlist (request P') = [] ∧ qlist (response P') = full <$> drop (length R) D).
Proof.
  intros Hok Ht HR HD. pose proof Hok as [Hq Hr _ _ _].
  replace (message_handler _ _ _ _) with (socket_message (SockMsg SOCKET_CLOSE (fd P) ud_ buf))
    by (by destruct Ht as [-> | ->]).
  cbn [socket_message stype sid]. apply wp_bind.
  apply (wp_mono _ _ (fun _ P1 w => w = (if init P =? 0 then [Send (manager P) PTYPE_TEXT false 0 (Some <$> lit "FAIL")] else []) ∧
    ∃ i, i ≠ 0 ∧ P1 = set_init i P)).
  { unfold fail_connect. do 2 step. cbn [sid]. rewrite Z.eqb_refl.
    destruct (Z.eqb_spec (init P) 0); simpl; repeat step; (split; [done|]).
    - by exists 1.
    - exists (init P). by destruct P. }
  intros [] P0 w0 (-> & i & Hi & ->). do 2 step. rewrite Z.eqb_refl. cbn [negb].
  apply wp_bind. eapply wp_mono; [by apply (respond_spec _ R D)|].
  intros [] P1 w (-> & rq & rs & -> & Hq1 & Hr1 & HR1 & HD1).
  unfold service_exit. apply wp_bind, wp_modify, wp_bind, wp_get, wp_bind.
  eapply wp_mono.
  { apply (exit_loop_spec _ _ (drop (length D) R)); [done..|].
    rewrite (fifo_size_spec (E:=Empty_set)) by done. simpl. rewrite HR1. lia. }
  intros [] P2 w (-> & rq' & -> & Hq2 & HR2). do 3 step. done.
Qed.

(** Three requests wait, one package is there, and the connection was never up. *)
Definition waiting_package : package :=
  set_queues (Queue 4 8 2 1 [Some (Request 7 3); None; Some (Request 5 1); Some (Request 6 2)])
    (Queue 4 16 0 1 [Some (full [104; 105]); None; None; None]) demo_package.

(** A concrete ring of four slots. *)
Ltac ring4_ok :=
  let i := fresh "i" in let Hi := fresh "Hi" in
  split; [split; try done|done|by exists 2%nat; split; [lia|]];
  intros i Hi; unfold ring_size in Hi; simpl in Hi;
  assert (i = 0 ∨ i = 1 ∨ i = 2 ∨ 3 ≤ i)%nat as [-> | [-> | [-> | ?]]] by lia;
  first [lia | by eexists].

Lemma waiting_ok : package_ok waiting_package.
Proof.
  destruct demo_ok. split; try done.
  - ring4_ok.
  - ring4_ok.
Qed.

Lemma close_fails_waiting_witness :
  wp (message_handler PTYPE_SOCKET 0 0 (Socket (SockMsg SOCKET_ERROR 3 0 []))) waiting_package
    (fun _ P' w =>
      w = [Send 9 PTYPE_TEXT false 0 (Some <$> lit "FAIL")] ++ [reply (Request 5 1) [104; 105]] ++
          [fail_reply (Request 6 2); fail_reply (Request 7 3)] ++
          [Send 9 PTYPE_TEXT false 0 (Some <$> lit "CLOSED"); Command (lit "EXIT") []] ∧
      closed P' = 1 ∧ init P' ≠ 0 ∧ qlist (request P') = [] ∧ qlist (response P') = []).
Proof.
  apply (close_fails_waiting waiting_package [Request 5 1; Request 6 2; Request 7 3] [[104; 105]]).
  - apply waiting_ok.
  - by right.
  - reflexivity.
  - reflexivity.
Defined.

(** C22: releasing the service frees every block it owns exactly once: the queued
    packages in order, then the package under way, if there is one. *)
Theorem release_frees_all P L :
  package_ok P → qlist (response P) = L →
  wp package_release P (fun _ _ w =>
    w = ((fun r => Free (rmsg r)) <$> L) ++
        (if 0 <=? uncomplete_sz P then [Free (rmsg (uncomplete P))] else []) ++
        [QueueExit; QueueExit; FreePackage]).
Proof.
  intros Hok HL. pose proof Hok as [_ Hr _ _ _].
  unfold package_release. apply wp_bind, wp_get, wp_bind. eapply wp_mono.
  { apply (release_loop_spec _ _ L); [done..|].
    rewrite (fifo_size_spec (E:=Empty_set)) by done. rewrite HL. lia. }
  intros [] P1 w (-> & rs & -> & _). simpl. do 3 step.
  destruct (0 <=? uncomplete_sz P).
  - do 6 step. done.
  - do 6 step. done.
Qed.

(** Two packages are queued, over the end of the ring, and the first byte of the
    payload of a third one, and its header, have come. *)
Definition busy_package : package :=
  set_response (Queue 4 16 3 1 [Some (full [7]); None; None; Some (full [5; 6])])
    (set_uncomplete 1 (Response 2 [Some 9; None]) (set_header 0 (0, 2) demo_package)).

Lemma busy_ok : package_ok busy_package.
Proof.
  destruct demo_ok as [Hreq _ _ _ _]. split.
  - done.
  - ring4_ok.
  - by left.
  - by split.
  - right. repeat split; try done. exists [9]. split; [done|]. by repeat constructor.
Qed.

Lemma release_frees_all_witness :
  wp package_release busy_package (fun _ _ w =>
    w = [Free [Some 5; Some 6]; Free [Some 7]] ++ [Free [Some 9; None]] ++ [QueueExit; QueueExit; FreePackage]).
Proof. apply (release_frees_all busy_package [full [5; 6]; full [7]]); [apply busy_ok|reflexivity]. Defined.
