(* ===== verification/Frame.v ===== *)
(** * Websocket frames: the pure parts of lua-websocketnetpack.c

    Reading a frame header ([read_size]), finding the end of an HTTP header
    ([websocket_strnpos], [get_http_header]), unmasking a payload
    ([decode_wsmask_data]) and writing a server frame ([lpack]). A buffer of
    type [uint8_t *] is the list of its bytes; reads outside it are faults. *)
From S2P Require Import Prelude Libc.

Module Frame.

Definition WEBSOCKET_HEADER_LEN : Z := 2.
Definition WEBSOCKET_MASK_LEN : Z := 4.
Definition MAX_PACKSIZE : Z := 10 * 1024.

(** The functions below raise no Lua error. *)
Abbreviation out A := (outcome Empty_set A).

(** [ntoh64]: the two halves are swapped with [ntohl]. *)
Definition ntoh64 (host : Z) : Z :=
  let low := Z.land host 4294967295 in
  let high := Z.land (Z.shiftr host 32) 4294967295 in
  let low := ntohl low in
  let high := ntohl high in
  Z.lor (u64 (Z.shiftl low 32)) high.

(** The out parameters of [read_size]. An [int] that holds a mask is kept as
    its four bytes. *)
Record head_t := Head { pack_head_length : Z; mask : list Z; ismask : Z }.

Definition no_head : head_t := Head 0 [0; 0; 0; 0] 0.

(** The result, and the out parameters, unchanged on an early return:
    -1 not enough bytes, -2 two bytes to skip, -3 a close frame; else the payload
    length as the [int] it is stored in. *)
Definition read_size (buffer : list Z) (size : Z) (outs : head_t) : out (Z * head_t) :=
  if size <? 2 then Done (-1, outs)
  else
    let! b0 := rd buffer 0 in
    let! b1 := rd buffer 1 in
    let fin := Z.land (Z.shiftr b0 7) 1 in
    let rsv1 := Z.land (Z.shiftr b0 6) 1 in
    let rsv2 := Z.land (Z.shiftr b0 5) 1 in
    let rsv3 := Z.land (Z.shiftr b0 4) 1 in
    let opcode := Z.land b0 15 in
    let is_mask := Z.land (Z.shiftr b1 7) 1 in
    if negb (0 =? rsv1) || negb (0 =? rsv2) || negb (0 =? rsv3) then Done (-2, outs)
    else if (fin =? 0) || (opcode =? 0) then Done (-2, outs)
    else if opcode =? 8 then Done (-3, outs)
    else
      let length := Z.land b1 127 in
      let offset := WEBSOCKET_HEADER_LEN in
      let finish pack_size offset :=
        if negb (is_mask =? 0) then
          if size <? offset + WEBSOCKET_MASK_LEN then Done (-1, outs)
          else
            let! masks := rdn (drop (Z.to_nat offset) buffer) WEBSOCKET_MASK_LEN in
            Done (pack_size, Head (offset + WEBSOCKET_MASK_LEN) masks 1)
        else Done (pack_size, Head offset (mask outs) (ismask outs)) in
      if length <? 126 then finish length offset
      else if 126 =? length then
        if size <? WEBSOCKET_HEADER_LEN + 2 then Done (-1, outs)
        else
          let! l := rdn (drop 2 buffer) 2 in
          finish (ntohs (le_value l)) (offset + 2)
      else
        if size <? WEBSOCKET_HEADER_LEN + 8 then Done (-1, outs)
        else
          let! l := rdn (drop 2 buffer) 8 in
          finish (i32 (ntoh64 (le_value l))) (offset + 8).

(** [for (i = 0; i < size; i++) buffer[i] ^= masks[(i + done) % 4]]. *)
Fixpoint xor_loop (n : nat) (i : Z) (buffer masks : list Z) (done : Z) : out (list Z) :=
  match n with
  | O => Done buffer
  | S n' =>
      let! b := rd buffer i in
      let! m := rd masks (Z.rem (i + done) WEBSOCKET_MASK_LEN) in
      let! buffer := wr buffer i (u8 (Z.lxor b m)) in
      xor_loop n' (i + 1) buffer masks done
  end.

(** [decode_wsmask_data] on the fields it uses: the buffer and the new value of
    [hasunmask_size]. *)
Definition decode_wsmask_data (buffer : list Z) (size : Z) (msk : list Z) (ism has : Z)
    : out (list Z * Z) :=
  if ism =? 0 then Done (buffer, has)
  else if size =? 0 then Done (buffer, has)
  else
    let! buffer := xor_loop (Z.to_nat size) 0 buffer msk has in
    Done (buffer, has + size).

(** The loop of [websocket_strnpos]: [n] positions from [i] on. *)
Fixpoint strnpos_loop (n : nat) (i : Z) (haystack needle : list Z) : out Z :=
  match n with
  | O => Done (-1)
  | S n' =>
      let! h0 := rd haystack 0 in
      let! n0 := rd needle 0 in
      let! equal :=
        (if h0 =? n0 then
           let! h := rdn haystack (len needle) in
           Done (memcmp (length needle) h needle =? 0)
         else Done false) in
      if equal then Done i else strnpos_loop n' (i + 1) (drop 1 haystack) needle
  end.

Definition websocket_strnpos (haystack : list Z) (haystack_length : Z) (needle : list Z)
    (needle_length : Z) : out Z :=
  guard_or AssertFailed (0 <? needle_length) ;;!
  if haystack_length <? needle_length then Done (-1)
  else
    strnpos_loop (Z.to_nat (u32 (i32 (u32 (haystack_length - needle_length + 1))))) 0
      haystack needle.

Definition get_http_header (buffer : list Z) (size : Z) : out Z :=
  let! n := websocket_strnpos buffer (u32 size) [13; 10; 13; 10] 4 in
  if n <? 0 then Done n else Done (n + 4).

Definition FRAME_SET_FIN (b : Z) : Z := Z.shiftl (Z.land b 1) 7.
Definition FRAME_SET_OPCODE (b : Z) : Z := Z.land b 15.
Definition FRAME_SET_MASK (b : Z) : Z := Z.shiftl (Z.land b 1) 7.
Definition FRAME_SET_LENGTH (x idx : Z) : Z := Z.land (Z.shiftr x (idx * 8)) 255.

(** The header [lpack] writes: a binary frame, not masked. *)
Definition frame_header (opcode len : Z) : list Z :=
  [u8 (Z.lor (FRAME_SET_FIN 1) (FRAME_SET_OPCODE opcode))] ++
  (if len <? 126 then [u8 (Z.lor (FRAME_SET_MASK 0) (FRAME_SET_LENGTH len 0))]
   else
     (if len <? 65536 then [u8 (Z.lor (FRAME_SET_MASK 0) 126)]
      else u8 (Z.lor (FRAME_SET_MASK 0) 127) ::
        (FRAME_SET_LENGTH len <$> [7; 6; 5; 4; 3; 2])) ++
     (FRAME_SET_LENGTH len <$> [1; 0])).

Definition lpack (msg : list Z) : list Z := frame_header 2 (len msg) ++ msg.

End Frame.
