(* ===== verification/FrameSpec.v ===== *)
(** * The frames of a compliant client

    [frame] is a final (unfragmented) data frame, [wire] the bytes of RFC 6455
    for it. The header reader recognises exactly the complete headers, the
    unmasking loop inverts the masking, and the byte-order functions read
    big-endian numbers. *)
From S2P Require Import Prelude Libc Frame.
Import Frame.

(** ** Byte order *)

Lemma land_255 x : Z.land x 255 = x mod 256.
Proof. change 255 with (Z.ones 8). by rewrite Z.land_ones. Qed.

Lemma shiftr_8 x : Z.shiftr x 8 = x / 256.
Proof. by rewrite Z.shiftr_div_pow2. Qed.

Lemma le_step b v : byte_ok b → (b + 256 * v) mod 256 = b ∧ (b + 256 * v) / 256 = v.
Proof. unfold byte_ok. intros. split; dlia. Qed.

Lemma ntohs_le b0 b1 : byte_ok b0 → byte_ok b1 → ntohs (le_value [b0; b1]) = be16 b0 b1.
Proof.
  intros H0 H1. unfold ntohs, be16, le_value. cbn [foldr].
  rewrite shiftr_8, !land_255. destruct (le_step b0 (b1 + 256 * 0) H0) as [-> ->].
  destruct (le_step b1 0 H1) as [-> _]. unfold byte_ok in *.
  rewrite lor_shiftl_add by (change (2 ^ 8) with 256; lia). done.
Qed.

Lemma ntohl_le b0 b1 b2 b3 :
  byte_ok b0 → byte_ok b1 → byte_ok b2 → byte_ok b3 →
  ntohl (le_value [b0; b1; b2; b3]) = be_value [b0; b1; b2; b3].
Proof.
  intros H0 H1 H2 H3. unfold ntohl, be_value, le_value. cbn [foldr foldl].
  assert (∀ x, Z.shiftr x 16 = x / 256 / 256) as Hs2.
  { intros x. change 16 with (8 + 8). by rewrite <- Z.shiftr_shiftr, !shiftr_8 by lia. }
  assert (∀ x, Z.shiftr x 24 = x / 256 / 256 / 256) as Hs3.
  { intros x. change 24 with (8 + 16). by rewrite <- Z.shiftr_shiftr, Hs2, shiftr_8 by lia. }
  rewrite Hs2, Hs3, shiftr_8, !land_255.
  destruct (le_step b0 (b1 + 256 * (b2 + 256 * (b3 + 256 * 0))) H0) as [-> ->].
  destruct (le_step b1 (b2 + 256 * (b3 + 256 * 0)) H1) as [-> ->].
  destruct (le_step b2 (b3 + 256 * 0) H2) as [-> ->].
  destruct (le_step b3 0 H3) as [-> _]. unfold byte_ok in *.
  rewrite (lor_shiftl_add b2 8 b3) by (change (2 ^ 8) with 256; lia).
  change (2 ^ 8) with 256.
  rewrite (lor_shiftl_add b1 16) by (change (2 ^ 16) with 65536; lia).
  change (2 ^ 16) with 65536.
  rewrite (lor_shiftl_add b0 24) by (change (2 ^ 24) with 16777216; lia).
  change (2 ^ 24) with 16777216. lia.
Qed.

Lemma le_value_app l1 l2 : le_value (l1 ++ l2) = le_value l1 + 256 ^ len l1 * le_value l2.
Proof.
  unfold le_value. induction l1 as [|b l IH]; cbn [app foldr length].
  - change (256 ^ Z.of_nat 0) with 1. lia.
  - rewrite IH, Nat2Z.inj_succ, Z.pow_succ_r by lia. lia.
Qed.

Lemma le_value_range l : bytes_ok l → 0 ≤ le_value l < 256 ^ len l.
Proof.
  induction 1 as [|b l Hb Hl IH]; [done|]. unfold byte_ok in Hb.
  cbn [le_value foldr length]. fold (le_value l).
  rewrite Nat2Z.inj_succ, Z.pow_succ_r by lia. lia.
Qed.

(** [ntoh64] reads eight bytes as a big-endian number. *)
Lemma ntoh64_le l : bytes_ok l → length l = 8%nat → ntoh64 (le_value l) = be_value l.
Proof.
  intros Hl Hlen.
  destruct l as [|b0 [|b1 [|b2 [|b3 [|b4 [|b5 [|b6 [|b7 [|]]]]]]]]]; try done. clear Hlen.
  change [b0; b1; b2; b3; b4; b5; b6; b7] with ([b0; b1; b2; b3] ++ [b4; b5; b6; b7]) in *.
  apply Forall_app in Hl as [Hlo Hhi].
  rewrite le_value_app, be_value_app. unfold ntoh64.
  pose proof (le_value_range _ Hlo) as Rlo. pose proof (le_value_range _ Hhi) as Rhi.
  pose proof (be_value_range _ Hlo) as Blo. pose proof (be_value_range _ Hhi) as Bhi.
  change (256 ^ len [b0; b1; b2; b3]) with 4294967296 in *.
  change (256 ^ len [b4; b5; b6; b7]) with 4294967296 in *.
  change 4294967295 with (Z.ones 32). rewrite !Z.land_ones, Z.shiftr_div_pow2 by lia.
  change (2 ^ 32) with 4294967296.
  replace ((le_value [b0; b1; b2; b3] + 4294967296 * le_value [b4; b5; b6; b7]) mod 4294967296)
    with (le_value [b0; b1; b2; b3]) by dlia.
  replace (((le_value [b0; b1; b2; b3] + 4294967296 * le_value [b4; b5; b6; b7]) / 4294967296)
    mod 4294967296) with (le_value [b4; b5; b6; b7]) by dlia.
  repeat match goal with
  | H : Forall _ (_ :: _) |- _ => apply Forall_cons in H as [? H]
  end.
  rewrite !ntohl_le by done.
  unfold wrap. change (2 ^ 64) with 18446744073709551616.
  rewrite Z.shiftl_mul_pow2 by lia. change (2 ^ 32) with 4294967296.
  rewrite Z.mod_small by lia. rewrite <- (Z.shiftl_mul_pow2 _ 32) by lia.
  rewrite lor_shiftl_add by (change (2 ^ 32) with 4294967296; lia).
  by rewrite Z.shiftl_mul_pow2 by lia.
Qed.

(** ** Masking *)

(** The payload xored with the mask, from stream position [k] on. *)
Fixpoint xor_mask (m : list Z) (k : Z) (d : list Z) : list Z :=
  match d with
  | [] => []
  | b :: d => Z.lxor b (nth (Z.to_nat (k mod 4)) m 0) :: xor_mask m (k + 1) d
  end.

Definition mask_ok (m : list Z) : Prop := bytes_ok m ∧ length m = 4%nat.

Lemma length_xor_mask m k d : length (xor_mask m k d) = length d.
Proof. revert k. induction d as [|b d IH]; intros k; simpl; [done|]. by rewrite IH. Qed.

Lemma xor_mask_app m k d1 d2 :
  xor_mask m k (d1 ++ d2) = xor_mask m k d1 ++ xor_mask m (k + len d1) d2.
Proof.
  revert k. induction d1 as [|b d1 IH]; intros k; simpl.
  - f_equal. lia.
  - rewrite IH. do 3 f_equal. lia.
Qed.

Lemma xor_mask_involutive m k d : xor_mask m k (xor_mask m k d) = d.
Proof.
  revert k. induction d as [|b d IH]; intros k; simpl; [done|].
  rewrite IH, Z.lxor_assoc, Z.lxor_nilpotent, Z.lxor_0_r. done.
Qed.

Lemma byte_ok_lxor a b : byte_ok a → byte_ok b → byte_ok (Z.lxor a b).
Proof.
  unfold byte_ok. intros [Ha Ha'] [Hb Hb'].
  assert (0 ≤ Z.lxor a b) as H0 by (apply Z.lxor_nonneg; lia). split; [done|].
  destruct (decide (Z.lxor a b = 0)) as [->|]; [lia|].
  change 256 with (2 ^ 8). apply Z.log2_lt_pow2; [lia|].
  pose proof (Z.log2_lxor a b Ha Hb).
  assert (∀ x, 0 ≤ x < 256 → Z.log2 x < 8) as Hlog.
  { intros x [? ?]. destruct (decide (x = 0)) as [->|]; [done|].
    apply Z.log2_lt_pow2; [lia|]. done. }
  pose proof (Hlog a ltac:(lia)). pose proof (Hlog b ltac:(lia)). lia.
Qed.

Lemma mask_nth_ok m k : mask_ok m → byte_ok (nth (Z.to_nat (k mod 4)) m 0).
Proof.
  intros [Hm Hl]. pose proof (Z.mod_pos_bound k 4 ltac:(lia)).
  unfold bytes_ok in Hm. rewrite Forall_forall in Hm. apply Hm.
  apply list_elem_of_In, nth_In. lia.
Qed.

Lemma xor_mask_ok m k d : mask_ok m → bytes_ok d → bytes_ok (xor_mask m k d).
Proof.
  intros Hm Hd. revert k. induction Hd as [|b d Hb Hd IH]; intros k; simpl; [constructor|].
  apply Forall_cons. split; [|apply IH]. by apply byte_ok_lxor, mask_nth_ok.
Qed.

Lemma mask_rd {E} m k : mask_ok m → 0 ≤ k →
  rd (E:=E) m (Z.rem k WEBSOCKET_MASK_LEN) = Done (nth (Z.to_nat (k mod 4)) m 0).
Proof.
  intros [_ Hl] Hk. unfold WEBSOCKET_MASK_LEN. rewrite Z.rem_mod_nonneg by lia.
  pose proof (Z.mod_pos_bound k 4 ltac:(lia)).
  apply rd_done, zget_Some. split; [lia|].
  destruct (lookup_lt_is_Some_2 m (Z.to_nat (k mod 4))) as [x Hx]; [lia|].
  by rewrite (nth_lookup_Some _ _ _ _ Hx).
Qed.

(** The loop xors the [n] bytes at [i] and leaves the others alone. *)
Lemma xor_loop_spec pre d post m k :
  mask_ok m → bytes_ok d → 0 ≤ k →
  xor_loop (length d) (len pre) (pre ++ d ++ post) m k =
    Done (pre ++ xor_mask m (len pre + k) d ++ post).
Proof.
  intros Hm Hd Hk. revert pre. induction Hd as [|b d Hb Hd IH]; intros pre; [done|].
  cbn [length xor_loop].
  rewrite (rd_done _ _ b); cbn [obind].
  2: { rewrite zget_of_nat, lookup_app_r, Nat.sub_diag by lia. done. }
  rewrite mask_rd by (done || lia). cbn [obind].
  rewrite wr_done by (rewrite !length_app; simpl; lia). cbn [obind].
  set (x := nth _ _ _).
  assert (byte_ok (Z.lxor b x)) as Hx by by apply byte_ok_lxor, mask_nth_ok.
  replace (u8 (Z.lxor b x)) with (Z.lxor b x) by (symmetry; by apply wrap_small).
  unfold zset. rewrite Nat2Z.id, insert_app_r_alt, Nat.sub_diag by lia. simpl.
  specialize (IH (pre ++ [Z.lxor b x])). rewrite length_app in IH.
  rewrite <- !app_assoc in IH. simpl in IH.
  replace (Z.of_nat (length pre + 1)) with (len pre + 1) in IH by lia.
  rewrite IH. by replace (len pre + 1 + k) with (len pre + k + 1) by lia.
Qed.

Lemma decode_spec d post m k :
  mask_ok m → bytes_ok d → 0 ≤ k →
  decode_wsmask_data (xor_mask m k d ++ post) (len d) m 1 k = Done (d ++ post, k + len d).
Proof.
  intros Hm Hd Hk. unfold decode_wsmask_data. simpl.
  destruct (Z.eqb_spec (len d) 0) as [H0|_].
  { destruct d; [|simpl in *; lia]. simpl. do 2 f_equal. lia. }
  rewrite Nat2Z.id. rewrite <- (length_xor_mask m k d) at 1.
  pose proof (xor_loop_spec [] (xor_mask m k d) post m k Hm) as Hx.
  cbn [app length] in Hx. change (Z.of_nat 0) with 0 in Hx.
  rewrite Hx; [|by apply xor_mask_ok|done]. cbn [obind].
  by rewrite Z.add_0_l, xor_mask_involutive.
Qed.

Lemma decode_plain d n m k : decode_wsmask_data d n m 0 k = Done (d, k).
Proof. done. Qed.

(** ** Frames *)

Inductive form := Short | Ext16 | Ext64.

Record frame := Frame {
  opcode : Z;
  fmask : option (list Z);
  fform : form;
  payload : list Z
}.

Definition len7 (f : frame) : Z :=
  match fform f with Short => len (payload f) | Ext16 => 126 | Ext64 => 127 end.

Definition ext (f : frame) : list Z :=
  match fform f with
  | Short => []
  | Ext16 => be_bytes 2 (len (payload f))
  | Ext64 => be_bytes 8 (len (payload f))
  end.

Definition maskbit (f : frame) : Z := match fmask f with Some _ => 1 | None => 0 end.
Definition maskbytes (f : frame) : list Z := default [] (fmask f).

Definition hdr (f : frame) : list Z :=
  (128 + opcode f) :: (128 * maskbit f + len7 f) :: ext f ++ maskbytes f.

#[global] Arguments hdr : simpl never.

(** The payload as it travels, from position [k] on. *)
Definition masked (f : frame) (k : Z) (d : list Z) : list Z :=
  match fmask f with Some m => xor_mask m k d | None => d end.

Definition wire (f : frame) : list Z := hdr f ++ masked f 0 (payload f).

(** A data or control frame other than a close, not fragmented; any length
    encoding that can hold the length; no longer than the server accepts. *)
Record frame_ok (f : frame) : Prop := {
  fo_opcode : 1 ≤ opcode f ≤ 15 ∧ opcode f ≠ 8;
  fo_mask : match fmask f with Some m => mask_ok m | None => True end;
  fo_form : match fform f with Short => len (payload f) < 126 | _ => True end;
  fo_len : len (payload f) ≤ MAX_PACKSIZE;
  fo_payload : bytes_ok (payload f)
}.

Definition head_of (f : frame) (outs : head_t) : head_t :=
  match fmask f with
  | Some m => Head (len (hdr f)) m 1
  | None => Head (len (hdr f)) (mask outs) (ismask outs)
  end.

Lemma opcode_bits o : 1 ≤ o ≤ 15 →
  Z.land (Z.shiftr (128 + o) 7) 1 = 1 ∧ Z.land (Z.shiftr (128 + o) 6) 1 = 0 ∧
  Z.land (Z.shiftr (128 + o) 5) 1 = 0 ∧ Z.land (Z.shiftr (128 + o) 4) 1 = 0 ∧
  Z.land (128 + o) 15 = o.
Proof.
  intros Ho. change 15 with (Z.ones 4). change 1 with (Z.ones 1).
  rewrite !Z.land_ones, !Z.shiftr_div_pow2 by lia.
  change (2 ^ 7) with 128. change (2 ^ 6) with 64. change (2 ^ 5) with 32.
  change (2 ^ 4) with 16. change (2 ^ 1) with 2.
  change (Z.ones 1) with 1. repeat split; dlia.
Qed.

Lemma length_bits m l : 0 ≤ l < 128 → m = 0 ∨ m = 1 →
  Z.land (Z.shiftr (128 * m + l) 7) 1 = m ∧ Z.land (128 * m + l) 127 = l.
Proof.
  intros Hl Hm. change 127 with (Z.ones 7). change 1 with (Z.ones 1).
  rewrite !Z.land_ones, Z.shiftr_div_pow2 by lia.
  change (2 ^ 7) with 128. change (2 ^ 1) with 2.
  split; dlia.
Qed.

Lemma length_ext f : length (ext f) = match fform f with Short => 0 | Ext16 => 2 | Ext64 => 8 end%nat.
Proof. unfold ext. destruct (fform f); [done|apply length_be_bytes..]. Qed.

Lemma length_maskbytes f : frame_ok f →
  length (maskbytes f) = match fmask f with Some _ => 4 | None => 0 end%nat.
Proof. intros [_ Hm _ _ _]. unfold maskbytes. destruct (fmask f); [apply Hm|done]. Qed.

Lemma len7_range f : frame_ok f → 0 ≤ len7 f < 128.
Proof. intros [_ _ Hf _ _]. unfold len7. destruct (fform f); lia. Qed.

Lemma take_drop_agree {A} (b h : list A) n j i :
  take n b = take n h → (j + i ≤ n)%nat → take i (drop j b) = take i (drop j h).
Proof.
  intros Heq Hle. rewrite !take_drop_commute.
  replace (j + i)%nat with (Nat.min (j + i) n) by lia.
  by rewrite <- !take_take, Heq.
Qed.

(** The last part of [read_size]: the mask, when there is one. *)
Lemma read_mask f b size outs :
  frame_ok f →
  take (Nat.min (Z.to_nat size) (length (hdr f))) b = take (Nat.min (Z.to_nat size) (length (hdr f))) (hdr f) →
  size ≤ len b →
  let off := 2 + len (ext f) in
  off ≤ size →
  (if negb (maskbit f =? 0) then
     if size <? off + WEBSOCKET_MASK_LEN then Done (-1, outs)
     else
       let! masks := rdn (drop (Z.to_nat off) b) WEBSOCKET_MASK_LEN in
       Done (len (payload f), Head (off + WEBSOCKET_MASK_LEN) masks 1)
   else Done (len (payload f), Head off (mask outs) (ismask outs))) =
  (if size <? len (hdr f) then Done (-1, outs)
   else Done (len (payload f), head_of f outs)) :> out (Z * head_t).
Proof.
  intros Hok Hb Hsz off Hoff. pose proof (length_maskbytes f Hok) as Hlm.
  pose proof (fo_mask f Hok) as Hm.
  assert (length (hdr f) = 2 + length (ext f) + length (maskbytes f))%nat as Hlh.
  { unfold hdr. simpl. rewrite length_app. lia. }
  unfold head_of, maskbit, maskbytes, WEBSOCKET_MASK_LEN in *.
  assert (drop (2 + length (ext f)) (hdr f) = maskbytes f) as Hd.
  { unfold hdr. cbn [drop Nat.add]. apply drop_app_length. }
  unfold maskbytes in Hd. set (h := hdr f) in *. clearbody h.
  destruct (fmask f) as [m|] eqn:Hfm; simpl in *.
  - destruct (Z.ltb_spec size (off + 4)), (Z.ltb_spec size (len h)); try lia; [done|].
    unfold rdn. destruct (Z.leb_spec 4 (len (drop (Z.to_nat off) b))) as [_|Hge].
    2: { rewrite length_drop in Hge. lia. }
    simpl. do 3 f_equal; [lia|].
    rewrite (take_drop_agree b h _ _ _ Hb) by lia.
    replace (Z.to_nat off) with (S (S (length (ext f)))) by lia. rewrite Hd.
    apply take_ge. lia.
  - destruct (Z.ltb_spec size (len h)); [lia|]. do 2 f_equal. f_equal. lia.
Qed.

Lemma read_size_spec f b size outs :
  frame_ok f →
  take (Nat.min (Z.to_nat size) (length (hdr f))) b = take (Nat.min (Z.to_nat size) (length (hdr f))) (hdr f) →
  size ≤ len b →
  read_size b size outs =
    if size <? len (hdr f) then Done (-1, outs)
    else Done (len (payload f), head_of f outs).
Proof.
  intros Hok Hb Hsz. pose proof Hok as [[Ho Ho8] Hm Hform Hlen Hp].
  pose proof (length_ext f) as Hle. pose proof (len7_range f Hok) as H7.
  assert (length (hdr f) = 2 + length (ext f) + length (maskbytes f))%nat as Hlh.
  { unfold hdr. simpl. rewrite length_app. lia. }
  pose proof (read_mask f b size outs Hok Hb Hsz) as Hmask. cbv zeta in Hmask.
  remember (hdr f) as h eqn:Hh.
  unfold read_size. destruct (Z.ltb_spec size 2) as [Hlt|Hge].
  { destruct (Z.ltb_spec size (len h)); [done|lia]. }
  assert (take 2 b = [128 + opcode f; 128 * maskbit f + len7 f]) as H2.
  { change b with (drop 0 b). rewrite (take_drop_agree b h _ 0 2 Hb); [by rewrite Hh|lia]. }
  destruct b as [|b0 [|b1 b]]; simpl in H2; [done..|].
  rewrite take_0 in H2. injection H2 as -> ->.
  cbn [rd zget obind]. unfold rd, zget. simpl.
  change (Z.to_nat 0) with 0%nat. change (Z.to_nat 1) with 1%nat. simpl.
  destruct (opcode_bits (opcode f) Ho) as (-> & -> & -> & -> & ->).
  destruct (length_bits (maskbit f) (len7 f) H7) as [-> ->].
  { unfold maskbit. destruct (fmask f); lia. }
  simpl. destruct (Z.eqb_spec (opcode f) 0); [lia|].
  destruct (Z.eqb_spec (opcode f) 8); [lia|]. simpl.
  unfold WEBSOCKET_HEADER_LEN. set (buf := _ :: _ :: b) in *.
  unfold len7, MAX_PACKSIZE in *. destruct (fform f) eqn:Hf; rewrite Hle in *.
  - destruct (Z.ltb_spec (len (payload f)) 126); [|lia]. apply Hmask. lia.
  - simpl. destruct (Z.ltb_spec size (2 + 2)).
    { destruct (Z.ltb_spec size (len h)); [done|lia]. }
    rewrite (rdn_done (drop 2 buf) 2) by (rewrite length_drop; lia). cbn [obind].
    rewrite (take_drop_agree buf h _ _ _ Hb) by lia.
    assert (take 2 (drop 2 h) = be_bytes 2 (len (payload f))) as ->.
    { rewrite Hh. unfold hdr, ext. by rewrite Hf. }
    cbn [be_bytes app].
    rewrite ntohs_le by (unfold byte_ok; dlia).
    replace (be16 (len (payload f) / 256 mod 256) (len (payload f) mod 256))
      with (len (payload f)) by (unfold be16; dlia).
    apply Hmask. lia.
  - simpl. destruct (Z.ltb_spec size (2 + 8)).
    { destruct (Z.ltb_spec size (len h)); [done|lia]. }
    rewrite (rdn_done (drop 2 buf) 8) by (rewrite length_drop; lia). cbn [obind].
    rewrite (take_drop_agree buf h _ _ _ Hb) by lia.
    assert (take 8 (drop 2 h) = be_bytes 8 (len (payload f))) as ->.
    { rewrite Hh. unfold hdr, ext. rewrite Hf. cbn [drop]. apply take_app_length'. symmetry. apply length_be_bytes. }
    rewrite (ntoh64_le (be_bytes 8 (len (payload f))) (be_bytes_ok _ _) (length_be_bytes _ _)).
    rewrite be_value_bytes by (change (256 ^ Z.of_nat 8) with 18446744073709551616; lia).
    rewrite swrap_small by (change (2 ^ (32 - 1)) with 2147483648; lia).
    apply Hmask. lia.
Qed.
