(* ===== verification/Netpack.v ===== *)
(** * lua-websocketnetpack.c: the packet queue and the stream filter

    [struct queue] is the userdata in slot 1 of the Lua stack: the chains of
    unfinished packets, hashed by connection, and the ring of finished packets.
    The filter takes what the socket delivered for a connection, cuts it into
    websocket frames and hands the payloads over. The allocator and the frees are
    the effects of the handlers; a heap buffer is the list of its bytes, [None]
    for a byte that was not written. *)
From S2P Require Import Prelude Libc Frame.

Module Netpack.
Import Frame.

Definition QUEUESIZE : Z := 1024.
Definition HASHSIZE : Z := 4096.
Definition HEADERSIZE : Z := 1024.

Record netpack := Pack { id : Z; size : Z; buffer : list (option Z) }.

(** [mask] is kept as its four bytes; [next] is the rest of the chain. *)
Record uncomplete := Uncomplete {
  pack : netpack;
  header : list Z;
  header_size : Z;
  read : Z;
  umask : list Z;
  uismask : Z;
  hasunmask_size : Z
}.

Record queue := Queue {
  cap : Z;
  head : Z;
  tail : Z;
  hash : gmap Z (list uncomplete);
  slots : list (option netpack)
}.

(** Slot 1 of the Lua stack ([None]: nil) and the static byte counter of
    [filter_data_]. *)
Record lua := Lua { slot1 : option queue; total_size : Z }.

Inductive effect :=
  | Malloc (n : Z)
  | FreeUncomplete (fd : Z)
  | FreeBuffer (b : list (option Z)).

Abbreviation NM A := (M lua effect Empty_set A).

(** What the filter leaves on the Lua stack above the queue. *)
Inductive result :=
  | RetQueue
  | RetData (fd : Z) (buffer : list (option Z)) (size : Z)
  | RetMore
  | RetError (fd : Z) (msg : list Z)
  | RetOpen (fd : Z) (msg : list Z)
  | RetClose (fd : Z)
  | RetWarning (fd ud : Z).

(** ** The chains of unfinished packets *)

(** The C code adds three [int]s, which is defined for descriptors below
    [2^31 - 2^19 - 2^7]; every descriptor the system gives out is far below it. *)
Definition hash_fd (fd : Z) : Z :=
  let a := Z.shiftr fd 24 in
  let b := Z.shiftr fd 12 in
  let c := fd in
  (u32 (a + b + c)) mod HASHSIZE.

Definition chain (q : queue) (h : Z) : list uncomplete := default [] (hash q !! h).

Definition set_chain (h : Z) (l : list uncomplete) (q : queue) : queue :=
  Queue (cap q) (head q) (tail q) (<[h := l]> (hash q)) (slots q).

(** Unlink the first packet of [fd] from a chain. *)
Fixpoint unlink (fd : Z) (l : list uncomplete) : option (uncomplete * list uncomplete) :=
  match l with
  | [] => None
  | uc :: l' =>
      if id (pack uc) =? fd then Some (uc, l')
      else
        match unlink fd l' with
        | Some (uc', rest) => Some (uc', uc :: rest)
        | None => None
        end
  end.

Definition find_uncomplete (q : option queue) (fd : Z) : option (uncomplete * queue) :=
  match q with
  | None => None
  | Some q =>
      let h := hash_fd fd in
      match unlink fd (chain q h) with
      | Some (uc, l) => Some (uc, set_chain h l q)
      | None => None
      end
  end.

Definition new_queue : queue :=
  Queue QUEUESIZE 0 0 ∅ (replicate (Z.to_nat QUEUESIZE) None).

Definition set_slot1 (q : queue) (l : lua) : lua := Lua (Some q) (total_size l).

Definition get_queue : NM queue :=
  l <- get;;
  match slot1 l with
  | Some q => ret q
  | None => modify (set_slot1 new_queue);; ret new_queue
  end.

(** [skynet_malloc(n)] of an [int]: a negative size is a huge [size_t]. *)
Definition malloc (n : Z) : NM (list (option Z)) :=
  emit (Malloc n);;
  if n <? 0 then fault_ IntOverflow else ret (replicate (Z.to_nat n) None).

(** A [memset] record, linked in front of its chain. *)
Definition fresh_uncomplete (fd : Z) : uncomplete :=
  Uncomplete (Pack fd 0 []) (replicate (Z.to_nat HEADERSIZE) 0) 0 0 [0; 0; 0; 0] 0 0.

(** [save_uncomplete], followed by the stores of its caller: [f] fills the record. *)
Definition save_uncomplete (fd : Z) (f : uncomplete → NM uncomplete) : NM unit :=
  q <- get_queue;;
  let h := hash_fd fd in
  emit (Malloc 1);;
  uc <- f (fresh_uncomplete fd);;
  modify (set_slot1 (set_chain h (uc :: chain q h) q)).

(** ** The ring of finished packets *)

Fixpoint expand_loop (n : nat) (i : Z) (q : queue) : out (list (option netpack)) :=
  match n with
  | O => Done []
  | S n' =>
      let idx := Z.rem (head q + i) (cap q) in
      let! x := rd (slots q) idx in
      let! rest := expand_loop n' (i + 1) q in
      Done (x :: rest)
  end.

Definition expand_queue (q : queue) : out queue :=
  if INT_MAX <? cap q + QUEUESIZE then Fault IntOverflow
  else
    let! items := expand_loop (Z.to_nat (cap q)) 0 q in
    Done (Queue (cap q + QUEUESIZE) 0 (cap q) (hash q)
      (items ++ replicate (Z.to_nat QUEUESIZE) None)).

(** The queue part of [push_data]. *)
Definition queue_put (q : queue) (np : netpack) : out queue :=
  let! s := wr (slots q) (tail q) (Some np) in
  let t := tail q + 1 in
  let t := if cap q <=? t then t - cap q else t in
  let q := Queue (cap q) (head q) t (hash q) s in
  if head q =? t then expand_queue q else Done q.

Definition push_data (fd : Z) (buf : list (option Z)) (sz : Z) (clone : bool) : NM unit :=
  buf <- (if clone then
            tmp <- malloc sz;;
            src <- lift (rdn buf sz);;
            lift (memcpy tmp 0 src)
          else ret buf);;
  q <- get_queue;;
  q <- lift (queue_put q (Pack fd sz buf));;
  modify (set_slot1 q).

(** [lpop] on the queue: the packet it pushes to Lua. *)
Definition lpop (q : option queue) : out (option (netpack * queue)) :=
  match q with
  | None => Done None
  | Some q =>
      if head q =? tail q then Done None
      else
        let! np := rd (slots q) (head q) in
        match np with
        | None => Fault Uninitialised
        | Some np =>
            let h := head q + 1 in
            Done (Some (np, Queue (cap q) (if cap q <=? h then 0 else h) (tail q) (hash q)
              (slots q)))
        end
  end.

(** [lclear]: what it frees, chain by chain, then slot by slot. *)
Definition clear_list (l : list uncomplete) : list effect :=
  concat ((fun uc => [FreeBuffer (buffer (pack uc)); FreeUncomplete (id (pack uc))]) <$> l).

Fixpoint clear_loop (n : nat) (i : Z) (q : queue) : out (list effect) :=
  match n with
  | O => Done []
  | S n' =>
      let! np := rd (slots q) (Z.rem i (cap q)) in
      match np with
      | None => Fault Uninitialised
      | Some np =>
          let! rest := clear_loop n' (i + 1) q in
          Done (FreeBuffer (buffer np) :: rest)
      end
  end.

Definition lclear (q : queue) : out (queue * list effect) :=
  let chains := concat ((fun h => clear_list (chain q (Z.of_nat h))) <$> seq 0 (Z.to_nat HASHSIZE)) in
  let t := if tail q <? head q then tail q + cap q else tail q in
  let! frees := clear_loop (Z.to_nat (t - head q)) (head q) q in
  Done (Queue (cap q) 0 0 ∅ (slots q), chains ++ frees).

(** ** The stream filter *)

(** Fill a saved record with the bytes of an unfinished header. *)
Definition store_header (buf : list Z) (sz : Z) (handshake : bool) (uc : uncomplete)
    : NM uncomplete :=
  let n := if handshake && (HEADERSIZE <? sz) then HEADERSIZE else sz in
  src <- lift (rdn buf n);;
  hdr <- lift (memcpy (header uc) 0 src);;
  ret (Uncomplete (pack uc) hdr n (-1) (umask uc) (uismask uc) (hasunmask_size uc)).

(** Fill it with a parsed header and the first [sz] bytes of the payload. *)
Definition store_body (buf : list Z) (sz pack_size : Z) (outs : head_t) (uc : uncomplete)
    : NM uncomplete :=
  b <- malloc pack_size;;
  let* (dec, has) := lift (decode_wsmask_data buf sz (mask outs) (ismask outs) 0) in
  src <- lift (rdn dec sz);;
  b <- lift (memcpy b 0 (Some <$> src));;
  ret (Uncomplete (Pack (id (pack uc)) pack_size b) (header uc) (header_size uc) sz
    (mask outs) (ismask outs) has).

Definition clear_outs (outs : head_t) : head_t := Head (pack_head_length outs) [0; 0; 0; 0] 0.

(** [while (skip(pack_size = read_size(..))) { buffer += 2; size -= 2; }]. *)
Fixpoint skip_loop (fuel : nat) (skip : Z → bool) (buf : list Z) (sz : Z) (outs : head_t)
    : out (Z * head_t * list Z * Z) :=
  match fuel with
  | O => NoFuel
  | S f =>
      let! (pack_size, outs) := read_size buf sz outs in
      if skip pack_size
      then skip_loop f skip (drop 2 buf) (sz - WEBSOCKET_HEADER_LEN) (clear_outs outs)
      else Done (pack_size, outs, buf, sz)
  end.

(** Every turn of the loop skips two bytes; [read_size] reports -1 when fewer are left. *)
Definition next_frame (skip : Z → bool) (buf : list Z) (sz : Z) (handshake : bool)
    : out (Z * head_t * list Z * Z) :=
  if handshake then
    let! n := get_http_header buf sz in
    Done (n, no_head, buf, sz)
  else
    let! (n, outs, buf, sz) := skip_loop (S (Z.to_nat sz)) skip buf sz no_head in
    Done (if MAX_PACKSIZE <? n then MAX_PACKSIZE else n, outs, buf, sz).

Fixpoint push_more (fuel : nat) (fd : Z) (buf : list Z) (sz : Z) (handshake : bool) : NM unit :=
  match fuel with
  | O => fun _ => NoFuel
  | S f =>
      let* (pack_size, outs, buf, sz) := lift (next_frame (fun n => n <=? -2) buf sz handshake) in
      if pack_size =? -1 then save_uncomplete fd (store_header buf sz handshake)
      else
        let buf := drop (Z.to_nat (pack_head_length outs)) buf in
        let sz := sz - pack_head_length outs in
        if (sz <? pack_size) && negb handshake then
          save_uncomplete fd (store_body buf sz pack_size outs)
        else
          let* (buf, _) := lift (decode_wsmask_data buf pack_size (mask outs) (ismask outs) 0) in
          push_data fd (Some <$> buf) pack_size true;;
          let buf := drop (Z.to_nat pack_size) buf in
          let sz := sz - pack_size in
          if 0 <? sz then push_more f fd buf sz handshake else ret tt
  end.

Definition close_uncomplete (fd : Z) : NM unit :=
  l <- get;;
  match find_uncomplete (slot1 l) fd with
  | None => ret tt
  | Some (uc, q) =>
      modify (set_slot1 q);;
      emit (FreeBuffer (buffer (pack uc)));;
      emit (FreeUncomplete (id (pack uc)))
  end.

(** Put a packet back in front of its chain. *)
Definition relink (fd : Z) (uc : uncomplete) : NM unit :=
  q <- get_queue;;
  modify (set_slot1 (set_chain (hash_fd fd) (uc :: chain q (hash_fd fd)) q)).

(** The [while] around [read_size] on the header of an unfinished packet: it drops
    two bytes of the header in every turn. *)
Fixpoint header_skip (fuel : nat) (hdr : list Z) (hsz : Z) (outs : head_t)
    : out (Z * head_t * list Z * Z) :=
  match fuel with
  | O => NoFuel
  | S f =>
      let! (pack_size, outs) := read_size hdr hsz outs in
      if pack_size =? -2 then
        let hsz := hsz - WEBSOCKET_HEADER_LEN in
        let! src := rdn (drop 2 hdr) hsz in
        let! hdr := memcpy hdr 0 src in
        header_skip f hdr hsz (clear_outs outs)
      else Done (pack_size, outs, hdr, hsz)
  end.

(** One byte more in the header of an unfinished packet. *)
Definition header_byte (hdr : list Z) (hsz : Z) (b : Z) (handshake : bool) (outs : head_t)
    : out (Z * head_t * list Z * Z) :=
  let! hdr := wr hdr hsz b in
  let hsz := hsz + 1 in
  if handshake then
    if HEADERSIZE <? hsz then Done (HEADERSIZE, outs, hdr, HEADERSIZE)
    else
      let! n := get_http_header hdr hsz in
      Done (n, outs, hdr, hsz)
  else
    let! (n, outs, hdr, hsz) := header_skip (S (Z.to_nat hsz)) hdr hsz outs in
    Done (if MAX_PACKSIZE <? n then MAX_PACKSIZE else n, outs, hdr, hsz).

(** [while (size > 0) { ... }] of [filter_data_]: the packet size, the out
    parameters, the header and the number of bytes read. *)
Fixpoint header_loop (n : nat) (index : Z) (buf hdr : list Z) (hsz sz : Z) (handshake : bool)
    (outs : head_t) : out (Z * head_t * list Z * Z * Z) :=
  match n with
  | O => NoFuel
  | S n' =>
      let! b := rd buf index in
      let index := index + 1 in
      let! (pack_size, outs, hdr, hsz) := header_byte hdr hsz b handshake outs in
      if (0 <=? pack_size) || (sz <=? index) then Done (pack_size, outs, hdr, hsz, index)
      else header_loop n' index buf hdr hsz sz handshake outs
  end.

(** The last part of the branch for an unfinished packet: its header is known. *)
Definition fill_packet (fd : Z) (uc : uncomplete) (buf : list Z) (sz : Z) (handshake : bool)
    : NM result :=
  let p := pack uc in
  let need := size p - read uc in
  if sz <? need then
    let* (dec, has) := lift (decode_wsmask_data buf sz (umask uc) (uismask uc) (hasunmask_size uc)) in
    src <- lift (rdn dec sz);;
    b <- lift (memcpy (buffer p) (read uc) (Some <$> src));;
    relink fd (Uncomplete (Pack (id p) (size p) b) (header uc) (header_size uc)
      (read uc + sz) (umask uc) (uismask uc) has);;
    ret RetQueue
  else
    let* (dec, _) := lift (decode_wsmask_data buf need (umask uc) (uismask uc) (hasunmask_size uc)) in
    src <- lift (rdn dec need);;
    b <- lift (memcpy (buffer p) (read uc) (Some <$> src));;
    let buf := drop (Z.to_nat need) dec in
    let sz := sz - need in
    if sz =? 0 then
      emit (FreeUncomplete (id p));;
      ret (RetData fd b (size p))
    else
      push_data fd b (size p) false;;
      emit (FreeUncomplete (id p));;
      push_more (S (Z.to_nat sz)) fd buf sz handshake;;
      ret RetMore.

(** The branch of [filter_data_] for a connection with an unfinished packet. *)
Definition filter_uncomplete (fd : Z) (uc : uncomplete) (buf : list Z) (sz : Z)
    (handshake : bool) : NM result :=
  if read uc <? 0 then
    let* (pack_size, outs, hdr, hsz, index) :=
      (if 0 <? sz then
         lift (header_loop (Z.to_nat sz) 0 buf (header uc) (header_size uc) sz handshake no_head)
       else ret (0, no_head, header uc, header_size uc, 0)) in
    let buf := drop (Z.to_nat index) buf in
    let sz := sz - index in
    if pack_size =? -1 then
      relink fd (Uncomplete (pack uc) hdr hsz (read uc) (umask uc) (uismask uc)
        (hasunmask_size uc));;
      ret RetQueue
    else if pack_size =? -3 then
      close_uncomplete fd;;
      ret (RetClose fd)
    else
      b <- malloc pack_size;;
      let rd0 := if handshake then (if hsz <? pack_size then hsz else pack_size) else 0 in
      src <- lift (rdn hdr rd0);;
      b <- lift (memcpy b 0 (Some <$> src));;
      fill_packet fd (Uncomplete (Pack (id (pack uc)) pack_size b) hdr hsz rd0 (mask outs)
        (ismask outs) 0) buf sz handshake
  else fill_packet fd uc buf sz handshake.

(** The branch for a connection without one. *)
Definition filter_fresh (fd : Z) (buf : list Z) (sz : Z) (handshake : bool) : NM result :=
  let* (pack_size, outs, buf, sz) := lift (next_frame (fun n => n =? -2) buf sz handshake) in
  if pack_size =? -1 then
    save_uncomplete fd (store_header buf sz handshake);;
    ret RetQueue
  else if pack_size =? -3 then
    close_uncomplete fd;;
    ret (RetClose fd)
  else
    let buf := drop (Z.to_nat (pack_head_length outs)) buf in
    let sz := sz - pack_head_length outs in
    if (sz <? pack_size) && negb handshake then
      save_uncomplete fd (store_body buf sz pack_size outs);;
      ret RetQueue
    else if sz =? pack_size then
      b <- malloc pack_size;;
      let* (dec, _) := lift (decode_wsmask_data buf sz (mask outs) (ismask outs) 0) in
      src <- lift (rdn dec sz);;
      b <- lift (memcpy b 0 (Some <$> src));;
      ret (RetData fd b sz)
    else
      let* (dec, _) := lift (decode_wsmask_data buf pack_size (mask outs) (ismask outs) 0) in
      push_data fd (Some <$> dec) pack_size true;;
      let buf := drop (Z.to_nat pack_size) dec in
      let sz := sz - pack_size in
      push_more (S (Z.to_nat sz)) fd buf sz handshake;;
      ret RetMore.

Definition filter_data_ (fd : Z) (buf : list Z) (sz : Z) (handshake : bool) : NM result :=
  l <- get;;
  let found := find_uncomplete (slot1 l) fd in
  modify (fun l => Lua (slot1 l) (i32 (total_size l + sz)));;
  match found with
  | Some (uc, q) =>
      modify (set_slot1 q);;
      filter_uncomplete fd uc buf sz handshake
  | None => filter_fresh fd buf sz handshake
  end.

Definition filter_data (fd : Z) (buf : list Z) (sz : Z) (handshake : bool) : NM result :=
  r <- filter_data_ fd buf sz handshake;;
  emit (FreeBuffer (Some <$> buf));;
  ret r.

(** ** The entry point *)

Inductive socket_type := SOCKET_DATA | SOCKET_CONNECT | SOCKET_CLOSE | SOCKET_ACCEPT
  | SOCKET_ERROR | SOCKET_WARNING | SOCKET_other (n : Z).

(** [sbuffer = None]: the text follows the message in memory ([padding]). *)
Record socket_message := SockMsg {
  stype : socket_type; sid : Z; ud : Z; sbuffer : option (list Z); padding : list Z
}.

Definition pushstring (msg : option (list Z)) (pad : list Z) : out (list Z) :=
  match msg with
  | None => Done pad
  | Some _ => Fault OutOfBounds (* a length of -1 *)
  end.

Definition lfilter (m : socket_message) (wsocket_handeshake : Z) : NM result :=
  match stype m with
  | SOCKET_DATA =>
      match sbuffer m with
      | None => fault_ AssertFailed
      | Some buf => filter_data (sid m) buf (ud m) (negb (wsocket_handeshake =? 0))
      end
  | SOCKET_CONNECT => ret RetQueue
  | SOCKET_CLOSE =>
      close_uncomplete (sid m);;
      ret (RetClose (sid m))
  | SOCKET_ACCEPT =>
      msg <- lift (pushstring (sbuffer m) (padding m));;
      ret (RetOpen (ud m) msg)
  | SOCKET_ERROR =>
      close_uncomplete (sid m);;
      msg <- lift (pushstring (sbuffer m) (padding m));;
      ret (RetError (sid m) msg)
  | SOCKET_WARNING => ret (RetWarning (sid m) (ud m))
  | SOCKET_other _ => ret RetQueue
  end.

(** [ltostring]: the string of a packet handed to Lua, and its release. *)
Definition ltostring (ptr : option (list (option Z))) (sz : Z) : NM (list (option Z)) :=
  match ptr with
  | None => ret []
  | Some b =>
      s <- lift (rdn b sz);;
      emit (FreeBuffer b);;
      ret s
  end.

End Netpack.
