(* ===== verification/NetpackSpec.v ===== *)
(** * The packet queue of lua-websocketnetpack.c

    The ring of finished packets keeps the promise of a queue ([Fifo]), across
    wrap-around and growth, and the hash chains of unfinished packets behave as a
    map from connections to packets. *)
From S2P Require Import Prelude Ring Libc Frame Netpack FrameSpec.

Import Frame Netpack.

(** ** The ring *)
Section ring.
Implicit Types (q : queue) (np : netpack) (l : list netpack).

Definition items q : list netpack := ring_list (slots q) (cap q) (head q) (tail q).
Definition ring_wf q : Prop := ring_ok (slots q) (cap q) (head q) (tail q).

(** One more packet than this may make the capacity overflow an [int]. *)
Definition CAPACITY : Z := INT_MAX - QUEUESIZE.

Definition pop q : out (option (netpack * queue)) := lpop (Some q).
Definition is_empty q : bool := head q =? tail q.
Definition count q : Z := ring_size (cap q) (head q) (tail q).

Lemma ring_wf_new : ring_wf new_queue.
Proof.
  split; unfold new_queue; cbn [cap head tail slots]; unfold QUEUESIZE; try lia.
  - rewrite length_replicate. lia.
  - intros i Hi. unfold ring_size in Hi. simpl in Hi. lia.
Qed.

Lemma items_new : items new_queue = [].
Proof. reflexivity. Qed.

Lemma slots_next (buf : list (option netpack)) c h n :
  0 < c → Ring.slots buf c ((h + 1) mod c) n = Ring.slots buf c (h + 1) n.
Proof. intros. apply slots_ext. intros i _. by rewrite mod_add_l. Qed.

Lemma expand_loop_spec n i q :
  ring_wf q → 0 ≤ i → expand_loop n i q = Done (Ring.slots (slots q) (cap q) (head q + i) n).
Proof.
  intros Hr. revert i. induction n as [|n IH]; intros i Hi; [done|].
  pose proof Hr as [Hc Hh _ Hb _]. cbn [expand_loop].
  rewrite Z.rem_mod_nonneg by lia.
  pose proof (Z.mod_pos_bound (head q + i) (cap q) Hc).
  destruct (rd_total (E:=Empty_set) (slots q) ((head q + i) mod cap q)) as [x Hx]; [lia|].
  rewrite Hx. cbn [obind]. rewrite IH by lia. cbn [obind].
  rewrite slots_cons, slots_next by done. rewrite Z.add_assoc. do 2 f_equal.
  unfold rd in Hx. by destruct (zget (slots q) _); simplify_eq.
Qed.

Lemma wrapped_next q : ring_wf q →
  (if cap q <=? tail q + 1 then tail q + 1 - cap q else tail q + 1) = (tail q + 1) mod cap q.
Proof.
  intros [Hc _ Ht _ _]. rewrite <- next_mod by done.
  destruct (Z.leb_spec (cap q) (tail q + 1)); lia.
Qed.

(** The ring after a [queue_put]: the chains are untouched. *)
Lemma queue_put_spec q np :
  ring_wf q → len (items q) + 1 < CAPACITY →
  returns (queue_put q np) (fun q' =>
    ring_wf q' ∧ items q' = items q ++ [np] ∧ hash q' = hash q).
Proof.
  intros Hr Hroom. pose proof (ring_list_length _ _ _ _ Hr) as Hlen.
  pose proof (ring_size_range _ _ _ _ Hr) as Hsz. unfold items in *. rewrite Hlen in Hroom.
  pose proof Hr as [Hc Hh Ht Hb _]. unfold CAPACITY, queue_put in *.
  rewrite wr_done by lia. cbn [obind]. rewrite wrapped_next by done.
  cbn [slots cap head tail]. change (ring_ok (slots q) (cap q) (head q) (tail q)) in Hr.
  generalize dependent (cap q). generalize dependent (head q). generalize dependent (tail q).
  intros t h c Hr Hlen Hroom Hsz Hc Hh Ht Hb.
  destruct (decide (ring_size c h t + 1 < c)) as [Hfree|Hfull].
  - destruct (ring_push _ _ _ _ np Hr Hfree) as (Hne & Hr' & Hl').
    destruct (Z.eqb_spec h ((t + 1) mod c)); [done|]. by apply returns_done.
  - assert (ring_size c h t + 1 = c) as Hfull' by lia.
    assert (h = (t + 1) mod c) as Heq by by apply (ring_full (slots q)). rewrite <- Heq, Z.eqb_refl.
    unfold expand_queue. cbn [slots cap head tail].
    destruct (Z.ltb_spec INT_MAX (c + QUEUESIZE)); [lia|].
    set (qf := Queue c h h (hash q) (zset (slots q) t (Some np))).
    rewrite (expand_loop_spec _ 0 qf); [|split; cbn; rewrite ?length_zset; try lia|done].
    2: { unfold ring_size. rewrite Z.ltb_irrefl. lia. }
    cbn [obind]. apply returns_done. unfold qf. cbn [slots cap head tail hash]. rewrite Z.add_0_r.
    destruct (ring_grow (slots q) c h t
      (Ring.slots (zset (slots q) t (Some np)) c h (Z.to_nat c) ++
         replicate (Z.to_nat QUEUESIZE) None) (c + QUEUESIZE) np Hr Hfull') as [Hr' Hl'];
      [unfold QUEUESIZE; lia
      |rewrite length_app, length_slots, length_replicate; unfold QUEUESIZE; lia| | |].
    + intros i Hi. rewrite zget_of_nat, lookup_app_l by (rewrite length_slots; lia).
      rewrite slots_lookup by lia. rewrite zget_zset_ne; [|lia|].
      * destruct (ring_slots _ _ _ _ Hr i) as [a ->]; [lia|done].
      * rewrite <- (ring_size_tail _ _ _ _ Hr). intros Hm%mod_inj; lia.
    + replace (c - 1) with (Z.of_nat (Z.to_nat (c - 1))) by lia.
      rewrite zget_of_nat, lookup_app_l by (rewrite length_slots; lia).
      rewrite slots_lookup by lia. rewrite Z2Nat.id by lia.
      replace (c - 1) with (ring_size c h t) by lia. rewrite (ring_size_tail _ _ _ _ Hr).
      by rewrite zget_zset_eq by lia.
    + split; [exact Hr'|]. split; [exact Hl'|done].
Qed.

Lemma lpop_nil q : ring_wf q → items q = [] → pop q = Done None.
Proof. intros Hr Hnil%(ring_empty _ _ _ _ Hr). unfold pop, lpop. by rewrite Hnil. Qed.

Lemma lpop_cons q np l :
  ring_wf q → items q = np :: l →
  returns (pop q) (fun r => ∃ q', r = Some (np, q') ∧ (ring_wf q' ∧ hash q' = hash q) ∧ items q' = l).
Proof.
  intros Hr Hl. destruct (ring_pop _ _ _ _ _ _ Hr Hl) as (Hne & Hg & Hr' & Hl').
  unfold pop, lpop. destruct (Z.eqb_spec (head q) (tail q)); [done|].
  rewrite (rd_done _ _ _ Hg). simpl. rewrite next_mod by apply Hr.
  apply returns_done. by eexists.
Qed.
End ring.

(** The ring keeps the promise of a queue. *)
#[export] Program Instance netpack_fifo : Fifo queue netpack Empty_set := {|
  fifo_ok := ring_wf;
  fifo_list := items;
  fifo_capacity := CAPACITY;
  fifo_push := queue_put;
  fifo_pop := pop;
  fifo_empty := is_empty;
  fifo_size := count
|}.
Next Obligation. intros q a Hq Hroom. eapply returns_mono; [by apply queue_put_spec|]. naive_solver. Qed.
Next Obligation. intros q Hq. by apply ring_empty. Qed.
Next Obligation. intros q Hq. symmetry. by apply ring_list_length. Qed.
Next Obligation. intros q Hq Hnil. by apply lpop_nil. Qed.
Next Obligation. intros q a l Hq Hl. eapply returns_mono; [by eapply lpop_cons|]. naive_solver. Qed.

(** ** The chains as a map from connections to unfinished packets *)
Section chains.
Implicit Types (q : queue) (uc : uncomplete) (l : list uncomplete) (fd : Z).

Definition lookup_fd fd l : option uncomplete := fst <$> unlink fd l.

Definition pend q fd : option uncomplete := lookup_fd fd (chain q (hash_fd fd)).

(** Each chain holds packets of its own hash value, one per connection. *)
Definition chains_ok q : Prop := ∀ h,
  NoDup ((fun uc => id (pack uc)) <$> chain q h) ∧
  Forall (fun uc => hash_fd (id (pack uc)) = h) (chain q h).

Lemma lookup_fd_cons fd uc l :
  lookup_fd fd (uc :: l) = if id (pack uc) =? fd then Some uc else lookup_fd fd l.
Proof.
  unfold lookup_fd. simpl. destruct (id (pack uc) =? fd); [done|].
  by destruct (unlink fd l) as [[? ?]|].
Qed.

Lemma lookup_fd_None fd l :
  lookup_fd fd l = None ↔ fd ∉ ((fun uc => id (pack uc)) <$> l).
Proof.
  induction l as [|uc l IH]; [split; [set_solver|done]|].
  rewrite lookup_fd_cons, fmap_cons, not_elem_of_cons.
  destruct (Z.eqb_spec (id (pack uc)) fd); [naive_solver|]. rewrite IH. naive_solver.
Qed.

Lemma lookup_fd_id fd l uc : lookup_fd fd l = Some uc → id (pack uc) = fd.
Proof.
  induction l as [|uc' l IH]; [done|]. rewrite lookup_fd_cons.
  destruct (Z.eqb_spec (id (pack uc')) fd); naive_solver.
Qed.

Lemma unlink_spec fd l uc l' :
  NoDup ((fun uc => id (pack uc)) <$> l) → unlink fd l = Some (uc, l') →
  id (pack uc) = fd ∧ lookup_fd fd l' = None ∧ l' `sublist_of` l ∧
  (∀ fd', fd' ≠ fd → lookup_fd fd' l' = lookup_fd fd' l).
Proof.
  revert l'. induction l as [|uc' l IH]; intros l' Hnd Hu; [done|].
  rewrite fmap_cons in Hnd. apply NoDup_cons in Hnd as [Hni Hnd]. cbn [unlink] in Hu.
  destruct (Z.eqb_spec (id (pack uc')) fd) as [Heq|Hne].
  - simplify_eq. split; [done|]. split; [by apply lookup_fd_None|].
    split; [by constructor|]. intros fd' Hfd'. rewrite lookup_fd_cons.
    by destruct (Z.eqb_spec (id (pack uc)) fd'); [congruence|].
  - destruct (unlink fd l) as [[uc0 rest]|] eqn:Hrest; [|done]. simplify_eq.
    destruct (IH rest) as (Hid & Hnone & Hsub & Hother); [done..|].
    split; [done|]. rewrite lookup_fd_cons. split; [by destruct (Z.eqb_spec (id (pack uc')) fd)|].
    split; [by constructor|]. intros fd' Hfd'. rewrite !lookup_fd_cons. by rewrite Hother.
Qed.

Lemma chain_set h l q h' :
  chain (set_chain h l q) h' = if decide (h = h') then l else chain q h'.
Proof.
  unfold chain, set_chain. cbn [hash]. destruct (decide (h = h')) as [<-|Hne].
  - by rewrite lookup_insert_eq.
  - by rewrite lookup_insert_ne.
Qed.

Lemma pend_id q fd uc : pend q fd = Some uc → id (pack uc) = fd.
Proof. apply lookup_fd_id. Qed.

Lemma find_none q fd : pend q fd = None → find_uncomplete (Some q) fd = None.
Proof.
  unfold pend, lookup_fd. simpl. by destruct (unlink fd (chain q (hash_fd fd))) as [[? ?]|].
Qed.

Lemma find_some q fd uc :
  chains_ok q → pend q fd = Some uc →
  ∃ l, find_uncomplete (Some q) fd = Some (uc, set_chain (hash_fd fd) l q) ∧
    let q' := set_chain (hash_fd fd) l q in
    chains_ok q' ∧ pend q' fd = None ∧ ∀ fd', fd' ≠ fd → pend q' fd' = pend q fd'.
Proof.
  intros Hq Hp. unfold pend, lookup_fd in Hp. simpl.
  destruct (unlink fd (chain q (hash_fd fd))) as [[uc' l]|] eqn:Hu; simplify_eq/=.
  destruct (Hq (hash_fd fd)) as [Hnd Hh].
  destruct (unlink_spec _ _ _ _ Hnd Hu) as (Hid & Hnone & Hsub & Hother).
  exists l. split; [done|]. split; [|split].
  - intros h. rewrite chain_set. destruct (decide (hash_fd fd = h)) as [<-|]; [|by apply Hq].
    split; [eapply sublist_NoDup; [|by apply (fmap_sublist (λ uc, id (pack uc)))]; done|].
    apply Forall_forall. intros x Hx. rewrite Forall_forall in Hh. apply Hh.
    by eapply elem_of_sublist.
  - unfold pend. rewrite chain_set, decide_True by done. done.
  - intros fd' Hne. unfold pend. rewrite chain_set.
    destruct (decide (hash_fd fd = hash_fd fd')) as [<-|]; [by apply Hother|done].
Qed.

(** A packet in front of the chain of its connection. *)
Lemma link_spec q fd uc :
  chains_ok q → pend q fd = None → id (pack uc) = fd →
  let q' := set_chain (hash_fd fd) (uc :: chain q (hash_fd fd)) q in
  chains_ok q' ∧ pend q' fd = Some uc ∧ ∀ fd', fd' ≠ fd → pend q' fd' = pend q fd'.
Proof.
  intros Hq Hnone Hid. split; [|split].
  - intros h. rewrite chain_set. destruct (decide (hash_fd fd = h)) as [<-|]; [|by apply Hq].
    destruct (Hq (hash_fd fd)) as [Hnd Hh]. rewrite fmap_cons. split.
    + apply NoDup_cons. split; [|done]. rewrite Hid. by apply lookup_fd_None.
    + apply Forall_cons. by rewrite Hid.
  - unfold pend. rewrite chain_set, decide_True by done. rewrite lookup_fd_cons, Hid.
    by rewrite Z.eqb_refl.
  - intros fd' Hne. unfold pend. rewrite chain_set.
    destruct (decide (hash_fd fd = hash_fd fd')) as [Heq|]; [|done].
    rewrite lookup_fd_cons, Hid, Heq. by destruct (Z.eqb_spec fd fd').
Qed.
End chains.

(** * The stream filter of lua-websocketnetpack.c

    What [filter_data_] does with the bytes of a connection whose peer sends
    well-formed frames: the view of the queue as packets and pending bytes, the
    invariant of an unfinished packet, and the correctness of each branch. *)
Import Frame Netpack.

(** ** The view of the state *)
Section view.
Implicit Types (l : lua) (q : queue) (uc : uncomplete) (fd : Z).

(** A missing queue is an empty one. *)
Definition lua_q l : queue := default new_queue (slot1 l).

Definition lua_ok l : Prop := ring_wf (lua_q l) ∧ chains_ok (lua_q l).

Definition packets l : list netpack := items (lua_q l).

Definition room (n : nat) l : Prop := len (packets l) + Z.of_nat n < CAPACITY.

(** The packet as it is handed over. *)
Definition packet fd (d : list Z) : netpack := Pack fd (len d) (Some <$> d).

(** The unfinished packet of [fd] becomes [ou], the packets [new] are queued. *)
Record moved l fd (ou : option uncomplete) (new : list netpack) l' : Prop := {
  mv_ok : lua_ok l';
  mv_pend : pend (lua_q l') fd = ou;
  mv_other : ∀ fd', fd' ≠ fd → pend (lua_q l') fd' = pend (lua_q l) fd';
  mv_packets : packets l' = packets l ++ new
}.

Lemma chains_ok_new : chains_ok new_queue.
Proof. intros h. split; constructor. Qed.

Lemma lua_ok_init n : lua_ok (Lua None n).
Proof. split; [apply ring_wf_new|apply chains_ok_new]. Qed.

Lemma moved_refl l fd : lua_ok l → moved l fd (pend (lua_q l) fd) [] l.
Proof. intros. split; [done..|]. by rewrite app_nil_r. Qed.

Lemma moved_trans l fd ou new l1 ou' new' l' :
  moved l fd ou new l1 → moved l1 fd ou' new' l' → moved l fd ou' (new ++ new') l'.
Proof.
  intros [H1 H2 H3 H4] [H1' H2' H3' H4']. split; [done..| |].
  - intros fd' Hne. by rewrite H3', H3.
  - by rewrite H4', H4, app_assoc.
Qed.

Lemma moved_view l l0 fd ou new l' : lua_q l0 = lua_q l → moved l0 fd ou new l' → moved l fd ou new l'.
Proof. unfold packets. intros Heq [? ? Ho Hp]. unfold packets in *. rewrite Heq in *. by split. Qed.

Lemma find_uncomplete_none l fd : pend (lua_q l) fd = None → find_uncomplete (slot1 l) fd = None.
Proof. unfold lua_q. destruct (slot1 l); [apply find_none|done]. Qed.

Lemma get_queue_spec l :
  wp get_queue l (fun q l' _ => q = lua_q l ∧ lua_q l' = lua_q l).
Proof.
  unfold get_queue. apply wp_bind, wp_get. unfold lua_q.
  destruct (slot1 l) as [q|] eqn:Hq; [by apply wp_ret; rewrite Hq|].
  apply wp_bind, wp_modify, wp_ret. done.
Qed.

(** Storing a packet in the queue record and the queue in slot 1. *)
Lemma link_moved l q fd uc l0 :
  lua_ok l → q = lua_q l → pend q fd = None → id (pack uc) = fd →
  moved l fd (Some uc) [] (set_slot1 (set_chain (hash_fd fd) (uc :: chain q (hash_fd fd)) q) l0).
Proof.
  intros [Hr Hc] -> Hnone Hid.
  destruct (link_spec (lua_q l) fd uc Hc Hnone Hid) as (Hc' & Hp & Ho).
  split; [by split|done|done|]. by rewrite app_nil_r.
Qed.

Lemma save_uncomplete_spec l fd f (P : uncomplete → Prop) :
  lua_ok l → pend (lua_q l) fd = None →
  (∀ l1, wp (f (fresh_uncomplete fd)) l1 (fun uc l2 _ => l2 = l1 ∧ id (pack uc) = fd ∧ P uc)) →
  wp (save_uncomplete fd f) l (fun _ l' _ => ∃ uc, moved l fd (Some uc) [] l' ∧ P uc).
Proof.
  intros Hok Hnone Hf. unfold save_uncomplete.
  apply wp_bind. eapply wp_mono; [apply get_queue_spec|]. intros q l1 _ [-> Hq].
  apply wp_bind, wp_emit, wp_bind. eapply wp_mono; [apply Hf|].
  intros uc l2 _ (-> & Hid & HP). apply wp_modify.
  exists uc. split; [|done]. by apply link_moved.
Qed.

Lemma relink_spec l fd uc :
  lua_ok l → pend (lua_q l) fd = None → id (pack uc) = fd →
  wp (relink fd uc) l (fun _ l' _ => moved l fd (Some uc) [] l').
Proof.
  intros Hok Hnone Hid. unfold relink. apply wp_bind.
  eapply wp_mono; [apply get_queue_spec|]. intros q l1 _ [-> Hq].
  apply wp_modify. by apply link_moved.
Qed.

(** Taking the packet of [fd] out of its chain. *)
Lemma find_moved l fd uc :
  lua_ok l → pend (lua_q l) fd = Some uc →
  ∃ q, find_uncomplete (slot1 l) fd = Some (uc, q) ∧
    ∀ l0, moved l fd None [] (set_slot1 q l0).
Proof.
  intros [Hr Hc] Hp. unfold lua_q in Hp. destruct (slot1 l) as [q|] eqn:Hq; [|done].
  simpl in Hp. destruct (find_some q fd uc) as (ch & Hf & Hc' & Hn & Ho);
    [by unfold lua_q in Hc; rewrite Hq in Hc|done|].
  exists (set_chain (hash_fd fd) ch q). split; [done|]. intros l0.
  assert (lua_q l = q) as Hlq by (unfold lua_q; by rewrite Hq).
  split; rewrite ?Hlq; try done; [by split; rewrite ?Hlq in Hr|].
  unfold packets. rewrite Hlq, app_nil_r. done.
Qed.

Lemma malloc_spec n l : 0 ≤ n → wp (malloc n) l (fun b l' _ => b = replicate (Z.to_nat n) None ∧ l' = l).
Proof.
  intros. unfold malloc. apply wp_bind, wp_emit. destruct (Z.ltb_spec n 0); [lia|]. by apply wp_ret.
Qed.

Lemma memcpy_fresh {A} (src : list A) n :
  (length src ≤ n)%nat →
  memcpy (E:=Empty_set) (replicate n None) 0 (Some <$> src) =
    Done ((Some <$> src) ++ replicate (n - length src) None).
Proof.
  intros Hn. rewrite (memcpy_done _ 0) by (rewrite length_fmap, length_replicate; lia).
  unfold splice. cbn [Nat.add]. by rewrite take_0, length_fmap, drop_replicate.
Qed.

Lemma push_data_spec l fd d post clone :
  lua_ok l → room 1 l → (clone = false → post = []) →
  wp (push_data fd (Some <$> d ++ post) (len d) clone) l (fun _ l' _ =>
    moved l fd (pend (lua_q l) fd) [packet fd d] l').
Proof.
  intros [Hr Hc] Hroom Hclone. unfold push_data. apply wp_bind.
  eapply (wp_mono _ _ (fun b l' _ => b = Some <$> d ∧ l' = l)).
  { destruct clone; [|rewrite (Hclone eq_refl), app_nil_r; by apply wp_ret].
    apply wp_bind. eapply wp_mono; [by apply malloc_spec; lia|]. intros b l1 _ [-> ->].
    apply wp_bind, wp_lift. rewrite rdn_done by (rewrite length_fmap, length_app; lia).
    apply returns_done. rewrite fmap_app, take_app_length' by (by rewrite length_fmap).
    apply wp_lift. rewrite Nat2Z.id, memcpy_fresh by lia. apply returns_done.
    by rewrite Nat.sub_diag, app_nil_r. }
  intros b l1 _ [-> ->]. apply wp_bind. eapply wp_mono; [apply get_queue_spec|].
  intros q l1 _ [-> Hq]. apply wp_bind, wp_lift.
  eapply returns_mono; [by apply queue_put_spec; [|unfold room, packets in Hroom; lia]|].
  intros q' (Hr' & Hi & Hh). apply wp_modify.
  assert (∀ fd, pend q' fd = pend (lua_q l) fd) as Hpd by (intros; unfold pend, chain; by rewrite Hh).
  split; [|done|done|done]. split; [done|]. unfold lua_q. cbn. intros h.
  unfold chain. rewrite Hh. apply Hc.
Qed.

Lemma moved_queue l fd a b l' l'' ou :
  moved l fd None [a] l' → moved l' fd ou b l'' → moved l fd ou (a :: b) l''.
Proof. intros H1 H2. exact (moved_trans _ _ _ _ _ _ _ _ H1 H2). Qed.
End view.

(** ** Streams of frames *)
Section streams.
Implicit Types (f : frame) (c r s p : list Z).

(** The proper prefixes of a frame. *)
Definition incomplete r : Prop := ∃ f, frame_ok f ∧ r `prefix_of` wire f ∧ (length r < length (wire f))%nat.

(** [s] is the frames [fs] followed by the unfinished [r]. *)
Definition framed s (fs : list frame) r : Prop :=
  s = concat (wire <$> fs) ++ r ∧ Forall frame_ok fs ∧ incomplete r.

Lemma length_masked f k d : length (masked f k d) = length d.
Proof. unfold masked. destruct (fmask f); [apply length_xor_mask|done]. Qed.

Lemma masked_app f k d1 d2 : masked f k (d1 ++ d2) = masked f k d1 ++ masked f (k + len d1) d2.
Proof. unfold masked. destruct (fmask f); [apply xor_mask_app|done]. Qed.

Lemma masked_involutive f k d : masked f k (masked f k d) = d.
Proof. unfold masked. destruct (fmask f); [apply xor_mask_involutive|done]. Qed.

Lemma hdr_length f : frame_ok f → (2 ≤ length (hdr f) ≤ 14)%nat.
Proof.
  intros Hok. unfold hdr. cbn [length]. rewrite length_app, length_ext, length_maskbytes by done.
  destruct (fform f), (fmask f); lia.
Qed.

Lemma wire_length f : length (wire f) = (length (hdr f) + length (payload f))%nat.
Proof. unfold wire. by rewrite length_app, length_masked. Qed.

Lemma prefix_take_agree {A} (b h t : list A) n :
  take n b `prefix_of` h ++ t → (n ≤ length b)%nat →
  take (Nat.min n (length h)) b = take (Nat.min n (length h)) h.
Proof.
  intros [k Hk] Hn. rewrite <- (take_take b), <- (take_app_le h t) by lia.
  rewrite Hk, Nat.min_comm, <- take_take.
  rewrite (take_app_le (take n b) k); rewrite ?length_take; [|lia].
  rewrite !take_take. f_equal. lia.
Qed.

(** Reading the header of the frame at the beginning of a stream. *)
Lemma read_header f b n t outs :
  frame_ok f → take n b `prefix_of` wire f ++ t → (n ≤ length b)%nat →
  read_size b (Z.of_nat n) outs =
    if Z.of_nat n <? len (hdr f) then Done (-1, outs)
    else Done (len (payload f), head_of f outs).
Proof.
  intros Hok Hp Hn. apply read_size_spec; [done| |lia]. rewrite Nat2Z.id.
  apply (prefix_take_agree _ _ (masked f 0 (payload f) ++ t)); [|done].
  unfold wire in Hp. by rewrite <- app_assoc in Hp.
Qed.

(** What the stream shows of a frame's header determines its effect. *)
Lemma same_head f f1 r t :
  frame_ok f → frame_ok f1 → hdr f `prefix_of` r → r `prefix_of` wire f ++ t →
  r `prefix_of` wire f1 ++ t →
  hdr f1 = hdr f ∧ length (payload f1) = length (payload f) ∧ fmask f1 = fmask f.
Proof.
  intros Hok Hok1 Hh Hr Hr1. pose proof (prefix_length _ _ Hh) as Hlen.
  assert (take (length r) r = r) as Htk by (apply take_ge; lia).
  pose proof (read_header f r (length r) t no_head Hok ltac:(by rewrite Htk) ltac:(lia)) as Hrd.
  pose proof (read_header f1 r (length r) t no_head Hok1 ltac:(by rewrite Htk) ltac:(lia)) as Hrd1.
  rewrite Hrd in Hrd1.
  destruct (Z.ltb_spec (len r) (len (hdr f))); [lia|].
  destruct (Z.ltb_spec (len r) (len (hdr f1))) as [|Hle]; [simplify_eq; lia|].
  assert (len (payload f) = len (payload f1)) as Hpl by congruence.
  assert (head_of f no_head = head_of f1 no_head) as Hhd by congruence.
  assert (len (hdr f) = len (hdr f1)) as Hlh.
  { apply (f_equal pack_head_length) in Hhd. unfold head_of in Hhd. by destruct (fmask f), (fmask f1). }
  assert (fmask f1 = fmask f) as Hm.
  { pose proof (f_equal mask Hhd) as Hmk. apply (f_equal ismask) in Hhd. unfold head_of in *.
    destruct (fmask f), (fmask f1); simpl in *; congruence. }
  apply Nat2Z.inj in Hlh.
  split; [|split; [lia|done]].
  assert (∀ g, hdr g `prefix_of` wire g ++ t) as Hpre.
  { intros g. unfold wire. rewrite <- app_assoc. by eexists. }
  assert (hdr f1 = take (length (hdr f)) r) as ->.
  { destruct Hr1 as [k1 Hk1]. destruct (Hpre f1) as [j1 Hj1].
    rewrite <- (take_app_le r k1), <- Hk1, Hj1 by lia.
    by rewrite Hlh, take_app_length. }
  destruct Hh as [k ->]. by rewrite take_app_length.
Qed.

(** Unmasking a piece of the payload; the counter matters for masked frames only. *)
Lemma decode_frame f d post k has :
  frame_ok f → bytes_ok d → 0 ≤ k → (fmask f = None ∨ has = k) →
  let o := head_of f no_head in
  decode_wsmask_data (masked f k d ++ post) (len d) (mask o) (ismask o) has =
    Done (d ++ post, if ismask o =? 0 then has else k + len d).
Proof.
  intros Hok Hd Hk Hhas o. unfold masked, o, head_of. destruct (fmask f) as [m|] eqn:Hm; simpl.
  - destruct Hhas as [?| ->]; [done|]. apply decode_spec; [|done..].
    pose proof (fo_mask f Hok) as Hmo. by rewrite Hm in Hmo.
  - done.
Qed.

Lemma head_length f : pack_head_length (head_of f no_head) = len (hdr f).
Proof. unfold head_of. by destruct (fmask f). Qed.

Lemma incomplete_nil : incomplete [].
Proof.
  exists (FrameSpec.Frame 2 None Short []).
  split; [split; cbn; unfold MAX_PACKSIZE; done || lia || by constructor|].
  split; [apply prefix_nil|]. rewrite wire_length. simpl. lia.
Qed.
End streams.

(** ** Unfinished packets *)
Section pending.
Implicit Types (f : frame) (c r s p d : list Z) (uc : uncomplete) (fd : Z).

(** The record holds the first bytes [d] of the payload of [f]. *)
Record holding f d uc : Prop := {
  ho_size : size (pack uc) = len (payload f);
  ho_buffer : length (buffer (pack uc)) = length (payload f);
  ho_data : take (length d) (buffer (pack uc)) = Some <$> d;
  ho_read : read uc = len d;
  ho_mask : umask uc = mask (head_of f no_head);
  ho_ismask : uismask uc = ismask (head_of f no_head);
  ho_unmasked : fmask f = None ∨ hasunmask_size uc = len d
}.

(** The record holds the bytes [r] of a header. *)
Record heading r uc : Prop := {
  he_read : read uc = -1;
  he_size : header_size uc = len r;
  he_header : length (header uc) = 1024%nat;
  he_bytes : take (length r) (header uc) = r
}.

Inductive unfinished r uc : Prop :=
  | unfinished_header f :
      frame_ok f → r ≠ [] → r `prefix_of` hdr f → (length r < length (hdr f))%nat → heading r uc →
      unfinished r uc
  | unfinished_body f d :
      frame_ok f → d `prefix_of` payload f → (length d < length (payload f))%nat →
      r = hdr f ++ masked f 0 d → holding f d uc → unfinished r uc.

(** The bytes of [fd] that the filter keeps are [r]. *)
Definition pending (q : queue) fd r : Prop :=
  match pend q fd with None => r = [] | Some uc => unfinished r uc end.

Lemma pending_nil q fd : pending q fd [] → pend q fd = None.
Proof.
  unfold pending. destruct (pend q fd) as [uc|]; [|done].
  intros [? ? ? ? ? ?|f d ? ? ? Heq ?]; [done|]. unfold hdr in Heq. done.
Qed.

Lemma prefix_wire f d : d `prefix_of` payload f → hdr f ++ masked f 0 d `prefix_of` wire f.
Proof. intros [e He]. unfold wire. rewrite He, masked_app, app_assoc. by eexists. Qed.

(** Every proper prefix of a frame lies in its header or in its payload. *)
Lemma incomplete_cases f r :
  r `prefix_of` wire f → (length r < length (wire f))%nat →
  (r `prefix_of` hdr f ∧ (length r < length (hdr f))%nat) ∨
  (∃ d, d `prefix_of` payload f ∧ (length d < length (payload f))%nat ∧ r = hdr f ++ masked f 0 d).
Proof.
  intros [k Hk] Hlt. rewrite wire_length in Hlt.
  destruct (decide (length r < length (hdr f))%nat) as [Hs|Hl].
  - left. split; [|done]. unfold wire in Hk.
    exists (drop (length r) (hdr f)). rewrite <- (take_drop (length r) (hdr f)) at 1. f_equal.
    rewrite <- (take_app_le (hdr f) (masked f 0 (payload f))), Hk by lia. apply take_app_length.
  - right. set (m := (length r - length (hdr f))%nat).
    exists (take m (payload f)). rewrite length_take.
    split; [by exists (drop m (payload f)); rewrite take_drop|]. split; [lia|].
    transitivity (take (length r) (wire f)); [by rewrite Hk, take_app_length|].
    unfold wire. rewrite take_app_ge by lia. f_equal. fold m.
    rewrite <- (take_drop m (payload f)) at 1. rewrite masked_app.
    rewrite take_app_le by (rewrite length_masked, length_take; lia).
    apply take_ge. rewrite length_masked, length_take. lia.
Qed.

Lemma heading_splice (hdrb src : list Z) :
  (length src ≤ 1024)%nat → length hdrb = 1024%nat →
  returns (E:=Empty_set) (memcpy hdrb 0 src) (fun h : list Z => length h = 1024%nat ∧ take (length src) h = src).
Proof.
  intros Hs Hh. rewrite (memcpy_done _ 0) by lia. apply returns_done.
  rewrite length_splice by lia. split; [done|].
  pose proof (splice_take hdrb 0 src ltac:(lia)) as Ht. by rewrite take_0 in Ht.
Qed.

(** [save_uncomplete] for an unfinished header. *)
Lemma store_header_spec r fd f l :
  frame_ok f → r ≠ [] → r `prefix_of` hdr f → (length r < length (hdr f))%nat →
  wp (store_header r (len r) false (fresh_uncomplete fd)) l (fun uc l' _ =>
    l' = l ∧ id (pack uc) = fd ∧ unfinished r uc).
Proof.
  intros Hok Hne Hpre Hlt. pose proof (hdr_length f Hok). unfold store_header. cbn [andb].
  apply wp_bind, wp_lift. rewrite (rdn_done r (length r)), take_ge by lia. apply returns_done.
  apply wp_bind, wp_lift. eapply returns_mono; [apply heading_splice|]; try done; [lia|].
  intros h [Hlh Hth]. apply wp_ret. split; [done|]. split; [done|].
  apply (unfinished_header _ _ f); try done.
Qed.

(** [save_uncomplete] for the first bytes of a payload. *)
Lemma store_body_spec d fd f l :
  frame_ok f → d `prefix_of` payload f → (length d < length (payload f))%nat →
  wp (store_body (masked f 0 d) (len d) (len (payload f)) (head_of f no_head) (fresh_uncomplete fd)) l
    (fun uc l' _ => l' = l ∧ id (pack uc) = fd ∧ unfinished (hdr f ++ masked f 0 d) uc).
Proof.
  intros Hok Hpre Hlt. unfold store_body. apply wp_bind.
  eapply wp_mono; [by apply malloc_spec; lia|]. intros b l1 _ [-> ->]. apply wp_bind, wp_lift.
  assert (bytes_ok d) as Hd.
  { destruct Hpre as [e He]. pose proof (fo_payload f Hok) as Hp. rewrite He in Hp.
    by apply Forall_app in Hp as [? _]. }
  pose proof (decode_frame f d [] 0 0 Hok Hd ltac:(lia) ltac:(by right)) as Hdec. cbv zeta in Hdec.
  rewrite !app_nil_r in Hdec. rewrite Hdec. apply returns_done. cbn beta iota.
  apply wp_bind, wp_lift. rewrite (rdn_done d (length d)), take_ge by lia. apply returns_done.
  apply wp_bind, wp_lift. rewrite memcpy_fresh by lia. apply returns_done, wp_ret.
  split; [done|]. split; [done|]. apply (unfinished_body _ _ f d); try done.
  split; cbn [pack size buffer read umask uismask hasunmask_size]; try done.
  - rewrite length_app, length_fmap, length_replicate. lia.
  - by rewrite take_app_length' by (by rewrite length_fmap).
  - unfold head_of. destruct (fmask f); [by right|by left].
Qed.
End pending.
