(* ===== verification/NetpackFilter.v ===== *)
(** * The filter cuts every stream of frames into its packets

    [filter_data_] on a chunk of a stream of well-formed frames, whatever the
    boundaries of the chunks: the finished frames are handed over, the rest is
    kept for the next chunk, other connections are not touched. *)
From S2P Require Import Prelude Ring Libc Frame FrameSpec Netpack NetpackSpec.
Import Frame Netpack.

Section filter.
Implicit Types (f : frame) (c r s p d : list Z) (uc : uncomplete) (fd : Z) (l : lua).

Definition packs fd (fs : list frame) : list netpack := (fun f => packet fd (payload f)) <$> fs.

(** After a chunk: [new] packets are queued and [r] is pending. *)
Definition after l fd r new l' : Prop := ∃ ou,
  moved l fd ou new l' ∧ match ou with None => r = [] | Some uc => unfinished r uc end.

Lemma after_trans l fd new l1 r new' l' :
  moved l fd None new l1 → after l1 fd r new' l' → after l fd r (new ++ new') l'.
Proof. intros H1 (ou & H2 & H3). exists ou. split; [by eapply moved_trans|done]. Qed.

Lemma skip_loop_once skip k c n outs res outs' :
  read_size c n outs = Done (res, outs') → skip res = false →
  skip_loop (S k) skip c n outs = Done (res, outs', c, n).
Proof. intros Hr Hs. cbn [skip_loop]. rewrite Hr. cbn [obind]. by rewrite Hs. Qed.

Lemma next_frame_spec skip f c t :
  frame_ok f → c `prefix_of` wire f ++ t → skip (-1) = false → (∀ n, 0 ≤ n → skip n = false) →
  next_frame skip c (len c) false =
    if len c <? len (hdr f) then Done (-1, no_head, c, len c)
    else Done (len (payload f), head_of f no_head, c, len c).
Proof.
  intros Hok Hc Hs1 Hs. pose proof (fo_len f Hok). unfold next_frame.
  pose proof (read_header f c (length c) t no_head Hok) as Hrd.
  rewrite take_ge in Hrd by lia. specialize (Hrd Hc ltac:(lia)).
  destruct (Z.ltb_spec (len c) (len (hdr f))).
  - rewrite (skip_loop_once _ _ _ _ _ _ _ Hrd) by done. done.
  - rewrite (skip_loop_once _ _ _ _ _ _ _ Hrd) by (apply Hs; lia). cbn [obind].
    destruct (Z.ltb_spec MAX_PACKSIZE (len (payload f))); [lia|done].
Qed.

Lemma payload_take f d : frame_ok f → d `prefix_of` payload f → bytes_ok d.
Proof. intros Hok [e He]. pose proof (fo_payload f Hok) as Hp. rewrite He in Hp. by apply Forall_app in Hp as [? _]. Qed.

(** The beginning of a stream: an unfinished frame, or a whole one. *)
Lemma framed_split c fs r :
  framed c fs r →
  (fs = [] ∧ c = r ∧ ∃ f, frame_ok f ∧
     ((r `prefix_of` hdr f ∧ (length r < length (hdr f))%nat) ∨
      (∃ d, d `prefix_of` payload f ∧ (length d < length (payload f))%nat ∧
         r = hdr f ++ masked f 0 d))) ∨
  (∃ f fs' s, fs = f :: fs' ∧ c = wire f ++ s ∧ frame_ok f ∧ framed s fs' r).
Proof.
  intros (-> & Hfs & f & Hok & Hp & Hlt). destruct fs as [|g fs].
  - left. split; [done|]. split; [done|]. exists f. split; [done|]. by apply incomplete_cases.
  - right. apply Forall_cons in Hfs as [Hg Hfs]. exists g, fs, (concat (wire <$> fs) ++ r).
    split; [done|]. split; [by rewrite fmap_cons; cbn [concat]; rewrite <- app_assoc|].
    split; [done|]. split; [done|]. split; [done|]. by exists f.
Qed.

Lemma framed_nil fs r : framed [] fs r → fs = [] ∧ r = [].
Proof.
  intros (Heq & Hfs & _). destruct fs as [|f fs]; [done|]. exfalso.
  apply (f_equal length) in Heq. rewrite fmap_cons in Heq. cbn [concat] in Heq.
  rewrite !length_app, wire_length in Heq. apply Forall_cons in Hfs as [Hf _].
  pose proof (hdr_length f Hf). simpl length in Heq at 1. lia.
Qed.

(** What the fresh branches compute for an unfinished frame. *)
Lemma save_header_after fd f r l :
  lua_ok l → pend (lua_q l) fd = None →
  frame_ok f → r ≠ [] → r `prefix_of` hdr f → (length r < length (hdr f))%nat →
  wp (save_uncomplete fd (store_header r (len r) false)) l (fun _ l' _ => after l fd r [] l').
Proof.
  intros Hok Hn Hf Hne Hp Hlt. eapply wp_mono.
  - apply (save_uncomplete_spec l fd _ (unfinished r)); [done..|].
    intros l1. by apply (store_header_spec r fd f).
  - intros _ l' _ (uc & Hm & Hu). by exists (Some uc).
Qed.

Lemma save_body_after fd f d l :
  lua_ok l → pend (lua_q l) fd = None →
  frame_ok f → d `prefix_of` payload f → (length d < length (payload f))%nat →
  wp (save_uncomplete fd (store_body (masked f 0 d) (len d) (len (payload f)) (head_of f no_head)))
    l (fun _ l' _ => after l fd (hdr f ++ masked f 0 d) [] l').
Proof.
  intros Hok Hn Hf Hp Hlt. eapply wp_mono.
  - apply (save_uncomplete_spec l fd _ (unfinished (hdr f ++ masked f 0 d))); [done..|].
    intros l1. by apply store_body_spec.
  - intros _ l' _ (uc & Hm & Hu). by exists (Some uc).
Qed.

(** The body of a frame in the stream, past its header. *)
Lemma past_header f t :
  drop (Z.to_nat (len (hdr f))) (wire f ++ t) = masked f 0 (payload f) ++ t.
Proof. unfold wire. by rewrite Nat2Z.id, <- app_assoc, drop_app_length. Qed.

Lemma past_header_len f t : len (wire f ++ t) - len (hdr f) = len (payload f) + len t.
Proof. rewrite length_app, wire_length. lia. Qed.

Lemma decode_payload f t :
  frame_ok f →
  ∃ has, decode_wsmask_data (masked f 0 (payload f) ++ t) (len (payload f))
    (mask (head_of f no_head)) (ismask (head_of f no_head)) 0 = Done (payload f ++ t, has).
Proof.
  intros Hok. eexists. apply (decode_frame f (payload f) t 0 0); try done; [|by right].
  apply Hok.
Qed.

Lemma drop_payload f t : drop (Z.to_nat (len (payload f))) (payload f ++ t) = t.
Proof. by rewrite Nat2Z.id, drop_app_length. Qed.

Lemma push_more_spec fuel l fd c fs r :
  framed c fs r → c ≠ [] → lua_ok l → pend (lua_q l) fd = None → room (length fs) l →
  (length c < fuel)%nat →
  wp (push_more fuel fd c (len c) false) l (fun _ l' _ => after l fd r (packs fd fs) l').
Proof.
  revert l c fs. induction fuel as [|fuel IH]; intros l c fs Hfr Hc Hok Hn Hroom Hfuel; [lia|].
  cbn [push_more]. apply wp_bind, wp_lift.
  destruct (framed_split _ _ _ Hfr) as [(-> & -> & f & Hf & Hcase)|(f & fs' & s & -> & -> & Hf & Hfr')].
  - assert (r `prefix_of` wire f ++ []) as Hpre.
    { rewrite app_nil_r. destruct Hcase as [[Hp _]|(d & Hp & _ & ->)]; [|by apply prefix_wire].
      etrans; [exact Hp|]. unfold wire. by eexists. }
    rewrite (next_frame_spec _ f r []); [|done..|by intros n ?; apply Z.leb_gt; lia].
    destruct Hcase as [[Hp Hlt]|(d & Hp & Hlt & ->)].
    + destruct (Z.ltb_spec (len r) (len (hdr f))); [|lia]. apply returns_done. cbn beta iota.
      simpl (-1 =? -1). cbn iota. by eapply save_header_after.
    + rewrite length_app, length_masked. destruct (Z.ltb_spec (Z.of_nat (length (hdr f) + length d)) (len (hdr f))); [lia|].
      apply returns_done. cbn beta iota. destruct (Z.eqb_spec (len (payload f)) (-1)); [lia|].
      rewrite head_length, Nat2Z.id, drop_app_length.
      replace (Z.of_nat (length (hdr f) + length d) - len (hdr f)) with (len d) by lia.
      destruct (Z.ltb_spec (len d) (len (payload f))); [|lia]. cbn [andb negb].
      by apply save_body_after.
  - rewrite (next_frame_spec _ f _ s); [|done|by exists []; rewrite app_nil_r|done|by intros n ?; apply Z.leb_gt; lia].
    destruct (Z.ltb_spec (len (wire f ++ s)) (len (hdr f))) as [Hlt|_].
    { rewrite length_app, wire_length in Hlt. lia. }
    apply returns_done. cbn beta iota. destruct (Z.eqb_spec (len (payload f)) (-1)); [lia|].
    rewrite head_length, past_header, past_header_len.
    destruct (Z.ltb_spec (len (payload f) + len s) (len (payload f))); [lia|]. cbn [andb].
    destruct (decode_payload f s Hf) as [has Hdec]. rewrite Hdec.
    apply wp_bind, wp_lift, returns_done. cbn beta iota.
    apply wp_bind. eapply wp_mono.
    { apply push_data_spec; [done| |done]. unfold room in *. simpl in Hroom. lia. }
    intros ? l1 ? Hm. cbn beta in Hm. rewrite Hn in Hm. rewrite drop_payload.
    replace (len (payload f) + len s - len (payload f)) with (len s) by lia.
    destruct (Z.ltb_spec 0 (len s)) as [Hs|Hs].
    + eapply wp_mono; [apply (IH l1 s fs')|]; try done.
      * by destruct s.
      * apply Hm.
      * apply Hm.
      * unfold room in *. rewrite (mv_packets _ _ _ _ _ Hm), length_app. simpl in *. lia.
      * rewrite length_app, wire_length in Hfuel. pose proof (hdr_length f Hf). lia.
      * intros ? l2 ? Ha. by apply (after_trans l fd [packet fd (payload f)] l1).
    + destruct s as [|? ?]; [|simpl in Hs; lia]. destruct (framed_nil _ _ Hfr') as [-> ->].
      apply wp_ret. by exists None.
Qed.

(** What a chunk that finishes the frames [fs] and leaves [r] yields: the value
    returned to Lua and the packets queued. *)
Definition verdict fd (fs : list frame) r : result * list netpack :=
  match fs, r with
  | [], _ => (RetQueue, [])
  | [f], [] => (RetData fd (Some <$> payload f) (len (payload f)), [])
  | _, _ => (RetMore, packs fd fs)
  end.

Definition yields l fd fs r (res : result) l' : Prop :=
  res = (verdict fd fs r).1 ∧ after l fd r (verdict fd fs r).2 l'.

Lemma verdict_more fd f fs r s :
  framed s fs r → s ≠ [] → verdict fd (f :: fs) r = (RetMore, packs fd (f :: fs)).
Proof.
  intros (-> & _ & _) Hs. simpl. destruct fs as [|g fs]; [|done]. by destruct r.
Qed.

(** The turn after a finished packet when bytes are left: queue it, go on. *)
Lemma push_rest_spec l fd f post clone s fs r :
  lua_ok l → pend (lua_q l) fd = None → room (S (length fs)) l →
  (clone = false → post = []) → framed s fs r → s ≠ [] →
  wp (push_data fd (Some <$> payload f ++ post) (len (payload f)) clone) l (fun _ l1 _ =>
    wp (push_more (S (length s)) fd s (len s) false) l1 (fun _ l2 _ =>
      yields l fd (f :: fs) r RetMore l2)).
Proof.
  intros Hok Hn Hroom Hcl Hfr Hs. eapply wp_mono.
  { apply push_data_spec; [done| |done]. unfold room in *. lia. }
  intros ? l1 ? Hm. cbn beta in Hm. rewrite Hn in Hm. eapply wp_mono.
  { apply (push_more_spec _ l1 fd s fs r); try done; [apply Hm|apply Hm| |lia].
    unfold room in *. rewrite (mv_packets _ _ _ _ _ Hm), length_app. simpl in *. lia. }
  intros ? l2 ? Ha. unfold yields. rewrite (verdict_more fd f fs r s) by done.
  split; [done|]. by apply (after_trans l fd [packet fd (payload f)] l1).
Qed.

(** More payload, but not all of it. *)
Lemma fill_more l fd f d e uc :
  lua_ok l → pend (lua_q l) fd = None → id (pack uc) = fd →
  frame_ok f → (d ++ e) `prefix_of` payload f → (length (d ++ e) < length (payload f))%nat →
  holding f d uc →
  wp (fill_packet fd uc (masked f (len d) e) (len e) false) l (fun res l' _ =>
    yields l fd [] (hdr f ++ masked f 0 (d ++ e)) res l').
Proof.
  intros Hok Hn Hid Hf Hp Hlt [Hsz Hb Hd Hrd Hmk Him Hhas]. unfold fill_packet.
  rewrite length_app in Hlt. pose proof (payload_take f _ Hf Hp) as Hbo.
  apply Forall_app in Hbo as [Hbd Hbe].
  rewrite Hsz, Hrd, Hmk, Him. destruct (Z.ltb_spec (len e) (len (payload f) - len d)); [|lia].
  pose proof (decode_frame f e [] (len d) _ Hf Hbe ltac:(lia) Hhas) as Hdec. cbv zeta in Hdec.
  rewrite !app_nil_r in Hdec. rewrite Hdec. apply wp_bind, wp_lift, returns_done. cbn beta iota.
  apply wp_bind, wp_lift. rewrite (rdn_done e (length e)), take_ge by lia. apply returns_done.
  apply wp_bind, wp_lift. rewrite memcpy_done by (rewrite length_fmap; lia). apply returns_done.
  apply wp_bind. eapply wp_mono; [by apply relink_spec|]. intros ? l' ? Hm. apply wp_ret.
  split; [done|]. eexists (Some _). split; [exact Hm|].
  apply (unfinished_body _ _ f (d ++ e)); try done; [by rewrite length_app|].
  split; cbn [pack size buffer read umask uismask hasunmask_size]; rewrite ?length_app, ?fmap_app.
  - done.
  - rewrite length_splice; [done|rewrite length_fmap; lia].
  - rewrite <- Hd.
    pose proof (splice_take (buffer (pack uc)) (length d) (Some <$> e)) as Hst.
    rewrite length_fmap in Hst. apply Hst. lia.
  - lia.
  - done.
  - done.
  - unfold head_of. destruct (fmask f); [|by left]. right. simpl. lia.
Qed.

(** The rest of the payload, and [s] behind it. *)
Lemma fill_done l fd f d e s fs r uc :
  lua_ok l → pend (lua_q l) fd = None → frame_ok f → payload f = d ++ e → holding f d uc →
  framed s fs r → room (S (length fs)) l →
  wp (fill_packet fd uc (masked f (len d) e ++ s) (len e + len s) false) l (fun res l' _ =>
    yields l fd (f :: fs) r res l').
Proof.
  intros Hok Hn Hf Hp [Hsz Hb Hd Hrd Hmk Him Hhas] Hfr Hroom. unfold fill_packet.
  pose proof (fo_payload f Hf) as Hbo. rewrite Hp in Hbo. apply Forall_app in Hbo as [Hbd Hbe].
  assert (length (payload f) = length d + length e)%nat as Hlp by (by rewrite Hp, length_app).
  rewrite Hsz, Hrd, Hmk, Him.
  replace (len (payload f) - len d) with (len e) by lia.
  destruct (Z.ltb_spec (len e + len s) (len e)); [lia|].
  pose proof (decode_frame f e s (len d) _ Hf Hbe ltac:(lia) Hhas) as Hdec. cbv zeta in Hdec.
  rewrite Hdec. apply wp_bind, wp_lift, returns_done. cbn beta iota.
  apply wp_bind, wp_lift. rewrite rdn_done, take_app_length by (rewrite length_app; lia).
  apply returns_done.
  apply wp_bind, wp_lift. rewrite memcpy_done by (rewrite length_fmap; lia). apply returns_done.
  pose proof (splice_take (buffer (pack uc)) (length d) (Some <$> e)) as Hst.
  rewrite length_fmap, Hd, <- fmap_app, <- Hp in Hst. specialize (Hst ltac:(lia)).
  rewrite take_ge in Hst by (rewrite length_splice; rewrite ?length_fmap; lia). rewrite Hst.
  replace (len e + len s - len e) with (len s) by lia. rewrite !Nat2Z.id, drop_app_length.
  destruct (Z.eqb_spec (len s) 0) as [Hz|Hz].
  - destruct s; [|simpl in Hz; lia]. destruct (framed_nil _ _ Hfr) as [-> ->].
    apply wp_bind, wp_emit, wp_ret. split; [done|]. exists None. split; [|done].
    rewrite <- Hn. by apply moved_refl.
  - pose proof (push_rest_spec l fd f [] false s fs r Hok Hn Hroom
      ltac:(done) Hfr ltac:(by intros ->)) as Hrest. rewrite app_nil_r in Hrest.
    apply wp_bind. eapply wp_mono; [exact Hrest|]. intros ? l1 ? H1.
    apply wp_bind, wp_emit, wp_bind. eapply wp_mono; [exact H1|].
    intros ? l2 ? H2. by apply wp_ret.
Qed.

Lemma filter_fresh_spec l fd c fs r :
  framed c fs r → c ≠ [] → lua_ok l → pend (lua_q l) fd = None → room (length fs) l →
  wp (filter_fresh fd c (len c) false) l (fun res l' _ => yields l fd fs r res l').
Proof.
  intros Hfr Hc Hok Hn Hroom. unfold filter_fresh. apply wp_bind, wp_lift.
  destruct (framed_split _ _ _ Hfr) as [(-> & -> & f & Hf & Hcase)|(f & fs' & s & -> & -> & Hf & Hfr')].
  - assert (r `prefix_of` wire f ++ []) as Hpre.
    { rewrite app_nil_r. destruct Hcase as [[Hp _]|(d & Hp & _ & ->)]; [|by apply prefix_wire].
      etrans; [exact Hp|]. unfold wire. by eexists. }
    rewrite (next_frame_spec _ f r []); [|done..|by intros n ?; apply Z.eqb_neq; lia].
    destruct Hcase as [[Hp Hlt]|(d & Hp & Hlt & ->)].
    + destruct (Z.ltb_spec (len r) (len (hdr f))); [|lia]. apply returns_done. cbn beta iota.
      simpl (-1 =? -1). cbn iota. apply wp_bind.
      eapply wp_mono; [by eapply save_header_after|]. intros ? l' ? Ha. by apply wp_ret.
    + rewrite length_app, length_masked. destruct (Z.ltb_spec (Z.of_nat (length (hdr f) + length d)) (len (hdr f))); [lia|].
      apply returns_done. cbn beta iota. destruct (Z.eqb_spec (len (payload f)) (-1)); [lia|].
      destruct (Z.eqb_spec (len (payload f)) (-3)); [lia|].
      rewrite head_length, Nat2Z.id, drop_app_length.
      replace (Z.of_nat (length (hdr f) + length d) - len (hdr f)) with (len d) by lia.
      destruct (Z.ltb_spec (len d) (len (payload f))); [|lia]. cbn [andb negb]. apply wp_bind.
      eapply wp_mono; [by apply save_body_after|]. intros ? l' ? Ha. by apply wp_ret.
  - rewrite (next_frame_spec _ f _ s); [|done|by exists []; rewrite app_nil_r|done|by intros n ?; apply Z.eqb_neq; lia].
    destruct (Z.ltb_spec (len (wire f ++ s)) (len (hdr f))) as [Hlt|_].
    { rewrite length_app, wire_length in Hlt. lia. }
    apply returns_done. cbn beta iota. destruct (Z.eqb_spec (len (payload f)) (-1)); [lia|].
    destruct (Z.eqb_spec (len (payload f)) (-3)); [lia|].
    rewrite head_length, past_header, past_header_len.
    destruct (Z.ltb_spec (len (payload f) + len s) (len (payload f))); [lia|]. cbn [andb].
    destruct (decode_payload f s Hf) as [has Hdec].
    destruct (Z.eqb_spec (len (payload f) + len s) (len (payload f))) as [Hz|Hz].
    + destruct s; [|simpl in Hz; lia]. destruct (framed_nil _ _ Hfr') as [-> ->].
      rewrite !app_nil_r in Hdec. simpl length. rewrite app_nil_r, Z.add_0_r, Hdec. apply wp_bind.
      eapply wp_mono; [by apply malloc_spec; lia|]. intros b l1 ? [-> ->].
      apply wp_bind, wp_lift, returns_done. cbn beta iota.
      apply wp_bind, wp_lift. rewrite rdn_done, take_ge by lia. apply returns_done.
      apply wp_bind, wp_lift. rewrite memcpy_fresh by lia. apply returns_done, wp_ret.
      rewrite Nat2Z.id, Nat.sub_diag, app_nil_r.
      split; [done|]. exists None. split; [|done]. rewrite <- Hn. by apply moved_refl.
    + rewrite Hdec. apply wp_bind, wp_lift, returns_done. cbn beta iota.
      rewrite drop_payload. replace (len (payload f) + len s - len (payload f)) with (len s) by lia.
      rewrite Nat2Z.id.
      apply wp_bind. eapply wp_mono.
      { apply (push_rest_spec l fd f s true s fs' r); try done. intros ->. simpl in Hz. lia. }
      intros ? l1 ? H1. apply wp_bind. eapply wp_mono; [exact H1|].
      intros ? l2 ? H2. by apply wp_ret.
Qed.

(** ** The branch for a connection with an unfinished packet *)

Lemma take_zset {A} (h p : list A) b :
  take (length p) h = p → (length p < length h)%nat →
  take (length (p ++ [b])) (zset h (len p) b) = p ++ [b].
Proof.
  intros Ht Hl. unfold zset. rewrite Nat2Z.id, length_app. simpl.
  replace (length p + 1)%nat with (S (length p)) by lia.
  rewrite (take_S_r _ _ b) by (apply list_lookup_insert_eq; lia).
  by rewrite take_insert_ge, Ht by lia.
Qed.

Lemma header_byte_spec f p b t h :
  frame_ok f → p ++ [b] `prefix_of` wire f ++ t → length h = 1024%nat → take (length p) h = p →
  (length p < length (hdr f))%nat →
  header_byte h (len p) b false no_head =
    Done (if len (p ++ [b]) <? len (hdr f) then (-1, no_head, zset h (len p) b, len (p ++ [b]))
          else (len (payload f), head_of f no_head, zset h (len p) b, len (p ++ [b]))).
Proof.
  intros Hf Hp Hh Ht Hlt. pose proof (hdr_length f Hf). pose proof (fo_len f Hf).
  unfold header_byte. rewrite wr_done by lia. cbn [obind].
  assert (take (length (p ++ [b])) (zset h (len p) b) = p ++ [b]) as Ht' by (apply take_zset; [done|lia]).
  replace (len p + 1) with (len (p ++ [b])) by (rewrite length_app; simpl; lia).
  pose proof (read_header f (zset h (len p) b) (length (p ++ [b])) t no_head Hf
    ltac:(by rewrite Ht') ltac:(rewrite length_zset, length_app; simpl; lia)) as Hrd.
  cbn [header_skip]. rewrite Hrd.
  destruct (Z.ltb_spec (len (p ++ [b])) (len (hdr f))); cbn [obind]; [done|].
  destruct (Z.eqb_spec (len (payload f)) (-2)); [lia|]. cbn [obind].
  destruct (Z.ltb_spec MAX_PACKSIZE (len (payload f))); [lia|done].
Qed.

(** The header is read byte by byte until it is complete or the chunk ends. *)
Definition header_post f p c (pre : list Z) '((ps, outs, h', hsz, idx) : Z * head_t * list Z * Z * Z) : Prop :=
  length h' = 1024%nat ∧
  if decide (length (p ++ c) < length (hdr f))%nat
  then ps = -1 ∧ hsz = len (p ++ c) ∧ take (length (p ++ c)) h' = p ++ c ∧ idx = len pre + len c
  else ps = len (payload f) ∧ outs = head_of f no_head ∧ idx = len pre + (len (hdr f) - len p).

Lemma header_loop_spec f p c t h (pre : list Z) :
  frame_ok f → p ++ c `prefix_of` wire f ++ t → length h = 1024%nat → take (length p) h = p →
  (length p < length (hdr f))%nat → c ≠ [] →
  returns (header_loop (length c) (len pre) (pre ++ c) h (len p) (len (pre ++ c)) false no_head)
    (header_post f p c pre).
Proof.
  intros Hf. revert p h pre. induction c as [|b c IH]; intros p h pre Hp Hh Ht Hlt Hc; [done|].
  pose proof (hdr_length f Hf). cbn [length header_loop].
  rewrite (rd_done _ _ b) by (rewrite zget_of_nat, lookup_app_r, Nat.sub_diag by lia; done).
  cbn [obind].
  assert (p ++ [b] `prefix_of` wire f ++ t) as Hpb.
  { etrans; [|exact Hp]. exists c. by rewrite <- app_assoc. }
  rewrite (header_byte_spec f p b t) by done. cbn [obind].
  assert (length (p ++ b :: c) = length (p ++ [b]) + length c)%nat as Hlen.
  { rewrite !length_app. simpl. lia. }
  assert (length (p ++ [b]) = length p + 1)%nat as Hlb by (rewrite length_app; simpl; lia).
  assert (len (pre ++ b :: c) = len pre + 1 + len c) as Hlc.
  { rewrite length_app. simpl. lia. }
  rewrite Hlc. unfold header_post.
  destruct (Z.ltb_spec (len (p ++ [b])) (len (hdr f))) as [Hs|Hs].
  - change (0 <=? -1) with false. cbn [orb].
    destruct (Z.leb_spec (len pre + 1 + len c) (len pre + 1)) as [He|He].
    + destruct c as [|? c]; [|simpl in He; lia]. apply returns_done.
      rewrite length_zset. split; [done|]. rewrite decide_True by lia.
      split; [done|]. split; [done|]. split; [by apply take_zset; [|lia]|]. simpl length. lia.
    + specialize (IH (p ++ [b]) (zset h (len p) b) (pre ++ [b])).
      rewrite <- !app_assoc in IH. cbn [app] in IH.
      assert (len (pre ++ [b]) = len pre + 1) as Hpre by (rewrite length_app; simpl; lia).
      rewrite Hlc, Hpre in IH. eapply returns_mono.
      { apply IH; try done; [by rewrite length_zset|by apply take_zset; [|lia]|lia|].
        intros ->. simpl in He. lia. }
      unfold header_post. rewrite <- app_assoc. cbn [app]. rewrite Hpre.
      intros ((((ps & outs) & h') & hsz) & idx) [Hh' HQ]. split; [done|].
      destruct (decide _); simpl length; naive_solver lia.
  - destruct (Z.leb_spec 0 (len (payload f))); [|lia]. cbn [orb]. apply returns_done.
    rewrite length_zset. split; [done|]. rewrite decide_False by lia.
    split; [done|]. split; [done|]. lia.
Qed.

(** Two ways to see the bytes up to the end of the chunk. *)
Lemma framed_frame s fs r :
  framed s fs r → ∃ f t, frame_ok f ∧ s `prefix_of` wire f ++ t ∧
    ((fs = [] ∧ r = s ∧ t = [] ∧ (length s < length (wire f))%nat) ∨ (∃ fs', fs = f :: fs' ∧ s = wire f ++ t ∧ framed t fs' r)).
Proof.
  intros (-> & Hfs & f & Hok & Hp & Hlt). destruct fs as [|g fs].
  - exists f, []. rewrite app_nil_r. split; [done|]. split; [done|]. left. by split_and!.
  - apply Forall_cons in Hfs as [Hg Hfs]. exists g, (concat (wire <$> fs) ++ r).
    rewrite fmap_cons. cbn [concat]. rewrite <- app_assoc. split; [done|]. split; [done|].
    right. exists fs. split; [done|]. split; [done|]. split; [done|]. split; [done|]. by exists f.
Qed.

Lemma holding_same f f1 d uc :
  holding f d uc → hdr f1 = hdr f → length (payload f1) = length (payload f) → fmask f1 = fmask f →
  holding f1 d uc.
Proof.
  intros [H1 H2 H3 H4 H5 H6 H7] Hh Hp Hm.
  assert (head_of f1 no_head = head_of f no_head) as Hho by (unfold head_of; by rewrite Hh, Hm).
  split; rewrite ?Hp, ?Hho, ?Hm; done.
Qed.

Lemma masked_take f k n d : masked f k (take n d) = take n (masked f k d).
Proof.
  destruct (decide (n ≤ length d)%nat); [|by rewrite !take_ge by (rewrite ?length_masked; lia)].
  rewrite <- (take_drop n d) at 2. rewrite masked_app, take_app_length'; [done|].
  rewrite length_masked, length_take. lia.
Qed.

(** What is left of a frame behind [p] when [p ++ c] is a piece of the stream. *)
Lemma masked_prefix f d s t :
  masked f 0 d ++ s `prefix_of` masked f 0 (payload f) ++ t →
  (length d ≤ length (payload f))%nat → d `prefix_of` payload f.
Proof.
  intros [k Hk] Hle. rewrite <- app_assoc in Hk.
  exists (drop (length d) (payload f)).
  rewrite <- (take_drop (length d) (payload f)) at 1. f_equal.
  apply (f_equal (take (length d))) in Hk.
  rewrite (take_app_le (masked f 0 (payload f))) in Hk by (rewrite length_masked; lia).
  rewrite (take_app_le (masked f 0 d)) in Hk by (by rewrite length_masked).
  rewrite (take_ge (masked f 0 d)) in Hk by (by rewrite length_masked).
  rewrite <- masked_take in Hk. apply (f_equal (masked f 0)) in Hk.
  by rewrite !masked_involutive in Hk.
Qed.

(** The header is known, [d] has arrived of the payload. *)
Lemma filter_body_spec l fd f d uc c fs r :
  lua_ok l → pend (lua_q l) fd = None → id (pack uc) = fd → room (length fs) l →
  frame_ok f → d `prefix_of` payload f → holding f d uc →
  framed (hdr f ++ masked f 0 d ++ c) fs r →
  wp (fill_packet fd uc c (len c) false) l (fun res l' _ => yields l fd fs r res l').
Proof.
  intros Hok Hn Hid Hroom Hf Hd Hho Hfr.
  destruct (framed_frame _ _ _ Hfr) as (f1 & t & Hf1 & Hpre & Hcase).
  destruct (same_head f f1 (hdr f ++ masked f 0 d) t) as (Hh & Hlp & Hm); try done.
  { by eexists. }
  { etrans; [by apply prefix_wire|]. by eexists. }
  { etrans; [|exact Hpre]. rewrite app_assoc. by eexists. }
  pose proof (holding_same _ _ _ _ Hho Hh Hlp Hm) as Hho1.
  assert (masked f = masked f1) as Hmm by (unfold masked; by rewrite Hm).
  assert (length d ≤ length (payload f1))%nat as Hld.
  { rewrite Hlp. by apply prefix_length. }
  rewrite Hmm, <- Hh in *.
  assert (d `prefix_of` payload f1) as Hd1.
  { apply (masked_prefix f1 d c t); [|done]. apply (prefix_app_inv (hdr f1)).
    unfold wire in Hpre. by rewrite <- app_assoc in Hpre. }
  destruct Hcase as [(-> & -> & -> & Hlt)|(fs' & -> & Hs & Hfr')].
  - rewrite app_nil_r in Hpre.
    destruct (incomplete_cases f1 _ Hpre Hlt) as [[_ Hx]|(d' & Hd' & Hlt' & Heq)].
    { rewrite !length_app in Hx. lia. }
    apply app_inv_head in Heq.
    assert (d `prefix_of` d') as [e ->].
    { destruct (prefix_weak_total d d' (payload f1)) as [|[e He]]; [done..|].
      apply (f_equal length) in Heq. apply (f_equal length) in He.
      rewrite !length_app, !length_masked in *. 
      assert (length d' = length d) as Hl by lia.
      destruct Hd1 as [k1 Hk1], Hd' as [k2 Hk2]. rewrite Hk1 in Hk2.
      apply app_inj_1 in Hk2 as [-> _]; done. }
    rewrite masked_app in Heq. apply app_inv_head in Heq as ->. rewrite Z.add_0_l.
    rewrite length_masked.
    replace (masked f1 0 d ++ masked f1 (len d) e) with (masked f1 0 (d ++ e)) by (by rewrite masked_app).
    by apply fill_more.
  - destruct Hd1 as [e He]. unfold wire in Hs. rewrite <- app_assoc in Hs.
    apply app_inv_head in Hs. rewrite He, masked_app, <- app_assoc in Hs.
    apply app_inv_head in Hs as ->. rewrite Z.add_0_l, length_app, length_masked, Nat2Z.inj_add.
    eapply fill_done; done.
Qed.

Lemma short_header f f1 p t :
  frame_ok f → p `prefix_of` hdr f → (length p < length (hdr f))%nat →
  frame_ok f1 → p `prefix_of` wire f1 ++ t → (length p < length (hdr f1))%nat.
Proof.
  intros Hf Hp Hlt Hf1 Hp1.
  pose proof (read_header f p (length p) [] no_head Hf) as Hrd.
  pose proof (read_header f1 p (length p) t no_head Hf1) as Hrd1.
  rewrite take_ge in Hrd, Hrd1 by lia.
  specialize (Hrd1 Hp1 ltac:(lia)). rewrite Hrd in Hrd1; [|rewrite app_nil_r|lia].
  - destruct (Z.ltb_spec (len p) (len (hdr f))); [|lia].
    destruct (Z.ltb_spec (len p) (len (hdr f1))); [lia|]. injection Hrd1. lia.
  - etrans; [exact Hp|]. unfold wire. by eexists.
Qed.

Lemma filter_heading_spec l fd f0 p uc c fs r :
  lua_ok l → pend (lua_q l) fd = None → id (pack uc) = fd → room (length fs) l →
  frame_ok f0 → p `prefix_of` hdr f0 → (length p < length (hdr f0))%nat → heading p uc →
  framed (p ++ c) fs r → c ≠ [] →
  wp (filter_uncomplete fd uc c (len c) false) l (fun res l' _ => yields l fd fs r res l').
Proof.
  intros Hok Hn Hid Hroom Hf0 Hp Hlt [Hrd Hhs Hhl Hhb] Hfr Hc.
  destruct (framed_frame _ _ _ Hfr) as (f & t & Hf & Hpre & Hcase).
  assert (length p < length (hdr f))%nat as Hlt1.
  { eapply (short_header f0 f p t); try done. etrans; [|exact Hpre]. by eexists. }
  unfold filter_uncomplete. rewrite Hrd, Hhs.
  destruct (Z.ltb_spec (-1) 0); [|lia].
  destruct (Z.ltb_spec 0 (len c)) as [_|Hcl]; [|destruct c; [done|simpl in Hcl; lia]].
  apply wp_bind, wp_lift. rewrite Nat2Z.id.
  eapply returns_mono.
  { apply (header_loop_spec f p c t (header uc) [] Hf); done. }
  intros ((((ps & outs) & h') & hsz) & idx) [Hh' HQ]. cbn beta iota.
  destruct (decide _) as [Hshort|Hlong].
  - destruct HQ as (-> & -> & Ht' & ->). simpl (-1 =? -1). cbn iota.
    destruct Hcase as [(-> & -> & -> & Hlw)|(fs' & -> & Hs & _)].
    2: { rewrite Hs, length_app, wire_length in Hshort. lia. }
    apply wp_bind. eapply wp_mono; [by apply relink_spec|]. intros ? l' ? Hm. apply wp_ret.
    split; [done|]. eexists (Some _). split; [exact Hm|].
    apply (unfinished_header _ _ f); try done; [by destruct p|].
    rewrite app_nil_r in Hpre.
    destruct (incomplete_cases f _ Hpre Hlw) as [[Hx _]|(d' & _ & _ & Heq)]; [done|].
    apply (f_equal length) in Heq. rewrite (length_app (hdr f)) in Heq. lia.
  - destruct HQ as (-> & -> & ->). rewrite length_app in Hlong.
    destruct (Z.eqb_spec (len (payload f)) (-1)); [lia|].
    destruct (Z.eqb_spec (len (payload f)) (-3)); [lia|].
    set (k := (length (hdr f) - length p)%nat).
    replace (Z.to_nat (len [] + (len (hdr f) - len p))) with k by (unfold k; cbn [length]; lia).
    replace (len c - (len [] + (len (hdr f) - len p))) with (len (drop k c))
      by (unfold k; rewrite length_drop; cbn [length]; lia).
    apply wp_bind. eapply wp_mono; [by apply malloc_spec; lia|]. intros b l1 ? [-> ->].
    apply wp_bind, wp_lift. rewrite (rdn_done h' 0) by lia. apply returns_done.
    apply wp_bind, wp_lift. rewrite take_0, memcpy_fresh by (simpl; lia). apply returns_done.
    assert (hdr f ++ masked f 0 [] ++ drop k c = p ++ c) as Heq.
    { assert (masked f 0 [] = []) as -> by (unfold masked; by destruct (fmask f)). cbn [app].
      rewrite <- (take_drop k c) at 2. rewrite app_assoc. f_equal.
      destruct Hpre as [j Hj]. unfold wire in Hj. rewrite <- app_assoc in Hj.
      apply (f_equal (take (length (hdr f)))) in Hj. rewrite take_app_length in Hj.
      rewrite Hj, (take_app_le (p ++ c)) by (rewrite length_app; lia).
      by rewrite take_app_ge by lia. }
    apply (filter_body_spec _ _ f []); try done.
    + apply prefix_nil.
    + rewrite Nat.sub_0_r. cbn [fmap list_fmap app]. split; cbn; try done.
      * rewrite length_replicate. lia.
      * by right.
    + by rewrite Heq.
Qed.
End filter.
