(* ===== verification/NetpackStreams.v ===== *)
(** * Websocket connections, end to end

    A gate serves many connections through one queue: every message of the
    socket goes through [lfilter], a single packet is handed over at once
    ("data"), several are popped until the queue is empty ("more"). The theorems
    say what the gate sees of each connection. *)
From S2P Require Import Prelude Ring Libc Frame FrameSpec Netpack NetpackSpec NetpackFilter.
Import Frame Netpack.

(** ** The gate *)
Section gate.

(** [lpop] until it returns nothing. *)
Fixpoint drain (fuel : nat) : NM (list netpack) :=
  match fuel with
  | O => fun _ => NoFuel
  | S fuel =>
      l <- get;;
      r <- lift (lpop (slot1 l));;
      match r with
      | None => ret []
      | Some (np, q) =>
          modify (set_slot1 q);;
          rest <- drain fuel;;
          ret (np :: rest)
      end
  end.

Definition data_message (fd : Z) (c : list Z) : socket_message :=
  SockMsg SOCKET_DATA fd (len c) (Some c) [].

(** One delivery of the socket: the packets the gate gets. *)
Definition serve (e : Z * list Z) : NM (list netpack) :=
  res <- lfilter (data_message e.1 e.2) 0;;
  match res with
  | RetData fd b n => ret [Pack fd n b]
  | RetMore =>
      l <- get;;
      drain (S (Z.to_nat (count (lua_q l))))
  | _ => ret []
  end.

Fixpoint serve_all (es : list (Z * list Z)) : NM (list netpack) :=
  match es with
  | [] => ret []
  | e :: es =>
      out <- serve e;;
      rest <- serve_all es;;
      ret (out ++ rest)
  end.

(** The bytes of one connection among the deliveries, its packets among the
    packets. *)
Definition stream_of (fd : Z) (es : list (Z * list Z)) : list Z :=
  concat (snd <$> List.filter (fun e => e.1 =? fd) es).

Definition packets_of (fd : Z) (nps : list netpack) : list netpack :=
  List.filter (fun np => id np =? fd) nps.
End gate.

Section streams.
Implicit Types (l : lua) (fd : Z) (c r s p : list Z).

Lemma filter_data_spec l fd p c fs r :
  lua_ok l → pending (lua_q l) fd p → framed (p ++ c) fs r → c ≠ [] → room (length fs) l →
  wp (filter_data_ fd c (len c) false) l (fun res l' _ => yields l fd fs r res l').
Proof.
  intros Hok Hp Hfr Hc Hroom. unfold filter_data_. apply wp_bind, wp_get, wp_bind, wp_modify.
  unfold pending in Hp. destruct (pend (lua_q l) fd) as [uc|] eqn:Hpd.
  - destruct (find_moved l fd uc Hok Hpd) as (q & Hfind & Hm). rewrite Hfind.
    apply wp_bind, wp_modify. cbn [app].
    set (l1 := set_slot1 q _). specialize (Hm (Lua (slot1 l) (i32 (total_size l + len c)))).
    fold l1 in Hm. pose proof (pend_id _ _ _ Hpd) as Hid.
    assert (room (length fs) l1) as Hroom1.
    { unfold room in *. by rewrite (mv_packets _ _ _ _ _ Hm), app_nil_r. }
    apply (wp_mono _ _ (fun res l' _ => yields l1 fd fs r res l')).
    + destruct Hp as [f Hf Hne Hpre Hlt Hhd|f d Hf Hd Hlt -> Hho].
      * apply (filter_heading_spec l1 fd f p); try done; [apply Hm|apply Hm].
      * unfold filter_uncomplete. destruct Hho as [H1 H2 H3 H4 H5 H6 H7] eqn:?.
        rewrite H4. destruct (Z.ltb_spec (len d) 0); [lia|].
        apply (filter_body_spec l1 fd f d); try done; [apply Hm|apply Hm|].
        by rewrite <- app_assoc in Hfr.
    + intros res l' ? [-> (ou & Hm' & Hr)]. split; [done|]. exists ou. split; [|done].
      apply (moved_trans _ _ _ _ _ _ _ _ Hm Hm').
  - subst p. rewrite find_uncomplete_none by done. cbn [app] in Hfr |- *.
    set (l1 := Lua (slot1 l) _).
    apply (wp_mono _ _ (fun res l' _ => yields l1 fd fs r res l')).
    + by apply (filter_fresh_spec l1).
    + intros res l' ? [-> (ou & Hm & Hr)]. split; [done|]. exists ou. split; [|done].
      by apply (moved_view l l1).
Qed.

Lemma drain_spec fuel l :
  lua_ok l → (length (packets l) < fuel)%nat →
  wp (drain fuel) l (fun out l' _ =>
    out = packets l ∧ lua_ok l' ∧ packets l' = [] ∧ ∀ fd, pend (lua_q l') fd = pend (lua_q l) fd).
Proof.
  revert l. induction fuel as [|fuel IH]; intros l [Hr Hc] Hfuel; [lia|].
  cbn [drain]. apply wp_bind, wp_get, wp_bind, wp_lift.
  destruct (slot1 l) as [q|] eqn:Hq.
  - assert (lua_q l = q) as Hlq by (unfold lua_q; by rewrite Hq).
    unfold packets in *. rewrite Hlq in *. change (lpop (Some q)) with (pop q).
    destruct (items q) as [|np nps] eqn:Hi.
    + rewrite lpop_nil by done. apply returns_done, wp_ret.
      unfold lua_ok. rewrite Hlq. by split_and!.
    + eapply returns_mono; [by apply (lpop_cons q np nps)|].
      intros ? (q' & -> & [Hr' Hh] & Hi'). apply wp_bind, wp_modify, wp_bind.
      eapply wp_mono; [apply IH|].
      * split; [done|]. change (chains_ok q'). intros h. unfold chain. rewrite Hh. apply Hc.
      * change (lua_q (set_slot1 q' l)) with q'. rewrite Hi'. simpl in Hfuel. lia.
      * change (lua_q (set_slot1 q' l)) with q'.
        intros out l' ? (-> & Hok' & Hn & Hp). apply wp_ret.
        split; [by rewrite <- Hi'|]. split; [done|]. split; [done|].
        intros fd. rewrite Hp. unfold pend, chain. by rewrite Hh.
  - apply returns_done, wp_ret. unfold packets, lua_q. rewrite Hq. by split_and!.
Qed.

(** One delivery. *)
Lemma serve_spec l fd p c fs r :
  lua_ok l → packets l = [] → pending (lua_q l) fd p → framed (p ++ c) fs r → c ≠ [] →
  len fs < CAPACITY →
  wp (serve (fd, c)) l (fun out l' _ =>
    out = packs fd fs ∧ lua_ok l' ∧ packets l' = [] ∧ pending (lua_q l') fd r ∧
    ∀ fd', fd' ≠ fd → pend (lua_q l') fd' = pend (lua_q l) fd').
Proof.
  intros Hok Hnil Hp Hfr Hc Hcap. unfold serve, lfilter. cbn [fst snd data_message stype sbuffer sid ud].
  change (negb (0 =? 0)) with false. apply wp_bind. unfold filter_data. apply wp_bind.
  eapply wp_mono.
  { apply (filter_data_spec l fd p c fs r); try done. unfold room. by rewrite Hnil. }
  intros res l1 ? [-> (ou & [Hok1 Hpd1 Ho1 Hpk1] & Hr)].
  apply wp_bind, wp_emit, wp_ret. rewrite Hnil in Hpk1. cbn [app] in Hpk1.
  assert (pending (lua_q l1) fd r) as Hpend by (unfold pending; by rewrite Hpd1).
  unfold verdict in *. destruct fs as [|f fs]; cbn [fst snd] in *.
  { apply wp_ret. by split_and!. }
  destruct fs as [|f' fs]; [destruct r as [|b r]|]; cbn [fst snd] in *.
  { apply wp_ret. by split_and!. }
  all: apply wp_bind, wp_get; eapply wp_mono;
    [apply drain_spec; [done|]; unfold count, packets in *;
     rewrite <- (ring_list_length (slots (lua_q l1))) by apply Hok1;
     change (ring_list _ _ _ _) with (items (lua_q l1)); lia|];
    intros out l2 ? (-> & Hok2 & Hn2 & Hp2); rewrite Hpk1; split_and!; try done;
    [unfold pending; by rewrite Hp2|intros fd' Hne; rewrite Hp2; by apply Ho1].
Qed.

(** A piece of a stream of frames is a stream of frames. *)
Lemma framed_prefix s t fs r :
  framed (s ++ t) fs r →
  ∃ fs1 fs2 r1, fs = fs1 ++ fs2 ∧ framed s fs1 r1 ∧ framed (r1 ++ t) fs2 r.
Proof.
  revert s. induction fs as [|f fs IH]; intros s (Heq & Hfs & Hinc).
  - cbn [fmap list_fmap concat app] in Heq. destruct Hinc as (g & Hg & Hp & Hlt).
    exists [], [], s. split; [done|]. assert (incomplete s).
    { exists g. subst r. rewrite length_app in Hlt. split; [done|]. split; [|lia].
      etrans; [|exact Hp]. by eexists. }
    split; [by split_and!|]. split; [done|]. split; [done|]. by exists g.
  - rewrite fmap_cons in Heq. cbn [concat] in Heq. rewrite <- app_assoc in Heq.
    apply Forall_cons in Hfs as [Hf Hfs].
    destruct (decide (length s < length (wire f))%nat) as [Hlt|Hge].
    + exists [], (f :: fs), s. split; [done|].
      assert (s `prefix_of` wire f) as Hp.
      { exists (drop (length s) (wire f)). rewrite <- (take_drop (length s) (wire f)) at 1. f_equal.
        rewrite <- (take_app_le (wire f) (concat (wire <$> fs) ++ r)), <- Heq by lia.
        apply take_app_length. }
      split; [split_and!; [done|done|by exists f]|].
      split; [rewrite fmap_cons; cbn [concat]; by rewrite <- app_assoc|].
      split; [by apply Forall_cons|done].
    + assert (∃ s', s = wire f ++ s') as [s' ->].
      { exists (drop (length (wire f)) s). rewrite <- (take_drop (length (wire f)) s) at 1. f_equal.
        rewrite <- (take_app_le s t), Heq by lia. apply take_app_length. }
      rewrite <- app_assoc in Heq. apply app_inv_head in Heq.
      destruct (IH s' (conj Heq (conj Hfs Hinc))) as (fs1 & fs2 & r1 & -> & (Hs1 & Hf1 & Hi1) & H2).
      exists (f :: fs1), fs2, r1. split; [done|]. split; [|done]. split.
      * rewrite fmap_cons. cbn [concat]. rewrite Hs1. by rewrite <- app_assoc.
      * split; [by apply Forall_cons|done].
Qed.

Lemma packets_of_packs fd fd' fs : packets_of fd (packs fd' fs) = if fd' =? fd then packs fd fs else [].
Proof.
  unfold packets_of, packs. destruct (Z.eqb_spec fd' fd) as [<-|Hne].
  - induction fs as [|f fs IH]; [done|]. rewrite fmap_cons. cbn [List.filter packet id].
    by rewrite Z.eqb_refl, IH.
  - induction fs as [|f fs IH]; [done|]. rewrite fmap_cons. cbn [List.filter packet id].
    destruct (Z.eqb_spec fd' fd); [done|]. exact IH.
Qed.

Lemma incomplete_framed s fs r : incomplete s → framed s fs r → fs = [] ∧ r = s.
Proof.
  intros (g & Hg & Hp & Hlt) (Heq & Hfs & _). destruct fs as [|f fs]; [done|]. exfalso.
  apply Forall_cons in Hfs as [Hf Hfs]. rewrite fmap_cons in Heq. cbn [concat] in Heq.
  rewrite <- app_assoc in Heq. set (t := concat (wire <$> fs) ++ r) in *.
  destruct (same_head f g s t) as (Hh & Hl & _); try done.
  - rewrite Heq. unfold wire. rewrite <- app_assoc. by eexists.
  - by rewrite Heq.
  - etrans; [exact Hp|]. by eexists.
  - rewrite wire_length, Hh, Hl, <- wire_length, Heq, length_app in Hlt. lia.
Qed.

Lemma unfinished_incomplete r uc : unfinished r uc → incomplete r.
Proof.
  intros [f Hf _ Hp Hlt _|f d Hf Hd Hlt -> _]; exists f; split; try done; rewrite wire_length.
  - split; [|lia]. etrans; [exact Hp|]. unfold wire. by eexists.
  - split; [by apply prefix_wire|]. rewrite length_app, length_masked. lia.
Qed.

Lemma pending_incomplete q fd p : pending q fd p → incomplete p.
Proof.
  unfold pending. destruct (pend q fd); [apply unfinished_incomplete|]. intros ->. apply incomplete_nil.
Qed.

Lemma conn_stream_cons fd e es :
  stream_of fd (e :: es) = (if e.1 =? fd then e.2 else []) ++ stream_of fd es.
Proof. unfold stream_of. cbn [List.filter]. by destruct (e.1 =? fd). Qed.

Lemma packets_of_app fd a b : packets_of fd (a ++ b) = packets_of fd a ++ packets_of fd b.
Proof. apply List.filter_app. Qed.

(** The deliveries, one after the other, for all connections at once. *)
Lemma serve_all_spec es l (p r : Z → list Z) (fs : Z → list frame) :
  lua_ok l → packets l = [] → (∀ fd, pending (lua_q l) fd (p fd)) →
  (∀ fd, framed (p fd ++ stream_of fd es) (fs fd) (r fd)) →
  (∀ fd, len (fs fd) < CAPACITY) → Forall (fun e => e.2 ≠ []) es →
  wp (serve_all es) l (fun out l' _ =>
    (∀ fd, packets_of fd out = packs fd (fs fd)) ∧
    (∀ fd, pending (lua_q l') fd (r fd)) ∧ lua_ok l' ∧ packets l' = []).
Proof.
  revert l p fs. induction es as [|[fd c] es IH]; intros l p fs Hok Hn Hp Hfr Hcap Hne.
  - apply wp_ret.
    assert (∀ fd, fs fd = [] ∧ r fd = p fd) as Hend.
    { intros fd. specialize (Hfr fd). change (stream_of fd []) with ([] : list Z) in Hfr.
      rewrite app_nil_r in Hfr. eapply incomplete_framed; [|exact Hfr].
      by eapply pending_incomplete. }
    split; [intros fd; by destruct (Hend fd) as [-> _]|].
    split; [|done]. intros fd. destruct (Hend fd) as [_ ->]. apply Hp.
  - apply Forall_cons in Hne as [Hc Hne]. pose proof (Hfr fd) as Hf.
    rewrite conn_stream_cons, app_assoc in Hf. cbn [fst snd] in Hf. rewrite Z.eqb_refl in Hf.
    destruct (framed_prefix _ _ _ _ Hf) as (fs1 & fs2 & r1 & Hfs & H1 & H2).
    pose proof (Hcap fd) as Hcapf. rewrite Hfs, length_app in Hcapf.
    cbn [serve_all]. apply wp_bind. eapply wp_mono.
    { apply (serve_spec l fd (p fd) c fs1 r1); try done. lia. }
    intros out l1 ? (-> & Hok1 & Hn1 & Hp1 & Ho1). apply wp_bind. eapply wp_mono.
    { apply (IH l1 (fun x => if decide (x = fd) then r1 else p x)
        (fun x => if decide (x = fd) then fs2 else fs x)); try done.
      - intros x. destruct (decide (x = fd)) as [->|Hx]; [done|].
        unfold pending. rewrite Ho1 by done. apply Hp.
      - intros x. destruct (decide (x = fd)) as [->|Hx]; [done|].
        specialize (Hfr x). rewrite conn_stream_cons in Hfr. cbn [fst snd] in Hfr.
        destruct (Z.eqb_spec fd x); [congruence|]. exact Hfr.
      - intros x. destruct (decide (x = fd)) as [->|Hx]; [lia|apply Hcap]. }
    intros rest l2 ? (Hrest & Hpend & Hok2 & Hn2). apply wp_ret. split; [|done].
    intros x. rewrite packets_of_app, Hrest, packets_of_packs.
    destruct (Z.eqb_spec fd x) as [<-|Hx].
    + rewrite decide_True by done. rewrite Hfs. symmetry. apply fmap_app.
    + by rewrite decide_False by done.
Qed.
End streams.

(** ** Frames without a mask, as both ends of the program write them *)
Section server_frames.

Definition data_frame (opcode : Z) (msg : list Z) : frame :=
  FrameSpec.Frame opcode None
    (if len msg <? 126 then Short else if len msg <? 65536 then Ext16 else Ext64) msg.

Lemma set_length_div n k : FRAME_SET_LENGTH n (Z.of_nat k) = n / 256 ^ Z.of_nat k mod 256.
Proof.
  unfold FRAME_SET_LENGTH. rewrite land_255, Z.shiftr_div_pow2 by lia.
  replace (Z.of_nat k * 8) with (8 * Z.of_nat k) by lia. by rewrite Z.pow_mul_r by lia.
Qed.

Lemma set_length_bytes n k : 
  be_bytes k n = (fun i => FRAME_SET_LENGTH n (Z.of_nat i)) <$> reverse (seq 0 k).
Proof.
  revert n. induction k as [|k IH]; intros n; [done|].
  cbn [be_bytes]. rewrite IH. cbn [seq]. rewrite reverse_cons, fmap_app. f_equal.
  - rewrite <- fmap_S_seq, <- fmap_reverse, <- list_fmap_compose. apply list_fmap_ext.
    intros _ i _. cbn [compose]. rewrite !set_length_div, Nat2Z.inj_succ, Z.pow_succ_r by lia.
    by rewrite Z.div_div by lia.
  - cbn. f_equal. rewrite (set_length_div n 0). change (256 ^ Z.of_nat 0) with 1. by rewrite Z.div_1_r.
Qed.

Lemma header_wire o msg :
  1 ≤ o ≤ 15 → frame_header o (len msg) ++ msg = wire (data_frame o msg).
Proof.
  intros Ho. unfold frame_header, wire, hdr, data_frame, maskbit, maskbytes, len7, ext, masked.
  cbn [opcode fmask fform payload default from_option]. rewrite app_nil_r.
  assert (u8 (Z.lor (FRAME_SET_FIN 1) (FRAME_SET_OPCODE o)) = 128 + o) as ->.
  { assert (o ∈ seqZ 1 15) as Hin by (apply elem_of_seqZ; lia).
    assert (Forall (fun o => u8 (Z.lor (FRAME_SET_FIN 1) (FRAME_SET_OPCODE o)) = 128 + o) (seqZ 1 15)) as Hall
      by (apply (bool_decide_unpack _); by vm_compute).
    rewrite Forall_forall in Hall. by apply Hall. }
  cbn [app]. f_equal. destruct (Z.ltb_spec (len msg) 126); [|destruct (Z.ltb_spec (len msg) 65536)].
  - cbn [app]. f_equal. rewrite (set_length_div _ 0). change (256 ^ Z.of_nat 0) with 1.
    rewrite Z.div_1_r, Z.mod_small by lia. change (FRAME_SET_MASK 0) with 0.
    rewrite Z.lor_0_l. apply wrap_small. change (2 ^ 8) with 256. lia.
  - by rewrite set_length_bytes.
  - rewrite set_length_bytes. done.
Qed.

Lemma data_frame_ok o msg :
  1 ≤ o ≤ 15 ∧ o ≠ 8 → bytes_ok msg → len msg ≤ MAX_PACKSIZE → frame_ok (data_frame o msg).
Proof.
  intros Ho Hm Hl. split; cbn [opcode fmask fform payload data_frame]; try done.
  destruct (Z.ltb_spec (len msg) 126); [done|]. by destruct (Z.ltb_spec (len msg) 65536).
Qed.
End server_frames.

(** Frames of one connection, however they are cut. *)
Lemma frames_served n fd (fs : list frame) (chunks : list (list Z)) :
  Forall frame_ok fs → len fs < CAPACITY →
  Forall (fun c => c ≠ []) chunks → concat chunks = concat (wire <$> fs) →
  wp (serve_all (pair fd <$> chunks)) (Lua None n) (fun out l' _ =>
    packets_of fd out = packs fd fs ∧ pend (lua_q l') fd = None).
Proof.
  intros Hm Hcap Hne Hcat.
  assert (∀ fd', stream_of fd' (pair fd <$> chunks) = if fd =? fd' then concat chunks else []) as Hst.
  { intros fd'. unfold stream_of. clear. induction chunks as [|c cs IH]; [by destruct (fd =? fd')|].
    cbn [fmap list_fmap List.filter fst]. destruct (fd =? fd') eqn:Hx; [|exact IH].
    cbn [fmap list_fmap concat snd]. by rewrite <- IH. }
  eapply wp_mono.
  { apply (serve_all_spec (pair fd <$> chunks) (Lua None n) (fun _ => []) (fun _ => [])
      (fun fd' => if fd =? fd' then fs else [])); try done.
    - apply lua_ok_init.
    - intros fd'. cbn [app]. rewrite Hst. destruct (fd =? fd').
      + split; [by rewrite Hcat, app_nil_r|]. split; [done|apply incomplete_nil].
      + split; [done|]. split; [done|apply incomplete_nil].
    - intros fd'. by destruct (fd =? fd').
    - apply Forall_fmap. by eapply Forall_impl. }
  intros out l' ? (Hout & Hp & _ & _). rewrite Hout, Z.eqb_refl.
  split; [done|]. by apply pending_nil, Hp.
Qed.

(** ** The properties *)

(** C3: a gate that serves any number of websocket connections through one queue,
    whatever the interleaving of the connections and the boundaries of the chunks,
    gets for each connection exactly the unmasked payloads of its complete frames,
    in order; the bytes of the unfinished frame stay pending. The frames are whole
    messages as the gate takes them ([frame_ok]): FIN set, an opcode other than 0
    (continuation) and 8 (close), and a payload of at most [MAX_PACKSIZE] bytes; fewer
    than [CAPACITY] of them wait on a connection. A longer payload is cut short and its
    rest read as headers; of a fragment only the first two bytes are skipped, so that
    the stream is out of step behind it; a close frame ends the connection. *)
Theorem websocket_streams n es (fs : Z → list frame) (r : Z → list Z) :
  (∀ fd, framed (stream_of fd es) (fs fd) (r fd)) →
  (∀ fd, len (fs fd) < CAPACITY) → Forall (fun e => e.2 ≠ []) es →
  wp (serve_all es) (Lua None n) (fun out l' _ =>
    (∀ fd, packets_of fd out = packs fd (fs fd)) ∧
    (∀ fd, pending (lua_q l') fd (r fd)) ∧ lua_ok l' ∧ packets l' = []).
Proof.
  intros Hfr Hcap Hne. apply (serve_all_spec es (Lua None n) (fun _ => [])); try done.
  apply lua_ok_init.
Qed.

Definition demo_frame : frame := FrameSpec.Frame 1 (Some [1; 2; 3; 4]) Short [65; 66].
Definition demo_chunks : list (Z * list Z) :=
  [(5, [129; 130; 1]); (9, [130; 1]); (5, [2; 3; 4; 64]); (9, [7; 130]); (5, [64])].
Definition demo_frames (fd : Z) : list frame :=
  if fd =? 5 then [demo_frame] else if fd =? 9 then [data_frame 2 [7]] else [].
Definition demo_rest (fd : Z) : list Z := if fd =? 9 then [130] else [].

Lemma websocket_streams_witness :
  wp (serve_all demo_chunks) (Lua None 0) (fun out l' _ =>
    (∀ fd, packets_of fd out = packs fd (demo_frames fd)) ∧
    (∀ fd, pending (lua_q l') fd (demo_rest fd)) ∧ lua_ok l' ∧ packets l' = []).
Proof.
  apply (websocket_streams 0 demo_chunks demo_frames demo_rest).
  - intros fd. unfold demo_frames, demo_rest, demo_chunks, stream_of. cbn [List.filter fst].
    rewrite (Z.eqb_sym 5), (Z.eqb_sym 9).
    assert (frame_ok demo_frame) as Hd by (split; cbn; [lia|split; [bytes|done]|lia|unfold MAX_PACKSIZE; lia|bytes]).
    destruct (Z.eqb_spec fd 5) as [->|]; [|destruct (Z.eqb_spec fd 9) as [->|]].
    + split; [reflexivity|]. split; [by constructor|apply incomplete_nil].
    + split; [reflexivity|]. split; [constructor; [apply data_frame_ok; [done|bytes|done]|done]|].
      exists (data_frame 2 [7]).
      split; [apply data_frame_ok; [done|bytes|done]|].
      split; [by exists [1; 7]|]. change (1 < 3)%nat. lia.
    + split; [reflexivity|]. split; [done|apply incomplete_nil].
  - intros fd. unfold demo_frames, CAPACITY, INT_MAX, QUEUESIZE. repeat case_match; simpl; lia.
  - repeat constructor; discriminate.
Defined.

(** C18: messages of at most [MAX_PACKSIZE], 10240, bytes packed by [lpack] and cut into
    arbitrary chunks come out of the filter as the same messages. [lpack] does not
    refuse a longer one, which the filter cuts short. *)
Theorem pack_roundtrip n fd (msgs chunks : list (list Z)) :
  Forall (fun m => bytes_ok m ∧ len m ≤ MAX_PACKSIZE) msgs → len msgs < CAPACITY →
  Forall (fun c => c ≠ []) chunks → concat chunks = concat (lpack <$> msgs) →
  wp (serve_all (pair fd <$> chunks)) (Lua None n) (fun out l' _ =>
    packets_of fd out = packet fd <$> msgs ∧ pend (lua_q l') fd = None).
Proof.
  intros Hm Hcap Hne Hcat. eapply wp_mono.
  { apply (frames_served n fd (data_frame 2 <$> msgs) chunks); try done.
    - apply Forall_fmap. eapply Forall_impl; [exact Hm|]. intros m []. by apply data_frame_ok.
    - by rewrite length_fmap.
    - rewrite Hcat, <- list_fmap_compose. f_equal. apply list_fmap_ext.
      intros _ m _. by apply header_wire. }
  intros out l' ? [-> ?]. split; [|done]. unfold packs. rewrite <- list_fmap_compose.
  by apply list_fmap_ext.
Qed.

Definition demo_stream : list (list Z) :=
  let s := lpack [1; 2; 3] ++ lpack [] ++ lpack (replicate 200 7) in
  [take 1 s; take 6 (drop 1 s); drop 7 s].

Lemma pack_roundtrip_witness :
  wp (serve_all (pair 5 <$> demo_stream)) (Lua None 0) (fun out l' _ =>
    packets_of 5 out = packet 5 <$> [[1; 2; 3]; []; replicate 200 7] ∧ pend (lua_q l') 5 = None).
Proof.
  apply (pack_roundtrip 0 5 [[1; 2; 3]; []; replicate 200 7] demo_stream).
  - apply (bool_decide_unpack _). vm_compute. exact I.
  - vm_compute. reflexivity.
  - apply (bool_decide_unpack _). vm_compute. exact I.
  - vm_compute. reflexivity.
Defined.
