(* ===== verification/NetpackHandshake.v ===== *)
(** * The websocket handshake in lua-websocketnetpack.c

    While a connection is in its handshake the filter collects the HTTP request
    up to its blank line, in a header of [HEADERSIZE] bytes. *)
From S2P Require Import Prelude Ring Libc Frame FrameSpec Netpack NetpackSpec NetpackFilter NetpackStreams.
Import Frame Netpack.

(** ** The search for the blank line *)
Section search.
Implicit Types (b h c p : list Z).

Definition blank_line : list Z := [13; 10; 13; 10].

Definition match_at h (i : nat) : Prop := take 4 (drop i h) = blank_line.

(** No blank line in [h]. *)
Definition no_end h : Prop := ∀ i, ¬ match_at h i.

(** [h] is an HTTP header up to and with its first blank line. *)
Definition http_header h : Prop :=
  (4 ≤ length h)%nat ∧ match_at h (length h - 4) ∧ ∀ i, (i < length h - 4)%nat → ¬ match_at h i.

Lemma match_at_length h i : match_at h i → (i + 4 ≤ length h)%nat.
Proof.
  unfold match_at. intros Hm. apply (f_equal length) in Hm.
  rewrite length_take, length_drop in Hm.
  change (length blank_line) with 4%nat in Hm. lia.
Qed.

Lemma match_at_app h t i : (i + 4 ≤ length h)%nat → match_at (h ++ t) i ↔ match_at h i.
Proof.
  intros Hi. unfold match_at. rewrite drop_app_le by lia.
  rewrite take_app_le by (rewrite length_drop; lia). done.
Qed.

Lemma memcmp_zero n a b : (n ≤ length a)%nat → (n ≤ length b)%nat →
  memcmp n a b = 0 ↔ take n a = take n b.
Proof.
  revert a b. induction n as [|n IH]; intros a b Ha Hb; [by rewrite !take_0|].
  destruct a as [|x a], b as [|y b]; simpl in *; try lia.
  destruct (Z.eqb_spec x y) as [->|Hne].
  - rewrite IH by lia. split; [by intros ->|by intros [= ->]].
  - split; [lia|congruence].
Qed.

(** One position of the loop. *)
Lemma strnpos_step b i :
  (i + 4 ≤ length b)%nat →
  ∃ e, (let! x0 := rd (drop i b) 0 in let! n0 := rd blank_line 0 in
        if x0 =? n0 then let! h := rdn (drop i b) (len blank_line) in
          Done (memcmp (length blank_line) h blank_line =? 0) else Done false)
       = Done e :> out bool ∧ (e = true ↔ match_at b i).
Proof.
  intros Hi. destruct (lookup_lt_is_Some_2 b i ltac:(lia)) as [x Hx].
  rewrite (rd_done _ _ x) by (rewrite (zget_of_nat _ 0), lookup_drop, Nat.add_0_r; done).
  cbn [obind]. change (rd blank_line 0) with (@Done Empty_set Z 13). cbn [obind].
  destruct (Z.eqb_spec x 13) as [->|Hne].
  - rewrite (rdn_done (drop i b) 4) by (rewrite length_drop; lia). cbn [obind].
    eexists. split; [done|]. rewrite Z.eqb_eq, memcmp_zero; [|rewrite length_take, length_drop; change (length blank_line) with 4%nat; lia|done].
    change (length blank_line) with 4%nat. rewrite take_take. done.
  - eexists. split; [done|]. split; [done|]. unfold match_at.
    rewrite (drop_S _ x) by done. intros [= ->]. done.
Qed.

Lemma strnpos_loop_spec b k i :
  (i + k + 3 ≤ length b)%nat →
  (∃ j, (i ≤ j < i + k)%nat ∧ match_at b j ∧ (∀ j', (i ≤ j' < j)%nat → ¬ match_at b j') ∧
     strnpos_loop k (Z.of_nat i) (drop i b) blank_line = Done (Z.of_nat j)) ∨
  ((∀ j, (i ≤ j < i + k)%nat → ¬ match_at b j) ∧
     strnpos_loop k (Z.of_nat i) (drop i b) blank_line = Done (-1)).
Proof.
  revert i. induction k as [|k IH]; intros i Hk; [by right; split; [lia|]|].
  destruct (strnpos_step b i ltac:(lia)) as (e & Heq & He). cbn [strnpos_loop].
  replace (strnpos_loop k (Z.of_nat i + 1) (drop 1 (drop i b)) blank_line)
    with (strnpos_loop k (Z.of_nat (S i)) (drop (S i) b) blank_line).
  2: { rewrite drop_drop. do 2 f_equal; lia. }
  assert (∀ X (kk : bool → out X), 
    (let! x0 := rd (drop i b) 0 in let! n0 := rd blank_line 0 in
     let! equal := (if x0 =? n0 then let! h := rdn (drop i b) (len blank_line) in
          Done (memcmp (length blank_line) h blank_line =? 0) else Done false) in kk equal) = kk e) as Hstep.
  { intros X kk. destruct (rd (drop i b) 0) as [x0| | |]; cbn [obind] in *; try done.
    destruct (rd blank_line 0) as [n0| | |]; cbn [obind] in *; try done. by rewrite Heq. }
  rewrite Hstep. destruct e.
  - left. exists i. split; [lia|]. split; [by apply He|]. split; [lia|done].
  - assert (¬ match_at b i) as Hno by (intros Hm; by apply He in Hm).
    destruct (IH (S i) ltac:(lia)) as [(j & Hj & Hm & Hb & Hr)|[Hb Hr]].
    + left. exists j. split; [lia|]. split; [done|]. split; [|done].
      intros j' Hj'. destruct (decide (j' = i)) as [->|]; [done|]. apply Hb. lia.
    + right. split; [|done]. intros j Hj. destruct (decide (j = i)) as [->|]; [done|]. apply Hb. lia.
Qed.

(** [get_http_header] finds the first blank line of the [n] first bytes. *)
Lemma get_http_header_spec b n :
  (n ≤ length b)%nat → Z.of_nat n < 2 ^ 31 →
  (∃ j, match_at (take n b) j ∧ (∀ j', (j' < j)%nat → ¬ match_at (take n b) j') ∧
     get_http_header b (Z.of_nat n) = Done (Z.of_nat j + 4)) ∨
  (no_end (take n b) ∧ get_http_header b (Z.of_nat n) = Done (-1)).
Proof.
  intros Hn Hmax. unfold get_http_header, websocket_strnpos.
  change (2 ^ 31) with 2147483648 in Hmax.
  rewrite (wrap_small 32) by (change (2 ^ 32) with 4294967296; lia).
  cbn [guard_or Z.ltb obind]. change (0 <? 4) with true. cbn [guard_or obind].
  assert (∀ j, (j + 4 ≤ n)%nat → match_at (take n b) j ↔ match_at b j) as Hta.
  { intros j Hj. rewrite <- (take_drop n b) at 2. rewrite match_at_app; [done|]. rewrite length_take. lia. }
  destruct (Z.ltb_spec (Z.of_nat n) 4) as [Hs|Hl].
  - right. split; [|done]. intros i Hm%match_at_length. rewrite length_take in Hm. lia.
  - rewrite (wrap_small 32 (Z.of_nat n - 4 + 1)) by (change (2 ^ 32) with 4294967296; lia).
    rewrite (swrap_small 32) by (change (2 ^ (32 - 1)) with 2147483648; lia).
    rewrite (wrap_small 32) by (change (2 ^ 32) with 4294967296; lia).
    replace (Z.to_nat (Z.of_nat n - 4 + 1)) with (n - 3)%nat by lia.
    destruct (strnpos_loop_spec b (n - 3) 0 ltac:(lia)) as [(j & Hj & Hm & Hb & Hr)|[Hb Hr]];
      rewrite drop_0 in Hr; change (Z.of_nat 0) with 0 in Hr; fold blank_line; rewrite Hr; cbn [obind].
    + left. exists j. split; [by apply Hta; [lia|]|]. split.
      * intros j' Hj'. rewrite Hta by lia. apply Hb. lia.
      * destruct (Z.ltb_spec (Z.of_nat j) 0); [lia|done].
    + right. split; [|done]. intros i Hm. pose proof (match_at_length _ _ Hm) as Hi.
      rewrite length_take in Hi. rewrite Hta in Hm by lia. apply (Hb i); [lia|done].
Qed.

Lemma get_http_header_none b n :
  (n ≤ length b)%nat → Z.of_nat n < 2 ^ 31 → no_end (take n b) →
  get_http_header b (Z.of_nat n) = Done (-1).
Proof.
  intros Hn Hmax Hno. destruct (get_http_header_spec b n Hn Hmax) as [(j & Hm & _)|[_ ->]]; [|done].
  by destruct (Hno j).
Qed.

Lemma get_http_header_end b n :
  (n ≤ length b)%nat → Z.of_nat n < 2 ^ 31 → http_header (take n b) →
  get_http_header b (Z.of_nat n) = Done (Z.of_nat n).
Proof.
  intros Hn Hmax (H4 & Hm & Hb). rewrite length_take in *.
  destruct (get_http_header_spec b n Hn Hmax) as [(j & Hmj & Hbj & ->)|[Hno _]]; [|by destruct (Hno (n `min` length b - 4)%nat)].
  do 2 f_equal. pose proof (match_at_length _ _ Hmj) as Hj. rewrite length_take in Hj.
  destruct (Nat.lt_trichotomy j (n `min` length b - 4)) as [Hlt|[Heq|Hgt]]; [by destruct (Hb j)|lia|].
  by destruct (Hbj _ Hgt).
Qed.

(** Proper prefixes of an HTTP header have no blank line. *)
Lemma http_header_prefix p c : http_header (p ++ c) → c ≠ [] → no_end p.
Proof.
  intros (H4 & Hm & Hb) Hc i Hi. pose proof (match_at_length _ _ Hi).
  assert (0 < length c)%nat by (destruct c; [done|simpl; lia]).
  apply (Hb i); [rewrite length_app; lia|]. by apply match_at_app.
Qed.
End search.

(** ** The filter during the handshake *)
Section handshake.
Implicit Types (l : lua) (fd : Z) (c p h : list Z) (uc : uncomplete).

Lemma shake_byte p b h :
  length h = 1024%nat → take (length p) h = p → (length p < 1024)%nat →
  (no_end (p ++ [b]) ∨ http_header (p ++ [b])) →
  ∃ n, header_byte h (len p) b true no_head =
    Done (n, no_head, zset h (len p) b, len (p ++ [b])) ∧
    (no_end (p ++ [b]) → n = -1) ∧ (http_header (p ++ [b]) → n = len (p ++ [b])).
Proof.
  intros Hh Ht Hlt Hcase. unfold header_byte. rewrite wr_done by lia. cbn [obind].
  assert (take (length (p ++ [b])) (zset h (len p) b) = p ++ [b]) as Ht' by (apply take_zset; [done|lia]).
  assert (length (p ++ [b]) = length p + 1)%nat as Hl by (rewrite length_app; done).
  replace (len p + 1) with (len (p ++ [b])) by lia.
  unfold HEADERSIZE. destruct (Z.ltb_spec 1024 (len (p ++ [b]))); [lia|].
  assert (no_end (p ++ [b]) → http_header (p ++ [b]) → False) as Hex.
  { intros Hno (_ & Hm & _). by apply Hno in Hm. }
  change (2 ^ 31) with 2147483648 in *.
  destruct Hcase as [Hno|He].
  - exists (-1). rewrite get_http_header_none; [cbn [obind]|rewrite length_zset; lia|change (2 ^ 31) with 2147483648; lia|by rewrite Ht'].
    split; [done|]. split; [done|]. intros He. by destruct (Hex Hno He).
  - exists (len (p ++ [b])). rewrite get_http_header_end; [cbn [obind]|rewrite length_zset; lia|change (2 ^ 31) with 2147483648; lia|by rewrite Ht'].
    split; [done|]. split; [|done]. intros Hno. by destruct (Hex Hno He).
Qed.

(** Every proper prefix of the request is blank-line free. *)
Lemma shake_prefix p b c : no_end (p ++ b :: c) ∨ http_header (p ++ b :: c) → 
  (c = [] ∧ (no_end (p ++ [b]) ∨ http_header (p ++ [b]))) ∨ (c ≠ [] ∧ no_end (p ++ [b])).
Proof.
  intros Hcase. destruct (decide (c = [])) as [->|Hc]; [by left|right]. split; [done|].
  replace (p ++ b :: c) with ((p ++ [b]) ++ c) in Hcase by (by rewrite <- app_assoc).
  destruct Hcase as [Hno|He]; [|by eapply http_header_prefix].
  intros i Hi. apply (Hno i). apply match_at_app; [by apply match_at_length|done].
Qed.

Lemma shake_loop p c h (pre : list Z) :
  length h = 1024%nat → take (length p) h = p → (length (p ++ c) ≤ 1024)%nat → c ≠ [] →
  (no_end (p ++ c) ∨ http_header (p ++ c)) →
  returns (header_loop (length c) (len pre) (pre ++ c) h (len p) (len (pre ++ c)) true no_head)
    (fun '(n, outs, h', hsz, idx) =>
       (no_end (p ++ c) → n = -1) ∧ (http_header (p ++ c) → n = len (p ++ c)) ∧
       outs = no_head ∧ length h' = 1024%nat ∧
       hsz = len (p ++ c) ∧ take (length (p ++ c)) h' = p ++ c ∧ idx = len (pre ++ c)).
Proof.
  revert p h pre. induction c as [|b c IH]; intros p h pre Hh Ht Hmax Hc Hcase; [done|].
  cbn [length header_loop].
  rewrite (rd_done _ _ b) by (rewrite zget_of_nat, lookup_app_r, Nat.sub_diag by lia; done).
  cbn [obind]. rewrite length_app in Hmax. cbn [length] in Hmax.
  assert (len (pre ++ b :: c) = len pre + 1 + len c) as Hlc by (rewrite length_app; simpl; lia).
  destruct (shake_prefix p b c Hcase) as [[-> Hcase']|[Hcne Hno]].
  - destruct (shake_byte p b h) as (n & -> & H1 & H2); [done|done|lia|done|]. cbn [obind].
    destruct (Z.leb_spec (len (pre ++ [b])) (len pre + 1)); [|simpl in Hlc; lia].
    rewrite orb_true_r. apply returns_done. split_and!; try done.
    + by rewrite length_zset.
    + apply take_zset; [done|lia].
    + simpl in Hlc. lia.
  - destruct (shake_byte p b h) as (n & -> & H1 & H2); [done|done|lia|by left|]. cbn [obind].
    rewrite (H1 Hno). change (0 <=? -1) with false. cbn [orb]. rewrite Hlc.
    destruct (Z.leb_spec (len pre + 1 + len c) (len pre + 1)) as [Hz|_].
    { destruct c; [done|simpl in Hz; lia]. }
    specialize (IH (p ++ [b]) (zset h (len p) b) (pre ++ [b])).
    rewrite <- !app_assoc in IH. cbn [app] in IH. rewrite Hlc in IH.
    replace (len (pre ++ [b])) with (len pre + 1) in IH by (rewrite length_app; simpl; lia).
    rewrite <- Hlc in IH |- *. apply IH; try done.
    + by rewrite length_zset.
    + apply take_zset; [done|lia].
    + rewrite length_app. simpl. lia.
Qed.

(** The bytes of the request that are kept for [fd]. *)
Definition shaking (q : queue) fd p : Prop :=
  match pend q fd with None => p = [] | Some uc => heading p uc end.

Lemma store_shake c fd l : (length c ≤ 1024)%nat →
  wp (store_header c (len c) true (fresh_uncomplete fd)) l (fun uc l' _ =>
    l' = l ∧ id (pack uc) = fd ∧ heading c uc).
Proof.
  intros Hc. unfold store_header. unfold HEADERSIZE.
  destruct (Z.ltb_spec 1024 (len c)); [lia|]. cbn [andb].
  apply wp_bind, wp_lift. rewrite (rdn_done c (length c)), take_ge by lia. apply returns_done.
  apply wp_bind, wp_lift. eapply returns_mono; [apply heading_splice; done|].
  intros h [Hlh Hth]. by apply wp_ret.
Qed.

Definition shake_post l fd p c (res : result) l' : Prop :=
  lua_ok l' ∧ packets l' = packets l ∧ (∀ fd', fd' ≠ fd → pend (lua_q l') fd' = pend (lua_q l) fd') ∧
  (no_end (p ++ c) → res = RetQueue ∧ shaking (lua_q l') fd (p ++ c)) ∧
  (http_header (p ++ c) → res = RetData fd (Some <$> p ++ c) (len (p ++ c)) ∧ pend (lua_q l') fd = None).

Lemma moved_shake l fd ou l' (res : result) p c :
  moved l fd ou [] l' →
  (no_end (p ++ c) → res = RetQueue ∧ ∃ uc, ou = Some uc ∧ heading (p ++ c) uc) →
  (http_header (p ++ c) → res = RetData fd (Some <$> p ++ c) (len (p ++ c)) ∧ ou = None) →
  shake_post l fd p c res l'.
Proof.
  intros [Hok Hp Ho Hpk] Hno He. rewrite app_nil_r in Hpk. split_and!; try done.
  - intros (? & uc & -> & Hh)%Hno. split; [done|]. unfold shaking. by rewrite Hp.
  - intros [? ->]%He. done.
Qed.

Lemma shake_fresh l fd c :
  lua_ok l → pend (lua_q l) fd = None → (length c ≤ 1024)%nat →
  (no_end c ∨ http_header c) →
  wp (filter_fresh fd c (len c) true) l (fun res l' _ => shake_post l fd [] c res l').
Proof.
  intros Hok Hn Hlen Hcase. unfold filter_fresh, next_frame.
  assert (no_end c → http_header c → False) as Hex by (intros Hno (_ & Hm & _); by apply Hno in Hm).
  assert (take (length c) c = c) as Htk by (apply take_ge; lia).
  apply wp_bind, wp_lift. destruct Hcase as [Hno|He].
  - rewrite get_http_header_none; [|lia|change (2 ^ 31) with 2147483648; lia|by rewrite Htk].
    cbn [obind]. apply returns_done. cbn beta iota. simpl (-1 =? -1). cbn iota. apply wp_bind.
    eapply wp_mono.
    { apply (save_uncomplete_spec l fd _ (heading c)); [done..|]. intros l1. by apply store_shake. }
    intros ? l' ? (uc & Hm & Hh). apply wp_ret. eapply moved_shake; [exact Hm| |].
    + intros _. by eauto.
    + intros He. by destruct (Hex Hno He).
  - rewrite get_http_header_end; [|lia|change (2 ^ 31) with 2147483648; lia|by rewrite Htk].
    pose proof He as [H4 _]. cbn [obind]. apply returns_done. cbn beta iota.
    destruct (Z.eqb_spec (len c) (-1)); [lia|]. destruct (Z.eqb_spec (len c) (-3)); [lia|].
    cbn [no_head pack_head_length mask ismask]. change (Z.to_nat 0) with 0%nat. rewrite drop_0, Z.sub_0_r.
    rewrite Z.ltb_irrefl, Z.eqb_refl. cbn [andb]. apply wp_bind.
    eapply wp_mono; [apply malloc_spec; lia|]. intros b l1 ? [-> ->].
    apply wp_bind, wp_lift. rewrite decode_plain. apply returns_done. cbn beta iota.
    apply wp_bind, wp_lift. rewrite (rdn_done c (length c)), Htk by lia. apply returns_done.
    apply wp_bind, wp_lift. rewrite memcpy_fresh by lia. apply returns_done, wp_ret.
    rewrite Nat2Z.id, Nat.sub_diag, app_nil_r.
    eapply moved_shake; [by apply moved_refl| |].
    + intros Hno. by destruct (Hex Hno He).
    + intros _. by rewrite Hn.
Qed.

Lemma shake_pending l fd p uc c :
  lua_ok l → pend (lua_q l) fd = None → id (pack uc) = fd → heading p uc → c ≠ [] →
  (length (p ++ c) ≤ 1024)%nat → (no_end (p ++ c) ∨ http_header (p ++ c)) →
  wp (filter_uncomplete fd uc c (len c) true) l (fun res l' _ => shake_post l fd p c res l').
Proof.
  intros Hok Hn Hid [Hrd Hhs Hhl Hhb] Hc Hlen Hcase. unfold filter_uncomplete. rewrite Hrd, Hhs.
  assert (no_end (p ++ c) → http_header (p ++ c) → False) as Hex by (intros Hno (_ & Hm & _); by apply Hno in Hm).
  destruct (Z.ltb_spec (-1) 0); [|lia].
  destruct (Z.ltb_spec 0 (len c)) as [_|Hcl]; [|destruct c; [done|simpl in Hcl; lia]].
  apply wp_bind, wp_lift. rewrite Nat2Z.id.
  eapply returns_mono; [by apply (shake_loop p c (header uc) [])|].
  intros ((((n & outs) & h') & hsz) & idx) (Hn1 & Hn2 & -> & Hh' & -> & Ht & ->). cbn beta iota.
  cbn [app]. rewrite Z.sub_diag, Nat2Z.id, drop_all. destruct Hcase as [Hno|He].
  - rewrite (Hn1 Hno). simpl (-1 =? -1). cbn iota. apply wp_bind.
    eapply wp_mono; [by apply relink_spec|]. intros ? l' ? Hm. apply wp_ret.
    eapply moved_shake; [exact Hm| |].
    + intros _. eauto 10 using Build_heading.
    + intros He. by destruct (Hex Hno He).
  - rewrite (Hn2 He). destruct (Z.eqb_spec (len (p ++ c)) (-1)); [lia|].
    destruct (Z.eqb_spec (len (p ++ c)) (-3)); [lia|].
    apply wp_bind. eapply wp_mono; [apply malloc_spec; lia|]. intros b l1 ? [-> ->].
    rewrite Z.ltb_irrefl. apply wp_bind, wp_lift.
    rewrite (rdn_done h' (length (p ++ c))), Ht by lia. apply returns_done.
    apply wp_bind, wp_lift. rewrite memcpy_fresh by lia. apply returns_done.
    rewrite Nat2Z.id, Nat.sub_diag, app_nil_r.
    unfold fill_packet. cbn [pack size read umask uismask hasunmask_size buffer id mask ismask no_head].
    rewrite Z.sub_diag. change (0 <? 0) with false. cbn iota. rewrite decode_plain.
    apply wp_bind, wp_lift, returns_done. cbn beta iota.
    apply wp_bind, wp_lift. change (rdn [] 0) with (@Done Empty_set (list Z) []). apply returns_done.
    apply wp_bind, wp_lift.
    rewrite memcpy_done by (rewrite !length_fmap; simpl; lia). apply returns_done.
    cbn [fmap list_fmap]. rewrite splice_nil. change (0 - 0 =? 0) with true. cbn iota.
    apply wp_bind, wp_emit, wp_ret. eapply moved_shake; [by apply moved_refl| |].
    + intros Hno. by destruct (Hex Hno He).
    + intros _. by rewrite Hn.
Qed.

Lemma shake_spec l fd p c :
  lua_ok l → shaking (lua_q l) fd p → c ≠ [] → (length (p ++ c) ≤ 1024)%nat →
  (no_end (p ++ c) ∨ http_header (p ++ c)) →
  wp (filter_data_ fd c (len c) true) l (fun res l' _ => shake_post l fd p c res l').
Proof.
  intros Hok Hp Hc Hlen Hcase. unfold filter_data_. apply wp_bind, wp_get, wp_bind, wp_modify.
  unfold shaking in Hp. destruct (pend (lua_q l) fd) as [uc|] eqn:Hpd.
  - destruct (find_moved l fd uc Hok Hpd) as (q & Hfind & Hm). rewrite Hfind.
    apply wp_bind, wp_modify. set (l1 := set_slot1 q _).
    specialize (Hm (Lua (slot1 l) (i32 (total_size l + len c)))). fold l1 in Hm.
    eapply wp_mono.
    { apply (shake_pending l1 fd p uc c); try done; [apply Hm|apply Hm|by eapply pend_id]. }
    intros res l' ? (H1 & H2 & H3 & H4). pose proof (mv_packets _ _ _ _ _ Hm) as Hpk.
    rewrite app_nil_r in Hpk. split_and!; try done; [by rewrite H2| |by apply H4..].
    intros fd' Hne. rewrite H3 by done. by apply (mv_other _ _ _ _ _ Hm).
  - subst p. rewrite find_uncomplete_none by done.
    eapply wp_mono; [by apply (shake_fresh (Lua (slot1 l) _))|]. done.
Qed.
End handshake.

(** ** The properties *)
Section properties.
Implicit Types (l : lua) (fd : Z) (c p : list Z).

Fixpoint shake_all fd (cs : list (list Z)) : NM (list result) :=
  match cs with
  | [] => ret []
  | c :: cs =>
      res <- filter_data fd c (len c) true;;
      rest <- shake_all fd cs;;
      ret (res :: rest)
  end.

Lemma shake_all_spec cs : ∀ l fd p,
  lua_ok l → shaking (lua_q l) fd p → Forall (fun c => c ≠ []) cs → cs ≠ [] →
  http_header (p ++ concat cs) → (length (p ++ concat cs) ≤ 1024)%nat →
  wp (shake_all fd cs) l (fun out l' _ =>
    out = replicate (length cs - 1) RetQueue ++
      [RetData fd (Some <$> p ++ concat cs) (len (p ++ concat cs))] ∧
    lua_ok l' ∧ packets l' = packets l ∧ pend (lua_q l') fd = None ∧
    ∀ fd', fd' ≠ fd → pend (lua_q l') fd' = pend (lua_q l) fd').
Proof.
  induction cs as [|c cs IH]; intros l fd p Hok Hp Hne Hcs He Hmax; [done|].
  apply Forall_cons in Hne as [Hc Hne]. cbn [concat] in He, Hmax |- *. rewrite app_assoc in *.
  cbn [shake_all]. unfold filter_data. apply wp_bind, wp_bind.
  assert (no_end (p ++ c) ∨ http_header (p ++ c)) as Hcase.
  { destruct cs as [|c' cs]; [right; by rewrite app_nil_r in He|left].
    eapply http_header_prefix; [exact He|]. apply Forall_cons in Hne as [Hc' _]. cbn [concat]. by destruct c'. }
  rewrite !length_app in Hmax.
  eapply wp_mono; [apply (shake_spec l fd p c); try done; rewrite length_app; lia|].
  intros res l1 ? (Hok1 & Hpk1 & Ho1 & Hno & Hend). apply wp_bind, wp_emit, wp_ret, wp_bind.
  destruct cs as [|c' cs].
  - rewrite app_nil_r in *. destruct (Hend He) as [-> Hpd]. apply wp_ret, wp_ret. by split_and!.
  - assert (no_end (p ++ c)) as Hn.
    { eapply http_header_prefix; [exact He|]. apply Forall_cons in Hne as [Hc' _]. cbn [concat]. by destruct c'. }
    destruct (Hno Hn) as [-> Hs].
    eapply wp_mono; [apply (IH l1 fd (p ++ c)); try done; rewrite !length_app; lia|].
    intros out l2 ? (-> & Hok2 & Hpk2 & Hpd2 & Ho2). apply wp_ret. split_and!; try done.
    + simpl length. by rewrite !Nat.sub_succ, !Nat.sub_0_r.
    + by rewrite Hpk2.
    + intros fd' Hx. by rewrite Ho2, Ho1.
Qed.

(** C35: a handshake request of at most [HEADERSIZE] bytes, cut into arbitrary
    chunks, is handed over once it is complete, byte for byte; the state of the
    other connections and the packet queue are left alone. *)
Theorem handshake_reassembles l fd cs :
  lua_ok l → pend (lua_q l) fd = None → Forall (fun c => c ≠ []) cs →
  http_header (concat cs) → len (concat cs) ≤ HEADERSIZE →
  wp (shake_all fd cs) l (fun out l' _ =>
    out = replicate (length cs - 1) RetQueue ++ [RetData fd (Some <$> concat cs) (len (concat cs))] ∧
    lua_ok l' ∧ packets l' = packets l ∧ pend (lua_q l') fd = None ∧
    ∀ fd', fd' ≠ fd → pend (lua_q l') fd' = pend (lua_q l) fd').
Proof.
  intros Hok Hn Hne He Hmax. unfold HEADERSIZE in Hmax.
  apply (shake_all_spec cs l fd []); try done; [by unfold shaking; rewrite Hn| |simpl; lia].
  intros ->. destruct He as [H4 _]. simpl in H4. lia.
Qed.

Definition demo_request : list (list Z) :=
  [lit "GET / HTTP/1.1"; [13; 10; 13]; [10]].

Lemma demo_request_header : http_header (concat demo_request).
Proof.
  split; [vm_compute; lia|]. split; [reflexivity|]. intros i Hi.
  change (length (concat demo_request) - 4)%nat with 14%nat in Hi.
  do 14 (destruct i as [|i]; [by vm_compute|]). lia.
Qed.

Lemma handshake_reassembles_witness :
  wp (shake_all 7 demo_request) (Lua None 0) (fun out l' _ =>
    out = replicate 2 RetQueue ++ [RetData 7 (Some <$> concat demo_request) 18] ∧
    lua_ok l' ∧ packets l' = [] ∧ pend (lua_q l') 7 = None ∧
    ∀ fd', fd' ≠ 7 → pend (lua_q l') fd' = None).
Proof.
  apply (handshake_reassembles (Lua None 0) 7 demo_request (lua_ok_init 0) eq_refl
    ltac:(repeat constructor; discriminate) demo_request_header ltac:(vm_compute; discriminate)).
Defined.

(** A handshake request that fills the header without a blank line makes the
    next byte an out-of-bounds write: the limit is tested after the store. *)
Theorem handshake_overflow l fd p uc c :
  lua_ok l → pend (lua_q l) fd = Some uc → heading p uc → len p = HEADERSIZE → c ≠ [] →
  filter_data_ fd c (len c) true l = Fault OutOfBounds.
Proof.
  intros Hok Hp [Hrd Hhs Hhl _] Hlen Hc. unfold filter_data_, bind at 1, get.
  destruct (find_moved l fd uc Hok Hp) as (q & -> & _).
  unfold bind at 1, modify at 1, bind at 1, modify. unfold filter_uncomplete. rewrite Hrd.
  destruct (Z.ltb_spec (-1) 0); [|lia].
  destruct c as [|b c]; [done|]. destruct (Z.ltb_spec 0 (len (b :: c))) as [_|Hx]; [|simpl in Hx; lia].
  unfold bind, lift. rewrite Nat2Z.id. cbn [length header_loop rd zget].
  change (rd (b :: c) 0) with (@Done Empty_set Z b). cbn [obind]. unfold header_byte, wr.
  rewrite Hhs, Hlen, Hhl. change ((0 <=? HEADERSIZE) && (HEADERSIZE <? Z.of_nat 1024)) with false.
  done.
Qed.

Definition full_header : list Z := replicate 1024 65.
Definition full_uncomplete : uncomplete :=
  Uncomplete (Pack 7 0 []) full_header 1024 (-1) [0; 0; 0; 0] 0 0.
Definition full_lua : lua :=
  Lua (Some (set_chain (hash_fd 7) [full_uncomplete] new_queue)) 0.

Lemma full_lua_ok : lua_ok full_lua.
Proof.
  split; [apply ring_wf_new|].
  destruct (link_spec new_queue 7 full_uncomplete chains_ok_new eq_refl eq_refl) as [Hc _]. exact Hc.
Qed.

Lemma handshake_overflow_witness : filter_data_ 7 [65] 1 true full_lua = Fault OutOfBounds.
Proof.
  apply (handshake_overflow full_lua 7 full_header full_uncomplete [65] full_lua_ok eq_refl).
  - split; reflexivity.
  - reflexivity.
  - discriminate.
Defined.

(** A frame whose 64-bit length field has bit 31 set (and is not one of the
    three codes of [read_size]) gets a negative packet size, and the packet is allocated and copied with it: one header from a client
    brings the server down. *)
Theorem huge_length_crashes l fd n :
  lua_ok l → pend (lua_q l) fd = None → 0 ≤ n < 2 ^ 64 →
  2 ^ 31 ≤ n mod 2 ^ 32 < 2 ^ 32 - 3 →
  filter_data_ fd ([130; 127] ++ be_bytes 8 n) 10 false l = Fault IntOverflow.
Proof.
  intros Hok Hn Hr Hbit. set (c := [130; 127] ++ be_bytes 8 n).
  assert (length c = 10%nat) as Hlc by (unfold c; by rewrite length_app, length_be_bytes).
  change (2 ^ 31) with 2147483648 in *. change (2 ^ 32) with 4294967296 in *.
  change (2 ^ 64) with 18446744073709551616 in *.
  assert (read_size c 10 no_head = Done (i32 n, Head 10 [0; 0; 0; 0] 0)) as Hrs.
  { assert (i32 (ntoh64 (le_value (take 8 (drop 2 c)))) = i32 n) as Hv.
    { assert (take 8 (drop 2 c) = be_bytes 8 n) as ->.
      { change (drop 2 c) with (be_bytes 8 n). apply take_ge. by rewrite length_be_bytes. }
      rewrite (ntoh64_le (be_bytes 8 n) (be_bytes_ok _ _) (length_be_bytes _ _)).
      by rewrite be_value_bytes by (change (256 ^ Z.of_nat 8) with 18446744073709551616; lia). }
    unfold read_size. change (10 <? 2) with false. cbn iota.
    rewrite (rdn_done (drop 2 c) 8) by (rewrite length_drop; lia).
    change (rd c 0) with (@Done Empty_set Z 130). change (rd c 1) with (@Done Empty_set Z 127).
    cbn [obind]. rewrite Hv. reflexivity. }
  assert (i32 n = n mod 4294967296 - 4294967296) as Hneg.
  { unfold swrap. change (2 ^ 32) with 4294967296. change (2 ^ (32 - 1)) with 2147483648.
    destruct (Z.ltb_spec (n mod 4294967296) 2147483648); lia. }
  pose proof (Z.mod_pos_bound n 4294967296 ltac:(lia)) as Hm.
  unfold filter_data_, bind at 1, get. rewrite find_uncomplete_none by done.
  unfold bind at 1, modify. unfold filter_fresh.
  assert (next_frame (fun n => n =? -2) c 10 false = Done (i32 n, Head 10 [0; 0; 0; 0] 0, c, 10)) as Hnf.
  { unfold next_frame. change (Z.to_nat 10) with 10%nat.
    rewrite (skip_loop_once _ _ _ _ _ _ _ Hrs) by (apply Z.eqb_neq; lia). cbn [obind].
    unfold MAX_PACKSIZE. destruct (Z.ltb_spec (10 * 1024) (i32 n)); [lia|done]. }
  rewrite Hnf. unfold bind at 1, lift at 1. cbn beta iota.
  destruct (Z.eqb_spec (i32 n) (-1)); [lia|]. destruct (Z.eqb_spec (i32 n) (-3)); [lia|].
  cbn [pack_head_length mask ismask]. change (10 - 10) with 0.
  destruct (Z.ltb_spec 0 (i32 n)); [lia|]. cbn [andb]. destruct (Z.eqb_spec 0 (i32 n)); [lia|].
  rewrite decode_plain. unfold bind at 1, lift at 1. cbn beta iota.
  unfold push_data, malloc, bind, emit. by destruct (Z.ltb_spec (i32 n) 0); [|lia].
Qed.

Lemma huge_length_crashes_witness :
  filter_data_ 3 [130; 127; 0; 0; 0; 0; 128; 0; 0; 0] 10 false (Lua None 0) = Fault IntOverflow.
Proof. apply (huge_length_crashes (Lua None 0) 3 2147483648 (lua_ok_init 0) eq_refl); vm_compute; split; done. Defined.

(** The ring of finished packets behaves as a list under any sequence of
    [push_data] and [lpop], across wrap-around and the growth of the userdata. *)
Theorem packet_ring_refines_list (ops : list (fifo_op netpack)) :
  Z.of_nat (pushes ops) < CAPACITY →
  returns (fifo_run (E:=Empty_set) new_queue ops) (fun r =>
    ring_wf r.1 ∧ (items r.1, r.2) = list_run [] ops).
Proof.
  intros Hroom. exact (fifo_run_spec (Q:=queue) new_queue ops ring_wf_new Hroom).
Qed.

Definition demo_pushes : list (fifo_op netpack) :=
  [Pop; Push (packet 1 [7]); Push (packet 2 []); Pop; Push (packet 3 [8; 9])].

Lemma packet_ring_refines_list_witness :
  returns (fifo_run (E:=Empty_set) new_queue demo_pushes) (fun r =>
    ring_wf r.1 ∧ (items r.1, r.2) =
      ([packet 2 []; packet 3 [8; 9]], [None; Some (packet 1 [7])])).
Proof. apply (packet_ring_refines_list demo_pushes). reflexivity. Defined.
End properties.
