(* ===== verification/NetpackClear.v ===== *)
(** * Releasing the packet queue of lua-websocketnetpack.c

    [lclear], the finaliser of the gate, and [close_uncomplete]: what they free. *)
From S2P Require Import Prelude Ring Libc Frame Netpack NetpackSpec.
Import Frame Netpack.

Section clear.
Implicit Types (q : queue) (uc : uncomplete) (fd : Z).

Lemma slots_all_Some q :
  ring_wf q → Ring.slots (slots q) (cap q) (head q) (Z.to_nat (count q)) = Some <$> items q.
Proof.
  intros Hr. pose proof (ring_size_range _ _ _ _ Hr).
  assert (∀ l : list (option netpack), Forall is_Some l → l = Some <$> omap Datatypes.id l) as Hl.
  { induction 1 as [|? ? [x ->] ? IH]; [done|]. simpl. f_equal. exact IH. }
  apply Hl, Forall_lookup_2. intros i x Hi.
  pose proof (lookup_lt_Some _ _ _ Hi) as Hlt. rewrite length_slots in Hlt.
  rewrite slots_lookup in Hi by done. simplify_eq. unfold count in Hlt.
  destruct (ring_slots _ _ _ _ Hr i) as [a ->]; [lia|]. by exists a.
Qed.

Lemma clear_loop_spec n i q nps :
  0 < cap q → 0 ≤ i → len (slots q) = cap q →
  Ring.slots (slots q) (cap q) i n = Some <$> nps →
  clear_loop n i q = Done ((fun np => FreeBuffer (buffer np)) <$> nps).
Proof.
  intros Hc Hi Hb. revert i nps Hi. induction n as [|n IH]; intros i nps Hi Hs.
  { by destruct nps. }
  rewrite slots_cons, slots_next in Hs by done. destruct nps as [|np nps]; [done|].
  rewrite fmap_cons in Hs. injection Hs as Hx Hs. cbn [clear_loop].
  rewrite Z.rem_mod_nonneg by lia. pose proof (Z.mod_pos_bound i (cap q) Hc).
  destruct (rd_total (E:=Empty_set) (slots q) (i mod cap q)) as [x Hrd]; [lia|].
  rewrite Hrd. unfold rd in Hrd. destruct (zget (slots q) (i mod cap q)); [|done].
  simplify_eq/=. cbn [obind]. by rewrite (IH (i + 1) nps) by (done || lia).
Qed.

(** What is freed for the unfinished packet of a connection: its buffer, then itself. *)
Definition freed q fd : list effect :=
  match pend q fd with
  | Some uc => [FreeBuffer (buffer (pack uc)); FreeUncomplete fd]
  | None => []
  end.

Definition chain_ids q (h : nat) : list Z := (fun uc => id (pack uc)) <$> chain q (Z.of_nat h).
Definition chains_ids q : list Z := concat (chain_ids q <$> seq 0 (Z.to_nat HASHSIZE)).

Definition clear_chains q : list effect :=
  concat ((fun h => clear_list (chain q (Z.of_nat h))) <$> seq 0 (Z.to_nat HASHSIZE)).

Lemma hash_fd_range fd : 0 ≤ hash_fd fd < HASHSIZE.
Proof. unfold hash_fd. apply Z.mod_pos_bound. done. Qed.

Lemma lookup_fd_elem l uc :
  NoDup ((fun uc => id (pack uc)) <$> l) → uc ∈ l → lookup_fd (id (pack uc)) l = Some uc.
Proof.
  induction l as [|uc' l IH]; [intros _ []%not_elem_of_nil|].
  rewrite fmap_cons, NoDup_cons, lookup_fd_cons. intros [Hni Hnd] Hin.
  apply elem_of_cons in Hin as [->|Hin]; [by rewrite Z.eqb_refl|].
  destruct (Z.eqb_spec (id (pack uc')) (id (pack uc))) as [He|]; [|by apply IH].
  destruct Hni. rewrite He. by apply (list_elem_of_fmap_2 (fun uc => id (pack uc))).
Qed.

(** The packets of a chain are those of their connections. *)
Lemma chain_pend q h uc : chains_ok q → uc ∈ chain q h → pend q (id (pack uc)) = Some uc.
Proof.
  intros Hq Hin. destruct (Hq h) as [Hnd Hh]. rewrite Forall_forall in Hh.
  unfold pend. rewrite (Hh _ Hin). by apply lookup_fd_elem.
Qed.

Lemma chain_ids_pend q fd h : chains_ok q →
  fd ∈ chain_ids q h ↔ is_Some (pend q fd) ∧ hash_fd fd = Z.of_nat h.
Proof.
  intros Hq. destruct (Hq (Z.of_nat h)) as [_ Hh]. rewrite Forall_forall in Hh. split.
  - intros (uc & -> & Hin)%list_elem_of_fmap. split; [|by apply Hh].
    exists uc. by apply (chain_pend q (Z.of_nat h)).
  - intros [Hs He]. unfold pend in Hs. rewrite He in Hs.
    destruct (decide (fd ∈ chain_ids q h)) as [|Hno]; [done|].
    apply lookup_fd_None in Hno. rewrite Hno in Hs. by destruct Hs.
Qed.

Lemma chains_ids_nodup q hs : chains_ok q → NoDup hs → NoDup (concat (chain_ids q <$> hs)).
Proof.
  intros Hq. induction 1 as [|h hs Hni Hnd IH]; [constructor|].
  rewrite fmap_cons. cbn [concat]. apply NoDup_app. split; [apply Hq|]. split; [|done].
  intros fd Hf Hx. apply (chain_ids_pend q fd h Hq) in Hf as [_ Hf].
  apply list_elem_of_In, in_concat in Hx as (l & Hl & Hx).
  apply list_elem_of_In, list_elem_of_fmap in Hl as (h' & -> & Hh').
  apply list_elem_of_In, (chain_ids_pend q fd h' Hq) in Hx as [_ Hx].
  assert (h = h') as -> by lia. done.
Qed.

Lemma chains_ids_pend q fd : chains_ok q → fd ∈ chains_ids q ↔ is_Some (pend q fd).
Proof.
  intros Hq. pose proof (hash_fd_range fd). unfold chains_ids. rewrite list_elem_of_In, in_concat. split.
  - intros (l & Hl & Hx). apply list_elem_of_In, list_elem_of_fmap in Hl as (h & -> & _).
    by apply list_elem_of_In, (chain_ids_pend q fd h Hq) in Hx as [Hx _].
  - intros Hs. exists (chain_ids q (Z.to_nat (hash_fd fd))). rewrite <- !list_elem_of_In. split.
    + apply list_elem_of_fmap_2, elem_of_seq. lia.
    + apply chain_ids_pend; [done|]. split; [done|lia].
Qed.

Lemma clear_list_freed q h l :
  chains_ok q → l ⊆ chain q h → clear_list l = ((fun uc => id (pack uc)) <$> l) ≫= freed q.
Proof.
  intros Hq. induction l as [|uc l IH]; intros Hl; [done|].
  unfold clear_list in *. rewrite !fmap_cons. cbn [concat mbind list_bind]. unfold mbind in IH. rewrite IH by set_solver.
  f_equal. unfold freed. rewrite (chain_pend q h) by set_solver. done.
Qed.

Lemma clear_chains_freed q : chains_ok q → clear_chains q = chains_ids q ≫= freed q.
Proof.
  intros Hq. unfold clear_chains, chains_ids. generalize (seq 0 (Z.to_nat HASHSIZE)) as hs.
  induction hs as [|h hs IH]; [done|]. rewrite !fmap_cons. cbn [concat].
  rewrite bind_app, IH. f_equal. by apply (clear_list_freed q (Z.of_nat h)).
Qed.

(** C38: [lclear] frees, for every connection with an unfinished packet exactly once,
    the packet's buffer and then the packet itself, then the buffer of every
    finished packet, in order, and nothing else; it leaves an empty queue. *)
Theorem clear_frees_all q :
  ring_wf q → chains_ok q →
  returns (lclear q) (fun '(q', frees) =>
    ring_wf q' ∧ items q' = [] ∧ (∀ fd, pend q' fd = None) ∧
    ∃ fds, NoDup fds ∧ (∀ fd, fd ∈ fds ↔ is_Some (pend q fd)) ∧
      frees = (fds ≫= freed q) ++ ((fun np => FreeBuffer (buffer np)) <$> items q)).
Proof.
  intros Hr Hq. unfold lclear. pose proof Hr as [Hc Hh Ht Hb _].
  assert ((if tail q <? head q then tail q + cap q else tail q) - head q = count q) as ->.
  { unfold count, ring_size. destruct (Z.ltb_spec (tail q) (head q)); lia. }
  rewrite (clear_loop_spec _ _ _ (items q)) by (try lia; by apply slots_all_Some).
  apply returns_done. split_and!.
  - split; cbn; try lia. change (ring_size (cap q) 0 0) with 0. lia.
  - done.
  - done.
  - exists (chains_ids q). split; [by apply chains_ids_nodup, NoDup_seq|].
    split; [intros fd; by apply chains_ids_pend|]. f_equal. by apply clear_chains_freed.
Qed.

(** Two finished packets in the ring, and the unfinished packets of three connections,
    two of them in one chain. *)
Definition unfinished fd (b : list (option Z)) : uncomplete := Uncomplete (Pack fd (len b) b) [] 0 0 [0; 0; 0; 0] 0 0.
Definition demo_queue : queue := set_chain (hash_fd 7) [unfinished 7 [None; None]] new_queue.
Definition busy_queue : queue :=
  Queue QUEUESIZE 0 2 {[7 := [unfinished 7 [None; None]; unfinished 4102 [Some 1]]; 9 := [unfinished 9 []]]}
    (Some (packet 3 [1; 2]) :: Some (packet 4 [5]) :: replicate 1022 None).

Lemma clear_frees_all_witness :
  returns (lclear busy_queue) (fun '(q', frees) =>
    ring_wf q' ∧ items q' = [] ∧ (∀ fd, pend q' fd = None) ∧
    ∃ fds, NoDup fds ∧ (∀ fd, fd ∈ fds ↔ is_Some (pend busy_queue fd)) ∧
      frees = (fds ≫= freed busy_queue) ++ [FreeBuffer [Some 1; Some 2]; FreeBuffer [Some 5]]).
Proof.
  apply (clear_frees_all busy_queue).
  - split; try done. intros i Hi. change (ring_size _ _ _) with 2 in Hi.
    assert (i = 0 ∨ i = 1)%nat as [-> | ->] by lia; by eexists.
  - intros h. unfold chain, busy_queue. cbn [hash].
    destruct (decide (h = 7)) as [->|H7]; [|destruct (decide (h = 9)) as [->|H9]].
    + simplify_map_eq. split; [apply (bool_decide_unpack _); vm_compute; exact I|by repeat constructor].
    + simplify_map_eq. split; [apply (bool_decide_unpack _); vm_compute; exact I|by repeat constructor].
    + simplify_map_eq. split; constructor.
Defined.

Example busy_freed : freed busy_queue 7 ++ freed busy_queue 4102 ++ freed busy_queue 9 =
  [FreeBuffer [None; None]; FreeUncomplete 7; FreeBuffer [Some 1]; FreeUncomplete 4102; FreeBuffer []; FreeUncomplete 9].
Proof. vm_compute. reflexivity. Qed.

(** When a connection closes or fails, its unfinished packet is freed once,
    whatever it was, and no other connection is affected. *)
Theorem close_frees_unfinished l fd ud_ pad :
  lua_ok l →
  wp (lfilter (SockMsg SOCKET_CLOSE fd ud_ None pad) 0) l (fun res l' w =>
    res = RetClose fd ∧ moved l fd None [] l' ∧
    w = match pend (lua_q l) fd with
        | Some uc => [FreeBuffer (buffer (pack uc)); FreeUncomplete fd]
        | None => []
        end).
Proof.
  intros Hok. unfold lfilter. cbn [stype sid]. apply wp_bind. unfold close_uncomplete.
  apply wp_bind, wp_get. destruct (pend (lua_q l) fd) as [uc|] eqn:Hp.
  - destruct (find_moved l fd uc Hok Hp) as (q & -> & Hm). pose proof (pend_id _ _ _ Hp) as Hid.
    apply wp_bind, wp_modify, wp_bind, wp_emit, wp_emit, wp_ret.
    split_and!; [done|apply Hm|]. cbn [app]. by rewrite Hid.
  - rewrite find_uncomplete_none by done. apply wp_ret, wp_ret. split_and!; try done.
    rewrite <- Hp. by apply moved_refl.
Qed.

Lemma close_frees_unfinished_witness :
  wp (lfilter (SockMsg SOCKET_CLOSE 7 0 None []) 0) (Lua (Some demo_queue) 0) (fun res l' w =>
    res = RetClose 7 ∧ moved (Lua (Some demo_queue) 0) 7 None [] l' ∧
    w = [FreeBuffer [None; None]; FreeUncomplete 7]).
Proof.
  apply (close_frees_unfinished (Lua (Some demo_queue) 0) 7 0 []).
  split; [exact ring_wf_new|]. eapply link_spec; [apply chains_ok_new|done|done].
Defined.
End clear.
