(* ===== verification/Skiplist.v ===== *)
(** * skiplist.c and lua-skiplist.c: the ranking list

    The nodes live in a heap, a map from addresses to nodes; [forward] and
    [backward] are addresses ([None]: NULL). A node's levels are the list of its
    forward pointers with their spans. Scores are IEEE doubles ([spec_float]),
    members byte strings, owned by their node. The address [malloc] returned and
    the content of the fresh memory are arguments of the operations that
    allocate, and so are the values of [random]. *)
From Stdlib Require Import Floats.SpecFloat.
From S2P Require Import Prelude Libc.

Module Skiplist.

Definition SKIPLIST_MAXLEVEL : nat := 32.

Abbreviation ptr := positive.

Record node := Node {
  obj : option (list Z);
  score : spec_float;
  backward : option ptr;
  levels : list (option ptr * Z)
}.

Abbreviation heap := (gmap ptr node).

Record skiplist := Skiplist {
  header : ptr;
  tail : option ptr;
  length_ : Z;
  level : nat;
  mem : heap
}.

Abbreviation out A := (outcome Empty_set A).

(** ** Memory *)

Definition deref (h : heap) (p : ptr) : out node :=
  match h !! p with Some n => Done n | None => Fault NullDeref end.

Definition level_of (n : node) (i : nat) : out (option ptr * Z) :=
  match levels n !! i with Some l => Done l | None => Fault OutOfBounds end.

Definition level_at (h : heap) (p : ptr) (i : nat) : out (option ptr * Z) :=
  let! n := deref h p in level_of n i.

Definition set_levels (ls : list (option ptr * Z)) (n : node) : node :=
  Node (obj n) (score n) (backward n) ls.

Definition set_level (h : heap) (p : ptr) (i : nat) (l : option ptr * Z) : out heap :=
  let! n := deref h p in
  let! _ := level_of n i in
  Done (<[p := set_levels (<[i := l]> (levels n)) n]> h).

Definition set_backward (h : heap) (p : ptr) (b : option ptr) : out heap :=
  let! n := deref h p in
  Done (<[p := Node (obj n) (score n) b (levels n)]> h).

(** ** Creation *)

(** [junk]: what the fresh memory holds. *)
Definition slCreateNode (level : nat) (score : spec_float) (obj : option (list Z))
    (junk : option ptr * Z) : node :=
  Node obj score junk.1 (replicate level junk).

Definition zero : spec_float := S754_zero false.

Definition slCreate (p : ptr) : skiplist :=
  let header := Node None zero None (replicate SKIPLIST_MAXLEVEL (None, 0)) in
  Skiplist p None 0 1 {[ p := header ]}.

(** [while ((random() & 0xffff) < SKIPLIST_P * 0xffff) level += 1]: the product is
    65535/4. [None]: the given values of [random] are used up. *)
Fixpoint random_loop (rs : list Z) (level : nat) : option nat :=
  match rs with
  | [] => None
  | r :: rs => if Z.land r 65535 * 4 <? 65535 then random_loop rs (S level) else Some level
  end.

Definition slRandomLevel (rs : list Z) : option nat :=
  match random_loop rs 1 with
  | Some level => Some (if (level <? SKIPLIST_MAXLEVEL)%nat then level else SKIPLIST_MAXLEVEL)
  | None => None
  end.

(** ** Order *)

Definition compareslObj (a b : list Z) : Z :=
  let cmp := memcmp (if len a <=? len b then length a else length b) a b in
  if cmp =? 0 then i32 (u64 (len a - len b)) else cmp.

Definition equalslObj (a b : list Z) : bool := compareslObj a b =? 0.

(** [compareslObj(x->obj, o)] reads the member of a node. *)
Definition member (n : node) : out (list Z) :=
  match obj n with Some o => Done o | None => Fault NullDeref end.

(** The conditions of the loops: the node is before the key, or not after it. *)
Definition before (s : spec_float) (o : list Z) (n : node) : out bool :=
  if SFltb (score n) s then Done true
  else if SFeqb (score n) s then let! m := member n in Done (compareslObj m o <? 0)
  else Done false.

Definition not_after (s : spec_float) (o : list Z) (n : node) : out bool :=
  if SFltb (score n) s then Done true
  else if SFeqb (score n) s then let! m := member n in Done (compareslObj m o <=? 0)
  else Done false.

(** ** Searching

    [while (x->level[i].forward && adv) x = x->level[i].forward], where the
    condition sees the sum of the spans and the next node. *)
Fixpoint walk (fuel : nat) (h : heap) (adv : Z → node → out bool) (i : nat) (x : ptr) (acc : Z)
    : out (ptr * Z) :=
  match fuel with
  | O => NoFuel
  | S f =>
      let! (forward, span) := level_at h x i in
      match forward with
      | None => Done (x, acc)
      | Some y =>
          let! ny := deref h y in
          let! go := adv (acc + span) ny in
          if go then walk f h adv i y (acc + span) else Done (x, acc)
      end
  end.

(** The loop over the levels, from [k - 1] down: the node and the sum where each
    level stopped ([update] and [rank]), in the order of the levels. *)
Fixpoint descend (k : nat) (fuel : nat) (h : heap) (adv : Z → node → out bool) (x : ptr) (acc : Z)
    : out (list (ptr * Z)) :=
  match k with
  | O => Done []
  | S i =>
      let! (x, acc) := walk fuel h adv i x acc in
      let! rest := descend i fuel h adv x acc in
      Done (rest ++ [(x, acc)])
  end.

(** A level has at most as many steps as the list has nodes. *)
Definition walk_fuel (sl : skiplist) : nat := S (Z.to_nat (length_ sl)).

Definition search (sl : skiplist) (adv : Z → node → out bool) : out (list (ptr * Z)) :=
  descend (level sl) (walk_fuel sl) (mem sl) adv (header sl) 0.

Definition at_level (U : list (ptr * Z)) (i : nat) : out (ptr * Z) :=
  match U !! i with Some u => Done u | None => Fault Uninitialised end.

(** ** Insertion *)

(** The levels the list did not have so far. *)
Fixpoint raise_loop (n i : nat) (h : heap) (hd : ptr) (length : Z) : out heap :=
  match n with
  | O => Done h
  | S n =>
      let! l := level_at h hd i in
      let! h := set_level h hd i (l.1, u32 length) in
      raise_loop n (S i) h hd length
  end.

Fixpoint link_loop (n i : nat) (h : heap) (U : list (ptr * Z)) (x : ptr) (rank0 : Z) : out heap :=
  match n with
  | O => Done h
  | S n =>
      let! (u, rank) := at_level U i in
      let! (forward, span) := level_at h u i in
      let! h := set_level h x i (forward, u32 (span - u32 (rank0 - rank))) in
      let! h := set_level h u i (Some x, u32 (u32 (rank0 - rank) + 1)) in
      link_loop n (S i) h U x rank0
  end.

(** The levels above the new node. *)
Fixpoint span_loop (n i : nat) (h : heap) (U : list (ptr * Z)) : out heap :=
  match n with
  | O => Done h
  | S n =>
      let! (u, _) := at_level U i in
      let! (forward, span) := level_at h u i in
      let! h := set_level h u i (forward, u32 (span + 1)) in
      span_loop n (S i) h U
  end.

Definition slInsert (sl : skiplist) (s : spec_float) (o : list Z) (rs : list Z) (x : ptr)
    (junk : option ptr * Z) : out skiplist :=
  let! U := search sl (fun _ => before s o) in
  match slRandomLevel rs with
  | None => NoFuel
  | Some lv =>
      let extra := (lv - level sl)%nat in
      let! h := raise_loop extra (level sl) (mem sl) (header sl) (length_ sl) in
      let U := U ++ replicate extra (header sl, 0) in
      let level' := if (level sl <? lv)%nat then lv else level sl in
      let h := <[x := slCreateNode lv s (Some o) junk]> h in
      let! (u0, rank0) := at_level U 0 in
      let! h := link_loop lv 0 h U x rank0 in
      let! h := span_loop (level' - lv) lv h U in
      let! h := set_backward h x (if decide (u0 = header sl) then None else Some u0) in
      let! (forward, _) := level_at h x 0 in
      match forward with
      | Some y =>
          let! h := set_backward h y (Some x) in
          Done (Skiplist (header sl) (tail sl) (length_ sl + 1) level' h)
      | None => Done (Skiplist (header sl) (Some x) (length_ sl + 1) level' h)
      end
  end.

(** ** Deletion *)

Fixpoint unlink_loop (n i : nat) (h : heap) (U : list (ptr * Z)) (x : ptr) : out heap :=
  match n with
  | O => Done h
  | S n =>
      let! (u, _) := at_level U i in
      let! (forward, span) := level_at h u i in
      let! h :=
        (if decide (forward = Some x) then
           let! (xforward, xspan) := level_at h x i in
           set_level h u i (xforward, u32 (span + u32 (xspan - 1)))
         else set_level h u i (forward, u32 (span - 1))) in
      unlink_loop n (S i) h U x
  end.

(** [while (sl->level > 1 && sl->header->level[sl->level-1].forward == NULL) sl->level--]. *)
Fixpoint shrink_loop (l : nat) (h : heap) (hd : ptr) : out nat :=
  match l with
  | O => Done O
  | S i =>
      if (1 <? l)%nat then
        let! (forward, _) := level_at h hd i in
        match forward with None => shrink_loop i h hd | Some _ => Done l end
      else Done l
  end.

Definition slDeleteNode (sl : skiplist) (x : ptr) (U : list (ptr * Z)) : out skiplist :=
  let! h := unlink_loop (level sl) 0 (mem sl) U x in
  let! nx := deref h x in
  let! (forward, _) := level_at h x 0 in
  let! (h, t) :=
    match forward with
    | Some y => let! h := set_backward h y (backward nx) in Done (h, tail sl)
    | None => Done (h, backward nx)
    end in
  let! l := shrink_loop (level sl) h (header sl) in
  Done (Skiplist (header sl) t (length_ sl - 1) l h).

(** The node and its member are freed: the result carries the freed member. *)
Definition slFreeNode (h : heap) (x : ptr) : out (list Z * heap) :=
  let! n := deref h x in
  let! m := member n in
  Done (m, delete x h).

Definition set_mem (h : heap) (sl : skiplist) : skiplist :=
  Skiplist (header sl) (tail sl) (length_ sl) (level sl) h.

Definition slDelete (sl : skiplist) (s : spec_float) (o : list Z) : out (bool * skiplist) :=
  let! U := search sl (fun _ => before s o) in
  let! (u0, _) := at_level U 0 in
  let! (forward, _) := level_at (mem sl) u0 0 in
  match forward with
  | None => Done (false, sl)
  | Some x =>
      let! nx := deref (mem sl) x in
      if SFeqb s (score nx) then
        let! m := member nx in
        if equalslObj m o then
          let! sl := slDeleteNode sl x U in
          let! (_, h) := slFreeNode (mem sl) x in
          Done (true, set_mem h sl)
        else Done (false, sl)
      else Done (false, sl)
  end.

(** The members the callback saw, in order; their number is the result of the C
    function. *)
Fixpoint delete_loop (fuel : nat) (sl : skiplist) (x : option ptr) (traversed end_ : Z)
    (U : list (ptr * Z)) : out (list (list Z) * skiplist) :=
  match fuel with
  | O => NoFuel
  | S f =>
      match x with
      | Some x =>
          if traversed <=? end_ then
            let! (next, _) := level_at (mem sl) x 0 in
            let! sl := slDeleteNode sl x U in
            let! (m, h) := slFreeNode (mem sl) x in
            let! (ms, sl) := delete_loop f (set_mem h sl) next (traversed + 1) end_ U in
            Done (m :: ms, sl)
          else Done ([], sl)
      | None => Done ([], sl)
      end
  end.

Definition slDeleteByRank (sl : skiplist) (start end_ : Z) : out (list (list Z) * skiplist) :=
  let! U := search sl (fun acc _ => Done (acc <? start)) in
  let! (u0, traversed) := at_level U 0 in
  let! (forward, _) := level_at (mem sl) u0 0 in
  delete_loop (walk_fuel sl) sl forward (traversed + 1) end_ U.

(** ** Ranks *)

Fixpoint rank_loop (k : nat) (fuel : nat) (h : heap) (s : spec_float) (o : list Z) (x : ptr) (acc : Z)
    : out Z :=
  match k with
  | O => Done 0
  | S i =>
      let! (x, acc) := walk fuel h (fun _ => not_after s o) i x acc in
      let! nx := deref h x in
      match obj nx with
      | Some m => if equalslObj m o then Done acc else rank_loop i fuel h s o x acc
      | None => rank_loop i fuel h s o x acc
      end
  end.

Definition slGetRank (sl : skiplist) (s : spec_float) (o : list Z) : out Z :=
  rank_loop (level sl) (walk_fuel sl) (mem sl) s o (header sl) 0.

Fixpoint by_rank_loop (k : nat) (fuel : nat) (h : heap) (rank : Z) (x : ptr) (acc : Z)
    : out (option ptr) :=
  match k with
  | O => Done None
  | S i =>
      let! (x, acc) := walk fuel h (fun acc _ => Done (acc <=? rank)) i x acc in
      if acc =? rank then Done (Some x) else by_rank_loop i fuel h rank x acc
  end.

Definition slGetNodeByRank (sl : skiplist) (rank : Z) : out (option ptr) :=
  if (rank =? 0) || (length_ sl <? rank) then Done None
  else by_rank_loop (level sl) (walk_fuel sl) (mem sl) rank (header sl) 0.

(** ** Score ranges *)

Definition slIsInRange (sl : skiplist) (min max : spec_float) : out bool :=
  if SFltb max min then Done false
  else
    match tail sl with
    | None => Done false
    | Some t =>
        let! nt := deref (mem sl) t in
        if SFltb (score nt) min then Done false
        else
          let! (forward, _) := level_at (mem sl) (header sl) 0 in
          match forward with
          | None => Done false
          | Some x =>
              let! nx := deref (mem sl) x in
              Done (negb (SFltb max (score nx)))
          end
    end.

Definition slFirstInRange (sl : skiplist) (min max : spec_float) : out (option ptr) :=
  let! hit := slIsInRange sl min max in
  if hit then
    let! U := search sl (fun _ n => Done (SFltb (score n) min)) in
    let! (u0, _) := at_level U 0 in
    let! (forward, _) := level_at (mem sl) u0 0 in
    Done forward
  else Done None.

Definition slLastInRange (sl : skiplist) (min max : spec_float) : out (option ptr) :=
  let! hit := slIsInRange sl min max in
  if hit then
    let! U := search sl (fun _ n => Done (SFleb (score n) max)) in
    let! (u0, _) := at_level U 0 in
    Done (Some u0)
  else Done None.

(** ** Release: the members freed, and what is left of the memory *)

Fixpoint free_loop (fuel : nat) (h : heap) (x : option ptr) : out (list (list Z) * heap) :=
  match fuel with
  | O => NoFuel
  | S f =>
      match x with
      | None => Done ([], h)
      | Some x =>
          let! (next, _) := level_at h x 0 in
          let! (m, h) := slFreeNode h x in
          let! (ms, h) := free_loop f h next in
          Done (m :: ms, h)
      end
  end.

Definition slFree (sl : skiplist) : out (list (list Z) * heap) :=
  let! (forward, _) := level_at (mem sl) (header sl) 0 in
  free_loop (walk_fuel sl) (delete (header sl) (mem sl)) forward.

(** ** The Lua interface *)

(** [_delete_by_rank]: the bounds are truncated to 32 bits and ordered. *)
Definition delete_by_rank (sl : skiplist) (a b : Z) : out (list (list Z) * skiplist) :=
  let start := u32 a in
  let end_ := u32 b in
  if end_ <? start then slDeleteByRank sl end_ start else slDeleteByRank sl start end_.

(** [_get_rank]: no result for rank 0. *)
Definition get_rank (sl : skiplist) (s : spec_float) (o : list Z) : out (option Z) :=
  let! rank := slGetRank sl s o in
  Done (if rank =? 0 then None else Some rank).

Definition next_node (h : heap) (reverse : bool) (x : ptr) : out (option ptr) :=
  let! n := deref h x in
  if reverse then Done (backward n)
  else let! (forward, _) := level_of n 0 in Done forward.

Fixpoint range_loop (n : nat) (h : heap) (reverse : bool) (x : option ptr) : out (list (list Z)) :=
  match n, x with
  | S n, Some x =>
      let! nx := deref h x in
      let! m := member nx in
      let! y := next_node h reverse x in
      let! rest := range_loop n h reverse y in
      Done (m :: rest)
  | _, _ => Done []
  end.

Definition get_rank_range (sl : skiplist) (a b : Z) : out (list (list Z)) :=
  let r1 := u64 a in
  let r2 := u64 b in
  let '(reverse, rangelen) :=
    if r1 <=? r2 then (false, i32 (u64 (r2 - r1 + 1))) else (true, i32 (u64 (r1 - r2 + 1))) in
  let! x := slGetNodeByRank sl r1 in
  range_loop (Z.to_nat rangelen) (mem sl) reverse x.

Fixpoint score_loop (fuel : nat) (h : heap) (reverse : bool) (stop : spec_float) (x : option ptr)
    : out (list (list Z)) :=
  match fuel with
  | O => NoFuel
  | S f =>
      match x with
      | None => Done []
      | Some x =>
          let! nx := deref h x in
          if (if reverse then SFltb (score nx) stop else SFltb stop (score nx)) then Done []
          else
            let! m := member nx in
            let! y := next_node h reverse x in
            let! rest := score_loop f h reverse stop y in
            Done (m :: rest)
      end
  end.

Definition get_score_range (sl : skiplist) (s1 s2 : spec_float) : out (list (list Z)) :=
  if SFleb s1 s2 then
    let! x := slFirstInRange sl s1 s2 in
    score_loop (walk_fuel sl) (mem sl) false s2 x
  else
    let! x := slLastInRange sl s2 s1 in
    score_loop (walk_fuel sl) (mem sl) true s2 x.

End Skiplist.
