(* ===== verification/SkiplistCells.v ===== *)
(** * The shape of the skip list

    What the heap of skiplist.c stands for: a sequence of cells, the header
    first; the forward pointer and the span of a cell at a level are a function of
    the cells behind it ([link]). The search loops stop, at every level, at the
    last cell high enough in front of the cut. *)
From Stdlib Require Import Floats.SpecFloat.
From S2P Require Import Prelude Libc Skiplist.
Import Skiplist.

Record cell := Cell {
  cp : ptr;
  cobj : option (list Z);
  cscore : spec_float;
  cheight : nat;   (** the levels that are part of the list *)
  csize : nat      (** the levels the node has *)
}.

(** ** Links *)
Section links.
Implicit Types (F G B R : list cell) (c d : cell) (i : nat).

(** The next cell that reaches above level [i], and the distance to it; without
    one, NULL and the distance to the last cell. *)
Fixpoint link i F : option ptr * Z :=
  match F with
  | [] => (None, 0)
  | c :: F => if (i <? cheight c)%nat then (Some (cp c), 1) else ((link i F).1, (link i F).2 + 1)
  end.

(** No cell of [F] reaches above level [i]. *)
Definition low i F : Prop := Forall (fun c => (cheight c ≤ i)%nat) F.

Lemma link_low i F G : low i F → link i (F ++ G) = ((link i G).1, (link i G).2 + len F).
Proof.
  induction 1 as [|c F Hc HF IH]; cbn [app link length].
  - destruct (link i G). f_equal. simpl. lia.
  - destruct (Nat.ltb_spec i (cheight c)); [lia|]. rewrite IH. simpl. f_equal. lia.
Qed.

Lemma link_low_nil i F : low i F → link i F = (None, len F).
Proof. intros HF. rewrite <- (app_nil_r F) at 1. by rewrite link_low. Qed.

Lemma link_high i F c G : low i F → (i < cheight c)%nat →
  link i (F ++ c :: G) = (Some (cp c), len F + 1).
Proof.
  intros HF Hc. rewrite link_low by done. cbn [link].
  destruct (Nat.ltb_spec i (cheight c)); [|lia]. f_equal. simpl. lia.
Qed.

Lemma low_split i F :
  low i F ∨ ∃ G1 c G2, F = G1 ++ c :: G2 ∧ low i G1 ∧ (i < cheight c)%nat.
Proof.
  induction F as [|c F [IH|(G1 & d & G2 & -> & Hl & Hd)]]; [by left; constructor| |].
  - destruct (decide (i < cheight c)%nat); [right; exists [], c, F; by repeat constructor|left; constructor; [lia|done]].
  - right. destruct (decide (i < cheight c)%nat); [exists [], c, (G1 ++ d :: G2); by repeat constructor|].
    exists (c :: G1), d, G2. split; [done|]. split; [constructor; [lia|done]|done].
Qed.

(** A high cell hides what is behind it. *)
Lemma link_hides i F c G R R' : (i < cheight c)%nat →
  link i ((F ++ c :: G) ++ R) = link i ((F ++ c :: G) ++ R').
Proof.
  intros Hc. induction F as [|d F IH]; cbn [app link].
  - destruct (Nat.ltb_spec i (cheight c)); [done|lia].
  - destruct (i <? cheight d)%nat; [done|]. by rewrite IH.
Qed.

Lemma link_None i F : (link i F).1 = None ↔ low i F.
Proof.
  induction F as [|c F IH]; cbn [link]; [split; [constructor|done]|].
  unfold low. rewrite Forall_cons. destruct (Nat.ltb_spec i (cheight c)); simpl.
  - split; [done|lia].
  - rewrite IH. split; [|tauto]. split; [lia|done].
Qed.

Lemma link_Some i F p : (link i F).1 = Some p → p ∈ cp <$> F.
Proof.
  induction F as [|c F IH]; cbn [link]; [done|]. rewrite fmap_cons, elem_of_cons.
  destruct (i <? cheight c)%nat; simpl; [left; congruence|by right; apply IH].
Qed.

Lemma link_range i F : 0 ≤ (link i F).2 ≤ len F.
Proof.
  induction F as [|c F IH]; cbn [link length]; [simpl; lia|].
  destruct (i <? cheight c)%nat; simpl; lia.
Qed.

(** Two places in a list: the same one, or one behind the other. *)
Lemma places F1 c F2 G1 d G2 : F1 ++ c :: F2 = G1 ++ d :: G2 →
  (F1 = G1 ∧ c = d ∧ F2 = G2) ∨ (∃ K, F2 = K ++ d :: G2) ∨ (∃ K, G2 = K ++ c :: F2).
Proof.
  revert G1. induction F1 as [|e F1 IH]; intros [|e' G1] Heq; cbn [app] in Heq; injection Heq as -> Heq;
    [subst; by left| | |].
  - subst. right; left. by exists G1.
  - subst. right; right. by exists F1.
  - destruct (IH G1 Heq) as [(-> & -> & ->)|H]; [by left|by right].
Qed.
End links.

(** ** Memory that holds a list of cells *)
Section shape.
Implicit Types (F G B R : list cell) (c d : cell) (i : nat) (h : heap).
Implicit Types (lk : nat → list cell → option ptr * Z).

(** The node of [c] in memory; [lk] gives its links from the cells behind it. *)
Definition node_ok h lk c F : Prop := ∃ n,
  h !! cp c = Some n ∧ obj n = cobj c ∧ score n = cscore c ∧
  length (levels n) = csize c ∧ (cheight c ≤ csize c)%nat ∧
  ∀ i, (i < cheight c)%nat → levels n !! i = Some (lk i F).

Fixpoint shaped h lk F : Prop :=
  match F with
  | [] => True
  | c :: F => node_ok h lk c F ∧ shaped h lk F
  end.

Lemma shaped_at h lk F1 c F2 : shaped h lk (F1 ++ c :: F2) → node_ok h lk c F2.
Proof. induction F1; simpl; tauto. Qed.

Lemma shaped_intro h lk F :
  (∀ F1 c F2, F = F1 ++ c :: F2 → node_ok h lk c F2) → shaped h lk F.
Proof.
  induction F as [|c F IH]; intros HF; [done|]. split; [by apply (HF [])|].
  apply IH. intros F1 d F2 ->. by apply (HF (c :: F1)).
Qed.

Lemma shaped_app h F R :
  shaped h link (F ++ R) ↔ shaped h (fun i G => link i (G ++ R)) F ∧ shaped h link R.
Proof.
  induction F as [|c F IH]; simpl; [tauto|]. rewrite IH. unfold node_ok. tauto.
Qed.

Lemma node_ok_ext h lk lk' c F :
  (∀ i, (i < cheight c)%nat → lk i F = lk' i F) → node_ok h lk c F → node_ok h lk' c F.
Proof.
  intros Heq (n & ? & ? & ? & ? & ? & Hl). exists n. split_and!; try done.
  intros i Hi. rewrite <- Heq by done. by apply Hl.
Qed.

Lemma shaped_ext h lk lk' F :
  (∀ F1 c F2 i, F = F1 ++ c :: F2 → (i < cheight c)%nat → lk i F2 = lk' i F2) →
  shaped h lk F → shaped h lk' F.
Proof.
  intros Heq HF. apply shaped_intro. intros F1 c F2 ->.
  eapply node_ok_ext; [|by eapply shaped_at]. intros i Hi. by eapply Heq.
Qed.

(** Only the nodes of the cells matter. *)
Lemma shaped_frame h h' lk F :
  (∀ p, p ∈ cp <$> F → h' !! p = h !! p) → shaped h lk F → shaped h' lk F.
Proof.
  intros Heq HF. apply shaped_intro. intros F1 c F2 ->.
  destruct (shaped_at _ _ _ _ _ HF) as (n & Hn & ?). exists n. rewrite Heq; [done|].
  apply list_elem_of_fmap. exists c. split; [done|]. apply elem_of_app. right. by left.
Qed.

Lemma node_level h lk c F i :
  node_ok h lk c F → (i < cheight c)%nat → level_at h (cp c) i = Done (lk i F).
Proof.
  intros (n & Hn & _ & _ & _ & _ & Hl) Hi. unfold level_at, deref, level_of. rewrite Hn. simpl.
  by rewrite Hl.
Qed.

(** What a store to a level changes. *)
Record touched h (p : ptr) (i : nat) (l : option ptr * Z) h' : Prop := {
  tc_other : ∀ q, q ≠ p → h' !! q = h !! q;
  tc_node : ∃ n, h !! p = Some n ∧ h' !! p = Some (set_levels (<[i := l]> (levels n)) n) ∧
    (i < length (levels n))%nat
}.

Lemma set_level_touched h p i l n :
  h !! p = Some n → (i < length (levels n))%nat →
  ∃ h', set_level h p i l = Done h' ∧ touched h p i l h'.
Proof.
  intros Hn Hi. destruct (lookup_lt_is_Some_2 _ _ Hi) as [old Hold].
  eexists. unfold set_level, deref, level_of. rewrite Hn. simpl. rewrite Hold. simpl.
  split; [done|]. split.
  - intros q Hq. by apply lookup_insert_ne.
  - exists n. split; [done|]. split; [by rewrite lookup_insert_eq|done].
Qed.

(** Replacing the link of one cell at level [i]. *)
Lemma shaped_touch h lk lk' F F1 c F2 i h' :
  shaped h lk F → NoDup (cp <$> F) → F = F1 ++ c :: F2 → (i < cheight c)%nat →
  touched h (cp c) i (lk' i F2) h' →
  (∀ j G, j ≠ i → lk' j G = lk j G) →
  (∀ d K G2, ((F2 = K ++ d :: G2) ∨ (G2 = K ++ c :: F2)) → (i < cheight d)%nat → lk' i G2 = lk i G2) →
  shaped h' lk' F.
Proof.
  intros HF Hnd -> Hi [Hoth (n & Hn & Hn' & Hlen)] Hj Hd.
  apply shaped_intro. intros G1 d G2 Heq.
  pose proof HF as Hat. rewrite Heq in Hat. apply shaped_at in Hat.
  assert (cp d ≠ cp c → (∀ K, F2 = K ++ d :: G2 ∨ G2 = K ++ c :: F2 → node_ok h' lk' d G2)) as Hcase.
  { intros Hne K HK. destruct Hat as (m & Hm & Ho & Hs & Hl & Hh & Hlv).
    exists m. rewrite Hoth by done. split_and!; try done. intros j Hjd. rewrite Hlv by done.
    f_equal. destruct (decide (j = i)) as [->|Hji]; [|by rewrite Hj].
    symmetry. by eapply Hd. }
  destruct (places _ _ _ _ _ _ Heq) as [(-> & -> & ->)|[[K ->]|[K ->]]].
  - destruct Hat as (m & Hm & Ho & Hs & Hl & Hh & Hlv). rewrite Hn in Hm. simplify_eq.
    eexists. split; [exact Hn'|]. simpl. split_and!; try done; [by rewrite length_insert|].
    intros j Hjd. destruct (decide (j = i)) as [->|Hji].
    + by rewrite list_lookup_insert_eq.
    + rewrite list_lookup_insert_ne by done. rewrite Hlv, Hj by done. done.
  - eapply Hcase; [|by left]. intros Hx. rewrite fmap_app, fmap_cons, fmap_app, fmap_cons in Hnd.
    apply NoDup_app in Hnd as (_ & _ & Hnd). apply NoDup_cons in Hnd as [Hni _].
    apply Hni. rewrite <- Hx. set_solver.
  - eapply Hcase; [|by right]. intros Hx. rewrite Heq in Hnd.
    rewrite fmap_app, fmap_cons, fmap_app, fmap_cons in Hnd.
    apply NoDup_app in Hnd as (_ & _ & Hnd). apply NoDup_cons in Hnd as [Hni _].
    apply Hni. rewrite Hx. set_solver.
Qed.
End shape.

(** ** Searching *)
Section search.
Context (h : heap) (FA B : list cell) (adv : Z → node → out bool).
Implicit Types (F G : list cell) (c d : cell) (i : nat).

(** The last cell of [FA] that reaches above level [i]. *)
Definition stop i (u : ptr * Z) : Prop := ∃ G1 d G2,
  FA = G1 ++ d :: G2 ∧ (i < cheight d)%nat ∧ low i G2 ∧ u = (cp d, len G1).

Hypothesis Hshape : shaped h link (FA ++ B).
Hypothesis Hyes : ∀ G1 d G2 n, FA = G1 ++ d :: G2 → G1 ≠ [] →
  obj n = cobj d → score n = cscore d → adv (len G1) n = Done true.
Hypothesis Hno : ∀ G1 d G2 n, B = G1 ++ d :: G2 →
  obj n = cobj d → score n = cscore d → adv (len FA + len G1) n = Done false.

Lemma walk_spec fuel i F1 c F2 :
  FA = F1 ++ c :: F2 → (i < cheight c)%nat → (length F2 < fuel)%nat →
  ∃ G1 d G2, FA = G1 ++ d :: G2 ∧ (i < cheight d)%nat ∧ low i G2 ∧
    walk fuel h adv i (cp c) (len F1) = Done (cp d, len G1).
Proof.
  revert F1 c F2. induction fuel as [|fuel IH]; intros F1 c F2 HFA Hi Hfuel; [lia|].
  cbn [walk]. pose proof Hshape as Hsh. rewrite HFA, <- app_assoc in Hsh. cbn [app] in Hsh.
  rewrite (node_level _ _ _ _ i (shaped_at _ _ _ _ _ Hsh) Hi). cbn [obind].
  destruct (low_split i F2) as [Hlow|(K1 & d & K2 & -> & HK & Hd)].
  - rewrite link_low by done.
    destruct (low_split i B) as [HB|(K1 & d & K2 & HB & HK & Hd)].
    + rewrite link_low_nil by done. simpl. by exists F1, c, F2.
    + rewrite HB, link_high by done. cbn [fst snd]. rewrite HB in Hsh.
      rewrite app_comm_cons, !app_assoc in Hsh.
      destruct (shaped_at _ _ _ _ _ Hsh) as (n & Hn & Ho & Hs & _).
      unfold deref at 1. rewrite Hn. cbn [obind].
      replace (len F1 + (len K1 + 1 + len F2)) with (len FA + len K1).
      2: { rewrite HFA, length_app. simpl. lia. }
      rewrite (Hno K1 d K2 n) by done. cbn [obind]. by exists F1, c, F2.
  - rewrite <- app_assoc. cbn [app]. rewrite link_high by done. cbn [fst snd].
    rewrite <- app_assoc in Hsh. cbn [app] in Hsh.
    rewrite app_comm_cons, app_assoc in Hsh.
    destruct (shaped_at _ _ _ _ _ Hsh) as (n & Hn & Ho & Hs & _).
    unfold deref at 1. rewrite Hn. cbn [obind].
    assert (FA = (F1 ++ c :: K1) ++ d :: K2) as HFA' by (by rewrite HFA, <- app_assoc).
    replace (len F1 + (len K1 + 1)) with (len (F1 ++ c :: K1)) by (rewrite length_app; simpl; lia).
    rewrite (Hyes (F1 ++ c :: K1) d K2 n HFA') by (done || by destruct F1). cbn [obind].
    apply (IH _ _ _ HFA' Hd). rewrite length_app in Hfuel. simpl in Hfuel. lia.
Qed.

Lemma descend_spec k fuel F1 c F2 :
  FA = F1 ++ c :: F2 → (k ≤ cheight c)%nat → (length FA ≤ fuel)%nat →
  ∃ U, descend k fuel h adv (cp c) (len F1) = Done U ∧ length U = k ∧
    ∀ i, (i < k)%nat → ∃ u, U !! i = Some u ∧ stop i u.
Proof.
  revert F1 c F2. induction k as [|k IH]; intros F1 c F2 HFA Hk Hfuel; [by exists []; split_and!; [| |lia]|].
  cbn [descend].
  destruct (walk_spec fuel k F1 c F2) as (G1 & d & G2 & HG & Hd & Hlow & ->); [done|lia| |].
  { rewrite HFA, length_app in Hfuel. simpl in Hfuel. lia. }
  cbn [obind]. destruct (IH G1 d G2 HG) as (U & -> & HU & Hst); [lia|done|].
  eexists. split; [done|]. rewrite length_app. simpl. split; [lia|].
  intros i Hi. destruct (decide (i = k)) as [->|].
  - exists (cp d, len G1). rewrite lookup_app_r, HU, Nat.sub_diag by lia. split; [done|].
    by exists G1, d, G2.
  - rewrite lookup_app_l by lia. apply Hst. lia.
Qed.
End search.
