(* ===== verification/SkiplistInv.v ===== *)
(** * The invariant of the skip list, and its loops

    [rep sl L]: the skip list stands for the cells [L]. The linking loops of the
    insertion and the deletion rewrite the cells in front of the cut, one level
    after the other. *)
From Stdlib Require Import Floats.SpecFloat.
From S2P Require Import Prelude Libc Skiplist SkiplistCells.
Import Skiplist.

(** The header as a cell. *)
Definition hd_cell (p : ptr) (level : nat) : cell := Cell p None zero level SKIPLIST_MAXLEVEL.
Definition hd (sl : skiplist) : cell := hd_cell (header sl) (level sl).

(** The address in front of a list, as [backward] has it. *)
Definition front (b : option ptr) (F : list cell) : option ptr :=
  match last F with Some c => Some (cp c) | None => b end.

Fixpoint backs (h : heap) (b : option ptr) (F : list cell) : Prop :=
  match F with
  | [] => True
  | c :: F => backward <$> h !! cp c = Some b ∧ backs h (Some (cp c)) F
  end.

Definition cell_ok (level : nat) (c : cell) : Prop :=
  is_Some (cobj c) ∧ (1 ≤ cheight c ≤ level)%nat ∧ csize c = cheight c.

(** The levels of the header above the level of the list lead nowhere. *)
Definition top_free (h : heap) (p : ptr) (level : nat) : Prop :=
  ∀ n i, h !! p = Some n → (level ≤ i < SKIPLIST_MAXLEVEL)%nat → ∃ s, levels n !! i = Some (None, s).

Record rep (sl : skiplist) (L : list cell) : Prop := {
  rp_shape : shaped (mem sl) link (hd sl :: L);
  rp_top : top_free (mem sl) (header sl) (level sl);
  rp_back : backs (mem sl) None L;
  rp_nodup : NoDup (header sl :: (cp <$> L));
  rp_tail : tail sl = cp <$> last L;
  rp_length : length_ sl = len L;
  rp_level : (1 ≤ level sl ≤ SKIPLIST_MAXLEVEL)%nat;
  rp_cells : Forall (cell_ok (level sl)) L;
  rp_dom : ∀ p, is_Some (mem sl !! p) ↔ p ∈ header sl :: (cp <$> L)
}.

Section lemmas.
Implicit Types (F G B R FA : list cell) (c d x : cell) (i m : nat) (h : heap).

Lemma front_app b F G : front b (F ++ G) = front (front b F) G.
Proof.
  unfold front. destruct G as [|c G] using rev_ind; [by rewrite app_nil_r|].
  by rewrite app_assoc, !last_snoc.
Qed.

Lemma front_cons b c F : front b (c :: F) = front (Some (cp c)) F.
Proof. apply (front_app b [c] F). Qed.

Lemma backs_app h b F G : backs h b (F ++ G) ↔ backs h b F ∧ backs h (front b F) G.
Proof.
  revert b. induction F as [|c F IH]; intros b; simpl; [tauto|]. rewrite IH, front_cons. tauto.
Qed.

Lemma backs_frame h h' b F :
  (∀ p, p ∈ cp <$> F → backward <$> h' !! p = backward <$> h !! p) → backs h b F → backs h' b F.
Proof.
  revert b. induction F as [|c F IH]; intros b Heq; simpl; [done|].
  rewrite fmap_cons in Heq. intros [Hc HF]. split; [rewrite Heq; [done|by left]|].
  apply IH; [|done]. intros p Hp. apply Heq. by right.
Qed.

(** The parts of the memory that the loops leave alone: the nodes outside [P], the
    backward pointers, the levels from [k] on. *)
Definition kept (P : list ptr) (k : nat) h h' : Prop := ∀ q,
  (q ∉ P → h' !! q = h !! q) ∧
  match h !! q with
  | None => h' !! q = None
  | Some n => ∃ n', h' !! q = Some n' ∧ backward n' = backward n ∧
      ∀ j, (k ≤ j)%nat → levels n' !! j = levels n !! j
  end.

Lemma kept_refl P k h : kept P k h h.
Proof. intros q. split; [done|]. destruct (h !! q); [by eexists|done]. Qed.

Lemma kept_trans P k h1 h2 h3 : kept P k h1 h2 → kept P k h2 h3 → kept P k h1 h3.
Proof.
  intros H1 H2 q. destruct (H1 q) as [H1o H1n], (H2 q) as [H2o H2n]. split.
  - intros Hq. by rewrite H2o, H1o.
  - destruct (h1 !! q) as [n1|]; [|by rewrite H1n in H2n].
    destruct H1n as (n2 & Hn2 & Hb & Hl). rewrite Hn2 in H2n.
    destruct H2n as (n3 & Hn3 & Hb3 & Hl3). exists n3. split; [done|]. split; [congruence|].
    intros j Hj. by rewrite Hl3, Hl.
Qed.

Lemma kept_mono P P' k k' h h' : P ⊆ P' → (k ≤ k')%nat → kept P k h h' → kept P' k' h h'.
Proof.
  intros HP Hk H q. destruct (H q) as [Ho Hn]. split; [intros Hq; apply Ho; set_solver|].
  destruct (h !! q); [|done]. destruct Hn as (n' & ? & ? & Hl). exists n'. split_and!; try done.
  intros j Hj. apply Hl. lia.
Qed.

Lemma touched_kept P k h p i l h' : touched h p i l h' → p ∈ P → (i < k)%nat → kept P k h h'.
Proof.
  intros [Ho (n & Hn & Hn' & _)] Hp Hi q. split; [intros Hq; apply Ho; set_solver|].
  destruct (decide (q = p)) as [->|Hq].
  - rewrite Hn. eexists. split; [exact Hn'|]. split; [done|]. intros j Hj. simpl.
    apply list_lookup_insert_ne. lia.
  - rewrite Ho by done. destruct (h !! q); [by eexists|done].
Qed.

Lemma kept_backward P k h h' q : kept P k h h' → backward <$> h' !! q = backward <$> h !! q.
Proof.
  intros H. destruct (H q) as [_ Hn]. destruct (h !! q); [|by rewrite Hn].
  destruct Hn as (n' & -> & Hb & _). simpl. by rewrite Hb.
Qed.

Lemma kept_dom P k h h' q : kept P k h h' → is_Some (h' !! q) ↔ is_Some (h !! q).
Proof.
  intros H. destruct (H q) as [_ Hn]. destruct (h !! q); [|by rewrite Hn].
  destruct Hn as (n' & -> & _). split; by eexists.
Qed.

Lemma kept_top P k h h' p : kept P k h h' → top_free h p k → top_free h' p k.
Proof.
  intros H Ht n' i Hn' Hi. destruct (H p) as [_ Hn]. destruct (h !! p) as [n|] eqn:Hp.
  - destruct Hn as (n'' & Hn'' & _ & Hl). simplify_eq. rewrite Hl by lia. by apply (Ht n).
  - congruence.
Qed.

(** ** Replacing the cells behind [FA] *)

(** The links of the levels below [m] lead to [R'], the others still to [R]. *)
Definition mix m R R' : nat → list cell → option ptr * Z :=
  fun i G => if (i <? m)%nat then link i (G ++ R') else link i (G ++ R).

Lemma mix_start h R R' FA : shaped h (fun i G => link i (G ++ R)) FA → shaped h (mix 0 R R') FA.
Proof. apply shaped_ext. done. Qed.

Lemma mix_end h m R R' FA :
  Forall (fun c => (cheight c ≤ m)%nat) FA →
  shaped h (mix m R R') FA → shaped h (fun i G => link i (G ++ R')) FA.
Proof.
  intros HF. apply shaped_ext. intros F1 c F2 i -> Hi. unfold mix.
  apply Forall_app in HF as [_ HF]. apply Forall_cons in HF as [Hc _].
  destruct (Nat.ltb_spec i m); [done|lia].
Qed.

Lemma stop_distance FA i u r : stop FA i (u, r) → 0 ≤ len FA - 1 - r < len FA.
Proof.
  intros (G1 & d & G2 & -> & _ & _ & [= -> ->]). rewrite length_app. simpl. lia.
Qed.

(** One level: what the loops read, and what they have to write. *)
Lemma mix_step h m R R' FA u r :
  shaped h (mix m R R') FA → NoDup (cp <$> FA) → stop FA m (u, r) →
  let dist := len FA - 1 - r in
  level_at h u m = Done ((link m R).1, (link m R).2 + dist) ∧ u ∈ cp <$> FA ∧
  ∃ h', set_level h u m ((link m R').1, (link m R').2 + dist) = Done h' ∧
    shaped h' (mix (S m) R R') FA ∧
    touched h u m ((link m R').1, (link m R').2 + dist) h'.
Proof.
  intros Hsh Hnd (G1 & d & G2 & HFA & Hd & Hlow & [= -> ->]) dist.
  assert (dist = len G2) as Hdist by (unfold dist; rewrite HFA, length_app; simpl; lia).
  pose proof Hsh as Hat. rewrite HFA in Hat. apply shaped_at in Hat.
  assert (mix m R R' m G2 = ((link m R).1, (link m R).2 + dist)) as Hold.
  { unfold mix. rewrite Nat.ltb_irrefl, link_low, Hdist by done. done. }
  assert (mix (S m) R R' m G2 = ((link m R').1, (link m R').2 + dist)) as Hnew.
  { unfold mix. destruct (Nat.ltb_spec m (S m)); [|lia]. rewrite link_low, Hdist by done. done. }
  split; [rewrite (node_level _ _ _ _ _ Hat Hd); by rewrite Hold|].
  split; [rewrite HFA, fmap_app, fmap_cons; set_solver|].
  destruct Hat as (n & Hn & _ & _ & Hlen & Hle & _).
  destruct (set_level_touched h (cp d) m ((link m R').1, (link m R').2 + dist) n Hn ltac:(lia))
    as (h' & Hset & Ht).
  exists h'. split; [done|]. split; [|done]. rewrite <- Hnew in Ht.
  eapply (shaped_touch h (mix m R R') _ FA G1 d G2 m); try done.
  - intros j G Hj. unfold mix. destruct (Nat.ltb_spec j m), (Nat.ltb_spec j (S m)); done || lia.
  - intros e K K2 [HK|HK] He.
    + rewrite HK in Hlow. apply Forall_app in Hlow as [_ Hl]. apply Forall_cons in Hl as [? _]. lia.
    + unfold mix. rewrite Nat.ltb_irrefl. destruct (Nat.ltb_spec m (S m)); [|lia].
      rewrite HK. by apply link_hides.
Qed.

Definition stops FA (U : list (ptr * Z)) (k : nat) : Prop :=
  ∀ i, (i < k)%nat → ∃ u, U !! i = Some u ∧ stop FA i u.

Lemma u32_small z : 0 ≤ z < 2 ^ 32 → u32 z = z.
Proof. apply wrap_small. Qed.

Lemma u32_add_r a b : u32 (a + u32 b) = u32 (a + b).
Proof. unfold wrap. by rewrite Z.add_mod_idemp_r by lia. Qed.

Lemma u32_sub_r a b : u32 (a - u32 b) = u32 (a - b).
Proof. unfold wrap. by rewrite Zminus_mod_idemp_r. Qed.

(** The loop of [slDeleteNode]. *)
Lemma unlink_loop_spec (n : nat) m h FA x B U :
  shaped h (mix m (x :: B) B) FA → shaped h link (x :: B) →
  NoDup (cp <$> FA ++ x :: B) → stops FA U (m + n) → len (FA ++ x :: B) < 2 ^ 32 →
  ∃ h', unlink_loop n m h U (cp x) = Done h' ∧ shaped h' (mix (m + n) (x :: B) B) FA ∧
    kept (cp <$> FA) (m + n) h h'.
Proof.
  change (2 ^ 32) with 4294967296.
  revert m h. induction n as [|n IH]; intros m h Hsh Hx Hnd Hst Hlen.
  { exists h. rewrite Nat.add_0_r. split; [done|]. split; [done|apply kept_refl]. }
  cbn [unlink_loop]. destruct (Hst m ltac:(lia)) as ([u r] & Hu & Hstop).
  unfold at_level. rewrite Hu. cbn [obind].
  rewrite fmap_app, fmap_cons in Hnd. apply NoDup_app in Hnd as (HndA & Hdis & HndB).
  apply NoDup_cons in HndB as [HxB HndB].
  destruct (mix_step h m (x :: B) B FA u r Hsh HndA Hstop) as (Hlv & HuA & h' & Hset & Hsh' & Ht).
  pose proof (stop_distance _ _ _ _ Hstop) as Hdist. set (dist := len FA - 1 - r) in *.
  rewrite Hlv. cbn [obind fst snd]. rewrite length_app in Hlen. cbn [length] in Hlen.
  pose proof (link_range m B) as HrB.
  assert (∀ q, q ∉ cp <$> FA → h' !! q = h !! q) as Hout.
  { intros q Hq. apply (tc_other _ _ _ _ _ Ht). set_solver. }
  match goal with |- context [obind ?body _] =>
    assert (body = Done h') as -> end.
  { cbn [link]. destruct (Nat.ltb_spec m (cheight x)) as [Hlt|Hge]; cbn [fst snd].
    - rewrite decide_True by done. destruct Hx as [Hx _].
      rewrite (node_level _ _ _ _ _ Hx Hlt). cbn [obind].
      destruct (link m B) as [xforward xspan]. cbn [fst snd] in *.
      rewrite u32_add_r, u32_small by (change (2 ^ 32) with 4294967296; lia).
      rewrite <- Hset. do 2 f_equal. lia.
    - rewrite decide_False.
      + rewrite u32_small by (change (2 ^ 32) with 4294967296; lia). rewrite <- Hset. do 2 f_equal. lia.
      + intros Hf%link_Some. done. }
  cbn [obind].
  destruct (IH (S m) h') as (h'' & -> & Hsh'' & Hk); try done.
  - apply (shaped_frame h); [|done]. intros q Hq. apply Hout. intros Hq'.
    apply (Hdis q Hq'). by rewrite <- fmap_cons.
  - rewrite fmap_app, fmap_cons. apply NoDup_app. split_and!; [done|done|]. by apply NoDup_cons.
  - by replace (S m + n)%nat with (m + S n)%nat by lia.
  - rewrite length_app. cbn [length]. lia.
  - exists h''. replace (m + S n)%nat with (S m + n)%nat by lia. split; [done|]. split; [done|].
    eapply kept_trans; [|exact Hk]. eapply touched_kept; [done|done|lia].
Qed.

(** The second loop of [slInsert]: the levels above the new node [x]. *)
Lemma span_loop_spec (n : nat) m h FA x B U :
  shaped h (mix m B (x :: B)) FA → (cheight x ≤ m)%nat →
  NoDup (cp <$> FA) → stops FA U (m + n) → len (FA ++ B) + 1 < 2 ^ 32 →
  ∃ h', span_loop n m h U = Done h' ∧ shaped h' (mix (m + n) B (x :: B)) FA ∧
    kept (cp <$> FA) (m + n) h h'.
Proof.
  change (2 ^ 32) with 4294967296.
  revert m h. induction n as [|n IH]; intros m h Hsh Hx Hnd Hst Hlen.
  { exists h. rewrite Nat.add_0_r. split; [done|]. split; [done|apply kept_refl]. }
  cbn [span_loop]. destruct (Hst m ltac:(lia)) as ([u r] & Hu & Hstop).
  unfold at_level. rewrite Hu. cbn [obind].
  destruct (mix_step h m B (x :: B) FA u r Hsh Hnd Hstop) as (Hlv & HuA & h' & Hset & Hsh' & Ht).
  pose proof (stop_distance _ _ _ _ Hstop) as Hdist. set (dist := len FA - 1 - r) in *.
  rewrite Hlv. cbn [obind fst snd]. rewrite length_app in Hlen.
  pose proof (link_range m B) as HrB. cbn [link] in Hset.
  destruct (Nat.ltb_spec m (cheight x)); [lia|]. cbn [fst snd] in Hset.
  rewrite u32_small by (change (2 ^ 32) with 4294967296; lia).
  replace ((link m B).2 + dist + 1) with ((link m B).2 + 1 + dist) by lia. rewrite Hset. cbn [obind].
  destruct (IH (S m) h') as (h'' & -> & Hsh'' & Hk); try done; [lia| |by rewrite length_app|].
  - by replace (S m + n)%nat with (m + S n)%nat by lia.
  - exists h''. replace (m + S n)%nat with (S m + n)%nat by lia. split; [done|]. split; [done|].
    eapply kept_trans; [|exact Hk]. eapply touched_kept; [done|done|lia].
Qed.

(** The first: the levels of [x] itself. *)
Definition partial_node h x B m lv : Prop := ∃ n,
  h !! cp x = Some n ∧ obj n = cobj x ∧ score n = cscore x ∧ length (levels n) = lv ∧
  ∀ i, (i < m)%nat → levels n !! i = Some (link i B).

Lemma link_loop_spec (n : nat) m h FA x B U :
  shaped h (mix m B (x :: B)) FA → partial_node h x B m (m + n) → cheight x = (m + n)%nat →
  NoDup (cp <$> FA) → cp x ∉ cp <$> FA → stops FA U (m + n) → len (FA ++ B) + 1 < 2 ^ 32 →
  ∃ h', link_loop n m h U (cp x) (len FA - 1) = Done h' ∧
    shaped h' (mix (m + n) B (x :: B)) FA ∧ partial_node h' x B (m + n) (m + n) ∧
    kept (cp x :: (cp <$> FA)) (m + n) h h'.
Proof.
  change (2 ^ 32) with 4294967296.
  revert m h. induction n as [|n IH]; intros m h Hsh Hx Hh Hnd Hni Hst Hlen.
  { exists h. rewrite Nat.add_0_r in *. split_and!; try done. apply kept_refl. }
  cbn [link_loop]. destruct (Hst m ltac:(lia)) as ([u r] & Hu & Hstop).
  unfold at_level. rewrite Hu. cbn [obind].
  pose proof (stop_distance _ _ _ _ Hstop) as Hdist.
  destruct (mix_step h m B (x :: B) FA u r Hsh Hnd Hstop) as (Hlv & HuA & _).
  set (dist := len FA - 1 - r) in *. rewrite Hlv. cbn [obind fst snd].
  rewrite length_app in Hlen. pose proof (link_range m B) as HrB.
  destruct Hx as (nx & Hnx & Ho & Hs & Hlx & Hi).
  rewrite u32_sub_r. replace ((link m B).2 + dist - dist) with ((link m B).2) by lia.
  rewrite (u32_small (link m B).2) by (change (2 ^ 32) with 4294967296; lia).
  destruct (set_level_touched h (cp x) m ((link m B).1, (link m B).2) nx Hnx ltac:(lia)) as (h1 & -> & Ht1).
  cbn [obind]. rewrite (u32_small dist) by (change (2 ^ 32) with 4294967296; lia).
  rewrite (u32_small (dist + 1)) by (change (2 ^ 32) with 4294967296; lia).
  assert (shaped h1 (mix m B (x :: B)) FA) as Hsh1.
  { apply (shaped_frame h); [|done]. intros q Hq. apply (tc_other _ _ _ _ _ Ht1). intros ->. done. }
  destruct (mix_step h1 m B (x :: B) FA u r Hsh1 Hnd Hstop) as (_ & _ & h' & Hset & Hsh' & Ht).
  fold dist in Hset, Ht. cbn [link] in Hset, Ht.
  destruct (Nat.ltb_spec m (cheight x)); [|lia]. cbn [fst snd] in Hset, Ht.
  rewrite Z.add_comm, Hset. cbn [obind].
  assert (cp x ≠ u) as Hxu by (intros Heq; apply Hni; by rewrite Heq).
  destruct (IH (S m) h') as (h'' & -> & Hsh'' & Hp & Hk); try done; [|lia| |by rewrite length_app|].
  - destruct Ht1 as [_ (nx' & Hnx' & Hnx1 & Hlm)]. rewrite Hnx in Hnx'. simplify_eq.
    eexists. rewrite (tc_other _ _ _ _ _ Ht) by done. split; [exact Hnx1|]. simpl.
    split_and!; try done; [rewrite length_insert; lia|].
    intros i Him. destruct (decide (i = m)) as [->|].
    + rewrite list_lookup_insert_eq by done. by destruct (link m B).
    + rewrite list_lookup_insert_ne by done. apply Hi. lia.
  - by replace (S m + n)%nat with (m + S n)%nat by lia.
  - exists h''. replace (m + S n)%nat with (S m + n)%nat by lia. split_and!; try done.
    eapply kept_trans; [|exact Hk]. eapply kept_trans.
    + eapply touched_kept; [exact Ht1|by left|lia].
    + eapply touched_kept; [exact Ht|by right|lia].
Qed.

(** Setting a backward pointer. *)
Lemma set_backward_spec h p b n :
  h !! p = Some n →
  ∃ h', set_backward h p b = Done h' ∧
    h' !! p = Some (Node (obj n) (score n) b (levels n)) ∧ ∀ q, q ≠ p → h' !! q = h !! q.
Proof.
  intros Hn. eexists. unfold set_backward, deref. rewrite Hn. cbn [obind]. split; [done|].
  split; [by rewrite lookup_insert_eq|]. intros q Hq. by apply lookup_insert_ne.
Qed.

(** The shape does not see backward pointers. *)
Definition reback h h' : Prop := ∀ q,
  match h !! q with
  | None => h' !! q = None
  | Some n => ∃ n', h' !! q = Some n' ∧ obj n' = obj n ∧ score n' = score n ∧ levels n' = levels n
  end.

Lemma reback_refl h : reback h h.
Proof. intros q. destruct (h !! q); [by eexists|done]. Qed.

Lemma reback_trans h1 h2 h3 : reback h1 h2 → reback h2 h3 → reback h1 h3.
Proof.
  intros H1 H2 q. specialize (H1 q). specialize (H2 q). destruct (h1 !! q); [|by rewrite H1 in H2].
  destruct H1 as (n2 & Hn2 & ? & ? & ?). rewrite Hn2 in H2. destruct H2 as (n3 & ? & ? & ? & ?).
  exists n3. split_and!; congruence.
Qed.

Lemma set_backward_reback h p b n h' :
  h !! p = Some n → h' !! p = Some (Node (obj n) (score n) b (levels n)) →
  (∀ q, q ≠ p → h' !! q = h !! q) → reback h h'.
Proof.
  intros Hn Hn' Ho q. destruct (decide (q = p)) as [->|Hq].
  - rewrite Hn. by eexists.
  - rewrite Ho by done. destruct (h !! q); [by eexists|done].
Qed.

Lemma reback_shaped h h' lk F : reback h h' → shaped h lk F → shaped h' lk F.
Proof.
  intros Hr HF. apply shaped_intro. intros F1 c F2 ->.
  destruct (shaped_at _ _ _ _ _ HF) as (n & Hn & Ho & Hs & Hl & Hh & Hi).
  specialize (Hr (cp c)). rewrite Hn in Hr. destruct Hr as (n' & Hn' & Ho' & Hs' & Hl').
  exists n'. split_and!; try done; congruence || by rewrite Hl'.
Qed.

Lemma reback_top h h' p k : reback h h' → top_free h p k → top_free h' p k.
Proof.
  intros Hr Ht n' i Hn' Hi. specialize (Hr p). destruct (h !! p) as [n|] eqn:Hp; [|congruence].
  destruct Hr as (n'' & Hn'' & _ & _ & Hl). simplify_eq. rewrite Hl. by apply (Ht n).
Qed.

Lemma reback_dom h h' q : reback h h' → is_Some (h' !! q) ↔ is_Some (h !! q).
Proof.
  intros Hr. specialize (Hr q). destruct (h !! q); [|by rewrite Hr].
  destruct Hr as (n' & -> & _). split; by eexists.
Qed.

Lemma reback_level h h' p i : reback h h' → level_at h' p i = level_at h p i.
Proof.
  intros Hr. specialize (Hr p). unfold level_at, deref. destruct (h !! p); [|by rewrite Hr].
  destruct Hr as (n' & -> & _ & _ & Hl). simpl. unfold level_of. by rewrite Hl.
Qed.
End lemmas.
