(* ===== verification/SkiplistOrder.v ===== *)
(** * The order of the ranking list

    Elements are ordered by score, then by member: the double comparison of C
    and [compareslObj] together are the lexicographic order of integer keys. *)
From Stdlib Require Import Floats.SpecFloat Sorting.Sorted.
From S2P Require Import Prelude Libc Skiplist SkiplistCells.
Import Skiplist.

(** ** Lexicographic order *)
Section lexicographic.
Implicit Types (a b c k : list Z).

Fixpoint lexc a b : comparison :=
  match a, b with
  | [], [] => Eq
  | [], _ => Lt
  | _, [] => Gt
  | x :: a, y :: b => match x ?= y with Eq => lexc a b | r => r end
  end.

Lemma lexc_refl a : lexc a a = Eq.
Proof. induction a as [|x a IH]; simpl; [done|]. by rewrite Z.compare_refl. Qed.

Lemma lexc_eq a b : lexc a b = Eq ↔ a = b.
Proof.
  split; [|intros ->; apply lexc_refl]. revert b.
  induction a as [|x a IH]; intros [|y b]; simpl; try done.
  destruct (Z.compare_spec x y) as [->| |]; [|done..]. intros H. f_equal. by apply IH.
Qed.

Lemma lexc_flip a b : lexc b a = CompOpp (lexc a b).
Proof.
  revert b. induction a as [|x a IH]; intros [|y b]; simpl; try done.
  rewrite (Z.compare_antisym x y). by destruct (x ?= y); simpl.
Qed.

Lemma lexc_trans a b c : lexc a b ≠ Gt → lexc b c ≠ Gt → lexc a c ≠ Gt.
Proof.
  revert b c. induction a as [|x a IH]; intros [|y b] [|z c]; simpl; try done.
  destruct (Z.compare_spec x y), (Z.compare_spec y z), (Z.compare_spec x z); try done; try lia.
  apply IH.
Qed.

Lemma lexc_lt_le_trans a b c : lexc a b = Lt → lexc b c ≠ Gt → lexc a c = Lt.
Proof.
  intros Hab Hbc. destruct (lexc a c) eqn:Hac; [|done|].
  - apply lexc_eq in Hac as ->. rewrite lexc_flip, Hab in Hbc. done.
  - exfalso. by apply (lexc_trans a b c); rewrite ?Hab.
Qed.

Lemma lexc_le_lt_trans a b c : lexc a b ≠ Gt → lexc b c = Lt → lexc a c = Lt.
Proof.
  intros Hab Hbc. destruct (lexc a c) eqn:Hac; [|done|].
  - apply lexc_eq in Hac as ->. rewrite lexc_flip, Hbc in Hab. done.
  - exfalso. by apply (lexc_trans a b c); rewrite ?Hbc.
Qed.

Lemma lexc_app k k' a b : length k = length k' →
  lexc (k ++ a) (k' ++ b) = match lexc k k' with Eq => lexc a b | r => r end.
Proof.
  revert k'. induction k as [|x k IH]; intros [|y k'] Hl; simpl in *; try done.
  destruct (x ?= y); [|done..]. apply IH. lia.
Qed.
End lexicographic.

(** ** Scores *)
Section scores.
Implicit Types (s t : spec_float).

(** Class, exponent and mantissa; both zeros have the same key. *)
Definition skey s : list Z :=
  match s with
  | S754_zero _ => [0; 0; 0]
  | S754_infinity true => [-2; 0; 0]
  | S754_infinity false => [2; 0; 0]
  | S754_finite true m e => [-1; - e; Z.neg m]
  | S754_finite false m e => [1; e; Z.pos m]
  | S754_nan => [3; 0; 0]
  end.

Definition is_number s : Prop := s ≠ S754_nan.

Lemma length_skey s : length (skey s) = 3%nat.
Proof. by destruct s as [|[]| |[]]. Qed.

Lemma SFcompare_key s t : is_number s → is_number t →
  SFcompare s t = Some (lexc (skey s) (skey t)).
Proof.
  intros Hs Ht. destruct s as [|[]| |[] m e], t as [|[]| |[] m' e']; try done; simpl.
  - rewrite Z.compare_opp, (Z.compare_antisym e e'). f_equal.
    change (PosDef.Pos.compare_cont Eq m m') with (m ?= m')%positive.
    destruct (e ?= e'); simpl; [|done..]. by destruct (m ?= m')%positive.
  - f_equal. destruct (e ?= e'); [|done..].
    change (PosDef.Pos.compare_cont Eq m m') with (m ?= m')%positive.
    by destruct (m ?= m')%positive.
Qed.

Lemma SFltb_key s t : is_number s → is_number t →
  SFltb s t = match lexc (skey s) (skey t) with Lt => true | _ => false end.
Proof. intros. unfold SFltb. by rewrite SFcompare_key. Qed.

Lemma SFeqb_key s t : is_number s → is_number t →
  SFeqb s t = match lexc (skey s) (skey t) with Eq => true | _ => false end.
Proof. intros. unfold SFeqb. by rewrite SFcompare_key. Qed.

Lemma SFleb_key s t : is_number s → is_number t →
  SFleb s t = match lexc (skey s) (skey t) with Gt => false | _ => true end.
Proof. intros. unfold SFleb. rewrite SFcompare_key by done. by destruct (lexc _ _). Qed.
End scores.

(** ** Members *)
Section members.
Implicit Types (a b m o : list Z).

(** A string whose length fits the [int] of [compareslObj]. *)
Definition small_str a : Prop := len a < 2 ^ 31.

Lemma memcmp_lexc a b :
  let c := memcmp (Nat.min (length a) (length b)) a b in
  ((if c =? 0 then len a - len b else c) ?= 0) = lexc a b.
Proof.
  cbv zeta. revert b. induction a as [|x a IH]; intros [|y b]; try done.
  cbn [length Nat.min memcmp lexc]. destruct (Z.compare_spec x y) as [->|Hlt|Hgt].
  - rewrite Z.eqb_refl. rewrite <- IH. f_equal.
    replace (Z.of_nat (S (length a)) - Z.of_nat (S (length b))) with (len a - len b) by lia. done.
  - destruct (Z.eqb_spec x y); [lia|]. destruct (Z.eqb_spec (x - y) 0); [lia|].
    apply Z.compare_lt_iff. lia.
  - destruct (Z.eqb_spec x y); [lia|]. destruct (Z.eqb_spec (x - y) 0); [lia|].
    apply Z.compare_gt_iff. lia.
Qed.

Lemma compareslObj_lexc a b : small_str a → small_str b → (compareslObj a b ?= 0) = lexc a b.
Proof.
  unfold small_str. change (2 ^ 31) with 2147483648. intros Ha Hb.
  rewrite <- memcmp_lexc. cbv zeta. unfold compareslObj.
  replace (if len a <=? len b then length a else length b) with (Nat.min (length a) (length b)).
  2: { destruct (Z.leb_spec (len a) (len b)); lia. }
  destruct (memcmp _ a b =? 0); [|done]. do 2 f_equal.
  assert (i32 (u64 (len a - len b)) = len a - len b) as ->; [|done].
  rewrite swrap_wrap by lia. apply swrap_small; [lia|].
  change (2 ^ (32 - 1)) with 2147483648. lia.
Qed.

(** ** Elements *)
Definition element : Type := spec_float * list Z.

(** Scores are numbers, members are not huge. *)
Definition element_ok (e : element) : Prop := is_number e.1 ∧ small_str e.2.

Definition key (e : element) : list Z := skey e.1 ++ e.2.

(** [e] comes before [f]. *)
Definition lt_elem (e f : element) : bool := match lexc (key e) (key f) with Lt => true | _ => false end.

Lemma key_compare e f :
  lexc (key e) (key f) = match lexc (skey e.1) (skey f.1) with Eq => lexc e.2 f.2 | r => r end.
Proof. apply lexc_app. by rewrite !length_skey. Qed.

Lemma before_spec s o n m :
  obj n = Some m → element_ok (score n, m) → element_ok (s, o) →
  before s o n = Done (lt_elem (score n, m) (s, o)).
Proof.
  intros Hm [Hn Hl] [Hs Ho]. simpl in *. unfold before, lt_elem. rewrite key_compare. cbn [fst snd].
  rewrite SFltb_key, SFeqb_key by done. destruct (lexc (skey (score n)) (skey s)); try done.
  unfold member. rewrite Hm. cbn [obind]. rewrite <- compareslObj_lexc by done.
  unfold Z.ltb. by destruct (compareslObj m o ?= 0).
Qed.

Lemma not_after_spec s o n m :
  obj n = Some m → element_ok (score n, m) → element_ok (s, o) →
  not_after s o n = Done (negb (lt_elem (s, o) (score n, m))).
Proof.
  intros Hm [Hn Hl] [Hs Ho]. simpl in *. unfold not_after, lt_elem.
  rewrite (lexc_flip (key (score n, m))), key_compare. cbn [fst snd].
  rewrite SFltb_key, SFeqb_key by done. destruct (lexc (skey (score n)) (skey s)); try done.
  unfold member. rewrite Hm. cbn [obind]. rewrite <- compareslObj_lexc by done.
  unfold Z.leb. by destruct (compareslObj m o ?= 0).
Qed.

Lemma equalslObj_spec a b : small_str a → small_str b → equalslObj a b = true ↔ a = b.
Proof.
  intros Ha Hb. unfold equalslObj. rewrite <- lexc_eq, <- compareslObj_lexc by done.
  by rewrite Z.eqb_eq, Z.compare_eq_iff.
Qed.

Lemma lt_elem_key e f : lt_elem e f = true ↔ lexc (key e) (key f) = Lt.
Proof. unfold lt_elem. by destruct (lexc _ _). Qed.

(** ** Sorted lists of elements: what the skip list stands for *)
Definition sorted (l : list element) : Prop :=
  StronglySorted (fun e f => lexc (key e) (key f) ≠ Gt) l.

Fixpoint insert_elem (e : element) (l : list element) : list element :=
  match l with
  | [] => [e]
  | f :: l' => if lt_elem f e then f :: insert_elem e l' else e :: l
  end.

(** The first element with the score and the member is removed. *)
Fixpoint delete_elem (e : element) (l : list element) : option (list element) :=
  match l with
  | [] => None
  | f :: l' =>
      if lt_elem f e then (cons f) <$> delete_elem e l'
      else if lt_elem e f then None else Some l'
  end.

Lemma insert_elem_app e A B :
  Forall (fun f => lt_elem f e = true) A → Forall (fun f => lt_elem f e = false) B →
  insert_elem e (A ++ B) = A ++ e :: B.
Proof.
  intros HA HB. induction HA as [|f A Hf HA IH]; simpl.
  - destruct HB as [|f B Hf HB]; [done|]. simpl. by rewrite Hf.
  - by rewrite Hf, IH.
Qed.

Lemma delete_elem_app e A B :
  Forall (fun f => lt_elem f e = true) A → Forall (fun f => lt_elem f e = false) B →
  delete_elem e (A ++ B) =
    match B with
    | [] => None
    | f :: B' => if lt_elem e f then None else Some (A ++ B')
    end.
Proof.
  intros HA HB. induction HA as [|f A Hf HA IH]; simpl.
  - destruct HB as [|f B Hf HB]; [done|]. simpl. by rewrite Hf.
  - rewrite Hf, IH. destruct B as [|g B]; [done|]. by destruct (lt_elem e g).
Qed.

(** A monotone condition cuts a sorted list in two. *)
Lemma sorted_cut (p : element → bool) l :
  sorted l → (∀ e f, lexc (key e) (key f) ≠ Gt → p f = true → p e = true) →
  ∃ A B, l = A ++ B ∧ Forall (fun e => p e = true) A ∧ Forall (fun e => p e = false) B.
Proof.
  intros Hl Hp. induction Hl as [|e l Hl IH He]; [by exists [], []|].
  destruct (p e) eqn:Hpe.
  - destruct IH as (A & B & -> & HA & HB). exists (e :: A), B. split_and!; try done. by constructor.
  - exists [], (e :: l). split_and!; [done|constructor|]. constructor; [done|].
    eapply Forall_impl; [exact He|]. intros f Hf. destruct (p f) eqn:Hpf; [|done].
    rewrite (Hp e f) in Hpe by done. done.
Qed.

Lemma sorted_app A B :
  sorted (A ++ B) ↔ sorted A ∧ sorted B ∧ Forall (fun e => Forall (fun f => lexc (key e) (key f) ≠ Gt) B) A.
Proof.
  unfold sorted. induction A as [|e A IH]; simpl.
  - split; [intros H; split_and!; [constructor|done|constructor]|tauto].
  - split.
    + intros H. apply StronglySorted_inv in H as [H He]. apply IH in H as (? & ? & ?).
      apply Forall_app in He as [? ?]. split_and!; [by constructor|done|by constructor].
    + intros (HA & HB & HAB). apply StronglySorted_inv in HA as [? ?].
      apply Forall_cons in HAB as [? ?]. constructor; [by apply IH|]. by apply Forall_app.
Qed.

Lemma insert_sorted e l : sorted l → sorted (insert_elem e l).
Proof.
  intros Hl. destruct (sorted_cut (fun f => lt_elem f e) l Hl) as (A & B & -> & HA & HB).
  { intros f g Hfg Hg. rewrite lt_elem_key in *. by eapply lexc_le_lt_trans. }
  rewrite insert_elem_app by done. apply sorted_app in Hl as (HsA & HsB & HAB).
  apply sorted_app. split; [done|]. split.
  - constructor; [done|]. eapply Forall_impl; [exact HB|]. intros f Hf. simpl in Hf.
    unfold lt_elem in Hf. rewrite (lexc_flip (key f)). by destruct (lexc (key f) (key e)).
  - apply Forall_forall. intros f Hf. rewrite Forall_forall in HA, HAB. constructor.
    + apply HA in Hf. rewrite lt_elem_key in Hf. by rewrite Hf.
    + by apply HAB.
Qed.
End members.
