(* ===== verification/SkiplistInsert.v ===== *)
(** * Searching, insertion and deletion in the skip list *)
From Stdlib Require Import Floats.SpecFloat Sorting.Sorted.
From S2P Require Import Prelude Libc Skiplist SkiplistCells SkiplistInv SkiplistOrder.
Import Skiplist.

Section search.
Implicit Types (A B L : list cell) (c d x : cell) (sl : skiplist).

Definition elem (c : cell) : element := (cscore c, default [] (cobj c)).
Definition elems L : list element := elem <$> L.

(** The address of the last cell of [A], of the header if there is none. *)
Definition end_of sl A : ptr := default (header sl) (cp <$> last A).

Lemma search_spec sl L A B adv :
  rep sl L → L = A ++ B →
  (∀ A1 d A2 n, A = A1 ++ d :: A2 → obj n = cobj d → score n = cscore d →
     adv (len A1 + 1) n = Done true) →
  (∀ B1 d B2 n, B = B1 ++ d :: B2 → obj n = cobj d → score n = cscore d →
     adv (len A + 1 + len B1) n = Done false) →
  ∃ U, search sl adv = Done U ∧ length U = level sl ∧ stops (hd sl :: A) U (level sl).
Proof.
  intros Hrep HL Hyes Hno. unfold search.
  destruct (descend_spec (mem sl) (hd sl :: A) B adv) with (k := level sl) (fuel := walk_fuel sl)
    (F1 := @nil cell) (c := hd sl) (F2 := A) as (U & HU & Hlen & Hst); try done.
  - pose proof (rp_shape _ _ Hrep) as Hs. by rewrite HL in Hs.
  - intros [|c G1] d G2 n Heq Hne Ho Hs; [done|]. injection Heq as <- Heq.
    replace (len (hd sl :: G1)) with (len G1 + 1) by (simpl; lia). by eapply Hyes.
  - intros G1 d G2 n Heq Ho Hs. replace (len (hd sl :: A)) with (len A + 1) by (simpl; lia).
    by eapply Hno.
  - unfold walk_fuel. rewrite (rp_length _ _ Hrep), Nat2Z.id, HL, length_app. simpl. lia.
  - by exists U.
Qed.

Lemma stops_zero sl A U k :
  Forall (fun c => (1 ≤ cheight c)%nat) A → (0 < k)%nat → stops (hd sl :: A) U k →
  at_level U 0 = Done (end_of sl A, len A).
Proof.
  intros HA Hk Hst. destruct (Hst 0%nat Hk) as (u & Hu & G1 & d & G2 & Heq & _ & Hlow & ->).
  unfold at_level. rewrite Hu. f_equal.
  assert (G2 = []) as ->.
  { destruct G2 as [|e G2]; [done|]. exfalso. apply Forall_cons in Hlow as [He _].
    rewrite Forall_forall in HA. assert (e ∈ A) as Hin; [|apply HA in Hin; lia].
    destruct G1 as [|? G1]; injection Heq as ? ->; [by left|]. set_solver. }
  unfold end_of. destruct G1 as [|? G1]; injection Heq as ? ->; [by subst|].
  rewrite last_snoc, length_app. simpl. f_equal. lia.
Qed.

Lemma cells_low sl L i : rep sl L → (level sl ≤ i)%nat → low i L.
Proof.
  intros Hrep Hi. eapply Forall_impl; [apply (rp_cells _ _ Hrep)|]. intros c (_ & ? & _). lia.
Qed.

Lemma rep_high sl L : rep sl L → Forall (fun c => (1 ≤ cheight c)%nat) L.
Proof. intros Hrep. eapply Forall_impl; [apply (rp_cells _ _ Hrep)|]. intros c (_ & ? & _). lia. Qed.

(** The successor of a cut: the first cell behind it. *)
Lemma link_zero B : Forall (fun c => (1 ≤ cheight c)%nat) B → (link 0 B).1 = cp <$> head B.
Proof.
  intros HB. destruct HB as [|c B Hc HB]; [done|]. cbn [link].
  destruct (Nat.ltb_spec 0 (cheight c)); [done|lia].
Qed.

Lemma end_level sl L A B : rep sl L → L = A ++ B →
  ∃ s, level_at (mem sl) (end_of sl A) 0 = Done (cp <$> head B, s).
Proof.
  intros Hrep ->. pose proof (rp_shape _ _ Hrep) as Hs. pose proof (rep_high _ _ Hrep) as Hh.
  pose proof (rp_level _ _ Hrep) as Hl.
  apply Forall_app in Hh as [HA HB]. unfold end_of.
  destruct A as [|c A _] using rev_ind.
  - destruct Hs as [Hc _]. simpl. change (header sl) with (cp (hd sl)).
    rewrite (node_level _ _ _ _ 0 Hc) by (simpl; lia). rewrite <- link_zero by done.
    cbn [app]. destruct (link 0 B). by eexists.
  - rewrite last_snoc. simpl. rewrite <- app_assoc in Hs. cbn [app] in Hs. rewrite app_comm_cons in Hs.
    apply Forall_app in HA as [_ Hc]. apply Forall_cons in Hc as [Hc _].
    rewrite (node_level _ _ _ _ 0 (shaped_at _ _ _ _ _ Hs)) by lia.
    rewrite <- link_zero by done. destruct (link 0 B). by eexists.
Qed.
End search.

(** ** Random levels *)
Section levels.

Lemma random_loop_ge rs l lv : random_loop rs l = Some lv → (l ≤ lv)%nat.
Proof.
  revert l. induction rs as [|r rs IH]; intros l; simpl; [done|].
  destruct (_ <? _); [|intros [= ->]; lia]. intros H%IH. lia.
Qed.

Lemma slRandomLevel_range rs lv : slRandomLevel rs = Some lv → (1 ≤ lv ≤ SKIPLIST_MAXLEVEL)%nat.
Proof.
  unfold slRandomLevel. destruct (random_loop rs 1) as [l|] eqn:Hl; [|done].
  apply random_loop_ge in Hl. unfold SKIPLIST_MAXLEVEL. intros [= <-].
  destruct (Nat.ltb_spec l 32); lia.
Qed.
End levels.

(** ** Insertion *)
Section insert.
Implicit Types (A B L : list cell) (c d : cell) (x : ptr) (sl : skiplist).

(** The header gets the levels up to the new one. *)
Lemma raise_loop_spec n i h p L :
  shaped h link (hd_cell p i :: L) → top_free h p i → NoDup (p :: (cp <$> L)) → low i L →
  (i + n ≤ SKIPLIST_MAXLEVEL)%nat → len L < 2 ^ 32 →
  ∃ h', raise_loop n i h p (len L) = Done h' ∧ shaped h' link (hd_cell p (i + n) :: L) ∧
    kept [p] (i + n) h h' ∧ top_free h' p (i + n).
Proof.
  revert i h. induction n as [|n IH]; intros i h Hsh Htop Hnd Hlow Hmax Hlen.
  { exists h. rewrite Nat.add_0_r. split_and!; try done. apply kept_refl. }
  cbn [raise_loop]. destruct Hsh as [(nd & Hnd' & Ho & Hs & Hln & Hle & Hlv) HshL].
  change (cp (hd_cell p i)) with p in *. change (csize (hd_cell p i)) with SKIPLIST_MAXLEVEL in *.
  destruct (Htop nd i Hnd') as [s Hsi]; [lia|].
  unfold level_at, deref, level_of. rewrite Hnd'. cbn [obind]. rewrite Hsi. cbn [obind fst snd].
  rewrite u32_small by lia.
  destruct (set_level_touched h p i (None, len L) nd Hnd' ltac:(lia)) as (h' & -> & Ht). cbn [obind].
  pose proof Ht as [Hoth (nd' & Hnd'' & Hnew & _)]. rewrite Hnd' in Hnd''. simplify_eq.
  apply NoDup_cons in Hnd as [Hni HndL].
  assert (kept [p] (i + S n) h h') as Hk by (eapply touched_kept; [exact Ht|by left|lia]).
  destruct (IH (S i) h') as (h'' & -> & Hsh'' & Hk'' & Htop''); try done; [| |by apply NoDup_cons| |lia|].
  - split.
    + eexists. split; [exact Hnew|]. cbn [obj score levels set_levels hd_cell cobj cscore csize cheight].
      split_and!; try done; [by rewrite length_insert|lia|].
      intros j Hj. destruct (decide (j = i)) as [->|].
      * rewrite list_lookup_insert_eq by lia. by rewrite link_low_nil.
      * rewrite list_lookup_insert_ne by done. apply Hlv. simpl. lia.
    + apply (shaped_frame h); [|done]. intros q Hq. apply Hoth. by intros ->.
  - intros m j Hm Hj. rewrite Hnew in Hm. simplify_eq. simpl.
    rewrite list_lookup_insert_ne by lia. apply (Htop _ _ Hnd'). lia.
  - eapply Forall_impl; [exact Hlow|]. simpl. lia.
  - exists h''. replace (i + S n)%nat with (S i + n)%nat in * by lia. split_and!; try done.
    by eapply kept_trans.
Qed.

(** The stopping places, with the levels the list did not have. *)
Lemma stops_raise sl A U lv level' :
  stops (hd sl :: A) U (level sl) → length U = level sl → low (level sl) A →
  level' = Nat.max lv (level sl) →
  stops (hd_cell (header sl) level' :: A) (U ++ replicate (lv - level sl) (header sl, 0)) level'.
Proof.
  intros Hst HU Hlow -> i Hi. destruct (decide (i < level sl)%nat) as [Hlt|Hge].
  - destruct (Hst i Hlt) as (u & Hu & G1 & d & G2 & Heq & Hd & Hl & ->).
    exists (cp d, len G1). split; [by rewrite lookup_app_l by (rewrite HU; lia)|].
    destruct G1 as [|c G1]; injection Heq as <- ->.
    + exists [], (hd_cell (header sl) (lv `max` level sl)), G2. split_and!; try done.
    + exists (hd_cell (header sl) (lv `max` level sl) :: G1), d, G2. by split_and!.
  - exists (header sl, 0). split.
    + rewrite lookup_app_r by lia. apply lookup_replicate. split; [done|lia].
    + exists [], (hd_cell (header sl) (lv `max` level sl)), A. split_and!; try done.
      eapply Forall_impl; [exact Hlow|]. simpl. lia.
Qed.

(** The new cell [c] is linked in behind the cells [FA]. *)
Lemma link_new h1 FA B x lv junk U' level' s o :
  shaped h1 link (FA ++ B) → NoDup (cp <$> FA) → (∀ q, q ∈ cp <$> FA → q ∉ cp <$> B) →
  x ∉ cp <$> FA → x ∉ cp <$> B → low level' FA →
  (1 ≤ lv ≤ level')%nat → (lv ≤ SKIPLIST_MAXLEVEL)%nat →
  stops FA U' level' → len (FA ++ B) + 1 < 2 ^ 32 →
  let c := Cell x (Some o) s lv lv in
  let h2 := <[x := slCreateNode lv s (Some o) junk]> h1 in
  ∃ h3 h4,
    link_loop lv 0 h2 U' x (len FA - 1) = Done h3 ∧
    span_loop (level' - lv) lv h3 U' = Done h4 ∧
    shaped h4 link (FA ++ c :: B) ∧ kept (x :: (cp <$> FA)) level' h2 h4.
Proof.
  intros Hsh Hnd Hdis HcFA HcB Hlow Hlv Hmax Hst Hlen c h2.
  assert (∀ q, q ≠ x → h2 !! q = h1 !! q) as H2o by (intros; by apply lookup_insert_ne).
  assert (shaped h2 link (FA ++ B)) as Hsh2.
  { apply (shaped_frame h1); [|done]. intros q Hq. apply H2o. intros ->.
    rewrite fmap_app in Hq. by apply elem_of_app in Hq as [|]. }
  apply shaped_app in Hsh2 as [HshA HshB].
  destruct (link_loop_spec lv 0 h2 FA c B U') as (h3 & H3 & HshA3 & Hp3 & Hk3);
    [by apply mix_start| |done..| |done|].
  { eexists. unfold h2. rewrite lookup_insert_eq. split; [done|]. simpl.
    split_and!; try done; [apply length_replicate|lia]. }
  { intros i Hi. apply Hst. lia. }
  destruct (span_loop_spec (level' - lv) lv h3 FA c B U') as (h4 & H4 & HshA4 & Hk4);
    try done.
  { intros i Hi. apply Hst. lia. }
  replace (lv + (level' - lv))%nat with level' in * by lia.
  exists h3, h4. split; [done|]. split; [done|]. split.
  - apply shaped_app. split; [by apply (mix_end _ level' B)|]. split.
    + destruct Hp3 as (n & Hn & Ho & Hs & Hln & Hi). exists n.
      rewrite (proj1 (Hk4 (cp c))) by done. by split_and!.
    + apply (shaped_frame h2); [|done]. intros q Hq.
      assert (q ∉ cp <$> FA) as HqFA by (intros Hq'; by apply (Hdis q)).
      assert (q ≠ x) as Hqc by (intros ->; done).
      rewrite (proj1 (Hk4 q)), (proj1 (Hk3 q)) by set_solver. done.
  - eapply kept_trans; [eapply kept_mono; [|..|exact Hk3]|eapply kept_mono; [|..|exact Hk4]];
      (set_solver || lia).
Qed.

(** The memory after the three loops. *)
Lemma insert_links sl A B U s o lv x junk :
  rep sl (A ++ B) → (1 ≤ lv ≤ SKIPLIST_MAXLEVEL)%nat → mem sl !! x = None →
  len (A ++ B) + 2 < 2 ^ 32 → length U = level sl → stops (hd sl :: A) U (level sl) →
  let c := Cell x (Some o) s lv lv in
  let level' := Nat.max lv (level sl) in
  let U' := U ++ replicate (lv - level sl) (header sl, 0) in
  ∃ h1 h3 h4,
    raise_loop (lv - level sl) (level sl) (mem sl) (header sl) (len (A ++ B)) = Done h1 ∧
    link_loop lv 0 (<[x := slCreateNode lv s (Some o) junk]> h1) U' x (len A) = Done h3 ∧
    span_loop (level' - lv) lv h3 U' = Done h4 ∧
    shaped h4 link (hd_cell (header sl) level' :: A ++ c :: B) ∧
    top_free h4 (header sl) level' ∧
    (∀ q, q ≠ x → backward <$> h4 !! q = backward <$> mem sl !! q) ∧
    (∀ q, is_Some (h4 !! q) ↔ q = x ∨ is_Some (mem sl !! q)).
Proof.
  intros Hrep Hlv Hx Hlen HU Hst c level' U'. pose proof (rp_level _ _ Hrep) as Hl.
  pose proof (cells_low _ _ (level sl) Hrep ltac:(lia)) as Hlow. pose proof (rp_nodup _ _ Hrep) as Hnd.
  assert (level sl + (lv - level sl) = level')%nat as Hl' by (unfold level'; lia).
  destruct (raise_loop_spec (lv - level sl) (level sl) (mem sl) (header sl) (A ++ B))
    as (h1 & H1 & Hsh1 & Hk1 & Htop1); try done; [apply Hrep..|lia|lia|].
  rewrite Hl' in *. set (FA := hd_cell (header sl) level' :: A).
  assert (x ∉ header sl :: (cp <$> A ++ B)) as Hxn.
  { intros Hin. apply (rp_dom _ _ Hrep) in Hin as [? Hin]. congruence. }
  assert (header sl :: (cp <$> A ++ B) = (cp <$> FA) ++ (cp <$> B)) as HFAB by (by rewrite fmap_app).
  rewrite HFAB in Hnd, Hxn.
  apply NoDup_app in Hnd as (HndFA & HdisFA & _). apply not_elem_of_app in Hxn as [HxFA HxB].
  apply Forall_app in Hlow as [HlowA _].
  destruct (link_new h1 FA B x lv junk U' level' s o) as (h3 & h4 & H3 & H4 & Hsh & Hk);
    try done; try (unfold level'; lia).
  { constructor; [simpl; lia|]. eapply Forall_impl; [exact HlowA|]. simpl. unfold level'. lia. }
  { by apply stops_raise. }
  { rewrite length_app in *. simpl. lia. }
  exists h1, h3, h4.
  replace (len FA - 1) with (len A) in H3 by (simpl; lia).
  set (h2 := <[x := slCreateNode lv s (Some o) junk]> h1) in *.
  assert (∀ q, q ≠ x → h2 !! q = h1 !! q) as H2o by (intros; by apply lookup_insert_ne).
  split; [done|]. split; [done|]. split; [done|]. split; [done|]. split; [|split].
  - apply (kept_top _ _ _ _ _ Hk). intros n i Hn Hi. rewrite H2o in Hn by set_solver. by apply (Htop1 n).
  - intros q Hq. rewrite (kept_backward _ _ _ _ _ Hk), H2o by done. by apply (kept_backward _ _ _ _ _ Hk1).
  - intros q. rewrite (kept_dom _ _ _ _ _ Hk). destruct (decide (q = x)) as [->|Hq].
    + unfold h2. rewrite lookup_insert_eq. split; [by left|by eexists].
    + rewrite H2o, (kept_dom _ _ _ _ _ Hk1) by done. tauto.
Qed.

Lemma front_last A : front None A = cp <$> last A.
Proof. unfold front. by destruct (last A). Qed.

(** [update[0] == sl->header ? NULL : update[0]]. *)
Lemma end_backward sl A L : NoDup (header sl :: (cp <$> A ++ L)) →
  (if decide (end_of sl A = header sl) then None else Some (end_of sl A)) = front None A.
Proof.
  intros [Hni _]%NoDup_cons. rewrite front_last. unfold end_of.
  destruct (last A) as [c|] eqn:Hl; simpl; [|by rewrite decide_True].
  rewrite decide_False; [done|]. intros Heq. apply Hni. rewrite <- Heq. apply list_elem_of_fmap. exists c. split; [done|].
  apply elem_of_app. left. by apply last_Some_elem_of.
Qed.

(** Linking [c] between [A] and [B] backwards. *)
Lemma backs_link h h' h'' A B c :
  backs h None (A ++ B) → NoDup (cp <$> A ++ c :: B) →
  (∀ q, q ≠ cp c → backward <$> h' !! q = backward <$> h !! q) →
  backward <$> h' !! cp c = Some (front None A) →
  match B with
  | [] => h'' = h'
  | b :: _ => backward <$> h'' !! cp b = Some (Some (cp c)) ∧ ∀ q, q ≠ cp b → h'' !! q = h' !! q
  end →
  backs h'' None (A ++ c :: B).
Proof.
  rewrite backs_app. intros [HA HB] Hnd Hold Hc Hb.
  rewrite fmap_app, fmap_cons in Hnd. apply NoDup_app in Hnd as (_ & Hdis & Hnd).
  apply NoDup_cons in Hnd as [Hcn HndB].
  assert (∀ q, (∀ b B', B = b :: B' → q ≠ cp b) → h'' !! q = h' !! q) as Hkeep.
  { intros q Hq. destruct B as [|b B]; [by subst|]. destruct Hb as [_ Hb]. apply Hb. by eapply Hq. }
  rewrite backs_app. split; [|split].
  - apply (backs_frame h); [|done]. intros q Hq. specialize (Hdis q Hq).
    rewrite Hkeep, Hold; [done| |].
    + intros ->. apply Hdis. by left.
    + intros b B' -> ->. apply Hdis. rewrite fmap_cons. set_solver.
  - rewrite Hkeep; [done|]. intros b B' -> Heq. apply Hcn. rewrite Heq. by left.
  - destruct B as [|b B]; [done|]. destruct Hb as [Hb Hother]. destruct HB as [_ HB].
    split; [done|]. apply (backs_frame h); [|done]. intros q Hq.
    rewrite fmap_cons in *. apply NoDup_cons in HndB as [Hbn _].
    rewrite Hother, Hold; [done| |].
    + intros ->. apply Hcn. by right.
    + intros ->. done.
Qed.

Lemma insert_cells A B (l l' : nat) c :
  Forall (cell_ok l) (A ++ B) → cell_ok l' c → (l ≤ l')%nat → Forall (cell_ok l') (A ++ c :: B).
Proof.
  intros HAB Hc Hl. assert (Forall (cell_ok l') (A ++ B)) as H.
  { eapply Forall_impl; [exact HAB|]. intros d (? & ? & ?). split_and!; done || lia. }
  apply Forall_app in H as [HA HB]. apply Forall_app. split; [done|]. by constructor.
Qed.

Lemma insert_nodup sl A B c : rep sl (A ++ B) → mem sl !! cp c = None →
  NoDup (header sl :: (cp <$> A ++ c :: B)).
Proof.
  intros Hrep Hx. pose proof (rp_nodup _ _ Hrep) as Hnd.
  assert (cp c ∉ header sl :: (cp <$> A ++ B)) as Hxn.
  { intros Hin. apply (rp_dom _ _ Hrep) in Hin as [? Hin]. congruence. }
  rewrite fmap_app, fmap_cons. rewrite fmap_app in Hnd, Hxn.
  rewrite app_comm_cons in *. rewrite <- Permutation_middle. by constructor.
Qed.

(** The list after the insertion, for the memory after the backward pointers are set. *)
Lemma insert_rest sl A B c level' h4 h6 :
  rep sl (A ++ B) → mem sl !! cp c = None → cell_ok level' c →
  (level sl ≤ level' ≤ SKIPLIST_MAXLEVEL)%nat →
  shaped h4 link (hd_cell (header sl) level' :: A ++ c :: B) → top_free h4 (header sl) level' →
  (∀ q, is_Some (h4 !! q) ↔ q = cp c ∨ is_Some (mem sl !! q)) →
  reback h4 h6 → backs h6 None (A ++ c :: B) →
  rep (Skiplist (header sl) (cp <$> last (A ++ c :: B)) (len (A ++ c :: B)) level' h6) (A ++ c :: B).
Proof.
  intros Hrep Hx Hc Hl Hsh Htop Hdom Hr Hb. pose proof (rp_level _ _ Hrep). split; try done.
  - by apply (reback_shaped h4).
  - by apply (reback_top h4).
  - by apply (insert_nodup sl A B c).
  - simpl. lia.
  - apply (insert_cells A B (level sl)); [apply Hrep|done|simpl; lia].
  - intros q. simpl. rewrite (reback_dom _ _ _ Hr), Hdom, (rp_dom _ _ Hrep).
    rewrite !fmap_app, fmap_cons. set_solver.
Qed.

Lemma insert_spec sl A B U s o rs lv x junk :
  rep sl (A ++ B) → slRandomLevel rs = Some lv → mem sl !! x = None →
  len (A ++ B) + 2 < 2 ^ 32 →
  search sl (fun _ => before s o) = Done U → length U = level sl →
  stops (hd sl :: A) U (level sl) →
  ∃ sl', slInsert sl s o rs x junk = Done sl' ∧ rep sl' (A ++ Cell x (Some o) s lv lv :: B) ∧
    header sl' = header sl.
Proof.
  intros Hrep Hrs Hx Hlen HU HlU Hst. pose proof (slRandomLevel_range _ _ Hrs) as Hlv.
  pose proof (rp_level _ _ Hrep) as Hl.
  pose proof (rep_high _ _ Hrep) as Hhigh. apply Forall_app in Hhigh as [HhA HhB].
  set (c := Cell x (Some o) s lv lv). set (level' := Nat.max lv (level sl)).
  destruct (insert_links sl A B U s o lv x junk) as (h1 & h3 & h4 & H1 & H3 & H4 & Hsh & Htop & Hbk & Hdom);
    try done. fold c level' in Hsh, Htop, H4.
  unfold slInsert. rewrite HU, Hrs. cbn [obind]. rewrite (rp_length _ _ Hrep), H1. cbn [obind].
  assert ((if (level sl <? lv)%nat then lv else level sl) = level') as ->.
  { unfold level'. destruct (Nat.ltb_spec (level sl) lv); lia. }
  assert (at_level (U ++ replicate (lv - level sl) (header sl, 0)) 0 = Done (end_of sl A, len A)) as ->.
  { rewrite <- (stops_zero sl A U (level sl)); try done; [|lia].
    unfold at_level. by rewrite lookup_app_l by lia. }
  cbn [obind]. rewrite H3. cbn [obind]. rewrite H4. cbn [obind].
  rewrite end_backward with (L := B) by apply Hrep.
  pose proof Hsh as Hc. rewrite app_comm_cons in Hc. apply shaped_at in Hc.
  pose proof Hc as (n & Hn & _). change (cp c) with x in Hn.
  destruct (set_backward_spec h4 x (front None A) n Hn) as (h5 & -> & Hn5 & Ho5). cbn [obind].
  pose proof (set_backward_reback _ _ _ _ _ Hn Hn5 Ho5) as Hr5.
  rewrite (reback_level h4 h5) by done. change x with (cp c) at 1.
  rewrite (node_level _ _ _ _ 0 Hc) by (simpl; lia). cbn [obind].
  pose proof (link_zero B HhB) as Hl0. destruct (link 0 B) as [fw sp]. cbn [fst] in Hl0. subst fw.
  pose proof (insert_nodup sl A B c Hrep Hx) as Hnd'. apply NoDup_cons in Hnd' as [_ Hnd'].
  assert (∀ h6, reback h5 h6 → match B with
      | [] => h6 = h5
      | b :: _ => backward <$> h6 !! cp b = Some (Some x) ∧ ∀ q, q ≠ cp b → h6 !! q = h5 !! q
      end → rep (Skiplist (header sl) (cp <$> last (A ++ c :: B)) (len (A ++ c :: B)) level' h6)
              (A ++ c :: B)) as Hfinal.
  { intros h6 Hr6 Hb6. apply (insert_rest sl A B c level' h4); try done; try (unfold level'; lia).
    - split_and!; simpl; try done; unfold level'; try lia.
    - by eapply reback_trans.
    - apply (backs_link (mem sl) h5 h6); [apply Hrep|done| | |done].
      + intros q Hq. rewrite Ho5 by done. by apply Hbk.
      + change (cp c) with x. by rewrite Hn5. }
  destruct B as [|b B]; cbn [fmap option_fmap option_map head].
  - eexists. split; [done|]. split; [|done]. specialize (Hfinal h5 (reback_refl _) eq_refl).
    rewrite last_snoc in Hfinal. rewrite app_nil_r, length_app in *. cbn [length] in Hfinal.
    replace (len A + 1) with (Z.of_nat (length A + 1)) by lia. exact Hfinal.
  - assert (is_Some (h5 !! cp b)) as [nb Hnb].
    { apply (reback_dom _ _ _ Hr5), Hdom. right. apply (rp_dom _ _ Hrep).
      rewrite fmap_app, fmap_cons. set_solver. }
    destruct (set_backward_spec h5 (cp b) (Some x) nb Hnb) as (h6 & -> & Hn6 & Ho6). cbn [obind].
    eexists. split; [done|]. split; [|done].
    specialize (Hfinal h6 (set_backward_reback _ _ _ _ _ Hnb Hn6 Ho6)).
    rewrite last_app_cons, last_cons_cons in Hfinal. rewrite (rp_tail _ _ Hrep), last_app_cons.
    rewrite !length_app in *. cbn [length] in *.
    replace (Z.of_nat (length A + S (length B)) + 1) with (Z.of_nat (length A + S (S (length B)))) by lia.
    apply Hfinal. rewrite Hn6. done.
Qed.
End insert.
