(* ===== verification/SkiplistDelete.v ===== *)
(** * Deletion from the skip list *)
From Stdlib Require Import Floats.SpecFloat Sorting.Sorted.
From S2P Require Import Prelude Libc Skiplist SkiplistCells SkiplistInv SkiplistOrder SkiplistInsert.
Import Skiplist.

Section delete.
Implicit Types (A B L : list cell) (c d : cell) (x : ptr) (sl : skiplist).

(** The level of the list falls to its highest node. *)
Lemma shrink_loop_spec l h p L :
  shaped h link (hd_cell p l :: L) → top_free h p l → (1 ≤ l)%nat → low l L →
  ∃ l', shrink_loop l h p = Done l' ∧ (1 ≤ l' ≤ l)%nat ∧ low l' L ∧
    shaped h link (hd_cell p l' :: L) ∧ top_free h p l'.
Proof.
  induction l as [|i IH]; intros Hsh Htop Hl Hlow; [lia|]. cbn [shrink_loop].
  destruct (Nat.ltb_spec 1 (S i)) as [Hi|Hi]; [|by exists (S i)].
  destruct Hsh as [Hhd HshL]. change p with (cp (hd_cell p (S i))) at 1.
  rewrite (node_level _ _ _ _ i Hhd) by (simpl; lia). cbn [obind].
  destruct (link i L) as [[y|] s] eqn:Hlk; [by exists (S i)|].
  destruct IH as (l' & -> & Hl' & Hlow' & Hsh' & Htop'); try done.
  - split; [|done]. destruct Hhd as (n & Hn & Ho & Hs & Hln & Hle & Hlv).
    exists n. split_and!; try done; simpl in *; [lia|]. intros j Hj. apply Hlv. lia.
  - intros n j Hn Hj. destruct (decide (j = i)) as [->|]; [|apply (Htop n); [done|lia]].
    destruct Hhd as (n' & Hn' & _ & _ & _ & _ & Hlv). simpl in Hn'. simplify_eq.
    exists s. rewrite <- Hlk. apply Hlv. simpl. lia.
  - lia.
  - apply link_None. by rewrite Hlk.
  - exists l'. split_and!; done || lia.
Qed.

(** The backward pointers after [c] is taken out. *)
Lemma backs_unlink h h' h'' A B c :
  backs h None (A ++ c :: B) → NoDup (cp <$> A ++ c :: B) →
  (∀ q, backward <$> h' !! q = backward <$> h !! q) →
  match B with
  | [] => h'' = h'
  | b :: _ => backward <$> h'' !! cp b = Some (front None A) ∧ ∀ q, q ≠ cp b → h'' !! q = h' !! q
  end →
  backs h'' None (A ++ B) ∧ backward <$> h' !! cp c = Some (front None A).
Proof.
  rewrite backs_app. intros [HA [Hc HB]] Hnd Hold Hb.
  split; [|by rewrite Hold].
  rewrite fmap_app, fmap_cons in Hnd. apply NoDup_app in Hnd as (_ & Hdis & Hnd).
  apply NoDup_cons in Hnd as [Hcn HndB]. rewrite backs_app.
  destruct B as [|b B].
  - subst h''. split; [|done]. by apply (backs_frame h).
  - destruct Hb as [Hb Hother], HB as [_ HB]. rewrite fmap_cons in *.
    apply NoDup_cons in HndB as [Hbn _]. split; [|split; [done|]].
    + apply (backs_frame h); [|done]. intros q Hq. rewrite Hother; [done|]. intros ->.
      apply (Hdis _ Hq). set_solver.
    + apply (backs_frame h); [|done]. intros q Hq. rewrite Hother; [done|]. by intros ->.
Qed.

Lemma stops_shrink p A U l l' : (l' ≤ l)%nat →
  stops (hd_cell p l :: A) U l → stops (hd_cell p l' :: A) U l'.
Proof.
  intros Hl Hst i Hi. destruct (Hst i ltac:(lia)) as (u & Hu & G1 & d & G2 & Heq & Hd & Hlow & ->).
  destruct G1 as [|e G1]; injection Heq as <- ->.
  - exists (p, 0). split; [done|]. by exists [], (hd_cell p l'), G2.
  - eexists. split; [exact Hu|]. by exists (hd_cell p l' :: G1), d, G2.
Qed.

Lemma backs_delete h b L x : x ∉ cp <$> L → backs h b L → backs (delete x h) b L.
Proof.
  intros Hx. apply backs_frame. intros q Hq. rewrite lookup_delete_ne; [done|]. by intros ->.
Qed.

Lemma shaped_delete h lk L x : x ∉ cp <$> L → shaped h lk L → shaped (delete x h) lk L.
Proof.
  intros Hx. apply shaped_frame. intros q Hq. apply lookup_delete_ne. by intros ->.
Qed.

(** The addresses of a list that is cut at [c]. *)
Lemma rep_nodup sl A c B : rep sl (A ++ c :: B) →
  NoDup (cp <$> (hd sl :: A)) ∧ (cp c ∉ cp <$> (hd sl :: A)) ∧ (cp c ∉ cp <$> B) ∧
  NoDup (cp <$> B) ∧ ∀ q, q ∈ cp <$> (hd sl :: A) → q ∉ cp <$> B.
Proof.
  intros Hrep. pose proof (rp_nodup _ _ Hrep) as Hnd.
  rewrite fmap_app, fmap_cons, app_comm_cons in Hnd.
  change (header sl :: (cp <$> A)) with (cp <$> hd sl :: A) in Hnd.
  apply NoDup_app in Hnd as (HndA & Hdis & HndB). apply NoDup_cons in HndB as [HcB HndB].
  split; [done|]. split; [intros Hin; apply (Hdis _ Hin); by left|]. split; [done|]. split; [done|].
  intros q Hq Hq'. apply (Hdis q Hq). by right.
Qed.

(** The addresses without [c]. *)
Lemma rep_without sl A c B : rep sl (A ++ c :: B) →
  NoDup (header sl :: (cp <$> A ++ B)) ∧ cp c ∉ header sl :: (cp <$> A ++ B).
Proof.
  intros Hrep. destruct (rep_nodup _ _ _ _ Hrep) as (HndA & HcA & HcB & HndB & Hdis).
  rewrite fmap_app, app_comm_cons. change (header sl :: (cp <$> A)) with (cp <$> hd sl :: A).
  split; [by apply NoDup_app|]. by rewrite not_elem_of_app.
Qed.

(** The forward pointers and spans after [c] is taken out. *)
Lemma unlink_shaped sl A c B U :
  rep sl (A ++ c :: B) → stops (hd sl :: A) U (level sl) → len (A ++ c :: B) + 1 < 2 ^ 32 →
  ∃ h1, unlink_loop (level sl) 0 (mem sl) U (cp c) = Done h1 ∧
    kept (cp <$> hd sl :: A) (level sl) (mem sl) h1 ∧ shaped h1 link (hd sl :: A ++ B).
Proof.
  intros Hrep Hst Hlen. destruct (rep_nodup _ _ _ _ Hrep) as (HndA & HcA & HcB & HndB & Hdis).
  pose proof (rp_shape _ _ Hrep) as Hsh. rewrite app_comm_cons in Hsh.
  pose proof (cells_low _ _ (level sl) Hrep ltac:(lia)) as Hlow. pose proof (rp_level _ _ Hrep) as Hlv.
  apply shaped_app in Hsh as [HshA HshB].
  destruct (unlink_loop_spec (level sl) 0 (mem sl) (hd sl :: A) c B U) as (h1 & -> & Hsh1 & Hk1);
    [by apply mix_start|done|pose proof (rp_nodup _ _ Hrep) as Hnd; by rewrite fmap_app, fmap_cons in *
    |done|by rewrite length_app in *; simpl in *; lia|].
  exists h1. split; [done|]. split; [done|]. change (shaped h1 link ((hd sl :: A) ++ B)).
  apply shaped_app. split.
  - apply (mix_end _ (level sl) (c :: B)); [|done]. constructor; [done|].
    by apply Forall_app in Hlow as [? _].
  - destruct HshB as [_ HshB]. apply (shaped_frame (mem sl)); [|done].
    intros q Hq. apply Hk1. intros Hq'. by apply (Hdis q).
Qed.

(** The rest of the deletion, for the memory after the backward pointer of the
    successor is set: the level falls, and the node is freed. *)
Lemma delete_rest sl A c B m h1 h2 n :
  rep sl (A ++ c :: B) → cobj c = Some m → kept (cp <$> hd sl :: A) (level sl) (mem sl) h1 →
  shaped h1 link (hd sl :: A ++ B) → reback h1 h2 → h2 !! cp c = Some n → obj n = cobj c →
  match B with
  | [] => h2 = h1
  | b :: _ => backward <$> h2 !! cp b = Some (front None A) ∧ ∀ q, q ≠ cp b → h2 !! q = h1 !! q
  end →
  ∃ l, shrink_loop (level sl) h2 (header sl) = Done l ∧ (l ≤ level sl)%nat ∧
    slFreeNode h2 (cp c) = Done (m, delete (cp c) h2) ∧
    rep (Skiplist (header sl) (cp <$> last (A ++ B)) (len (A ++ B)) l (delete (cp c) h2)) (A ++ B).
Proof.
  intros Hrep Hm Hk1 Hsh1 Hr2 Hn2 Ho Hb2. pose proof (rp_level _ _ Hrep) as Hlv.
  destruct (rep_without _ _ _ _ Hrep) as [HndAB Hcn].
  pose proof (cells_low _ _ (level sl) Hrep ltac:(lia)) as Hlow.
  destruct (shrink_loop_spec (level sl) h2 (header sl) (A ++ B)) as (l & -> & Hl & Hlowl & Hshl & Htopl).
  { by apply (reback_shaped h1). }
  { apply (reback_top h1); [done|]. eapply kept_top; [exact Hk1|apply Hrep]. }
  { lia. }
  { apply Forall_app in Hlow as [? HlB]. apply Forall_cons in HlB as [_ ?]. by apply Forall_app. }
  exists l. split; [done|]. split; [lia|]. split.
  { unfold slFreeNode, deref. rewrite Hn2. cbn [obind]. unfold member. by rewrite Ho, Hm. }
  destruct (backs_unlink (mem sl) h1 h2 A B c) as [Hbk _]; [apply Hrep| |by intros; eapply kept_backward|done|].
  { pose proof (rp_nodup _ _ Hrep) as Hx. by apply NoDup_cons in Hx as [_ ?]. }
  split; try done.
  - by apply shaped_delete.
  - intros n' i Hn' Hi. simpl in Hn'. rewrite lookup_delete_ne in Hn'; [by apply (Htopl n')|].
    intros Heq. apply Hcn. rewrite Heq. by left.
  - apply backs_delete; [|done]. set_solver.
  - simpl. lia.
  - pose proof (rp_cells _ _ Hrep) as Hcells. apply Forall_app in Hcells as [HcsA HcsB].
    apply Forall_cons in HcsB as [_ HcsB].
    pose proof (Forall_app_2 _ _ _ HcsA HcsB) as HcsAB. unfold low in Hlowl.
    rewrite Forall_forall in *. intros d Hd. destruct (HcsAB d Hd) as (? & ? & ?).
    specialize (Hlowl d Hd). simpl in *. split_and!; done || lia.
  - intros q. simpl. destruct (decide (q = cp c)) as [->|Hq].
    + rewrite lookup_delete_eq. split; [by intros []|done].
    + rewrite lookup_delete_ne, (reback_dom _ _ _ Hr2), (kept_dom _ _ _ _ _ Hk1), (rp_dom _ _ Hrep) by done.
      rewrite !fmap_app, fmap_cons. set_solver.
Qed.

Lemma delete_node_spec sl A c B U m :
  rep sl (A ++ c :: B) → stops (hd sl :: A) U (level sl) → len (A ++ c :: B) + 1 < 2 ^ 32 →
  cobj c = Some m →
  ∃ sl' h', slDeleteNode sl (cp c) U = Done sl' ∧ slFreeNode (mem sl') (cp c) = Done (m, h') ∧
    rep (set_mem h' sl') (A ++ B) ∧ header sl' = header sl ∧ (level sl' ≤ level sl)%nat ∧
    length_ sl' = len (A ++ B).
Proof.
  intros Hrep Hst Hlen Hm. destruct (rep_nodup _ _ _ _ Hrep) as (_ & HcA & HcB & _).
  destruct (unlink_shaped _ _ _ _ _ Hrep Hst Hlen) as (h1 & Hun & Hk1 & Hsh1).
  pose proof (rep_high _ _ Hrep) as Hhigh. apply Forall_app in Hhigh as [_ HhB].
  apply Forall_cons in HhB as [Hhc HhB].
  pose proof (rp_shape _ _ Hrep) as Hc. rewrite app_comm_cons in Hc. apply shaped_at in Hc.
  pose proof Hc as (n & Hn & Ho & _).
  assert (h1 !! cp c = Some n) as Hn1 by (rewrite (proj1 (Hk1 (cp c))); done).
  pose proof (delete_rest sl A c B m h1) as Hrest.
  unfold slDeleteNode. rewrite Hun. cbn [obind]. unfold deref. rewrite Hn1. cbn [obind].
  assert (level_at h1 (cp c) 0 = Done (link 0 B)) as ->.
  { rewrite <- (node_level _ _ _ _ 0 Hc) by lia. unfold level_at, deref. by rewrite Hn, Hn1. }
  cbn [obind]. pose proof (link_zero B HhB) as Hl0. destruct (link 0 B) as [fw sp].
  cbn [fst] in Hl0. subst fw.
  assert (backward n = front None A) as Hback.
  { pose proof (rp_back _ _ Hrep) as Hb. apply backs_app in Hb as [_ [Hb _]].
    rewrite Hn in Hb. by injection Hb. }
  assert (length_ sl - 1 = len (A ++ B)) as ->.
  { rewrite (rp_length _ _ Hrep), !length_app. simpl. lia. }
  destruct B as [|b B]; cbn [head fmap option_fmap option_map].
  - destruct (Hrest h1 n) as (l & Hsk & Hl & Hfree & Hr); try done; [apply reback_refl|]. cbn [obind].
    rewrite Hsk. cbn [obind]. eexists _, _. split; [done|]. split; [exact Hfree|].
    split; [|done]. rewrite Hback, front_last. rewrite app_nil_r in Hr at 1. exact Hr.
  - assert (is_Some (h1 !! cp b)) as [nb Hnb].
    { apply (kept_dom _ _ _ _ _ Hk1), (rp_dom _ _ Hrep). rewrite fmap_app, !fmap_cons. set_solver. }
    destruct (set_backward_spec h1 (cp b) (backward n) nb Hnb) as (h2 & -> & Hn2 & Ho2). cbn [obind].
    destruct (Hrest h2 n) as (l & Hsk & Hl & Hfree & Hr);
      try done; [by eapply set_backward_reback|by rewrite Ho2; [|set_solver]|by rewrite Hn2, <- Hback|].
    rewrite Hsk. cbn [obind]. eexists _, _. split; [done|]. split; [exact Hfree|].
    split; [|done]. rewrite (rp_tail _ _ Hrep), last_app_cons, last_cons_cons.
    rewrite last_app_cons in Hr. exact Hr.
Qed.
End delete.
