(* ===== verification/SkiplistQueries.v ===== *)
(** * The ranking list refines a sorted list

    [ranks sl l]: the skip list in memory stands for the sorted list [l] of
    elements. Every operation of skiplist.c is a function on [l]. *)
From Stdlib Require Import Floats.SpecFloat Sorting.Sorted.
From S2P Require Import Prelude Libc Skiplist SkiplistCells SkiplistInv SkiplistOrder SkiplistInsert SkiplistDelete.

Import Skiplist.

(** Spans are 32-bit: the list stays two elements below. *)
Definition MAX_LENGTH : Z := 2 ^ 32 - 2.

Definition ranks (sl : skiplist) (l : list element) : Prop :=
  ∃ L, rep sl L ∧ elems L = l ∧ sorted l ∧ Forall element_ok l ∧ len l < MAX_LENGTH.

Definition members (l : list element) : list (list Z) := snd <$> l.

Section ranks.
Implicit Types (A B L : list cell) (c d : cell) (x : ptr) (sl : skiplist) (l : list element).

Lemma length_elems L : length (elems L) = length L.
Proof. apply length_fmap. Qed.

Lemma ranks_bound L : len (elems L) < MAX_LENGTH → len L + 2 < 2 ^ 32.
Proof. rewrite length_elems. unfold MAX_LENGTH. lia. Qed.

Lemma ranks_length sl l : ranks sl l → length_ sl = len l.
Proof. intros (L & Hrep & <- & _). by rewrite (rp_length _ _ Hrep), length_elems. Qed.

(** A node of the list, seen through its element. *)
Lemma node_elem sl L c : rep sl L → c ∈ L → ∃ m, cobj c = Some m ∧ elem c = (cscore c, m).
Proof.
  intros Hrep Hc. pose proof (rp_cells _ _ Hrep) as H. rewrite Forall_forall in H.
  destruct (H c Hc) as ([m Hm] & _). exists m. unfold elem. by rewrite Hm.
Qed.

(** Searching with a condition on the elements. *)
Lemma search_elems sl L p adv :
  rep sl L → sorted (elems L) → Forall element_ok (elems L) →
  (∀ e f, lexc (key e) (key f) ≠ Gt → p f = true → p e = true) →
  (∀ acc n m, obj n = Some m → element_ok (score n, m) → adv acc n = Done (p (score n, m))) →
  ∃ A B U, L = A ++ B ∧ Forall (fun e => p e = true) (elems A) ∧
    Forall (fun e => p e = false) (elems B) ∧
    search sl adv = Done U ∧ length U = level sl ∧ stops (hd sl :: A) U (level sl).
Proof.
  intros Hrep Hs Hok Hp Hadv. destruct (sorted_cut p _ Hs Hp) as (A' & B' & Heq & HA & HB).
  apply fmap_app_inv in Heq as (A & B & -> & -> & ->).
  assert (∀ acc n c, c ∈ A ++ B → obj n = cobj c → score n = cscore c → adv acc n = Done (p (elem c))) as Hval.
  { intros acc n c Hc Ho Hsc. destruct (node_elem _ _ _ Hrep Hc) as (m & Hm & He).
    rewrite He, <- Hsc. apply Hadv; [congruence|].
    rewrite Forall_forall in Hok. rewrite Hsc, <- He. apply Hok. by apply list_elem_of_fmap_2. }
  rewrite Forall_forall in HA, HB.
  destruct (search_spec sl (A ++ B) A B adv Hrep eq_refl) as (U & HU & Hl & Hst).
  - intros A1 d A2 n -> Ho Hsc. rewrite (Hval _ _ d) by (done || set_solver).
    f_equal. apply HA, list_elem_of_fmap_2. set_solver.
  - intros B1 d B2 n -> Ho Hsc. rewrite (Hval _ _ d) by (done || set_solver).
    f_equal. apply HB, list_elem_of_fmap_2. set_solver.
  - exists A, B, U. split_and!; try done; by apply Forall_forall.
Qed.

Lemma before_mono e f g : lexc (key f) (key g) ≠ Gt → lt_elem g e = true → lt_elem f e = true.
Proof. rewrite !lt_elem_key. apply lexc_le_lt_trans. Qed.

Lemma not_after_mono e f g :
  lexc (key f) (key g) ≠ Gt → negb (lt_elem e g) = true → negb (lt_elem e f) = true.
Proof.
  rewrite !negb_true_iff. intros Hfg Hg. destruct (lt_elem e f) eqn:Hf; [|done].
  apply lt_elem_key in Hf. rewrite <- Hg. symmetry. apply lt_elem_key. by eapply lexc_lt_le_trans.
Qed.

Lemma sorted_delete (A : list element) (e : element) (B : list element) : sorted (A ++ e :: B) → sorted (A ++ B).
Proof.
  rewrite !sorted_app. intros (HA & HB & HAB). apply StronglySorted_inv in HB as [HB _].
  split_and!; try done. eapply Forall_impl; [exact HAB|]. intros f Hf. by apply Forall_cons in Hf as [_ ?].
Qed.

(** ** Creation and insertion *)
Lemma ranks_create p : ranks (slCreate p) [].
Proof.
  exists []. split; [|by split_and!; [|constructor|constructor|]].
  assert (length (replicate SKIPLIST_MAXLEVEL ((None, 0) : option ptr * Z)) = 32%nat) as Hl by done.
  split; try done.
  - split; [|done]. eexists. split; [apply lookup_singleton_eq|]. split_and!; try done; [simpl; unfold SKIPLIST_MAXLEVEL; lia|].
    intros i Hi. simpl in Hi. by destruct i; [|lia].
  - intros n i Hn Hi. simpl in Hn. rewrite lookup_singleton_eq in Hn. simplify_eq.
    exists 0. change (replicate SKIPLIST_MAXLEVEL ((None, 0) : option ptr * Z) !! i = Some (None, 0)).
    apply lookup_replicate. split; [done|]. apply Hi.
  - apply NoDup_singleton.
  - simpl. unfold SKIPLIST_MAXLEVEL. lia.
  - intros q. simpl. rewrite lookup_singleton_is_Some. set_solver.
Qed.

(** [slInsert] puts the element at its place in the sorted order, whatever
    level the random source gives and wherever the node is allocated. *)
Lemma insert_ranks sl l s o rs x junk :
  ranks sl l → element_ok (s, o) → is_Some (slRandomLevel rs) → mem sl !! x = None →
  len l + 1 < MAX_LENGTH →
  returns (slInsert sl s o rs x junk) (fun sl' => ranks sl' (insert_elem (s, o) l)).
Proof.
  intros (L & Hrep & <- & Hs & Hok & Hlen) He [lv Hrs] Hx Hmax.
  destruct (search_elems sl L (fun f => lt_elem f (s, o)) (fun _ => before s o) Hrep Hs Hok)
    as (A & B & U & -> & HA & HB & HU & HlU & Hst).
  { apply before_mono. }
  { intros acc n m Hm Hn. by apply before_spec. }
  destruct (insert_spec sl A B U s o rs lv x junk) as (sl' & -> & Hrep' & _); try done.
  { by apply ranks_bound. }
  apply returns_done. exists (A ++ Cell x (Some o) s lv lv :: B). split; [done|].
  unfold elems in *. rewrite !fmap_app in *. split; [by rewrite insert_elem_app, fmap_cons|].
  split; [by apply insert_sorted|]. rewrite insert_elem_app by done.
  apply Forall_app in Hok as [HokA HokB].
  split; [apply Forall_app; split; [done|by constructor]|].
  rewrite !length_app in *. simpl. lia.
Qed.

(** [slDelete] removes the element with the score and the member and nothing
    else, and reports whether there was one. *)
Lemma delete_ranks sl l s o :
  ranks sl l → element_ok (s, o) →
  returns (slDelete sl s o) (fun '(b, sl') =>
    match delete_elem (s, o) l with
    | Some l' => b = true ∧ ranks sl' l'
    | None => b = false ∧ sl' = sl
    end).
Proof.
  intros (L & Hrep & <- & Hs & Hok & Hlen) He.
  destruct (search_elems sl L (fun f => lt_elem f (s, o)) (fun _ => before s o) Hrep Hs Hok)
    as (A & B & U & -> & HA & HB & HU & HlU & Hst).
  { apply before_mono. }
  { intros acc n m Hm Hn. by apply before_spec. }
  pose proof (rep_high _ _ Hrep) as Hhigh. apply Forall_app in Hhigh as [HhA _].
  pose proof (rp_level _ _ Hrep) as Hlv.
  unfold slDelete. rewrite HU. cbn [obind].
  rewrite (stops_zero sl A U (level sl)) by (done || lia). cbn [obind].
  destruct (end_level sl _ A B Hrep eq_refl) as [sp ->]. cbn [obind].
  unfold elems in *. rewrite !fmap_app in *. rewrite delete_elem_app by done.
  destruct B as [|c B]; cbn [fmap list_fmap head option_fmap option_map]; [by apply returns_done|].
  pose proof (rp_shape _ _ Hrep) as Hsh. rewrite app_comm_cons in Hsh. apply shaped_at in Hsh as (n & Hn & Ho & Hsc & _).
  destruct (node_elem sl _ c Hrep) as (m & Hm & Hc); [set_solver|].
  unfold deref. rewrite Hn. cbn [obind].
  apply Forall_app in Hok as [HokA HokB]. cbn [fmap list_fmap] in HokB, HB, Hs.
  apply Forall_cons in HokB as [Hokc HokB], HB as [HBc HB]. rewrite Hc in *.
  destruct Hokc as [Hcn Hcs], He as [Hsn Hos]. cbn [fst snd] in *.
  rewrite SFeqb_key, Hsc by (done || by rewrite Hsc).
  assert (lt_elem (s, o) (cscore c, m) = match lexc (skey s) (skey (cscore c)) with
    Eq => negb (equalslObj m o) | _ => true end) as Hlt.
  { unfold lt_elem in HBc |- *. rewrite key_compare in HBc |- *. cbn [fst snd] in *.
    rewrite (lexc_flip (skey s)) in HBc.
    destruct (lexc (skey s) (skey (cscore c))); try done. rewrite (lexc_flip o) in HBc.
    pose proof (equalslObj_spec m o Hcs Hos) as Heq.
    destruct (lexc o m) eqn:Hom; simpl in *; [|by destruct (equalslObj m o); [rewrite (proj1 Heq eq_refl), lexc_refl in Hom|]|done].
    apply lexc_eq in Hom as ->. by rewrite (proj2 Heq eq_refl). }
  unfold member. rewrite Ho, Hm. cbn [obind]. rewrite Hlt.
  destruct (lexc (skey s) (skey (cscore c))); [|by apply returns_done..].
  destruct (equalslObj m o); [|by apply returns_done]. cbn [negb].
  destruct (delete_node_spec sl A c B U m) as (sl' & h' & -> & Hfree & Hrep' & _); try done.
  { rewrite length_app, !length_fmap in Hlen. unfold MAX_LENGTH in Hlen. rewrite length_app. simpl in *. lia. }
  cbn [obind]. rewrite Hfree. cbn [obind]. apply returns_done. split; [done|].
  exists (A ++ B). split; [done|]. unfold elems. rewrite fmap_app. split; [done|].
  split; [by eapply sorted_delete|]. split; [by apply Forall_app|].
  rewrite !length_app in *. rewrite fmap_cons in Hlen. cbn [length] in Hlen. lia.
Qed.
End ranks.

(** * Ranks, ranges and release of the ranking list *)
Import Skiplist.

Section nodes.
Implicit Types (A B L : list cell) (c d : cell) (x : ptr) (sl : skiplist) (l : list element).

(** A cell of the list in memory. *)
Lemma cell_node sl A c B :
  rep sl (A ++ c :: B) → ∃ n m,
    mem sl !! cp c = Some n ∧ obj n = Some m ∧ score n = cscore c ∧ elem c = (cscore c, m) ∧
    backward n = front None A ∧ level_of n 0 = Done (link 0 B).
Proof.
  intros Hrep. pose proof (rp_shape _ _ Hrep) as Hsh. rewrite app_comm_cons in Hsh.
  apply shaped_at in Hsh as (n & Hn & Ho & Hs & _ & _ & Hlv).
  destruct (node_elem sl _ c Hrep) as (m & Hm & He); [set_solver|].
  exists n, m. split_and!; try done; [congruence| |].
  - pose proof (rp_back _ _ Hrep) as Hb. apply backs_app in Hb as [_ [Hb _]].
    rewrite Hn in Hb. by injection Hb.
  - pose proof (rep_high _ _ Hrep) as Hh. apply Forall_app in Hh as [_ Hh].
    apply Forall_cons in Hh as [Hh _]. unfold level_of. by rewrite Hlv by lia.
Qed.

Lemma next_cell sl A c B : rep sl (A ++ c :: B) → ∃ s, link 0 B = (cp <$> head B, s).
Proof.
  intros Hrep. pose proof (rep_high _ _ Hrep) as Hh. apply Forall_app in Hh as [_ Hh].
  apply Forall_cons in Hh as [_ Hh]. rewrite <- link_zero by done. destruct (link 0 B). by eexists.
Qed.

(** Following the pointers from a cut. *)
Lemma range_forward sl n A B :
  rep sl (A ++ B) →
  range_loop n (mem sl) false (cp <$> head B) = Done (take n (members (elems B))).
Proof.
  revert A B. induction n as [|n IH]; intros A B Hrep; [done|].
  destruct B as [|c B]; [done|]. cbn [head fmap option_fmap option_map range_loop].
  destruct (cell_node sl A c B Hrep) as (nd & m & Hn & Ho & Hs & He & Hb & Hl).
  destruct (next_cell sl A c B Hrep) as [s Hs0].
  unfold deref at 1. rewrite Hn. cbn [obind]. unfold member. rewrite Ho. cbn [obind].
  unfold next_node, deref. rewrite Hn. cbn [obind]. rewrite Hl, Hs0. cbn [obind].
  rewrite (IH (A ++ [c]) B) by (by rewrite <- app_assoc). cbn [obind].
  unfold members, elems. rewrite !fmap_cons, He. done.
Qed.

Lemma range_backward sl n A B :
  rep sl (A ++ B) →
  range_loop n (mem sl) true (cp <$> last A) = Done (take n (reverse (members (elems A)))).
Proof.
  revert A B. induction n as [|n IH]; intros A B Hrep; [by destruct (cp <$> last A)|].
  destruct A as [|c A _] using rev_ind; [done|]. rewrite last_snoc.
  cbn [fmap option_fmap option_map range_loop]. rewrite <- app_assoc in Hrep.
  destruct (cell_node sl A c B Hrep) as (nd & m & Hn & Ho & Hs & He & Hb & Hl).
  unfold deref at 1. rewrite Hn. cbn [obind]. unfold member. rewrite Ho. cbn [obind].
  unfold next_node, deref. rewrite Hn. cbn [obind]. rewrite Hb, front_last.
  rewrite (IH A (c :: B)) by done. cbn [obind].
  unfold members, elems. rewrite !fmap_app, reverse_app. cbn [fmap list_fmap reverse].
  by rewrite He.
Qed.

(** [slGetNodeByRank]: the cell at the rank. *)
Lemma by_rank_loop_spec sl A c B k fuel F1 d F2 :
  rep sl (A ++ c :: B) → hd sl :: A ++ [c] = F1 ++ d :: F2 → (k ≤ cheight d)%nat → (0 < k)%nat →
  (length (A ++ [c]) < fuel)%nat →
  by_rank_loop k fuel (mem sl) (len A + 1) (cp d) (len F1) = Done (Some (cp c)).
Proof.
  intros Hrep. revert F1 d F2. induction k as [|k IH]; intros F1 d F2 Heq Hk Hpos Hfuel; [lia|].
  cbn [by_rank_loop]. pose proof (rp_shape _ _ Hrep) as Hsh.
  replace (hd sl :: A ++ c :: B) with ((hd sl :: A ++ [c]) ++ B) in Hsh by (simpl; by rewrite <- app_assoc).
  destruct (walk_spec (mem sl) (hd sl :: A ++ [c]) B (fun acc _ => Done (acc <=? len A + 1)) Hsh)
    with (fuel := fuel) (i := k) (F1 := F1) (c := d) (F2 := F2) as (G1 & e & G2 & HG & He & Hlow & ->); try done.
  { intros G1 e G2 n HG _ _ _. do 2 f_equal. apply Z.leb_le.
    apply (f_equal length) in HG. simpl in HG. rewrite !length_app in HG. simpl in HG. lia. }
  { intros G1 e G2 n _ _ _. f_equal. apply Z.leb_gt. simpl. rewrite length_app. simpl. lia. }
  { apply (f_equal length) in Heq. simpl in Heq. rewrite !length_app in *. simpl in *. lia. }
  cbn [obind]. destruct (Z.eqb_spec (len G1) (len A + 1)) as [Hr|Hr].
  - do 2 f_equal. destruct G1 as [|g G1]; [simpl in Hr; lia|]. injection HG as _ HG.
    symmetry in HG. apply app_inj_1 in HG as [_ Hx]; [by injection Hx as ->|simpl in Hr; lia].
  - destruct (decide (k = 0)%nat) as [->|Hk0]; [|by apply (IH G1 e G2); try done; lia]. exfalso.
    assert (G2 = []) as ->.
    { destruct G2 as [|g G2]; [done|]. exfalso. apply Forall_cons in Hlow as [Hg _].
      pose proof (rep_high _ _ Hrep) as Hh. rewrite Forall_forall in Hh.
      assert (g ∈ A ++ c :: B) as Hin; [|apply Hh in Hin; lia].
      assert (g ∈ A ++ [c]); [|set_solver].
      destruct G1 as [|? G1]; injection HG as ? ->; set_solver. }
    apply Hr. apply (f_equal length) in HG. simpl in HG. rewrite !length_app in HG. simpl in HG. lia.
Qed.

Lemma slGetNodeByRank_spec sl L rank :
  rep sl L → 0 ≤ rank →
  slGetNodeByRank sl rank =
    Done (if rank =? 0 then None else cp <$> L !! Z.to_nat (rank - 1)).
Proof.
  intros Hrep H0. unfold slGetNodeByRank. rewrite (rp_length _ _ Hrep).
  destruct (Z.eqb_spec rank 0) as [->|Hne]; [done|]. cbn [orb].
  destruct (Z.ltb_spec (len L) rank) as [Hlt|Hle]; [by rewrite lookup_ge_None_2 by lia|].
  destruct (lookup_lt_is_Some_2 L (Z.to_nat (rank - 1))) as [c Hc]; [lia|].
  rewrite Hc. apply list_elem_of_split_length in Hc as (A & B & -> & HA).
  cbn [fmap option_fmap option_map].
  replace rank with (len A + 1) by lia. pose proof (rp_level _ _ Hrep).
  apply (by_rank_loop_spec sl A c B (level sl) _ [] (hd sl) (A ++ [c])); try done; [lia|].
  unfold walk_fuel. rewrite (rp_length _ _ Hrep), Nat2Z.id, !length_app. simpl. lia.
Qed.

(** A stop at level 0 is the last cell. *)
Lemma low_zero sl A B G1 d G2 :
  rep sl (A ++ B) → hd sl :: A = G1 ++ d :: G2 → low 0 G2 → G2 = [].
Proof.
  intros Hrep HG Hlow. destruct G2 as [|g G2]; [done|]. exfalso. apply Forall_cons in Hlow as [Hg _].
  pose proof (rep_high _ _ Hrep) as Hh. apply Forall_app in Hh as [Hh _]. rewrite Forall_forall in Hh.
  assert (g ∈ A) as Hin; [|apply Hh in Hin; lia].
  destruct G1 as [|? G1]; injection HG as ? ->; set_solver.
Qed.

(** [slGetRank]: every level stops at the last cell not after the key; a cell
    with the member is found at one of them. *)
Lemma rank_loop_spec sl A B s o k fuel F1 d F2 r :
  rep sl (A ++ B) → hd sl :: A = F1 ++ d :: F2 → (k ≤ cheight d)%nat → (0 < k)%nat →
  (length A < fuel)%nat →
  (∀ n c, c ∈ A → obj n = cobj c → score n = cscore c → not_after s o n = Done true) →
  (∀ n c, c ∈ B → obj n = cobj c → score n = cscore c → not_after s o n = Done false) →
  (∀ G1 c G2 m, A = G1 ++ c :: G2 → cobj c = Some m → equalslObj m o = true → r = len G1 + 1) →
  ((∀ c m, last A = Some c → cobj c = Some m → equalslObj m o = false) → r = 0) →
  rank_loop k fuel (mem sl) s o (cp d) (len F1) = Done r.
Proof.
  intros Hrep HF Hk Hpos Hfuel Hyes Hno Hmatch Hlast.
  revert F1 d F2 HF Hk Hpos. induction k as [|k IH]; intros F1 d F2 HF Hk Hpos; [lia|].
  cbn [rank_loop]. pose proof (rp_shape _ _ Hrep) as Hsh. rewrite app_comm_cons in Hsh.
  destruct (walk_spec (mem sl) (hd sl :: A) B (fun _ => not_after s o) Hsh)
    with (fuel := fuel) (i := k) (F1 := F1) (c := d) (F2 := F2) as (G1 & e & G2 & HG & He & Hlow & ->); try done.
  { intros [|g G1] e G2 n HG Hne Ho Hs; [done|]. injection HG as _ ->. apply (Hyes n e); set_solver. }
  { intros G1 e G2 n -> Ho Hs. apply (Hno n e); set_solver. }
  { apply (f_equal length) in HF. simpl in HF. rewrite length_app in HF. simpl in HF. lia. }
  cbn [obind]. assert (∀ k', k = k' → (0 < k')%nat → 
    rank_loop k' fuel (mem sl) s o (cp e) (len G1) = Done r) as Hcont.
  { intros k' <- Hk'. apply (IH G1 e G2); try done. lia. }
  assert (∀ Hne : (∀ c m, last A = Some c → G2 = [] → cobj c = Some m → equalslObj m o = false),
    rank_loop k fuel (mem sl) s o (cp e) (len G1) = Done r) as Hskip.
  { intros Hne. destruct k as [|k]; [|by apply Hcont; [|lia]]. simpl. f_equal. symmetry.
    apply Hlast. intros c m Hc. apply Hne; [done|]. by eapply low_zero. }
  destruct G1 as [|g G1]; injection HG as Hg HA.
  - subst e. destruct Hsh as [(n & Hn & Ho & _) _]. unfold deref. rewrite Hn. cbn [obind].
    rewrite Ho. simpl cobj. cbn iota. apply Hskip. intros c m Hc Hnil. by rewrite HA, Hnil in Hc.
  - rewrite HA, <- app_assoc in Hrep. cbn [app] in Hrep.
    destruct (cell_node sl G1 e (G2 ++ B) Hrep) as (n & m & Hn & Ho & _ & Hel & _).
    unfold deref. rewrite Hn. cbn [obind]. rewrite Ho.
    destruct (node_elem sl _ e Hrep) as (m' & Hm' & Hel'); [set_solver|].
    assert (m' = m) as -> by congruence.
    destruct (equalslObj m o) eqn:Hmo.
    + f_equal. rewrite (Hmatch G1 e G2 m) by done. simpl. lia.
    + apply Hskip. intros c mc Hc -> Hmc. rewrite HA, last_snoc in Hc. injection Hc as ->. congruence.
Qed.
End nodes.

(** * The queries of the ranking list, as functions of the sorted list *)
Import Skiplist.

Section loops.
Implicit Types (A B L : list cell) (c d : cell) (x : ptr) (sl : skiplist) (l : list element).

Lemma members_elems_cons c B m : elem c = (cscore c, m) →
  members (elems (c :: B)) = m :: members (elems B).
Proof. intros He. unfold members, elems. by rewrite !fmap_cons, He. Qed.

(** [slDeleteByRank]'s loop removes the first cells behind the cut. *)
Lemma delete_loop_spec fuel sl A B U end_ :
  rep sl (A ++ B) → stops (hd sl :: A) U (level sl) → len (A ++ B) + 2 < 2 ^ 32 →
  (length B < fuel)%nat →
  let n := Z.to_nat (end_ - len A) in
  returns (delete_loop fuel sl (cp <$> head B) (len A + 1) end_ U) (fun '(ms, sl') =>
    ms = members (elems (take n B)) ∧ rep sl' (A ++ drop n B)).
Proof.
  intros Hrep Hst Hlen Hfuel.
  assert (∀ k B sl t, rep sl (A ++ B) → stops (hd sl :: A) U (level sl) → len (A ++ B) + 2 < 2 ^ 32 →
    (length B < k)%nat →
    returns (delete_loop k sl (cp <$> head B) t end_ U) (fun '(ms, sl') =>
      ms = members (elems (take (Z.to_nat (end_ - t + 1)) B)) ∧
      rep sl' (A ++ drop (Z.to_nat (end_ - t + 1)) B))) as Hloop.
  { clear. induction k as [|k IH]; intros B sl t Hrep Hst Hlen Hk; [lia|].
    destruct B as [|c B]; cbn [delete_loop head fmap option_fmap option_map].
    { apply returns_done. by rewrite take_nil, drop_nil. }
    destruct (Z.leb_spec t end_) as [Hle|Hgt].
    2: { replace (Z.to_nat (end_ - t + 1)) with 0%nat by lia. by apply returns_done. }
    destruct (cell_node sl A c B Hrep) as (n & m & Hn & Ho & Hs & He & Hb & Hl).
    destruct (next_cell sl A c B Hrep) as [s0 Hs0].
    unfold level_at, deref. rewrite Hn. cbn [obind]. rewrite Hl, Hs0. cbn [obind].
    destruct (delete_node_spec sl A c B U m) as (sl' & h' & -> & Hfree & Hrep' & Hhd & Hlv & Hlen'); try done.
    { rewrite !length_app in *. simpl in *. lia. }
    { unfold elem in He. injection He as Hc. destruct (node_elem sl _ c Hrep) as (m' & Hm' & _); [set_solver|].
      by rewrite Hm' in Hc |- *; simplify_eq/=. }
    cbn [obind]. rewrite Hfree. cbn [obind].
    eapply returns_bind.
    - apply (IH B (set_mem h' sl') (t + 1)); try done.
      + unfold hd, hd_cell in *. simpl. rewrite Hhd. by apply (stops_shrink _ _ _ (level sl)).
      + rewrite !length_app in *. simpl in *. lia.
      + simpl in Hk. lia.
    - intros [ms sl2] [-> Hrep2]. apply returns_done.
      replace (Z.to_nat (end_ - t + 1)) with (S (Z.to_nat (end_ - (t + 1) + 1))) by lia.
      cbn [take drop]. by rewrite (members_elems_cons _ _ m). }
  intros n. specialize (Hloop fuel B sl (len A + 1) Hrep Hst Hlen Hfuel).
  unfold n. by replace (end_ - (len A + 1) + 1) with (end_ - len A) in Hloop by lia.
Qed.

(** The loops of [_get_score_range] stop at the first score beyond the bound. *)
Lemma score_forward sl A B1 B2 stop fuel :
  rep sl (A ++ B1 ++ B2) → (length B1 < fuel)%nat →
  Forall (fun c => SFltb stop (cscore c) = false) B1 →
  (∀ c, head B2 = Some c → SFltb stop (cscore c) = true) →
  score_loop fuel (mem sl) false stop (cp <$> head (B1 ++ B2)) = Done (members (elems B1)).
Proof.
  revert A fuel. induction B1 as [|c B1 IH]; intros A fuel Hrep Hfuel HB1 HB2; (destruct fuel as [|fuel]; [simpl in Hfuel; lia|]).
  - cbn [app]. destruct B2 as [|c B2]; [done|]. cbn [head fmap option_fmap option_map score_loop].
    destruct (cell_node sl A c B2 Hrep) as (n & m & Hn & Ho & Hs & He & Hb & Hl).
    unfold deref. rewrite Hn. cbn [obind]. by rewrite Hs, HB2.
  - cbn [app head fmap option_fmap option_map score_loop].
    destruct (cell_node sl A c (B1 ++ B2) Hrep) as (n & m & Hn & Ho & Hs & He & Hb & Hl).
    destruct (next_cell sl A c (B1 ++ B2) Hrep) as [s0 Hs0].
    apply Forall_cons in HB1 as [Hc HB1].
    unfold deref at 1. rewrite Hn. cbn [obind]. rewrite Hs, Hc. unfold member. rewrite Ho. cbn [obind].
    unfold next_node, deref. rewrite Hn. cbn [obind]. rewrite Hl, Hs0. cbn [obind].
    rewrite (IH (A ++ [c])); try done; [|by rewrite <- app_assoc|simpl in Hfuel; lia].
    cbn [obind]. by rewrite (members_elems_cons _ _ m).
Qed.

Lemma score_backward sl A1 A2 B stop fuel :
  rep sl ((A1 ++ A2) ++ B) → (length A2 < fuel)%nat →
  Forall (fun c => SFltb (cscore c) stop = false) A2 →
  (∀ c, last A1 = Some c → SFltb (cscore c) stop = true) →
  score_loop fuel (mem sl) true stop (cp <$> last (A1 ++ A2)) = Done (reverse (members (elems A2))).
Proof.
  revert B fuel. induction A2 as [|c A2 IH] using rev_ind; intros B fuel Hrep Hfuel HA2 HA1;
    (destruct fuel as [|fuel]; [rewrite ?length_app in Hfuel; simpl in Hfuel; lia|]).
  - rewrite app_nil_r in *. destruct A1 as [|c A1 _] using rev_ind; [done|]. rewrite last_snoc in *.
    cbn [fmap option_fmap option_map score_loop]. rewrite <- app_assoc in Hrep.
    destruct (cell_node sl A1 c B Hrep) as (n & m & Hn & Ho & Hs & He & Hb & Hl).
    unfold deref. rewrite Hn. cbn [obind]. by rewrite Hs, HA1.
  - rewrite app_assoc, last_snoc. cbn [fmap option_fmap option_map score_loop].
    rewrite app_assoc, <- app_assoc in Hrep. cbn [app] in Hrep.
    destruct (cell_node sl (A1 ++ A2) c B Hrep) as (n & m & Hn & Ho & Hs & He & Hb & Hl).
    apply Forall_app in HA2 as [HA2 Hc]. rewrite Forall_singleton in Hc.
    unfold deref at 1. rewrite Hn. cbn [obind]. rewrite Hs, Hc. unfold member. rewrite Ho. cbn [obind].
    unfold next_node, deref. rewrite Hn. cbn [obind]. rewrite Hb, front_last.
    rewrite (IH (c :: B)); try done; [|rewrite length_app in Hfuel; simpl in Hfuel; lia].
    cbn [obind]. unfold members, elems. rewrite !fmap_app, reverse_app. cbn [fmap list_fmap reverse].
    by rewrite He.
Qed.

(** [slFree]: every node is freed, its member with it. *)
Lemma free_loop_spec fuel h B :
  shaped h link B → NoDup (cp <$> B) → Forall (fun c => (1 ≤ cheight c)%nat ∧ is_Some (cobj c)) B →
  (length B < fuel)%nat →
  returns (free_loop fuel h (cp <$> head B)) (fun '(ms, h') =>
    ms = members (elems B) ∧ ∀ q, h' !! q = if decide (q ∈ cp <$> B) then None else h !! q).
Proof.
  revert h B. induction fuel as [|fuel IH]; intros h B Hsh Hnd Hc Hfuel; [lia|].
  destruct B as [|c B]; cbn [free_loop head fmap option_fmap option_map].
  { apply returns_done. split; [done|]. intros q. by rewrite decide_False by set_solver. }
  destruct Hsh as [Hcn HshB]. rewrite fmap_cons in Hnd. apply NoDup_cons in Hnd as [Hni HndB].
  apply Forall_cons in Hc as [[Hhc [m Hm]] HcB].
  rewrite (node_level _ _ _ _ 0 Hcn) by lia. cbn [obind].
  assert (Forall (fun c => (1 ≤ cheight c)%nat) B) as HhB by (eapply Forall_impl; [exact HcB|naive_solver]).
  pose proof (link_zero B HhB) as Hl0. destruct (link 0 B) as [fw sp]. cbn [fst] in Hl0. subst fw.
  destruct Hcn as (n & Hn & Ho & _). unfold slFreeNode, deref, member. rewrite Hn. cbn [obind].
  rewrite Ho, Hm. cbn [obind].
  eapply returns_bind.
  - apply (IH (delete (cp c) h) B); try done; [by apply shaped_delete|simpl in Hfuel; lia].
  - intros [ms h'] [-> Hh']. apply returns_done. split.
    + rewrite (members_elems_cons _ _ m); [done|]. unfold elem. by rewrite Hm.
    + intros q. rewrite Hh'. destruct (decide (q ∈ cp <$> B)) as [Hq|Hq].
      * rewrite decide_True; [done|]. rewrite fmap_cons. set_solver.
      * destruct (decide (q = cp c)) as [->|Hne].
        -- rewrite lookup_delete_eq, decide_True; [done|]. rewrite fmap_cons. set_solver.
        -- rewrite lookup_delete_ne, decide_False by (done || rewrite fmap_cons; set_solver). done.
Qed.
End loops.
