(* ===== verification/SkiplistProps.v ===== *)
(** * The properties of the ranking list *)
From Stdlib Require Import Floats.SpecFloat Sorting.Sorted.
From stdpp Require Import fin_sets infinite.
From S2P Require Import Prelude Libc Skiplist SkiplistCells SkiplistInv SkiplistOrder SkiplistInsert SkiplistDelete SkiplistQueries.
Import Skiplist.

(** ** Sessions *)
Section session.
Implicit Types (sl : skiplist) (l : list element).

Inductive op :=
  | Insert (e : element) (rs : list Z)
  | Delete (e : element)
  | DeleteByRank (a b : Z).

Inductive answer := Inserted | Deleted (b : bool) | Removed (ms : list (list Z)).

(** The ranks [a] to [b], from 1, and the others. *)
Definition slice (a b : Z) l : list element :=
  take (Z.to_nat (b - a + 1)) (drop (Z.to_nat (a - 1)) l).
Definition cut_out (a b : Z) l : list element :=
  take (Z.to_nat (a - 1)) l ++ drop (Z.to_nat (b - a + 1)) (drop (Z.to_nat (a - 1)) l).

(** One operation on a sorted list. *)
Definition model_step l (o : op) : answer * list element :=
  match o with
  | Insert e _ => (Inserted, insert_elem e l)
  | Delete e =>
      match delete_elem e l with Some l' => (Deleted true, l') | None => (Deleted false, l) end
  | DeleteByRank a b => (Removed (members (slice (Z.min a b) (Z.max a b) l)), cut_out (Z.min a b) (Z.max a b) l)
  end.

Fixpoint model_run l (os : list op) : list answer * list element :=
  match os with
  | [] => ([], l)
  | o :: os =>
      let '(a, l) := model_step l o in
      let '(rest, l) := model_run l os in (a :: rest, l)
  end.

Definition op_ok (o : op) : Prop :=
  match o with
  | Insert e rs => element_ok e ∧ is_Some (slRandomLevel rs)
  | Delete e => element_ok e
  | DeleteByRank a b => 1 ≤ a < 2 ^ 32 ∧ 1 ≤ b < 2 ^ 32
  end.

(** [alloc] and [junk]: where [malloc] puts a node and what it finds there. *)
Context (alloc : heap → ptr) (junk : heap → option ptr * Z).

Definition step sl (o : op) : out (answer * skiplist) :=
  match o with
  | Insert (s, o) rs =>
      let! sl := slInsert sl s o rs (alloc (mem sl)) (junk (mem sl)) in Done (Inserted, sl)
  | Delete (s, o) => let! (b, sl) := slDelete sl s o in Done (Deleted b, sl)
  | DeleteByRank a b => let! (ms, sl) := delete_by_rank sl a b in Done (Removed ms, sl)
  end.

Fixpoint run sl (os : list op) : out (list answer * skiplist) :=
  match os with
  | [] => Done ([], sl)
  | o :: os =>
      let! (a, sl) := step sl o in
      let! (rest, sl) := run sl os in
      Done (a :: rest, sl)
  end.

Hypothesis alloc_fresh : ∀ h, h !! alloc h = None.

Lemma slDeleteByRank_ranks sl l a b :
  ranks sl l → 1 ≤ a → a ≤ b →
  returns (slDeleteByRank sl a b) (fun '(ms, sl') =>
    ms = members (slice a b l) ∧ ranks sl' (cut_out a b l)).
Proof.
  intros (L & Hrep & <- & Hs & Hok & Hlen) Ha Hb. unfold slDeleteByRank.
  set (k := Z.to_nat (a - 1)). rewrite <- (take_drop k L) in Hrep.
  set (A := take k L) in *. set (B := drop k L) in *.
  assert (len A = Z.min (a - 1) (len L)) as HlA by (unfold A; rewrite length_take; lia).
  assert (B ≠ [] → len A = a - 1) as HlA'.
  { intros HB. assert (length B ≠ 0%nat) as Hl by (by destruct B). unfold B in Hl.
    rewrite length_drop in Hl. lia. }
  destruct (search_spec sl (A ++ B) A B (fun acc _ => Done (acc <? a)) Hrep eq_refl)
    as (U & -> & HU & Hst).
  { intros A1 d A2 n HA _ _. do 2 f_equal. apply Z.ltb_lt.
    apply (f_equal length) in HA. rewrite length_app in HA. simpl in HA. lia. }
  { intros B1 d B2 n HB _ _. do 2 f_equal. apply Z.ltb_ge.
    assert (B ≠ []) as Hne by (rewrite HB; by destruct B1). specialize (HlA' Hne). lia. }
  cbn [obind]. pose proof (rep_high _ _ Hrep) as Hh. apply Forall_app in Hh as [HhA _].
  pose proof (rp_level _ _ Hrep) as Hlv.
  rewrite (stops_zero sl A U (level sl)) by (done || lia). cbn [obind].
  destruct (end_level sl _ A B Hrep eq_refl) as [sp ->]. cbn [obind].
  pose proof (ranks_bound _ Hlen) as Hbound. rewrite <- (take_drop k L) in Hbound. fold A B in Hbound.
  eapply returns_mono.
  { apply (delete_loop_spec (walk_fuel sl) sl A B U b Hrep Hst Hbound).
    unfold walk_fuel. rewrite (rp_length _ _ Hrep), Nat2Z.id, length_app. lia. }
  intros [ms sl'] [-> Hrep'].
  assert (take (Z.to_nat (b - len A)) B = take (Z.to_nat (b - a + 1)) B ∧
    drop (Z.to_nat (b - len A)) B = drop (Z.to_nat (b - a + 1)) B) as [Ht Hd].
  { destruct (decide (B = [])) as [->|HB]; [by rewrite !take_nil, !drop_nil|].
    rewrite HlA' by done. by replace (b - (a - 1)) with (b - a + 1) by lia. }
  rewrite Ht in *. rewrite Hd in Hrep'.
  assert (elems (A ++ drop (Z.to_nat (b - a + 1)) B) = cut_out a b (elems L)) as Hel.
  { unfold cut_out, elems, A, B, k. by rewrite fmap_app, fmap_take, !fmap_drop. }
  split; [unfold slice, elems, B, k; by rewrite fmap_take, fmap_drop|].
  eexists. split; [exact Hrep'|]. split; [done|]. unfold cut_out.
  rewrite <- (take_drop k (elems L)) in Hs, Hok, Hlen. fold k.
  set (Be := drop k (elems L)) in *. set (n := Z.to_nat (b - a + 1)).
  rewrite <- (take_drop n Be) in Hs, Hok, Hlen.
  apply sorted_app in Hs as (HsA & HsB & HsAB). apply sorted_app in HsB as (_ & HsB & _).
  apply Forall_app in Hok as [HoA HoB]. apply Forall_app in HoB as [_ HoB].
  split; [|split; [by apply Forall_app|]].
  - apply sorted_app. split_and!; try done. eapply Forall_impl; [exact HsAB|].
    intros e He. by apply Forall_app in He as [_ ?].
  - rewrite !length_app in *. lia.
Qed.

Lemma insert_elem_length e l : length (insert_elem e l) = S (length l).
Proof. induction l as [|f l IH]; simpl; [done|]. destruct (lt_elem f e); simpl; by rewrite ?IH. Qed.

Lemma delete_elem_length e l l' : delete_elem e l = Some l' → (length l' ≤ length l)%nat.
Proof.
  revert l'. induction l as [|f l IH]; intros l'; simpl; [done|].
  destruct (lt_elem f e).
  - intros (l0 & Hl0 & ->)%fmap_Some. simpl. specialize (IH _ Hl0). lia.
  - destruct (lt_elem e f); [done|]. intros [= <-]. lia.
Qed.

Lemma cut_out_length a b l : (length (cut_out a b l) ≤ length l)%nat.
Proof. unfold cut_out. rewrite length_app, length_take, !length_drop. lia. Qed.

Lemma step_ranks sl l o :
  ranks sl l → op_ok o → len l + 1 < MAX_LENGTH →
  returns (step sl o) (fun '(a, sl') => a = (model_step l o).1 ∧ ranks sl' (model_step l o).2).
Proof.
  intros Hr Hok Hlen. destruct o as [[s o] rs|[s o]|a b]; cbn [step model_step op_ok fst snd] in *.
  - destruct Hok as [He Hrs]. eapply returns_bind; [by apply insert_ranks|].
    intros sl' H. by apply returns_done.
  - eapply returns_bind; [by apply delete_ranks|]. intros [b sl'] H. apply returns_done.
    destruct (delete_elem (s, o) l); [by destruct H as [-> ?]|]. by destruct H as [-> ->].
  - change (2 ^ 32) with 4294967296 in Hok. unfold delete_by_rank.
    rewrite !wrap_small by (change (2 ^ 32) with 4294967296; lia).
    apply (returns_bind _ _ (fun '(ms, sl') => ms = members (slice (Z.min a b) (Z.max a b) l) ∧
      ranks sl' (cut_out (Z.min a b) (Z.max a b) l))).
    + destruct (Z.ltb_spec b a);
        [rewrite Z.min_r, Z.max_l by lia|rewrite Z.min_l, Z.max_r by lia];
        apply slDeleteByRank_ranks; done || lia.
    + intros [ms sl'] [-> H]. by apply returns_done.
Qed.

Lemma run_ranks os : ∀ sl l,
  Forall op_ok os → ranks sl l → len l + len os + 1 < MAX_LENGTH →
  returns (run sl os) (fun '(answers, sl') =>
    answers = (model_run l os).1 ∧ ranks sl' (model_run l os).2).
Proof.
  induction os as [|o os IH]; intros sl l Hok Hr Hlen; simpl; [by apply returns_done|].
  apply Forall_cons in Hok as [Ho Hok].
  cbn [length] in Hlen. eapply returns_bind; [apply (step_ranks sl l o); [done..|lia]|].
  intros [a sl'] [-> Hr']. eapply returns_bind.
  - apply (IH sl' (model_step l o).2 Hok Hr').
    assert (length (model_step l o).2 ≤ S (length l))%nat; [|lia].
    destruct o as [e rs|e|a b]; simpl; [by rewrite insert_elem_length| |].
    + destruct (delete_elem e l) eqn:Hd; simpl; [apply delete_elem_length in Hd; lia|lia].
    + pose proof (cut_out_length (Z.min a b) (Z.max a b) l). lia.
  - intros [rest sl2] [-> Hr2]. apply returns_done. destruct (model_step l o) as [a l1]. simpl in *.
    by destruct (model_run l1 os).
Qed.

(** C4: any sequence of insertions, deletions and deletions by rank on the skip
    list, with whatever random levels and addresses, gives the answers of a sorted
    list, and ends in a memory that stands for that list. *)
Theorem skiplist_refines_sorted_list p os :
  Forall op_ok os → len os + 1 < MAX_LENGTH →
  returns (run (slCreate p) os) (fun '(answers, sl') =>
    answers = (model_run [] os).1 ∧ ranks sl' (model_run [] os).2).
Proof. intros Hok Hlen. by apply run_ranks; [|apply ranks_create|]. Qed.
End session.

Definition score_of (z : positive) : spec_float := S754_finite false z 0.
Definition demo_ops : list op :=
  [Insert (score_of 5, [65]) [70000; 65535]; Insert (score_of 3, [66]) [1; 65535];
   Insert (score_of 5, [64]) [65535]; Delete (score_of 4, [65]); DeleteByRank 9 2].

Definition demo_alloc (h : heap) : ptr := fresh (elements (dom h : gset ptr)).

Lemma demo_alloc_fresh h : h !! demo_alloc h = None.
Proof. apply (not_elem_of_dom (D:=gset ptr)). rewrite <- elem_of_elements. apply infinite_is_fresh. Qed.

Lemma demo_ops_ok : Forall op_ok demo_ops.
Proof.
  unfold demo_ops. repeat apply List.Forall_cons; try apply List.Forall_nil; cbn [op_ok]; try lia.
  all: unfold element_ok; repeat match goal with |- _ ∧ _ => split end; try (by eexists); done.
Qed.

Lemma skiplist_refines_sorted_list_witness :
  returns (run demo_alloc (fun _ => (Some 9%positive, 9)) (slCreate 1) demo_ops) (fun '(answers, sl') =>
    answers = [Inserted; Inserted; Inserted; Deleted false; Removed [[64]; [65]]] ∧
    ranks sl' [(score_of 3, [66])]).
Proof.
  apply (skiplist_refines_sorted_list demo_alloc (fun _ => (Some 9%positive, 9)) demo_alloc_fresh 1 demo_ops).
  - exact demo_ops_ok.
  - reflexivity.
Defined.

(** A list to try the queries on. *)
Definition demo_inserts : list op :=
  [Insert (score_of 5, [65]) [70000; 65535]; Insert (score_of 3, [66]) [1; 65535];
   Insert (score_of 5, [64]) [65535]].
Definition demo_list : list element := [(score_of 3, [66]); (score_of 5, [64]); (score_of 5, [65])].
Definition demo_sl : skiplist :=
  match run demo_alloc (fun _ => (None, 0)) (slCreate 1) demo_inserts with
  | Done (_, sl) => sl
  | _ => slCreate 1
  end.

Lemma demo_ranks : ranks demo_sl demo_list.
Proof.
  destruct (run_ranks demo_alloc (fun _ => (None, 0)) demo_alloc_fresh demo_inserts (slCreate 1) [])
    as ([answers sl] & Hrun & _ & Hr).
  - apply (Forall_app _ demo_inserts [Delete (score_of 4, [65]); DeleteByRank 9 2]). apply demo_ops_ok.
  - apply ranks_create.
  - reflexivity.
  - unfold demo_sl. rewrite Hrun. exact Hr.
Qed.

(** ** Queries *)
Section queries.
Implicit Types (sl : skiplist) (l : list element) (A B : list cell).

Lemma not_after_cut sl L s o :
  rep sl L → sorted (elems L) → Forall element_ok (elems L) → element_ok (s, o) →
  ∃ A B, L = A ++ B ∧
    Forall (fun e => lt_elem (s, o) e = false) (elems A) ∧ Forall (fun e => lt_elem (s, o) e = true) (elems B) ∧
    (∀ n c, c ∈ A → obj n = cobj c → score n = cscore c → not_after s o n = Done true) ∧
    (∀ n c, c ∈ B → obj n = cobj c → score n = cscore c → not_after s o n = Done false).
Proof.
  intros Hrep Hs Hok He.
  destruct (sorted_cut (fun e => negb (lt_elem (s, o) e)) _ Hs) as (A' & B' & Heq & HA & HB).
  { apply not_after_mono. }
  apply fmap_app_inv in Heq as (A & B & -> & -> & ->). exists A, B.
  setoid_rewrite negb_true_iff in HA. setoid_rewrite negb_false_iff in HB.
  split_and!; try done; intros n c Hc Ho Hsc;
    (destruct (node_elem sl _ c Hrep) as (m & Hm & Hel); [set_solver|]);
    (rewrite (not_after_spec s o n m), Hsc, <- Hel;
      [|congruence|rewrite Hsc, <- Hel; rewrite Forall_forall in Hok; apply Hok, list_elem_of_fmap_2; set_solver|done]);
    rewrite Forall_forall in HA, HB.
  - by rewrite HA by by apply list_elem_of_fmap_2.
  - by rewrite HB by by apply list_elem_of_fmap_2.
Qed.

Lemma members_app l1 l2 : members (l1 ++ l2) = members l1 ++ members l2.
Proof. apply fmap_app. Qed.

Lemma members_cell sl L c m : rep sl L → c ∈ L → cobj c = Some m → elem c = (cscore c, m).
Proof. intros Hrep Hc Hm. destruct (node_elem _ _ _ Hrep Hc) as (m' & Hm' & ->). congruence. Qed.

(** Members are unique: a member determines its place. *)
Lemma place_unique (A1 A2 : list element) e f (B1 B2 : list element) :
  NoDup (members (A1 ++ e :: B1)) → A1 ++ e :: B1 = A2 ++ f :: B2 → e.2 = f.2 → A1 = A2.
Proof.
  intros Hnd Heq Hm. unfold members in Hnd.
  assert (length A1 = length A2) as Hl.
  { apply (NoDup_lookup (snd <$> A1 ++ e :: B1) _ _ (e.2)); [done| |].
    - by rewrite list_lookup_fmap, list_lookup_middle.
    - by rewrite Heq, Hm, list_lookup_fmap, list_lookup_middle. }
  by apply app_inj_1 in Heq as [? _].
Qed.

Lemma small_member sl L c m : rep sl L → Forall element_ok (elems L) → c ∈ L → cobj c = Some m → small_str m.
Proof.
  intros Hrep Hok Hc Hm. rewrite Forall_forall in Hok.
  assert (elem c ∈ elems L) as Hin by by apply list_elem_of_fmap_2.
  apply Hok in Hin as [_ Hin]. by rewrite (members_cell _ _ _ _ Hrep Hc Hm) in Hin.
Qed.

Lemma key_member e (s : spec_float) (o : list Z) : key e = key (s, o) → e.2 = o.
Proof.
  unfold key. cbn [fst snd]. intros Heq. apply app_inj_1 in Heq as [_ ?]; [done|].
  by rewrite !length_skey.
Qed.

(** Behind a cut, the element that is looked for is found before it. *)
Lemma cut_contains (A B l1 l2 : list element) e s o :
  A ++ B = l1 ++ e :: l2 → key e = key (s, o) → Forall (fun e => lt_elem (s, o) e = true) B →
  ∃ K, A = l1 ++ e :: K.
Proof.
  intros Heq Hkey HB.
  assert (lt_elem (s, o) e = false) as Hlt by (unfold lt_elem; by rewrite Hkey, lexc_refl).
  apply app_eq_inv in Heq as [(K & HK & HKB)|(K & HK & HKB)]; [destruct K as [|f K]|].
  - cbn [app] in HKB. rewrite <- HKB in HB. apply Forall_cons in HB as [HB _]. congruence.
  - injection HKB as <- HKB. by exists K.
  - rewrite HKB in HB. apply Forall_app in HB as [_ HB]. apply Forall_cons in HB as [HB _]. congruence.
Qed.

(** It is the last one before the cut. *)
Lemma cut_last (l1 K : list element) e s o :
  sorted (l1 ++ e :: K) → Forall (fun e => lt_elem (s, o) e = false) (l1 ++ e :: K) →
  NoDup (members (l1 ++ e :: K)) → key e = key (s, o) → K = [].
Proof.
  intros Hs HA Hnd Hkey. destruct K as [|f K]; [done|]. exfalso.
  apply sorted_app in Hs as (_ & Hs & _). apply StronglySorted_inv in Hs as [_ Hs].
  apply Forall_cons in Hs as [Hs _]. apply Forall_app in HA as [_ HA].
  apply Forall_cons in HA as [_ HA]. apply Forall_cons in HA as [HA _].
  unfold lt_elem in HA. rewrite <- Hkey in HA.
  assert (key e = key f) as Hk2 by (apply lexc_eq; by destruct (lexc (key e) (key f))).
  rewrite Hkey in Hk2. symmetry in Hk2. apply key_member in Hk2, Hkey.
  rewrite members_app in Hnd. apply NoDup_app in Hnd as (_ & _ & Hnd).
  unfold members in Hnd. rewrite !fmap_cons in Hnd.
  apply NoDup_cons in Hnd as [Hni _]. apply Hni. rewrite Hkey, Hk2. by left.
Qed.

(** The rank is that of the last cell before the cut, if its member is the one looked
    for, and 0 otherwise. *)
Lemma rank_of_cut sl A B s o r :
  rep sl (A ++ B) → Forall element_ok (elems (A ++ B)) → element_ok (s, o) →
  (∀ n c, c ∈ A → obj n = cobj c → score n = cscore c → not_after s o n = Done true) →
  (∀ n c, c ∈ B → obj n = cobj c → score n = cscore c → not_after s o n = Done false) →
  (∀ G1 c G2, A = G1 ++ c :: G2 → cobj c = Some o → r = len G1 + 1) →
  ((∀ c, last A = Some c → cobj c ≠ Some o) → r = 0) →
  slGetRank sl s o = Done r.
Proof.
  intros Hrep Hok He Hyes Hno Hmatch Hlast. pose proof (rp_level _ _ Hrep) as Hlv. unfold slGetRank.
  assert (∀ c m, c ∈ A → cobj c = Some m → equalslObj m o = true ↔ m = o) as Hq.
  { intros c m Hc Hm. apply equalslObj_spec; [|apply He]. eapply small_member; [done..| |done]. set_solver. }
  apply (rank_loop_spec sl A B s o (level sl) (walk_fuel sl) [] (hd sl) A r); try done; [lia| | |].
  - unfold walk_fuel. rewrite (rp_length _ _ Hrep), Nat2Z.id, length_app. lia.
  - intros G1 c G2 m HG Hm Heq. apply (Hq c) in Heq; [|set_solver|done]. subst m. by apply (Hmatch G1 c G2).
  - intros H. apply Hlast. intros c Hc Hm. apply last_Some_elem_of in Hc as Hin.
    assert (equalslObj o o = true) as Hx by (by apply (Hq c)). by rewrite (H c o) in Hx.
Qed.

(** C23: when members are unique, as the Lua side keeps them, [get_rank] of an
    element is its position in the sorted order, from 1, and a member that is not
    in the list has no rank. *)
Theorem get_rank_position sl l s o :
  ranks sl l → element_ok (s, o) → NoDup (members l) →
  (∀ l1 e l2, l = l1 ++ e :: l2 → key e = key (s, o) → get_rank sl s o = Done (Some (len l1 + 1))) ∧
  (o ∉ members l → get_rank sl s o = Done None).
Proof.
  intros (L & Hrep & <- & Hs & Hok & Hlen) He Hnd.
  destruct (not_after_cut sl L s o Hrep Hs Hok He) as (A & B & -> & HA & HB & Hyes & Hno).
  pose proof (fun r => rank_of_cut sl A B s o r Hrep Hok He Hyes Hno) as Hrank.
  assert (∀ c, c ∈ A → cobj c = Some o → elem c = (cscore c, o)) as Hcell.
  { intros c Hc Hm. eapply members_cell; [exact Hrep|set_solver|done]. }
  unfold get_rank, elems in *. rewrite fmap_app, members_app in *. split.
  - intros l1 e l2 Heq Hkey. pose proof (key_member e s o Hkey) as Heo.
    destruct (cut_contains _ _ _ _ _ _ _ Heq Hkey HB) as [K HK].
    apply sorted_app in Hs as (Hs & _). apply NoDup_app in Hnd as (Hnd & _).
    rewrite (Hrank (len l1 + 1)); [cbn [obind]; destruct (Z.eqb_spec (len l1 + 1) 0); [lia|done]| |].
    + intros G1 c G2 HG Hm. cut (l1 = elem <$> G1); [intros ->; by rewrite length_fmap|].
      rewrite HG, fmap_app, fmap_cons in HK, Hnd. symmetry.
      apply (place_unique _ _ (elem c) e (elem <$> G2) K); [done|done|].
      rewrite (Hcell c); [by rewrite Heo|set_solver|done].
    + rewrite HK in Hs, HA, Hnd. pose proof (cut_last _ _ _ _ _ Hs HA Hnd Hkey) as ->.
      intros H. exfalso. apply fmap_app_inv in HK as (G1 & [|c [|? ?]] & -> & HK2 & ->); try done.
      rewrite fmap_cons in HK2. injection HK2 as ->.
      destruct (node_elem sl _ c Hrep) as (m & Hm & Hc); [set_solver|].
      rewrite Hc in Heo. cbn [snd] in Heo. subst m. by apply (H c); [rewrite last_snoc|].
  - intros Hni. rewrite (Hrank 0); [done| |done]. intros G1 c G2 HG Hm. exfalso. apply Hni.
    apply elem_of_app. left. apply list_elem_of_fmap. exists (elem c).
    split; [rewrite (Hcell c); [done|set_solver|done]|]. apply list_elem_of_fmap_2. set_solver.
Qed.

Lemma get_rank_position_witness :
  get_rank demo_sl (score_of 5) [64] = Done (Some 2) ∧ get_rank demo_sl (score_of 5) [1] = Done None.
Proof.
  assert (NoDup (members demo_list)) as Hnd by (apply (bool_decide_unpack _); exact I).
  split.
  - apply (proj1 (get_rank_position demo_sl demo_list (score_of 5) [64] demo_ranks ltac:(by split) Hnd)
      [(score_of 3, [66])] (score_of 5, [64]) [(score_of 5, [65])] eq_refl eq_refl).
  - apply (get_rank_position demo_sl demo_list (score_of 5) [1] demo_ranks ltac:(by split) Hnd).
    apply (bool_decide_unpack _). exact I.
Defined.

(** C24: [get_rank_range] is the slice of the sorted list between two ranks,
    backwards when the bounds are given backwards (and then empty when the first
    bound is beyond the end). *)
Theorem get_rank_range_slice sl l a b :
  ranks sl l → 1 ≤ a < 2 ^ 31 → 1 ≤ b < 2 ^ 31 →
  get_rank_range sl a b =
    Done (if a <=? b then members (slice a b l)
          else if a <=? len l then reverse (members (slice b a l)) else []).
Proof.
  intros (L & Hrep & <- & _) Ha Hb. change (2 ^ 31) with 2147483648 in *. unfold get_rank_range.
  rewrite !(wrap_small 64) by (change (2 ^ 64) with 18446744073709551616; lia).
  rewrite length_elems.
  assert (slGetNodeByRank sl a = Done (cp <$> L !! Z.to_nat (a - 1))) as Hnode.
  { rewrite (slGetNodeByRank_spec sl L) by (done || lia). by destruct (Z.eqb_spec a 0); [lia|]. }
  destruct (Z.leb_spec a b) as [Hab|Hab].
  - rewrite (wrap_small 64) by (change (2 ^ 64) with 18446744073709551616; lia).
    rewrite swrap_small by (change (2 ^ (32 - 1)) with 2147483648; lia).
    rewrite Hnode. cbn [obind].
    rewrite <- (take_drop (Z.to_nat (a - 1)) L) in Hrep.
    replace (cp <$> L !! Z.to_nat (a - 1)) with (cp <$> head (drop (Z.to_nat (a - 1)) L))
      by (by rewrite head_lookup, lookup_drop, Nat.add_0_r).
    rewrite (range_forward sl _ _ _ Hrep). f_equal. unfold slice, members, elems.
    by rewrite fmap_take, !fmap_drop.
  - rewrite (wrap_small 64) by (change (2 ^ 64) with 18446744073709551616; lia).
    rewrite swrap_small by (change (2 ^ (32 - 1)) with 2147483648; lia).
    rewrite Hnode. cbn [obind]. destruct (Z.leb_spec a (len L)) as [Hl|Hl].
    + rewrite <- (take_drop (Z.to_nat a) L) in Hrep.
      replace (cp <$> L !! Z.to_nat (a - 1)) with (cp <$> last (take (Z.to_nat a) L)).
      2: { rewrite last_lookup, length_take, lookup_take_lt by lia. do 2 f_equal. lia. }
      rewrite (range_backward sl _ _ _ Hrep). f_equal.
      rewrite take_reverse. f_equal. unfold slice, members, elems.
      rewrite !fmap_take, !fmap_drop, length_take, !length_fmap.
      rewrite skipn_firstn_comm. f_equal; [lia|]. f_equal. lia.
    + rewrite lookup_ge_None_2 by lia. by destruct (Z.to_nat (a - b + 1)).
Qed.

Lemma get_rank_range_slice_witness :
  get_rank_range demo_sl 3 2 = Done [[65]; [64]] ∧ get_rank_range demo_sl 2 9 = Done [[64]; [65]].
Proof. split; [apply (get_rank_range_slice demo_sl demo_list 3 2 demo_ranks); lia|apply (get_rank_range_slice demo_sl demo_list 2 9 demo_ranks); lia]. Defined.
End queries.
