(* ===== verification/SkiplistScores.v ===== *)
(** * Score ranges and release of the ranking list *)
From Stdlib Require Import Floats.SpecFloat Sorting.Sorted.
From S2P Require Import Prelude Libc Skiplist SkiplistCells SkiplistInv SkiplistOrder SkiplistInsert SkiplistDelete SkiplistQueries SkiplistProps.
Import Skiplist.

Section scores.
Implicit Types (sl : skiplist) (l : list element) (A B L : list cell) (s t : spec_float).

(** The order of scores, by their keys. *)
Definition slt s t : bool := match lexc (skey s) (skey t) with Lt => true | _ => false end.

Lemma SFltb_slt s t : is_number s → is_number t → SFltb s t = slt s t.
Proof. apply SFltb_key. Qed.

Lemma SFleb_slt s t : is_number s → is_number t → SFleb s t = negb (slt t s).
Proof.
  intros Hs Ht. rewrite SFleb_key by done. unfold slt. rewrite (lexc_flip (skey s)).
  by destruct (lexc (skey s) (skey t)).
Qed.

Lemma key_score e f : lexc (key e) (key f) ≠ Gt → lexc (skey e.1) (skey f.1) ≠ Gt.
Proof. rewrite key_compare. by destruct (lexc (skey e.1) (skey f.1)). Qed.

Lemma slt_true s t : slt s t = true ↔ lexc (skey s) (skey t) = Lt.
Proof. unfold slt. by destruct (lexc _ _). Qed.

(** A score below a smaller one, a score above a larger one. *)
Lemma slt_below e f t : lexc (key e) (key f) ≠ Gt → slt f.1 t = true → slt e.1 t = true.
Proof. rewrite !slt_true. intros H%key_score. by apply lexc_le_lt_trans. Qed.

Lemma slt_above e f t :
  lexc (key e) (key f) ≠ Gt → negb (slt t f.1) = true → negb (slt t e.1) = true.
Proof.
  rewrite !negb_true_iff. intros H%key_score Hf. destruct (slt t e.1) eqn:He; [|done].
  apply slt_true in He. rewrite <- Hf. symmetry. apply slt_true. by eapply lexc_lt_le_trans.
Qed.

Definition in_range s t (e : element) : bool := negb (slt e.1 s) && negb (slt t e.1).

Lemma filter_none p l : Forall (fun e => p e = false) l → List.filter p l = [].
Proof. induction 1 as [|e l He Hl IH]; simpl; [done|]. by rewrite He. Qed.

Lemma filter_all p l : Forall (fun e => p e = true) l → List.filter p l = l.
Proof. induction 1 as [|e l He Hl IH]; simpl; [done|]. by rewrite He, IH. Qed.

(** The three parts of a sorted list: below, inside and above the range. *)
Lemma range_split L s t :
  sorted (elems L) → slt t s = false →
  ∃ A M B, L = A ++ M ++ B ∧
    Forall (fun c => slt (cscore c) s = true) A ∧
    Forall (fun c => slt (cscore c) s = false ∧ slt t (cscore c) = false) M ∧
    Forall (fun c => slt t (cscore c) = true ∧ slt (cscore c) s = false) B ∧
    List.filter (in_range s t) (elems L) = elems M.
Proof.
  intros Hs Hst. destruct (sorted_cut (fun e => slt e.1 s) _ Hs) as (A' & B' & Heq & HA & HB).
  { intros e f. apply slt_below. }
  apply fmap_app_inv in Heq as (A & R & -> & -> & ->).
  unfold elems in Hs. rewrite fmap_app in Hs. apply sorted_app in Hs as (_ & Hs & _).
  destruct (sorted_cut (fun e => negb (slt t e.1)) _ Hs) as (M' & B' & Heq & HM & HB').
  { intros e f. apply slt_above. }
  apply fmap_app_inv in Heq as (M & B & -> & -> & ->).
  rewrite fmap_app in HB. apply Forall_app in HB as [HMs HBs].
  setoid_rewrite negb_true_iff in HM. setoid_rewrite negb_false_iff in HB'.
  rewrite Forall_fmap in HA, HM, HB', HMs, HBs.
  exists A, M, B. split_and!; try done.
  - apply Forall_and. by split.
  - apply Forall_and. by split.
  - unfold elems. rewrite !fmap_app, !List.filter_app.
    rewrite (filter_none _ (elem <$> A)), (filter_all _ (elem <$> M)), (filter_none _ (elem <$> B)).
    + by rewrite app_nil_r.
    + apply Forall_fmap. eapply Forall_impl; [exact HB'|]. intros c Hc. unfold in_range. simpl in *.
      rewrite Hc. apply andb_false_r.
    + apply Forall_fmap. rewrite Forall_forall in *. intros c Hc. unfold in_range. simpl in *.
      rewrite (HMs c), (HM c) by done. done.
    + apply Forall_fmap. eapply Forall_impl; [exact HA|]. intros c Hc. unfold in_range. simpl in *.
      by rewrite Hc.
Qed.

(** [slIsInRange]: the last score is not below, the first not above. *)
Lemma slIsInRange_spec sl L s t :
  rep sl L → Forall element_ok (elems L) → is_number s → is_number t → slt t s = false →
  slIsInRange sl s t = Done
    (match head L, last L with
     | Some c, Some d => negb (slt (cscore d) s) && negb (slt t (cscore c))
     | _, _ => false
     end).
Proof.
  intros Hrep Hok Hs Ht Hst. unfold slIsInRange. rewrite SFltb_slt, Hst by done.
  rewrite (rp_tail _ _ Hrep). destruct (last L) as [d|] eqn:Hd; [|by destruct L].
  cbn [fmap option_fmap option_map].
  assert (∀ c, c ∈ L → is_number (cscore c)) as Hnum.
  { intros c Hc. rewrite Forall_forall in Hok. by destruct (Hok (elem c) (list_elem_of_fmap_2 _ _ _ Hc)). }
  pose proof (last_Some_elem_of _ _ Hd) as Hdin.
  destruct (list_elem_of_split _ _ Hdin) as (A1 & B1 & HL1).
  pose proof Hrep as Hrep1. rewrite HL1 in Hrep1.
  destruct (cell_node _ _ _ _ Hrep1) as (n & m & Hn & _ & Hsc & _).
  unfold deref at 1. rewrite Hn. cbn [obind]. rewrite Hsc, SFltb_slt by auto.
  destruct L as [|c L]; [done|]. cbn [head].
  destruct (slt (cscore d) s); [done|]. cbn [negb andb].
  destruct (end_level sl _ [] (c :: L) Hrep eq_refl) as [sp Hlv]. unfold end_of in Hlv. simpl in Hlv.
  rewrite Hlv. cbn [obind].
  destruct (cell_node sl [] c L Hrep) as (nc & mc & Hnc & _ & Hscc & _).
  unfold deref. rewrite Hnc. cbn [obind]. rewrite Hscc, SFltb_slt; [done|done|]. apply Hnum. by left.
Qed.

(** Searching by score. *)
Lemma search_scores sl L A B adv (p : spec_float → bool) :
  rep sl L → Forall element_ok (elems L) → L = A ++ B →
  (∀ acc n, is_number (score n) → adv acc n = Done (p (score n))) →
  Forall (fun c => p (cscore c) = true) A → Forall (fun c => p (cscore c) = false) B →
  ∃ U, search sl adv = Done U ∧ at_level U 0 = Done (end_of sl A, len A).
Proof.
  intros Hrep Hok -> Hadv HA HB. pose proof (rp_level _ _ Hrep) as Hlv.
  assert (∀ c, c ∈ A ++ B → is_number (cscore c)) as Hnum.
  { intros c Hc. rewrite Forall_forall in Hok. by destruct (Hok (elem c) (list_elem_of_fmap_2 _ _ _ Hc)). }
  rewrite Forall_forall in HA, HB.
  destruct (search_spec sl (A ++ B) A B adv Hrep eq_refl) as (U & HU & Hl & Hst).
  - intros A1 d A2 n -> _ Hs. rewrite Hadv, Hs, HA; [done|set_solver|]. rewrite Hs. apply Hnum. set_solver.
  - intros B1 d B2 n -> _ Hs. rewrite Hadv, Hs, HB; [done|set_solver|]. rewrite Hs. apply Hnum. set_solver.
  - exists U. split; [done|]. apply (stops_zero sl A U (level sl)); [|lia|done].
    pose proof (rep_high _ _ Hrep) as Hh. by apply Forall_app in Hh as [? _].
Qed.

Lemma head_in_A {C} (P : C → Prop) (F G : list C) c :
  head (F ++ G) = Some c → Forall (fun d => ¬ P d) F → P c → F = [].
Proof. destruct F as [|d F]; [done|]. intros [= ->] [? _]%Forall_cons. done. Qed.

(** A range that [slIsInRange] rejects holds no element. *)
Lemma miss_empty A M B s t :
  slt t s = false → Forall (fun c => slt (cscore c) s = true) A →
  Forall (fun c => slt (cscore c) s = false ∧ slt t (cscore c) = false) M →
  Forall (fun c => slt t (cscore c) = true ∧ slt (cscore c) s = false) B →
  match head (A ++ M ++ B), last (A ++ M ++ B) with
  | Some c, Some d => negb (slt (cscore d) s) && negb (slt t (cscore c))
  | _, _ => false
  end = false → M = [].
Proof.
  intros Hst HA HM HB Hin. destruct M as [|m M]; [done|]. exfalso.
  destruct (head (A ++ (m :: M) ++ B)) as [c|] eqn:Hc; [|by destruct A].
  destruct (last (A ++ (m :: M) ++ B)) as [d|] eqn:Hd; [|by rewrite last_None in Hd; destruct A].
  apply andb_false_iff in Hin as [Hx|Hx]; rewrite negb_false_iff in Hx.
  - rewrite last_app in Hd. destruct (last ((m :: M) ++ B)) as [d'|] eqn:Hd'; [|by rewrite last_None in Hd'].
    injection Hd as ->. apply last_Some_elem_of in Hd'. rewrite elem_of_app in Hd'.
    rewrite Forall_forall in HM, HB. destruct Hd' as [Hd'|Hd'].
    + apply HM in Hd' as [? _]. congruence.
    + apply HB in Hd' as [_ ?]. congruence.
  - apply Forall_cons in HM as [[_ Hm] _].
    destruct A as [|a A]; injection Hc as ->; [congruence|].
    apply Forall_cons in HA as [Ha _]. apply slt_true in Ha, Hx.
    assert (slt t s = true) as Hy; [|congruence]. apply slt_true.
    eapply lexc_lt_le_trans; [exact Hx|]. by rewrite Ha.
Qed.

Lemma score_forward_range sl L s t :
  ranks sl (elems L) → rep sl L → is_number s → is_number t → slt t s = false →
  (let! x := slFirstInRange sl s t in score_loop (walk_fuel sl) (mem sl) false t x) =
    Done (members (List.filter (in_range s t) (elems L))).
Proof.
  intros (_ & _ & _ & Hsrt & Hok & _) Hrep Hs Ht Hst.
  destruct (range_split L s t Hsrt Hst) as (A & M & B & -> & HA & HM & HB & ->).
  assert (∀ c, c ∈ A ++ M ++ B → is_number (cscore c)) as Hnum.
  { intros c Hc. rewrite Forall_forall in Hok. by destruct (Hok (elem c) (list_elem_of_fmap_2 _ _ _ Hc)). }
  unfold slFirstInRange. rewrite (slIsInRange_spec sl _ s t Hrep Hok Hs Ht Hst). cbn [obind].
  destruct (match head (A ++ M ++ B) with Some _ => _ | None => _ end) eqn:Hin.
  - destruct (search_scores sl _ A (M ++ B) (fun _ n => Done (SFltb (score n) s)) (fun x => slt x s) Hrep Hok eq_refl)
      as (U & -> & Hu); [|done| |].
    { intros _ n Hn. by rewrite SFltb_slt. }
    { apply Forall_app. split; (eapply Forall_impl; [eassumption|]); naive_solver. }
    cbn [obind]. rewrite Hu. cbn [obind].
    destruct (end_level sl _ A (M ++ B) Hrep eq_refl) as [sp ->]. cbn [obind].
    apply (score_forward sl A M B); [done| | |].
    + unfold walk_fuel. rewrite (rp_length _ _ Hrep), Nat2Z.id, !length_app. lia.
    + rewrite Forall_forall in HM |- *. intros c Hc. rewrite SFltb_slt; [by apply HM|done|]. apply Hnum. set_solver.
    + intros c Hc. destruct B as [|b B]; [done|]. injection Hc as ->.
      apply Forall_cons in HB as [[HB _] _]. rewrite SFltb_slt; [done|done|]. apply Hnum. set_solver.
  - cbn [obind]. by rewrite (miss_empty A M B s t Hst HA HM HB Hin).
Qed.

Lemma score_backward_range sl L s t :
  ranks sl (elems L) → rep sl L → is_number s → is_number t → slt t s = false →
  (let! x := slLastInRange sl s t in score_loop (walk_fuel sl) (mem sl) true s x) =
    Done (reverse (members (List.filter (in_range s t) (elems L)))).
Proof.
  intros (_ & _ & _ & Hsrt & Hok & _) Hrep Hs Ht Hst.
  destruct (range_split L s t Hsrt Hst) as (A & M & B & -> & HA & HM & HB & ->).
  assert (∀ c, c ∈ A ++ M ++ B → is_number (cscore c)) as Hnum.
  { intros c Hc. rewrite Forall_forall in Hok. by destruct (Hok (elem c) (list_elem_of_fmap_2 _ _ _ Hc)). }
  assert (Forall (fun c => slt t (cscore c) = false) A) as HA'.
  { eapply Forall_impl; [exact HA|]. intros c Hc. destruct (slt t (cscore c)) eqn:Hx; [|done].
    apply slt_true in Hc, Hx. rewrite <- Hst. symmetry. apply slt_true.
    eapply lexc_lt_le_trans; [exact Hx|]. by rewrite Hc. }
  unfold slLastInRange. rewrite (slIsInRange_spec sl _ s t Hrep Hok Hs Ht Hst). cbn [obind].
  destruct (match head (A ++ M ++ B) with Some _ => _ | None => _ end) eqn:Hin.
  - rewrite app_assoc in Hrep.
    destruct (search_scores sl _ (A ++ M) B (fun _ n => Done (SFleb (score n) t)) (fun x => negb (slt t x)) Hrep)
      as (U & -> & Hu); [by rewrite <- app_assoc|done| | | |].
    { intros _ n Hn. by rewrite SFleb_slt. }
    { apply Forall_app. split; [eapply Forall_impl; [exact HA'|]|eapply Forall_impl; [exact HM|]]; intros c Hc; simpl in *; [by rewrite Hc|by destruct Hc as [_ ->]]. }
    { eapply Forall_impl; [exact HB|]. intros c [Hc _]. simpl. by rewrite Hc. }
    cbn [obind]. rewrite Hu. cbn [obind].
    assert (Some (end_of sl (A ++ M)) = cp <$> last (A ++ M)) as ->.
    { unfold end_of. destruct (last (A ++ M)) as [c|] eqn:Hc; [done|]. exfalso.
      apply last_None in Hc. rewrite app_assoc, Hc in Hin. destruct B as [|b B]; [done|].
      apply Forall_cons in HB as [[Hb _] _]. cbn [app head] in Hin. rewrite Hb in Hin.
      destruct (last (b :: B)); [|done]. by rewrite andb_false_r in Hin. }
    apply (score_backward sl A M B); [done| | |].
    + unfold walk_fuel. rewrite (rp_length _ _ Hrep), Nat2Z.id, !length_app. lia.
    + rewrite Forall_forall in HM |- *. intros c Hc. rewrite SFltb_slt; [by apply HM| |done]. apply Hnum. set_solver.
    + intros c Hc. apply last_Some_elem_of in Hc. rewrite Forall_forall in HA.
      rewrite SFltb_slt; [by apply HA| |done]. apply Hnum. set_solver.
  - cbn [obind]. by rewrite (miss_empty A M B s t Hst HA HM HB Hin).
Qed.

(** C25: [get_score_range] lists the members whose score is between the bounds, both
    included, in the order of the list, or backwards when the bounds are given
    backwards. *)
Theorem get_score_range_filter sl l s1 s2 :
  ranks sl l → is_number s1 → is_number s2 →
  get_score_range sl s1 s2 =
    Done (if SFleb s1 s2 then members (List.filter (in_range s1 s2) l)
          else reverse (members (List.filter (in_range s2 s1) l))).
Proof.
  intros (L & Hrep & <- & Hrest) Hs1 Hs2. unfold get_score_range.
  assert (ranks sl (elems L)) as Hr by by exists L.
  rewrite SFleb_slt by done. destruct (slt s2 s1) eqn:Hlt; cbn [negb].
  - rewrite (score_backward_range sl L s2 s1); try done.
    destruct (slt s1 s2) eqn:Hlt'; [|done]. apply slt_true in Hlt, Hlt'.
    rewrite lexc_flip, Hlt' in Hlt. done.
  - by rewrite (score_forward_range sl L s1 s2).
Qed.

Lemma get_score_range_filter_witness :
  get_score_range demo_sl (score_of 5) (score_of 4) = Done [[65]; [64]] ∧
  get_score_range demo_sl (score_of 2) (score_of 5) = Done [[66]; [64]; [65]].
Proof.
  split.
  - apply (get_score_range_filter demo_sl demo_list (score_of 5) (score_of 4) demo_ranks); done.
  - apply (get_score_range_filter demo_sl demo_list (score_of 2) (score_of 5) demo_ranks); done.
Defined.

(** C26: [slFree] frees every node with its member, once, and leaves no memory
    behind. *)
Theorem free_releases_all sl l :
  ranks sl l → returns (slFree sl) (fun '(ms, h) => ms = members l ∧ h = ∅).
Proof.
  intros (L & Hrep & <- & _ & Hok & _). unfold slFree. pose proof (rp_nodup _ _ Hrep) as Hnd.
  destruct (end_level sl L [] L Hrep eq_refl) as [sp Hlv]. unfold end_of in Hlv. simpl in Hlv.
  rewrite Hlv. cbn [obind]. apply NoDup_cons in Hnd as [Hni Hnd].
  pose proof (rp_shape _ _ Hrep) as [_ Hsh].
  eapply returns_mono.
  - apply (free_loop_spec (walk_fuel sl) (delete (header sl) (mem sl)) L); [by apply shaped_delete|done| |].
    + eapply Forall_impl; [apply (rp_cells _ _ Hrep)|]. intros c (? & ? & _). split; [lia|done].
    + unfold walk_fuel. rewrite (rp_length _ _ Hrep), Nat2Z.id. lia.
  - intros [ms h] [-> Hh]. split; [done|]. apply map_eq. intros q. rewrite Hh, lookup_empty.
    destruct (decide (q ∈ cp <$> L)) as [|Hq]; [done|].
    destruct (decide (q = header sl)) as [->|Hne]; [by rewrite lookup_delete_eq|].
    rewrite lookup_delete_ne by done. destruct (mem sl !! q) eqn:Hm; [|done]. exfalso.
    assert (q ∈ header sl :: (cp <$> L)) as [?|?]%elem_of_cons; [|done..].
    apply (rp_dom _ _ Hrep). by eexists.
Qed.

Lemma free_releases_all_witness :
  returns (slFree demo_sl) (fun '(ms, h) => ms = [[66]; [64]; [65]] ∧ h = ∅).
Proof. apply (free_releases_all demo_sl demo_list demo_ranks). Defined.
End scores.
