(* ===== verification/Strbuf.v ===== *)
(** * strbuf.c and strbuf.h: the growing string buffer of the JSON module

    [strbuf_t] is the C structure; its block is the list of its bytes, [None]
    for a byte that was never written, and [buf] is [None] for NULL. The sizes
    are C ints: every sum and product of the code is checked for overflow.
    [die] ends the process and is [Fault AssertFailed]; the allocator succeeds
    on every size that is not negative. The [debug] prints go to stderr and are
    left out. *)
From S2P Require Import Prelude.

Module Strbuf.

Record strbuf_t := Strbuf {
  buf : option (list (option Z));
  size : Z;
  slen : Z;
  increment : Z;
  dynamic : bool;
  reallocs : Z;
  debug : Z
}.

Definition STRBUF_DEFAULT_SIZE : Z := 1023.
Definition STRBUF_DEFAULT_INCREMENT : Z := -2.

Definition set_buf (b : option (list (option Z))) (s : strbuf_t) : strbuf_t :=
  Strbuf b (size s) (slen s) (increment s) (dynamic s) (reallocs s) (debug s).
Definition set_length (n : Z) (s : strbuf_t) : strbuf_t :=
  Strbuf (buf s) (size s) n (increment s) (dynamic s) (reallocs s) (debug s).

Section strbuf.
Context {E : Type}.
Abbreviation out A := (outcome E A).

Definition die {A} : out A := Fault AssertFailed.

(** [malloc] and [realloc]: a negative size is converted to a huge [size_t]. *)
Definition malloc (n : Z) : out (list (option Z)) :=
  if n <? 0 then die else Done (replicate (Z.to_nat n) None).
Definition realloc (b : list (option Z)) (n : Z) : out (list (option Z)) :=
  if n <? 0 then die
  else Done (take (Z.to_nat n) b ++ replicate (Z.to_nat n - length b) None).

(** [s->buf[i] = c] and [memcpy(s->buf + i, src, ...)]. *)
Definition put_byte (s : strbuf_t) (i : Z) (c : Z) : out strbuf_t :=
  match buf s with
  | None => Fault NullDeref
  | Some b => let! b := wr b i (Some c) in Done (set_buf (Some b) s)
  end.
Definition put_mem (s : strbuf_t) (i : Z) (src : list Z) : out strbuf_t :=
  match buf s with
  | None => Fault NullDeref
  | Some b => let! b := memcpy b i (Some <$> src) in Done (set_buf (Some b) s)
  end.

(** ** strbuf.h *)
Definition strbuf_reset (s : strbuf_t) : strbuf_t := set_length 0 s.

Definition strbuf_allocated (s : strbuf_t) : bool := bool_decide (is_Some (buf s)).

Definition strbuf_empty_length (s : strbuf_t) : Z := size s - slen s - 1.

Definition strbuf_length (s : strbuf_t) : Z := slen s.

Definition strbuf_ensure_null (s : strbuf_t) : out strbuf_t := put_byte s (slen s) 0.

(** ** strbuf.c *)
Definition strbuf_init (len : Z) : out strbuf_t :=
  let! sz := if len <=? 0 then Done STRBUF_DEFAULT_SIZE else int (len + 1) in
  let! b := malloc sz in
  strbuf_ensure_null (Strbuf (Some b) sz 0 STRBUF_DEFAULT_INCREMENT false 0 0).

Definition strbuf_new (len : Z) : out strbuf_t :=
  let! s := strbuf_init len in
  Done (Strbuf (buf s) (size s) (slen s) (increment s) true (reallocs s) (debug s)).

Definition strbuf_set_increment (s : strbuf_t) (inc : Z) : out strbuf_t :=
  if (inc =? 0) || (inc =? -1) then die
  else Done (Strbuf (buf s) (size s) (slen s) inc (dynamic s) (reallocs s) (debug s)).

(** The structure itself is released too when it was allocated by [strbuf_new]:
    nothing is left of it then. *)
Definition strbuf_free (s : strbuf_t) : option strbuf_t :=
  if dynamic s then None else Some (set_buf None s).

(** The text with its terminator passes to the caller. *)
Definition strbuf_free_to_string (s : strbuf_t)
    : out (option (list (option Z)) * Z * option strbuf_t) :=
  let! s := strbuf_ensure_null s in
  Done (buf s, slen s, if dynamic s then None else Some s).

(** The loop of the exponential sizing: the size at least doubles, so the number
    of bits of an int is enough fuel. *)
Fixpoint grow_loop (fuel : nat) (factor newsize reqsize : Z) : out Z :=
  match fuel with
  | O => NoFuel
  | S fuel' =>
      if newsize <? reqsize then
        let! newsize := int (newsize * factor) in
        grow_loop fuel' factor newsize reqsize
      else Done newsize
  end.

Definition calculate_new_size (s : strbuf_t) (len : Z) : out Z :=
  if len <=? 0 then die
  else
    let! reqsize := int (len + 1) in
    if reqsize <? size s then Done reqsize
    else if increment s <? 0 then
      let! factor := int (- increment s) in
      grow_loop 32 factor (size s) reqsize
    else
      let! a := int (size s + increment s) in
      let! n := int (((a - 1) / increment s) * increment s) in
      Done n.

Definition strbuf_resize (s : strbuf_t) (len : Z) : out strbuf_t :=
  let! newsize := calculate_new_size s len in
  let! b := realloc (default [] (buf s)) newsize in
  let! n := int (reallocs s + 1) in
  Done (Strbuf (Some b) newsize (slen s) (increment s) (dynamic s) n (debug s)).

Definition strbuf_ensure_empty_length (s : strbuf_t) (len : Z) : out strbuf_t :=
  if strbuf_empty_length s <? len
  then let! n := int (slen s + len) in strbuf_resize s n
  else Done s.

Definition strbuf_extend_length (s : strbuf_t) (len : Z) : out strbuf_t :=
  let! n := int (slen s + len) in Done (set_length n s).

Definition strbuf_append_char_unsafe (s : strbuf_t) (c : Z) : out strbuf_t :=
  let! s := put_byte s (slen s) c in strbuf_extend_length s 1.

Definition strbuf_append_char (s : strbuf_t) (c : Z) : out strbuf_t :=
  let! s := strbuf_ensure_empty_length s 1 in strbuf_append_char_unsafe s c.

Definition strbuf_append_mem_unsafe (s : strbuf_t) (c : list Z) : out strbuf_t :=
  let! s := put_mem s (slen s) c in strbuf_extend_length s (len c).

Definition strbuf_append_mem (s : strbuf_t) (c : list Z) : out strbuf_t :=
  let! s := strbuf_ensure_empty_length s (len c) in strbuf_append_mem_unsafe s c.

(** The loop over the characters before the terminator of [str]. *)
Fixpoint append_string_loop (s : strbuf_t) (space : Z) (str : list Z) : out strbuf_t :=
  match str with
  | [] => Done s
  | c :: str' =>
      if c =? 0 then Done s
      else
        let! (s, space) :=
          if space <? 1 then
            let! n := int (slen s + 1) in
            let! s := strbuf_resize s n in
            Done (s, strbuf_empty_length s)
          else Done (s, space) in
        let! s := strbuf_append_char_unsafe s c in
        append_string_loop s (space - 1) str'
  end.

Definition strbuf_append_string (s : strbuf_t) (str : list Z) : out strbuf_t :=
  append_string_loop s (strbuf_empty_length s) str.

(** [vsnprintf(s->buf + s->length, n, fmt, arg)] where [text] is what the format
    produces: at most [n] bytes are written, the terminator included, and a
    negative [n] is a huge [size_t]; the result is the length of the text. *)
Definition vsnprintf (s : strbuf_t) (n : Z) (text : list Z) : out (strbuf_t * Z) :=
  if n =? 0 then Done (s, len text)
  else
    let shown := if n <? 0 then text else take (Z.to_nat (n - 1)) text in
    let! s := put_mem s (slen s) (shown ++ [0]) in
    Done (s, len text).

Definition strbuf_append_fmt (s : strbuf_t) (len : Z) (text : list Z) : out strbuf_t :=
  let! s := strbuf_ensure_empty_length s len in
  let! (s, fmt_len) := vsnprintf s len text in
  strbuf_extend_length s fmt_len.

(** The loop makes at most two rounds. *)
Definition strbuf_append_fmt_retry (s : strbuf_t) (text : list Z) : out strbuf_t :=
  let empty_len := strbuf_empty_length s in
  let! (s, fmt_len) := vsnprintf s (empty_len + 1) text in
  if fmt_len <=? empty_len then strbuf_extend_length s fmt_len
  else
    let! n := int (slen s + fmt_len) in
    let! s := strbuf_resize s n in
    let empty_len := strbuf_empty_length s in
    let! (s, fmt_len) := vsnprintf s (empty_len + 1) text in
    if fmt_len <=? empty_len then strbuf_extend_length s fmt_len else die.

(** [strbuf_string] with the length: the bytes of the text. *)
Definition strbuf_string (s : strbuf_t) : out (list Z) :=
  match buf s with
  | None => Fault NullDeref
  | Some b =>
      let! l := rdn b (slen s) in
      if decide (Forall is_Some l) then Done (omap Datatypes.id l) else Fault Uninitialised
  end.
End strbuf.
End Strbuf.
