(* ===== verification/StrbufSpec.v ===== *)
(** * The string buffer holds a string

    [holds s str]: the buffer is allocated, its block has the size the structure
    says, starts with the bytes of [str] and has room for a terminator. With an
    exponential growth rate every operation keeps this and appends its argument,
    as long as the text stays below [room s]; with a linear growth rate the
    buffer does not grow. *)
From S2P Require Import Prelude Strbuf.

Module StrbufSpec.
Import Strbuf.

(** The block starts with [str]. *)
Definition starts (b : list (option Z)) (str : list Z) : Prop :=
  (Some <$> str) `prefix_of` b.

Record holds (s : strbuf_t) (str : list Z) : Prop := {
  h_buf : ∃ b, buf s = Some b ∧ len b = size s ∧ starts b str;
  h_len : slen s = len str;
  h_null : slen s < size s;
  h_max : size s ≤ INT_MAX;
  h_inc : - INT_MAX ≤ increment s ≤ -2;
  h_reallocs : 0 ≤ reallocs s < size s
}.

(** The longest text the sizes of the buffer can be computed for. *)
Definition room (s : strbuf_t) : Z := INT_MAX / - increment s - 1.

(** [grows s s']: the operation keeps the growth rate and the owner of the
    structure, and the buffer does not shrink. *)
Record grows (s s' : strbuf_t) : Prop := {
  g_inc : increment s' = increment s;
  g_dyn : dynamic s' = dynamic s;
  g_size : size s ≤ size s'
}.

#[export] Instance grows_preorder : PreOrder grows.
Proof. split; [split; done || lia|]. intros s1 s2 s3 [] []. split; congruence || lia. Qed.

Lemma grows_room s s' : grows s s' → room s' = room s.
Proof. intros []. unfold room. congruence. Qed.

(** [extends s str o]: the operation returns, and the buffer holds [str]. *)
Definition extends {E} (s : strbuf_t) (str : list Z) (o : outcome E strbuf_t) : Prop :=
  returns o (fun s' => holds s' str ∧ grows s s').

(** [appends s str o]: the same in the memory the buffer has. *)
Definition appends {E} (s : strbuf_t) (str : list Z) (o : outcome E strbuf_t) : Prop :=
  returns o (fun s' => holds s' str ∧ size s' = size s ∧ increment s' = increment s
    ∧ dynamic s' = dynamic s).

Section specs.
Context {E : Type}.
Abbreviation extends := (@extends E).
Abbreviation appends := (@appends E).

Lemma appends_extends s str o : appends s str o → extends s str o.
Proof.
  intros Ho. eapply returns_mono; [exact Ho|]. intros s' (? & ? & ? & ?).
  split; [done|]. split; done || lia.
Qed.

(** An operation of a buffer that was extended before. *)
Lemma extends_after s s1 str o : grows s s1 → extends s1 str o → extends s str o.
Proof.
  intros Hg Ho. eapply returns_mono; [exact Ho|]. intros s' []. split; [done|]. by etrans.
Qed.

(** Exponential sizing reaches every size it has room for. *)
Lemma grow_loop_ok fuel k n req :
  2 ≤ k → 1 ≤ n → req * k ≤ INT_MAX → req ≤ n * 2 ^ Z.of_nat fuel → n ≤ INT_MAX →
  returns (grow_loop (E:=E) (S fuel) k n req) (fun m => req ≤ m ≤ INT_MAX ∧ n ≤ m ∧
    (n < req → 2 * n ≤ m)).
Proof.
  intros Hk. revert n. induction fuel as [|fuel IH]; intros n Hn Hroom Hfuel Hmax;
    cbn [grow_loop]; destruct (Z.ltb_spec n req) as [Hlt|Hge];
    try (apply returns_done; lia).
  - change (2 ^ Z.of_nat 0) with 1 in Hfuel. lia.
  - rewrite int_ok by nia. cbn [obind].
    rewrite Nat2Z.inj_succ, Z.pow_succ_r in Hfuel by lia.
    eapply returns_mono; [apply IH|]; try nia. intros m (? & ? & ?). nia.
Qed.

(** [put_byte] and [put_mem] behind the text. *)
Lemma put_mem_ok s str c :
  holds s str → len str + len c ≤ size s →
  ∃ b rest, put_mem (E:=E) s (slen s) c =
      Done (set_buf (Some ((Some <$> str ++ c) ++ rest)) s) ∧
    buf s = Some b ∧ len ((Some <$> str ++ c) ++ rest) = size s.
Proof.
  intros [(b & Hb & Hsz & [rest ->]) Hlen _ _ _ _] Hroom.
  rewrite length_app, length_fmap in Hsz.
  exists ((Some <$> str) ++ rest), (drop (length c) rest). unfold put_mem. rewrite Hb, Hlen.
  rewrite memcpy_done by (rewrite length_app, !length_fmap; lia). cbn [obind].
  unfold splice. rewrite take_app_length', length_fmap by (by rewrite length_fmap).
  rewrite drop_app_ge, length_fmap, Nat.add_sub', fmap_app, app_assoc
    by (rewrite length_fmap; lia).
  split; [done|]. split; [done|]. rewrite !length_app, !length_fmap, length_drop. lia.
Qed.

Lemma put_mem_extends s str c :
  holds s str → len str + len c < size s →
  appends s (str ++ c) (let! s := put_mem s (slen s) c in strbuf_extend_length s (len c)).
Proof.
  intros Hs Hroom. destruct (put_mem_ok s str c Hs ltac:(lia)) as (b & rest & -> & Hb & Hlen).
  destruct Hs as [_ Hl Hn Hm Hi Hr]. cbn [obind]. unfold strbuf_extend_length. cbn [slen set_buf].
  rewrite int_ok by lia. apply returns_done. split; [|done].
  constructor; cbn; try done; try (rewrite ?length_app; lia).
  eexists. split; [done|]. split; [done|]. by eexists.
Qed.

(** A resize upwards. *)
Lemma resize_ok s str n :
  holds s str → size s ≤ n ≤ room s →
  returns (strbuf_resize (E:=E) s n) (fun s' => holds s' str ∧ grows s s' ∧ n < size s').
Proof.
  intros [(b & Hb & Hsz & Hpre) Hl Hn Hm Hi Hr] Hroom. unfold room in Hroom.
  pose proof (Z.mul_div_le INT_MAX (- increment s) ltac:(lia)) as Hdiv.
  assert ((n + 1) * - increment s ≤ INT_MAX) as Hreq by nia.
  unfold strbuf_resize, calculate_new_size.
  destruct (Z.leb_spec n 0); [lia|]. rewrite (int_ok (n + 1)) by nia. cbn [obind].
  destruct (Z.ltb_spec (n + 1) (size s)); [lia|].
  destruct (Z.ltb_spec (increment s) 0); [|lia].
  rewrite (int_ok (- increment s)) by lia. cbn [obind].
  eapply returns_bind.
  { apply (grow_loop_ok 31); [lia|lia|done| |lia]. change (2 ^ Z.of_nat 31) with (INT_MAX + 1). nia. }
  intros m (Hm1 & Hm2 & Hm3). unfold realloc. rewrite Hb. cbn [default from_option id].
  destruct (Z.ltb_spec m 0); [lia|]. cbn [obind]. rewrite int_ok by lia. apply returns_done.
  rewrite take_ge by lia.
  split; [|split; [split; cbn; done || lia|cbn; lia]].
  constructor; cbn; try done; try lia. eexists. split; [done|]. split.
  - rewrite length_app, length_replicate. lia.
  - unfold starts. by apply prefix_app_r.
Qed.

Lemma ensure_ok s str n :
  holds s str → 0 ≤ n → len str + n ≤ room s →
  returns (strbuf_ensure_empty_length (E:=E) s n)
    (fun s' => holds s' str ∧ grows s s' ∧ len str + n < size s').
Proof.
  intros Hs Hn Hroom. pose proof (h_len _ _ Hs) as Hl. unfold strbuf_ensure_empty_length, strbuf_empty_length.
  destruct (Z.ltb_spec (size s - slen s - 1) n).
  - assert (room s ≤ INT_MAX).
    { unfold room. destruct Hs. pose proof (Z.div_le_upper_bound INT_MAX (- increment s) INT_MAX). unfold INT_MAX in *. nia. }
    rewrite int_ok by lia. cbn [obind]. rewrite Hl.
    apply resize_ok; [done|lia].
  - apply returns_done. split; [done|]. split; [done|lia].
Qed.

(** ** Appending *)
Lemma append_mem_unsafe_ok s str c :
  holds s str → len str + len c < size s → appends s (str ++ c) (strbuf_append_mem_unsafe s c).
Proof. apply put_mem_extends. Qed.

Lemma append_mem_ok s str c :
  holds s str → len (str ++ c) ≤ room s → extends s (str ++ c) (strbuf_append_mem s c).
Proof.
  intros Hs Hroom. rewrite length_app in Hroom. unfold strbuf_append_mem.
  eapply returns_bind; [apply (ensure_ok s str); [done|lia..]|].
  intros s1 (Hs1 & Hg & Hsz). apply (extends_after _ s1); [done|].
  by apply appends_extends, put_mem_extends.
Qed.

Lemma put_byte_mem s c : holds s c → ∀ x, put_byte (E:=E) s (slen s) x = put_mem s (slen s) [x].
Proof.
  intros [(b & Hb & Hsz & _) Hl Hn _ _ _] x. unfold put_byte, put_mem. rewrite Hb.
  unfold wr, memcpy. cbn [fmap list_fmap length].
  destruct (Z.leb_spec 0 (slen s)), (Z.ltb_spec (slen s) (len b)), (Z.leb_spec (slen s + Z.of_nat 1) (len b));
    try lia; cbn [andb]; [|done..]. do 3 f_equal.
  unfold zset, splice. rewrite insert_take_drop by lia. f_equal. cbn. do 2 f_equal. lia.
Qed.

Lemma append_char_unsafe_ok s str c :
  holds s str → len str + 1 < size s → appends s (str ++ [c]) (strbuf_append_char_unsafe s c).
Proof.
  intros Hs Hroom. unfold strbuf_append_char_unsafe. rewrite (put_byte_mem s str) by done.
  apply (put_mem_extends s str [c]); [done|]. cbn [length]. lia.
Qed.

Lemma append_char_ok s str c :
  holds s str → len str < room s → extends s (str ++ [c]) (strbuf_append_char s c).
Proof.
  intros Hs Hroom. unfold strbuf_append_char.
  eapply returns_bind; [apply (ensure_ok s str); [done|lia..]|].
  intros s1 (Hs1 & Hg & Hsz). apply (extends_after _ s1); [done|].
  by apply appends_extends, append_char_unsafe_ok.
Qed.

Lemma append_string_loop_ok s str c :
  holds s str → len (str ++ c) ≤ room s → Forall (fun x => x ≠ 0) c →
  extends s (str ++ c) (append_string_loop s (strbuf_empty_length s) c).
Proof.
  intros Hs Hroom Hc. revert s str Hs Hroom. induction Hc as [|x c Hx Hc IH]; intros s str Hs Hroom.
  { apply returns_done. rewrite app_nil_r. done. }
  cbn [append_string_loop]. rewrite (proj2 (Z.eqb_neq x 0)) by done.
  rewrite length_app in Hroom. cbn [length] in Hroom.
  eapply (returns_bind _ _ (fun p => holds p.1 str ∧ grows s p.1 ∧ len str + 1 < size p.1
    ∧ p.2 = strbuf_empty_length p.1)).
  - destruct (ensure_ok s str 1 Hs ltac:(lia) ltac:(lia)) as (s1 & Hens & Hs1 & Hg & Hsz).
    unfold strbuf_ensure_empty_length in Hens.
    destruct (Z.ltb_spec (strbuf_empty_length s) 1) as [Hlt|Hge].
    + destruct (int (slen s + 1)) eqn:Hi; try done. cbn [obind] in Hens |- *. rewrite Hens.
      apply returns_done. done.
    + injection Hens as ->. apply returns_done. done.
  - intros [s1 sp] (Hs1 & Hg & Hsz & Hsp). cbn [fst snd] in *. subst sp.
    eapply returns_bind; [by apply append_char_unsafe_ok|]. intros s2 (Hs2 & Hsz2 & ? & ?).
    assert (strbuf_empty_length s1 - 1 = strbuf_empty_length s2) as ->.
    { unfold strbuf_empty_length. rewrite (h_len _ _ Hs2), (h_len _ _ Hs1), length_app.
      cbn [length]. lia. }
    assert (grows s s2) as Hg2 by (etrans; [done|]; split; done || lia).
    rewrite cons_middle, app_assoc. apply (extends_after _ s2); [done|].
    apply IH; [done|]. rewrite (grows_room _ _ Hg2), !length_app. cbn [length]. lia.
Qed.

Lemma append_string_ok s str c :
  holds s str → len (str ++ c) ≤ room s → Forall (fun x => x ≠ 0) c →
  extends s (str ++ c) (strbuf_append_string s c).
Proof. apply append_string_loop_ok. Qed.

(** Where the text fits there is no resize. *)
Lemma append_string_fits s str c :
  holds s str → len str + len c < size s → Forall (fun x => x ≠ 0) c →
  appends s (str ++ c) (strbuf_append_string s c).
Proof.
  unfold strbuf_append_string. intros Hs Hsz Hc. revert s str Hs Hsz.
  induction Hc as [|x c Hx Hc IH]; intros s str Hs Hsz.
  { apply returns_done. rewrite app_nil_r. done. }
  cbn [append_string_loop length] in *. rewrite (proj2 (Z.eqb_neq x 0)) by done.
  pose proof (h_len _ _ Hs) as Hl.
  rewrite (proj2 (Z.ltb_ge (strbuf_empty_length s) 1)) by (unfold strbuf_empty_length; lia).
  cbn [obind]. eapply returns_bind; [apply (append_char_unsafe_ok s str); [done|lia]|].
  intros s2 (Hs2 & Hsz2 & Hi2 & Hd2).
  assert (strbuf_empty_length s - 1 = strbuf_empty_length s2) as ->.
  { unfold strbuf_empty_length. rewrite (h_len _ _ Hs2), length_app. cbn [length]. lia. }
  eapply returns_mono; [apply (IH s2 (str ++ [x])); [done|]|].
  - rewrite length_app. cbn [length]. lia.
  - intros s3 (? & ? & ? & ?). rewrite cons_middle, app_assoc. split; [done|]. repeat split; congruence.
Qed.

(** ** Formatted text: written behind the text first, counted afterwards *)
Lemma put_text_ok s str c :
  holds s str → len str + len c ≤ size s →
  returns (put_mem (E:=E) s (slen s) c) (fun s' => holds s' str ∧ size s' = size s ∧
    increment s' = increment s ∧ dynamic s' = dynamic s ∧
    ∃ b, buf s' = Some b ∧ starts b (str ++ c)).
Proof.
  intros Hs Hroom. destruct (put_mem_ok s str c Hs Hroom) as (b & rest & -> & Hb & Hlen).
  apply returns_done. destruct Hs as [_ Hl Hn Hm Hi Hr].
  split; [|do 3 (split; [done|]); eexists; split; [done|by eexists]].
  constructor; cbn; try done. eexists. split; [done|]. split; [done|].
  rewrite fmap_app, <- app_assoc. by eexists.
Qed.

Lemma extend_ok s str c b :
  holds s str → buf s = Some b → starts b (str ++ c) → len str + len c < size s →
  appends s (str ++ c) (strbuf_extend_length s (len c)).
Proof.
  intros [(b' & Hb' & Hsz & _) Hl Hn Hm Hi Hr] Hb Hpre Hroom. simplify_eq.
  unfold strbuf_extend_length. rewrite int_ok by lia. apply returns_done.
  split; [|done]. constructor; cbn; try done; try (rewrite ?length_app; lia).
  eexists. done.
Qed.

Lemma vsnprintf_ok s str n text :
  holds s str → 0 < n ≤ size s - len str →
  returns (vsnprintf (E:=E) s n text) (fun p => p.2 = len text ∧ holds p.1 str ∧
    size p.1 = size s ∧ increment p.1 = increment s ∧ dynamic p.1 = dynamic s ∧
    (len text < n → ∃ b, buf p.1 = Some b ∧ starts b (str ++ text))).
Proof.
  intros Hs Hn. unfold vsnprintf. destruct (Z.eqb_spec n 0); [lia|].
  destruct (Z.ltb_spec n 0); [lia|].
  eapply returns_bind.
  { apply (put_text_ok _ str); [done|]. rewrite length_app, length_take. cbn [length]. lia. }
  intros s1 (Hs1 & Hsz & Hi & Hd & b & Hb & Hpre). apply returns_done.
  do 5 (split; [done|]). intros Hlt. exists b. split; [done|].
  rewrite take_ge in Hpre by lia. eapply prefix_app_l. unfold starts in *.
  rewrite app_assoc, (fmap_app _ (str ++ text)) in Hpre. exact Hpre.
Qed.

Lemma append_fmt_ok s str n text :
  holds s str → len str + n ≤ room s → len text < n →
  extends s (str ++ text) (strbuf_append_fmt s n text).
Proof.
  intros Hs Hroom Htext. unfold strbuf_append_fmt.
  eapply returns_bind; [apply (ensure_ok s str); [done|lia..]|]. intros s1 (Hs1 & Hg1 & Hsz1).
  eapply returns_bind; [apply (vsnprintf_ok s1 str n); [done|lia]|].
  intros [s2 m] (Hm & Hs2 & Hsz2 & Hi2 & Hd2 & Htx). cbn [fst snd] in *. subst m.
  destruct (Htx Htext) as (b & Hb & Hpre).
  apply (extends_after _ s2).
  - etrans; [exact Hg1|]. split; done || lia.
  - apply appends_extends. eapply extend_ok; [done..|]. lia.
Qed.

Lemma append_fmt_retry_ok s str text :
  holds s str → len (str ++ text) ≤ room s →
  extends s (str ++ text) (strbuf_append_fmt_retry s text).
Proof.
  intros Hs Hroom. rewrite length_app in Hroom. unfold strbuf_append_fmt_retry, strbuf_empty_length.
  pose proof (h_len _ _ Hs) as Hl. pose proof (h_null _ _ Hs) as Hnull.
  eapply returns_bind; [apply (vsnprintf_ok s str (size s - slen s - 1 + 1)); [done|lia]|].
  intros [s1 m] (Hm & Hs1 & Hsz1 & Hi1 & Hd1 & Htx). cbn [fst snd] in *. subst m.
  destruct (Z.leb_spec (len text) (size s - slen s - 1)).
  - destruct Htx as (b & Hb & Hpre); [lia|].
    apply (extends_after _ s1); [split; done || lia|].
    apply appends_extends. eapply extend_ok; [done..|]. lia.
  - pose proof (h_len _ _ Hs1) as Hl1.
    assert (room s1 = room s) as Hr1 by (unfold room; congruence).
    assert (room s ≤ INT_MAX).
    { unfold room. destruct Hs.
      pose proof (Z.div_le_upper_bound INT_MAX (- increment s) INT_MAX). unfold INT_MAX in *. nia. }
    rewrite int_ok by lia. cbn [obind].
    eapply returns_bind; [apply (resize_ok s1 str); [done|lia]|]. intros s2 (Hs2 & Hg2 & Hsz2).
    pose proof (h_len _ _ Hs2) as Hl2.
    eapply returns_bind; [apply (vsnprintf_ok s2 str (size s2 - slen s2 - 1 + 1)); [done|lia]|].
    intros [s3 m] (Hm & Hs3 & Hsz3 & Hi3 & Hd3 & Htx3). cbn [fst snd] in *. subst m.
    destruct (Z.leb_spec (len text) (size s2 - slen s2 - 1)); [|lia].
    destruct Htx3 as (b & Hb & Hpre); [lia|].
    apply (extends_after _ s3).
    + transitivity s1; [split; done || lia|]. transitivity s2; [done|]. split; done || lia.
    + apply appends_extends. eapply extend_ok; [done..|]. lia.
Qed.

(** ** Creation and reading *)
Lemma init_ok n :
  n < INT_MAX →
  returns (strbuf_init (E:=E) n) (fun s => holds s [] ∧ increment s = -2 ∧ dynamic s = false ∧
    n < size s).
Proof.
  intros Hn. unfold strbuf_init.
  eapply (returns_bind _ _ (fun z => 0 < z ≤ INT_MAX ∧ n < z)).
  { destruct (Z.leb_spec n 0).
    - apply returns_done. unfold STRBUF_DEFAULT_SIZE, INT_MAX. lia.
    - rewrite int_ok by lia. apply returns_done. lia. }
  intros z [Hz Hlt]. unfold malloc. destruct (Z.ltb_spec z 0); [lia|]. cbn [obind].
  set (s0 := Strbuf _ _ _ _ _ _ _).
  assert (holds s0 []) as Hs0.
  { subst s0. constructor; cbn; unfold STRBUF_DEFAULT_INCREMENT; try (done || lia).
    eexists. split; [done|]. rewrite length_replicate. split; [lia|]. by eexists. }
  unfold strbuf_ensure_null. rewrite (put_byte_mem _ _ Hs0).
  eapply returns_mono; [apply (put_text_ok s0 [] [0]); [done|cbn; lia]|].
  intros s1 (? & Hsz & ? & ? & _). by rewrite Hsz.
Qed.

Lemma new_ok n :
  n < INT_MAX →
  returns (strbuf_new (E:=E) n) (fun s => holds s [] ∧ increment s = -2 ∧ dynamic s = true ∧
    n < size s).
Proof.
  intros Hn. unfold strbuf_new. eapply returns_bind; [by apply init_ok|].
  intros s (Hs & ? & ? & ?). apply returns_done. split; [|done]. by destruct Hs.
Qed.

Lemma string_ok s str : holds s str → strbuf_string (E:=E) s = Done str.
Proof.
  intros [(b & Hb & Hsz & [rest ->]) Hl Hn Hm _ _]. unfold strbuf_string. rewrite Hb, Hl.
  rewrite length_app, length_fmap in Hsz.
  rewrite rdn_done by (rewrite length_app, length_fmap; lia). cbn [obind].
  rewrite take_app_length' by (by rewrite length_fmap).
  rewrite decide_True by (apply Forall_fmap, Forall_true; intros; by eexists).
  by rewrite omap_id_Some.
Qed.

Lemma ensure_null_ok s str :
  holds s str → returns (strbuf_ensure_null (E:=E) s) (fun s' => holds s' str ∧
    size s' = size s ∧ increment s' = increment s ∧ dynamic s' = dynamic s).
Proof.
  intros Hs. pose proof (h_null _ _ Hs). pose proof (h_len _ _ Hs). unfold strbuf_ensure_null.
  rewrite (put_byte_mem s str) by done.
  eapply returns_mono; [apply (put_text_ok s str [0]); [done|cbn [length]; lia]|].
  naive_solver.
Qed.

End specs.

Lemma reset_ok s str : holds s str → holds (strbuf_reset s) [].
Proof.
  intros [(b & Hb & Hsz & Hpre) Hl Hn Hm Hi Hr]. constructor; cbn; try done; try lia.
  exists b. split; [done|]. split; [done|]. apply prefix_nil.
Qed.

(** ** Sessions *)
Inductive op :=
  | Char (c : Z) | Mem (c : list Z) | Text (c : list Z)
  | Fmt (n : Z) (text : list Z) | FmtRetry (text : list Z) | Null | Reset.

Definition run_op (s : strbuf_t) (o : op) : outcome Empty_set strbuf_t :=
  match o with
  | Char c => strbuf_append_char s c
  | Mem c => strbuf_append_mem s c
  | Text c => strbuf_append_string s c
  | Fmt n text => strbuf_append_fmt s n text
  | FmtRetry text => strbuf_append_fmt_retry s text
  | Null => strbuf_ensure_null s
  | Reset => Done (strbuf_reset s)
  end.

Fixpoint run (s : strbuf_t) (os : list op) : outcome Empty_set strbuf_t :=
  match os with
  | [] => Done s
  | o :: os' => let! s := run_op s o in run s os'
  end.

(** The same on the text alone, and the conditions of the operations. *)
Definition text_op (str : list Z) (o : op) : list Z :=
  match o with
  | Char c => str ++ [c]
  | Mem c | Text c | Fmt _ c | FmtRetry c => str ++ c
  | Null => str
  | Reset => []
  end.

Definition op_ok (max : Z) (str : list Z) (o : op) : Prop :=
  match o with
  | Text c => Forall (fun x => x ≠ 0) c
  | Fmt n text => len text < n ∧ len str + n ≤ max
  | _ => True
  end ∧ len (text_op str o) ≤ max.

Fixpoint ops_ok (max : Z) (str : list Z) (os : list op) : Prop :=
  match os with
  | [] => True
  | o :: os' => op_ok max str o ∧ ops_ok max (text_op str o) os'
  end.

Lemma run_op_ok s str o :
  holds s str → op_ok (room s) str o → extends s (text_op str o) (run_op s o).
Proof.
  intros Hs [Ho Hlen]. destruct o; cbn [run_op text_op] in *.
  - apply append_char_ok; [done|]. rewrite length_app in Hlen. cbn [length] in Hlen. lia.
  - by apply append_mem_ok.
  - by apply append_string_ok.
  - apply append_fmt_ok; naive_solver.
  - by apply append_fmt_retry_ok.
  - eapply returns_mono; [by apply ensure_null_ok|]. intros s' (? & ? & ? & ?).
    split; [done|]. split; done || lia.
  - apply returns_done. split; [by eapply reset_ok|]. by split.
Qed.

(** C27: a buffer that grows exponentially holds, after any sequence of appends and
    resets from [strbuf_init], exactly the concatenation of what was appended since
    the last reset: no write leaves the block, no size overflows, the texts being
    at most [max] bytes long, the room of the default growth rate. *)
Theorem strbuf_appends n os max :
  n < INT_MAX → max = INT_MAX / 2 - 1 → ops_ok max [] os →
  returns (let! s := strbuf_init n in run s os)
    (fun s => strbuf_string (E:=Empty_set) s = Done (foldl text_op [] os)).
Proof.
  intros Hn Hmax Hos. eapply returns_bind; [by apply init_ok|].
  intros s (Hs & Hi & _ & _).
  assert (room s = max) as Hroom by (unfold room; by rewrite Hi, Hmax).
  clear Hmax Hi. revert s Hs Hroom. generalize (@nil Z) Hos. clear Hos.
  induction os as [|o os IH]; intros str Hos s Hs Hroom.
  { apply returns_done. by apply string_ok. }
  destruct Hos as [Ho Hos]. cbn [run foldl]. eapply returns_bind.
  { apply (run_op_ok s str); [done|]. by rewrite Hroom. }
  intros s1 [Hs1 Hg]. apply IH; [done..|]. by rewrite (grows_room _ _ Hg).
Qed.

Lemma strbuf_appends_witness :
  returns (let! s := strbuf_init 2 in
      run s [Char 91; Text (lit "abc"); Fmt 8 (lit "12"); Reset; Mem (lit "tail"); FmtRetry (lit "-99"); Null])
    (fun s => strbuf_string (E:=Empty_set) s = Done (lit "tail-99")).
Proof.
  apply (strbuf_appends 2 [Char 91; Text (lit "abc"); Fmt 8 (lit "12"); Reset; Mem (lit "tail");
    FmtRetry (lit "-99"); Null] (INT_MAX / 2 - 1)); [done|reflexivity|].
  repeat split; try (apply (bool_decide_unpack _); vm_compute; exact I); try (vm_compute; congruence).
Defined.

(** With a linear growth rate [strbuf_resize] rounds the present size up to a
    multiple of the increment and ignores the size that was asked for, so an
    append of more bytes than that is written outside the block. *)
Theorem linear_growth_overflows s b (str c : list Z) i :
  buf s = Some b → len b = size s → slen s = len str → increment s = i →
  0 < i → 0 < len c → 0 ≤ reallocs s < INT_MAX → len str + len c < INT_MAX →
  size s + i ≤ INT_MAX → (size s + i - 1) / i * i < len str + len c →
  strbuf_append_mem (E:=Empty_set) s c = Fault OutOfBounds.
Proof.
  intros Hb Hsz Hl Hi Hpos Hc Hr Hint Hroom Hsmall.
  pose proof (Z.div_mod (size s + i - 1) i ltac:(lia)) as Hdm.
  pose proof (Z.mod_pos_bound (size s + i - 1) i ltac:(lia)) as Hm.
  unfold strbuf_append_mem, strbuf_ensure_empty_length, strbuf_empty_length.
  destruct (Z.ltb_spec (size s - slen s - 1) (len c)); [|nia].
  rewrite int_ok by lia. cbn [obind]. unfold strbuf_resize, calculate_new_size.
  destruct (Z.leb_spec (slen s + len c) 0); [lia|]. rewrite int_ok by lia. cbn [obind].
  destruct (Z.ltb_spec (slen s + len c + 1) (size s)); [nia|].
  destruct (Z.ltb_spec (increment s) 0); [lia|]. rewrite Hi, int_ok by lia. cbn [obind].
  rewrite int_ok by nia. cbn [obind]. unfold realloc.
  destruct (Z.ltb_spec ((size s + i - 1) / i * i) 0); [nia|]. cbn [obind].
  rewrite int_ok by lia. cbn [obind]. rewrite Hb. cbn [default from_option id].
  unfold strbuf_append_mem_unsafe, put_mem. cbn [buf slen]. unfold memcpy.
  rewrite length_app, length_take, length_replicate, length_fmap.
  destruct (Z.leb_spec (slen s + len c)
    (Z.of_nat (Z.to_nat ((size s + i - 1) / i * i) `min` length b
      + (Z.to_nat ((size s + i - 1) / i * i) - length b))));
    [nia|]. by rewrite andb_false_r.
Qed.

Lemma linear_growth_overflows_witness :
  ∃ s, obind (E:=Empty_set) (strbuf_init 7) (fun s => strbuf_set_increment s 16) = Done s ∧
    strbuf_append_mem (E:=Empty_set) s (replicate 40 120) = Fault OutOfBounds.
Proof.
  eexists. split; [vm_compute; reflexivity|].
  eapply (linear_growth_overflows _ _ [] _ 16); [cbn; reflexivity|..];
    repeat split; vm_compute; congruence.
Defined.
End StrbufSpec.
