(* ===== verification/Double.v ===== *)
(** * Doubles: the conversions of the C library

    A C [double] is a [spec_float] of the Standard Library. [printf_g] is what
    [snprintf] prints for [%.<P>g] and [strtod] the conversion of the same name,
    both exact: integers of any size, one rounding to nearest even. [dp] is the
    decimal point of the locale. *)
From Stdlib Require Export Floats.SpecFloat.
From S2P Require Import Prelude Libc.

Module Double.

Abbreviation double := spec_float.

Definition of_Z (z : Z) : double := binary_normalize 53 1024 z 0 false.
Definition isnan (x : double) : bool := match x with S754_nan => true | _ => false end.
Definition isinf (x : double) : bool := match x with S754_infinity _ => true | _ => false end.
Definition neg (x : double) : bool :=
  match x with S754_zero s | S754_infinity s | S754_finite s _ _ => s | S754_nan => false end.

(** ** printf *)

(** [num / den], rounded to nearest, ties to even. *)
Definition div_round (num den : Z) : Z :=
  let q := num / den in
  match 2 * (num mod den) ?= den with
  | Lt => q
  | Gt => q + 1
  | Eq => if Z.even q then q else q + 1
  end.

(** The decimal exponent of [num / den]: the [x] with [10^x <= num/den < 10^(x+1)].
    A bit of the denominator is worth less than a digit. *)
Fixpoint up_loop (fuel : nat) (num den k : Z) : Z :=
  match fuel with
  | O => k
  | S fuel' => if den <=? num * 10 ^ k then k else up_loop fuel' num den (k + 1)
  end.
Definition dec_exp (num den : Z) : Z :=
  if den <=? num then len (fmt_u (num / den)) - 1
  else - up_loop (S (Z.to_nat (Z.log2 den))) num den 1.

(** The [P] significant digits of [num / den] as an integer, and its exponent. *)
Definition significant (P num den : Z) : Z * Z :=
  let x := dec_exp num den in
  let q := div_round (num * 10 ^ Z.max (P - 1 - x) 0) (den * 10 ^ Z.max (x - (P - 1)) 0) in
  if q =? 10 ^ P then (10 ^ (P - 1), x + 1) else (q, x).

(** Trailing zeros are not printed, nor a decimal point with nothing behind. *)
Fixpoint strip_zeros (ds : list Z) : list Z :=
  match ds with
  | [] => []
  | d :: ds' =>
      match strip_zeros ds' with
      | [] => if d =? 48 then [] else [d]
      | ds'' => d :: ds''
      end
  end.
Definition fraction (dp : Z) (ds : list Z) : list Z :=
  match strip_zeros ds with [] => [] | ds' => dp :: ds' end.

(** At least two digits of exponent. *)
Definition print_exp (x : Z) : list Z :=
  101 :: (if x <? 0 then 45 else 43) :: pad_left 2 48 (fmt_u (Z.abs x)).

Definition print_decimal (dp P q x : Z) : list Z :=
  let ds := fmt_u q in
  if (-4 <=? x) && (x <? P) then
    if 0 <=? x then take (Z.to_nat (x + 1)) ds ++ fraction dp (drop (Z.to_nat (x + 1)) ds)
    else 48 :: fraction dp (replicate (Z.to_nat (- x - 1)) 48 ++ ds)
  else take 1 ds ++ fraction dp (drop 1 ds) ++ print_exp x.

Definition printf_g (dp P : Z) (x : double) : list Z :=
  (if neg x then [45] else []) ++
  match x with
  | S754_zero _ => [48]
  | S754_infinity _ => lit "inf"
  | S754_nan => lit "nan"
  | S754_finite _ m e =>
      let '(q, x) := significant P (Z.pos m * 2 ^ Z.max e 0) (2 ^ Z.max (- e) 0) in
      print_decimal dp P q x
  end.

(** ** strtod *)
Definition signed (s : bool) (z : Z) : Z := if s then - z else z.

(** [d * 10^e], rounded once: a quotient of more than 64 bits with a sticky bit. *)
Definition of_decimal (s : bool) (d e : Z) : double :=
  if d =? 0 then S754_zero s
  else if 0 <=? e then binary_normalize 53 1024 (signed s (d * 10 ^ e)) 0 s
  else
    let den := 10 ^ (- e) in
    let k := Z.max 0 (Z.log2 den - Z.log2 d + 66) in
    let q := (d * 2 ^ k) / den in
    let sticky := if (d * 2 ^ k) mod den =? 0 then 0 else 1 in
    binary_normalize 53 1024 (signed s (2 * q + sticky)) (- k - 1) s.

Definition of_hex (s : bool) (d e : Z) : double :=
  if d =? 0 then S754_zero s else binary_normalize 53 1024 (signed s d) e s.

Definition lower (c : Z) : Z := if (65 <=? c) && (c <=? 90) then c + 32 else c.
Definition isalnum (c : Z) : bool :=
  isdigit c || ((97 <=? lower c) && (lower c <=? 122)).
Definition isxdigit (c : Z) : bool := isdigit c || ((97 <=? lower c) && (lower c <=? 102)).
Definition xvalue (c : Z) : Z := if isdigit c then c - 48 else lower c - 87.
Definition hex_value (ds : list Z) : Z := foldl (fun v c => v * 16 + xvalue c) 0 ds.

(** The rest of [s] behind the word [w], in any case. *)
Fixpoint word (w s : list Z) : option (list Z) :=
  match w, s with
  | [], _ => Some s
  | a :: w', c :: s' => if lower c =? a then word w' s' else None
  | _ :: _, [] => None
  end.

Definition sign (s : list Z) : bool * list Z :=
  match s with
  | c :: s' => if c =? 45 then (true, s') else if c =? 43 then (false, s') else (false, s)
  | [] => (false, s)
  end.

(** An exponent behind the letter [e]; without digits it is not read. *)
Definition exponent (e : Z) (s : list Z) : Z * list Z :=
  match s with
  | c :: s' =>
      if lower c =? e then
        let '(n, s'') := sign s' in
        match span isdigit s'' with
        | ([], _) => (0, s)
        | (ds, rest) => (signed n (dec_value ds), rest)
        end
      else (0, s)
  | [] => (0, s)
  end.

(** Digits with an optional fraction: the digits before and behind the point. *)
Definition mantissa (p : Z → bool) (dp : Z) (s : list Z) : option (list Z * list Z * list Z) :=
  let '(a, s1) := span p s in
  let '(b, s2) :=
    match s1 with
    | c :: s' => if c =? dp then span p s' else ([], s1)
    | [] => ([], s1)
    end in
  match a, b with
  | [], [] => None
  | _, [] =>
      match s1 with
      | c :: s' => if c =? dp then Some (a, [], s') else Some (a, [], s1)
      | [] => Some (a, [], s1)
      end
  | _, _ => Some (a, b, s2)
  end.

Definition decimal (dp : Z) (n : bool) (s : list Z) : option (double * list Z) :=
  match mantissa isdigit dp s with
  | None => None
  | Some (a, b, s) =>
      let '(e, s) := exponent 101 s in
      Some (of_decimal n (dec_value (a ++ b)) (e - len b), s)
  end.

Definition hexadecimal (dp : Z) (n : bool) (s : list Z) : option (double * list Z) :=
  match s with
  | z :: x :: s' =>
      if (z =? 48) && (lower x =? 120) then
        match mantissa isxdigit dp s' with
        | None => None
        | Some (a, b, s) =>
            let '(e, s) := exponent 112 s in
            Some (of_hex n (hex_value (a ++ b)) (e - 4 * len b), s)
        end
      else None
  | _ => None
  end.

(** [nan] with an optional sequence of letters, digits and underscores in
    parentheses. *)
Definition nan_rest (s : list Z) : list Z :=
  match s with
  | c :: s' =>
      if c =? 40 then
        match span (fun c => isalnum c || (c =? 95)) s' with
        | (_, c' :: rest) => if c' =? 41 then rest else s
        | (_, []) => s
        end
      else s
  | [] => s
  end.

(** The value and the rest of the string; [None] when there is no number, and
    [strtod] returns 0 with [endptr] at the beginning. *)
Definition strtod (dp : Z) (s : list Z) : option (double * list Z) :=
  let '(n, s) := sign (skip_space s) in
  match word (lit "infinity") s, word (lit "inf") s, word (lit "nan") s with
  | Some rest, _, _ | None, Some rest, _ => Some (S754_infinity n, rest)
  | None, None, Some rest => Some (S754_nan, nan_rest rest)
  | None, None, None =>
      match hexadecimal dp n s with
      | Some r => Some r
      | None => decimal dp n s
      end
  end.
End Double.
