(* ===== verification/DoubleSpec.v ===== *)
(** * What printf prints of a double, and what strtod reads back

    [number_text s]: the syntax of a printed number, a sign, digits without a
    leading zero, a fraction, an exponent. Every finite double is printed in it,
    in at most 21 characters for the precisions of the JSON module, and [strtod]
    reads all of it and nothing behind it. *)
From S2P Require Import Prelude Libc Double.

Module DoubleSpec.
Import Double.

(** ** Decimal digits *)
Abbreviation digits_ok := (Forall (fun c => 48 ≤ c ≤ 57)).

Lemma isdigit_Forall ds : digits_ok ds ↔ Forall (fun c => isdigit c = true) ds.
Proof. apply Forall_iff. intros c. by rewrite isdigit_true. Qed.

Lemma digits_length fuel n acc :
  0 < n < 2 ^ Z.of_nat fuel →
  ∃ ds, digits fuel 10 n acc = ds ++ acc ∧ 10 ^ (len ds - 1) ≤ n < 10 ^ len ds ∧
    (∃ d ds', ds = d :: ds' ∧ 49 ≤ d ≤ 57).
Proof.
  revert n acc. induction fuel as [|f IH]; intros n acc Hn.
  { change (2 ^ Z.of_nat 0) with 1 in Hn. lia. }
  cbn [digits]. pose proof (Z.div_mod n 10 ltac:(lia)) as Hdm.
  pose proof (Z.mod_pos_bound n 10 ltac:(lia)) as Hm.
  assert (hexdigit (n mod 10) = 48 + n mod 10) as Hh by (unfold hexdigit; zb).
  rewrite Hh. destruct (Z.eqb_spec (n / 10) 0) as [Hz|Hz].
  - exists [48 + n mod 10]. split; [done|]. cbn [length].
    change (10 ^ (Z.of_nat 1 - 1)) with 1. change (10 ^ Z.of_nat 1) with 10.
    split; [lia|]. eexists _, _. split; [done|]. lia.
  - rewrite Nat2Z.inj_succ, Z.pow_succ_r in Hn by lia.
    destruct (IH (n / 10) (48 + n mod 10 :: acc)) as (ds & Heq & Hlen & d & ds' & -> & Hd); [lia|].
    exists ((d :: ds') ++ [48 + n mod 10]). rewrite Heq, <- app_assoc. split; [done|].
    split; [|by eexists _, _].
    rewrite length_app. cbn [length] in *.
    replace (Z.of_nat (S (length ds') + 1) - 1) with (Z.succ (Z.of_nat (S (length ds')) - 1)) by lia.
    replace (Z.of_nat (S (length ds') + 1)) with (Z.succ (Z.of_nat (S (length ds')))) by lia.
    rewrite !Z.pow_succ_r by lia. lia.
Qed.

Lemma fmt_u_length n :
  0 < n → 10 ^ (len (fmt_u n) - 1) ≤ n < 10 ^ len (fmt_u n) ∧
    ∃ d ds, fmt_u n = d :: ds ∧ 49 ≤ d ≤ 57.
Proof.
  intros Hn. unfold fmt_u, digits_fuel.
  destruct (digits_length (S (Z.to_nat (Z.log2 n))) n []) as (ds & -> & H & H').
  - split; [done|]. rewrite Nat2Z.inj_succ, Z2Nat.id by apply Z.log2_nonneg.
    by apply Z.log2_spec.
  - by rewrite app_nil_r.
Qed.

Lemma fmt_u_digits n : 0 ≤ n → digits_ok (fmt_u n).
Proof. intros. by apply fmt_u_value. Qed.

(** A number of [k] digits. *)
Lemma fmt_u_length_eq n k : 0 ≤ k → 10 ^ k ≤ n < 10 ^ (k + 1) → len (fmt_u n) = k + 1.
Proof.
  intros Hk Hn. pose proof (Z.pow_pos_nonneg 10 k ltac:(lia) Hk).
  destruct (fmt_u_length n ltac:(lia)) as [Hlen (d & ds & Heq & _)].
  assert (0 < len (fmt_u n)) by (rewrite Heq; cbn [length]; lia).
  destruct (Z.lt_trichotomy (len (fmt_u n)) (k + 1)) as [Hlt|[?|Hgt]]; [|done|].
  - pose proof (Z.pow_le_mono_r 10 (len (fmt_u n)) k ltac:(lia) ltac:(lia)). lia.
  - pose proof (Z.pow_le_mono_r 10 (k + 1) (len (fmt_u n) - 1) ltac:(lia) ltac:(lia)). lia.
Qed.

(** ** The decimal exponent *)
Lemma up_loop_spec fuel num den k :
  0 < num → 1 ≤ k → num * 10 ^ (k - 1) < den → den ≤ num * 10 ^ (k + Z.of_nat fuel - 1) →
  let x := up_loop fuel num den k in
  k ≤ x ∧ num * 10 ^ (x - 1) < den ≤ num * 10 ^ x.
Proof.
  intros Hnum. revert k. induction fuel as [|fuel IH]; intros k Hk Hlo Hhi; cbn [up_loop].
  - replace (k + Z.of_nat 0 - 1) with (k - 1) in Hhi by lia. lia.
  - destruct (Z.leb_spec den (num * 10 ^ k)); [simpl; lia|].
    destruct (IH (k + 1)) as [? ?]; [lia| | |].
    + by replace (k + 1 - 1) with k by lia.
    + by replace (k + 1 + Z.of_nat fuel - 1) with (k + Z.of_nat (S fuel) - 1) by lia.
    + simpl. split; [lia|done].
Qed.

(** [10^x <= num/den < 10^(x+1)], without fractions. *)
Definition exponent_of (num den x : Z) : Prop :=
  den * 10 ^ Z.max x 0 ≤ num * 10 ^ Z.max (- x) 0 ∧
  num * 10 ^ Z.max (- (x + 1)) 0 < den * 10 ^ Z.max (x + 1) 0.

Lemma dec_exp_spec num den : 0 < num → 0 < den → exponent_of num den (dec_exp num den).
Proof.
  intros Hn Hd. unfold dec_exp, exponent_of. destruct (Z.leb_spec den num) as [Hle|Hlt].
  - pose proof (Z.div_mod num den ltac:(lia)) as Hdm.
    pose proof (Z.mod_pos_bound num den ltac:(lia)) as Hm.
    assert (0 < num / den) as Hq by (apply Z.div_str_pos; lia).
    destruct (fmt_u_length (num / den) Hq) as [Hlen (d & ds & Heq & _)].
    assert (1 ≤ len (fmt_u (num / den))) as H1 by (rewrite Heq; cbn [length]; lia).
    rewrite !(Z.max_l (len _ - 1)), !(Z.max_r (- (len _ - 1))), (Z.max_l (len _ - 1 + 1)),
      (Z.max_r (- (len _ - 1 + 1))), Z.sub_add by lia.
    change (10 ^ 0) with 1. nia.
  - pose proof (Z.log2_nonneg den). pose proof (Z.log2_spec den Hd) as [_ Hlog].
    set (x := up_loop _ _ _ _).
    assert (1 ≤ x ∧ num * 10 ^ (x - 1) < den ≤ num * 10 ^ x) as [Hx Hb].
    { apply up_loop_spec; [done|lia| |].
      - change (10 ^ (1 - 1)) with 1. lia.
      - replace (1 + Z.of_nat (S (Z.to_nat (Z.log2 den))) - 1) with (Z.succ (Z.log2 den)) by lia.
        pose proof (Z.pow_le_mono_l 2 10 (Z.succ (Z.log2 den)) ltac:(lia)). nia. }
    rewrite Z.max_r, Z.opp_involutive, Z.max_l, (Z.max_l (- (- x + 1))), (Z.max_r (- x + 1)) by lia.
    replace (- (- x + 1)) with (x - 1) by lia. change (10 ^ 0) with 1. lia.
Qed.
Lemma pow10_add a b : 0 ≤ a → 0 ≤ b → 10 ^ (a + b) = 10 ^ a * 10 ^ b.
Proof. intros. by rewrite Z.pow_add_r. Qed.

(** Scaled by its exponent, the quotient has [P] digits before the point. *)
Lemma scaled P num den x :
  1 ≤ P → exponent_of num den x →
  let a := num * 10 ^ Z.max (P - 1 - x) 0 in
  let b := den * 10 ^ Z.max (x - (P - 1)) 0 in
  10 ^ (P - 1) * b ≤ a < 10 ^ P * b.
Proof.
  intros HP [Hlo Hhi]. simpl.
  assert (∀ y, 0 < 10 ^ Z.max y 0) as Hpow by (intros; apply Z.pow_pos_nonneg; lia).
  destruct (Z.lt_ge_cases x 0).
  - rewrite Z.max_r in Hlo by lia. rewrite (Z.max_r (x + 1)) in Hhi by lia.
    rewrite (Z.max_l (P - 1 - x)), (Z.max_r (x - (P - 1))) by lia. rewrite (Z.max_l (- x)) in Hlo by lia.
    rewrite (Z.max_l (- (x + 1))) in Hhi by lia. change (10 ^ 0) with 1 in *.
    replace (P - 1 - x) with (- x + (P - 1)) at 1 by lia.
    replace (P - 1 - x) with (- (x + 1) + P) by lia.
    rewrite !pow10_add by lia. pose proof (Z.pow_pos_nonneg 10 (P - 1)). nia.
  - rewrite Z.max_l in Hlo by lia. rewrite (Z.max_l (x + 1)) in Hhi by lia.
    rewrite Z.max_r in Hlo by lia. rewrite (Z.max_r (- (x + 1))) in Hhi by lia.
    change (10 ^ 0) with 1 in *. destruct (Z.le_ge_cases x (P - 1)).
    + rewrite (Z.max_l (P - 1 - x)), (Z.max_r (x - (P - 1))) by lia. change (10 ^ 0) with 1.
      pose proof (Z.pow_pos_nonneg 10 (P - 1 - x)).
      replace (10 ^ (P - 1)) with (10 ^ x * 10 ^ (P - 1 - x))
        by (rewrite <- pow10_add by lia; f_equal; lia).
      replace (10 ^ P) with (10 ^ (x + 1) * 10 ^ (P - 1 - x))
        by (rewrite <- pow10_add by lia; f_equal; lia).
      nia.
    + rewrite (Z.max_r (P - 1 - x)), (Z.max_l (x - (P - 1))) by lia. change (10 ^ 0) with 1.
      rewrite !Z.mul_assoc, !(Z.mul_comm _ den), <- !Z.mul_assoc, <- !pow10_add by lia.
      replace (P - 1 + (x - (P - 1))) with x by lia.
      replace (P + (x - (P - 1))) with (x + 1) by lia. lia.
Qed.

Lemma div_round_bounds lo hi a b :
  0 < b → lo * b ≤ a → a < hi * b → lo ≤ div_round a b ≤ hi.
Proof.
  intros Hb Hlo Hhi. assert (lo ≤ a / b) by (apply Z.div_le_lower_bound; lia).
  assert (a / b < hi) by (apply Z.div_lt_upper_bound; lia).
  unfold div_round. repeat case_match; lia.
Qed.

Lemma significant_spec P num den :
  1 ≤ P → 0 < num → 0 < den →
  let '(q, x) := significant P num den in
  10 ^ (P - 1) ≤ q < 10 ^ P ∧ (x = dec_exp num den ∨ x = dec_exp num den + 1).
Proof.
  intros HP Hn Hd. unfold significant.
  pose proof (scaled P num den _ HP (dec_exp_spec num den Hn Hd)) as [Hlo Hhi].
  set (x := dec_exp num den) in *.
  assert (0 < den * 10 ^ Z.max (x - (P - 1)) 0) as Hb.
  { apply Z.mul_pos_pos; [done|]. apply Z.pow_pos_nonneg; lia. }
  pose proof (div_round_bounds _ _ _ _ Hb Hlo Hhi) as Hq.
  assert (10 ^ (P - 1) < 10 ^ P) by (apply Z.pow_lt_mono_r; lia).
  destruct (Z.eqb_spec (div_round (num * 10 ^ Z.max (P - 1 - x) 0)
    (den * 10 ^ Z.max (x - (P - 1)) 0)) (10 ^ P)); lia.
Qed.

(** ** The syntax of a printed number *)
Record number_text (dp : Z) (s : list Z) : Prop := NumberText {
  nt_split : ∃ sgn ds frac ex, s = sgn ++ ds ++ frac ++ ex ∧
    (sgn = [] ∨ sgn = [45]) ∧
    (digits_ok ds ∧ ds ≠ [] ∧ (ds = [48] ∨ ∃ d ds', ds = d :: ds' ∧ 49 ≤ d ≤ 57)) ∧
    (frac = [] ∨ ∃ fs, frac = dp :: fs ∧ fs ≠ [] ∧ digits_ok fs) ∧
    (ex = [] ∨ ∃ c es, ex = 101 :: c :: es ∧ (c = 43 ∨ c = 45) ∧ es ≠ [] ∧ digits_ok es)
}.

Lemma strip_zeros_prefix ds : ∃ zs, ds = strip_zeros ds ++ zs.
Proof.
  induction ds as [|d ds [zs IH]]; [by exists []|]. cbn [strip_zeros].
  destruct (strip_zeros ds) as [|e es] eqn:Heq.
  - destruct (Z.eqb_spec d 48); [by exists (d :: ds)|]. exists ds. done.
  - exists zs. by rewrite IH at 1.
Qed.

Lemma fraction_text dp ds :
  digits_ok ds →
  (fraction dp ds = [] ∨ ∃ fs, fraction dp ds = dp :: fs ∧ fs ≠ [] ∧ digits_ok fs) ∧
  (length (fraction dp ds) ≤ S (length ds))%nat.
Proof.
  intros Hds. unfold fraction. destruct (strip_zeros_prefix ds) as [zs Hzs].
  destruct (strip_zeros ds) as [|d ds'] eqn:Heq; [split; [by left|simpl; lia]|].
  rewrite Hzs in Hds. apply Forall_app in Hds as [? _]. split; [right; by eexists|].
  apply (f_equal length) in Hzs. rewrite length_app in Hzs. simpl in *. lia.
Qed.

Lemma print_exp_text x :
  ∃ c es, print_exp x = 101 :: c :: es ∧ (c = 43 ∨ c = 45) ∧ es ≠ [] ∧ digits_ok es ∧
    (Z.abs x < 1000 → (length es ≤ 3)%nat).
Proof.
  unfold print_exp. destruct (fmt_u_value (Z.abs x) ltac:(lia)) as (Hne & Hds & _).
  eexists _, _. split; [done|]. split; [destruct (x <? 0); auto|]. unfold pad_left.
  split; [destruct (replicate _ _), (fmt_u _); done|]. split.
  - apply Forall_app. split; [|done]. apply Forall_replicate. lia.
  - intros Hx. rewrite length_app, length_replicate.
    destruct (decide (Z.abs x = 0)) as [->|]; [vm_compute; lia|].
    destruct (fmt_u_length (Z.abs x) ltac:(lia)) as [[Hlen _] _].
    destruct (Z.le_gt_cases (len (fmt_u (Z.abs x))) 3); [lia|].
    pose proof (Z.pow_le_mono_r 10 3 (len (fmt_u (Z.abs x)) - 1) ltac:(lia) ltac:(lia)).
    change (10 ^ 3) with 1000 in *. lia.
Qed.

(** The three styles of [%g]: with an exponent, below one, and plain. *)
Lemma scientific_text dp d ds x :
  digits_ok (d :: ds) → 49 ≤ d ≤ 57 →
  number_text dp (take 1 (d :: ds) ++ fraction dp ds ++ print_exp x) ∧
  ((length ds ≤ 13)%nat → Z.abs x < 1000 →
    (length (take 1 (d :: ds) ++ fraction dp ds ++ print_exp x) ≤ 20)%nat).
Proof.
  intros Hds Hd. apply Forall_cons in Hds as [_ Hds].
  destruct (fraction_text dp ds Hds) as [Hf Hfl].
  destruct (print_exp_text x) as (c & es & Hex & Hc & Hne & Hes & Hlen). rewrite Hex.
  split.
  - constructor. exists [], [d], (fraction dp ds), (101 :: c :: es). split; [done|].
    split; [auto|]. split; [|split; [done|right; exists c, es; by repeat split]].
    split; [by constructor; [lia|]|]. split; [done|]. right. by eexists _, _.
  - intros Hl Hx. specialize (Hlen Hx). rewrite !length_app, length_take. cbn [length]. lia.
Qed.

Lemma small_text dp ds n :
  digits_ok ds → (n ≤ 3)%nat →
  number_text dp (48 :: fraction dp (replicate n 48 ++ ds)) ∧
  ((length ds ≤ 14)%nat → (length (48 :: fraction dp (replicate n 48 ++ ds))%Z ≤ 20)%nat).
Proof.
  intros Hds Hn. destruct (fraction_text dp (replicate n 48 ++ ds)) as [Hf Hfl].
  { apply Forall_app. split; [apply Forall_replicate; lia|done]. }
  split.
  - constructor. exists [], [48], (fraction dp (replicate n 48 ++ ds)), [].
    rewrite app_nil_r. split; [done|]. split; [auto|]. split; [|auto].
    split; [repeat constructor; lia|]. split; [done|]. by left.
  - rewrite length_app, length_replicate in Hfl. cbn [length] in *. lia.
Qed.

Lemma plain_text dp d ds n :
  digits_ok (d :: ds) → 49 ≤ d ≤ 57 →
  number_text dp (take (S n) (d :: ds) ++ fraction dp (drop (S n) (d :: ds))) ∧
  ((length ds ≤ 13)%nat →
    (length (take (S n) (d :: ds) ++ fraction dp (drop (S n) (d :: ds))) ≤ 20)%nat).
Proof.
  intros Hds Hd. destruct (fraction_text dp (drop (S n) (d :: ds))) as [Hf Hfl];
    [by apply Forall_drop|].
  split.
  - constructor. exists [], (take (S n) (d :: ds)), (fraction dp (drop (S n) (d :: ds))), [].
    rewrite app_nil_r. split; [done|]. split; [auto|]. split; [|auto].
    split; [by apply Forall_take|]. split; [done|]. right. by eexists _, _.
  - intros Hl. rewrite length_drop in Hfl. rewrite length_app, length_take. cbn [length] in *. lia.
Qed.

(** [print_decimal] of [P] digits. *)
Lemma print_decimal_text dp P q x :
  1 ≤ P → 10 ^ (P - 1) ≤ q < 10 ^ P →
  number_text dp (print_decimal dp P q x) ∧
  (P ≤ 14 → Z.abs x < 1000 → (length (print_decimal dp P q x) ≤ 20)%nat).
Proof.
  intros HP Hq. pose proof (Z.pow_pos_nonneg 10 (P - 1) ltac:(lia) ltac:(lia)) as Hpos.
  assert (len (fmt_u q) = P) as Hlen.
  { rewrite (fmt_u_length_eq q (P - 1)) by (rewrite ?Z.sub_add; lia). lia. }
  pose proof (fmt_u_digits q ltac:(lia)) as Hds.
  destruct (fmt_u_length q ltac:(lia)) as [_ (d & ds & Heq & Hd)].
  unfold print_decimal. rewrite Heq in *. cbn [length] in Hlen.
  destruct (scientific_text dp d ds x Hds Hd) as [Hsci Hscil].
  destruct (Z.leb_spec (-4) x), (Z.ltb_spec x P); cbn [andb];
    [|split; [exact Hsci|intros; apply Hscil; lia]..].
  destruct (Z.leb_spec 0 x) as [Hx|Hx].
  - replace (Z.to_nat (x + 1)) with (S (Z.to_nat x)) by lia.
    destruct (plain_text dp d ds (Z.to_nat x) Hds Hd) as [Hp Hpl].
    split; [exact Hp|]. intros. apply Hpl. lia.
  - destruct (small_text dp (d :: ds) (Z.to_nat (- x - 1)) Hds) as [Hp Hpl]; [lia|].
    split; [exact Hp|]. intros. apply Hpl. cbn [length]. lia.
Qed.

(** The doubles of the C implementation. *)
Definition double_ok (x : double) : Prop := valid_binary 53 1024 x = true.
Definition finite (x : double) : bool := negb (isnan x || isinf x).

Lemma digits2_pos_spec m :
  2 ^ (Z.pos (digits2_pos m) - 1) ≤ Z.pos m < 2 ^ Z.pos (digits2_pos m).
Proof.
  induction m as [m IH|m IH|]; [| |done]; cbn [digits2_pos];
    rewrite Pos2Z.inj_succ, Z.pow_succ_r by lia;
    replace (Z.succ (Z.pos (digits2_pos m)) - 1) with (Z.succ (Z.pos (digits2_pos m) - 1)) by lia;
    rewrite Z.pow_succ_r by lia; lia.
Qed.

Lemma double_ok_exp s m e : double_ok (S754_finite s m e) → -1074 ≤ e ≤ 971 ∧ Z.pos m < 2 ^ 53.
Proof.
  unfold double_ok. cbn [valid_binary]. unfold bounded, canonical_mantissa, fexp, emin.
  intros [Hc%Z.eqb_eq He%Z.leb_le]%andb_prop.
  pose proof (digits2_pos_spec m) as Hm. split; [lia|].
  pose proof (Z.pow_le_mono_r 2 (Z.pos (digits2_pos m)) 53). lia.
Qed.

(** The decimal exponent of a double. *)
Lemma dec_exp_range m e :
  -1074 ≤ e ≤ 971 → Z.pos m < 2 ^ 53 →
  Z.abs (dec_exp (Z.pos m * 2 ^ Z.max e 0) (2 ^ Z.max (- e) 0)) < 400.
Proof.
  intros He Hm.
  assert (0 < 2 ^ Z.max e 0 ≤ 2 ^ 971) as [H1 H2].
  { split; [apply Z.pow_pos_nonneg; lia|apply Z.pow_le_mono_r; lia]. }
  assert (0 < 2 ^ Z.max (- e) 0 ≤ 2 ^ 1074) as [H3 H4].
  { split; [apply Z.pow_pos_nonneg; lia|apply Z.pow_le_mono_r; lia]. }
  generalize dependent (2 ^ Z.max e 0). intros a H1 H2.
  generalize dependent (2 ^ Z.max (- e) 0). intros b H3 H4.
  destruct (dec_exp_spec (Z.pos m * a) b) as [Hlo Hhi]; [nia|done|].
  set (x := dec_exp _ _) in *.
  assert (Z.pos m * a < 2 ^ 1024) as Hnum.
  { change (2 ^ 1024) with (2 ^ 53 * 2 ^ 971). nia. }
  destruct (Z.lt_ge_cases x 0).
  - apply Z.abs_lt. split; [|lia]. apply Z.nle_gt. intros Hx.
    rewrite (Z.max_l (- (x + 1))), (Z.max_r (x + 1)) in Hhi by lia.
    pose proof (Z.pow_le_mono_r 10 399 (- (x + 1)) ltac:(lia) ltac:(lia)) as Hp.
    assert (2 ^ 1074 < 10 ^ 399) by (vm_compute; reflexivity).
    change (10 ^ 0) with 1 in Hhi. nia.
  - apply Z.abs_lt. split; [lia|]. apply Z.nle_gt. intros Hx.
    rewrite (Z.max_l x), (Z.max_r (- x)) in Hlo by lia.
    pose proof (Z.pow_le_mono_r 10 400 x ltac:(lia) ltac:(lia)) as Hp.
    assert (2 ^ 1024 < 10 ^ 400) by (vm_compute; reflexivity).
    change (10 ^ 0) with 1 in Hlo. nia.
Qed.

Lemma zero_text dp : number_text dp [48].
Proof.
  constructor. exists [], [48], [], []. split; [done|]. split; [auto|].
  split; [|auto]. split; [repeat constructor; lia|]. split; [done|]. by left.
Qed.

Lemma number_text_neg dp s : number_text dp s → hd 0 s ≠ 45 → number_text dp (45 :: s).
Proof.
  intros [(sgn & ds & frac & ex & -> & [->| ->] & Hrest)] Hhd; [|done].
  constructor. exists [45], ds, frac, ex. split; [done|]. split; [auto|done].
Qed.

(** A positive number does not begin with a sign. *)
Lemma print_decimal_head dp P q x : 0 < q → hd 0 (print_decimal dp P q x) ≠ 45.
Proof.
  intros Hq. destruct (fmt_u_length q Hq) as [_ (d & ds & Heq & Hd)].
  unfold print_decimal. rewrite Heq. destruct ((-4 <=? x) && _); [|cbn; lia].
  destruct (Z.leb_spec 0 x); [|done]. replace (Z.to_nat (x + 1)) with (S (Z.to_nat x)) by lia.
  cbn. lia.
Qed.

(** A finite double prints as a number. *)
Lemma printf_g_text dp P x :
  1 ≤ P → finite x = true → number_text dp (printf_g dp P x).
Proof.
  intros HP Hf. unfold printf_g. destruct x as [s| | |s m e]; try done.
  { destruct s; [apply (number_text_neg _ [48]); [apply zero_text|done]|apply zero_text]. }
  pose proof (significant_spec P (Z.pos m * 2 ^ Z.max e 0) (2 ^ Z.max (- e) 0) HP) as Hs.
  destruct (significant _ _ _) as [q x].
  destruct Hs as [Hq _]; [apply Z.mul_pos_pos; [done|]|..]; try (apply Z.pow_pos_nonneg; lia).
  destruct (print_decimal_text dp P q x HP Hq) as [Ht _].
  pose proof (Z.pow_pos_nonneg 10 (P - 1) ltac:(lia) ltac:(lia)).
  destruct s; [|done]. apply number_text_neg; [done|]. apply print_decimal_head. lia.
Qed.

(** At most 21 characters, the buffer of fpconv.c has 32. *)
Lemma printf_g_length dp P x :
  1 ≤ P ≤ 14 → double_ok x → (length (printf_g dp P x) ≤ 21)%nat.
Proof.
  intros HP Hok. unfold printf_g. rewrite length_app.
  assert (∃ sgn, (if neg x then [45] else []) = sgn ∧ (length sgn ≤ 1)%nat) as (sgn & -> & ?)
    by (eexists; split; [done|]; destruct (neg x); simpl; lia).
  destruct x as [s|s| |s m e]; [simpl; lia| | |].
  { change (length (lit "inf")) with 3%nat. lia. }
  { change (length (lit "nan")) with 3%nat. lia. }
  destruct (double_ok_exp _ _ _ Hok) as [He Hm].
  pose proof (dec_exp_range m e He Hm) as Hx.
  pose proof (significant_spec P (Z.pos m * 2 ^ Z.max e 0) (2 ^ Z.max (- e) 0)) as Hs.
  destruct (significant _ _ _) as [q x].
  destruct Hs as [Hq Hx']; [lia|apply Z.mul_pos_pos; [done|]|..]; try (apply Z.pow_pos_nonneg; lia).
  destruct (print_decimal_text dp P q x) as [_ Hl]; [lia|done|].
  specialize (Hl ltac:(lia) ltac:(lia)). lia.
Qed.
(** ** Reading a printed number *)

(** A string [strtod] stops at: it cannot continue a number. *)
Definition stops (rest : list Z) : Prop :=
  match rest with
  | [] => True
  | c :: _ => isdigit c = false ∧ c ≠ 46 ∧ lower c ≠ 101 ∧ lower c ≠ 120
  end.

Lemma lower_digit c : 48 ≤ c ≤ 57 → lower c = c.
Proof. intros. unfold lower. zb. Qed.

Lemma span_digits ds rest :
  digits_ok ds → match rest with c :: _ => isdigit c = false | [] => True end →
  span isdigit (ds ++ rest) = (ds, rest).
Proof. intros Hds Hr. apply span_all; [by apply isdigit_Forall|done]. Qed.

Lemma exponent_text ex :
  (ex = [] ∨ ∃ c es, ex = 101 :: c :: es ∧ (c = 43 ∨ c = 45) ∧ es ≠ [] ∧ digits_ok es) →
  ∃ e, ∀ rest, stops rest → exponent 101 (ex ++ rest) = (e, rest).
Proof.
  intros [->|(c & es & -> & Hc & Hne & Hes)].
  - exists 0. intros [|d r] Hr; [done|]. destruct Hr as (_ & _ & Hd & _).
    cbn [exponent app]. by rewrite (proj2 (Z.eqb_neq _ _) Hd).
  - exists (signed (c =? 45) (dec_value es)). intros r Hr. cbn [exponent app].
    change (lower 101 =? 101) with true.
    assert (sign (c :: es ++ r) = (c =? 45, es ++ r)) as -> by (by destruct Hc as [->| ->]).
    assert (span isdigit (es ++ r) = (es, r)) as Hspan.
    { apply span_digits; [done|]. destruct r; [done|]. apply Hr. }
    rewrite Hspan. by destruct es.
Qed.

Lemma mantissa_text ds frac rest :
  digits_ok ds → ds ≠ [] →
  (frac = [] ∨ ∃ fs, frac = 46 :: fs ∧ fs ≠ [] ∧ digits_ok fs) →
  match rest with c :: _ => isdigit c = false ∧ c ≠ 46 | [] => True end →
  mantissa isdigit 46 (ds ++ frac ++ rest) = Some (ds, drop 1 frac, rest).
Proof.
  intros Hds Hne Hfrac Hrest.
  assert (match rest with c :: _ => isdigit c = false | [] => True end) as Hr
    by (destruct rest; naive_solver).
  unfold mantissa. rewrite span_digits; [|done|].
  - destruct Hfrac as [->|(fs & -> & Hfs & Hd)]; cbn [app drop].
    + destruct rest as [|c r]; [by destruct ds|]. destruct Hrest as [_ Hc].
      rewrite (proj2 (Z.eqb_neq c 46)) by done. by destruct ds.
    + change (46 =? 46) with true. cbv iota. rewrite span_digits by done.
      destruct ds, fs; done.
  - destruct Hfrac as [->|(fs & -> & _)]; [done|]. done.
Qed.

(** The digit behind a leading zero is not the letter of a hexadecimal number. *)
Lemma no_hexadecimal ds frac rest n :
  (ds = [48] ∨ ∃ d ds', ds = d :: ds' ∧ 49 ≤ d ≤ 57) →
  match rest with c :: _ => lower c ≠ 120 | [] => True end →
  (frac = [] ∨ ∃ fs, frac = 46 :: fs ∧ fs ≠ [] ∧ digits_ok fs) →
  hexadecimal 46 n (ds ++ frac ++ rest) = None.
Proof.
  intros [->|(d & ds' & -> & Hd)] Hrest Hfrac; cbn [app hexadecimal].
  - destruct Hfrac as [->|(fs & -> & _)]; [|done]. destruct rest as [|c r]; [done|].
    cbn [app]. rewrite (proj2 (Z.eqb_neq _ _) Hrest), andb_false_r. done.
  - rewrite (proj2 (Z.eqb_neq d 48)) by lia. by destruct (ds' ++ _).
Qed.

(** [strtod] reads a printed number up to what cannot continue it. *)
Lemma letter_e c : lower c = 101 → isdigit c = false ∧ c ≠ 46.
Proof. unfold lower, isdigit. intros H. destruct ((65 <=? c) && (c <=? 90)) eqn:Hc; zb; lia. Qed.

Lemma strtod_parts sgn ds frac ex e rest :
  (sgn = [] ∨ sgn = [45]) →
  digits_ok ds → ds ≠ [] → (ds = [48] ∨ ∃ d ds', ds = d :: ds' ∧ 49 ≤ d ≤ 57) →
  (frac = [] ∨ ∃ fs, frac = 46 :: fs ∧ fs ≠ [] ∧ digits_ok fs) →
  (ex = [] ∨ ∃ c es, ex = c :: es ∧ lower c = 101) →
  exponent 101 (ex ++ rest) = (e, rest) → stops rest →
  strtod 46 (sgn ++ ds ++ frac ++ ex ++ rest) =
    Some (of_decimal (bool_decide (sgn = [45])) (dec_value (ds ++ drop 1 frac))
      (e - len (drop 1 frac)), rest).
Proof.
  intros Hsgn Hds Hne Hhead Hfrac Hex He Hrest.
  set (tail := ds ++ frac ++ ex ++ rest).
  assert (∃ d r, tail = d :: r ∧ 48 ≤ d ≤ 57) as (d & r & Htail & Hd).
  { subst tail. destruct ds as [|d ds]; [done|]. inversion Hds. by eexists _, _. }
  assert (sign (skip_space (sgn ++ tail)) = (bool_decide (sgn = [45]), tail)) as Hsign.
  { destruct Hsgn as [->| ->]; [|done]. rewrite Htail. cbn [app skip_space].
    replace (isspace d) with false by (unfold isspace; zb). cbn [sign]. zb; done. }
  unfold strtod. rewrite Hsign.
  assert (∀ a w, a ≠ d → word (a :: w) tail = None) as Hword.
  { intros a w Ha. rewrite Htail. cbn [word]. rewrite lower_digit by done.
    by rewrite (proj2 (Z.eqb_neq d a)). }
  change (lit "infinity") with (105 :: lit "nfinity"). change (lit "inf") with (105 :: lit "nf").
  change (lit "nan") with (110 :: lit "an"). rewrite !Hword by lia.
  rewrite (no_hexadecimal ds frac (ex ++ rest)); [|done| |done].
  - unfold decimal, tail. rewrite (mantissa_text ds frac (ex ++ rest)); [by rewrite He|done..|].
    destruct Hex as [->|(c & es & -> & Hc)]; [by destruct rest; [|naive_solver]|]. cbn [app]. destruct (letter_e c Hc). by rewrite ?Hc.
  - destruct Hex as [->|(c & es & -> & Hc)]; [by destruct rest; [|naive_solver]|]. cbn [app]. destruct (letter_e c Hc). by rewrite ?Hc.
Qed.

Lemma strtod_text s :
  number_text 46 s →
  ∃ v, ∀ rest, stops rest → strtod 46 (s ++ rest) = Some (v, rest).
Proof.
  intros [(sgn & ds & frac & ex & -> & Hsgn & (Hds & Hne & Hhead) & Hfrac & Hex)].
  destruct (exponent_text ex Hex) as [e He]. eexists. intros rest Hrest.
  rewrite <- !app_assoc. apply strtod_parts; auto.
  destruct Hex as [->|(c & es & -> & _)]; [by left|right; by eexists _, _].
Qed.

(** ** Integers are printed and read exactly *)
Lemma digits_fuel_irrel f f' n acc :
  0 ≤ n < 2 ^ Z.of_nat f → n < 2 ^ Z.of_nat f' → (0 < f)%nat → (0 < f')%nat →
  digits f 10 n acc = digits f' 10 n acc.
Proof.
  revert f' n acc. induction f as [|f IH]; intros f' n acc Hn Hn' Hf Hf'; [lia|].
  destruct f' as [|f']; [lia|]. cbn [digits].
  rewrite Nat2Z.inj_succ, Z.pow_succ_r in Hn, Hn' by lia.
  pose proof (Z.div_mod n 10 ltac:(lia)). pose proof (Z.mod_pos_bound n 10 ltac:(lia)).
  destruct (Z.eqb_spec (n / 10) 0); [done|].
  apply IH; try lia.
  - destruct f; [change (2 ^ Z.of_nat 0) with 1 in Hn; lia|lia].
  - destruct f'; [change (2 ^ Z.of_nat 0) with 1 in Hn'; lia|lia].
Qed.

Lemma digits_acc f n acc : digits f 10 n acc = digits f 10 n [] ++ acc.
Proof.
  revert n acc. induction f as [|f IH]; intros n acc; [done|]. cbn [digits].
  destruct (n / 10 =? 0); [done|]. rewrite IH, (IH _ [_]), <- app_assoc. done.
Qed.

Lemma fmt_u_times10 n j : 0 < n → fmt_u (n * 10 ^ Z.of_nat j) = fmt_u n ++ replicate j 48.
Proof.
  intros Hn. induction j as [|j IH].
  { change (10 ^ Z.of_nat 0) with 1. by rewrite Z.mul_1_r, app_nil_r. }
  rewrite Nat2Z.inj_succ, Z.pow_succ_r by lia.
  rewrite replicate_S_end, app_assoc, <- IH.
  generalize (Z.pow_pos_nonneg 10 (Z.of_nat j) ltac:(lia) ltac:(lia)). intros Hp.
  set (k := n * 10 ^ Z.of_nat j). assert (0 < k) by (subst k; nia).
  replace (n * (10 * 10 ^ Z.of_nat j)) with (k * 10) by (subst k; ring).
  clearbody k. unfold fmt_u, digits_fuel.
  pose proof (Z.log2_spec k ltac:(lia)) as [_ Hk]. pose proof (Z.log2_nonneg k).
  pose proof (Z.log2_spec (k * 10) ltac:(lia)) as [_ Hk10]. pose proof (Z.log2_nonneg (k * 10)).
  set (f := Z.to_nat (Z.log2 (k * 10))).
  assert (k < 2 ^ Z.of_nat f) as Hf.
  { unfold f. rewrite Z2Nat.id by done. rewrite Z.pow_succ_r in Hk10 by done. lia. }
  transitivity (digits f 10 k [48]).
  { cbn [digits]. rewrite Z.mod_mul, Z.div_mul by lia. by rewrite (proj2 (Z.eqb_neq k 0)) by lia. }
  rewrite digits_acc. f_equal.
  apply digits_fuel_irrel; try lia.
  - rewrite Nat2Z.inj_succ, Z2Nat.id by done. done.
  - destruct f; [change (2 ^ Z.of_nat 0) with 1 in Hf; lia|lia].
Qed.

Lemma iter_xO m k :
  Z.pos (Pos.iter xO m k) = Z.pos m * 2 ^ Z.pos k ∧
  Z.pos (digits2_pos (Pos.iter xO m k)) = Z.pos (digits2_pos m) + Z.pos k.
Proof.
  induction k as [|k [IH1 IH2]] using Pos.peano_ind; [simpl; lia|].
  rewrite Pos.iter_succ. cbn [digits2_pos]. split.
  - rewrite Pos2Z.inj_succ, Z.pow_succ_r by lia.
    change (Z.pos (Pos.iter xO m k)~0) with (2 * Z.pos (Pos.iter xO m k)). rewrite IH1. ring.
  - rewrite !Pos2Z.inj_succ. lia.
Qed.

(** A mantissa of 53 bits is not rounded. *)
Lemma round_exact s m e :
  Z.pos (digits2_pos m) = 53 → -1074 ≤ e ≤ 971 →
  binary_round_aux 53 1024 s (Z.pos m) e loc_Exact = S754_finite s m e.
Proof.
  intros Hm He. unfold binary_round_aux, shr_fexp, Zdigits2. cbn [shr_record_of_loc].
  assert (fexp 53 1024 (Z.pos (digits2_pos m) + e) - e = 0) as Hf.
  { unfold fexp, emin. lia. }
  rewrite Hf. cbn [shr shr_m loc_of_shr_record round_nearest_even shr_record_of_loc].
  rewrite Hf. cbn [shr shr_m]. by rewrite (proj2 (Z.leb_le e (1024 - 53))) by lia.
Qed.

(** An integer below 2^53 is a double. *)
Lemma binary_round_integer s n :
  Z.pos n < 2 ^ 53 →
  ∃ m e, binary_round 53 1024 s n 0 = S754_finite s m e ∧ -52 ≤ e ≤ 0 ∧
    Z.pos m = Z.pos n * 2 ^ (- e) ∧ Z.pos (digits2_pos m) = 53.
Proof.
  intros Hn. pose proof (digits2_pos_spec n) as [Hlo Hhi]. unfold binary_round.
  set (d := Z.pos (digits2_pos n)) in *.
  assert (d ≤ 53) as Hd.
  { apply Z.nlt_ge. intros Hlt. pose proof (Z.pow_le_mono_r 2 53 (d - 1) ltac:(lia) ltac:(lia)). lia. }
  replace (fexp 53 1024 (d + 0)) with (d - 53) by (unfold fexp, emin; lia).
  unfold shl_align. destruct (d - 53 - 0) as [|p|p] eqn:Hp; [|lia|].
  - exists n, 0. rewrite round_exact by lia. rewrite Z.mul_1_r. repeat split; lia.
  - destruct (iter_xO n p) as [H1 H2].
    exists (Pos.iter xO n p), (d - 53). rewrite round_exact by lia.
    replace (- (d - 53)) with (Z.pos p) by lia. repeat split; lia.
Qed.

Lemma of_Z_exact z :
  z ≠ 0 → Z.abs z < 2 ^ 53 →
  ∃ m e, of_Z z = S754_finite (z <? 0) m e ∧ -52 ≤ e ≤ 0 ∧ Z.pos m = Z.abs z * 2 ^ (- e) ∧
    double_ok (of_Z z).
Proof.
  intros Hz Hlt.
  assert (∃ n, Z.abs z = Z.pos n ∧ of_Z z = binary_round 53 1024 (z <? 0) n 0) as (n & Hn & Heq).
  { destruct z as [|p|p]; [done|by exists p..]. }
  destruct (binary_round_integer (z <? 0) n ltac:(lia)) as (m & e & Hb & He & Hm & Hd).
  exists m, e. rewrite Heq, Hb, Hn. repeat split; try done; try lia.
  unfold double_ok, valid_binary, bounded, canonical_mantissa, fexp, emin. rewrite Hd.
  apply andb_true_intro. split; [apply Z.eqb_eq|apply Z.leb_le]; lia.
Qed.

Lemma strip_zeros_replicate n : strip_zeros (replicate n 48) = [].
Proof. induction n as [|n IH]; [done|]. cbn [replicate strip_zeros]. by rewrite IH. Qed.

Lemma significant_integer P n k :
  1 ≤ P → 0 < n < 10 ^ P → 0 < k →
  significant P (n * k) k = (n * 10 ^ (P - len (fmt_u n)), len (fmt_u n) - 1) ∧
    1 ≤ len (fmt_u n) ≤ P.
Proof.
  intros HP Hn Hk. destruct (fmt_u_length n ltac:(lia)) as [[Hlo Hhi] (d & ds & Heq & _)].
  assert (1 ≤ len (fmt_u n)) as H1 by (rewrite Heq; cbn [length]; lia).
  assert (len (fmt_u n) ≤ P) as H2.
  { apply Z.nlt_ge. intros Hlt.
    pose proof (Z.pow_le_mono_r 10 P (len (fmt_u n) - 1) ltac:(lia) ltac:(lia)). lia. }
  split; [|done]. unfold significant.
  assert (dec_exp (n * k) k = len (fmt_u n) - 1) as ->.
  { unfold dec_exp. rewrite Z.div_mul by lia. by rewrite (proj2 (Z.leb_le k (n * k))) by nia. }
  rewrite (Z.max_l (P - 1 - _)), (Z.max_r (len _ - 1 - _)) by lia.
  replace (P - 1 - (len (fmt_u n) - 1)) with (P - len (fmt_u n)) by lia.
  set (j := P - len (fmt_u n)). change (10 ^ 0) with 1. rewrite Z.mul_1_r.
  assert (n * 10 ^ j < 10 ^ P) as Hq.
  { replace P with (len (fmt_u n) + j) by lia. rewrite pow10_add by lia.
    pose proof (Z.pow_pos_nonneg 10 j ltac:(lia) ltac:(lia)). nia. }
  assert (div_round (n * k * 10 ^ j) k = n * 10 ^ j) as ->.
  { unfold div_round. replace (n * k * 10 ^ j) with (n * 10 ^ j * k) by ring.
    rewrite Z.div_mul, Z.mod_mul by lia. by destruct k. }
  by rewrite (proj2 (Z.eqb_neq _ _)) by lia.
Qed.

Lemma print_integer dp P n :
  0 < n → 1 ≤ len (fmt_u n) ≤ P →
  print_decimal dp P (n * 10 ^ (P - len (fmt_u n))) (len (fmt_u n) - 1) = fmt_u n.
Proof.
  intros Hn Hlen. unfold print_decimal.
  destruct (Z.leb_spec (-4) (len (fmt_u n) - 1)), (Z.ltb_spec (len (fmt_u n) - 1) P),
    (Z.leb_spec 0 (len (fmt_u n) - 1)); try lia. cbn [andb].
  replace (P - len (fmt_u n)) with (Z.of_nat (Z.to_nat (P - len (fmt_u n)))) by lia.
  rewrite fmt_u_times10 by done.
  replace (Z.to_nat (len (fmt_u n) - 1 + 1)) with (length (fmt_u n)) by lia.
  rewrite take_app_length, drop_app_length. unfold fraction.
  by rewrite strip_zeros_replicate, app_nil_r.
Qed.

(** [%.<P>g] prints an integer of at most [P] digits like [%d]. *)
Lemma printf_integer dp P z :
  1 ≤ P ≤ 15 → Z.abs z < 10 ^ P → printf_g dp P (of_Z z) = fmt_d z.
Proof.
  intros HP Hz. destruct (decide (z = 0)) as [->|Hne]; [done|].
  assert (10 ^ P ≤ 10 ^ 15) by (apply Z.pow_le_mono_r; lia).
  destruct (of_Z_exact z Hne) as (m & e & -> & He & Hm & _); [lia|].
  unfold printf_g. cbn [neg]. rewrite (Z.max_r e 0), (Z.max_l (- e) 0), Z.mul_1_r, Hm by lia.
  assert (0 < 2 ^ (- e)) by (apply Z.pow_pos_nonneg; lia).
  destruct (significant_integer P (Z.abs z) (2 ^ (- e))) as [-> Hlen]; [lia..|].
  rewrite print_integer by lia. unfold fmt_d.
  destruct (Z.ltb_spec z 0); cbn [app]; do 2 f_equal; lia.
Qed.

Lemma strtod_integer z rest :
  stops rest → strtod 46 (fmt_d z ++ rest) = Some (of_Z z, rest).
Proof.
  intros Hrest.
  assert (∃ sgn, fmt_d z = sgn ++ fmt_u (Z.abs z) ∧ (sgn = [] ∨ sgn = [45]) ∧
    bool_decide (sgn = [45]) = (z <? 0)) as (sgn & -> & Hsgn & Hb).
  { unfold fmt_d. destruct (Z.ltb_spec z 0).
    - exists [45]. rewrite Z.abs_neq by lia. auto.
    - exists []. rewrite Z.abs_eq by lia. auto. }
  destruct (fmt_u_value (Z.abs z) ltac:(lia)) as (Hne & Hds & Hv).
  rewrite <- app_assoc.
  etrans; [apply (strtod_parts sgn (fmt_u (Z.abs z)) [] [] 0 rest); try done; auto|].
  - destruct (decide (Z.abs z = 0)) as [->|]; [by left|right].
    by destruct (fmt_u_length (Z.abs z) ltac:(lia)) as [_ ?].
  - cbn [app]. destruct rest as [|c r]; [done|]. destruct Hrest as (_ & _ & Hc & _).
    cbn [exponent]. by rewrite (proj2 (Z.eqb_neq _ _) Hc).
  - cbn [drop]. rewrite app_nil_r, Hv, Hb. cbn [length]. do 2 f_equal.
    unfold of_decimal, of_Z. destruct (Z.eqb_spec (Z.abs z) 0).
    + by replace z with 0 by lia.
    + change (0 <=? 0 - Z.of_nat 0) with true. cbv iota.
      change (10 ^ (0 - Z.of_nat 0)) with 1. rewrite Z.mul_1_r.
      replace (signed (z <? 0) (Z.abs z)) with z by (unfold signed; zb).
      by destruct z.
Qed.
(** ** Integers as doubles: order *)
Lemma of_Z_mantissa z :
  0 < z < 2 ^ 53 →
  ∃ m e, of_Z z = S754_finite false m e ∧ -52 ≤ e ≤ 0 ∧ Z.pos m = z * 2 ^ (- e) ∧
    2 ^ 52 ≤ Z.pos m < 2 ^ 53.
Proof.
  intros Hz. destruct z as [|n|n]; try lia.
  destruct (binary_round_integer false n) as (m & e & Heq & He & Hm & Hd); [lia|].
  exists m, e. split; [exact Heq|]. split; [done|]. split; [done|].
  pose proof (digits2_pos_spec m) as Hs. rewrite Hd in Hs. exact Hs.
Qed.

Lemma SFltb_of_Z a b :
  0 ≤ a < 2 ^ 53 → 0 < b < 2 ^ 53 → SFltb (of_Z a) (of_Z b) = (a <? b).
Proof.
  intros Ha Hb. destruct (of_Z_mantissa b Hb) as (mb & eb & -> & Heb & Hmb & Hb').
  destruct (decide (a = 0)) as [->|].
  { unfold SFltb. cbn. by rewrite (proj2 (Z.ltb_lt 0 b)) by lia. }
  destruct (of_Z_mantissa a ltac:(lia)) as (ma & ea & -> & Hea & Hma & Ha').
  unfold SFltb. cbn [SFcompare].
  assert (∀ e1 e2, e1 < e2 → -52 ≤ e1 → e2 ≤ 0 → 2 ^ (- e1) = 2 ^ (- e2) * 2 ^ (e2 - e1)
    ∧ 2 ≤ 2 ^ (e2 - e1) ∧ 0 < 2 ^ (- e2)) as Hpow.
  { intros e1 e2 ? ? ?. rewrite <- Z.pow_add_r by lia. split; [f_equal; lia|]. split.
    - apply (Z.pow_le_mono_r 2 1); lia.
    - apply Z.pow_pos_nonneg; lia. }
  destruct (Z.compare_spec ea eb) as [->|Hlt|Hgt].
  - change (Pos.compare_cont Eq ma mb) with (Pos.compare ma mb).
    assert (0 < 2 ^ (- eb)) by (apply Z.pow_pos_nonneg; lia).
    destruct (Pos.compare_spec ma mb) as [->|?|?], (Z.ltb_spec a b); try done; nia.
  - destruct (Hpow ea eb) as (H1 & H2 & H3); [lia..|]. rewrite H1 in Hma.
    destruct (Z.ltb_spec a b); [done|]. nia.
  - destruct (Hpow eb ea) as (H1 & H2 & H3); [lia..|]. rewrite H1 in Hmb.
    destruct (Z.ltb_spec a b); [|done]. nia.
Qed.
(** ** [strtod] stops at the terminator *)

(** [rest] is a suffix of [s] behind characters that are not NUL. *)
Definition eats (s rest : list Z) : Prop := ∃ pre, s = pre ++ rest ∧ Forall (fun c => c ≠ 0) pre.

#[export] Instance eats_preorder : PreOrder eats.
Proof.
  split; [by exists []|]. intros s1 s2 s3 (p & -> & Hp) (q & -> & Hq).
  exists (p ++ q). rewrite app_assoc. split; [done|]. by apply Forall_app.
Qed.

Lemma eats_cons c s rest : c ≠ 0 → eats s rest → eats (c :: s) rest.
Proof. intros Hc (p & -> & Hp). exists (c :: p). split; [done|]. by constructor. Qed.

Lemma eats_skip_space s : eats s (skip_space s).
Proof.
  induction s as [|c s IH]; [done|]. cbn [skip_space].
  destruct (isspace c) eqn:Hc; [|done]. apply eats_cons; [by intros ->|done].
Qed.

Lemma eats_span p s : (∀ c, p c = true → c ≠ 0) → eats s (span p s).2.
Proof.
  intros Hp. induction s as [|c s IH]; [done|]. cbn [span]. destruct (p c) eqn:Hc; [|done].
  destruct (span p s) as [a b]. apply eats_cons; auto.
Qed.

Lemma eats_sign s : eats s (sign s).2.
Proof.
  destruct s as [|c s]; [done|]. cbn [sign].
  destruct (Z.eqb_spec c 45); [apply eats_cons; [lia|done]|].
  destruct (Z.eqb_spec c 43); [apply eats_cons; [lia|done]|done].
Qed.

Lemma lower_nul : lower 0 = 0.
Proof. done. Qed.

Lemma eats_word w s rest : Forall (fun c => c ≠ 0) w → word w s = Some rest → eats s rest.
Proof.
  intros Hw. revert s. induction Hw as [|a w Ha Hw IH]; intros s Hr; [by injection Hr as <-|].
  destruct s as [|c s]; [done|]. cbn [word] in Hr.
  destruct (Z.eqb_spec (lower c) a) as [Hc|]; [|done]. apply eats_cons; [|by apply IH].
  intros ->. by rewrite lower_nul in Hc.
Qed.

Lemma isdigit_nul c : isdigit c = true → c ≠ 0.
Proof. rewrite isdigit_true. lia. Qed.

Lemma isxdigit_nul c : isxdigit c = true → c ≠ 0.
Proof. by intros H ->. Qed.

Lemma eats_exponent e s : e ≠ 0 → eats s (exponent e s).2.
Proof.
  intros He. destruct s as [|c s]; [done|]. cbn [exponent].
  destruct (Z.eqb_spec (lower c) e) as [Hc|]; [|done].
  pose proof (eats_sign s) as Hs. destruct (sign s) as [n s'].
  pose proof (eats_span isdigit s' isdigit_nul) as Hd. destruct (span isdigit s') as [[|d ds] r]; [done|].
  apply eats_cons; [intros ->; by rewrite lower_nul in Hc|]. by etrans.
Qed.

Lemma eats_mantissa p dp s a b rest :
  dp ≠ 0 → (∀ c, p c = true → c ≠ 0) → mantissa p dp s = Some (a, b, rest) → eats s rest.
Proof.
  intros Hdp Hp. unfold mantissa. pose proof (eats_span p s Hp) as Hs.
  destruct (span p s) as [a' s1]. cbn [snd] in Hs. destruct s1 as [|c s1].
  { destruct a'; intros [= <- <- <-]; done. }
  destruct (Z.eqb_spec c dp) as [->|].
  - pose proof (eats_span p s1 Hp) as Hs1. destruct (span p s1) as [b' s2]. cbn [snd] in Hs1.
    assert (eats s s1 ∧ eats s s2) as [? ?].
    { assert (eats (dp :: s1) s1) by (by apply eats_cons). split; [by etrans|].
      etrans; [exact Hs|]. by etrans. }
    destruct a', b'; intros [= <- <- <-]; done.
  - destruct a'; intros [= <- <- <-]; done.
Qed.

Lemma eats_nan s : eats s (nan_rest s).
Proof.
  destruct s as [|c s]; [done|]. cbn [nan_rest]. destruct (Z.eqb_spec c 40); [|done].
  pose proof (eats_span (fun c => isalnum c || (c =? 95)) s) as Hs.
  destruct (span _ s) as [a [|c' rest]]; [done|]. destruct (Z.eqb_spec c' 41); [|done].
  apply eats_cons; [lia|]. cbn [snd] in Hs. etrans; [apply Hs|apply eats_cons; [lia|done]].
  by intros x Hx ->.
Qed.

Lemma eats_decimal dp n s v rest : dp ≠ 0 → decimal dp n s = Some (v, rest) → eats s rest.
Proof.
  intros Hdp. unfold decimal. destruct (mantissa isdigit dp s) as [[[a b] s']|] eqn:Hm; [|done].
  pose proof (eats_mantissa _ _ _ _ _ _ Hdp isdigit_nul Hm).
  pose proof (eats_exponent 101 s' ltac:(done)) as He. destruct (exponent 101 s') as [e r].
  intros [= _ <-]. by etrans.
Qed.

Lemma eats_hexadecimal dp n s v rest : dp ≠ 0 → hexadecimal dp n s = Some (v, rest) → eats s rest.
Proof.
  intros Hdp. unfold hexadecimal. destruct s as [|z [|x s]]; [done..|].
  destruct (Z.eqb_spec z 48); [|done]. destruct (Z.eqb_spec (lower x) 120) as [Hx|]; [|done]. cbn [andb].
  destruct (mantissa isxdigit dp s) as [[[a b] s']|] eqn:Hm; [|done].
  pose proof (eats_mantissa _ _ _ _ _ _ Hdp isxdigit_nul Hm).
  pose proof (eats_exponent 112 s' ltac:(done)) as He. destruct (exponent 112 s') as [e0 r0].
  intros [= _ <-]. apply eats_cons; [lia|]. apply eats_cons; [intros ->; by rewrite lower_nul in Hx|].
  by etrans.
Qed.

Lemma strtod_eats dp s v rest : dp ≠ 0 → strtod dp s = Some (v, rest) → eats s rest.
Proof.
  intros Hdp. unfold strtod. pose proof (eats_skip_space s) as H1.
  pose proof (eats_sign (skip_space s)) as H2. destruct (sign (skip_space s)) as [n s1]. cbn [snd] in H2.
  assert (eats s s1) as H by (by etrans). clear H1 H2. intros Hr.
  assert (∀ w, Forall (fun c => c ≠ 0) (lit w) → ∀ r, word (lit w) s1 = Some r → eats s r) as Hw.
  { intros w Hw r Hr'. etrans; [exact H|]. by eapply eats_word. }
  destruct (word (lit "infinity") s1) eqn:W1.
  { injection Hr as _ <-. eapply (Hw "infinity"); [|done]. apply (bool_decide_unpack _). by vm_compute. }
  destruct (word (lit "inf") s1) eqn:W2.
  { injection Hr as _ <-. eapply (Hw "inf"); [|done]. apply (bool_decide_unpack _). by vm_compute. }
  destruct (word (lit "nan") s1) eqn:W3.
  { injection Hr as _ <-. etrans; [|apply eats_nan]. eapply (Hw "nan"); [|done].
    apply (bool_decide_unpack _). by vm_compute. }
  destruct (hexadecimal dp n s1) as [[v' r']|] eqn:Hh.
  - injection Hr as <- <-. etrans; [exact H|]. by eapply eats_hexadecimal.
  - etrans; [exact H|]. by eapply eats_decimal.
Qed.
End DoubleSpec.
