(* ===== verification/Fpconv.v ===== *)
(** * fpconv.c: numbers with a decimal point whatever the locale

    [dp] is the decimal point of the locale the C library prints and reads with;
    [point] is the value of [locale_decimal_point], which [fpconv_init] sets. A
    string is the list of its bytes; reading past its end is reading its
    terminator. *)
From S2P Require Import Prelude Libc Double.

Module Fpconv.
Import Double.

Definition FPCONV_G_FMT_BUFSIZE : Z := 32.

(** [snprintf] of one [%.<P>g] conversion: the bytes written, the terminator
    included, and the length of the whole text. *)
Definition snprintf_g (dp P : Z) (n : Z) (x : double) : list Z * Z :=
  let text := printf_g dp P x in
  (take (Z.to_nat (n - 1)) text ++ [0], len text).

Definition half : double := S754_finite false 4503599627370496 (-53).

Section fpconv.
Context {E : Type}.

Definition fpconv_update_locale (dp : Z) : outcome E Z :=
  let buf := (snprintf_g dp 6 8 half).1 in
  let! b0 := rd buf 0 in
  let! b1 := rd buf 1 in
  let! b2 := rd buf 2 in
  let! b3 := rd buf 3 in
  if negb (b0 =? 48) || negb (b2 =? 53) || negb (b3 =? 0) then Fault AssertFailed
  else Done b1.

Definition fpconv_init (dp : Z) : outcome E Z := fpconv_update_locale dp.

Definition valid_number_character (ch : Z) : bool :=
  if isdigit ch then true
  else if (ch =? 45) || (ch =? 43) || (ch =? 46) then true
  else let lower_ch := Z.lor ch 32 in (97 <=? lower_ch) && (lower_ch <=? 121).

Definition strtod_buffer_size (s : list Z) : nat := length (span valid_number_character s).1.

(** [dp = strchr(buf, '.'); if (dp) *dp = locale_decimal_point;] *)
Fixpoint replace_point (point : Z) (buf : list Z) : list Z :=
  match buf with
  | [] => []
  | c :: buf' => if c =? 46 then point :: buf' else c :: replace_point point buf'
  end.

(** The value and [endptr - nptr]. *)
Definition fpconv_strtod (dp point : Z) (nptr : list Z) : double * nat :=
  let convert s :=
    match strtod dp s with
    | Some (v, rest) => (v, (length s - length rest)%nat)
    | None => (S754_zero false, O)
    end in
  if point =? 46 then convert nptr
  else
    let buflen := strtod_buffer_size nptr in
    if (buflen =? 0)%nat then (S754_zero false, O)
    else convert (replace_point point (take buflen nptr)).

(** The format string and what [snprintf] makes of it. *)
Definition set_number_format (precision : Z) : outcome E (list Z) :=
  guard_or AssertFailed ((1 <=? precision) && (precision <=? 14)) ;;!
  let d1 := precision / 10 in
  let d2 := precision mod 10 in
  Done ([37; 46] ++ (if d1 =? 0 then [] else [48 + d1]) ++ [48 + d2; 103; 0]).

(** The precision of a format [%.<digits>g]. *)
Definition format_precision (fmt : list Z) : option Z :=
  match fmt with
  | 37 :: 46 :: fmt' =>
      match span isdigit fmt' with
      | (ds, [103; 0]) => Some (dec_value ds)
      | _ => None
      end
  | _ => None
  end.

(** The bytes written at [str], and the length that is returned. *)
Definition fpconv_g_fmt (dp point : Z) (num : double) (precision : Z)
    : outcome E (list Z * Z) :=
  let! fmt := set_number_format precision in
  match format_precision fmt with
  | None => Fault AssertFailed
  | Some P =>
      let '(buf, n) := snprintf_g dp P FPCONV_G_FMT_BUFSIZE num in
      if point =? 46 then Done (buf, n)
      else Done ((fun b => if b =? point then 46 else b) <$> buf, n)
  end.
End fpconv.
End Fpconv.
