(* ===== verification/FpconvSpec.v ===== *)
(** * fpconv.c prints and reads numbers with a point in every locale

    [point_ok dp]: a decimal point of a locale, a character that no other part of
    a number uses. *)
From S2P Require Import Prelude Libc Double DoubleSpec Fpconv.

Module FpconvSpec.
Import Double DoubleSpec Fpconv.

Definition point_ok (dp : Z) : Prop :=
  dp ≠ 0 ∧ isdigit dp = false ∧ dp ≠ 45 ∧ dp ≠ 43 ∧ lower dp ≠ 101.

#[export] Instance point_ok_dec dp : Decision (point_ok dp).
Proof. unfold point_ok. apply _. Defined.

(** ** The format string *)
Lemma number_format_ok {E} P :
  1 ≤ P ≤ 14 → ∃ fmt, set_number_format (E:=E) P = Done fmt ∧ format_precision fmt = Some P.
Proof.
  intros HP.
  assert (P ∈ [1; 2; 3; 4; 5; 6; 7; 8; 9; 10; 11; 12; 13; 14]) as HPin.
  { rewrite !elem_of_cons. lia. }
  repeat (apply elem_of_cons in HPin as [->|HPin]; [by eexists|]).
  by apply elem_of_nil in HPin.
Qed.

(** ** Translating the decimal point *)
Definition translate (dp : Z) (s : list Z) : list Z :=
  (fun b => if b =? dp then 46 else b) <$> s.

Lemma translate_other dp s : Forall (fun c => c ≠ dp) s → translate dp s = s.
Proof.
  induction 1 as [|c s Hc Hs IH]; [done|]. unfold translate in *. rewrite fmap_cons, IH.
  by rewrite (proj2 (Z.eqb_neq c dp)).
Qed.

Lemma digits_other dp ds : point_ok dp → digits_ok ds → Forall (fun c => c ≠ dp) ds.
Proof.
  intros (_ & Hd & _) Hds. eapply Forall_impl; [exact Hds|]. intros c Hc ->.
  apply isdigit_true in Hc. congruence.
Qed.

Lemma translate_app dp s t : translate dp (s ++ t) = translate dp s ++ translate dp t.
Proof. apply fmap_app. Qed.

Lemma translate_digits dp ds : point_ok dp → digits_ok ds → translate dp ds = ds.
Proof. intros. by apply translate_other, digits_other. Qed.

Lemma translate_fraction dp ds :
  point_ok dp → digits_ok ds → translate dp (fraction dp ds) = fraction 46 ds.
Proof.
  intros Hdp Hds. unfold fraction. destruct (strip_zeros_prefix ds) as [zs Hzs].
  rewrite Hzs in Hds. apply Forall_app in Hds as [Hds _].
  destruct (strip_zeros ds) as [|d ds']; [done|]. unfold translate. rewrite fmap_cons, Z.eqb_refl.
  f_equal. exact (translate_digits dp (d :: ds') Hdp Hds).
Qed.

Lemma translate_exp dp x : point_ok dp → translate dp (print_exp x) = print_exp x.
Proof.
  intros Hdp. destruct (print_exp_text x) as (c & es & -> & Hc & _ & Hes & _).
  apply translate_other. pose proof (digits_other dp es Hdp Hes).
  destruct Hdp as (_ & _ & H1 & H2 & H3). constructor; [intros <-; by apply H3|].
  constructor; [lia|done].
Qed.

Lemma translate_decimal dp P q x :
  point_ok dp → 0 ≤ q → translate dp (print_decimal dp P q x) = print_decimal 46 P q x.
Proof.
  intros Hdp Hq. pose proof (fmt_u_digits q Hq) as Hds. unfold print_decimal.
  repeat case_match; rewrite ?translate_app.
  - rewrite translate_digits by (done || by apply Forall_take).
    by rewrite translate_fraction by (done || by apply Forall_drop).
  - match goal with |- translate _ (48 :: ?l) = _ => change (48 :: l) with ([48] ++ l) end.
    rewrite translate_app.
    rewrite (translate_digits _ [48]); [|done|repeat constructor; lia].
    rewrite translate_fraction; [done..|]. apply Forall_app. split; [|done].
    apply Forall_replicate. lia.
  - rewrite translate_digits by (done || by apply Forall_take).
    rewrite translate_fraction by (done || by apply Forall_drop).
    by rewrite translate_exp.
Qed.

Lemma translate_printf dp P x :
  point_ok dp → 1 ≤ P → finite x = true → translate dp (printf_g dp P x) = printf_g 46 P x.
Proof.
  intros Hdp HP Hf. unfold printf_g. rewrite translate_app.
  assert (translate dp (if neg x then [45] else []) = if neg x then [45] else []) as ->.
  { destruct (neg x); [|done]. apply translate_other. constructor; [|done].
    destruct Hdp. naive_solver. }
  f_equal. destruct x as [s| | |s m e]; try done.
  { apply translate_digits; [done|]. repeat constructor; lia. }
  pose proof (significant_spec P (Z.pos m * 2 ^ Z.max e 0) (2 ^ Z.max (- e) 0) HP) as Hs.
  destruct (significant _ _ _) as [q x].
  destruct Hs as [Hq _]; [apply Z.mul_pos_pos; [done|]|..]; try (apply Z.pow_pos_nonneg; lia).
  apply translate_decimal; [done|].
  pose proof (Z.pow_pos_nonneg 10 (P - 1) ltac:(lia) ltac:(lia)). lia.
Qed.

Lemma fpconv_g_fmt_ok {E} dp P x :
  point_ok dp → 1 ≤ P ≤ 14 → double_ok x → finite x = true →
  fpconv_g_fmt (E:=E) dp dp x P = Done (printf_g 46 P x ++ [0], len (printf_g 46 P x)) ∧
  len (printf_g 46 P x ++ [0]) ≤ 22.
Proof.
  intros Hdp HP Hok Hf.
  destruct (number_format_ok (E:=E) P HP) as (fmt & Hfmt & Hprec).
  pose proof (translate_printf dp P x Hdp ltac:(lia) Hf) as Htr.
  pose proof (printf_g_length 46 P x HP Hok) as Hlen.
  assert (length (printf_g dp P x) = length (printf_g 46 P x)) as Hl.
  { rewrite <- Htr. unfold translate. by rewrite length_fmap. }
  split; [|rewrite length_app; cbn [length]; lia].
  unfold fpconv_g_fmt. rewrite Hfmt. cbn [obind]. rewrite Hprec. unfold snprintf_g.
  rewrite take_ge by (unfold FPCONV_G_FMT_BUFSIZE; lia). rewrite Hl.
  destruct (Z.eqb_spec dp 46) as [->|Hne]; [done|].
  fold (translate dp (printf_g dp P x ++ [0])). rewrite translate_app, Htr.
  rewrite (translate_other dp [0]); [done|]. constructor; [|done]. destruct Hdp. congruence.
Qed.

(** C31: whatever the decimal point of the locale, [fpconv_g_fmt] writes the text
    of the C locale and its terminator, at most 22 bytes of the 32 its callers
    reserve, and returns the length of the text, which has the syntax of a
    JSON number. *)
Theorem fpconv_prints_point dp P x :
  point_ok dp → 1 ≤ P ≤ 14 → double_ok x → finite x = true →
  fpconv_g_fmt (E:=Empty_set) dp dp x P =
    Done (printf_g 46 P x ++ [0], len (printf_g 46 P x)) ∧
  len (printf_g 46 P x ++ [0]) ≤ 22 ∧
  number_text 46 (printf_g 46 P x).
Proof.
  intros Hdp HP Hok Hf. destruct (fpconv_g_fmt_ok (E:=Empty_set) dp P x) as [? ?]; [done..|].
  split; [done|]. split; [done|]. apply printf_g_text; [lia|done].
Qed.

Lemma fpconv_prints_point_witness :
  fpconv_g_fmt (E:=Empty_set) 44 44 (S754_finite true 6755399441055744 (-52)) 14 =
    Done (lit "-1.5" ++ [0], 4).
Proof.
  destruct (fpconv_prints_point 44 14 (S754_finite true 6755399441055744 (-52)))
    as [H _]; [apply (bool_decide_unpack _); vm_compute; exact I|lia|done|done|].
  exact H.
Defined.
(** ** What [fpconv_strtod] consumes *)
Lemma eats_length s rest t :
  eats s rest → s = t ++ [0] → (length s - length rest ≤ length t)%nat.
Proof.
  intros (pre & -> & Hpre) Heq. rewrite length_app.
  destruct rest as [|c r] using rev_ind; clear -Hpre Heq.
  - rewrite app_nil_r in Heq. subst pre. apply Forall_app in Hpre as [_ H]. by inversion H.
  - apply (f_equal length) in Heq. rewrite !length_app in *. cbn [length] in *. lia.
Qed.

Lemma valid_number_nul c : valid_number_character c = true → c ≠ 0.
Proof. by intros H ->. Qed.

(** Not more than the text before the terminator. *)
Lemma fpconv_strtod_consumes dp point s :
  dp ≠ 0 → ((fpconv_strtod dp point (s ++ [0%Z])).2 ≤ length s)%nat.
Proof.
  intros Hdp. unfold fpconv_strtod. destruct (point =? 46).
  - destruct (strtod dp (s ++ [0])) as [[v rest]|] eqn:Hr; [|cbn; lia].
    apply strtod_eats in Hr; [|done]. cbn [snd]. by apply (eats_length _ _ s).
  - destruct (strtod_buffer_size (s ++ [0%Z]) =? 0)%nat; [cbn; lia|].
    assert (strtod_buffer_size (s ++ [0%Z]) ≤ length s)%nat as Hn.
    { unfold strtod_buffer_size.
      pose proof (eats_span valid_number_character (s ++ [0]) valid_number_nul) as He.
      pose proof (eats_length _ _ s He eq_refl) as Hl.
      assert (∀ l, (length (span valid_number_character l).1 + length (span valid_number_character l).2
        = length l)%nat) as Hsum.
      { induction l as [|c l IH]; [done|]. cbn [span]. destruct (valid_number_character c); [|done].
        destruct (span _ l). simpl in *. lia. }
      specialize (Hsum (s ++ [0])). lia. }
    set (n := strtod_buffer_size (s ++ [0%Z])) in *.
    assert (∀ p l, length (replace_point p l) = length l) as Hrep.
    { intros p l. induction l as [|c l IH]; [done|]. cbn. destruct (c =? 46); cbn; lia. }
    set (buf := replace_point point (take n (s ++ [0]))).
    assert (length buf = n) as Hb.
    { unfold buf. rewrite Hrep, length_take, length_app. cbn. lia. }
    destruct (strtod dp buf) as [[v rest]|]; cbn [snd]; lia.
Qed.
End FpconvSpec.
