(* ===== verification/Cjson.v ===== *)
(** * lua_cjson.c: values, configuration, options

    Lua values and tables as the module sees them, the configuration record of a
    [cjson] instance and the functions that set its options. A table is a
    reference to the list of its entries in the order [lua_next] visits them;
    a Lua error is its message. The parts of the Lua library the source relies
    on are written out, except [str2integer], the conversion of a numeric string
    to an integer, which is an argument. *)
From S2P Require Import Prelude Libc Strbuf Double.

Module Cjson.
Import Strbuf Double.

(** ** Lua values *)
Inductive value :=
  | Nil
  | Boolean (b : bool)
  | Integer (z : Z)
  | Number (x : double)
  | Str (s : list Z)
  | Table (t : nat)
  | LightUserdata (null : bool)
  | Function | Userdata | Thread.

#[export] Instance double_eq_dec : EqDecision double.
Proof. solve_decision. Defined.
#[export] Instance value_eq_dec : EqDecision value.
Proof. solve_decision. Defined.

Abbreviation entries := (list (value * value)).
Abbreviation heap := (list entries).

(** [lua_tonumber] of a number. *)
Definition lua_tonumber (v : value) : double :=
  match v with Integer z => of_Z z | Number x => x | _ => S754_zero false end.

Definition lua_typename (v : value) : list Z :=
  match v with
  | Nil => lit "nil"
  | Boolean _ => lit "boolean"
  | Integer _ | Number _ => lit "number"
  | Str _ => lit "string"
  | Table _ => lit "table"
  | LightUserdata _ | Userdata => lit "userdata"
  | Function => lit "function"
  | Thread => lit "thread"
  end.

(** [lua_rawgeti], [lua_rawset] of a value that is not nil, [lua_newtable]. *)
Fixpoint lua_rawget (t : entries) (k : value) : value :=
  match t with
  | [] => Nil
  | (k', v) :: t' => if decide (k' = k) then v else lua_rawget t' k
  end.

Fixpoint lua_rawset (t : entries) (k v : value) : entries :=
  match t with
  | [] => [(k, v)]
  | (k', v') :: t' =>
      if decide (k' = k) then (k, v) :: t' else (k', v') :: lua_rawset t' k v
  end.

Definition table (h : heap) (t : nat) : entries := h !!! t.
Definition lua_newtable (h : heap) : nat * heap := (length h, h ++ [[]]).

(** ** The configuration *)
Inductive json_token_type_t :=
  | T_OBJ_BEGIN | T_OBJ_END | T_ARR_BEGIN | T_ARR_END | T_STRING | T_NUMBER
  | T_BOOLEAN | T_NULL | T_COLON | T_COMMA | T_END | T_WHITESPACE | T_ERROR
  | T_UNKNOWN.

#[export] Instance json_token_type_t_eq_dec : EqDecision json_token_type_t.
Proof. solve_decision. Defined.

Definition json_token_type_name (t : json_token_type_t) : list Z :=
  match t with
  | T_OBJ_BEGIN => lit "T_OBJ_BEGIN"
  | T_OBJ_END => lit "T_OBJ_END"
  | T_ARR_BEGIN => lit "T_ARR_BEGIN"
  | T_ARR_END => lit "T_ARR_END"
  | T_STRING => lit "T_STRING"
  | T_NUMBER => lit "T_NUMBER"
  | T_BOOLEAN => lit "T_BOOLEAN"
  | T_NULL => lit "T_NULL"
  | T_COLON => lit "T_COLON"
  | T_COMMA => lit "T_COMMA"
  | T_END => lit "T_END"
  | T_WHITESPACE => lit "T_WHITESPACE"
  | T_ERROR => lit "T_ERROR"
  | T_UNKNOWN => lit "T_UNKNOWN"
  end.

Record json_config_t := Config {
  encode_buf : strbuf_t;
  encode_sparse_convert : Z;
  encode_sparse_ratio : Z;
  encode_sparse_safe : Z;
  encode_max_depth : Z;
  encode_invalid_numbers : Z;
  encode_number_precision : Z;
  encode_keep_buffer : Z;
  decode_invalid_numbers : Z;
  decode_max_depth : Z
}.

Definition set_encode_buf (b : strbuf_t) (c : json_config_t) : json_config_t :=
  Config b (encode_sparse_convert c) (encode_sparse_ratio c) (encode_sparse_safe c)
    (encode_max_depth c) (encode_invalid_numbers c) (encode_number_precision c)
    (encode_keep_buffer c) (decode_invalid_numbers c) (decode_max_depth c).
Definition set_sparse (conv ratio safe : Z) (c : json_config_t) : json_config_t :=
  Config (encode_buf c) conv ratio safe
    (encode_max_depth c) (encode_invalid_numbers c) (encode_number_precision c)
    (encode_keep_buffer c) (decode_invalid_numbers c) (decode_max_depth c).
Definition set_depths (e d : Z) (c : json_config_t) : json_config_t :=
  Config (encode_buf c) (encode_sparse_convert c) (encode_sparse_ratio c) (encode_sparse_safe c)
    e (encode_invalid_numbers c) (encode_number_precision c)
    (encode_keep_buffer c) (decode_invalid_numbers c) d.
Definition set_numbers (e p d : Z) (c : json_config_t) : json_config_t :=
  Config (encode_buf c) (encode_sparse_convert c) (encode_sparse_ratio c) (encode_sparse_safe c)
    (encode_max_depth c) e p (encode_keep_buffer c) d (decode_max_depth c).
Definition set_keep (k : Z) (c : json_config_t) : json_config_t :=
  Config (encode_buf c) (encode_sparse_convert c) (encode_sparse_ratio c) (encode_sparse_safe c)
    (encode_max_depth c) (encode_invalid_numbers c) (encode_number_precision c)
    k (decode_invalid_numbers c) (decode_max_depth c).

(** The two lookup tables that [json_create_config] fills: a character that is
    not named is an error. *)
Definition ch2token (c : Z) : json_token_type_t :=
  if c =? 123 then T_OBJ_BEGIN
  else if c =? 125 then T_OBJ_END
  else if c =? 91 then T_ARR_BEGIN
  else if c =? 93 then T_ARR_END
  else if c =? 44 then T_COMMA
  else if c =? 58 then T_COLON
  else if c =? 0 then T_END
  else if (c =? 32) || (c =? 9) || (c =? 10) || (c =? 13) then T_WHITESPACE
  else if (c =? 102) || (c =? 105) || (c =? 73) || (c =? 110) || (c =? 78) || (c =? 116)
    || (c =? 34) || (c =? 43) || (c =? 45) || isdigit c then T_UNKNOWN
  else T_ERROR.

Definition escape2char (c : Z) : Z :=
  if c =? 34 then 34
  else if c =? 92 then 92
  else if c =? 47 then 47
  else if c =? 98 then 8
  else if c =? 116 then 9
  else if c =? 110 then 10
  else if c =? 102 then 12
  else if c =? 114 then 13
  else if c =? 117 then 117
  else 0.

Definition json_create_config : outcome Empty_set json_config_t :=
  let! b := strbuf_init 0 in
  Done (Config b 0 2 10 1000 0 14 1 1 1000).

(** [json_destroy_config] frees the buffer. *)
Definition json_destroy_config (c : json_config_t) : json_config_t :=
  set_encode_buf (default (encode_buf c) (strbuf_free (encode_buf c))) c.

(** ** The options *)
Section options.
Context (str2integer : list Z → option Z).

(** The value of an integral double. *)
Definition to_integer (x : double) : option Z :=
  match x with
  | S754_zero _ => Some 0
  | S754_finite s m e =>
      if 0 <=? e then Some (signed s (Z.pos m * 2 ^ e))
      else if Z.pos m mod 2 ^ (- e) =? 0 then Some (signed s (Z.pos m / 2 ^ (- e)))
      else None
  | _ => None
  end.

Definition luaL_checkinteger (v : value) : outcome (list Z) Z :=
  let bad := Raise (lit "bad argument: number has no integer representation") in
  match v with
  | Integer z => Done z
  | Number x =>
      match to_integer x with
      | Some z => if (- 2 ^ 63 <=? z) && (z <? 2 ^ 63) then Done z else bad
      | None => bad
      end
  | Str s => match str2integer s with Some z => Done z | None => bad end
  | _ => Raise (lit "bad argument: number expected")
  end.

(** The new value of [*setting]; the function returns it to Lua. *)
Definition json_integer_option (arg : value) (setting min max : Z) : outcome (list Z) Z :=
  match arg with
  | Nil => Done setting
  | _ =>
      let! v := luaL_checkinteger arg in
      let value := i32 v in
      if (min <=? value) && (value <=? max) then Done value
      else Raise (lit "expected integer between " ++ fmt_d min ++ lit " and " ++ fmt_d max)
  end.

(** The index of the option [arg] names. *)
Fixpoint find_option (i : Z) (options : list (list Z)) (s : list Z) : outcome (list Z) Z :=
  match options with
  | [] => Raise (lit "bad argument: invalid option")
  | o :: options' => if decide (o = s) then Done i else find_option (i + 1) options' s
  end.
Definition luaL_checkoption (options : list (list Z)) (v : value) : outcome (list Z) Z :=
  match v with
  | Str s => find_option 0 options s
  | Integer _ | Number _ => Raise (lit "bad argument: invalid option")
  | _ => Raise (lit "bad argument: string expected")
  end.

Definition bool_options : list (list Z) := [lit "off"; lit "on"].

(** The new value of [*setting] and the value that is pushed. *)
Definition json_enum_option (arg : value) (setting : Z) (options : option (list (list Z)))
    (bool_true : Z) : outcome (list Z) (Z * value) :=
  let '(options, bool_true) :=
    match options with None => (bool_options, 1) | Some o => (o, bool_true) end in
  let! setting :=
    match arg with
    | Nil => Done setting
    | Boolean b =>
        if bool_true =? 0 then luaL_checkoption options arg
        else Done ((if b then 1 else 0) * bool_true)
    | _ => luaL_checkoption options arg
    end in
  if negb (bool_true =? 0) && ((setting =? 0) || (setting =? bool_true))
  then Done (setting, Boolean (negb (setting =? 0)))
  else
    match zget options setting with
    | Some s => Done (setting, Str s)
    | None => Fault OutOfBounds
    end.

(** An option function returns the configuration it leaves, and its results or
    the error: settings that were changed before an error stay changed. *)
Definition option_result : Type := outcome Empty_set (json_config_t * (list value + list Z)).

Definition checked {A} (m : outcome (list Z) A) (c : json_config_t) (k : A → option_result)
    : option_result :=
  match m with
  | Done a => k a
  | Raise e => Done (c, inr e)
  | Fault f => Fault f
  | NoFuel => NoFuel
  end.

Definition json_cfg_encode_sparse_array (c : json_config_t) (a1 a2 a3 : value) : option_result :=
  checked (json_enum_option a1 (encode_sparse_convert c) None 1) c (fun '(conv, v1) =>
  let c := set_sparse conv (encode_sparse_ratio c) (encode_sparse_safe c) c in
  checked (json_integer_option a2 (encode_sparse_ratio c) 0 INT_MAX) c (fun ratio =>
  let c := set_sparse conv ratio (encode_sparse_safe c) c in
  checked (json_integer_option a3 (encode_sparse_safe c) 0 INT_MAX) c (fun safe =>
  Done (set_sparse conv ratio safe c, inl [v1; Integer ratio; Integer safe])))).

Definition json_cfg_encode_max_depth (c : json_config_t) (a : value) : option_result :=
  checked (json_integer_option a (encode_max_depth c) 1 INT_MAX) c (fun d =>
  Done (set_depths d (decode_max_depth c) c, inl [Integer d])).

Definition json_cfg_decode_max_depth (c : json_config_t) (a : value) : option_result :=
  checked (json_integer_option a (decode_max_depth c) 1 INT_MAX) c (fun d =>
  Done (set_depths (encode_max_depth c) d c, inl [Integer d])).

Definition json_cfg_encode_number_precision (c : json_config_t) (a : value) : option_result :=
  checked (json_integer_option a (encode_number_precision c) 1 14) c (fun p =>
  Done (set_numbers (encode_invalid_numbers c) p (decode_invalid_numbers c) c, inl [Integer p])).

(** The buffer is allocated or freed when the setting changes. *)
Definition json_cfg_encode_keep_buffer (c : json_config_t) (a : value) : option_result :=
  let old_value := encode_keep_buffer c in
  checked (json_enum_option a (encode_keep_buffer c) None 1) c (fun '(keep, v) =>
  let c := set_keep keep c in
  if Z.lxor old_value keep =? 0 then Done (c, inl [v])
  else if keep =? 0
  then Done (set_encode_buf (default (encode_buf c) (strbuf_free (encode_buf c))) c, inl [v])
  else let! b := strbuf_init 0 in Done (set_encode_buf b c, inl [v])).

Definition json_cfg_encode_invalid_numbers (c : json_config_t) (a : value) : option_result :=
  checked (json_enum_option a (encode_invalid_numbers c)
    (Some [lit "off"; lit "on"; lit "null"]) 1) c (fun '(n, v) =>
  Done (set_numbers n (encode_number_precision c) (decode_invalid_numbers c) c, inl [v])).

Definition json_cfg_decode_invalid_numbers (c : json_config_t) (a : value) : option_result :=
  checked (json_enum_option a (decode_invalid_numbers c) None 1) c (fun '(n, v) =>
  Done (set_numbers (encode_invalid_numbers c) (encode_number_precision c) n c, inl [v])).

(** [config_ok]: what the options keep true of a configuration. *)
Record config_ok (c : json_config_t) : Prop := {
  ok_convert : encode_sparse_convert c = 0 ∨ encode_sparse_convert c = 1;
  ok_ratio : 0 ≤ encode_sparse_ratio c ≤ INT_MAX;
  ok_safe : 0 ≤ encode_sparse_safe c ≤ INT_MAX;
  ok_depth : 1 ≤ encode_max_depth c ≤ INT_MAX;
  ok_precision : 1 ≤ encode_number_precision c ≤ 14;
  ok_numbers : 0 ≤ encode_invalid_numbers c ≤ 2;
  ok_keep : encode_keep_buffer c = 0 ∨ encode_keep_buffer c = 1;
  ok_dnumbers : decode_invalid_numbers c = 0 ∨ decode_invalid_numbers c = 1;
  ok_ddepth : 1 ≤ decode_max_depth c ≤ INT_MAX
}.
End options.
End Cjson.
