(* ===== verification/CjsonEncode.v ===== *)
(** * lua_cjson.c: the encoder

    [json_encode] and what it calls, from Lua values and tables to the text in
    the string buffer. A Lua error is raised with its message and the state it
    leaves the buffer in. [checkstack d] says whether the Lua stack can grow
    when tables are nested [d] deep ([lua_checkstack]); [dp] and [point] are the
    decimal points of the C library and of fpconv.c. *)
From S2P Require Import Prelude Libc Strbuf Double Fpconv Cjson.

Module CjsonEncode.
Import Strbuf Double Fpconv Cjson.

Record json_error := JsonError { message : list Z; err_buf : strbuf_t }.
Abbreviation out A := (outcome json_error A).

(** [char2escape]: [None] for a character that is written as it is. *)
Definition char2escape (c : Z) : option (list Z) :=
  if c =? 8 then Some (lit "\b")
  else if c =? 9 then Some (lit "\t")
  else if c =? 10 then Some (lit "\n")
  else if c =? 12 then Some (lit "\f")
  else if c =? 13 then Some (lit "\r")
  else if (c <? 32) || (c =? 127)
  then Some (lit "\u00" ++ [hexdigit (c / 16); hexdigit (c mod 16)])
  else if c =? 34 then Some [92; 34]
  else if c =? 47 then Some (lit "\/")
  else if c =? 92 then Some (lit "\\")
  else None.

Section encode.
Context (checkstack : Z → bool) (dp point : Z).
Context (cfg : json_config_t) (h : heap).

(** [json_encode_exception] frees the buffer unless the configuration owns it. *)
Definition release (json : strbuf_t) : strbuf_t :=
  if encode_keep_buffer cfg =? 0 then default json (strbuf_free json) else json.

Definition json_encode_exception {A} (json : strbuf_t) (v : value) (reason : list Z) : out A :=
  Raise (JsonError (lit "Cannot serialise " ++ lua_typename v ++ lit ": " ++ reason)
    (release json)).

(** ** Strings *)
Fixpoint append_string_chars (json : strbuf_t) (str : list Z) : out strbuf_t :=
  match str with
  | [] => Done json
  | c :: str' =>
      let! json :=
        match char2escape c with
        | Some escstr => strbuf_append_string json escstr
        | None => strbuf_append_char_unsafe json c
        end in
      append_string_chars json str'
  end.

(** The worst case, six bytes for each, is computed as a [size_t] and passed as
    an int. *)
Definition json_append_string (json : strbuf_t) (str : list Z) : out strbuf_t :=
  let! json := strbuf_ensure_empty_length json (i32 (len str * 6 + 2)) in
  let! json := strbuf_append_char_unsafe json 34 in
  let! json := append_string_chars json str in
  strbuf_append_char_unsafe json 34.

(** ** Arrays or objects *)

(** [floor(k) == k && k >= 1] *)
Definition positive_integer (k : double) : bool :=
  match k with
  | S754_infinity s => negb s
  | _ => match to_integer k with Some z => 1 <=? z | None => false end
  end.

(** [max = k]: the conversion of a double that is too large is undefined. *)
Definition double_to_int (k : double) : out Z :=
  match to_integer k with Some z => int z | None => Fault IntOverflow end.

(** The [lua_next] loop: [None] is the return of -1 for a key that is not a
    positive integer. *)
Fixpoint array_keys (t : entries) (max items : Z) : out (option (Z * Z)) :=
  match t with
  | [] => Done (Some (max, items))
  | (key, _) :: t' =>
      match key with
      | Integer _ | Number _ =>
          let k := lua_tonumber key in
          if positive_integer k then
            let! max := if SFltb (of_Z max) k then double_to_int k else Done max in
            let! items := int (items + 1) in
            array_keys t' max items
          else Done None
      | _ => Done None
      end
  end.

Definition lua_array_length (json : strbuf_t) (v : value) (t : entries) : out Z :=
  let! keys := array_keys t 0 0 in
  match keys with
  | None => Done (-1)
  | Some (max, items) =>
      let! sparse :=
        if 0 <? encode_sparse_ratio cfg then
          let! limit := int (items * encode_sparse_ratio cfg) in
          Done ((limit <? max) && (encode_sparse_safe cfg <? max))
        else Done false in
      if sparse then
        if encode_sparse_convert cfg =? 0
        then json_encode_exception json v (lit "excessively sparse array")
        else Done (-1)
      else Done max
  end.

Definition json_check_encode_depth (current_depth : Z) (json : strbuf_t) : out unit :=
  if (current_depth <=? encode_max_depth cfg) && checkstack current_depth then Done tt
  else Raise (JsonError (lit "Cannot serialise, excessive nesting (" ++ fmt_d current_depth
    ++ lit ")") (release json)).

(** ** Numbers *)
Definition json_append_number (json : strbuf_t) (v : value) : out strbuf_t :=
  let num := lua_tonumber v in
  let print (_ : unit) :=
    let! json := strbuf_ensure_empty_length json FPCONV_G_FMT_BUFSIZE in
    let! (text, n) := fpconv_g_fmt dp point num (encode_number_precision cfg) in
    let! json := put_mem json (slen json) text in
    strbuf_extend_length json n in
  if encode_invalid_numbers cfg =? 0 then
    if isinf num || isnan num
    then json_encode_exception json v (lit "must not be NaN or Infinity")
    else print tt
  else if encode_invalid_numbers cfg =? 1 then
    if isnan num then strbuf_append_mem json (lit "NaN")
    else if isinf num then
      if neg num then strbuf_append_mem json (lit "-Infinity")
      else strbuf_append_mem json (lit "Infinity")
    else print tt
  else
    if isinf num || isnan num then strbuf_append_mem json (lit "null")
    else print tt.

(** ** Tables

    [append] is [json_append_data], at the depth of the table's values. *)
Section tables.
Context (append : value → strbuf_t → out strbuf_t).

(** The comma before every element but the first. *)
Definition append_comma (comma : bool) (json : strbuf_t) : out strbuf_t :=
  if comma then strbuf_append_char json 44 else Done json.

Fixpoint array_loop (n : nat) (t : entries) (i : Z) (comma : bool) (json : strbuf_t)
    : out strbuf_t :=
  match n with
  | O => Done json
  | S n' =>
      let! json := append_comma comma json in
      let! json := append (lua_rawget t (Integer i)) json in
      array_loop n' t (i + 1) true json
  end.

Definition json_append_array (json : strbuf_t) (t : entries) (array_length : Z) : out strbuf_t :=
  let! json := strbuf_append_char json 91 in
  let! json := array_loop (Z.to_nat array_length) t 1 false json in
  strbuf_append_char json 93.

Definition append_key (json : strbuf_t) (key : value) : out strbuf_t :=
  match key with
  | Integer _ | Number _ =>
      let! json := strbuf_append_char json 34 in
      let! json := json_append_number json key in
      strbuf_append_mem json [34; 58]
  | Str s =>
      let! json := json_append_string json s in
      strbuf_append_char json 58
  | _ => json_encode_exception json key (lit "table key must be a number or string")
  end.

Fixpoint object_loop (t : entries) (comma : bool) (json : strbuf_t) : out strbuf_t :=
  match t with
  | [] => Done json
  | (key, v) :: t' =>
      let! json := append_comma comma json in
      let! json := append_key json key in
      let! json := append v json in
      object_loop t' true json
  end.

Definition json_append_object (json : strbuf_t) (t : entries) : out strbuf_t :=
  let! json := strbuf_append_char json 123 in
  let! json := object_loop t false json in
  strbuf_append_char json 125.
End tables.

(** The recursion is bounded by the nesting the configuration allows: the fuel is
    the number of levels that are left. *)
Fixpoint json_append_data (fuel : nat) (current_depth : Z) (v : value) (json : strbuf_t)
    : out strbuf_t :=
  match v with
  | Str s => json_append_string json s
  | Integer _ | Number _ => json_append_number json v
  | Boolean true => strbuf_append_mem json (lit "true")
  | Boolean false => strbuf_append_mem json (lit "false")
  | Table r =>
      let! current_depth := int (current_depth + 1) in
      json_check_encode_depth current_depth json ;;!
      match fuel with
      | O => NoFuel
      | S fuel' =>
          let t := table h r in
          let append := json_append_data fuel' current_depth in
          let! n := lua_array_length json v t in
          if 0 <? n then json_append_array append json t n
          else json_append_object append json t
      end
  | Nil | LightUserdata true => strbuf_append_mem json (lit "null")
  | LightUserdata false | Function | Userdata | Thread =>
      json_encode_exception json v (lit "type not supported")
  end.
End encode.

(** [json_encode]: the configuration it leaves, and the text or the message of
    the error. *)
Definition json_encode (checkstack : Z → bool) (dp point : Z) (cfg : json_config_t) (h : heap)
    (v : value) : outcome Empty_set (json_config_t * (list Z + list Z)) :=
  let! buf :=
    if encode_keep_buffer cfg =? 0 then strbuf_init 0 else Done (strbuf_reset (encode_buf cfg)) in
  let leave json := if encode_keep_buffer cfg =? 0 then cfg else set_encode_buf json cfg in
  match json_append_data checkstack dp point cfg h (Z.to_nat (encode_max_depth cfg)) 0 v buf with
  | Done json => let! s := strbuf_string json in Done (leave json, inl s)
  | Raise e => Done (leave (err_buf e), inr (message e))
  | Fault f => Fault f
  | NoFuel => NoFuel
  end.
End CjsonEncode.
