(* ===== verification/CjsonDecode.v ===== *)
(** * lua_cjson.c: the decoder

    The tokenizer and the recursive parser behind [json_decode]. [data] is the
    Lua string with its terminator, [ptr] an index into it; a string token points
    into the temporary buffer [tmp], which the next string token reuses. *)
From S2P Require Import Prelude Libc Strbuf Double Fpconv Cjson.

Module CjsonDecode.
Import Strbuf Double Fpconv Cjson.

Record json_parse_t := Parse {
  data : list Z;
  ptr : Z;
  tmp : strbuf_t;
  cfg : json_config_t;
  current_depth : Z
}.

Definition set_ptr (p : Z) (j : json_parse_t) : json_parse_t :=
  Parse (data j) p (tmp j) (cfg j) (current_depth j).
Definition set_tmp (b : strbuf_t) (j : json_parse_t) : json_parse_t :=
  Parse (data j) (ptr j) b (cfg j) (current_depth j).
Definition set_depth (d : Z) (j : json_parse_t) : json_parse_t :=
  Parse (data j) (ptr j) (tmp j) (cfg j) d.
Definition advance (n : Z) (j : json_parse_t) : json_parse_t := set_ptr (ptr j + n) j.

(** What [value] of a token holds: the string of a [T_STRING] is in [tmp]. *)
Inductive token_value :=
  | Vnone | Vtmp (string_len : Z) | Vnumber (x : double) | Vboolean (b : bool)
  | Verror (errtype : list Z).
Record json_token_t := Token { ttype : json_token_type_t; index : Z; tvalue : token_value }.

(** A Lua error: the message, and what is left of the temporary buffer. *)
Record parse_error := ParseError { message : list Z; left_tmp : option strbuf_t }.
Abbreviation out A := (outcome parse_error A).

(** [*(json->ptr + i)] *)
Definition chr (j : json_parse_t) (i : Z) : out Z := rd (data j) (ptr j + i).

(** ** Escapes *)
Definition hexdigit2int (hex : Z) : Z :=
  if (48 <=? hex) && (hex <=? 57) then hex - 48
  else
    let hex := Z.lor hex 32 in
    if (97 <=? hex) && (hex <=? 102) then 10 + hex - 97 else -1.

(** The loop reads no character behind an invalid one. *)
Definition decode_hex4 (j : json_parse_t) (i : Z) : out Z :=
  let! c0 := chr j i in
  let d0 := hexdigit2int c0 in
  if d0 <? 0 then Done (-1)
  else
    let! c1 := chr j (i + 1) in
    let d1 := hexdigit2int c1 in
    if d1 <? 0 then Done (-1)
    else
      let! c2 := chr j (i + 2) in
      let d2 := hexdigit2int c2 in
      if d2 <? 0 then Done (-1)
      else
        let! c3 := chr j (i + 3) in
        let d3 := hexdigit2int c3 in
        if d3 <? 0 then Done (-1)
        else Done (Z.shiftl d0 12 + Z.shiftl d1 8 + Z.shiftl d2 4 + d3).

Definition codepoint_to_utf8 (codepoint : Z) : list Z :=
  let tail n := u8 (Z.lor (Z.land (Z.shiftr codepoint n) 63) 128) in
  if codepoint <=? 127 then [u8 codepoint]
  else if codepoint <=? 2047 then [u8 (Z.lor (Z.shiftr codepoint 6) 192); tail 0]
  else if codepoint <=? 65535 then [u8 (Z.lor (Z.shiftr codepoint 12) 224); tail 6; tail 0]
  else if codepoint <=? 2097151
  then [u8 (Z.lor (Z.shiftr codepoint 18) 240); tail 12; tail 6; tail 0]
  else [].

(** The code point of an escape at [ptr] and the length of the escape. *)
Definition unicode_escape (j : json_parse_t) : out (option (Z * Z)) :=
  let! codepoint := decode_hex4 j 2 in
  if codepoint <? 0 then Done None
  else if Z.land codepoint 63488 =? 55296 then
    if negb (Z.land codepoint 1024 =? 0) then Done None
    else
      let! c := chr j 6 in
      if negb (c =? 92) then Done None
      else
        let! c := chr j 7 in
        if negb (c =? 117) then Done None
        else
          let! surrogate_low := decode_hex4 j 8 in
          if surrogate_low <? 0 then Done None
          else if negb (Z.land surrogate_low 64512 =? 56320) then Done None
          else
            Done (Some (Z.lor (Z.shiftl (Z.land codepoint 1023) 10)
              (Z.land surrogate_low 1023) + 65536, 12))
  else Done (Some (codepoint, 6)).

(** [None] is the return of -1. *)
Definition json_append_unicode_escape (j : json_parse_t) : out (option json_parse_t) :=
  let! r := unicode_escape j in
  match r with
  | None => Done None
  | Some (codepoint, escape_len) =>
      match codepoint_to_utf8 codepoint with
      | [] => Done None
      | utf8 =>
          let! t := strbuf_append_mem_unsafe (tmp j) utf8 in
          Done (Some (advance escape_len (set_tmp t j)))
      end
  end.

(** ** Tokens *)
Definition json_set_token_error (j : json_parse_t) (errtype : list Z) : json_token_t :=
  Token T_ERROR (i32 (ptr j)) (Verror errtype).

(** The loop of [json_next_string_token] up to the closing quote; [inr] is an
    error of the string. Every round reads a character that is not NUL. *)
Fixpoint string_loop (fuel : nat) (j : json_parse_t) : out (json_parse_t * option (list Z)) :=
  match fuel with
  | O => NoFuel
  | S fuel' =>
      let! ch := chr j 0 in
      if ch =? 34 then Done (j, None)
      else if ch =? 0 then Done (j, Some (lit "unexpected end of string"))
      else if ch =? 92 then
        let! c := chr j 1 in
        let ch := escape2char c in
        if ch =? 117 then
          let! r := json_append_unicode_escape j in
          match r with
          | Some j => string_loop fuel' j
          | None => Done (j, Some (lit "invalid unicode escape code"))
          end
        else if ch =? 0 then Done (j, Some (lit "invalid escape code"))
        else
          let! t := strbuf_append_char_unsafe (tmp j) ch in
          string_loop fuel' (advance 2 (set_tmp t j))
      else
        let! t := strbuf_append_char_unsafe (tmp j) ch in
        string_loop fuel' (advance 1 (set_tmp t j))
  end.

(** [index] is the index [json_next_token] has stored before. *)
Definition json_next_string_token (j : json_parse_t) (index : Z)
    : out (json_parse_t * json_token_t) :=
  let! c := chr j 0 in
  guard_or AssertFailed (c =? 34) ;;!
  let j := advance 1 j in
  let j := set_tmp (strbuf_reset (tmp j)) j in
  let! (j, err) := string_loop (S (length (data j))) j in
  match err with
  | Some e => Done (j, json_set_token_error j e)
  | None =>
      let j := advance 1 j in
      let! t := strbuf_ensure_null (tmp j) in
      Done (set_tmp t j, Token T_STRING index (Vtmp (strbuf_length t)))
  end.

(** [!strncasecmp(p, w, strlen(w))] and [!strncmp(p, w, strlen(w))]: no character
    behind the first that differs is read. *)
Fixpoint same_prefix (f : Z → Z) (j : json_parse_t) (i : Z) (w : list Z) : out bool :=
  match w with
  | [] => Done true
  | a :: w' =>
      let! c := chr j i in
      if f c =? a then same_prefix f j (i + 1) w' else Done false
  end.
Definition strncasecmp_eq (j : json_parse_t) (i : Z) (w : list Z) : out bool :=
  same_prefix lower j i w.
Definition strncmp_eq (j : json_parse_t) (i : Z) (w : list Z) : out bool :=
  same_prefix Datatypes.id j i w.

Definition json_is_invalid_number (j : json_parse_t) : out bool :=
  let! c := chr j 0 in
  if c =? 43 then Done true
  else
    let p := if c =? 45 then 1 else 0 in
    let! c := chr j p in
    if c =? 48 then
      let! ch2 := chr j (p + 1) in
      Done ((Z.lor (i8 ch2) 32 =? 120) || ((48 <=? i8 ch2) && (i8 ch2 <=? 57)))
    else if i8 c <=? 57 then Done false
    else
      let! inf := strncasecmp_eq j p (lit "inf") in
      if inf then Done true else strncasecmp_eq j p (lit "nan").

Section decode.
Context (checkstack : Z → bool) (dp point : Z).

(** [strtod] reads the string behind [ptr] up to its terminator. *)
Definition json_next_number_token (j : json_parse_t) (index : Z)
    : out (json_parse_t * json_token_t) :=
  let '(x, n) := fpconv_strtod dp point (drop (Z.to_nat (ptr j)) (data j)) in
  if (n =? 0)%nat then Done (j, json_set_token_error j (lit "invalid number"))
  else Done (advance (Z.of_nat n) j, Token T_NUMBER index (Vnumber x)).

(** "Eat whitespace". *)
Fixpoint skip_whitespace (fuel : nat) (j : json_parse_t) : out (json_parse_t * Z) :=
  match fuel with
  | O => NoFuel
  | S fuel' =>
      let! ch := chr j 0 in
      if decide (ch2token ch = T_WHITESPACE) then skip_whitespace fuel' (advance 1 j)
      else Done (j, ch)
  end.

(** The characters of type [T_UNKNOWN]. *)
Definition unknown_token (j : json_parse_t) (ch index : Z) : out (json_parse_t * json_token_t) :=
  if ch =? 34 then json_next_string_token j index
  else if (ch =? 45) || isdigit ch then
    let! invalid :=
      if decode_invalid_numbers (cfg j) =? 0 then json_is_invalid_number j else Done false in
    if invalid : bool then Done (j, json_set_token_error j (lit "invalid number"))
    else json_next_number_token j index
  else
    let! t := strncmp_eq j 0 (lit "true") in
    if t : bool then Done (advance 4 j, Token T_BOOLEAN index (Vboolean true))
    else
      let! f := strncmp_eq j 0 (lit "false") in
      if f : bool then Done (advance 5 j, Token T_BOOLEAN index (Vboolean false))
      else
        let! n := strncmp_eq j 0 (lit "null") in
        if n : bool then Done (advance 4 j, Token T_NULL index Vnone)
        else
          let! number :=
            if decode_invalid_numbers (cfg j) =? 0 then Done false else json_is_invalid_number j in
          if number : bool then json_next_number_token j index
          else Done (j, json_set_token_error j (lit "invalid token")).

Definition json_next_token (j : json_parse_t) : out (json_parse_t * json_token_t) :=
  let! (j, ch) := skip_whitespace (S (length (data j))) j in
  let index := i32 (ptr j) in
  match ch2token ch with
  | T_ERROR => Done (j, json_set_token_error j (lit "invalid token"))
  | T_END => Done (j, Token T_END index Vnone)
  | T_UNKNOWN => unknown_token j ch index
  | t => Done (advance 1 j, Token t index Vnone)
  end.

(** ** The parser *)
Definition json_throw_parse_error {A} (j : json_parse_t) (exp : list Z) (token : json_token_t)
    : out A :=
  let found :=
    match ttype token, tvalue token with
    | T_ERROR, Verror e => e
    | t, _ => json_token_type_name t
    end in
  Raise (ParseError (lit "Expected " ++ exp ++ lit " but found " ++ found ++ lit " at character "
    ++ fmt_d (i32 (index token + 1))) (strbuf_free (tmp j))).

Definition json_decode_ascend (j : json_parse_t) : json_parse_t :=
  set_depth (current_depth j - 1) j.

Definition json_decode_descend (j : json_parse_t) : out json_parse_t :=
  let! d := int (current_depth j + 1) in
  let j := set_depth d j in
  if (d <=? decode_max_depth (cfg j)) && checkstack d then Done j
  else Raise (ParseError (lit "Found too many nested data structures (" ++ fmt_d d
    ++ lit ") at character " ++ fmt_d (i32 (ptr j))) (strbuf_free (tmp j))).

(** [lua_pushlstring] of a string token. *)
Definition push_string (j : json_parse_t) (token : json_token_t) : out value :=
  match tvalue token with
  | Vtmp n => let! s := strbuf_string (set_length n (tmp j)) in Done (Str s)
  | _ => Fault Uninitialised
  end.

(** The state of the parser and the Lua tables made so far. *)
Abbreviation state := (json_parse_t * heap)%type.

Section containers.
Context (process_value : json_parse_t → heap → json_token_t → out (value * state)).

(** The [while (1)] of an object that is not empty, and the [for (;;)] of an
    array; every round consumes a value. *)
Fixpoint object_loop (fuel : nat) (j : json_parse_t) (h : heap) (t : nat) (token : json_token_t)
    : out (value * state) :=
  match fuel with
  | O => NoFuel
  | S fuel' =>
      if decide (ttype token = T_STRING) then
        let! key := push_string j token in
        let! (j, token) := json_next_token j in
        if decide (ttype token = T_COLON) then
          let! (j, token) := json_next_token j in
          let! (v, (j, h)) := process_value j h token in
          let h := <[t := lua_rawset (table h t) key v]> h in
          let! (j, token) := json_next_token j in
          match ttype token with
          | T_OBJ_END => Done (Table t, (json_decode_ascend j, h))
          | T_COMMA =>
              let! (j, token) := json_next_token j in
              object_loop fuel' j h t token
          | _ => json_throw_parse_error j (lit "comma or object end") token
          end
        else json_throw_parse_error j (lit "colon") token
      else json_throw_parse_error j (lit "object key string") token
  end.

Definition json_parse_object_context (fuel : nat) (j : json_parse_t) (h : heap)
    : out (value * state) :=
  let! j := json_decode_descend j in
  let (t, h) := lua_newtable h in
  let! (j, token) := json_next_token j in
  if decide (ttype token = T_OBJ_END) then Done (Table t, (json_decode_ascend j, h))
  else object_loop fuel j h t token.

Fixpoint array_loop (fuel : nat) (j : json_parse_t) (h : heap) (t : nat) (i : Z)
    (token : json_token_t) : out (value * state) :=
  match fuel with
  | O => NoFuel
  | S fuel' =>
      let! (v, (j, h)) := process_value j h token in
      let h := <[t := lua_rawset (table h t) (Integer i) v]> h in
      let! (j, token) := json_next_token j in
      match ttype token with
      | T_ARR_END => Done (Table t, (json_decode_ascend j, h))
      | T_COMMA =>
          let! (j, token) := json_next_token j in
          let! i := int (i + 1) in
          array_loop fuel' j h t i token
      | _ => json_throw_parse_error j (lit "comma or array end") token
      end
  end.

Definition json_parse_array_context (fuel : nat) (j : json_parse_t) (h : heap)
    : out (value * state) :=
  let! j := json_decode_descend j in
  let (t, h) := lua_newtable h in
  let! (j, token) := json_next_token j in
  if decide (ttype token = T_ARR_END) then Done (Table t, (json_decode_ascend j, h))
  else array_loop fuel j h t 1 token.
End containers.

Fixpoint json_process_value (fuel : nat) (j : json_parse_t) (h : heap) (token : json_token_t)
    : out (value * state) :=
  match fuel with
  | O => NoFuel
  | S fuel' =>
      match ttype token, tvalue token with
      | T_STRING, _ => let! v := push_string j token in Done (v, (j, h))
      | T_NUMBER, Vnumber x => Done (Number x, (j, h))
      | T_BOOLEAN, Vboolean b => Done (Boolean b, (j, h))
      | T_OBJ_BEGIN, _ => json_parse_object_context (json_process_value fuel') fuel' j h
      | T_ARR_BEGIN, _ => json_parse_array_context (json_process_value fuel') fuel' j h
      | T_NULL, _ => Done (LightUserdata true, (j, h))
      | T_NUMBER, _ | T_BOOLEAN, _ => Fault Uninitialised
      | _, _ => json_throw_parse_error j (lit "value") token
      end
  end.

(** [json_decode] of the bytes [s]: the value with the tables it is made of, or
    the message of the error. *)
Definition json_decode (c : json_config_t) (h : heap) (s : list Z)
    : outcome Empty_set (value * heap + list Z) :=
  let data := s ++ [0] in
  if (2 <=? len s) && (bool_decide (data !! 0%nat = Some 0) || bool_decide (data !! 1%nat = Some 0))
  then Done (inr (lit "JSON parser does not support UTF-16 or UTF-32"))
  else
    let! t := strbuf_new (i32 (len s)) in
    let fuel := S (length data) in
    let parse :=
      let! (j, token) := json_next_token (Parse data 0 t c 0) in
      let! (v, (j, h)) := json_process_value fuel j h token in
      let! (j, token) := json_next_token j in
      if decide (ttype token = T_END) then Done (v, h, strbuf_free (tmp j))
      else json_throw_parse_error j (lit "the end") token in
    match parse with
    | Done (v, h, _) => Done (inl (v, h))
    | Raise e => Done (inr (message e))
    | Fault f => Fault f
    | NoFuel => NoFuel
    end.
End decode.

(** The functions of [cjson.safe]: an error becomes a nil and the message. *)
Definition json_protect_conversion {A} (r : A + list Z) : A + value * list Z :=
  match r with inl a => inl a | inr e => inr (Nil, e) end.
End CjsonDecode.
