(* ===== verification/Json.v ===== *)
(** * JSON documents and their text

    The abstract side of the encoder and the decoder: a JSON value, the text the
    module writes for it, its nesting, and the memory its encoding may need. *)
From S2P Require Import Prelude Libc Double Cjson CjsonEncode.

Set Warnings "-register-all".

Module Json.
Import Double Cjson CjsonEncode.

Inductive json :=
  | JNull
  | JBool (b : bool)
  | JNum (x : double)
  | JStr (s : list Z)
  | JArr (l : list json)
  | JObj (kvs : list (list Z * json)).

Section json_ind.
Context (P : json → Prop).
Context (Hnull : P JNull) (Hbool : ∀ b, P (JBool b)) (Hnum : ∀ x, P (JNum x))
  (Hstr : ∀ s, P (JStr s)) (Harr : ∀ l, Forall P l → P (JArr l))
  (Hobj : ∀ kvs, Forall (fun kv => P kv.2) kvs → P (JObj kvs)).

Fixpoint json_rect' (j : json) : P j :=
  match j with
  | JNull => Hnull
  | JBool b => Hbool b
  | JNum x => Hnum x
  | JStr s => Hstr s
  | JArr l =>
      Harr l ((fix go l : Forall P l :=
        match l with [] => List.Forall_nil _ | j :: l => List.Forall_cons _ _ _ (json_rect' j) (go l) end) l)
  | JObj kvs =>
      Hobj kvs ((fix go kvs : Forall (fun kv => P kv.2) kvs :=
        match kvs with
        | [] => List.Forall_nil _
        | (k, j) :: kvs => List.Forall_cons _ (k, j) _ (json_rect' j) (go kvs)
        end) kvs)
  end.
End json_ind.

(** ** The text *)
Definition escape (s : list Z) : list Z := s ≫= (fun c => default [c] (char2escape c)).
Definition quote (s : list Z) : list Z := [34] ++ escape s ++ [34].

(** Elements with commas between them; [comma] when there was one before. *)
Fixpoint items (comma : bool) (l : list (list Z)) : list Z :=
  match l with
  | [] => []
  | x :: l' => (if comma then [44] else []) ++ x ++ items true l'
  end.

Definition member (kv : list Z * list Z) : list Z := quote kv.1 ++ [58] ++ kv.2.

(** [prec] is [encode_number_precision]. *)
Section text.
Context (prec : Z).

Fixpoint print (j : json) : list Z :=
  match j with
  | JNull => lit "null"
  | JBool b => if b then lit "true" else lit "false"
  | JNum x => printf_g 46 prec x
  | JStr s => quote s
  | JArr l => [91] ++ items false (print <$> l) ++ [93]
  | JObj kvs => [123] ++ items false ((fun kv => member (kv.1, print kv.2)) <$> kvs) ++ [125]
  end.
End text.

(** ** Nesting and size *)
Definition max_list_Z (l : list Z) : Z := foldr Z.max 0 l.
Definition sum_list_Z (l : list Z) : Z := foldr Z.add 0 l.

Fixpoint depth (j : json) : Z :=
  match j with
  | JArr l => 1 + max_list_Z (depth <$> l)
  | JObj kvs => 1 + max_list_Z ((fun kv => depth kv.2) <$> kvs)
  | _ => 0
  end.

(** What the buffer is asked to have room for. *)
Definition string_cost (s : list Z) : Z := 6 * len s + 2.
Fixpoint cost (j : json) : Z :=
  match j with
  | JNull => 4
  | JBool b => if b then 4 else 5
  | JNum _ => 32
  | JStr s => string_cost s
  | JArr l => 2 + sum_list_Z ((fun j => 1 + cost j) <$> l)
  | JObj kvs => 2 + sum_list_Z ((fun kv => 36 + string_cost kv.1 + cost kv.2) <$> kvs)
  end.

(** ** Lemmas *)
Lemma max_list_Z_cons x l : max_list_Z (x :: l) = Z.max x (max_list_Z l).
Proof. done. Qed.
Lemma sum_list_Z_cons x l : sum_list_Z (x :: l) = x + sum_list_Z l.
Proof. done. Qed.

Lemma max_list_Z_nonneg l : 0 ≤ max_list_Z l.
Proof. induction l; unfold max_list_Z in *; cbn [foldr]; lia. Qed.
Lemma max_list_Z_elem x l : x ∈ l → x ≤ max_list_Z l.
Proof. induction 1; rewrite max_list_Z_cons; lia. Qed.
Lemma sum_list_Z_nonneg l : Forall (Z.le 0) l → 0 ≤ sum_list_Z l.
Proof. induction 1; unfold sum_list_Z in *; cbn [foldr]; lia. Qed.

Lemma depth_nonneg j : 0 ≤ depth j.
Proof. destruct j as [| | | |l|kvs]; cbn [depth]; try lia;
  match goal with |- context [max_list_Z ?l] => pose proof (max_list_Z_nonneg l) end; lia. Qed.

Lemma cost_nonneg j : 0 ≤ cost j.
Proof.
  induction j as [|b| | |l IH|kvs IH] using json_rect'; cbn [cost]; unfold string_cost; try lia.
  - destruct b; lia.
  - assert (0 ≤ sum_list_Z ((fun j => 1 + cost j) <$> l)); [|lia].
    apply sum_list_Z_nonneg, Forall_fmap. eapply Forall_impl; [exact IH|]. simpl. lia.
  - assert (0 ≤ sum_list_Z ((fun kv => 36 + string_cost kv.1 + cost kv.2) <$> kvs)); [|unfold string_cost in *; lia].
    apply sum_list_Z_nonneg, Forall_fmap. eapply Forall_impl; [exact IH|].
    intros kv Hkv. cbn -[Z.mul] in *. unfold string_cost. lia.
Qed.

(** An escape is a backslash and at most five characters that are not NUL; the
    other characters stand for themselves. *)
Lemma char2escape_spec c e :
  char2escape c = Some e → byte_ok c → (length e ≤ 6)%nat ∧ Forall (fun x => x ≠ 0) e.
Proof.
  unfold char2escape. intros He Hc.
  destruct ((c <? 32) || (c =? 127)) eqn:Hctl; cycle 1; repeat case_match; simplify_eq;
    try (apply (bool_decide_unpack _); vm_compute; exact I).
  split; [simpl; lia|]. unfold byte_ok in Hc.
  assert (∀ d, 0 ≤ d → hexdigit d ≠ 0) as Hh by (intros d; unfold hexdigit; zb).
  pose proof (Z.mod_pos_bound c 16). pose proof (Z.div_pos c 16).
  apply Forall_app. split; [apply (bool_decide_unpack _); vm_compute; exact I|].
  constructor; [|constructor; [|done]]; apply Hh; lia.
Qed.
End Json.
