(* ===== verification/CjsonEncodeSpec.v ===== *)
(** * The encoder writes the text of a value

    [denotes j v]: the Lua value [v], with the tables of the heap, is the JSON
    document [j]. The lemmas follow the functions of the encoder: strings,
    numbers, the classification of a table, the loops, the whole value. *)
From S2P Require Import Prelude Libc Strbuf StrbufSpec Double DoubleSpec Fpconv FpconvSpec Cjson CjsonEncode Json.

Module CjsonEncodeSpec.
Import Strbuf StrbufSpec Double DoubleSpec Fpconv FpconvSpec Cjson CjsonEncode Json.

(** ** Strings *)
Lemma escape_cons c s : escape (c :: s) = default [c] (char2escape c) ++ escape s.
Proof. done. Qed.

Lemma escape_length c : bytes_ok c → len (escape c) ≤ 6 * len c.
Proof.
  induction 1 as [|x c Hx Hc IH]; [done|]. rewrite escape_cons, length_app. cbn [length].
  assert (length (default [x] (char2escape x)) ≤ 6)%nat; [|lia].
  destruct (char2escape x) as [e|] eqn:He; [|simpl; lia]. by destruct (char2escape_spec x e He Hx).
Qed.

Lemma append_string_chars_ok s str c :
  holds s str → bytes_ok c → len str + 6 * len c < size s →
  appends s (str ++ escape c) (append_string_chars s c).
Proof.
  intros Hs Hc. revert s str Hs. induction Hc as [|x c Hx Hc IH]; intros s str Hs Hsz.
  { apply returns_done. unfold escape. rewrite app_nil_r. done. }
  cbn [append_string_chars length] in *. rewrite escape_cons.
  assert (length (default [x] (char2escape x)) ≤ 6)%nat as Hlen.
  { destruct (char2escape x) as [e|] eqn:He; [|simpl; lia]. by destruct (char2escape_spec x e He Hx). }
  eapply (returns_bind _ _ (fun s' => holds s' (str ++ default [x] (char2escape x)) ∧
    size s' = size s ∧ increment s' = increment s ∧ dynamic s' = dynamic s)).
  - destruct (char2escape x) as [e|] eqn:He; cbn [default from_option id] in *.
    + destruct (char2escape_spec x e He Hx). apply append_string_fits; [done|lia|done].
    + apply append_char_unsafe_ok; [done|lia].
  - intros s1 (Hs1 & Hsz1 & Hi1 & Hd1). rewrite app_assoc.
    eapply returns_mono; [apply IH; [done|rewrite length_app; lia]|].
    intros s2 (? & ? & ? & ?). split; [done|]. repeat split; congruence.
Qed.

(** The quoted string in the memory of the buffer. *)
Lemma append_quoted_ok s str c :
  holds s str → bytes_ok c → len str + (6 * len c + 2) < size s →
  appends s (str ++ quote c)
    (let! json := strbuf_append_char_unsafe s 34 in
     let! json := append_string_chars json c in strbuf_append_char_unsafe json 34).
Proof.
  intros Hs Hc Hsz. eapply returns_bind; [apply (append_char_unsafe_ok s str 34); [done|lia]|].
  intros s2 (Hs2 & Hsz2 & Hi2 & Hd2). eapply returns_bind.
  { apply (append_string_chars_ok s2 (str ++ [34]) c); [done|done|].
    rewrite length_app; cbn [length]; lia. }
  intros s3 (Hs3 & Hsz3 & Hi3 & Hd3).
  replace (str ++ quote c) with (((str ++ [34]) ++ escape c) ++ [34])
    by (unfold quote; by rewrite <- !app_assoc).
  eapply returns_mono; [apply append_char_unsafe_ok; [done|]|].
  - pose proof (escape_length c Hc). rewrite !length_app. cbn [length]. lia.
  - intros s4 (? & ? & ? & ?). split; [done|]. repeat split; congruence.
Qed.

Lemma room_max s str : holds s str → room s ≤ INT_MAX.
Proof.
  intros [_ _ _ _ Hi _]. unfold room.
  pose proof (Z.div_le_upper_bound INT_MAX (- increment s) INT_MAX). unfold INT_MAX in *. nia.
Qed.

Lemma json_string_ok s str c :
  holds s str → bytes_ok c → len str + string_cost c ≤ room s →
  extends s (str ++ quote c) (json_append_string s c).
Proof.
  intros Hs Hc Hroom. unfold string_cost in Hroom. pose proof (room_max _ _ Hs).
  unfold json_append_string. unfold INT_MAX in *.
  rewrite swrap_small by (try lia; change (2 ^ (32 - 1)) with 2147483648; lia).
  eapply returns_bind; [apply (ensure_ok s str); [done|lia..]|]. intros s1 (Hs1 & Hg1 & Hsz1).
  apply (extends_after _ s1); [done|]. by apply appends_extends, append_quoted_ok; [..|lia].
Qed.

Section encode.
Context (checkstack : Z → bool) (dp : Z) (cfg : json_config_t) (h : heap).

Abbreviation prec := (encode_number_precision cfg).
Abbreviation append_number := (json_append_number dp dp cfg).
Abbreviation append_data := (json_append_data checkstack dp dp cfg h).

(** ** The kind of a table *)
Lemma to_integer_of_Z z : Z.abs z < 2 ^ 53 → to_integer (of_Z z) = Some z.
Proof.
  intros Hz. destruct (decide (z = 0)) as [->|Hne]; [done|].
  destruct (of_Z_exact z Hne Hz) as (m & e & -> & He & Hm & _). unfold to_integer.
  assert (signed (z <? 0) (Z.abs z) = z) as Hs by (unfold signed; zb).
  destruct (Z.leb_spec 0 e).
  - replace e with 0 in * by lia. rewrite Hm. change (2 ^ (- 0)) with 1. change (2 ^ 0) with 1.
    by rewrite !Z.mul_1_r, Hs.
  - assert (0 < 2 ^ (- e)) by (apply Z.pow_pos_nonneg; lia).
    by rewrite Hm, Z.mod_mul, Z.div_mul, Hs by lia.
Qed.

Lemma positive_integer_of_Z z : Z.abs z < 2 ^ 53 → positive_integer (of_Z z) = (1 <=? z).
Proof.
  intros Hz. pose proof (to_integer_of_Z z Hz) as Hi. unfold positive_integer. rewrite Hi.
  by destruct (of_Z z) as [| | |].
Qed.

(** The keys of an array: positive integers, [n] the largest. *)
Definition array_key (n : Z) (e : value * value) : Prop :=
  match e.1 with Integer k => 1 ≤ k ≤ n | _ => False end.

(** A table that is written as an array of length [n]: it is not sparse. *)
Record array_of (t : entries) (n : Z) : Prop := {
  a_keys : Forall (array_key n) t;
  a_last : Integer n ∈ t.*1;
  a_max : n ≤ INT_MAX;
  a_items : len t ≤ INT_MAX;
  a_dense : encode_sparse_ratio cfg = 0 ∨ (0 ≤ encode_sparse_ratio cfg ∧
    len t * encode_sparse_ratio cfg ≤ INT_MAX ∧
    (n ≤ len t * encode_sparse_ratio cfg ∨ n ≤ encode_sparse_safe cfg))
}.

(** A key of an object: a string, or an integer that fits an int. *)
Definition object_key (k : value) (s : list Z) : Prop :=
  match k with
  | Str s' => s' = s ∧ bytes_ok s
  | Integer z => Z.abs z ≤ INT_MAX ∧ s = printf_g 46 prec (of_Z z)
  | _ => False
  end.

(** A table that is written as an object: it is empty, or a key is not a
    positive integer. *)
Definition object_of (t : entries) : Prop :=
  len t ≤ INT_MAX ∧
  (t = [] ∨ ∃ e, e ∈ t ∧ match e.1 with Str _ => True | Integer k => k < 1 | _ => False end).

Definition below (z : Z) : Prop := z ≤ INT_MAX.

Lemma array_keys_step k v t max items :
  1 ≤ k ≤ INT_MAX → 0 ≤ max ≤ INT_MAX → 0 ≤ items < INT_MAX →
  array_keys ((Integer k, v) :: t) max items = array_keys t (Z.max max k) (items + 1).
Proof.
  intros Hk Hm Hi. unfold INT_MAX in *. cbn [array_keys lua_tonumber].
  rewrite positive_integer_of_Z by lia. rewrite (proj2 (Z.leb_le 1 k)) by lia.
  rewrite SFltb_of_Z by lia. unfold double_to_int. rewrite to_integer_of_Z by lia.
  rewrite (int_ok (items + 1)) by (unfold INT_MAX; lia).
  destruct (Z.ltb_spec max k); cbn [obind].
  - rewrite int_ok by (unfold INT_MAX; lia). cbn [obind]. by rewrite Z.max_r by lia.
  - by rewrite Z.max_l by lia.
Qed.

Lemma array_keys_array t n max items :
  Forall (array_key n) t → n ≤ INT_MAX → 0 ≤ max ≤ n → 0 ≤ items → items + len t ≤ INT_MAX →
  ∃ m, array_keys t max items = Done (Some (m, items + len t)) ∧ max ≤ m ≤ n ∧
    (Integer n ∈ t.*1 → m = n).
Proof.
  intros Ht Hn. revert max items. induction Ht as [|[k v] t Hk Ht IH]; intros max items Hm Hi Hlen.
  { exists max. cbn. rewrite Z.add_0_r. split; [done|]. split; [lia|]. by intros ?%elem_of_nil. }
  cbn [length] in Hlen. destruct k as [| |k| | | | | | |]; try done. unfold array_key in Hk. simpl in Hk.
  destruct (IH (Z.max max k) (items + 1)) as (m & Heq & Hmb & Hlast); [lia..|].
  exists m. rewrite array_keys_step, Heq by lia. cbn [length].
  split; [do 3 f_equal; lia|]. split; [lia|].
  rewrite fmap_cons, elem_of_cons. cbn. intros [[= ->]|?]; [lia|auto].
Qed.

Lemma array_length_array json v t n :
  array_of t n → lua_array_length cfg json v t = Done n.
Proof.
  intros [Hk Hl Hm Hi Hd]. unfold lua_array_length.
  assert (1 ≤ n) as H1.
  { apply list_elem_of_fmap in Hl as ([k v'] & Heq & Hin). cbn in Heq. subst k.
    rewrite Forall_forall in Hk. specialize (Hk _ Hin). unfold array_key in Hk. cbn in Hk. lia. }
  destruct (array_keys_array t n 0 0) as (m & -> & _ & Hlast); [done|lia..|].
  rewrite Hlast by done. cbn [obind]. rewrite Z.add_0_l.
  destruct Hd as [->|(Hr & Hov & Hd)]; [done|].
  destruct (Z.ltb_spec 0 (encode_sparse_ratio cfg)); [|done].
  rewrite int_ok by nia. cbn [obind].
  by destruct (Z.ltb_spec (len t * encode_sparse_ratio cfg) n),
    (Z.ltb_spec (encode_sparse_safe cfg) n); try lia.
Qed.

Lemma array_keys_object t s max items :
  Forall2 object_key t.*1 s → 0 ≤ max ≤ INT_MAX → 0 ≤ items → items + len t ≤ INT_MAX →
  (∃ e, e ∈ t ∧ match e.1 with Str _ => True | Integer k => k < 1 | _ => False end) →
  array_keys t max items = Done None.
Proof.
  revert s max items. induction t as [|[k v] t IH]; intros s max items Hks Hm Hi Hlen (e & Hin & He).
  { by apply elem_of_nil in Hin. }
  rewrite fmap_cons in Hks. apply Forall2_cons_inv_l in Hks as (s0 & s' & Hk & Hks & ->).
  cbn [length fst] in *. destruct k as [| |k| |k| | | | |]; try done.
  destruct Hk as [Hk _]. unfold INT_MAX in *.
  destruct (Z.le_gt_cases 1 k) as [H1|H1].
  - rewrite array_keys_step by (unfold INT_MAX; lia). eapply IH; [done|unfold INT_MAX; lia..|].
    exists e. split; [|done]. apply elem_of_cons in Hin as [->|]; [|done]. simpl in He. lia.
  - cbn [array_keys lua_tonumber]. rewrite positive_integer_of_Z by lia.
    by rewrite (proj2 (Z.leb_gt 1 k)) by lia.
Qed.

Lemma array_length_object json v t s :
  Forall2 object_key t.*1 s → object_of t → ∃ n, lua_array_length cfg json v t = Done n ∧ n ≤ 0.
Proof.
  intros Hks [Hlen Hobj]. unfold lua_array_length. destruct Hobj as [->|Hobj].
  - exists 0. split; [|done]. cbn [array_keys obind].
    rewrite Z.mul_0_l, (int_ok 0) by (unfold INT_MAX; lia). cbn [obind].
    by destruct (0 <? encode_sparse_ratio cfg).
  - rewrite (array_keys_object t s) by (done || unfold INT_MAX; lia). by eexists.
Qed.
(** ** Numbers *)
Context (Hdp : point_ok dp) (Hprec : 1 ≤ encode_number_precision cfg ≤ 14).

Lemma append_number_ok s str v :
  holds s str → len str + 32 ≤ room s → double_ok (lua_tonumber v) → finite (lua_tonumber v) = true →
  extends s (str ++ printf_g 46 prec (lua_tonumber v)) (append_number s v).
Proof.
  intros Hs Hroom Hok Hf. unfold json_append_number.
  assert (isinf (lua_tonumber v) || isnan (lua_tonumber v) = false) as Hfin.
  { unfold finite in Hf. by destruct (isnan _), (isinf _). }
  apply orb_false_iff in Hfin as [Hinf Hnan]. rewrite Hinf, Hnan. cbn [orb].
  enough (extends (E:=json_error) s (str ++ printf_g 46 prec (lua_tonumber v))
    (let! json := strbuf_ensure_empty_length s FPCONV_G_FMT_BUFSIZE in
     let! (text, n) := fpconv_g_fmt dp dp (lua_tonumber v) prec in
     let! json := put_mem json (slen json) text in
     strbuf_extend_length json n)) by (by repeat case_match).
  eapply returns_bind; [apply (ensure_ok s str); [done|unfold FPCONV_G_FMT_BUFSIZE; lia..]|].
  unfold FPCONV_G_FMT_BUFSIZE. intros s1 (Hs1 & Hg1 & Hsz1). apply (extends_after _ s1); [done|].
  destruct (fpconv_g_fmt_ok (E:=json_error) dp prec (lua_tonumber v) Hdp Hprec Hok Hf) as [-> Hlen].
  cbn [obind]. rewrite length_app in Hlen. cbn [length] in Hlen.
  eapply returns_bind.
  { apply (put_text_ok s1 str); [done|]. rewrite length_app. cbn [length]. lia. }
  intros s2 (Hs2 & Hsz2 & Hi2 & Hd2 & b & Hb & Hpre).
  apply (extends_after _ s2); [split; done || lia|].
  apply appends_extends. eapply (extend_ok _ _ _ b); [done|done| |lia].
  unfold starts in *. rewrite app_assoc, fmap_app in Hpre. by eapply prefix_app_l.
Qed.

(** ** The document of a value *)
Section denotes_list.
Context (D : json → value → Prop).

(** The elements from index [i] on, and the members in [lua_next] order. *)
Fixpoint elements (t : entries) (i : Z) (l : list json) : Prop :=
  match l with
  | [] => True
  | j :: l' => D j (lua_rawget t (Integer i)) ∧ elements t (i + 1) l'
  end.

Fixpoint members (t : entries) (kvs : list (list Z * json)) {struct kvs} : Prop :=
  match kvs, t with
  | [], [] => True
  | (s, j) :: kvs', (k, v) :: t' => object_key k s ∧ D j v ∧ members t' kvs'
  | _, _ => False
  end.
End denotes_list.

Fixpoint denotes (j : json) (v : value) {struct j} : Prop :=
  match j with
  | JNull => v = Nil ∨ v = LightUserdata true
  | JBool b => v = Boolean b
  | JNum x =>
      match v with
      | Integer _ | Number _ => lua_tonumber v = x ∧ double_ok x ∧ finite x = true
      | _ => False
      end
  | JStr s => v = Str s ∧ bytes_ok s
  | JArr l => ∃ t, v = Table t ∧ array_of (table h t) (len l) ∧ elements denotes (table h t) 1 l
  | JObj kvs => ∃ t, v = Table t ∧ object_of (table h t) ∧ members denotes (table h t) kvs
  end.

Lemma members_keys D t kvs : members D t kvs → Forall2 object_key t.*1 kvs.*1.
Proof.
  revert t. induction kvs as [|[s j] kvs IH]; intros [|[k v] t] Hm; try done.
  destruct Hm as (? & _ & ?). constructor; auto.
Qed.

(** What a call for the value of a table does, at the depth and with the fuel it
    is made. *)
Definition writes (D : json → value → Prop) (append : value → strbuf_t → outcome json_error strbuf_t)
    (j : json) : Prop :=
  ∀ v s str, D j v → holds s str → len str + cost j ≤ room s →
    len (print prec j) ≤ cost j ∧ extends s (str ++ print prec j) (append v s).

Lemma append_comma_ok s str (b : bool) :
  holds s str → len str < room s →
  extends (E:=json_error) s (str ++ (if b then [44] else [])) (append_comma b s).
Proof.
  intros Hs Hroom. destruct b; [by apply append_char_ok|].
  apply returns_done. rewrite app_nil_r. by split.
Qed.

Lemma elements_cost_nonneg l : 0 ≤ sum_list_Z ((fun j => 1 + cost j) <$> l).
Proof.
  apply sum_list_Z_nonneg, Forall_fmap, Forall_true. intros j. cbn.
  pose proof (cost_nonneg j). lia.
Qed.

Lemma array_loop_ok D append t l i b s str :
  Forall (writes D append) l → elements D t i l → holds s str →
  len str + sum_list_Z ((fun j => 1 + cost j) <$> l) ≤ room s →
  len (items b (print prec <$> l)) ≤ sum_list_Z ((fun j => 1 + cost j) <$> l) ∧
  extends s (str ++ items b (print prec <$> l)) (array_loop append (length l) t i b s).
Proof.
  intros Hw. revert i b s str. induction Hw as [|j l Hj Hw IH]; intros i b s str Hel Hs Hroom.
  { split; [done|]. apply returns_done. cbn. rewrite app_nil_r. by split. }
  destruct Hel as [Hd Hel]. rewrite !fmap_cons, sum_list_Z_cons in *. cbn [length array_loop items].
  pose proof (elements_cost_nonneg l). pose proof (cost_nonneg j).
  destruct (append_comma_ok s str b Hs) as (s1 & -> & Hs1 & Hg1); [lia|]. cbn [obind].
  set (c := if b then [44] else []) in *.
  assert (len c ≤ 1) by (subst c; destruct b; cbn [length]; lia).
  pose proof (grows_room _ _ Hg1) as Hr1.
  destruct (Hj _ s1 (str ++ c) Hd Hs1) as [Hlen (s2 & -> & Hs2 & Hg2)];
    [rewrite length_app; lia|].
  cbn [obind]. pose proof (grows_room _ _ Hg2) as Hr2.
  destruct (IH (i + 1) true s2 ((str ++ c) ++ print prec j) Hel Hs2) as [Hl Hext];
    [rewrite !length_app; lia|].
  split; [rewrite !length_app; lia|].
  rewrite !app_assoc. apply (extends_after _ s1), (extends_after _ s2); done.
Qed.

(** The text of a member: a number is quoted as it is printed. *)
Lemma escape_number s : number_text 46 s → escape s = s.
Proof.
  intros [(sgn & ds & frac & ex & -> & Hsgn & (Hds & _) & Hfrac & Hex)].
  assert (∀ l, digits_ok l → escape l = l) as Hdig.
  { induction 1 as [|c l Hc Hl IH]; [done|]. rewrite escape_cons, IH.
    assert (char2escape c = None) as ->; [|done]. unfold char2escape. zb; done. }
  assert (∀ l m, escape (l ++ m) = escape l ++ escape m) as Happ.
  { intros l m. apply bind_app. }
  rewrite !Happ, (Hdig ds Hds). f_equal; [by destruct Hsgn as [->| ->]|]. f_equal. f_equal.
  - destruct Hfrac as [->|(fs & -> & _ & Hfs)]; [done|]. rewrite escape_cons, (Hdig fs Hfs). done.
  - destruct Hex as [->|(c & es & -> & Hc & _ & Hes)]; [done|].
    rewrite !escape_cons, (Hdig es Hes). by destruct Hc as [->| ->].
Qed.

Lemma key_number z : Z.abs z ≤ INT_MAX → double_ok (of_Z z) ∧ finite (of_Z z) = true.
Proof.
  intros Hz. destruct (decide (z = 0)) as [->|Hne]; [done|].
  destruct (of_Z_exact z Hne) as (m & e & Heq & _ & _ & Hok); [unfold INT_MAX in *; lia|].
  split; [done|]. by rewrite Heq.
Qed.

Lemma append_key_ok s str k t :
  holds s str → object_key k t → len str + 35 + string_cost t ≤ room s →
  len (quote t ++ [58]) ≤ 35 + string_cost t ∧
  extends s (str ++ quote t ++ [58]) (append_key dp dp cfg s k).
Proof.
  intros Hs Hk Hroom. unfold string_cost in *. destruct k as [| |z| |t'| | | | |]; try done.
  - destruct Hk as [Hz ->]. destruct (key_number z Hz) as [Hok Hf].
    set (p := printf_g 46 prec (of_Z z)) in *.
    pose proof (printf_g_length 46 prec (of_Z z) Hprec Hok) as Hlen. fold p in Hlen.
    assert (quote p ++ [58] = [34] ++ p ++ [34; 58]) as ->.
    { unfold quote. rewrite escape_number by (apply printf_g_text; [lia|done]).
      by rewrite <- !app_assoc. }
    split; [rewrite !length_app; cbn [length]; lia|]. cbn [append_key].
    eapply returns_bind; [apply (append_char_ok s str 34); [done|lia]|]. intros s1 [Hs1 Hg1].
    pose proof (grows_room _ _ Hg1). apply (extends_after _ s1); [done|].
    eapply returns_bind.
    { apply (append_number_ok s1 (str ++ [34]) (Integer z)); [done| |done..]. rewrite length_app. cbn [length]. lia. }
    intros s2 [Hs2 Hg2]. pose proof (grows_room _ _ Hg2). apply (extends_after _ s2); [done|].
    rewrite !app_assoc. apply append_mem_ok; [done|]. cbn [lua_tonumber]. fold p.
    rewrite !length_app. cbn [length]. lia.
  - destruct Hk as [-> Ht]. pose proof (escape_length t Ht).
    split; [unfold quote; rewrite !length_app; cbn [length]; lia|]. cbn [append_key].
    eapply returns_bind; [apply (json_string_ok s str t); [done|done|unfold string_cost; lia]|].
    intros s1 [Hs1 Hg1]. pose proof (grows_room _ _ Hg1). apply (extends_after _ s1); [done|].
    rewrite app_assoc. apply append_char_ok; [done|].
    unfold quote. rewrite !length_app. cbn [length]. lia.
Qed.

Abbreviation member_text := (fun kv : list Z * json => member (kv.1, print prec kv.2)).
Abbreviation member_cost := (fun kv : list Z * json => 36 + string_cost kv.1 + cost kv.2).

Lemma members_cost_nonneg kvs : 0 ≤ sum_list_Z (member_cost <$> kvs).
Proof.
  apply sum_list_Z_nonneg, Forall_fmap, Forall_true. intros kv. cbn.
  pose proof (cost_nonneg kv.2). unfold string_cost. lia.
Qed.

Lemma object_loop_ok D append t kvs b s str :
  Forall (fun kv => writes D append kv.2) kvs → members D t kvs → holds s str →
  len str + sum_list_Z (member_cost <$> kvs) ≤ room s →
  len (items b (member_text <$> kvs)) ≤ sum_list_Z (member_cost <$> kvs) ∧
  extends s (str ++ items b (member_text <$> kvs)) (object_loop dp dp cfg append t b s).
Proof.
  intros Hw. revert t b s str. induction Hw as [|[k j] kvs Hj Hw IH]; intros t b s str Hm Hs Hroom.
  { destruct t; [|done]. split; [done|]. apply returns_done. cbn. rewrite app_nil_r. by split. }
  destruct t as [|[key v] t]; [done|]. destruct Hm as (Hk & Hd & Hm).
  rewrite !fmap_cons, sum_list_Z_cons in *. cbn [object_loop items fst snd] in *.
  pose proof (members_cost_nonneg kvs) as Hsum. pose proof (cost_nonneg j) as Hcj.
  assert (0 ≤ string_cost k) as Hck by (unfold string_cost; lia).
  destruct (append_comma_ok s str b Hs) as (s1 & -> & Hs1 & Hg1); [lia|]. cbn [obind].
  set (c := if b then [44] else []) in *.
  assert (len c ≤ 1) by (subst c; destruct b; cbn [length]; lia).
  pose proof (grows_room _ _ Hg1) as Hr1.
  destruct (append_key_ok s1 (str ++ c) key k Hs1 Hk) as [Hkl (s2 & -> & Hs2 & Hg2)];
    [rewrite length_app; lia|]. cbn [obind].
  pose proof (grows_room _ _ Hg2) as Hr2.
  destruct (Hj v s2 ((str ++ c) ++ quote k ++ [58]) Hd Hs2) as [Hlen (s3 & -> & Hs3 & Hg3)];
    [cbn [snd]; rewrite !length_app in *; lia|]. cbn [obind snd] in *.
  pose proof (grows_room _ _ Hg3) as Hr3.
  destruct (IH t true s3 (((str ++ c) ++ quote k ++ [58]) ++ print prec j) Hm Hs3) as [Hl Hext];
    [rewrite !length_app in *; lia|].
  change (member (k, print prec j)) with (quote k ++ [58] ++ print prec j). split; [rewrite !length_app in *; cbn [length] in *; lia|].
  apply (extends_after _ s1), (extends_after _ s2), (extends_after _ s3); try done.
  by rewrite <- !app_assoc in *.
Qed.

(** ** The whole value *)
Lemma append_literal_ok s str c :
  holds s str → len str + len c ≤ room s → extends (E:=json_error) s (str ++ c) (strbuf_append_mem s c).
Proof. intros. apply append_mem_ok; [done|]. rewrite length_app. lia. Qed.

Context (Hstack : ∀ d, d ≤ encode_max_depth cfg → checkstack d = true).
Context (Hmax : encode_max_depth cfg ≤ INT_MAX).

Lemma check_depth_ok d s : d ≤ encode_max_depth cfg → json_check_encode_depth checkstack cfg d s = Done tt.
Proof.
  intros Hd. unfold json_check_encode_depth. rewrite (proj2 (Z.leb_le _ _)) by done.
  by rewrite Hstack.
Qed.

Lemma append_array_ok fuel d l :
  Forall (writes denotes (append_data fuel (d + 1))) l →
  0 ≤ d → d + depth (JArr l) ≤ encode_max_depth cfg → writes denotes (append_data (S fuel) d) (JArr l).
Proof.
  intros IH Hd Hdepth v s str (t & -> & Ha & Hel) Hs Hroom. cbn [depth] in *.
  pose proof (max_list_Z_nonneg (depth <$> l)). cbn [json_append_data print].
  rewrite int_ok by lia. cbn [obind]. rewrite check_depth_ok by lia. cbn [obind].
  rewrite (array_length_array s (Table t) _ _ Ha). cbn [obind].
  destruct (Z.ltb_spec 0 (len l)) as [_|Hnil].
  2:{ destruct Ha as [Hk Hl _ _ _]. apply list_elem_of_fmap in Hl as ([k v'] & Heq & Hin).
      cbn in Heq. subst k. rewrite Forall_forall in Hk. specialize (Hk _ Hin).
      unfold array_key in Hk. cbn in Hk. lia. }
  change (cost (JArr l)) with (2 + sum_list_Z ((fun j => 1 + cost j) <$> l)) in *.
  unfold json_append_array. pose proof (elements_cost_nonneg l).
  destruct (append_char_ok (E:=json_error) s str 91 Hs) as (s1 & -> & Hs1 & Hg1); [lia|]. cbn [obind].
  pose proof (grows_room _ _ Hg1). rewrite Nat2Z.id.
  destruct (array_loop_ok denotes (append_data fuel (d + 1)) (table h t) l 1 false s1 (str ++ [91]))
    as [Hlen (s2 & -> & Hs2 & Hg2)]; [done|done|done|rewrite length_app; cbn [length]; lia|].
  cbn [obind]. pose proof (grows_room _ _ Hg2).
  split; [rewrite !length_app; cbn [length]; lia|].
  apply (extends_after _ s1), (extends_after _ s2); try done. rewrite !app_assoc.
  apply append_char_ok; [done|]. rewrite !length_app. cbn [length]. lia.
Qed.

Lemma append_object_ok fuel d kvs :
  Forall (fun kv => writes denotes (append_data fuel (d + 1)) kv.2) kvs →
  0 ≤ d → d + depth (JObj kvs) ≤ encode_max_depth cfg → writes denotes (append_data (S fuel) d) (JObj kvs).
Proof.
  intros IH Hd Hdepth v s str (t & -> & Ho & Hm) Hs Hroom. cbn [depth] in *.
  pose proof (max_list_Z_nonneg ((fun kv => depth kv.2) <$> kvs)). cbn [json_append_data print].
  rewrite int_ok by lia. cbn [obind]. rewrite check_depth_ok by lia. cbn [obind].
  destruct (array_length_object s (Table t) (table h t) (kvs.*1)) as (n & -> & Hn);
    [by eapply members_keys|done|]. cbn [obind]. rewrite (proj2 (Z.ltb_ge 0 n)) by lia.
  change (cost (JObj kvs)) with (2 + sum_list_Z (member_cost <$> kvs)) in *.
  unfold json_append_object. pose proof (members_cost_nonneg kvs).
  destruct (append_char_ok (E:=json_error) s str 123 Hs) as (s1 & -> & Hs1 & Hg1); [lia|]. cbn [obind].
  pose proof (grows_room _ _ Hg1).
  destruct (object_loop_ok denotes (append_data fuel (d + 1)) (table h t) kvs false s1 (str ++ [123]))
    as [Hlen (s2 & -> & Hs2 & Hg2)]; [done|done|done|rewrite length_app; cbn [length]; lia|].
  cbn [obind]. pose proof (grows_room _ _ Hg2).
  split; [rewrite !length_app; cbn [length]; lia|].
  apply (extends_after _ s1), (extends_after _ s2); try done. rewrite !app_assoc.
  apply append_char_ok; [done|]. rewrite !length_app. cbn [length]. lia.
Qed.

Lemma append_data_ok fuel d j :
  0 ≤ d → d + depth j ≤ encode_max_depth cfg → depth j ≤ Z.of_nat fuel →
  writes denotes (append_data fuel d) j.
Proof.
  revert fuel d. induction j as [|b|x|c|l IH|kvs IH] using json_rect'; intros fuel d Hd Hdepth Hfuel.
  1-4: intros v s str Hv Hs Hroom; cbn [denotes] in Hv.
  - change (cost JNull) with 4 in *. split; [done|].
    assert (append_data fuel d v s = strbuf_append_mem s (lit "null")) as ->.
    { destruct fuel, Hv as [->| ->]; done. }
    apply append_literal_ok; [done|]. change (len (lit "null")) with 4. lia.
  - subst v. split; [by destruct b|]. destruct fuel, b; apply append_literal_ok; done.
  - assert (append_data fuel d v s = append_number s v ∧ lua_tonumber v = x ∧ double_ok x ∧ finite x = true)
      as (-> & <- & Hok & Hf) by (destruct fuel, v; done).
    cbn [print]. pose proof (printf_g_length 46 prec _ Hprec Hok). change (cost _) with 32 in *.
    split; [lia|]. by apply append_number_ok.
  - destruct Hv as [-> Hc]. cbn [print]. pose proof (escape_length c Hc).
    change (cost _) with (string_cost c) in *.
    split; [unfold quote, string_cost; rewrite !length_app; cbn [length]; lia|].
    destruct fuel; by apply json_string_ok.
  - cbn [depth] in *. pose proof (max_list_Z_nonneg (depth <$> l)).
    destruct fuel as [|fuel]; [lia|]. apply append_array_ok; [|done|done].
    apply Forall_forall. intros j Hj. rewrite Forall_forall in IH. apply IH; [done|lia|..];
      pose proof (max_list_Z_elem (depth j) (depth <$> l) (list_elem_of_fmap_2 _ _ _ Hj)); lia.
  - cbn [depth] in *. pose proof (max_list_Z_nonneg ((fun kv => depth kv.2) <$> kvs)).
    destruct fuel as [|fuel]; [lia|]. apply append_object_ok; [|done|done].
    apply Forall_forall. intros kv Hkv. rewrite Forall_forall in IH. apply IH; [done|lia|..];
      pose proof (max_list_Z_elem (depth kv.2) ((fun kv => depth kv.2) <$> kvs)
        (list_elem_of_fmap_2 (fun kv => depth kv.2) _ _ Hkv)); lia.
Qed.
End encode.
End CjsonEncodeSpec.
