(* ===== verification/CjsonEncodeProps.v ===== *)
(** * Properties of the encoder

    What [json_encode] returns for a value that denotes a document, and the
    values the examples of this and the next files use. *)
From S2P Require Import Prelude Libc Strbuf StrbufSpec Double DoubleSpec Fpconv FpconvSpec Cjson CjsonEncode Json CjsonEncodeSpec.

Module CjsonEncodeProps.
Import Strbuf StrbufSpec Double DoubleSpec Fpconv FpconvSpec Cjson CjsonEncode Json CjsonEncodeSpec.

(** The buffer of the configuration, when it keeps one. *)
Definition buffer_ok (cfg : json_config_t) : Prop :=
  encode_keep_buffer cfg = 0 ∨
  (encode_keep_buffer cfg = 1 ∧
    ∃ str, holds (encode_buf cfg) str ∧ increment (encode_buf cfg) = -2).

(** The room of a buffer with the default growth rate. *)
Definition ENCODE_ROOM : Z := INT_MAX / 2 - 1.

Section props.
Context (checkstack : Z → bool) (dp : Z) (cfg : json_config_t) (h : heap).

Lemma encode_start :
  buffer_ok cfg →
  returns (E:=Empty_set) (if encode_keep_buffer cfg =? 0 then strbuf_init 0
      else Done (strbuf_reset (encode_buf cfg)))
    (fun s => holds s [] ∧ increment s = -2 ∧ room s = ENCODE_ROOM).
Proof.
  intros [Hk|[Hk (str & Hs & Hi)]]; rewrite Hk; cbn [Z.eqb].
  - eapply returns_mono; [by apply init_ok|]. intros s (? & Hi & _).
    split; [done|]. split; [done|]. unfold room, ENCODE_ROOM. by rewrite Hi.
  - apply returns_done. split; [by eapply reset_ok|]. split; [done|].
    unfold room, ENCODE_ROOM. cbn. by rewrite Hi.
Qed.

Definition leave (json : strbuf_t) : json_config_t :=
  if encode_keep_buffer cfg =? 0 then cfg else set_encode_buf json cfg.

Lemma leave_ok s str : holds s str → increment s = -2 → buffer_ok cfg → buffer_ok (leave s).
Proof.
  intros Hs Hi [Hk|[Hk _]]; unfold buffer_ok, leave; rewrite Hk.
  - by left.
  - right. split; [done|]. by exists str.
Qed.

Lemma encode_ok j v :
  point_ok dp → 1 ≤ encode_number_precision cfg ≤ 14 → encode_max_depth cfg ≤ INT_MAX →
  (∀ d, d ≤ encode_max_depth cfg → checkstack d = true) →
  buffer_ok cfg →
  denotes cfg h j v → depth j ≤ encode_max_depth cfg → cost j ≤ ENCODE_ROOM →
  ∃ s, json_encode checkstack dp dp cfg h v =
      Done (leave s, inl (print (encode_number_precision cfg) j)) ∧ buffer_ok (leave s) ∧
    holds s (print (encode_number_precision cfg) j).
Proof.
  intros Hdp Hprec Hmax Hstack Hbuf Hv Hdepth Hcost.
  destruct (encode_start Hbuf) as (s0 & Hs0 & Hh & Hi & Hroom).
  pose proof (depth_nonneg j).
  destruct (append_data_ok checkstack dp cfg h Hdp Hprec Hstack Hmax
    (Z.to_nat (encode_max_depth cfg)) 0 j ltac:(lia) ltac:(lia) ltac:(lia) v s0 [] Hv Hh)
    as [_ (s1 & Hs1 & Hh1 & Hg)]; [cbn [length]; lia|].
  exists s1. unfold json_encode. rewrite Hs0. cbn [obind]. rewrite Hs1.
  rewrite (string_ok _ _ Hh1). split; [done|]. split; [|done].
  eapply leave_ok; [done| |done]. by rewrite (g_inc _ _ Hg).
Qed.

(** C8: [json_encode] of a value that denotes the document [j] returns the text of
    [j], with every kind of value, strings escaped, numbers printed to the
    configured precision, arrays and objects told apart, in any locale and with
    or without a kept buffer, which is left fit for the next call; the nesting
    is within the limit and the text within the buffer's range. *)
Theorem encode_text j v :
  point_ok dp → 1 ≤ encode_number_precision cfg ≤ 14 → encode_max_depth cfg ≤ INT_MAX →
  (∀ d, d ≤ encode_max_depth cfg → checkstack d = true) →
  buffer_ok cfg →
  denotes cfg h j v → depth j ≤ encode_max_depth cfg → cost j ≤ ENCODE_ROOM →
  ∃ s, json_encode checkstack dp dp cfg h v =
      Done (leave s, inl (print (encode_number_precision cfg) j)) ∧ buffer_ok (leave s).
Proof. intros. destruct (encode_ok j v) as (s & ? & ? & _); [done..|]. by exists s. Qed.

End props.

Definition demo_config : json_config_t :=
  match json_create_config with
  | Done c => c
  | _ => Config (Strbuf None 0 0 0 false 0 0) 0 0 0 0 0 0 0 0 0
  end.

Lemma demo_buffer_ok : buffer_ok demo_config.
Proof.
  right. split; [reflexivity|].
  destruct (init_ok (E:=Empty_set) 0 ltac:(done)) as (s & Hs & Hh & Hi & _).
  exists []. unfold demo_config, json_create_config. rewrite Hs. cbn. done.
Qed.

Definition demo_heap_of (x : double) : heap :=
  [[(Str (lit "k"), Table 1); (Integer (-3), Boolean true)];
   [(Integer 2, Str [34; 233; 10]); (Integer 1, Number x)]].
Definition demo_json_of (x : double) : json :=
  JObj [(lit "k", JArr [JNum x; JStr [34; 233; 10]]); (lit "-3", JBool true)].
Definition demo_heap : heap := demo_heap_of (S754_finite true 6755399441055744 (-52)).
Definition demo_json : json := demo_json_of (S754_finite true 6755399441055744 (-52)).

Lemma demo_denotes x :
  double_ok x → finite x = true → denotes demo_config (demo_heap_of x) (demo_json_of x) (Table 0).
Proof.
  intros Hx Hf. exists 0%nat. split; [done|]. split.
  { split; [vm_compute; congruence|]. right. exists (Str (lit "k"), Table 1).
    split; [apply list_elem_of_here|done]. }
  split; [split; [done|]; apply (bool_decide_unpack _); vm_compute; exact I|].
  split; [|split; [split; [done|vm_compute; reflexivity]|by split]].
  exists 1%nat. split; [done|].
  split; [|split; [by split|split; [split; [done|]; apply (bool_decide_unpack _); vm_compute; exact I|done]]].
  split.
  - repeat constructor; unfold array_key; simpl; lia.
  - apply list_elem_of_here.
  - vm_compute. congruence.
  - vm_compute. congruence.
  - right. split; [vm_compute; congruence|]. split; [vm_compute; congruence|].
    left. vm_compute. congruence.
Qed.

Lemma encode_text_witness :
  ∃ s, json_encode (fun _ => true) 46 46 demo_config demo_heap (Table 0) =
    Done (leave demo_config s, inl ([123] ++ quote (lit "k") ++ lit ":[-1.5," ++ [34; 92; 34; 233; 92; 110; 34]
      ++ lit "]," ++ quote (lit "-3") ++ lit ":true}")) ∧ buffer_ok (leave demo_config s).
Proof.
  apply (encode_text (fun _ => true) 46 demo_config demo_heap demo_json (Table 0)).
  - apply (bool_decide_unpack _). vm_compute. exact I.
  - vm_compute. split; congruence.
  - vm_compute. congruence.
  - done.
  - apply demo_buffer_ok.
  - by apply demo_denotes.
  - vm_compute. congruence.
  - vm_compute. congruence.
Defined.
End CjsonEncodeProps.

(** * The encoder is safe for every Lua value

    Every computation of the encoder ends; it returns a result, or raises a Lua
    error, or a size leaves the range of an int. No access outside a block, no
    uninitialised byte, no failed assertion, no endless recursion. *)
Module CjsonEncodeSafe.
Import Strbuf StrbufSpec Double DoubleSpec Fpconv FpconvSpec Cjson CjsonEncode Json CjsonEncodeSpec
  CjsonEncodeProps.

(** Only a size beyond the range of an int is left open. *)
Abbreviation sound := (sound (fun f => f = IntOverflow)).

(** ** The string buffer without a bound on the text *)
Section strbuf.
Context {E : Type} (R : E → Prop).

Lemma int_sound z : sound R (fun z' => z' = z ∧ - INT_MAX - 1 ≤ z ≤ INT_MAX) (int z).
Proof.
  unfold int. destruct (Z.leb_spec (- INT_MAX - 1) z), (Z.leb_spec z INT_MAX); done.
Qed.

Lemma grow_loop_sound fuel k n req :
  2 ≤ k → 1 ≤ n ≤ INT_MAX → req ≤ n * 2 ^ Z.of_nat fuel →
  sound R (fun m => req ≤ m ≤ INT_MAX ∧ n ≤ m ∧ (n < req → 2 * n ≤ m))
    (grow_loop (S fuel) k n req).
Proof.
  intros Hk. revert n. induction fuel as [|fuel IH]; intros n Hn Hfuel;
    cbn [grow_loop]; destruct (Z.ltb_spec n req) as [Hlt|Hge]; try (cbn [sound]; lia).
  eapply sound_bind; [apply int_sound|]. intros ? [-> Hz].
  rewrite Nat2Z.inj_succ, Z.pow_succ_r in Hfuel by lia.
  eapply sound_mono; [apply IH; nia|]. simpl. nia.
Qed.

(** [keeps s str o]: afterwards the buffer holds [str]. *)
Definition keeps (s : strbuf_t) (str : list Z) (o : outcome E strbuf_t) : Prop :=
  sound R (fun s' => holds s' str ∧ grows s s') o.

Lemma extends_keeps s str o : extends s str o → keeps s str o.
Proof. apply sound_returns. Qed.

Lemma keeps_after s s1 str o : grows s s1 → keeps s1 str o → keeps s str o.
Proof. intros Hg Ho. eapply sound_mono; [exact Ho|]. intros s' []. split; [done|]. by etrans. Qed.

Lemma resize_sound s str n :
  holds s str → size s ≤ n →
  sound R (fun s' => holds s' str ∧ grows s s' ∧ n < size s') (strbuf_resize s n).
Proof.
  intros [(b & Hb & Hsz & Hpre) Hl Hn Hm Hi Hr] Hroom.
  unfold strbuf_resize, calculate_new_size. destruct (Z.leb_spec n 0); [lia|].
  eapply sound_bind.
  { eapply sound_bind; [apply int_sound|]. intros ? [-> Hreq].
    destruct (Z.ltb_spec (n + 1) (size s)); [lia|]. destruct (Z.ltb_spec (increment s) 0); [|lia].
    rewrite (int_ok (- increment s)) by lia. cbn [obind].
    apply (grow_loop_sound 31); [lia|lia|]. change (2 ^ Z.of_nat 31) with (INT_MAX + 1). nia. }
  intros m (Hm1 & Hm2 & Hm3). unfold realloc. rewrite Hb. cbn [default from_option id].
  destruct (Z.ltb_spec m 0); [lia|]. cbn [obind]. rewrite int_ok by lia. cbn [obind sound].
  rewrite take_ge by lia.
  split; [|split; [split; cbn; done || lia|cbn; lia]].
  constructor; cbn; try done; try lia. eexists. split; [done|]. split.
  - rewrite length_app, length_replicate. lia.
  - unfold starts. by apply prefix_app_r.
Qed.

Lemma ensure_sound s str n :
  holds s str → 0 ≤ n →
  sound R (fun s' => holds s' str ∧ grows s s' ∧ len str + n < size s')
    (strbuf_ensure_empty_length s n).
Proof.
  intros Hs Hn. pose proof (h_len _ _ Hs) as Hl.
  unfold strbuf_ensure_empty_length, strbuf_empty_length.
  destruct (Z.ltb_spec (size s - slen s - 1) n).
  - eapply sound_bind; [apply int_sound|]. intros ? [-> Hz]. rewrite Hl in *.
    apply resize_sound; [done|lia].
  - cbn. split; [done|]. split; [done|lia].
Qed.

Lemma append_mem_sound s str c : holds s str → keeps s (str ++ c) (strbuf_append_mem s c).
Proof.
  intros Hs. unfold strbuf_append_mem. eapply sound_bind; [apply (ensure_sound s str); [done|lia]|].
  intros s1 (Hs1 & Hg & Hsz). apply (keeps_after _ s1); [done|].
  by apply extends_keeps, appends_extends, put_mem_extends.
Qed.

Lemma append_char_sound s str c : holds s str → keeps s (str ++ [c]) (strbuf_append_char s c).
Proof.
  intros Hs. unfold strbuf_append_char. eapply sound_bind; [apply (ensure_sound s str); [done|lia]|].
  intros s1 (Hs1 & Hg & Hsz). apply (keeps_after _ s1); [done|].
  by apply extends_keeps, appends_extends, append_char_unsafe_ok.
Qed.
End strbuf.
(** ** The encoder *)
Section encode.
Context (checkstack : Z → bool) (dp : Z) (cfg : json_config_t) (h : heap).
Context (Hdp : point_ok dp) (Hprec : 1 ≤ encode_number_precision cfg ≤ 14).

(** A buffer that can be used, and an error that leaves one. *)
Definition fit (s : strbuf_t) : Prop := ∃ str, holds s str ∧ increment s = -2.
Definition error_ok (e : json_error) : Prop := encode_keep_buffer cfg = 0 ∨ fit (err_buf e).
Abbreviation safe := (sound error_ok fit).

(** A Lua value: bytes, doubles, and strings whose worst case is an int. *)
Definition value_ok (v : value) : Prop :=
  match v with
  | Str s => bytes_ok s ∧ 6 * len s + 2 ≤ INT_MAX
  | Integer _ | Number _ => double_ok (lua_tonumber v)
  | _ => True
  end.
Definition heap_ok : Prop := Forall (Forall (fun e => value_ok e.1 ∧ value_ok e.2)) h.

Lemma keeps_safe s str o : increment s = -2 → keeps error_ok s str o → safe o.
Proof.
  intros Hi Ho. eapply sound_mono; [exact Ho|]. intros s' [? Hg]. exists str.
  split; [done|]. by rewrite (g_inc _ _ Hg).
Qed.

Lemma release_ok m s : fit s → error_ok (JsonError m (release cfg s)).
Proof.
  intros Hs. unfold error_ok, release. cbn [err_buf].
  destruct (Z.eqb_spec (encode_keep_buffer cfg) 0); [by left|by right].
Qed.

Lemma exception_safe {A} (Q : A → Prop) s v r : fit s → sound error_ok Q (json_encode_exception cfg s v r).
Proof. intros. by apply release_ok. Qed.

Lemma append_mem_safe s c : fit s → safe (strbuf_append_mem s c).
Proof. intros (str & Hs & Hi). by eapply keeps_safe, append_mem_sound. Qed.

Lemma append_char_safe s c : fit s → safe (strbuf_append_char s c).
Proof. intros (str & Hs & Hi). by eapply keeps_safe, append_char_sound. Qed.

Lemma append_string_safe s c : fit s → value_ok (Str c) → safe (json_append_string s c).
Proof.
  intros (str & Hs & Hi) [Hc Hlen]. unfold json_append_string. unfold INT_MAX in *.
  rewrite swrap_small by (try lia; change (2 ^ (32 - 1)) with 2147483648; lia).
  eapply sound_bind; [apply (ensure_sound _ s str); [done|lia]|]. intros s1 (Hs1 & Hg1 & Hsz1).
  apply (keeps_safe s1 (str ++ quote c)); [by rewrite (g_inc _ _ Hg1)|].
  by apply extends_keeps, appends_extends, append_quoted_ok; [..|lia].
Qed.

Lemma append_number_safe s v :
  fit s → double_ok (lua_tonumber v) → safe (json_append_number dp dp cfg s v).
Proof.
  intros (str & Hs & Hi) Hok. unfold json_append_number.
  assert (fit s) as Hfit by (by exists str).
  destruct (isinf (lua_tonumber v) || isnan (lua_tonumber v)) eqn:Hinv.
  - destruct (_ =? 0); [by apply exception_safe|].
    destruct (_ =? 1); [|by apply append_mem_safe].
    destruct (isnan (lua_tonumber v)); [by apply append_mem_safe|].
    rewrite orb_false_r in Hinv. rewrite Hinv. destruct (neg _); by apply append_mem_safe.
  - assert (finite (lua_tonumber v) = true) as Hf by (unfold finite; by rewrite orb_comm, Hinv).
    apply orb_false_iff in Hinv as [-> ->].
    enough (safe (let! json := strbuf_ensure_empty_length s FPCONV_G_FMT_BUFSIZE in
      let! (text, n) := fpconv_g_fmt dp dp (lua_tonumber v) (encode_number_precision cfg) in
      let! json := put_mem json (slen json) text in
      strbuf_extend_length json n)) by (by repeat case_match).
    unfold FPCONV_G_FMT_BUFSIZE. eapply sound_bind; [apply (ensure_sound _ s str); [done|lia]|].
    intros s1 (Hs1 & Hg1 & Hsz1).
    destruct (fpconv_g_fmt_ok (E:=json_error) dp _ (lua_tonumber v) Hdp Hprec Hok Hf) as [-> Hlen].
    cbn [obind]. rewrite length_app in Hlen. cbn [length] in Hlen.
    eapply sound_bind.
    { apply sound_returns, (put_text_ok s1 str); [done|]. rewrite length_app. cbn [length]. lia. }
    intros s2 (Hs2 & Hsz2 & Hi2 & Hd2 & b & Hb & Hpre).
    eapply (keeps_safe s2); [by rewrite Hi2, (g_inc _ _ Hg1)|].
    apply extends_keeps, appends_extends. eapply (extend_ok _ _ _ b); [done|done| |lia].
    unfold starts in *. rewrite app_assoc, fmap_app in Hpre. by eapply prefix_app_l.
Qed.

(** ** Tables *)
Lemma array_keys_safe t max items : sound error_ok (fun _ => True) (array_keys t max items).
Proof.
  revert max items. induction t as [|[k v] t IH]; intros max items; [done|]. cbn [array_keys].
  destruct k; try done; (destruct (positive_integer _); [|done]);
    (eapply (sound_bind _ _ (fun _ => True)); [destruct (SFltb _ _); [unfold double_to_int; destruct (to_integer _); [|done];
      by eapply sound_mono; [apply int_sound|]|done]|]);
    intros m _; (eapply sound_bind; [apply int_sound|]); intros i _; apply IH.
Qed.

Lemma array_length_safe s v t :
  fit s → sound error_ok (fun _ => True) (lua_array_length cfg s v t).
Proof.
  intros Hs. unfold lua_array_length. eapply sound_bind; [apply array_keys_safe|].
  intros [[max items]|] _; [|done].
  eapply (sound_bind _ _ (fun _ => True)).
  { destruct (0 <? _); [|done]. eapply sound_bind; [apply int_sound|]. done. }
  intros [|] _; [|done]. destruct (_ =? 0); [by apply exception_safe|done].
Qed.

(** [append] on values that are fit for it. *)
Definition appends_safely (append : value → strbuf_t → outcome json_error strbuf_t) : Prop :=
  ∀ v s, value_ok v → fit s → safe (append v s).

Lemma comma_safe b s : fit s → safe (append_comma b s).
Proof. intros. destruct b; [by apply append_char_safe|done]. Qed.

Lemma rawget_ok t k : Forall (fun e => value_ok e.1 ∧ value_ok e.2) t → value_ok (lua_rawget t k).
Proof.
  induction 1 as [|[k' v] t [_ Hv] Ht IH]; [done|]. cbn [lua_rawget]. by destruct (decide _).
Qed.

Lemma array_loop_safe append n t i b s :
  appends_safely append → Forall (fun e => value_ok e.1 ∧ value_ok e.2) t → fit s →
  safe (array_loop append n t i b s).
Proof.
  intros Ha Ht. revert i b s. induction n as [|n IH]; intros i b s Hs; [done|].
  cbn [array_loop]. eapply sound_bind; [by apply comma_safe|]. intros s1 Hs1.
  eapply sound_bind; [apply Ha; [by apply rawget_ok|done]|]. intros s2 Hs2. by apply IH.
Qed.

Lemma key_safe s k : fit s → value_ok k → safe (append_key dp dp cfg s k).
Proof.
  intros Hs Hk. destruct k; try (by apply exception_safe); cbn [append_key].
  1,2: (eapply sound_bind; [by apply append_char_safe|]; intros s1 Hs1;
    eapply sound_bind; [by apply append_number_safe|]; intros s2 Hs2; by apply append_mem_safe).
  eapply sound_bind; [by apply append_string_safe|]. intros s1 Hs1. by apply append_char_safe.
Qed.

Lemma object_loop_safe append t b s :
  appends_safely append → Forall (fun e => value_ok e.1 ∧ value_ok e.2) t → fit s →
  safe (object_loop dp dp cfg append t b s).
Proof.
  intros Ha Ht. revert b s. induction Ht as [|[k v] t [Hk Hv] Ht IH]; intros b s Hs; [done|].
  cbn [object_loop fst snd] in *. eapply sound_bind; [by apply comma_safe|]. intros s1 Hs1.
  eapply sound_bind; [by apply key_safe|]. intros s2 Hs2.
  eapply sound_bind; [by apply Ha|]. intros s3 Hs3. by apply IH.
Qed.

Lemma append_data_safe fuel d :
  heap_ok → encode_max_depth cfg ≤ d + Z.of_nat fuel →
  appends_safely (json_append_data checkstack dp dp cfg h fuel d).
Proof.
  intros Hh. revert d. induction fuel as [|fuel IH]; intros d Hd v s Hv Hs.
  all: destruct v as [|[|]| | | |t|[|]| | |]; try (by apply append_mem_safe);
    try (by apply append_number_safe); try (by apply append_string_safe);
    try (by apply exception_safe).
  all: cbn [json_append_data]; (eapply sound_bind; [apply int_sound|]); intros ? [-> _];
    unfold json_check_encode_depth;
    (destruct (Z.leb_spec (d + 1) (encode_max_depth cfg)); [|by apply release_ok]); try (exfalso; lia).
  destruct (checkstack (d + 1)); [|by apply release_ok]. cbn [andb obind].
  assert (Forall (fun e => value_ok e.1 ∧ value_ok e.2) (table h t)) as Ht.
  { unfold table. destruct (h !! t) eqn:Hl.
    - rewrite (list_lookup_total_correct _ _ _ Hl). by eapply Forall_lookup_1.
    - by rewrite list_lookup_total_alt, Hl. }
  specialize (IH (d + 1) ltac:(lia)).
  eapply sound_bind; [by apply array_length_safe|]. intros n _.
  destruct (0 <? n); unfold json_append_array, json_append_object;
    (eapply sound_bind; [by apply append_char_safe|]); intros s1 Hs1;
    (eapply sound_bind; [by first [apply array_loop_safe|apply object_loop_safe]|]);
    intros s2 Hs2; by apply append_char_safe.
Qed.

(** The ways [json_encode] may end: a result or a Lua error with a good
    configuration, or the overflow of an int. *)
Definition encode_ends {A} (r : outcome Empty_set (json_config_t * A)) : Prop :=
  match r with
  | Done (cfg', _) => buffer_ok cfg' ∧ encode_max_depth cfg' = encode_max_depth cfg
  | Fault f => f = IntOverflow
  | Raise _ | NoFuel => False
  end.

(** C9: [json_encode] is safe for every Lua value over every heap, cyclic or
    shared tables included: it ends, with the text or with a Lua error, and
    leaves a buffer fit for the next call; the only way out of C it leaves open
    is a size or a key beyond the range of an int. *)
Theorem encode_safe v :
  buffer_ok cfg → heap_ok → value_ok v →
  encode_ends (json_encode checkstack dp dp cfg h v).
Proof.
  intros Hbuf Hh Hv. unfold encode_ends, json_encode.
  destruct (encode_start cfg Hbuf) as (s0 & -> & Hs0 & Hi & _). cbn [obind].
  assert (fit s0) as Hfit by (by exists []).
  pose proof (append_data_safe (Z.to_nat (encode_max_depth cfg)) 0 Hh ltac:(lia) v s0 Hv Hfit) as Hd.
  assert (∀ s, fit s → buffer_ok (leave cfg s) ∧ encode_max_depth (leave cfg s) = encode_max_depth cfg)
    as Hleave.
  { intros s (str & Hs & Hinc). split; [by eapply leave_ok|]. unfold leave. by destruct (_ =? 0). }
  destruct (json_append_data _ _ _ _ _ _ _ _ _) as [s1|e|f|]; try done.
  - pose proof Hd as (str & Hs1 & Hi1). rewrite (string_ok _ _ Hs1). cbn [obind]. by apply Hleave.
  - destruct Hd as [Hk|Hf]; [|by apply Hleave].
    rewrite Hk. split; [by left|done].
Qed.
End encode.

Lemma encode_safe_witness :
  encode_ends demo_config
    (json_encode (fun _ => true) 46 46 demo_config [[(Str (lit "x"), Table 0)]] (Table 0)).
Proof.
  apply (encode_safe (fun _ => true) 46 demo_config [[(Str (lit "x"), Table 0)]]).
  - apply (bool_decide_unpack _). vm_compute. exact I.
  - vm_compute. split; congruence.
  - apply demo_buffer_ok.
  - repeat constructor; apply (bool_decide_unpack _); vm_compute; exact I.
  - exact I.
Defined.

(** ** A table in itself *)
Section cycle.
Context (checkstack : Z → bool) (dp : Z) (cfg : json_config_t) (h : heap) (t : nat).
Context (Hself : h !! t = Some [(Integer 1, Table t)]).
Context (Hmax : 0 ≤ encode_max_depth cfg ≤ ENCODE_ROOM).
Context (Hstack : ∀ d, d ≤ encode_max_depth cfg → checkstack d = true).
Context (Hratio : 0 ≤ encode_sparse_ratio cfg ≤ INT_MAX).

Definition nesting_message : list Z :=
  lit "Cannot serialise, excessive nesting (" ++ fmt_d (encode_max_depth cfg + 1) ++ lit ")".

Lemma self_array s : lua_array_length cfg s (Table t) [(Integer 1, Table t)] = Done 1.
Proof.
  apply array_length_array. split.
  - constructor; [|done]. unfold array_key. simpl. lia.
  - simpl. by apply list_elem_of_here.
  - unfold INT_MAX. lia.
  - simpl. unfold INT_MAX. lia.
  - cbn [length]. lia.
Qed.

Lemma self_nesting fuel d s str :
  holds s str → increment s = -2 → 0 ≤ d ≤ encode_max_depth cfg →
  Z.of_nat fuel = encode_max_depth cfg - d → len str = d → room s = ENCODE_ROOM →
  ∃ s', json_append_data checkstack dp dp cfg h fuel d (Table t) s =
      Raise (JsonError nesting_message (release cfg s')) ∧ fit s'.
Proof.
  intros Hs Hi Hd Hfuel Hlen Hroom. revert d s str Hs Hi Hd Hfuel Hlen Hroom.
  assert (ENCODE_ROOM = 1073741822) as Hr by reflexivity.
  induction fuel as [|fuel IH]; intros d s str Hs Hi Hd Hfuel Hlen Hroom; cbn [json_append_data];
    rewrite int_ok by (unfold INT_MAX; lia); cbn [obind]; unfold json_check_encode_depth.
  - destruct (Z.leb_spec (d + 1) (encode_max_depth cfg)); [lia|]. cbn [andb obind].
    replace (d + 1) with (encode_max_depth cfg + 1) by lia.
    exists s. split; [done|]. by exists str.
  - destruct (Z.leb_spec (d + 1) (encode_max_depth cfg)); [|lia]. rewrite Hstack by done.
    cbn [andb obind]. unfold table. rewrite (list_lookup_total_correct _ _ _ Hself), self_array.
    cbn [obind]. change (0 <? 1) with true. cbv iota. unfold json_append_array.
    destruct (append_char_ok (E:=json_error) s str 91 Hs) as (s1 & -> & Hs1 & Hg1); [lia|].
    cbn [obind]. change (Z.to_nat 1) with 1%nat. cbn [array_loop append_comma obind lua_rawget].
    rewrite decide_True by done.
    destruct (IH (d + 1) s1 (str ++ [91])) as (s' & -> & Hf); try lia; try done.
    + by rewrite (g_inc _ _ Hg1).
    + rewrite length_app. cbn [length]. lia.
    + by rewrite (grows_room _ _ Hg1).
    + by exists s'.
Qed.

(** A table that contains itself is not followed for ever: the encoder raises
    the nesting error one level behind the configured limit. *)
Theorem encode_cycle :
  buffer_ok cfg →
  ∃ cfg', json_encode checkstack dp dp cfg h (Table t) = Done (cfg', inr nesting_message) ∧
    buffer_ok cfg'.
Proof.
  intros Hbuf. unfold json_encode.
  destruct (encode_start cfg Hbuf) as (s0 & -> & Hs0 & Hi & Hroom). cbn [obind].
  destruct (self_nesting (Z.to_nat (encode_max_depth cfg)) 0 s0 []) as (s' & -> & str & Hs' & Hi');
    try done; try lia.
  eexists. split; [done|]. cbn [err_buf].
  change (buffer_ok (leave cfg (release cfg s'))). unfold leave, release.
  destruct (Z.eqb_spec (encode_keep_buffer cfg) 0); [by left|].
  pose proof (leave_ok cfg s' str Hs' Hi' Hbuf) as Hl. unfold leave in Hl.
  by rewrite (proj2 (Z.eqb_neq _ _)) in Hl by done.
Qed.
End cycle.

Lemma encode_cycle_witness :
  ∃ cfg', json_encode (fun _ => true) 46 46 demo_config [[(Integer 1, Table 0)]] (Table 0) =
    Done (cfg', inr (lit "Cannot serialise, excessive nesting (1001)")) ∧ buffer_ok cfg'.
Proof.
  apply (encode_cycle (fun _ => true) 46 demo_config [[(Integer 1, Table 0)]] 0);
    [reflexivity|vm_compute; split; congruence|done|vm_compute; split; congruence|].
  apply demo_buffer_ok.
Defined.

(** Where the classification of a table leaves the range of an int: behind any
    keys of an array, an integer key above the range makes the conversion
    [max = k] undefined; and a ratio that the option function accepts overflows
    when it is multiplied with the number of items. *)
Theorem array_length_overflows cfg s v t n k w :
  Forall (array_key n) t → n ≤ INT_MAX → len t < INT_MAX →
  (INT_MAX < k < 2 ^ 53 →
    lua_array_length cfg s v (t ++ [(Integer k, w)]) = Fault IntOverflow) ∧
  (0 < encode_sparse_ratio cfg → INT_MAX < len t * encode_sparse_ratio cfg →
    lua_array_length cfg s v t = Fault IntOverflow).
Proof.
  intros Ht Hn Hlen. unfold lua_array_length. split.
  - intros Hk. unfold INT_MAX in *.
    assert (∀ max items, 0 ≤ max ≤ 2147483647 → 0 ≤ items → items + len t < 2147483647 →
      array_keys (t ++ [(Integer k, w)]) max items = Fault IntOverflow) as Hall; [|by rewrite Hall by lia].
    clear Hlen. induction Ht as [|[k' v'] t Hk' Ht IH]; intros max items Hm Hi Hlen.
    + cbn [app array_keys lua_tonumber]. rewrite positive_integer_of_Z by lia.
      rewrite (proj2 (Z.leb_le 1 k)), SFltb_of_Z by lia.
      rewrite (proj2 (Z.ltb_lt max k)) by lia. unfold double_to_int.
      rewrite to_integer_of_Z by lia. unfold int, INT_MAX.
      rewrite (proj2 (Z.leb_gt k 2147483647)) by lia. by rewrite andb_false_r.
    + destruct k' as [| |k'| | | | | | |]; try done. unfold array_key in Hk'. simpl in Hk'.
      rewrite <- app_comm_cons, array_keys_step by (unfold INT_MAX; cbn [length] in *; lia).
      apply IH; cbn [length] in *; lia.
  - intros Hr Hov. destruct t as [|e t]; [cbn [length] in *; lia|].
    assert (0 ≤ n) as Hn0.
    { inversion_clear Ht as [|? ? Hk _]. unfold array_key in Hk. destruct e.1; try done. lia. }
    destruct (array_keys_array (e :: t) n 0 0) as (m & -> & _ & _); [done|lia..|].
    cbn [obind]. rewrite (proj2 (Z.ltb_lt _ _)) by done. rewrite Z.add_0_l. unfold int.
    rewrite (proj2 (Z.leb_gt _ INT_MAX)) by done. by rewrite andb_false_r.
Qed.

Lemma array_length_overflows_witness :
  lua_array_length demo_config (encode_buf demo_config) (Table 0)
    ([(Integer 1, Nil)] ++ [(Integer 4294967296, Boolean true)]) = Fault IntOverflow ∧
  lua_array_length (set_sparse 1 INT_MAX 10 demo_config) (encode_buf demo_config) (Table 0)
    [(Integer 1, Nil); (Integer 2, Nil)] = Fault IntOverflow.
Proof.
  split.
  - apply (array_length_overflows demo_config (encode_buf demo_config) (Table 0) [(Integer 1, Nil)]
      1 4294967296 (Boolean true)); [|unfold INT_MAX; simpl; lia..].
    repeat constructor; simpl; lia.
  - apply (array_length_overflows (set_sparse 1 INT_MAX 10 demo_config) (encode_buf demo_config)
      (Table 0) [(Integer 1, Nil); (Integer 2, Nil)] 2 0 Nil); [|unfold INT_MAX; simpl; lia..].
    repeat constructor; simpl; lia.
Defined.
End CjsonEncodeSafe.
