(* ===== verification/CjsonDecodeSafe.v ===== *)
(** * The decoder is safe for every input

    [inv s j]: the parser stands inside the string [s] or at its terminator, and
    its temporary buffer is a buffer longer than [s]. Every function of the
    decoder keeps this, ends within the fuel it is given, and never reads or
    writes outside its memory: the decoded text of a string is shorter than the
    JSON it comes from, so the unchecked appends stay inside the buffer. *)
From S2P Require Import Prelude Libc Strbuf StrbufSpec Double DoubleSpec Fpconv FpconvSpec Cjson CjsonDecode.

Module CjsonDecodeSafe.
Import Strbuf StrbufSpec Double DoubleSpec Fpconv FpconvSpec Cjson CjsonDecode.

(** No fault is left open; every Lua error is possible. *)
Abbreviation total := (sound (fun _ => False) (fun _ : parse_error => True)).

Section safe.
Context (s : list Z).
Implicit Types (j : json_parse_t).

Record inv j : Prop := {
  i_data : data j = s ++ [0];
  i_ptr : 0 ≤ ptr j ≤ len s;
  i_tmp : ∃ str, holds (tmp j) str;
  i_room : len s < size (tmp j);
  i_depth : 0 ≤ current_depth j ≤ ptr j
}.

(** Later states of the parser, inside one container. *)
Record later j j' : Prop := {
  l_cfg : cfg j' = cfg j;
  l_depth : current_depth j' = current_depth j;
  l_ptr : ptr j ≤ ptr j'
}.

#[export] Instance later_preorder : PreOrder later.
Proof. split; [by split|]. intros j1 j2 j3 [] []. split; congruence || lia. Qed.

(** ** Reading *)
Lemma chr_ok j i :
  inv j → 0 ≤ i → ptr j + i ≤ len s →
  total (fun c => c ≠ 0 → ptr j + i < len s) (chr j i).
Proof.
  intros [Hd Hp _ _ _] Hi Hle. unfold chr. rewrite Hd. unfold rd, zget.
  destruct (Z.ltb_spec (ptr j + i) 0); [lia|].
  destruct (lookup_lt_is_Some_2 (s ++ [0]) (Z.to_nat (ptr j + i))) as [c Hc].
  { rewrite length_app. cbn [length]. lia. }
  rewrite Hc. cbn [sound]. intros Hne.
  destruct (Z.lt_ge_cases (ptr j + i) (len s)); [done|].
  rewrite lookup_app_r in Hc by lia.
  replace (Z.to_nat (ptr j + i) - length s)%nat with 0%nat in Hc by lia.
  cbn in Hc. congruence.
Qed.

Lemma hexdigit2int_ok c : -1 ≤ hexdigit2int c ≤ 15 ∧ (0 ≤ hexdigit2int c → c ≠ 0).
Proof. unfold hexdigit2int. split; [zb|]. intros H ->. by vm_compute in H. Qed.

(** Four digits, none of them the terminator. *)
Lemma decode_hex4_ok j i :
  inv j → 0 ≤ i → ptr j + i ≤ len s →
  total (fun r => r ≤ 65535 ∧ (0 ≤ r → ptr j + i + 4 ≤ len s)) (decode_hex4 j i).
Proof.
  intros Hj Hi Hle. unfold decode_hex4.
  eapply sound_bind; [by apply chr_ok|]. intros c0 N0.
  pose proof (hexdigit2int_ok c0) as [R0 Z0]. destruct (Z.ltb_spec (hexdigit2int c0) 0); [cbn; lia|].
  eapply sound_bind; [apply chr_ok; [done|lia|]; specialize (N0 (Z0 ltac:(lia))); lia|]. intros c1 N1.
  pose proof (hexdigit2int_ok c1) as [R1 Z1]. destruct (Z.ltb_spec (hexdigit2int c1) 0); [cbn; lia|].
  eapply sound_bind; [apply chr_ok; [done|lia|]; specialize (N1 (Z1 ltac:(lia))); lia|]. intros c2 N2.
  pose proof (hexdigit2int_ok c2) as [R2 Z2]. destruct (Z.ltb_spec (hexdigit2int c2) 0); [cbn; lia|].
  eapply sound_bind; [apply chr_ok; [done|lia|]; specialize (N2 (Z2 ltac:(lia))); lia|]. intros c3 N3.
  pose proof (hexdigit2int_ok c3) as [R3 Z3]. destruct (Z.ltb_spec (hexdigit2int c3) 0); [cbn; lia|].
  cbn [sound]. rewrite !Z.shiftl_mul_pow2 by lia.
  change (2 ^ 12) with 4096. change (2 ^ 8) with 256. change (2 ^ 4) with 16.
  specialize (N3 (Z3 ltac:(lia))). lia.
Qed.

Lemma land_lt a n : 0 ≤ n → 0 ≤ Z.land a (Z.ones n) < 2 ^ n.
Proof. intros. rewrite Z.land_ones by done. apply Z.mod_pos_bound. lia. Qed.

(** The code point of an escape and its length: the escape ends before the
    terminator. *)
Lemma unicode_escape_ok j :
  inv j → ptr j + 2 ≤ len s →
  total (fun r => match r with
    | None => True
    | Some (cp, n) => ptr j + n ≤ len s ∧ 0 ≤ cp ∧ (n = 6 ∧ cp ≤ 65535 ∨ n = 12)
    end) (unicode_escape j).
Proof.
  intros Hj Hle. unfold unicode_escape. eapply sound_bind; [by apply decode_hex4_ok|].
  intros cp [Hcp Hlen]. destruct (Z.ltb_spec cp 0); [done|]. specialize (Hlen ltac:(lia)).
  destruct (_ =? 55296); [|cbn; lia]. destruct (negb _); [done|].
  eapply sound_bind; [apply chr_ok; [done|lia..]|]. intros c6 H6.
  destruct (Z.eqb_spec c6 92); [|done]. cbn [negb]. specialize (H6 ltac:(lia)).
  eapply sound_bind; [apply chr_ok; [done|lia..]|]. intros c7 H7.
  destruct (Z.eqb_spec c7 117); [|done]. cbn [negb]. specialize (H7 ltac:(lia)).
  eapply sound_bind; [apply decode_hex4_ok; [done|lia..]|]. intros low [_ Hlow].
  destruct (Z.ltb_spec low 0); [done|]. specialize (Hlow ltac:(lia)).
  destruct (negb _); [done|]. cbn [sound].
  assert (0 ≤ Z.lor (Z.shiftl (Z.land cp 1023) 10) (Z.land low 1023)); [|lia].
  apply Z.lor_nonneg. split.
  - apply Z.shiftl_nonneg, Z.land_nonneg. lia.
  - apply Z.land_nonneg. lia.
Qed.

Lemma utf8_length cp : (length (codepoint_to_utf8 cp) ≤ 4)%nat ∧
  (cp ≤ 65535 → (length (codepoint_to_utf8 cp) ≤ 3)%nat).
Proof. unfold codepoint_to_utf8. zb; simpl; lia. Qed.
(** ** Moving on *)

(** The pointer moves by [n], with another text in the same buffer. *)
Lemma inv_advance j n t :
  inv j → 0 ≤ n → ptr j + n ≤ len s → (∃ str, holds t str) → size t = size (tmp j) →
  inv (advance n (set_tmp t j)) ∧ later j (advance n (set_tmp t j)).
Proof.
  intros [] Hn Hle Ht Hsz. split; [constructor|split]; cbn; try done; try lia.
Qed.

Lemma inv_move j n :
  inv j → 0 ≤ n → ptr j + n ≤ len s → inv (advance n j) ∧ later j (advance n j).
Proof. intros [] Hn Hle. split; [constructor|split]; cbn; try done; try lia. Qed.

(** ** Strings *)
Lemma append_escape_ok j str start :
  inv j → holds (tmp j) str → len str + start ≤ ptr j → 1 ≤ start → ptr j + 2 ≤ len s →
  total (fun r => match r with
    | None => True
    | Some j' => inv j' ∧ later j j' ∧ ptr j < ptr j' ∧
        ∃ str', holds (tmp j') str' ∧ len str' + start ≤ ptr j'
    end) (json_append_unicode_escape j).
Proof.
  intros Hj Hs Hlen Hst Hle. unfold json_append_unicode_escape.
  eapply sound_bind; [by apply unicode_escape_ok|]. intros [[cp n]|] Hcp; [|done].
  destruct Hcp as (Hn & Hcp & Hkind). pose proof (utf8_length cp) as [U4 U3].
  destruct (codepoint_to_utf8 cp) as [|u us]; [done|].
  pose proof (i_room _ Hj) as Hroom.
  eapply sound_bind.
  { apply sound_returns, (append_mem_unsafe_ok (tmp j) str (u :: us)); [done|]. lia. }
  intros t (Ht & Hsz & _ & _). cbn [sound].
  destruct (inv_advance j n t Hj) as [Hi Hl]; [lia|lia|by eexists|done|].
  split; [exact Hi|]. split; [exact Hl|]. split; [cbn; lia|].
  exists (str ++ u :: us). split; [done|]. rewrite length_app. cbn [ptr advance set_ptr set_tmp]. lia.
Qed.

(** A character that is translated or taken as it is. *)
Lemma append_one_ok j str start c n :
  inv j → holds (tmp j) str → len str + start ≤ ptr j → 1 ≤ start → 1 ≤ n → ptr j + n ≤ len s →
  total (fun t => let j' := advance n (set_tmp t j) in inv j' ∧ later j j' ∧
    ∃ str', holds (tmp j') str' ∧ len str' + start ≤ ptr j')
    (strbuf_append_char_unsafe (tmp j) c).
Proof.
  intros Hj Hs Hlen Hst Hn Hle. pose proof (i_room _ Hj) as Hroom.
  eapply sound_mono; [apply sound_returns, (append_char_unsafe_ok (tmp j) str c); [done|lia]|].
  intros t (Ht & Hsz & _ & _). destruct (inv_advance j n t Hj) as [Hi Hl]; [lia|lia|by eexists|done|].
  split; [exact Hi|]. split; [exact Hl|]. exists (str ++ [c]). split; [done|].
  rewrite length_app. cbn [ptr advance set_ptr set_tmp length]. lia.
Qed.

Lemma escape2char_nul c : escape2char c ≠ 0 → c ≠ 0.
Proof. intros H ->. by apply H. Qed.

Lemma string_loop_ok fuel j str start :
  inv j → holds (tmp j) str → len str + start ≤ ptr j → 1 ≤ start → len s - ptr j < Z.of_nat fuel →
  total (fun '(j', err) => inv j' ∧ later j j' ∧ (err = None → ptr j' < len s))
    (string_loop fuel j).
Proof.
  revert j str. induction fuel as [|fuel IH]; intros j str Hj Hs Hlen Hst Hfuel.
  { destruct Hj. lia. }
  pose proof (i_ptr _ Hj) as Hp. cbn [string_loop].
  assert (∀ j' str', inv j' → later j j' → ptr j < ptr j' → holds (tmp j') str' →
    len str' + start ≤ ptr j' →
    total (fun '(j', err) => inv j' ∧ later j j' ∧ (err = None → ptr j' < len s))
      (string_loop fuel j')) as Hnext.
  { intros j' str' Hj' Hl Hlt Hs' Hlen'. eapply sound_mono; [apply (IH j' str'); done || lia|].
    intros [j'' err] (? & ? & ?). split; [done|]. split; [by etrans|done]. }
  eapply sound_bind; [apply chr_ok; [done|lia..]|]. intros c Hc. rewrite Z.add_0_r in Hc.
  destruct (Z.eqb_spec c 34) as [->|_]; [cbn; by split_and!; [..|intros; apply Hc]|].
  destruct (Z.eqb_spec c 0) as [->|Hnz]; [by cbn|]. specialize (Hc Hnz).
  destruct (Z.eqb_spec c 92) as [->|_].
  - eapply sound_bind; [apply chr_ok; [done|lia..]|]. intros c1 Hc1.
    destruct (Z.eqb_spec (escape2char c1) 117) as [Hu|_].
    + specialize (Hc1 (escape2char_nul c1 ltac:(lia))).
      eapply sound_bind; [apply (append_escape_ok j str start); done || lia|].
      intros [j'|] Hr; [|by cbn]. destruct Hr as (? & ? & ? & str' & ? & ?). by eapply Hnext.
    + destruct (Z.eqb_spec (escape2char c1) 0) as [_|He]; [by cbn|].
      specialize (Hc1 (escape2char_nul c1 He)).
      eapply sound_bind; [apply (append_one_ok j str start _ 2); done || lia|].
      intros t (? & ? & str' & ? & ?). eapply Hnext; try done. cbn. lia.
  - eapply sound_bind; [apply (append_one_ok j str start _ 1); done || lia|].
    intros t (? & ? & str' & ? & ?). eapply Hnext; try done. cbn. lia.
Qed.

(** ** Tokens *)

(** What a token carries. *)
Definition token_ok j (t : json_token_t) : Prop :=
  match ttype t, tvalue t with
  | T_STRING, Vtmp n => ∃ str, holds (tmp j) str ∧ n = len str
  | T_NUMBER, Vnumber _ | T_BOOLEAN, Vboolean _ => True
  | T_STRING, _ | T_NUMBER, _ | T_BOOLEAN, _ => False
  | _, _ => True
  end.

(** The parser moved on to the token; only the end and an error may leave it where
    it was. *)
Definition token_post j (r : json_parse_t * json_token_t) : Prop :=
  inv r.1 ∧ later j r.1 ∧ token_ok r.1 r.2 ∧
  (ttype r.2 = T_END ∨ ttype r.2 = T_ERROR ∨ ptr j < ptr r.1).

Lemma token_error_post j0 j e : inv j → later j0 j → token_post j0 (j, json_set_token_error j e).
Proof. intros. split; [done|]. split; [done|]. split; [done|]. right. by left. Qed.

Lemma next_string_token_ok j index :
  inv j → chr j 0 = Done 34 → ptr j < len s → total (token_post j) (json_next_string_token j index).
Proof.
  intros Hj H34 Hlt. pose proof (i_ptr _ Hj) as Hp. unfold json_next_string_token.
  rewrite H34. cbn [obind]. change (guard_or AssertFailed (34 =? 34)) with (Done (E:=parse_error) tt).
  cbn [obind].
  destruct (inv_move j 1 Hj ltac:(lia) ltac:(lia)) as [Hj1 Hl1].
  set (j1 := advance 1 j) in *. set (j2 := set_tmp (strbuf_reset (tmp j1)) j1).
  destruct (i_tmp _ Hj1) as [str Hstr]. pose proof (reset_ok _ _ Hstr) as Hreset.
  assert (inv j2) as Hj2 by (destruct Hj1; constructor; try done; by eexists).
  assert (later j j2) as Hl2 by (destruct Hl1; by constructor).
  eapply sound_bind.
  { apply (string_loop_ok _ j2 [] 1); [done|done|cbn; lia|lia|].
    rewrite (i_data _ Hj2), length_app. cbn. lia. }
  intros [j3 err] (Hj3 & Hl3 & Herr). destruct err as [e|].
  { apply token_error_post; [done|by etrans]. }
  specialize (Herr eq_refl). destruct (inv_move j3 1 Hj3 ltac:(lia) ltac:(lia)) as [Hj4 Hl4].
  destruct (i_tmp _ Hj4) as [str4 Hstr4].
  eapply sound_bind; [by apply sound_returns, (ensure_null_ok _ str4)|].
  intros t (Ht & Hsz & _ & _). cbn [sound].
  assert (later j (set_tmp t (advance 1 j3))) as Hl.
  { etrans; [exact Hl2|]. etrans; [exact Hl3|]. destruct Hl4. by constructor. }
  split; [|split; [exact Hl|split]].
  - destruct Hj4. constructor; cbn in *; try done; [by eexists|lia].
  - exists str4. split; [done|]. unfold strbuf_length. by rewrite (h_len _ _ Ht).
  - right. right. destruct Hl2, Hl3. cbn in *. lia.
Qed.
(** ** Words and numbers *)
Lemma same_prefix_ok f j i w :
  (∀ c, f c = 0 → c = 0) → f 0 = 0 → inv j → 0 ≤ i → ptr j + i ≤ len s → Forall (fun a => a ≠ 0) w →
  total (fun b => b = true → ptr j + i + len w ≤ len s) (same_prefix f j i w).
Proof.
  intros Hf Hf0 Hj Hi Hle Hw. revert i Hi Hle. induction Hw as [|a w Ha Hw IH]; intros i Hi Hle.
  { cbn. lia. }
  cbn [same_prefix]. eapply sound_bind; [by apply chr_ok|]. intros c Hc.
  destruct (Z.eqb_spec (f c) a) as [Heq|]; [|done].
  assert (c ≠ 0) as Hnz by (intros ->; congruence). specialize (Hc Hnz).
  eapply sound_mono; [apply IH; lia|]. intros b Hb Ht. specialize (Hb Ht). cbn [length]. lia.
Qed.

Lemma strncmp_ok j i (w : string) :
  inv j → 0 ≤ i → ptr j + i ≤ len s → forallb (fun a => negb (a =? 0)) (lit w) = true →
  total (fun b => b = true → ptr j + i + len (lit w) ≤ len s) (strncmp_eq j i (lit w)).
Proof.
  intros Hj Hi Hle Hw. apply same_prefix_ok; try done.
  apply List.Forall_forall. intros a Ha. apply (proj1 (forallb_forall _ _) Hw) in Ha.
  by destruct (Z.eqb_spec a 0).
Qed.

Lemma strncasecmp_ok j i (w : string) :
  inv j → 0 ≤ i → ptr j + i ≤ len s → forallb (fun a => negb (a =? 0)) (lit w) = true →
  total (fun _ => True) (strncasecmp_eq j i (lit w)).
Proof.
  intros Hj Hi Hle Hw. eapply sound_mono; [apply same_prefix_ok; try done|done].
  - intros c. unfold lower. destruct (Z.leb_spec 65 c), (Z.leb_spec c 90); cbn; lia.
  - apply List.Forall_forall. intros a Ha. apply (proj1 (forallb_forall _ _) Hw) in Ha.
    by destruct (Z.eqb_spec a 0).
Qed.

Lemma is_invalid_number_ok j : inv j → total (fun _ => True) (json_is_invalid_number j).
Proof.
  intros Hj. pose proof (i_ptr _ Hj) as Hp. unfold json_is_invalid_number.
  eapply sound_bind; [apply chr_ok; [done|lia..]|]. intros c Hc.
  destruct (Z.eqb_spec c 43); [done|].
  set (p := if c =? 45 then 1 else 0).
  assert (0 ≤ p ∧ ptr j + p ≤ len s) as [Hp0 Hple].
  { subst p. destruct (Z.eqb_spec c 45); [|lia]. specialize (Hc ltac:(lia)). lia. }
  eapply sound_bind; [by apply chr_ok|]. intros c' Hc'.
  destruct (Z.eqb_spec c' 48).
  { eapply sound_bind; [apply chr_ok; [done|lia|]; specialize (Hc' ltac:(lia)); lia|]. done. }
  destruct (i8 c' <=? 57); [done|].
  eapply sound_bind; [by apply (strncasecmp_ok j p "inf")|]. intros [|] _; [done|].
  by apply (strncasecmp_ok j p "nan").
Qed.

Section tokens.
Context (checkstack : Z → bool) (dp point : Z) (Hdp : dp ≠ 0).

Lemma next_number_token_ok j index : inv j → total (token_post j) (json_next_number_token dp point j index).
Proof.
  intros Hj. pose proof (i_ptr _ Hj) as Hp. unfold json_next_number_token.
  rewrite (i_data _ Hj). rewrite drop_app_le by lia.
  pose proof (fpconv_strtod_consumes dp point (drop (Z.to_nat (ptr j)) s) Hdp) as Hn.
  destruct (fpconv_strtod _ _ _) as [x n]. cbn [snd] in Hn. rewrite length_drop in Hn.
  destruct (Nat.eqb_spec n 0); [by apply token_error_post|]. cbn [sound].
  destruct (inv_move j (Z.of_nat n) Hj) as [Hi Hl]; [lia|lia|].
  split; [exact Hi|]. split; [exact Hl|]. split; [done|]. right. right. cbn. lia.
Qed.

Lemma skip_whitespace_ok fuel j :
  inv j → len s - ptr j < Z.of_nat fuel →
  total (fun '(j', ch) => inv j' ∧ later j j' ∧ chr j' 0 = Done ch ∧ ch2token ch ≠ T_WHITESPACE ∧
    (ch ≠ 0 → ptr j' < len s)) (skip_whitespace fuel j).
Proof.
  revert j. induction fuel as [|fuel IH]; intros j Hj Hfuel; [destruct Hj; lia|].
  pose proof (i_ptr _ Hj) as Hp. cbn [skip_whitespace].
  pose proof (chr_ok j 0 Hj ltac:(lia) ltac:(lia)) as Hc.
  destruct (chr j 0) as [c|e|f|] eqn:Hch; try done. cbn [obind sound] in *. rewrite Z.add_0_r in Hc.
  destruct (decide (ch2token c = T_WHITESPACE)) as [Hw|Hw]; [|by cbn].
  assert (c ≠ 0) as Hnz by (by intros ->). specialize (Hc Hnz).
  destruct (inv_move j 1 Hj) as [Hi Hl]; [lia|lia|].
  eapply sound_mono; [apply IH; [exact Hi|cbn; lia]|].
  intros [j' ch] (? & ? & ?). split; [done|]. split; [by etrans|done].
Qed.

(** A token of known length. *)
Lemma token_at j n t :
  inv j → 1 ≤ n → ptr j + n ≤ len s → token_ok j t → ttype t ≠ T_STRING →
  token_post j (advance n j, t).
Proof.
  intros Hj Hn Hle Ht Hns. destruct (inv_move j n Hj) as [Hi Hl]; [lia|lia|].
  split; [exact Hi|]. split; [exact Hl|]. split; [|right; right; cbn; lia].
  unfold token_ok in *. cbn [snd]. by destruct (ttype t).
Qed.

Lemma unknown_token_ok j ch index :
  inv j → chr j 0 = Done ch → ptr j < len s → total (token_post j) (unknown_token dp point j ch index).
Proof.
  intros Hj Hch Hlt. pose proof (i_ptr _ Hj) as Hp. unfold unknown_token.
  destruct (Z.eqb_spec ch 34) as [->|_]; [by apply next_string_token_ok|].
  destruct (_ || _).
  { eapply (sound_bind _ _ (fun _ => True)).
    { destruct (_ =? 0); [by apply is_invalid_number_ok|done]. }
    intros [|] _; [by apply token_error_post|by apply next_number_token_ok]. }
  eapply sound_bind; [by apply (strncmp_ok j 0 "true"); [..|lia|]|]. intros t Ht.
  destruct t; [cbn in Ht; specialize (Ht eq_refl); apply token_at; done || lia|].
  eapply sound_bind; [by apply (strncmp_ok j 0 "false"); [..|lia|]|]. intros f Hf.
  destruct f; [cbn in Hf; specialize (Hf eq_refl); apply token_at; done || lia|].
  eapply sound_bind; [by apply (strncmp_ok j 0 "null"); [..|lia|]|]. intros n Hn.
  destruct n; [cbn in Hn; specialize (Hn eq_refl); apply token_at; done || lia|].
  eapply (sound_bind _ _ (fun _ => True)).
  { destruct (_ =? 0); [done|by apply is_invalid_number_ok]. }
  intros [|] _; [by apply next_number_token_ok|by apply token_error_post].
Qed.

Lemma token_post_later j j' r : later j j' → token_post j' r → token_post j r.
Proof.
  intros Hl (? & Hl' & ? & Hc). split; [done|]. split; [by etrans|]. split; [done|].
  destruct Hl, Hc as [?|[?|?]]; auto. right. right. lia.
Qed.

(** A single character is never the token of a value that carries something. *)
Lemma ch2token_value c : ch2token c ≠ T_STRING ∧ ch2token c ≠ T_NUMBER ∧ ch2token c ≠ T_BOOLEAN.
Proof. unfold ch2token. by repeat case_match. Qed.

Lemma next_token_ok j : inv j → total (token_post j) (json_next_token dp point j).
Proof.
  intros Hj. unfold json_next_token. eapply sound_bind.
  { apply skip_whitespace_ok; [done|]. rewrite (i_data _ Hj), length_app. destruct Hj. cbn. lia. }
  intros [j1 ch] (Hj1 & Hl1 & Hch & Hw & Hlt).
  eapply sound_mono; [|intros r; by apply token_post_later].
  pose proof (i_ptr _ Hj1) as Hp1.
  destruct (decide (ch = 0)) as [->|Hnz].
  { split; [done|]. split; [done|]. split; [done|]. by left. }
  specialize (Hlt Hnz).
  pose proof (ch2token_value ch) as (? & ? & ?).
  destruct (ch2token ch) eqn:Ht; try done;
    first [by apply unknown_token_ok|by apply token_error_post|(apply (token_at j1 1); done || lia)|idtac].
  split; [done|]. split; [done|]. split; [done|]. by left.
Qed.
(** ** The parser *)
Context (Hmax : len s < INT_MAX).

Definition rem j : Z := len s - ptr j.
Definition opens (t : json_token_t) : Prop := ttype t = T_OBJ_BEGIN ∨ ttype t = T_ARR_BEGIN.
Definition stuck (t : json_token_t) : Prop := ttype t = T_END ∨ ttype t = T_ERROR.
Definition value_post j (r : value * (json_parse_t * heap)) : Prop := inv r.2.1 ∧ later j r.2.1.

(** A function for the values inside a container, with fuel for [F] bytes. *)
Definition values (F : Z) (process : json_parse_t → heap → json_token_t →
    outcome parse_error (value * (json_parse_t * heap))) : Prop :=
  ∀ j h t, inv j → token_ok j t → (opens t → current_depth j < ptr j ∧ rem j + 1 < F) →
    total (value_post j) (process j h t).

Lemma push_string_ok j t :
  token_ok j t → ttype t = T_STRING → total (fun _ => True) (push_string j t).
Proof.
  unfold token_ok, push_string. intros Ht Hs. rewrite Hs in Ht. destruct (tvalue t); try done.
  destruct Ht as (str & Hstr & ->).
  assert (holds (set_length (len str) (tmp j)) str) as Hs'
    by (destruct Hstr; constructor; cbn; done || lia).
  by rewrite (string_ok _ _ Hs').
Qed.

Lemma throw_ok {A} (Q : A → Prop) j e t : total Q (json_throw_parse_error j e t).
Proof. done. Qed.

Lemma ascend_ok j0 j :
  inv j → 1 ≤ current_depth j → later j0 j → inv (json_decode_ascend j) ∧
    later (json_decode_ascend j0) (json_decode_ascend j).
Proof.
  intros [] Hd []. split; [constructor|split]; cbn; try done; try lia; congruence.
Qed.

(** Inside a container: [j0] is the parser behind the opening bracket. *)
Definition close_post j0 (r : value * (json_parse_t * heap)) : Prop :=
  inv r.2.1 ∧ later (json_decode_ascend j0) r.2.1.

(** What is known of a token of a container. *)
Definition ready (F : Z) j (t : json_token_t) : Prop :=
  stuck t ∨ (current_depth j < ptr j ∧ rem j + 1 < F).

Lemma next_ready F j r :
  inv j → rem j < F → token_post j r → ready F r.1 r.2.
Proof.
  intros Hj HF (_ & [_ Hd Hp] & _ & [?|[?|Hlt]]); [by left; left|by left; right|right].
  destruct Hj. unfold rem in *. lia.
Qed.

Lemma ready_opens F j t : ready F j t → opens t → current_depth j < ptr j ∧ rem j + 1 < F.
Proof. intros [[H|H]|H] [Ho|Ho]; congruence || done. Qed.

Lemma array_loop_total F process k j0 j h t i token :
  values F process → inv j → later j0 j → 1 ≤ current_depth j → token_ok j token →
  ready F j token → rem j < Z.of_nat k → rem j < F → 1 ≤ i ≤ ptr j →
  total (close_post j0) (array_loop dp point process k j h t i token).
Proof.
  intros Hv. revert j h i token. induction k as [|k IH];
    intros j h i token Hj Hl Hd Ht Hr Hk HF Hi; [destruct Hj; unfold rem in *; lia|].
  cbn [array_loop].
  eapply sound_bind; [apply Hv; [done|done|by apply ready_opens]|].
  intros [v [j1 h1]] [Hj1 Hl1]. cbn [fst snd] in *.
  eapply sound_bind; [by apply next_token_ok|]. intros [j2 t2] Hp2.
  pose proof Hp2 as (Hj2 & Hl2 & Ht2 & Hc2). cbn [fst snd] in *.
  assert (later j0 j2) as Hl02 by (do 2 (etrans; [done|]); done).
  assert (current_depth j2 = current_depth j) as Hd2 by (destruct Hl1, Hl2; congruence).
  destruct (ttype t2) eqn:Ht2'; try by apply throw_ok.
  - cbn [sound]. apply ascend_ok; [done|lia|done].
  - assert (ptr j < ptr j2) as Hlt by (destruct Hl1, Hc2 as [?|[?|?]]; congruence || lia).
    assert (rem j2 < F ∧ rem j2 < Z.of_nat k) as [HF2 Hk2] by (unfold rem in *; lia).
    eapply sound_bind; [by apply next_token_ok|]. intros [j3 t3] Hp3.
    pose proof Hp3 as (Hj3 & Hl3 & Ht3 & Hc3). cbn [fst snd] in *.
    pose proof (i_ptr _ Hj3). pose proof (l_ptr _ _ Hl3).
    rewrite int_ok by lia. cbn [obind].
    apply IH; try done; try (unfold rem in *; lia).
    + by etrans.
    + by rewrite (l_depth _ _ Hl3), Hd2.
    + by apply (next_ready F j2 (j3, t3)).
Qed.

Lemma object_loop_total F process k j0 j h t token :
  values F process → inv j → later j0 j → 1 ≤ current_depth j → token_ok j token →
  ready F j token → rem j < Z.of_nat k → rem j < F →
  total (close_post j0) (object_loop dp point process k j h t token).
Proof.
  intros Hv. revert j h token. induction k as [|k IH];
    intros j h token Hj Hl Hd Ht Hr Hk HF; [destruct Hj; unfold rem in *; lia|].
  cbn [object_loop].
  destruct (decide (ttype token = T_STRING)) as [Hs|]; [|by apply throw_ok].
  eapply sound_bind; [by apply push_string_ok|]. intros key _.
  eapply sound_bind; [by apply next_token_ok|]. intros [j1 t1] (Hj1 & Hl1 & Ht1 & Hc1).
  cbn [fst snd] in *. destruct (decide (ttype t1 = T_COLON)) as [Hcol|]; [|by apply throw_ok].
  assert (ptr j < ptr j1) as Hlt by (destruct Hc1 as [?|[?|?]]; congruence || lia).
  assert (rem j1 < F) as HF1 by (unfold rem in *; lia).
  eapply sound_bind; [by apply next_token_ok|]. intros [j2 t2] Hp2.
  pose proof Hp2 as (Hj2 & Hl2 & Ht2 & Hc2). cbn [fst snd] in *.
  eapply sound_bind.
  { apply Hv; [done|done|]. apply ready_opens. by apply (next_ready F j1 (j2, t2)). }
  intros [v [j3 h3]] [Hj3 Hl3]. cbn [fst snd] in *.
  eapply sound_bind; [by apply next_token_ok|]. intros [j4 t4] (Hj4 & Hl4 & Ht4 & Hc4).
  cbn [fst snd] in *.
  assert (later j j4) as Hl14 by (do 3 (etrans; [done|]); done).
  assert (current_depth j4 = current_depth j) as Hd4 by (by destruct Hl14).
  destruct (ttype t4) eqn:Ht4'; try by apply throw_ok.
  - cbn [sound]. apply ascend_ok; [done|lia|by etrans].
  - assert (ptr j1 ≤ ptr j4) as Hle by (destruct Hl2, Hl3, Hl4; lia).
    assert (rem j4 < F ∧ rem j4 < Z.of_nat k) as [HF4 Hk4] by (unfold rem in *; lia).
    eapply sound_bind; [by apply next_token_ok|]. intros [j5 t5] Hp5.
    pose proof Hp5 as (Hj5 & Hl5 & Ht5 & Hc5). cbn [fst snd] in *. pose proof (l_ptr _ _ Hl5).
    apply IH; try done; try (unfold rem in *; lia).
    + do 2 (etrans; [done|]). done.
    + by rewrite (l_depth _ _ Hl5), Hd4.
    + by apply (next_ready F j4 (j5, t5)).
Qed.

Lemma descend_ok j :
  inv j → current_depth j < ptr j →
  total (fun j' => inv j' ∧ j' = set_depth (current_depth j + 1) j) (json_decode_descend checkstack j).
Proof.
  intros Hj Hd. pose proof Hj as []. unfold json_decode_descend.
  rewrite int_ok by lia. cbn [obind]. destruct (_ && _); [|done]. cbn [sound].
  split; [|done]. constructor; cbn; try done; lia.
Qed.

(** The way into a container, the same for objects and arrays. *)
Lemma context_ok F j h close (loop : json_parse_t → heap → nat → json_token_t →
    outcome parse_error (value * (json_parse_t * heap))) :
  inv j → current_depth j < ptr j → rem j < F →
  (∀ j0 j1 h1 t token, inv j1 → later j0 j1 → 1 ≤ current_depth j1 → token_ok j1 token →
    ready F j1 token → rem j1 < F → 1 ≤ ptr j1 → total (close_post j0) (loop j1 h1 t token)) →
  total (value_post j)
    (let! j := json_decode_descend checkstack j in
     let (t, h) := lua_newtable h in
     let! (j, token) := json_next_token dp point j in
     if decide (ttype token = close) then Done (Table t, (json_decode_ascend j, h))
     else loop j h t token).
Proof.
  intros Hj Hd HF Hloop. eapply sound_bind; [by apply descend_ok|].
  intros j0 [Hj0 ->]. destruct (lua_newtable h) as [r h'].
  eapply sound_bind; [by apply next_token_ok|]. intros [j1 t1] Hp1.
  pose proof Hp1 as (Hj1 & Hl1 & Ht1 & Hc1). cbn [fst snd] in *.
  assert (current_depth j1 = current_depth j + 1) as Hd1 by (by destruct Hl1).
  assert (1 ≤ current_depth j1) by (destruct Hj; lia).
  pose proof (l_ptr _ _ Hl1) as Hptr. cbn in Hptr.
  set (j0 := set_depth (current_depth j + 1) j) in *.
  assert (∀ j', later (json_decode_ascend j0) j' → later j j') as Hclose.
  { intros j' [? Hdd ?]. cbn in *. split; [done|lia|done]. }
  destruct (decide _).
  - cbn [sound]. destruct (ascend_ok j0 j1) as [? ?]; [done..|]. split; [done|]. by apply Hclose.
  - eapply sound_mono; [apply (Hloop j0); try done|].
    + by apply (next_ready F j0 (j1, t1)).
    + unfold rem in *. lia.
    + destruct Hj. lia.
    + intros r' [? ?]. split; [done|]. by apply Hclose.
Qed.

Lemma process_value_ok fuel : (0 < fuel)%nat → values (Z.of_nat fuel) (json_process_value checkstack dp point fuel).
Proof.
  induction fuel as [|fuel IH]; intros Hfuel j h t Hj Ht Ho; [lia|]. cbn [json_process_value].
  assert (∀ v, value_post j (v, (j, h))) as Hpost by (by split).
  assert (opens t → (0 < fuel)%nat ∧ current_depth j < ptr j ∧ rem j < Z.of_nat fuel) as Hopen.
  { intros Hop. destruct (Ho Hop). destruct Hj. unfold rem in *. lia. }
  unfold token_ok in Ht. destruct (ttype t) eqn:Htype; try by apply throw_ok.
  - destruct Hopen as (Hf & Hd & HF); [by left|].
    apply (context_ok (Z.of_nat fuel)); [done..|]. intros. apply (object_loop_total (Z.of_nat fuel)); auto.
  - destruct Hopen as (Hf & Hd & HF); [by right|].
    apply (context_ok (Z.of_nat fuel)); [done..|]. intros.
    apply (array_loop_total (Z.of_nat fuel)); auto. lia.
  - eapply sound_bind; [apply push_string_ok; [|done]|done]. unfold token_ok. by rewrite Htype.
  - by destruct (tvalue t).
  - by destruct (tvalue t).
  - apply Hpost.
Qed.

(** C6: [json_decode] of any byte string shorter than an int, with any
    configuration and in any locale, ends with a value or a Lua error: the
    recursion is bounded by the input, no byte behind the terminator is read, no
    decoded string outgrows the temporary buffer that is written without checks,
    nothing uninitialised is used. *)
Theorem decode_safe c h :
  ∃ r, json_decode checkstack dp point c h s = Done r.
Proof.
  unfold json_decode. destruct (_ && _); [by eexists|].
  unfold INT_MAX in *. rewrite swrap_small by (try lia; change (2 ^ (32 - 1)) with 2147483648; lia).
  destruct (new_ok (E:=Empty_set) (len s)) as (t & -> & Ht & _ & _ & Hsz); [unfold INT_MAX; lia|].
  cbn [obind].
  assert (inv (Parse (s ++ [0]) 0 t c 0)) as Hj by (constructor; cbn; try done; try lia; by eexists).
  match goal with |- ∃ r, match ?m with _ => _ end = _ => assert (total (fun _ => True) m) as Hm end.
  { eapply sound_bind; [by apply next_token_ok|]. intros [j1 t1] Hp1.
    pose proof Hp1 as (Hj1 & Hl1 & Ht1 & Hc1). cbn [fst snd] in *.
    eapply sound_bind.
    { apply process_value_ok; [lia|done|done|]. apply ready_opens.
      apply (next_ready _ _ (j1, t1) Hj); [|done]. unfold rem. cbn [ptr].
      rewrite length_app. cbn [length]. lia. }
    intros [v [j2 h2]] [Hj2 _]. cbn [fst snd] in *.
    eapply sound_bind; [by apply next_token_ok|]. intros [j3 t3] _. by destruct (decide _). }
  match type of Hm with total _ ?m => destruct m as [[[v h'] t']|e|f|] end; try done; by eexists.
Qed.
End tokens.
End safe.

Lemma decode_safe_witness :
  ∃ r, json_decode (fun _ => true) 46 46 (Config (Strbuf None 0 0 0 false 0 0) 0 2 10 1000 0 14 0 1 1000)
    [] (lit "[1, {") = Done r.
Proof.
  apply (decode_safe (lit "[1, {") (fun _ => true) 46 46); [done|]. vm_compute. reflexivity.
Defined.
End CjsonDecodeSafe.
