(* ===== verification/CjsonDecodeTypes.v ===== *)
(** * What the decoder makes

    Whatever the input, a value returned by [json_decode] is built from the types of
    JSON: booleans, doubles, strings, the null pointer and new tables, each with
    string keys or with the keys 1 to n. The tables form a tree: a table only refers
    to tables made after it, and no table is referred to twice. *)
From S2P Require Import Prelude Libc Strbuf Double Fpconv Cjson CjsonDecode.

Module CjsonDecodeTypes.
Import Strbuf Double Fpconv Cjson CjsonDecode.

(** ** Partial correctness *)
Definition partial {E A} (Q : A → Prop) (m : outcome E A) : Prop := ∀ a, m = Done a → Q a.

Lemma partial_done {E A} (Q : A → Prop) a : Q a → partial (E:=E) Q (Done a).
Proof. by intros ? ? [= <-]. Qed.

Lemma partial_bind {E A B} (P : A → Prop) (Q : B → Prop) (m : outcome E A) k :
  partial P m → (∀ a, P a → partial Q (k a)) → partial Q (obind m k).
Proof. intros Hm Hk b (a & Ha & Hb)%obind_done. by apply (Hk a (Hm a Ha)). Qed.

(** Nothing is needed of the first part. *)
Lemma partial_then {E A B} (Q : B → Prop) (m : outcome E A) k :
  (∀ a, partial Q (k a)) → partial Q (obind m k).
Proof. intros Hk. by apply (partial_bind (fun _ => True)). Qed.

(** ** The types *)
(** A value whose table, if it is one, is between [lo] and [hi]. *)
Definition json_typed (lo hi : nat) (v : value) : Prop :=
  match v with
  | Boolean _ | Number _ | Str _ => True
  | LightUserdata null => null = true
  | Table t => (lo ≤ t < hi)%nat
  | _ => False
  end.

Definition object_entries (es : entries) : Prop :=
  NoDup es.*1 ∧ Forall (fun k => ∃ s, k = Str s) es.*1.
Definition array_entries (es : entries) : Prop :=
  es.*1 = (fun i => Integer (Z.of_nat i)) <$> seq 1 (length es).

(** The table [t] of a heap of [hi] tables. *)
Definition table_typed (hi t : nat) (es : entries) : Prop :=
  (object_entries es ∨ array_entries es) ∧ Forall (json_typed (S t) hi) es.*2.

(** [h'] has the tables of [h] and typed new ones. *)
Definition extends (h h' : heap) : Prop :=
  ∃ new, h' = h ++ new ∧ ∀ i es, new !! i = Some es → table_typed (length h') (length h + i) es.

(** The table a value refers to, and those that the values of some tables refer to. *)
Definition refs (v : value) : list nat := match v with Table t => [t] | _ => [] end.
Definition entry_refs (es : entries) : list nat := es.*2 ≫= refs.
Definition mentions (ts : list entries) : list nat := ts ≫= entry_refs.

(** The value [v] and the new tables of [h'] share no table: each one is referred to at
    most once, by [v] or by one place of one table. *)
Definition tree (h h' : heap) (v : value) : Prop := NoDup (refs v ++ mentions (drop (length h) h')).

Lemma refs_range lo hi v t : json_typed lo hi v → t ∈ refs v → (lo ≤ t < hi)%nat.
Proof. destruct v; simpl; try (intros _ []%not_elem_of_nil). by intros ? ->%list_elem_of_singleton. Qed.

Lemma entry_refs_range lo hi es t : Forall (json_typed lo hi) es.*2 → t ∈ entry_refs es → (lo ≤ t < hi)%nat.
Proof. intros Hv (v & Hr & Hin)%list_elem_of_bind. rewrite Forall_forall in Hv. by eapply refs_range; [apply Hv|]. Qed.

Lemma mentions_range hi off ts t :
  (∀ i es, ts !! i = Some es → table_typed hi (off + i) es) → t ∈ mentions ts → (S off ≤ t < hi)%nat.
Proof.
  intros Hts (es & Hr & [i Hi]%list_elem_of_lookup)%list_elem_of_bind. destruct (Hts i es Hi) as [_ Hv].
  pose proof (entry_refs_range _ _ _ _ Hv Hr). lia.
Qed.

Lemma rawset_refs es k v : entry_refs (lua_rawset es k v) ⊆+ entry_refs es ++ refs v.
Proof.
  induction es as [|[k' v'] es IH]; [unfold entry_refs; cbn [lua_rawset fmap list_fmap snd mbind list_bind]; by rewrite app_nil_r|]. unfold entry_refs in *. cbn [lua_rawset].
  case_decide; cbn [fmap list_fmap snd mbind list_bind].
  - rewrite (Permutation_app_comm (_ ++ _) (refs v)). apply submseteq_skips_l, submseteq_inserts_l. done.
  - rewrite <- app_assoc. by apply submseteq_skips_l.
Qed.

Lemma NoDup_within (l k : list nat) : l ⊆+ k → NoDup k → NoDup l.
Proof. intros [k' Hk]%submseteq_Permutation. rewrite Hk. by intros [? _]%NoDup_app. Qed.

Lemma json_typed_mono lo lo' hi hi' v : (lo' ≤ lo)%nat → (hi ≤ hi')%nat →
  json_typed lo hi v → json_typed lo' hi' v.
Proof. destruct v; simpl; intros; try done. lia. Qed.

Lemma table_typed_mono hi hi' t es : (hi ≤ hi')%nat → table_typed hi t es → table_typed hi' t es.
Proof.
  intros Hle [He Hv]. split; [done|]. eapply Forall_impl; [done|]. intros v.
  by apply json_typed_mono.
Qed.

Lemma extends_refl h : extends h h.
Proof. exists []. split; [by rewrite app_nil_r|]. done. Qed.

(** ** Tables that are being filled *)
Lemma rawset_values es k v (P : value → Prop) : Forall P es.*2 → P v → Forall P (lua_rawset es k v).*2.
Proof.
  intros Hes Hv. induction es as [|[k' v'] es IH]; simpl in *; [by repeat constructor|].
  apply Forall_cons in Hes as [Hv' Hes]. case_decide; simpl; constructor; auto.
Qed.

Lemma rawset_keys es k v : (lua_rawset es k v).*1 = if decide (k ∈ es.*1) then es.*1 else es.*1 ++ [k].
Proof.
  induction es as [|[k' v'] es IH]; [done|]. cbn [lua_rawset fmap list_fmap fst].
  destruct (decide (k' = k)) as [->|Hne]; cbn [fmap list_fmap fst].
  - rewrite decide_True by left. done.
  - rewrite IH. destruct (decide (k ∈ es.*1)) as [Hin|Hin].
    + by rewrite decide_True by (by right).
    + rewrite decide_False; [done|]. rewrite elem_of_cons. naive_solver.
Qed.

Lemma rawset_object es s v : object_entries es → object_entries (lua_rawset es (Str s) v).
Proof.
  intros [Hnd Hstr]. unfold object_entries. rewrite rawset_keys. case_decide; [done|]. split.
  - apply NoDup_app. split; [done|]. split; [|apply NoDup_singleton]. set_solver.
  - apply Forall_app. split; [done|]. repeat constructor. by eexists.
Qed.

Lemma rawset_array es v : array_entries es →
  array_entries (lua_rawset es (Integer (len es + 1)) v) ∧
  length (lua_rawset es (Integer (len es + 1)) v) = S (length es).
Proof.
  intros Hes.
  assert (Integer (len es + 1) ∉ es.*1) as Hnew.
  { rewrite Hes. intros (i & [= Hi] & [_ Hlt]%elem_of_seq)%list_elem_of_fmap. lia. }
  pose proof (rawset_keys es (Integer (len es + 1)) v) as Hk. rewrite decide_False in Hk by done.
  assert (length (lua_rawset es (Integer (len es + 1)) v) = S (length es)) as Hl.
  { rewrite <- (length_fmap fst), Hk, length_app, length_fmap. simpl. lia. }
  split; [|done]. unfold array_entries. rewrite Hk, Hl, seq_S, fmap_app, <- Hes. simpl.
  do 3 f_equal. lia.
Qed.

(** The table [t] is being filled: behind it there are only typed tables. *)
Definition filling (kind : entries → Prop) (base : heap) (h : heap) : Prop :=
  ∃ es new, h = base ++ es :: new ∧ NoDup (mentions (es :: new)) ∧ kind es ∧ Forall (json_typed (S (length base)) (length h)) es.*2 ∧
    ∀ i es', new !! i = Some es' → table_typed (length h) (S (length base) + i) es'.

Lemma filling_new (kind : entries → Prop) base : kind [] → filling kind base (base ++ [[]]).
Proof. intros. exists [], []. split; [done|]. split; [constructor|]. split; [done|]. split; [constructor|done]. Qed.

Lemma filling_done (kind : entries → Prop) base h :
  (∀ es, kind es → object_entries es ∨ array_entries es) → filling kind base h →
  extends base h ∧ json_typed (length base) (length h) (Table (length base)) ∧ tree base h (Table (length base)).
Proof.
  intros Hkind (es & new & -> & Hnd & Hk & Hv & Hnew). split; [|split].
  - exists (es :: new). split; [done|]. intros [|i] es' Hi; simpl in Hi.
    + injection Hi as <-. rewrite Nat.add_0_r. split; [by apply Hkind|done].
    + rewrite Nat.add_succ_r. by apply Hnew.
  - simpl. rewrite length_app. simpl. lia.
  - unfold tree. rewrite drop_app_length. cbn [refs app]. apply NoDup_cons. split; [|done].
    unfold mentions. cbn [mbind list_bind]. intros [Hin|Hin]%elem_of_app.
    + pose proof (entry_refs_range _ _ _ _ Hv Hin). lia.
    + pose proof (mentions_range _ _ _ _ Hnew Hin). lia.
Qed.

(** A value is added to the table. *)
Lemma filling_set (kind kind' : entries → Prop) base h h' key v :
  (∀ es, kind es → kind' (lua_rawset es key v)) →
  filling kind base h → extends h h' → json_typed (length h) (length h') v → tree h h' v →
  filling kind' base (<[length base := lua_rawset (table h' (length base)) key v]> h').
Proof.
  intros Hkind (es & new & -> & Hnd & Hk & Hv & Hnew) (new' & -> & Hnew') Ht Htree.
  unfold tree in Htree. rewrite drop_app_length in Htree.
  rewrite <- app_assoc in *. cbn [app] in *.
  assert (table (base ++ es :: new ++ new') (length base) = es) as ->.
  { unfold table. apply list_lookup_total_middle. done. }
  rewrite <- (Nat.add_0_r (length base)) at 1. rewrite insert_app_r. cbn [insert list_insert].
  assert (∀ es', length (base ++ es' :: new ++ new') = length (base ++ es :: new ++ new')) as Hlen.
  { intros. by rewrite !length_app. }
  assert (length (base ++ es :: new) ≤ length (base ++ es :: new ++ new'))%nat as Hle.
  { rewrite !length_app. simpl. rewrite length_app. lia. }
  eexists _, (new ++ new'). split; [done|]. split; [|split; [by apply Hkind|]; rewrite Hlen; split].
  - apply (NoDup_within _ (mentions (es :: new) ++ (refs v ++ mentions new'))).
    { unfold mentions. cbn [mbind list_bind]. rewrite bind_app.
      trans ((entry_refs es ++ refs v) ++ (new ≫= entry_refs) ++ (new' ≫= entry_refs)).
      - apply submseteq_app; [apply rawset_refs|done].
      - apply Permutation_submseteq. rewrite <- !app_assoc. apply Permutation_app_head.
        by rewrite !app_assoc, (Permutation_app_comm (refs v)). }
    apply NoDup_app. split; [done|]. split; [|done]. intros t Hin Hin'.
    assert (t < length (base ++ es :: new))%nat.
    { unfold mentions in Hin. cbn [mbind list_bind] in Hin. apply elem_of_app in Hin as [Hin|Hin].
      - apply (entry_refs_range _ _ _ _ Hv) in Hin. lia.
      - apply (mentions_range _ _ _ _ Hnew) in Hin. lia. }
    apply elem_of_app in Hin' as [Hin'|Hin'].
    + apply (refs_range _ _ _ _ Ht) in Hin'. lia.
    + apply (mentions_range _ _ _ _ Hnew') in Hin'. lia.
  - apply rawset_values.
    + eapply Forall_impl; [exact Hv|]. intros w. by apply json_typed_mono.
    + refine (json_typed_mono _ _ _ _ v _ _ Ht); [rewrite length_app; simpl; lia|done].
  - intros i es' [Hi|[Hge Hi]]%lookup_app_Some.
    + eapply table_typed_mono; [exact Hle|]. by apply Hnew.
    + replace (S (length base) + i)%nat with (length (base ++ es :: new) + (i - length new))%nat;
        [by apply Hnew'|]. rewrite length_app. simpl. lia.
Qed.

(** ** The parser *)
Section parser.
Context (checkstack : Z → bool) (dp point : Z).

Definition typed_post (h : heap) (r : value * (json_parse_t * heap)) : Prop :=
  extends h r.2.2 ∧ json_typed (length h) (length r.2.2) r.1 ∧ tree h r.2.2 r.1.
Definition typed_process (process : json_parse_t → heap → json_token_t →
    outcome parse_error (value * (json_parse_t * heap))) : Prop :=
  ∀ j h t, partial (typed_post h) (process j h t).

Lemma object_loop_typed process k j base h token :
  typed_process process → filling object_entries base h →
  partial (typed_post base) (object_loop dp point process k j h (length base) token).
Proof.
  intros Hp. revert j h token. induction k as [|k IH]; intros j h token Hf; [done|].
  cbn [object_loop]. case_decide; [|done].
  apply (partial_bind (fun key => ∃ s, key = Str s)).
  { unfold push_string. destruct (tvalue token); try done. apply partial_then. intros s.
    apply partial_done. by eexists. }
  intros ? [s ->]. apply partial_then. intros [j1 t1]. case_decide; [|done].
  apply partial_then. intros [j2 t2]. eapply partial_bind; [apply Hp|].
  intros [v [j3 h3]] (Hx & Hv & Ht). cbn [fst snd] in *.
  pose proof (filling_set object_entries object_entries base h h3 (Str s) v
    (fun es => rawset_object es s v) Hf Hx Hv Ht) as Hf'.
  apply partial_then. intros [j4 t4]. destruct (ttype t4); try done.
  - apply partial_done. apply (filling_done object_entries); [by left|done].
  - apply partial_then. intros [j5 t5]. by apply IH.
Qed.

Lemma array_loop_typed process k j base h i token :
  typed_process process → filling (fun es => array_entries es ∧ len es + 1 = i) base h →
  partial (typed_post base) (array_loop dp point process k j h (length base) i token).
Proof.
  intros Hp. revert j h i token. induction k as [|k IH]; intros j h i token Hf; [done|].
  cbn [array_loop]. eapply partial_bind; [apply Hp|].
  intros [v [j1 h1]] (Hx & Hv & Ht). cbn [fst snd] in *.
  assert (filling (fun es => array_entries es ∧ len es + 1 = i + 1) base
    (<[length base := lua_rawset (table h1 (length base)) (Integer i) v]> h1)) as Hf'.
  { eapply filling_set; [|exact Hf|done|done|done]. intros es [He <-].
    destruct (rawset_array es v He) as [? ->]. split; [done|]. lia. }
  apply partial_then. intros [j2 t2]. destruct (ttype t2); try done.
  - apply partial_done. eapply filling_done; [|exact Hf']. intros es [He _]. by right.
  - apply partial_then. intros [j3 t3]. apply (partial_bind (fun i' => i' = i + 1)).
    { unfold int. case_match; [by apply partial_done|done]. }
    intros ? ->. by apply IH.
Qed.

(** The way into a container. *)
Lemma context_typed (kind : entries → Prop) j h close (loop : json_parse_t → heap → nat → json_token_t →
    outcome parse_error (value * (json_parse_t * heap))) :
  kind [] → (∀ es, kind es → object_entries es ∨ array_entries es) →
  (∀ j1 h1 token, filling kind h h1 → partial (typed_post h) (loop j1 h1 (length h) token)) →
  partial (typed_post h)
    (let! j := json_decode_descend checkstack j in
     let (t, h) := lua_newtable h in
     let! (j, token) := json_next_token dp point j in
     if decide (ttype token = close) then Done (Table t, (json_decode_ascend j, h))
     else loop j h t token).
Proof.
  intros H0 Hkind Hloop. apply partial_then. intros j0. unfold lua_newtable.
  apply partial_then. intros [j1 t1]. pose proof (filling_new kind h H0) as Hf.
  case_decide; [|by apply Hloop]. apply partial_done. by eapply filling_done.
Qed.

Lemma process_value_typed fuel : typed_process (json_process_value checkstack dp point fuel).
Proof.
  induction fuel as [|fuel IH]; intros j h t; [done|]. cbn [json_process_value].
  assert (∀ v, json_typed (length h) (length h) v → typed_post h (v, (j, h))) as Hpost.
  { intros v Hv. split; [apply extends_refl|]. split; [done|]. unfold tree. rewrite drop_all.
    destruct v; try apply NoDup_nil_2. simpl in Hv. lia. }
  destruct (ttype t); try done.
  - apply (context_typed object_entries); [split; constructor|by left|].
    intros. by apply object_loop_typed.
  - apply (context_typed (fun es => array_entries es ∧ len es + 1 = 1)); [by split|intros es [He _]; by right|].
    intros. by apply array_loop_typed.
  - apply (partial_bind (fun v => ∃ s, v = Str s)).
    { unfold push_string. destruct (tvalue t); try done. apply partial_then. intros s.
      apply partial_done. by eexists. }
    intros ? [s ->]. by apply partial_done, Hpost.
  - destruct (tvalue t); try done. by apply partial_done, Hpost.
  - destruct (tvalue t); try done. by apply partial_done, Hpost.
  - by apply partial_done, Hpost.
Qed.

(** C7: whatever the input, the configuration and the tables that exist already, a
    value returned by [json_decode] has a type of JSON, the old tables are unchanged,
    and every new table has either distinct string keys or the keys 1 to n, with
    typed values that refer only to tables made after it, so that there is no cycle; and
    nothing is shared: every new table is referred to at most once, by the value itself or
    by one key of one new table. (A table under a key that comes again is replaced, and
    nothing refers to it.) The value and what can be reached from it are a tree. *)
Theorem decode_typed c h s v h' :
  json_decode checkstack dp point c h s = Done (inl (v, h')) →
  extends h h' ∧ json_typed (length h) (length h') v ∧ tree h h' v.
Proof.
  unfold json_decode. case_match; [done|]. intros (t & _ & Hd)%obind_done. revert Hd.
  match goal with |- match ?m with _ => _ end = _ → _ =>
    assert (partial (fun r => extends h r.1.2 ∧ json_typed (length h) (length r.1.2) r.1.1 ∧ tree h r.1.2 r.1.1) m) as Hm end.
  { apply partial_then. intros [j1 t1]. eapply partial_bind; [apply process_value_typed|].
    intros [v1 [j2 h2]] Hp. apply partial_then. intros [j3 t3]. destruct (decide (ttype t3 = T_END)); [|done].
    by apply partial_done. }
  match type of Hm with partial _ ?m => destruct m as [[[v1 h1] t1]|e|f|] end; try done.
  intros [= <- <-]. by apply (Hm (v1, h1, t1)).
Qed.
End parser.

(** An array of null, an object with a key that comes twice, and an empty array: the
    table of the first value of the key is lost. *)
Definition input : list Z := lit "[null, {" ++ [34; 97; 34] ++ lit ": [], " ++ [34; 97; 34] ++ lit ": {}}, []]".
Definition tables : heap :=
  [[(Integer 1, LightUserdata true); (Integer 2, Table 1); (Integer 3, Table 4)]; [(Str [97], Table 3)]; []; []; []].
Definition config : json_config_t := Config (Strbuf None 0 0 0 false 0 0) 0 2 10 1000 0 14 0 1 1000.

Lemma decode_typed_witness :
  json_decode (fun _ => true) 46 46 config [] input = Done (inl (Table 0, tables)) ∧
  extends [] tables ∧ json_typed 0 5 (Table 0) ∧ NoDup ([0] ++ [1; 4; 3])%nat.
Proof.
  assert (json_decode (fun _ => true) 46 46 config [] input = Done (inl (Table 0, tables))) as Hd
    by (vm_compute; reflexivity).
  split; [exact Hd|]. exact (decode_typed (fun _ => true) 46 46 config [] input (Table 0) tables Hd).
Defined.
End CjsonDecodeTypes.
