(* ===== verification/CjsonTokens.v ===== *)
(** * The decoder reads what the encoder writes: tokens

    [at_text s j txt]: the parser stands before [txt], which runs to the
    terminator of [s]. The lemmas give the token of every form of text the
    encoder writes, and the text behind it. The locale is the C locale. *)
From S2P Require Import Prelude Libc Strbuf StrbufSpec Double DoubleSpec Fpconv FpconvSpec Cjson CjsonEncode CjsonDecode Json CjsonEncodeSpec CjsonDecodeSafe.

Module CjsonTokens.
Import Strbuf StrbufSpec Double DoubleSpec Fpconv FpconvSpec Cjson CjsonEncode CjsonDecode Json
  CjsonEncodeSpec CjsonDecodeSafe.

Section tokens.
Context (s : list Z).
Implicit Types (j : json_parse_t) (txt rest : list Z).

Definition at_text j txt : Prop := inv s j ∧ drop (Z.to_nat (ptr j)) (s ++ [0]) = txt.

Lemma at_chr j txt n c : at_text j txt → txt !! n = Some c → chr j (Z.of_nat n) = Done c.
Proof.
  intros [Hj <-] Hc. unfold chr. rewrite (i_data _ _ Hj). apply rd_done.
  destruct Hj. apply zget_Some. split; [lia|].
  rewrite lookup_drop in Hc. rewrite <- Hc. f_equal. lia.
Qed.

Lemma at_chr0 j c txt : at_text j (c :: txt) → chr j 0 = Done c.
Proof. intros Hj. by apply (at_chr j (c :: txt) 0). Qed.

Lemma at_length j txt : at_text j txt → len txt = len s + 1 - ptr j.
Proof. intros [[] <-]. rewrite length_drop, length_app. cbn [length]. lia. Qed.

(** Behind [a], with another text in the same buffer. *)
Lemma at_advance j a b t :
  at_text j (a ++ b) → b ≠ [] → (∃ str, holds t str) → size t = size (tmp j) →
  at_text (advance (len a) (set_tmp t j)) b ∧ later j (advance (len a) (set_tmp t j)).
Proof.
  intros Hat Hb Ht Hsz. pose proof (at_length _ _ Hat) as Hlen. destruct Hat as [Hj Hd].
  rewrite length_app in Hlen. destruct b as [|c b]; [done|]. cbn [length] in Hlen.
  destruct (inv_advance s j (len a) t) as [Hi Hl]; [done|lia|lia|done|done|].
  split; [|done]. split; [done|]. cbn [ptr advance set_ptr set_tmp].
  pose proof (i_ptr _ _ Hj). rewrite Z2Nat.inj_add, Nat2Z.id, <- drop_drop, Hd by lia.
  by rewrite drop_app_length.
Qed.

Lemma at_move j a b :
  at_text j (a ++ b) → b ≠ [] → at_text (advance (len a) j) b ∧ later j (advance (len a) j).
Proof.
  intros Hat Hb. pose proof Hat as [Hj _].
  destruct (at_advance j a b (tmp j) Hat Hb (i_tmp _ _ Hj) eq_refl) as [[Hi ?] Hl].
  split; [split|]; [|done|].
  - destruct Hi. by constructor.
  - destruct Hl. by constructor.
Qed.

(** ** Characters of a string *)
Lemma hexdigit2int_hexdigit d : 0 ≤ d < 16 → hexdigit2int (hexdigit d) = d.
Proof.
  intros Hd. assert (d ∈ seqZ 0 16) as Hin by (apply elem_of_seqZ; lia).
  revert d Hd Hin. assert (Forall (fun d => hexdigit2int (hexdigit d) = d) (seqZ 0 16)) as Hall.
  { apply (bool_decide_unpack _). by vm_compute. }
  intros d _ Hin. rewrite Forall_forall in Hall. by apply Hall.
Qed.

(** The escape of a control character. *)
Lemma control_escape j c txt :
  at_text j (lit "\u00" ++ [hexdigit (c / 16); hexdigit (c mod 16)] ++ txt) → 0 ≤ c < 128 →
  unicode_escape j = Done (Some (c, 6)).
Proof.
  intros Hat Hc. unfold unicode_escape, decode_hex4.
  assert (0 ≤ c / 16 < 16) by dlia. assert (0 ≤ c mod 16 < 16) by dlia.
  change (2 + 1) with 3. change (2 + 2) with 4. change (2 + 3) with 5.
  rewrite (at_chr _ _ 2 48 Hat eq_refl : chr j 2 = _).
  rewrite (at_chr _ _ 3 48 Hat eq_refl : chr j 3 = _).
  rewrite (at_chr _ _ 4 _ Hat eq_refl : chr j 4 = _).
  rewrite (at_chr _ _ 5 _ Hat eq_refl : chr j 5 = _).
  cbn [obind]. change (hexdigit2int 48) with 0. change (0 <? 0) with false. cbv iota.
  rewrite !hexdigit2int_hexdigit by done.
  rewrite (proj2 (Z.ltb_ge (c / 16) 0)), (proj2 (Z.ltb_ge (c mod 16) 0)) by lia. cbn [obind].
  rewrite !Z.shiftl_mul_pow2 by lia. change (2 ^ 4) with 16.
  replace (0 * 2 ^ 12 + 0 * 2 ^ 8 + c / 16 * 16 + c mod 16) with c by dlia.
  rewrite (proj2 (Z.ltb_ge c 0)) by lia.
  assert (Forall (fun c => Z.land c 63488 = 0) (seqZ 0 128)) as Hland.
  { apply (bool_decide_unpack _). by vm_compute. }
  rewrite Forall_forall in Hland. by rewrite Hland by (apply elem_of_seqZ; lia).
Qed.

(** The three forms of a character: a letter behind a backslash, a code point,
    itself. *)
Lemma escape_forms c e :
  char2escape c = Some e → byte_ok c →
  (∃ x, e = [92; x] ∧ escape2char x = c ∧ c ≠ 117 ∧ c ≠ 0) ∨
  (e = lit "\u00" ++ [hexdigit (c / 16); hexdigit (c mod 16)] ∧ c < 128).
Proof.
  unfold char2escape. intros He Hc.
  destruct (Z.eqb_spec c 8) as [->|]; [left; injection He as <-; by exists 98|].
  destruct (Z.eqb_spec c 9) as [->|]; [left; injection He as <-; by exists 116|].
  destruct (Z.eqb_spec c 10) as [->|]; [left; injection He as <-; by exists 110|].
  destruct (Z.eqb_spec c 12) as [->|]; [left; injection He as <-; by exists 102|].
  destruct (Z.eqb_spec c 13) as [->|]; [left; injection He as <-; by exists 114|].
  destruct (Z.ltb_spec c 32), (Z.eqb_spec c 127); cbn [orb] in He;
    try (right; injection He as <-; split; [done|lia]).
  destruct (Z.eqb_spec c 34) as [->|]; [left; injection He as <-; by exists 34|].
  destruct (Z.eqb_spec c 47) as [->|]; [left; injection He as <-; by exists 47|].
  destruct (Z.eqb_spec c 92) as [->|]; [left; injection He as <-; by exists 92|done].
Qed.

Lemma plain_char c : char2escape c = None → byte_ok c → c ≠ 34 ∧ c ≠ 0 ∧ c ≠ 92.
Proof. intros He Hc. split_and!; by intros ->. Qed.

(** One round of the loop reads the escape of one character. *)
Lemma string_step j str c txt fuel :
  at_text j (default [c] (char2escape c) ++ txt) → txt ≠ [] → byte_ok c →
  holds (tmp j) str → len str + 1 ≤ ptr j →
  ∃ j', string_loop (S fuel) j = string_loop fuel j' ∧ at_text j' txt ∧ later j j' ∧
    holds (tmp j') (str ++ [c]) ∧ len (str ++ [c]) + 1 ≤ ptr j' ∧ ptr j < ptr j'.
Proof.
  intros Hat Hne Hc Hs Hlen. pose proof Hat as [Hj _].
  pose proof (i_room _ _ Hj) as Hroom. pose proof (i_ptr _ _ Hj) as Hp.
  assert (∀ e n t, default [c] (char2escape c) = e → len e = n → 1 ≤ n →
    holds t (str ++ [c]) → size t = size (tmp j) →
    let j' := advance n (set_tmp t j) in
    at_text j' txt ∧ later j j' ∧ holds (tmp j') (str ++ [c]) ∧ len (str ++ [c]) + 1 ≤ ptr j' ∧
    ptr j < ptr j') as Hnext.
  { intros e n t He Hn H1 Ht Hsz. rewrite He in Hat. subst n.
    destruct (at_advance j e txt t Hat Hne) as [? ?]; [by eexists|done|].
    cbn [ptr tmp advance set_ptr set_tmp]. rewrite length_app. cbn [length].
    split; [done|]. split; [done|]. split; [done|]. split; lia. }
  destruct (append_char_unsafe_ok (E:=parse_error) (tmp j) str c Hs ltac:(lia))
    as (t & Happ & Ht & Hsz & _ & _).
  destruct (char2escape c) as [e|] eqn:He; cbn [default from_option id] in *.
  - destruct (escape_forms c e He Hc) as [(x & -> & Hx & Hx1 & Hx2)|[-> Hlt]].
    + exists (advance 2 (set_tmp t j)). split; [|by eapply Hnext].
      cbn [string_loop]. rewrite (at_chr _ _ 0 92 Hat eq_refl : chr j 0 = _). cbn [obind].
      change (92 =? 34) with false. change (92 =? 0) with false. change (92 =? 92) with true. cbv iota.
      rewrite (at_chr _ _ 1 x Hat eq_refl : chr j 1 = _). cbn [obind]. rewrite Hx.
      rewrite (proj2 (Z.eqb_neq c 117)), (proj2 (Z.eqb_neq c 0)) by done.
      by rewrite Happ.
    + destruct (append_mem_unsafe_ok (E:=parse_error) (tmp j) str [c] Hs) as (t' & Happ' & Ht' & Hsz' & _ & _).
      { cbn [length]. lia. }
      exists (advance 6 (set_tmp t' j)). split; [|by eapply Hnext].
      cbn [string_loop]. rewrite (at_chr _ _ 0 92 Hat eq_refl : chr j 0 = _). cbn [obind].
      change (92 =? 34) with false. change (92 =? 0) with false. change (92 =? 92) with true. cbv iota.
      rewrite (at_chr _ _ 1 117 Hat eq_refl : chr j 1 = _). cbn [obind].
      change (escape2char 117 =? 117) with true. cbv iota. unfold json_append_unicode_escape.
      rewrite (control_escape j c txt Hat) by (unfold byte_ok in Hc; lia).
      cbn [obind]. unfold codepoint_to_utf8. rewrite (proj2 (Z.leb_le c 127)) by lia.
      rewrite wrap_small by (change (2 ^ 8) with 256; unfold byte_ok in Hc; lia).
      by rewrite Happ'.
  - exists (advance 1 (set_tmp t j)). split; [|by eapply Hnext].
    destruct (plain_char c He Hc) as (H34 & H0 & H92).
    cbn [string_loop]. rewrite (at_chr0 _ _ _ Hat). cbn [obind].
    rewrite (proj2 (Z.eqb_neq c 34)), (proj2 (Z.eqb_neq c 0)), (proj2 (Z.eqb_neq c 92)) by done.
    by rewrite Happ.
Qed.

(** The whole text of a string, up to its closing quote. *)
Lemma string_text fuel j str c rest :
  at_text j (escape c ++ 34 :: rest) → bytes_ok c → holds (tmp j) str → len str + 1 ≤ ptr j →
  len s - ptr j < Z.of_nat fuel →
  ∃ j', string_loop fuel j = Done (j', None) ∧ at_text j' (34 :: rest) ∧ later j j' ∧
    holds (tmp j') (str ++ c).
Proof.
  intros Hat Hc. revert fuel j str Hat. induction Hc as [|x c Hx Hc IH]; intros fuel j str Hat Hs Hlen Hfuel.
  - pose proof Hat as [Hj _]. pose proof (i_ptr _ _ Hj).
    destruct fuel as [|fuel]; [lia|]. exists j. rewrite app_nil_r.
    split; [|by split]. cbn [string_loop]. by rewrite (at_chr0 _ _ _ Hat).
  - rewrite escape_cons, <- app_assoc in Hat. pose proof Hat as [Hj _]. pose proof (i_ptr _ _ Hj).
    destruct fuel as [|fuel]; [lia|].
    destruct (string_step j str x (escape c ++ 34 :: rest) fuel) as (j1 & -> & Hat1 & Hl1 & Hs1 & Hlen1 & Hlt);
      try done; [by destruct (escape c)|].
    destruct (IH fuel j1 (str ++ [x])) as (j2 & -> & Hat2 & Hl2 & Hs2); [done..|lia|].
    exists j2. split; [done|]. split; [done|]. split; [by etrans|]. by rewrite <- app_assoc in Hs2.
Qed.
(** ** Tokens *)
Lemma skip_none fuel j c txt :
  at_text j (c :: txt) → ch2token c ≠ T_WHITESPACE → skip_whitespace (S fuel) j = Done (j, c).
Proof.
  intros Hat Hw. cbn [skip_whitespace]. rewrite (at_chr0 _ _ _ Hat). cbn [obind].
  by rewrite decide_False.
Qed.

(** What the next token is: read from [txt], with [rest] behind it. *)
Definition reads j (t : json_token_type_t) (v : token_value) rest j' : Prop :=
  (∃ index, json_next_token 46 46 j = Done (j', Token t index v)) ∧ at_text j' rest ∧ later j j'.

Lemma next_single j c t rest :
  at_text j (c :: rest) → rest ≠ [] → ch2token c = t →
  t ∈ [T_OBJ_BEGIN; T_OBJ_END; T_ARR_BEGIN; T_ARR_END; T_COLON; T_COMMA] →
  reads j t Vnone rest (advance 1 j).
Proof.
  intros Hat Hne Ht Hin. destruct (at_move j [c] rest Hat Hne) as [Hat' Hl].
  assert (ch2token c ≠ T_WHITESPACE) as Hw.
  { rewrite Ht. intros ->. rewrite !elem_of_cons, elem_of_nil in Hin. naive_solver. }
  split; [|done]. unfold json_next_token. rewrite (skip_none _ _ _ _ Hat Hw). cbn [obind]. rewrite Ht.
  repeat (apply elem_of_cons in Hin as [->|Hin]; [by eexists|]). by apply elem_of_nil in Hin.
Qed.

Lemma next_end j : at_text j [0] → ∃ index, json_next_token 46 46 j = Done (j, Token T_END index Vnone).
Proof.
  intros Hat. unfold json_next_token. rewrite (skip_none _ _ _ _ Hat) by done. by eexists.
Qed.

(** A token that starts with a character of type [T_UNKNOWN]. *)
Lemma next_unknown j c txt :
  at_text j (c :: txt) → ch2token c = T_UNKNOWN →
  json_next_token 46 46 j = unknown_token 46 46 j c (i32 (ptr j)).
Proof.
  intros Hat Ht. unfold json_next_token. rewrite (skip_none _ _ _ _ Hat) by (by rewrite Ht).
  cbn [obind]. by rewrite Ht.
Qed.

Lemma next_string j c rest :
  at_text j (quote c ++ rest) → rest ≠ [] → bytes_ok c →
  ∃ j', reads j T_STRING (Vtmp (len c)) rest j' ∧ holds (tmp j') c.
Proof.
  intros Hat Hne Hc. unfold quote in Hat. rewrite <- !app_assoc in Hat. cbn [app] in Hat.
  destruct (at_move j [34] (escape c ++ 34 :: rest) Hat) as [Hat1 Hl1]; [by destruct (escape c)|].
  set (j1 := advance 1 j). set (j2 := set_tmp (strbuf_reset (tmp j1)) j1).
  pose proof Hat as [Hj _]. pose proof Hat1 as [Hj1 _]. pose proof (i_ptr _ _ Hj) as Hp.
  destruct (i_tmp _ _ Hj1) as [str Hstr]. pose proof (reset_ok _ _ Hstr) as Hreset.
  assert (at_text j2 (escape c ++ 34 :: rest)) as Hat2.
  { destruct Hat1 as [Hi Hd]. split; [|exact Hd]. destruct Hi. constructor; try done. by eexists. }
  assert (later j j2) as Hl2 by (destruct Hl1; by constructor).
  destruct (string_text (S (length (data j2))) j2 [] c rest Hat2 Hc Hreset) as (j3 & Hloop & Hat3 & Hl3 & Hs3).
  { cbn. lia. }
  { destruct Hat2 as [Hi _]. rewrite (i_data _ _ Hi), length_app. pose proof (i_ptr _ _ Hi). cbn. lia. }
  destruct (at_move j3 [34] rest Hat3 Hne) as [Hat4 Hl4].
  destruct (ensure_null_ok (E:=parse_error) (tmp j3) c Hs3) as (t & Hnull & Ht & Hsz & _ & _).
  exists (set_tmp t (advance 1 j3)). split; [split; [|split]|done].
  - rewrite (next_unknown j 34 _ Hat) by done. unfold unknown_token.
    change (34 =? 34) with true. cbv iota. unfold json_next_string_token.
    rewrite (at_chr0 _ _ _ Hat). cbn [obind].
    change (guard_or AssertFailed (34 =? 34)) with (Done (E:=parse_error) tt). cbn [obind].
    change (string_loop (S (length (data j2))) j2) with
      (string_loop (S (length (data (set_tmp (strbuf_reset (tmp j1)) j1)))) (set_tmp (strbuf_reset (tmp j1)) j1)) in Hloop.
    subst j1. rewrite Hloop. cbn [obind].
    change (tmp (advance 1 j3)) with (tmp j3). rewrite Hnull. cbn [obind]. unfold strbuf_length.
    rewrite (h_len _ _ Ht). by eexists.
  - destruct Hat4 as [Hi Hd]. split; [|exact Hd]. destruct Hi. constructor; cbn in *; try done; [by eexists|lia].
  - etrans; [exact Hl2|]. etrans; [exact Hl3|]. destruct Hl4. by constructor.
Qed.

(** ** Words *)
Lemma same_prefix_text f j pre w rest :
  at_text j (pre ++ w ++ rest) → Forall (fun a => f a = a) w →
  same_prefix f j (len pre) w = Done true.
Proof.
  intros Hat Hf. revert pre Hat. induction Hf as [|a w Ha Hf IH]; intros pre Hat; [done|].
  cbn [same_prefix app] in *.
  rewrite (at_chr j _ (length pre) a Hat) by (by rewrite list_lookup_middle).
  cbn [obind]. rewrite Ha, Z.eqb_refl.
  replace (len pre + 1) with (len (pre ++ [a])) by (rewrite length_app; cbn [length]; lia).
  apply IH. by rewrite <- app_assoc.
Qed.

Lemma strncmp_text j w rest : at_text j (w ++ rest) → strncmp_eq j 0 w = Done true.
Proof. intros Hat. apply (same_prefix_text _ j [] w rest); [done|]. by apply Forall_true. Qed.

Lemma strncmp_other j a w c rest : at_text j (c :: rest) → c ≠ a → strncmp_eq j 0 (a :: w) = Done false.
Proof.
  intros Hat Hc. unfold strncmp_eq. cbn [same_prefix]. rewrite (at_chr0 _ _ _ Hat). cbn [obind].
  unfold Datatypes.id. by rewrite (proj2 (Z.eqb_neq c a)).
Qed.

Lemma next_word j w t v rest :
  at_text j (w ++ rest) → rest ≠ [] →
  (w, t, v) ∈ [(lit "true", T_BOOLEAN, Vboolean true); (lit "false", T_BOOLEAN, Vboolean false);
    (lit "null", T_NULL, Vnone)] →
  reads j t v rest (advance (len w) j).
Proof.
  intros Hat Hne Hin. destruct (at_move j w rest Hat Hne) as [Hat' Hl]. split; [|done].
  apply elem_of_cons in Hin as [[= -> -> ->]|Hin]; [|apply elem_of_cons in Hin as [[= -> -> ->]|Hin]];
    [..|apply list_elem_of_singleton in Hin; injection Hin as -> -> ->].
  - rewrite (next_unknown j 116 (lit "rue" ++ rest) Hat) by done. unfold unknown_token.
    cbn [orb]. rewrite (strncmp_text j (lit "true") rest Hat). by eexists.
  - rewrite (next_unknown j 102 (lit "alse" ++ rest) Hat) by done. unfold unknown_token.
    rewrite (strncmp_other j 116 (lit "rue") 102 (lit "alse" ++ rest) Hat : _ → strncmp_eq j 0 (lit "true") = _) by done.
    rewrite (strncmp_text j (lit "false") rest Hat). by eexists.
  - rewrite (next_unknown j 110 (lit "ull" ++ rest) Hat) by done. unfold unknown_token.
    rewrite (strncmp_other j 116 (lit "rue") 110 (lit "ull" ++ rest) Hat : _ → strncmp_eq j 0 (lit "true") = _) by done.
    rewrite (strncmp_other j 102 (lit "alse") 110 (lit "ull" ++ rest) Hat : _ → strncmp_eq j 0 (lit "false") = _) by done.
    rewrite (strncmp_text j (lit "null") rest Hat). by eexists.
Qed.

(** ** Numbers *)

(** What the encoder writes behind a value. *)
Definition delimiter rest : Prop :=
  match rest with c :: _ => c = 0 ∨ c = 44 ∨ c = 93 ∨ c = 125 | [] => False end.

Lemma delimiter_stops rest : delimiter rest → stops rest.
Proof. destruct rest as [|c r]; [done|]. by intros [->|[->|[->| ->]]]. Qed.

Lemma delimiter_ne rest : delimiter rest → rest ≠ [].
Proof. by intros H ->. Qed.

Lemma i8_small c : 0 ≤ c < 128 → i8 c = c.
Proof. apply swrap_id_u8. Qed.

(** A printed number is strict JSON. *)
Lemma number_valid j t rest :
  at_text j (t ++ rest) → number_text 46 t → delimiter rest → json_is_invalid_number j = Done false.
Proof.
  intros Hat [(sgn & ds & frac & ex & -> & Hsgn & (Hds & Hne & Hhead) & Hfrac & Hex)] Hrest.
  rewrite <- !app_assoc in Hat. set (tail := frac ++ ex ++ rest) in *.
  destruct ds as [|d ds]; [done|]. cbn [app] in Hat. apply Forall_cons in Hds as [Hd Hds].
  assert (∃ c, tail !! 0%nat = Some c ∧ Z.lor (i8 c) 32 ≠ 120 ∧ (48 <=? i8 c) && (i8 c <=? 57) = false)
    as (c & Hc & Hx & Hdig).
  { subst tail. destruct Hfrac as [->|(fs & -> & _)]; [|by exists 46].
    destruct Hex as [->|(c & es & -> & _)]; [|by exists 101].
    destruct rest as [|c r]; [done|]. exists c. split; [done|]. by destruct Hrest as [->|[->|[->| ->]]]. }
  assert (∃ p, (if (default 0 (head sgn)) =? 45 then 1 else 0) = Z.of_nat p ∧ p = length sgn) as (p & Hp & Hpl).
  { destruct Hsgn as [->| ->]; [by exists 0%nat|by exists 1%nat]. }
  assert (chr j 0 = Done (default d (head sgn))) as H0.
  { destruct Hsgn as [->| ->]; apply (at_chr0 _ _ _ Hat). }
  unfold json_is_invalid_number. rewrite H0. cbn [obind].
  assert ((default d (head sgn) =? 43) = false) as ->.
  { apply Z.eqb_neq. destruct Hsgn as [->| ->]; cbn; lia. }
  assert ((if default d (head sgn) =? 45 then 1 else 0) = Z.of_nat (length sgn)) as ->.
  { destruct Hsgn as [->| ->]; cbn [default head from_option id]; [|done].
    by rewrite (proj2 (Z.eqb_neq d 45)) by lia. }
  rewrite (at_chr j _ (length sgn) d Hat) by (by rewrite list_lookup_middle). cbn [obind].
  destruct Hhead as [[= -> ->]|(d' & ds' & [= <- <-] & Hd')].
  - change (48 =? 48) with true. cbv iota.
    replace (Z.of_nat (length sgn) + 1) with (Z.of_nat (length (sgn ++ [48])))
      by (rewrite length_app; cbn [length]; lia).
    rewrite (at_chr j ((sgn ++ [48]) ++ tail) (length (sgn ++ [48])) c).
    + cbn [obind]. rewrite Hdig. by rewrite (proj2 (Z.eqb_neq _ _) Hx).
    + by rewrite <- app_assoc.
    + by rewrite lookup_app_r, Nat.sub_diag by done.
  - rewrite (proj2 (Z.eqb_neq d 48)) by lia. rewrite i8_small by lia.
    by rewrite (proj2 (Z.leb_le d 57)) by lia.
Qed.

Lemma next_number j t rest v :
  at_text j (t ++ rest) → number_text 46 t → delimiter rest →
  (∀ rest, stops rest → strtod 46 (t ++ rest) = Some (v, rest)) →
  reads j T_NUMBER (Vnumber v) rest (advance (len t) j).
Proof.
  intros Hat Ht Hrest Hv. destruct (at_move j t rest Hat (delimiter_ne _ Hrest)) as [Hat' Hl].
  split; [|done].
  assert (∃ c t', t = c :: t' ∧ (c = 45 ∨ 48 ≤ c ≤ 57)) as (c & t' & -> & Hc).
  { destruct Ht as [(sgn & ds & frac & ex & -> & Hsgn & (Hds & Hne & _) & _)].
    destruct Hsgn as [->| ->]; [|by eexists _, _; split; [|left]].
    destruct ds as [|d ds]; [done|]. apply Forall_cons in Hds as [Hd _].
    eexists d, _. split; [done|]. by right. }
  assert (ch2token c = T_UNKNOWN ∧ c ≠ 34 ∧ (c =? 45) || isdigit c = true) as (Hu & H34 & Hnum).
  { destruct Hc as [->|Hc]; [done|]. assert (isdigit c = true) as Hdig by by apply isdigit_true.
    split; [|split; [lia|by rewrite Hdig, orb_true_r]]. unfold ch2token. rewrite Hdig, !orb_true_r.
    repeat (rewrite (proj2 (Z.eqb_neq _ _)) by lia). done. }
  rewrite (next_unknown j c _ Hat Hu). unfold unknown_token.
  rewrite (proj2 (Z.eqb_neq c 34)), Hnum by done.
  assert ((if decode_invalid_numbers (cfg j) =? 0 then json_is_invalid_number j else Done false) = Done false)
    as ->.
  { destruct (_ =? 0); [|done]. by apply (number_valid j (c :: t') rest). }
  cbn [obind]. unfold json_next_number_token, fpconv_strtod. change (46 =? 46) with true. cbv iota.
  destruct Hat as [Hj Hd]. rewrite (i_data _ _ Hj), Hd, Hv by by apply delimiter_stops.
  rewrite length_app, Nat.add_sub. cbn [length Nat.eqb]. by eexists.
Qed.
End tokens.
End CjsonTokens.
