(* ===== verification/CjsonRoundtrip.v ===== *)
(** * Decoding what was encoded

    [means h n j v]: the decoded value [v], with tables of the heap [h] from
    address [n] on, is the document [j] with its numbers as they were printed.
    The parser lemmas follow the recursion of the decoder; the round trip joins
    them with the specification of the encoder. *)
From S2P Require Import Prelude Libc Strbuf StrbufSpec Double DoubleSpec Fpconv FpconvSpec Cjson CjsonEncode CjsonDecode Json CjsonEncodeSpec CjsonEncodeProps CjsonDecodeSafe CjsonTokens.

Module CjsonRoundtrip.
Import Strbuf StrbufSpec Double DoubleSpec Fpconv FpconvSpec Cjson CjsonEncode CjsonDecode Json
  CjsonEncodeSpec CjsonEncodeProps CjsonDecodeSafe CjsonTokens.

(** A number after it was printed with [P] digits and read again. *)
Definition reread (P : Z) (x : double) : double :=
  match strtod 46 (printf_g 46 P x) with Some (v, _) => v | None => x end.

Lemma reread_spec P x rest :
  1 ≤ P → finite x = true → stops rest → strtod 46 (printf_g 46 P x ++ rest) = Some (reread P x, rest).
Proof.
  intros HP Hx Hrest. destruct (strtod_text _ (printf_g_text 46 P x HP Hx)) as [v Hv].
  rewrite Hv by done. unfold reread. specialize (Hv [] I). rewrite app_nil_r in Hv. by rewrite Hv.
Qed.

(** An integer of at most [P] digits is not changed. *)
Lemma reread_integer P z : 1 ≤ P ≤ 15 → Z.abs z < 10 ^ P → reread P (of_Z z) = of_Z z.
Proof.
  intros HP Hz. unfold reread. rewrite printf_integer by done.
  pose proof (strtod_integer z [] I) as H. rewrite app_nil_r in H. by rewrite H.
Qed.

(** ** Decoded values *)
Section lists.
Context (D : json → value → Prop).

Fixpoint listed (es : entries) (i : Z) (l : list json) {struct l} : Prop :=
  match l, es with
  | [], [] => True
  | j :: l', (k, v) :: es' => k = Integer i ∧ D j v ∧ listed es' (i + 1) l'
  | _, _ => False
  end.

Fixpoint named (es : entries) (kvs : list (list Z * json)) {struct kvs} : Prop :=
  match kvs, es with
  | [], [] => True
  | (s, j) :: kvs', (k, v) :: es' => k = Str s ∧ D j v ∧ named es' kvs'
  | _, _ => False
  end.
End lists.

Section means.
(** [num]: what is read for a number of the document. *)
Context (num : double → double).

Fixpoint means (h : heap) (n : nat) (j : json) (v : value) {struct j} : Prop :=
  match j with
  | JNull => v = LightUserdata true
  | JBool b => v = Boolean b
  | JNum x => v = Number (num x)
  | JStr s => v = Str s
  | JArr l => ∃ t, v = Table t ∧ (n ≤ t < length h)%nat ∧ listed (means h n) (table h t) 1 l
  | JObj kvs => ∃ t, v = Table t ∧ (n ≤ t < length h)%nat ∧ named (means h n) (table h t) kvs
  end.

(** Documents that can be read back: finite numbers, bytes, distinct names. *)
Fixpoint readable (j : json) : Prop :=
  match j with
  | JNum x => finite x = true
  | JStr s => bytes_ok s
  | JArr l => foldr (fun j P => readable j ∧ P) True l
  | JObj kvs => NoDup kvs.*1 ∧ foldr (fun kv P => (bytes_ok kv.1 ∧ readable kv.2) ∧ P) True kvs
  | _ => True
  end.

(** The heap keeps its tables from [n] to [m] and only grows. *)
Definition same_from (n : nat) (h h' : heap) : Prop :=
  (length h ≤ length h')%nat ∧ ∀ t, (n ≤ t < length h)%nat → h' !! t = h !! t.
Definition same_below (n : nat) (h h' : heap) : Prop :=
  (length h ≤ length h')%nat ∧ ∀ t, (t < n)%nat → h' !! t = h !! t.

Lemma same_table n h h' t : same_from n h h' → (n ≤ t < length h)%nat → table h' t = table h t.
Proof. intros [_ H] Ht. unfold table. rewrite !list_lookup_total_alt. by rewrite H. Qed.

Lemma means_mono h h' n n' j v :
  means h n j v → same_from n h h' → (n' ≤ n)%nat → means h' n' j v.
Proof.
  intros Hm Hs Hn. revert v Hm. induction j as [| | | |l IH|kvs IH] using json_rect'; intros v; try done.
  - intros (t & -> & Ht & Hl). exists t. split; [done|]. split; [destruct Hs; lia|].
    rewrite (same_table n h h' t) by done. clear Ht. generalize dependent 1.
    generalize dependent (table h t). induction IH as [|j l Hj IH IHl]; intros es i Hl; [done|].
    destruct es as [|[k v] es]; [done|]. destruct Hl as (-> & Hv & Hl).
    split; [done|]. split; [by apply Hj|by apply IHl].
  - intros (t & -> & Ht & Hl). exists t. split; [done|]. split; [destruct Hs; lia|].
    rewrite (same_table n h h' t) by done. clear Ht.
    generalize dependent (table h t). induction IH as [|[s j] l Hj IH IHl]; intros es Hl; [done|].
    destruct es as [|[k v] es]; [done|]. destruct Hl as (-> & Hv & Hl).
    split; [done|]. split; [by apply Hj|by apply IHl].
Qed.

Lemma listed_mono D D' es i l : (∀ j v, D j v → D' j v) → listed D es i l → listed D' es i l.
Proof.
  intros HD. revert es i. induction l as [|j l IH]; intros [|[k v] es] i; try done.
  intros (-> & Hv & Hl). split_and!; auto.
Qed.

Lemma named_mono D D' es kvs : (∀ j v, D j v → D' j v) → named D es kvs → named D' es kvs.
Proof.
  intros HD. revert es. induction kvs as [|[s j] l IH]; intros [|[k v] es]; try done.
  intros (-> & Hv & Hl). split_and!; auto.
Qed.

(** A new element or member goes to the end of the table. *)
Lemma listed_snoc D es i l j v :
  listed D es i l → D j v → listed D (lua_rawset es (Integer (i + len l)) v) i (l ++ [j]).
Proof.
  revert es i. induction l as [|j' l IH]; intros [|[k' v'] es] i; try done.
  - intros _ Hv. cbn. by rewrite Z.add_0_r.
  - intros (-> & Hv' & Hl) Hv. cbn [lua_rawset length app].
    rewrite decide_False by (intros [= Heq]; lia). split; [done|]. split; [done|].
    replace (i + Z.of_nat (S (length l))) with (i + 1 + len l) by lia. by apply IH.
Qed.

Lemma named_snoc D es kvs s j v :
  named D es kvs → D j v → s ∉ kvs.*1 → named D (lua_rawset es (Str s) v) (kvs ++ [(s, j)]).
Proof.
  revert es. induction kvs as [|[s' j'] l IH]; intros [|[k' v'] es]; try done.
  rewrite fmap_cons, not_elem_of_cons. intros (-> & Hv' & Hl) Hv [Hs Hin]. cbn [lua_rawset app fst] in *.
  rewrite decide_False by congruence. split; [done|]. split; [done|]. by apply IH.
Qed.
End means.
(** ** The parser *)
Section parser.
Context (s : list Z) (c : json_config_t) (checkstack : Z → bool) (prec : Z).
Context (Hprec : 1 ≤ prec) (Hmax : len s < INT_MAX).
Context (Hstack : ∀ d, d ≤ decode_max_depth c → checkstack d = true).
Implicit Types (j : json_parse_t).

Abbreviation process_type :=
  (json_parse_t → heap → json_token_t → outcome parse_error (value * (json_parse_t * heap))).
Abbreviation next := (json_next_token 46 46).
Abbreviation pr := (print prec).
Abbreviation at_text := (at_text s).

(** The values inside a container, with fuel for texts of length [F]. *)
Definition parses (F : nat) (process : process_type) (x : json) : Prop :=
  ∀ j0 h rest, at_text j0 (pr x ++ rest) → delimiter rest → cfg j0 = c →
    current_depth j0 + depth x ≤ decode_max_depth c → (length (pr x) ≤ F)%nat →
    ∃ j1 tok v j' h', next j0 = Done (j1, tok) ∧ ttype tok ≠ T_ARR_END ∧
      process j1 h tok = Done (v, (j', h')) ∧ at_text j' rest ∧ later j0 j' ∧
      same_below (length h) h h' ∧ means (reread prec) h' (length h) x v.

(** The heap after an element is stored in the table [t] under construction. *)
Lemma store_ok h h1 t es x v :
  (t < length h)%nat → same_below (length h) h h1 → means (reread prec) h1 (length h) x v →
  let h2 := <[t := es]> h1 in
  table h1 t = table h t ∧ table h2 t = es ∧ same_below t h h2 ∧ (t < length h2)%nat ∧
  means (reread prec) h2 (S t) x v ∧ same_from (S t) h h2.
Proof.
  intros Ht [Hlen Hsame] Hm. cbv zeta.
  assert (same_from (length h) h1 (<[t := es]> h1)) as Hs.
  { split; [by rewrite length_insert|]. intros t' Ht'. rewrite list_lookup_insert_ne by lia. done. }
  split_and!.
  - unfold table. rewrite !list_lookup_total_alt, Hsame by done. done.
  - unfold table. rewrite list_lookup_total_alt, list_lookup_insert_eq by lia. done.
  - split; [rewrite length_insert; lia|]. intros t' Ht'.
    rewrite list_lookup_insert_ne by lia. apply Hsame. lia.
  - rewrite length_insert. lia.
  - eapply means_mono; [exact Hm|exact Hs|lia].
  - split; [rewrite length_insert; lia|]. intros t' Ht'.
    rewrite list_lookup_insert_ne by lia. apply Hsame. lia.
Qed.

Lemma same_below_trans n h1 h2 h3 : same_below n h1 h2 → same_below n h2 h3 → same_below n h1 h3.
Proof. intros [? H1] [? H2]. split; [lia|]. intros t Ht. by rewrite H2, H1. Qed.

Lemma items_delimiter (l : list (list Z)) x rest :
  x = 93 ∨ x = 125 → delimiter (items true l ++ x :: rest).
Proof. intros Hx. destruct l; cbn; [naive_solver|auto]. Qed.

(** One element: it is stored behind those that are there. *)
Lemma array_element F process x j0 j1 tok h t l0 rest :
  parses F process x → next j0 = Done (j1, tok) → at_text j0 (pr x ++ rest) → delimiter rest →
  cfg j0 = c → current_depth j0 + depth x ≤ decode_max_depth c → (length (pr x) ≤ F)%nat →
  (t < length h)%nat → listed (means (reread prec) h (S t)) (table h t) 1 l0 →
  ∃ j2 h2, at_text j2 rest ∧ later j0 j2 ∧ same_below t h h2 ∧ (t < length h2)%nat ∧
    listed (means (reread prec) h2 (S t)) (table h2 t) 1 (l0 ++ [x]) ∧
    ∀ k, array_loop 46 46 process (S k) j1 h t (1 + len l0) tok =
      let! (j, token) := next j2 in
      match ttype token with
      | T_ARR_END => Done (Table t, (json_decode_ascend j, h2))
      | T_COMMA =>
          let! (j, token) := next j in
          let! i := int (1 + len l0 + 1) in
          array_loop 46 46 process k j h2 t i token
      | _ => json_throw_parse_error j (lit "comma or array end") token
      end.
Proof.
  intros Hx Hnext Hat Hrest Hc Hdx HF Ht Hl.
  destruct (Hx j0 h _ Hat) as (j1' & tok' & v & j2 & h1 & Hn' & _ & Hproc & Hat2 & Hl2 & Hsame & Hm); try done.
  rewrite Hnext in Hn'. injection Hn' as <- <-.
  destruct (store_ok h h1 t (lua_rawset (table h1 t) (Integer (1 + len l0)) v) x v Ht Hsame Hm)
    as (Htab & Htab2 & Hsb & Ht2 & Hm2 & Hsf). rewrite Htab in *.
  set (h2 := <[t := _]> h1) in *.
  pose proof (listed_snoc _ _ _ _ _ _ (listed_mono _ _ _ _ _
    (fun y v Hy => means_mono (reread prec) _ _ _ _ y v Hy Hsf (le_n _)) Hl) Hm2) as Hlist.
  rewrite <- Htab2 in Hlist at 1. exists j2, h2. split_and!; try done.
  intros k. cbn [array_loop]. rewrite Hproc. cbn [obind]. rewrite Htab. done.
Qed.

Lemma array_text F process k x l j0 j1 tok h t l0 rest :
  Forall (parses F process) (x :: l) → next j0 = Done (j1, tok) →
  at_text j0 (pr x ++ items true (pr <$> l) ++ 93 :: rest) → rest ≠ [] → cfg j0 = c →
  Forall (fun y => current_depth j0 + depth y ≤ decode_max_depth c) (x :: l) →
  (length (pr x ++ items true (pr <$> l)) ≤ F)%nat →
  (length (pr x ++ items true (pr <$> l)) < k)%nat →
  (t < length h)%nat → listed (means (reread prec) h (S t)) (table h t) 1 l0 → 1 + len l0 ≤ ptr j0 →
  ∃ j' h', array_loop 46 46 process k j1 h t (1 + len l0) tok =
      Done (Table t, (json_decode_ascend j', h')) ∧ at_text j' rest ∧ later j0 j' ∧
    same_below t h h' ∧ (t < length h')%nat ∧
    listed (means (reread prec) h' (S t)) (table h' t) 1 (l0 ++ x :: l).
Proof.
  revert k x j0 j1 tok h l0. induction l as [|y l IH];
    intros k x j0 j1 tok h l0 Hp Hnext Hat Hne Hc Hdep HF Hk Ht Hl Hi;
    apply Forall_cons in Hp as [Hx Hp]; apply Forall_cons in Hdep as [Hdx Hdep];
    rewrite length_app in HF, Hk; (destruct k as [|k]; [lia|]);
    (destruct (array_element F process x j0 j1 tok h t l0 _ Hx Hnext Hat) as
      (j2 & h2 & Hat2 & Hl2 & Hsb & Ht2 & Hlist & ->); [by apply items_delimiter; auto|done|done|lia|done|done|]);
    cbn [fmap list_fmap items app] in *.
  - destruct (next_single s j2 93 T_ARR_END rest Hat2 Hne eq_refl) as [(index & ->) [Hat3 Hl3]].
    { apply (bool_decide_unpack _). by vm_compute. }
    cbn [obind ttype]. eexists _, h2. split; [done|]. split; [done|]. split; [by etrans|done].
  - rewrite <- app_assoc in Hat2. apply Forall_cons in Hp as [Hy Hp], Hdep as [Hdy Hdep].
    assert (pr y ++ items true (pr <$> l) ++ 93 :: rest ≠ []) as Hne'.
    { by destruct (pr y), (items true (pr <$> l)). }
    destruct (next_single s j2 44 T_COMMA _ Hat2 Hne' eq_refl) as [(index & ->) [Hat3 Hl3]].
    { apply (bool_decide_unpack _). by vm_compute. }
    cbn [obind ttype]. set (j3 := advance 1 j2) in *.
    assert (later j0 j3) as Hl03 by (by etrans).
    assert (cfg j3 = c) as Hc3 by (by rewrite (l_cfg _ _ Hl03)).
    assert (current_depth j3 = current_depth j0) as Hd3 by apply Hl03.
    assert (ptr j0 + 1 ≤ ptr j3) as Hptr by (destruct Hl2; unfold j3; cbn; lia).
    pose proof (i_ptr _ _ (proj1 Hat3)) as Hp3.
    cbn [length] in HF, Hk. rewrite length_app in HF, Hk.
    destruct (Hy j3 h2 _ Hat3) as (j4 & tok4 & _ & _ & _ & Hn4 & _);
      [by apply items_delimiter; auto|done|by rewrite Hd3|lia|].
    rewrite Hn4. cbn [obind]. rewrite int_ok by lia. cbn [obind].
    replace (1 + len l0 + 1) with (1 + len (l0 ++ [x])) by (rewrite length_app; cbn [length]; lia).
    destruct (IH k y j3 j4 tok4 h2 (l0 ++ [x])) as (j' & h' & Heq & Hat' & Hl' & Hsb' & Ht' & Hlist');
      try done; try (rewrite !length_app; cbn [length]; lia); [by constructor|by rewrite Hd3; constructor|].
    exists j', h'. split; [exact Heq|]. split; [done|]. split; [by etrans|].
    split; [by eapply same_below_trans|]. split; [done|]. by rewrite <- app_assoc in Hlist'.
Qed.
Abbreviation member_text := (fun kv : list Z * json => member (kv.1, pr kv.2)).

Lemma push_text j k n index :
  holds (tmp j) k → n = len k → push_string j (Token T_STRING index (Vtmp n)) = Done (Str k).
Proof.
  intros Hk ->. unfold push_string. cbn [tvalue].
  assert (holds (set_length (len k) (tmp j)) k) as Hk' by (destruct Hk; constructor; cbn; done || lia).
  by rewrite (string_ok _ _ Hk').
Qed.

(** One member: it is stored under its name. *)
Lemma object_member F process s0 x j0 j1 tok h t l0 rest :
  parses F process x → next j0 = Done (j1, tok) → at_text j0 (member (s0, pr x) ++ rest) →
  delimiter rest → cfg j0 = c → bytes_ok s0 → s0 ∉ l0.*1 →
  current_depth j0 + depth x ≤ decode_max_depth c → (length (pr x) ≤ F)%nat →
  (t < length h)%nat → named (means (reread prec) h (S t)) (table h t) l0 →
  ∃ j2 h2, at_text j2 rest ∧ later j0 j2 ∧ same_below t h h2 ∧ (t < length h2)%nat ∧
    named (means (reread prec) h2 (S t)) (table h2 t) (l0 ++ [(s0, x)]) ∧
    ∀ k, object_loop 46 46 process (S k) j1 h t tok =
      let! (j, token) := next j2 in
      match ttype token with
      | T_OBJ_END => Done (Table t, (json_decode_ascend j, h2))
      | T_COMMA => let! (j, token) := next j in object_loop 46 46 process k j h2 t token
      | _ => json_throw_parse_error j (lit "comma or object end") token
      end.
Proof.
  intros Hx Hnext Hat Hrest Hc Hb Hfresh Hdx HF Ht Hl.
  unfold member in Hat. cbn [fst snd] in Hat. rewrite <- !app_assoc in Hat.
  destruct (next_string s j0 s0 _ Hat) as (j1' & [(ix & Hn1) [Hat1 Hl1]] & Hs1); [done..|].
  rewrite Hnext in Hn1. injection Hn1 as <- ->.
  destruct (next_single s j1 58 T_COLON _ Hat1) as [(ix2 & Hn2) [Hat2 Hl2]];
    [by destruct (pr x), rest|done|by apply (bool_decide_unpack _); vm_compute|].
  assert (later j0 (advance 1 j1)) as Hl02 by (by etrans).
  destruct (Hx (advance 1 j1) h _ Hat2) as
    (j3 & tok3 & v & j4 & h1 & Hn3 & _ & Hproc & Hat4 & Hl4 & Hsame & Hm);
    [done|by rewrite (l_cfg _ _ Hl02)|by rewrite (l_depth _ _ Hl02)|lia|].
  destruct (store_ok h h1 t (lua_rawset (table h1 t) (Str s0) v) x v Ht Hsame Hm)
    as (Htab & Htab2 & Hsb & Ht2 & Hm2 & Hsf). rewrite Htab in *.
  set (h2 := <[t := _]> h1) in *.
  pose proof (named_snoc _ _ _ s0 _ _ (named_mono _ _ _ _
    (fun y v Hy => means_mono (reread prec) _ _ _ _ y v Hy Hsf (le_n _)) Hl) Hm2 Hfresh) as Hlist.
  rewrite <- Htab2 in Hlist at 1. exists j4, h2. split; [done|]. split; [by etrans|]. split_and!; try done.
  intros k. cbn [CjsonDecode.object_loop ttype]. rewrite decide_True by done.
  rewrite (push_text j1 s0) by done. cbn [obind]. rewrite Hn2. cbn [obind ttype].
  rewrite decide_True by done. rewrite Hn3. cbn [obind]. rewrite Hproc. cbn [obind]. by rewrite Htab.
Qed.

Lemma object_text F process k s0 x l j0 j1 tok h t l0 rest :
  Forall (fun kv => parses F process kv.2) ((s0, x) :: l) → next j0 = Done (j1, tok) →
  at_text j0 (member (s0, pr x) ++ items true (member_text <$> l) ++ 125 :: rest) →
  rest ≠ [] → cfg j0 = c →
  Forall (fun kv => bytes_ok kv.1) ((s0, x) :: l) → NoDup (l0 ++ (s0, x) :: l).*1 →
  Forall (fun kv => current_depth j0 + depth kv.2 ≤ decode_max_depth c) ((s0, x) :: l) →
  (length (member (s0, pr x) ++ items true (member_text <$> l)) ≤ F)%nat →
  (length (member (s0, pr x) ++ items true (member_text <$> l)) < k)%nat →
  (t < length h)%nat → named (means (reread prec) h (S t)) (table h t) l0 →
  ∃ j' h', object_loop 46 46 process k j1 h t tok =
      Done (Table t, (json_decode_ascend j', h')) ∧ at_text j' rest ∧ later j0 j' ∧
    same_below t h h' ∧ (t < length h')%nat ∧
    named (means (reread prec) h' (S t)) (table h' t) (l0 ++ (s0, x) :: l).
Proof.
  revert k s0 x j0 j1 tok h l0. induction l as [|[s1 y] l IH];
    intros k s0 x j0 j1 tok h l0 Hp Hnext Hat Hne Hc Hb Hnd Hdep HF Hk Ht Hl;
    apply Forall_cons in Hp as [Hx Hp]; apply Forall_cons in Hdep as [Hdx Hdep];
    apply Forall_cons in Hb as [Hb0 Hb]; cbn [fst snd] in *;
    rewrite length_app in HF, Hk;
    assert (length (pr x) ≤ length (member (s0, pr x)))%nat as Hxl
      by (unfold member; rewrite !length_app; cbn [snd]; lia);
    (destruct k as [|k]; [lia|]);
    (assert (s0 ∉ l0.*1) as Hfresh by (rewrite fmap_app, fmap_cons in Hnd; cbn in Hnd;
      apply NoDup_app in Hnd as (_ & Hnd & _); intros ?; eapply Hnd; [done|apply list_elem_of_here]));
    (destruct (object_member F process s0 x j0 j1 tok h t l0 _ Hx Hnext Hat) as
      (j2 & h2 & Hat2 & Hl2 & Hsb & Ht2 & Hlist & ->);
      [by apply items_delimiter; auto|done|done|done|done|lia|done|done|]);
    cbn [fmap list_fmap items app] in *.
  - destruct (next_single s j2 125 T_OBJ_END rest Hat2 Hne eq_refl) as [(index & ->) [Hat5 Hl5]].
    { apply (bool_decide_unpack _). by vm_compute. }
    cbn [obind ttype]. eexists _, h2. split; [done|]. split; [done|]. split; [by etrans|done].
  - rewrite <- app_assoc in Hat2. apply Forall_cons in Hb as [Hb1 Hb].
    destruct (next_single s j2 44 T_COMMA _ Hat2 ltac:(done) eq_refl) as [(index & ->) [Hat5 Hl5]].
    { apply (bool_decide_unpack _). by vm_compute. }
    cbn [obind ttype]. set (j3 := advance 1 j2) in *. assert (later j0 j3) as Hl03 by (by etrans).
    assert (cfg j3 = c) as Hc3 by (by rewrite (l_cfg _ _ Hl03)).
    assert (current_depth j3 = current_depth j0) as Hd3 by apply Hl03.
    pose proof Hat5 as Hat5'. unfold member in Hat5' at 1. cbn [fst snd] in Hat5'.
    rewrite <- !app_assoc in Hat5'.
    destruct (next_string s j3 s1 _ Hat5') as (j6 & [(ix6 & Hn6) _] & _); [done..|].
    rewrite Hn6. cbn [obind length] in *. rewrite length_app in HF, Hk.
    destruct (IH k s1 y j3 j6 (Token T_STRING ix6 (Vtmp (len s1))) h2 (l0 ++ [(s0, x)]))
      as (j' & h' & Heq & Hat' & Hl' & Hsb' & Ht' & Hlist');
      try done; try (rewrite ?length_app; cbn [fst snd] in *; lia);
      [by constructor|by rewrite <- app_assoc|by rewrite Hd3|].
    exists j', h'. split; [exact Heq|]. split; [done|]. split; [by etrans|].
    split; [by eapply same_below_trans|]. split; [done|]. by rewrite <- app_assoc in Hlist'.
Qed.

(** ** Containers and values *)
Lemma descend_text j rest :
  at_text j rest → cfg j = c → current_depth j < ptr j → current_depth j + 1 ≤ decode_max_depth c →
  let j' := set_depth (current_depth j + 1) j in
  json_decode_descend checkstack j = Done j' ∧ at_text j' rest.
Proof.
  intros [[] Hd] Hc Hlt Hle j'. split.
  - unfold json_decode_descend. rewrite int_ok by (unfold INT_MAX in *; lia). cbn [obind].
    change (cfg (set_depth (current_depth j + 1) j)) with (cfg j).
    by rewrite Hc, (proj2 (Z.leb_le _ _)), Hstack by done.
  - split; [|exact Hd]. constructor; cbn; done || lia.
Qed.

Lemma ascend_text j0 j rest :
  at_text j rest → 0 ≤ current_depth j0 → later (set_depth (current_depth j0 + 1) j0) j →
  at_text (json_decode_ascend j) rest ∧ later j0 (json_decode_ascend j).
Proof.
  intros [[] Hd] H0 []. cbn in *. split; [split; [|exact Hd]|]; constructor; cbn; done || lia.
Qed.

(** A new table, and what is known when it is full. *)
Lemma same_below_new h h' :
  same_below (length h) (h ++ [[]]) h' → same_below (length h) h h'.
Proof.
  apply same_below_trans. split; [rewrite length_app; lia|]. intros t Ht. by rewrite lookup_app_l.
Qed.

Lemma depth_elems {A} (f : A → Z) d m (l : list A) :
  d + (1 + max_list_Z (f <$> l)) ≤ m → Forall (fun y => d + 1 + f y ≤ m) l.
Proof.
  intros H. apply Forall_forall. intros y Hy.
  pose proof (max_list_Z_elem (f y) (f <$> l) (list_elem_of_fmap_2 _ _ _ Hy)). lia.
Qed.

Lemma readable_arr l : readable (JArr l) → Forall readable l.
Proof. cbn [readable]. induction l as [|x l IH]; [done|]. intros [? ?]. constructor; auto. Qed.

Lemma readable_obj kvs :
  readable (JObj kvs) → NoDup kvs.*1 ∧ Forall (fun kv => bytes_ok kv.1 ∧ readable kv.2) kvs.
Proof.
  cbn [readable]. intros [Hn H]. split; [done|]. clear Hn.
  induction kvs as [|x l IH]; [done|]. destruct H. constructor; auto.
Qed.

Lemma new_table h : (length h < length (h ++ [[]]))%nat ∧ table (h ++ [[]]) (length h) = [].
Proof.
  split; [rewrite length_app; cbn [length]; lia|].
  unfold table. by rewrite list_lookup_total_alt, list_lookup_middle.
Qed.

(** The array between its brackets. *)
Lemma array_context_text fuel process l j0 h rest :
  Forall (parses fuel process) l → at_text j0 (items false (pr <$> l) ++ 93 :: rest) → rest ≠ [] →
  cfg j0 = c → current_depth j0 < ptr j0 → current_depth j0 + depth (JArr l) ≤ decode_max_depth c →
  (length (items false (pr <$> l)) < fuel)%nat →
  ∃ v j' h', json_parse_array_context checkstack 46 46 process fuel j0 h = Done (v, (j', h')) ∧
    at_text j' rest ∧ later j0 j' ∧ same_below (length h) h h' ∧ means (reread prec) h' (length h) (JArr l) v.
Proof.
  intros Hp Hat Hne Hc Hlt Hdep Hf. cbn [depth] in Hdep. pose proof (depth_elems _ _ _ _ Hdep) as Hels.
  pose proof (max_list_Z_nonneg (depth <$> l)).
  destruct (descend_text j0 _ Hat Hc Hlt) as [Hdesc Hat1]; [lia|].
  pose proof (i_depth _ _ (proj1 Hat)) as [H0 _].
  unfold json_parse_array_context. rewrite Hdesc. cbn [obind lua_newtable].
  set (j1 := set_depth (current_depth j0 + 1) j0) in *.
  destruct (new_table h) as [Hlen Htab]. set (h1 := h ++ [[]]) in *.
  destruct l as [|x l]; cbn [fmap list_fmap items app] in *.
  - destruct (next_single s j1 93 T_ARR_END rest Hat1 Hne eq_refl) as [(index & ->) [Hat2 Hl2]].
    { apply (bool_decide_unpack _). by vm_compute. }
    cbn [obind ttype]. rewrite decide_True by done.
    destruct (ascend_text j0 (advance 1 j1) rest) as [Hat3 Hl3]; [done..|].
    eexists _, _, h1. split; [done|]. split; [done|]. split; [done|].
    split; [apply same_below_new; by split|]. exists (length h). rewrite Htab. split_and!; [done|lia|done|done].
  - rewrite <- app_assoc in Hat1. pose proof Hp as [Hx _]%Forall_cons.
    pose proof Hels as [Hdx _]%Forall_cons. rewrite length_app in Hf.
    destruct (Hx j1 h1 _ Hat1) as (j2 & tok & _ & _ & _ & Hn & Htok & _); try done; [|lia|].
    { by apply items_delimiter; auto. }
    rewrite Hn. cbn [obind]. rewrite decide_False by done.
    destruct (array_text fuel process fuel x l j1 j2 tok h1 (length h) [] rest)
      as (j' & h' & Heq & Hat' & Hl' & Hsb & Ht & Hlist); try done.
    { rewrite length_app. lia. }
    { rewrite length_app. lia. }
    { by rewrite Htab. }
    { cbn. lia. }
    cbn [app length] in *. change (1 + Z.of_nat 0) with 1 in Heq. rewrite Heq.
    destruct (ascend_text j0 j' rest) as [Hat3 Hl3]; [done..|].
    eexists _, _, h'. split; [done|]. split; [done|]. split; [done|].
    split; [by apply same_below_new|]. exists (length h). split_and!; [done|lia|done|].
    eapply listed_mono; [|exact Hlist]. intros y v Hy. eapply means_mono; [exact Hy|by split|lia].
Qed.

Lemma object_context_text fuel process l j0 h rest :
  Forall (fun kv => parses fuel process kv.2) l → Forall (fun kv => bytes_ok kv.1) l → NoDup l.*1 →
  at_text j0 (items false (member_text <$> l) ++ 125 :: rest) → rest ≠ [] →
  cfg j0 = c → current_depth j0 < ptr j0 → current_depth j0 + depth (JObj l) ≤ decode_max_depth c →
  (length (items false (member_text <$> l)) < fuel)%nat →
  ∃ v j' h', json_parse_object_context checkstack 46 46 process fuel j0 h = Done (v, (j', h')) ∧
    at_text j' rest ∧ later j0 j' ∧ same_below (length h) h h' ∧ means (reread prec) h' (length h) (JObj l) v.
Proof.
  intros Hp Hb Hnd Hat Hne Hc Hlt Hdep Hf. cbn [depth] in Hdep.
  pose proof (depth_elems (fun kv : list Z * json => depth kv.2) _ _ _ Hdep) as Hels.
  pose proof (max_list_Z_nonneg ((fun kv : list Z * json => depth kv.2) <$> l)).
  destruct (descend_text j0 _ Hat Hc Hlt) as [Hdesc Hat1]; [lia|].
  pose proof (i_depth _ _ (proj1 Hat)) as [H0 _].
  unfold json_parse_object_context. rewrite Hdesc. cbn [obind lua_newtable].
  set (j1 := set_depth (current_depth j0 + 1) j0) in *.
  destruct (new_table h) as [Hlen Htab]. set (h1 := h ++ [[]]) in *.
  destruct l as [|[s0 x] l]; cbn [fmap list_fmap items app] in *.
  - destruct (next_single s j1 125 T_OBJ_END rest Hat1 Hne eq_refl) as [(index & ->) [Hat2 Hl2]].
    { apply (bool_decide_unpack _). by vm_compute. }
    cbn [obind ttype]. rewrite decide_True by done.
    destruct (ascend_text j0 (advance 1 j1) rest) as [Hat3 Hl3]; [done..|].
    eexists _, _, h1. split; [done|]. split; [done|]. split; [done|].
    split; [apply same_below_new; by split|]. exists (length h). rewrite Htab. split_and!; [done|lia|done|done].
  - rewrite <- app_assoc in Hat1. pose proof Hb as [Hb0 _]%Forall_cons.
    pose proof Hat1 as Hat1'. unfold member in Hat1' at 1. cbn [fst snd] in *.
    rewrite <- !app_assoc in Hat1'.
    destruct (next_string s j1 s0 _ Hat1') as (j2 & [(ix & Hn) _] & _); [done..|].
    rewrite Hn. cbn [obind ttype]. rewrite decide_False by done.
    destruct (object_text fuel process fuel s0 x l j1 j2 (Token T_STRING ix (Vtmp (len s0))) h1 (length h) [] rest)
      as (j' & h' & Heq & Hat' & Hl' & Hsb & Ht & Hlist); try done.
    { lia. }
    { by rewrite Htab. }
    rewrite Heq. cbn [app] in Hlist.
    destruct (ascend_text j0 j' rest) as [Hat3 Hl3]; [done..|].
    eexists _, _, h'. split; [done|]. split; [done|]. split; [done|].
    split; [by apply same_below_new|]. exists (length h). split_and!; [done|lia|done|].
    eapply named_mono; [|exact Hlist]. intros y v Hy. eapply means_mono; [exact Hy|by split|lia].
Qed.

Lemma number_text_ne dp t : number_text dp t → t ≠ [].
Proof.
  intros [(sgn & ds & frac & ex & -> & _ & (_ & Hne & _) & _)].
  destruct sgn; [|done]. by destruct ds.
Qed.

Lemma print_length x : readable x → (0 < length (pr x))%nat.
Proof.
  destruct x as [|[]|z|str|l|l]; intros Hx; cbn; try lia.
  pose proof (number_text_ne _ _ (printf_g_text 46 prec z Hprec Hx)).
  destruct (printf_g 46 prec z); cbn; [done|lia].
Qed.

Lemma value_text x fuel : readable x → parses fuel (json_process_value checkstack 46 46 fuel) x.
Proof.
  revert fuel. induction x as [|b|z|str|l IH|l IH] using json_rect';
    intros fuel Hx j0 h rest Hat Hrest Hc Hdep Hlen;
    pose proof (delimiter_ne _ Hrest) as Hne; pose proof (print_length _ Hx);
    (destruct fuel as [|fuel]; [lia|]).
  - destruct (next_word s j0 (lit "null") T_NULL Vnone rest Hat Hne) as [[ix ->] [Hat' Hl]].
    { rewrite !elem_of_cons. auto. }
    eexists _, _, _, _, h. split; [done|]. split; [done|]. split; [done|]. split; [exact Hat'|]. by do 2 (split; [done|]).
  - destruct (next_word s j0 (if b then lit "true" else lit "false") T_BOOLEAN (Vboolean b) rest) as [[ix ->] [Hat' Hl]].
    { by destruct b. }
    { done. }
    { destruct b; rewrite !elem_of_cons; auto. }
    eexists _, _, _, _, h. split; [done|]. split; [done|]. split; [done|]. split; [exact Hat'|]. by do 2 (split; [done|]).
  - cbn [print readable] in *. pose proof (printf_g_text 46 prec z Hprec Hx) as Ht.
    destruct (next_number s j0 _ rest (reread prec z) Hat Ht Hrest) as [[ix ->] [Hat' Hl]].
    { intros r Hr. by apply reread_spec. }
    eexists _, _, _, _, h. split; [done|]. split; [done|]. split; [done|]. split; [exact Hat'|]. by do 2 (split; [done|]).
  - destruct (next_string s j0 str rest Hat Hne Hx) as (j1 & [[ix ->] [Hat' Hl]] & Hs).
    eexists _, _, _, _, h. split; [done|]. split; [done|]. cbn [json_process_value ttype tvalue].
    rewrite (push_text j1 str) by done. split; [done|]. split; [exact Hat'|]. by do 2 (split; [done|]).
  - cbn [print app length] in *. rewrite length_app in Hlen. cbn [length] in Hlen.
    rewrite <- app_assoc in Hat. cbn [app] in Hat.
    destruct (next_single s j0 91 T_ARR_BEGIN _ Hat) as [(ix & ->) [Hat1 Hl1]];
      [by destruct (items _ _)|done|by apply (bool_decide_unpack _); vm_compute|].
    destruct (array_context_text fuel (json_process_value checkstack 46 46 fuel) l (advance 1 j0) h rest)
      as (v & j' & h' & Heq & Hat' & Hl' & Hsb & Hm);
      try done; [|pose proof (i_depth _ _ (proj1 Hat)); cbn; lia|lia|].
    { apply readable_arr in Hx. rewrite Forall_forall in *. auto. }
    eexists _, _, v, j', h'. split; [done|]. split; [done|]. split; [exact Heq|]. split; [done|]. split; [by etrans|done].
  - cbn [print app length] in *. rewrite length_app in Hlen. cbn [length] in Hlen.
    rewrite <- app_assoc in Hat. cbn [app] in Hat. apply readable_obj in Hx as [Hnd Hx].
    destruct (next_single s j0 123 T_OBJ_BEGIN _ Hat) as [(ix & ->) [Hat1 Hl1]];
      [by destruct (items _ _)|done|by apply (bool_decide_unpack _); vm_compute|].
    destruct (object_context_text fuel (json_process_value checkstack 46 46 fuel) l (advance 1 j0) h rest)
      as (v & j' & h' & Heq & Hat' & Hl' & Hsb & Hm);
      try done; [| |pose proof (i_depth _ _ (proj1 Hat)); cbn; lia|lia|].
    { rewrite Forall_forall in *. intros kv Hkv. apply IH; [done|]. by apply Hx. }
    { rewrite Forall_forall in *. intros kv Hkv. by apply Hx. }
    eexists _, _, v, j', h'. split; [done|]. split; [done|]. split; [exact Heq|]. split; [done|]. split; [by etrans|done].
Qed.
End parser.

(** ** The whole text *)
Abbreviation no_nul := (Forall (fun x => x ≠ 0)).

Lemma escape_no_nul str : bytes_ok str → no_nul (escape str).
Proof.
  induction 1 as [|x str Hx Hs IH]; [done|]. rewrite escape_cons. apply Forall_app. split; [|done].
  destruct (char2escape x) as [e|] eqn:He; cbn [default from_option id].
  - by destruct (char2escape_spec x e He Hx).
  - constructor; [|done]. by apply plain_char.
Qed.

Lemma number_no_nul t : number_text 46 t → no_nul t.
Proof.
  intros [(sgn & ds & frac & ex & -> & Hsgn & (Hds & _) & Hfrac & Hex)].
  assert (∀ l, digits_ok l → no_nul l) as Hd by (intros l Hl; eapply Forall_impl; [exact Hl|]; cbn; lia).
  rewrite !Forall_app. split_and!.
  - destruct Hsgn as [->| ->]; by repeat constructor.
  - auto.
  - destruct Hfrac as [->|(fs & -> & _ & Hfs)]; [done|]. constructor; auto.
  - destruct Hex as [->|(c & es & -> & Hc & _ & Hes)]; [done|].
    constructor; [done|]. constructor; [lia|auto].
Qed.

Lemma items_no_nul b l : Forall no_nul l → no_nul (items b l).
Proof.
  intros Hl. revert b. induction Hl as [|x l Hx Hl IH]; intros b; [done|]. cbn [items].
  rewrite !Forall_app. split_and!; [|done|done]. by destruct b; repeat constructor.
Qed.

Lemma quote_no_nul str : bytes_ok str → no_nul (quote str).
Proof.
  intros Hs. unfold quote. rewrite !Forall_app. pose proof (escape_no_nul _ Hs).
  split_and!; [by repeat constructor|done|by repeat constructor].
Qed.

Lemma print_no_nul prec x : 1 ≤ prec → readable x → no_nul (print prec x).
Proof.
  intros Hprec. induction x as [|b|z|str|l IH|l IH] using json_rect'; intros Hx; cbn [print].
  - by repeat constructor.
  - by destruct b; repeat constructor.
  - by apply number_no_nul, printf_g_text.
  - by apply quote_no_nul.
  - apply readable_arr in Hx. rewrite !Forall_app. split_and!; try by repeat constructor.
    apply items_no_nul, Forall_fmap. rewrite Forall_forall in *. intros y Hy. by apply IH, Hx.
  - apply readable_obj in Hx as [_ Hx]. rewrite !Forall_app. split_and!; try by repeat constructor.
    apply items_no_nul, Forall_fmap. rewrite Forall_forall in *. intros y Hy. destruct (Hx y Hy).
    unfold member. cbn [fst snd compose]. rewrite !Forall_app.
    split_and!; [by apply quote_no_nul|by repeat constructor|by apply IH].
Qed.

Lemma decode_ok checkstack c prec h x :
  1 ≤ prec → readable x → depth x ≤ decode_max_depth c →
  (∀ d, d ≤ decode_max_depth c → checkstack d = true) → len (print prec x) < INT_MAX →
  ∃ v h', json_decode checkstack 46 46 c h (print prec x) = Done (inl (v, h')) ∧
    means (reread prec) h' (length h) x v ∧ same_below (length h) h h'.
Proof.
  intros Hprec Hx Hdep Hstack Hlen. set (s := print prec x) in *.
  pose proof (print_no_nul prec x Hprec Hx : no_nul s) as Hnul.
  unfold json_decode.
  assert ((2 <=? len s) && (bool_decide ((s ++ [0]) !! 0%nat = Some 0) || bool_decide ((s ++ [0]) !! 1%nat = Some 0))
    = false) as ->.
  { destruct (Z.leb_spec 2 (len s)); [|done]. cbn [andb].
    assert (∀ n, (n < 2)%nat → bool_decide ((s ++ [0]) !! n = Some 0) = false) as Hn.
    { intros n Hn. apply bool_decide_eq_false_2. rewrite lookup_app_l by lia. intros H0.
      by eapply Forall_lookup_1 in Hnul. }
    by rewrite !Hn by lia. }
  unfold INT_MAX in *. rewrite swrap_small by (try lia; change (2 ^ (32 - 1)) with 2147483648; lia).
  destruct (new_ok (E:=Empty_set) (len s)) as (t & -> & Ht & _ & _ & Hsz); [unfold INT_MAX; lia|].
  cbn [obind]. set (j0 := Parse (s ++ [0]) 0 t c 0).
  assert (at_text s j0 (s ++ [0])) as Hat0.
  { split; [|done]. constructor; cbn; try done; try lia. by eexists. }
  destruct (value_text s c checkstack prec Hprec Hlen Hstack x (S (length (s ++ [0]))) Hx j0 h [0] Hat0)
    as (j1 & tok & v & j2 & h2 & -> & _ & Heq & Hat2 & _ & Hsb & Hm); try done.
  { by left. }
  { rewrite length_app. cbn [length]. subst s. lia. }
  destruct (next_end s j2 Hat2) as [ix Hend].
  exists v, h2. cbn [obind]. rewrite Heq. cbn [obind]. rewrite Hend. done.
Qed.


(** ** The claims *)
Fixpoint numbers (P : double → Prop) (j : json) : Prop :=
  match j with
  | JNum x => P x
  | JArr l => foldr (fun j Q => numbers P j ∧ Q) True l
  | JObj kvs => foldr (fun kv Q => numbers P kv.2 ∧ Q) True kvs
  | _ => True
  end.

Lemma means_ext f g h n j v : numbers (fun x => f x = g x) j → means f h n j v → means g h n j v.
Proof.
  revert v. induction j as [| | | |l IH|kvs IH] using json_rect'; intros v; try done.
  - cbn. by intros ->.
  - intros Hx (t & -> & Ht & Hl). exists t. split; [done|]. split; [done|]. clear Ht. cbn [numbers] in Hx.
    generalize dependent 1. generalize dependent (table h t).
    induction IH as [|j l Hj IH IHl]; intros es i Hl; [done|].
    destruct es as [|[k v] es]; [done|]. destruct Hl as (-> & Hv & Hl), Hx.
    split; [done|]. split; [by apply Hj|by apply IHl].
  - intros Hx (t & -> & Ht & Hl). exists t. split; [done|]. split; [done|]. clear Ht. cbn [numbers] in Hx.
    generalize dependent (table h t).
    induction IH as [|[s j] l Hj IH IHl]; intros es Hl; [done|].
    destruct es as [|[k v] es]; [done|]. destruct Hl as (-> & Hv & Hl), Hx.
    split; [done|]. split; [by apply Hj|by apply IHl].
Qed.

Lemma numbers_impl (P Q : double → Prop) j : (∀ x, P x → Q x) → numbers P j → numbers Q j.
Proof.
  intros H. induction j as [| | | |l IH|kvs IH] using json_rect'; cbn [numbers]; try done; try by auto.
  - induction IH; [done|]. intros []. split; auto.
  - induction IH; [done|]. intros []. split; auto.
Qed.

(** The integers a printed number of [P] digits is exact for. *)
Definition short_integer (P : Z) (x : double) : Prop := ∃ z, x = of_Z z ∧ Z.abs z < 10 ^ P.

(** C19: [json_decode] of the text of a document, in the form [json_encode] writes
    it, returns that document: every table new and filled in order, the strings
    unescaped, the numbers as [strtod] reads their digits, the tables that were
    there before untouched; the nesting is within the limit of the decoder. *)
Theorem decode_text checkstack c prec h x :
  1 ≤ prec → readable x → depth x ≤ decode_max_depth c →
  (∀ d, d ≤ decode_max_depth c → checkstack d = true) → len (print prec x) < INT_MAX →
  ∃ v h', json_decode checkstack 46 46 c h (print prec x) = Done (inl (v, h')) ∧
    means (reread prec) h' (length h) x v ∧ same_below (length h) h h'.
Proof. apply decode_ok. Qed.

(** C5: decoding what [json_encode] wrote gives back the document that was encoded,
    with the same configuration for both: for a value that denotes a document
    with distinct names and with integers of at most as many digits as the
    configured precision, the decoded value has the same structure, strings and
    numbers. *)
Theorem json_roundtrip checkstack c h h0 x v :
  1 ≤ encode_number_precision c ≤ 14 → encode_max_depth c ≤ INT_MAX →
  (∀ d, d ≤ encode_max_depth c ∨ d ≤ decode_max_depth c → checkstack d = true) →
  buffer_ok c → denotes c h x v → readable x → cost x ≤ ENCODE_ROOM →
  depth x ≤ encode_max_depth c → depth x ≤ decode_max_depth c →
  numbers (short_integer (encode_number_precision c)) x →
  ∃ c' text v' h', json_encode checkstack 46 46 c h v = Done (c', inl text) ∧
    json_decode checkstack 46 46 c' h0 text = Done (inl (v', h')) ∧
    means Datatypes.id h' (length h0) x v'.
Proof.
  intros Hprec Hmax Hstack Hbuf Hv Hx Hcost Hde Hdd Hnum.
  destruct (encode_ok checkstack 46 c h x v) as (s & Henc & Hbuf' & Hs); try done; [auto|].
  assert (decode_max_depth (leave c s) = decode_max_depth c) as Hd by (unfold leave; by destruct (_ =? 0)).
  assert (len (print (encode_number_precision c) x) < INT_MAX) as Hlen by (destruct Hs; lia).
  destruct (decode_ok checkstack (leave c s) (encode_number_precision c) h0 x) as (v' & h' & Hdec & Hm & _); try done;
    [lia|by rewrite Hd|rewrite Hd; auto|].
  eexists (leave c s), _, v', h'. split; [exact Henc|]. split; [done|].
  eapply means_ext; [|exact Hm]. eapply numbers_impl; [|exact Hnum].
  intros y (z & -> & Hz). apply reread_integer; [lia|done].
Qed.

Lemma demo_readable x : finite x = true → readable (demo_json_of x).
Proof.
  intros Hx. split; [apply (bool_decide_unpack _); vm_compute; exact I|].
  split; [|split; [split; [apply (bool_decide_unpack _); vm_compute; exact I|done]|done]].
  split; [apply (bool_decide_unpack _); vm_compute; exact I|].
  split; [done|]. split; [apply (bool_decide_unpack _); vm_compute; exact I|done].
Qed.

Lemma decode_text_witness :
  ∃ v h', json_decode (fun _ => true) 46 46 demo_config [[]] (print 14 demo_json) = Done (inl (v, h')) ∧
    means (reread 14) h' 1 demo_json v ∧ same_below 1 [[]] h'.
Proof.
  apply (decode_text (fun _ => true) demo_config 14 [[]] demo_json).
  - done.
  - by apply demo_readable.
  - vm_compute. congruence.
  - done.
  - vm_compute. reflexivity.
Defined.

Lemma json_roundtrip_witness :
  ∃ c' text v' h', json_encode (fun _ => true) 46 46 demo_config (demo_heap_of (of_Z (-150))) (Table 0)
      = Done (c', inl text) ∧
    json_decode (fun _ => true) 46 46 c' [] text = Done (inl (v', h')) ∧
    means Datatypes.id h' 0 (demo_json_of (of_Z (-150))) v'.
Proof.
  apply (json_roundtrip (fun _ => true) demo_config (demo_heap_of (of_Z (-150))) [] (demo_json_of (of_Z (-150))) (Table 0)).
  - vm_compute. split; congruence.
  - vm_compute. congruence.
  - done.
  - apply demo_buffer_ok.
  - apply demo_denotes; vm_compute; reflexivity.
  - by apply demo_readable.
  - vm_compute. congruence.
  - vm_compute. congruence.
  - vm_compute. congruence.
  - split; [|done]. split; [|done]. exists (-150). split; [done|]. vm_compute. reflexivity.
Defined.
End CjsonRoundtrip.
