(* ===== verification/ClientSocket.v ===== *)
(** * lua-clientwebsocket.c: the socket functions

    The blocking websocket client. [sock] is the connection: the bytes the peer
    sends, in order, and [script], the results of the system calls to come; a
    call that has no result left is [Blocked]. Bytes given to [send] are the
    effects of an action. [time_out], the address and the file descriptor do not
    influence the other results and are left out. *)
From S2P Require Import Prelude Libc Frame.

Module ClientSocket.
Import Frame.

Definition CACHE_SIZE : Z := 4096.

Inductive errno_t := EAGAIN | EINTR | Eother (code : Z).

(** The result of a system call: how many bytes it may move, or what [select]
    returns; or -1 with an [errno]. *)
Inductive event := Ret (n : Z) | Err (e : errno_t).
Record sock := Sock { script : list event; incoming : list Z; errno : errno_t }.
Inductive failure := LuaError (msg : list Z) | Blocked.

Abbreviation act A := (M sock Z failure A).
(** A byte of a local array; [None] before it is written. *)
Abbreviation cell := (option Z).

Definition throw {A} (e : failure) : act A := fun _ => Raise e.
Definition transmit (bs : list Z) : act unit := fun s => Done (tt, s, bs).
(** The loops below make a system call in every round. *)
Definition with_fuel {A} (f : nat → act A) : act A := fun s => f (S (length (script s))) s.

Definition array (n : Z) : list cell := replicate (Z.to_nat n) None.
Definition rdc {E} (l : list cell) (i : Z) : outcome E Z :=
  let! c := rd l i in match c with Some b => Done b | None => Fault Uninitialised end.
Definition rdcs {E} (l : list cell) (n : Z) : outcome E (list Z) :=
  let! l := rdn l n in
  if decide (Forall is_Some l) then Done (omap Datatypes.id l) else Fault Uninitialised.

Definition syscall : act event := fun s =>
  match script s with
  | [] => Raise Blocked
  | e :: es =>
      Done (e, Sock es (incoming s) (match e with Err x => x | Ret _ => errno s end), [])
  end.

(** [send(fd, buffer, sz, 0)]: the kernel takes some of the bytes. *)
Definition send_ (buffer : list cell) (sz : Z) : act Z :=
  let* e := syscall in
  match e with
  | Err _ => ret (-1)
  | Ret n =>
      let r := Z.max 0 (Z.min n sz) in
      let* bs := lift (rdcs buffer r) in
      transmit bs ;; ret r
  end.

(** [recv(fd, buffer + off, sz, 0)]: 0 when the peer has closed. *)
Definition recv_ (buffer : list cell) (off sz : Z) : act (Z * list cell) :=
  let* e := syscall in
  match e with
  | Err _ => ret (-1, buffer)
  | Ret n =>
      let* s := get in
      let r := Z.max 0 (Z.min n (Z.min sz (len (incoming s)))) in
      let* buffer := lift (memcpy buffer off (Some <$> take (Z.to_nat r) (incoming s))) in
      put (Sock (script s) (drop (Z.to_nat r) (incoming s)) (errno s)) ;;
      ret (r, buffer)
  end.

Definition select_ : act Z :=
  let* e := syscall in ret (match e with Err _ => -1 | Ret n => n end).

(** [errno == EAGAIN || errno == EINTR] *)
Definition again : act bool :=
  let* s := get in ret (match errno s with Eother _ => false | _ => true end).

(** ** The handshake *)
(** This copy of the search has no guard against a short haystack: the number of
    positions wraps around. *)
Fixpoint strnpos_loop (haystack : list cell) (i n : Z) (needle : list Z) : outcome failure Z :=
  if i <? n then
    match haystack with
    | [] => Fault OutOfBounds
    | _ :: haystack' =>
        let! h0 := rdc haystack 0 in
        let! n0 := rd needle 0 in
        let! equal :=
          (if h0 =? n0 then
             let! h := rdcs haystack (len needle) in
             Done (memcmp (length needle) h needle =? 0)
           else Done false) in
        if equal : bool then Done i else strnpos_loop haystack' (i + 1) n needle
    end
  else Done (-1).

Definition websocket_strnpos (haystack : list cell) (haystack_length : Z) (needle : list Z)
    (needle_length : Z) : outcome failure Z :=
  if needle_length <=? 0 then Done (-1)
  else
    strnpos_loop haystack 0 (u32 (i32 (u32 (haystack_length - needle_length + 1)))) needle.

Definition get_http_header (buffer : list cell) (size : Z) : outcome failure Z :=
  let! n := websocket_strnpos buffer (u32 size) [13; 10; 13; 10] 4 in
  if n <? 0 then Done n else Done (n + 4).

(** The [while (1)] of [recv_websocket_header_response]. *)
Fixpoint response_loop (fuel : nat) (buffer : list cell) (read_size is_read_allheader : Z) : act Z :=
  match fuel with
  | O => lift NoFuel
  | S fuel' =>
      let* (r, buffer) := recv_ buffer read_size CACHE_SIZE in
      if r =? 0 then ret (-1)
      else if r <? 0 then
        let* a := again in
        if a : bool then
          if 0 <? is_read_allheader then ret 0
          else response_loop fuel' buffer read_size is_read_allheader
        else ret (-1)
      else
        let read_size := read_size + r in
        let* is_read_allheader := lift (get_http_header buffer read_size) in
        if 0 <? is_read_allheader then ret 0
        else response_loop fuel' buffer read_size is_read_allheader
  end.

Definition recv_websocket_header_response : act Z :=
  with_fuel (fun fuel => response_loop fuel (array CACHE_SIZE) 0 (-1)).

Fixpoint send_loop (fuel : nat) (buffer : list cell) (sz : Z) : act Z :=
  match fuel with
  | O => lift NoFuel
  | S fuel' =>
      if 0 <? sz then
        let* r := send_ buffer sz in
        if r <? 0 then
          let* a := again in
          if a : bool then send_loop fuel' buffer sz else ret (-1)
        else send_loop fuel' (drop (Z.to_nat r) buffer) (sz - r)
      else ret 0
  end.

Definition common_block_send (buffer : list cell) (sz : Z) : act Z :=
  with_fuel (fun fuel => send_loop fuel buffer sz).

(** [WEBSOCKET_CLIENT_HEADER(addr, port)]: [#ip] and [#port] are the texts of the
    arguments. *)
Definition WEBSOCKET_CLIENT_HEADER : list Z :=
  let crlf := [13; 10] in
  lit "GET / HTTP/1.1" ++ crlf ++ lit "Origin:" ++ crlf ++ lit "Host: addr:port" ++ crlf ++
  lit "Sec-WebSocket-Key: Vld9DdQJkJTVKdwRExlMA==" ++ crlf ++
  lit "User-Agent: LuaWebSocketClient/1.0" ++ crlf ++ lit "Upgrade: Websocket" ++ crlf ++
  lit "Connection: Upgrade" ++ crlf ++ lit "Sec-WebSocket-Protocol: wamp" ++ crlf ++
  lit "Sec-WebSocket-Version: 13" ++ crlf ++ crlf.

(** The results of [socket] and [connect] come first in the script. *)
Definition lconnect (addr : list Z) (port : Z) : act Z :=
  let* fd := select_ in
  let* r := select_ in
  let who := lit "Connect " ++ addr ++ lit " " ++ fmt_d port in
  if r =? -1 then throw (LuaError (who ++ lit " failed"))
  else
    let* r := common_block_send (Some <$> WEBSOCKET_CLIENT_HEADER) (len WEBSOCKET_CLIENT_HEADER) in
    if r <? 0 then throw (LuaError (who ++ lit " send websocket data failed"))
    else
      let* r := recv_websocket_header_response in
      if r <? 0 then throw (LuaError (who ++ lit " websocket handleshake failed"))
      else ret fd.

(** ** Sending *)
Definition FRAME_SET_LENGTH (x idx : Z) : Z := u8 (Z.land (Z.shiftr x (idx * 8)) 255).

(** [frame_header] of a message of [sz] bytes. *)
Definition block_header (sz : Z) : list Z :=
  [u8 (Z.lor (FRAME_SET_FIN 1) (FRAME_SET_OPCODE 4))] ++
  (if sz <? 126 then [u8 (Z.lor (FRAME_SET_MASK 0) (FRAME_SET_LENGTH sz 0))]
   else
     (if sz <? 65536 then [u8 (Z.lor (FRAME_SET_MASK 0) 126)]
      else u8 (Z.lor (FRAME_SET_MASK 0) 127) :: (FRAME_SET_LENGTH sz <$> [7; 6; 5; 4; 3; 2])) ++
     (FRAME_SET_LENGTH sz <$> [1; 0])).

Definition websocket_block_send (buffer : list Z) (sz : Z) : act unit :=
  let frame_header := block_header sz in
  let pos := len frame_header in
  let* cache := lift (memcpy (array CACHE_SIZE) 0 (Some <$> frame_header)) in
  let* data := lift (rdn buffer (u64 sz)) in
  let* cache := lift (memcpy cache pos (Some <$> data)) in
  let* _ := common_block_send cache (i32 (sz + pos)) in
  ret tt.

Definition lsend (msg : list Z) : act unit := websocket_block_send msg (i32 (len msg)).

(** ** Receiving *)
(** -3 an error, -2 a timeout, -1 closed, 0 all bytes read. The bytes of every
    [recv] go to the beginning of the buffer. *)
Fixpoint block_read_loop (fuel : nat) (buffer : list cell) (sz : Z) : act (Z * list cell) :=
  match fuel with
  | O => lift NoFuel
  | S fuel' =>
      if sz =? 0 then ret (0, buffer)
      else
        let* r := select_ in
        if r =? -1 then ret (-3, buffer)
        else if r =? 0 then ret (-2, buffer)
        else
          let* (r, buffer) := recv_ buffer 0 (u64 sz) in
          if r =? 0 then ret (-1, buffer)
          else if r <? 0 then
            let* a := again in
            if a : bool then block_read_loop fuel' buffer sz else ret (-3, buffer)
          else
            let* sz := lift (int (sz - r)) in
            block_read_loop fuel' buffer sz
  end.

Definition block_read (buffer : list cell) (sz : Z) : act (Z * list cell) :=
  with_fuel (fun fuel => block_read_loop fuel buffer sz).

(** What [lrecv] returns to Lua. *)
Inductive lua_value := Lstring (s : list Z) | Linteger (z : Z).

Section lrecv.
Context (strerror : errno_t → list Z).

(** [block_send], which [lsend] no longer calls. *)
Fixpoint block_send_loop (fuel : nat) (buffer : list cell) (sz : Z) : act unit :=
  match fuel with
  | O => lift NoFuel
  | S fuel' =>
      if 0 <? sz then
        let* r := send_ buffer sz in
        if r <? 0 then
          let* a := again in
          if a : bool then block_send_loop fuel' buffer sz
          else let* s := get in throw (LuaError (lit "socket error: " ++ strerror (errno s)))
        else block_send_loop fuel' (drop (Z.to_nat r) buffer) (sz - r)
      else ret tt
  end.

Definition block_send (buffer : list cell) (sz : Z) : act unit :=
  with_fuel (fun fuel => block_send_loop fuel buffer sz).

(** The three checks that follow every [block_read]. *)
Definition on_read (res : Z) (k : act (list lua_value)) : act (list lua_value) :=
  if res =? -3 then
    let* s := get in throw (LuaError (lit "socket error: " ++ strerror (errno s)))
  else if res =? -2 then ret [Lstring []; Linteger 1]
  else if res =? -1 then ret [Lstring []]
  else k.

Definition read_length (length : Z) (buffer : list cell)
    (k : Z → list cell → act (list lua_value)) : act (list lua_value) :=
  if length <? 126 then k length buffer
  else if 126 =? length then
    let* (res, buffer) := block_read buffer 2 in
    on_read res (let* v := lift (rdcs buffer 2) in k (ntohs (le_value v)) buffer)
  else
    let* (res, buffer) := block_read buffer 8 in
    on_read res (let* v := lift (rdcs buffer 8) in k (i32 (ntoh64 (le_value v))) buffer).

Definition read_mask (is_mask : Z) (masks : list cell)
    (k : list cell → act (list lua_value)) : act (list lua_value) :=
  if is_mask =? 0 then k masks
  else
    let* (res, masks) := block_read masks WEBSOCKET_MASK_LEN in
    on_read res (k masks).

(** [for (i = 0; i < data_len; i++) buffer[i] ^= masks[i % WEBSOCKET_MASK_LEN]] *)
Fixpoint unmask_loop (n : nat) (i : Z) (buffer masks : list cell) : outcome failure (list cell) :=
  match n with
  | O => Done buffer
  | S n' =>
      let! b := rdc buffer i in
      let! m := rdc masks (Z.rem i WEBSOCKET_MASK_LEN) in
      let! buffer := wr buffer i (Some (u8 (Z.lxor b m))) in
      unmask_loop n' (i + 1) buffer masks
  end.

Fixpoint lrecv_loop (fuel : nat) (buffer masks : list cell) : act (list lua_value) :=
  match fuel with
  | O => lift NoFuel
  | S fuel' =>
      let* (res, buffer) := block_read buffer WEBSOCKET_HEADER_LEN in
      on_read res (
        let* b0 := lift (rdc buffer 0) in
        let* b1 := lift (rdc buffer 1) in
        let rsv1 := Z.land (Z.shiftr b0 6) 1 in
        let rsv2 := Z.land (Z.shiftr b0 5) 1 in
        let rsv3 := Z.land (Z.shiftr b0 4) 1 in
        let is_mask := Z.land (Z.shiftr b1 7) 1 in
        if negb (0 =? rsv1) || negb (0 =? rsv2) || negb (0 =? rsv3)
        then lrecv_loop fuel' buffer masks
        else
          read_length (Z.land b1 127) buffer (fun data_len buffer =>
          read_mask is_mask masks (fun masks =>
            let* (res, buffer) := block_read buffer data_len in
            on_read res (
              let* buffer :=
                lift (if is_mask =? 0 then Done buffer
                      else unmask_loop (Z.to_nat data_len) 0 buffer masks) in
              let* data := lift (rdcs buffer data_len) in
              ret [Lstring data]))))
  end.

Definition lrecv : act (list lua_value) :=
  with_fuel (fun fuel => lrecv_loop fuel (array CACHE_SIZE) (array WEBSOCKET_MASK_LEN)).
End lrecv.
End ClientSocket.
