(* ===== verification/ClientStreams.v ===== *)
(** * The websocket client against the frames of the other end

    The sending side: [calm] system calls may fail with an error that is repeated,
    [supply] is what they can move. [lsend] then puts the frame of RFC 6455 for
    its message on the wire, and a sequence of calls the frames in order. *)
From S2P Require Import Prelude Libc Frame FrameSpec Netpack NetpackSpec NetpackFilter NetpackStreams ClientSocket NetpackHandshake.

Module ClientSocketSpec.
Import Frame Netpack ClientSocket.

(** ** Sending *)
Section sending.
Implicit Types (s : sock) (bs m : list Z) (es : list event).

(** A system call that can be repeated, and one that moves a byte. *)
Definition calm (e : event) : Prop := match e with Err (Eother _) => False | _ => True end.
Definition moves (e : event) : bool := match e with Ret n => 1 <=? n | Err _ => false end.
Definition supply es : Z := len (List.filter moves es).

Lemma supply_cons e es : supply (e :: es) = (if moves e then 1 else 0) + supply es.
Proof. unfold supply. cbn [List.filter]. destruct (moves e); cbn [length]; lia. Qed.

Lemma rdcs_written {E} (cells : list cell) bs :
  take (length bs) cells = Some <$> bs → rdcs (E:=E) cells (len bs) = Done bs.
Proof.
  intros Hc. assert (length bs ≤ length cells)%nat as Hlen.
  { pose proof (f_equal length Hc) as H. rewrite length_take, length_fmap in H. lia. }
  unfold rdcs. rewrite rdn_done by done. cbn [obind]. rewrite Hc.
  rewrite decide_True by (apply Forall_fmap, Forall_true; by intros x; exists x).
  by rewrite omap_id_Some.
Qed.

(** What is left of the supply after [n] bytes. *)
Definition sent (n : Z) s s' : Prop :=
  Forall calm (script s') ∧ incoming s' = incoming s ∧ supply (script s) ≤ supply (script s') + n.

Lemma take_cells (cells : list cell) bs k :
  take (length bs) cells = Some <$> bs →
  take (length (take k bs)) cells = Some <$> take k bs ∧
  take (length (drop k bs)) (drop k cells) = Some <$> drop k bs.
Proof.
  intros Hc. rewrite fmap_take, fmap_drop, <- Hc, length_take, length_drop. split.
  - by rewrite take_take.
  - rewrite skipn_firstn_comm. done.
Qed.

Lemma send_loop_ok fuel cells bs s :
  take (length bs) cells = Some <$> bs → Forall calm (script s) →
  len bs ≤ supply (script s) → (length (script s) < fuel)%nat →
  wp (send_loop fuel cells (len bs)) s (fun r s' w => r = 0 ∧ w = bs ∧ sent (len bs) s s').
Proof.
  revert cells bs s. induction fuel as [|fuel IH]; intros cells bs s Hc Hcalm Hsup Hf; [lia|].
  cbn [send_loop]. destruct (Z.ltb_spec 0 (len bs)) as [Hpos|Hz].
  2: { assert (bs = []) as -> by (destruct bs; [done|cbn in Hz; lia]).
       apply wp_ret. split; [done|]. split; [done|]. split; [done|]. split; [done|lia]. }
  destruct s as [es inc err]. cbn [script incoming] in *. destruct es as [|e es]; [unfold supply in Hsup; cbn in Hsup; lia|].
  apply Forall_cons in Hcalm as [He Hcalm]. rewrite supply_cons in Hsup. cbn [length] in Hf.
  assert (∀ s', sent (len bs) (Sock es inc err) s' → moves e = false → sent (len bs) (Sock (e :: es) inc err) s') as Hskip.
  { intros s' (? & ? & ?) Hm. split; [done|]. split; [done|]. cbn [script] in *. rewrite supply_cons, Hm. lia. }
  destruct e as [n|x].
  - set (k := Z.to_nat (Z.max 0 (Z.min n (len bs)))).
    assert (Z.max 0 (Z.min n (len bs)) = len (take k bs)) as Hk by (rewrite length_take; lia).
    destruct (take_cells cells bs k Hc) as [Ht Hd].
    apply wp_bind. exists (len (take k bs)), (Sock es inc err), (take k bs). split.
    { unfold send_, bind, syscall. cbn [script incoming errno]. rewrite Hk. unfold bind, lift, transmit, ret.
      rewrite rdcs_written by done. cbn. by rewrite app_nil_r. }
    destruct (Z.ltb_spec (len (take k bs)) 0); [lia|].
    replace (len bs - len (take k bs)) with (len (drop k bs)) by (rewrite length_take, length_drop; lia).
    rewrite Nat2Z.id. replace (length (take k bs)) with k by (rewrite length_take; lia).
    assert (moves (Ret n) = true → 1 ≤ len (take k bs)) as Hm.
    { cbn [moves]. intros ?%Z.leb_le. lia. }
    eapply wp_mono.
    { apply (IH (drop k cells) (drop k bs) (Sock es inc err)); cbn [script]; [done|done| |lia].
      rewrite length_drop. rewrite length_take in Hm. destruct (moves (Ret n)); [specialize (Hm eq_refl)|]; lia. }
    intros r s' w (-> & -> & Hcalm' & Hinc & Hs). split; [done|]. split; [by rewrite take_drop|]. split; [done|]. split; [done|].
    cbn [script] in *. rewrite supply_cons. rewrite length_drop in Hs. rewrite length_take in Hm.
    destruct (moves (Ret n)); [specialize (Hm eq_refl)|]; lia.
  - apply wp_bind. exists (-1), (Sock es inc x), []. split; [done|]. cbn [Z.ltb]. change (-1 <? 0) with true.
    apply wp_bind. exists true, (Sock es inc x), []. split; [by destruct x|].
    eapply wp_mono; [apply (IH cells bs (Sock es inc x)); cbn [script] in *; [done|done|done|lia]|].
    intros r s' w (-> & -> & Hs). split; [done|]. split; [done|]. by apply Hskip.
Qed.

(** The bytes are taken piece by piece, and no other call is made. *)
Lemma send_loop_pieces fuel cells ps ev inc err :
  take (length (concat ps)) cells = Some <$> concat ps → Forall (fun p => p ≠ []) ps → (length ps < fuel)%nat →
  send_loop fuel cells (len (concat ps)) (Sock (((fun p => Ret (len p)) <$> ps) ++ ev) inc err) =
    Done (0, Sock ev inc err, concat ps).
Proof.
  revert cells ps. induction fuel as [|fuel IH]; intros cells ps Hc Hne Hf; [lia|].
  destruct ps as [|p ps]; [done|]. apply Forall_cons in Hne as [Hp Hne]. cbn [concat] in *.
  assert (0 < length p)%nat by (destruct p; [done|cbn; lia]).
  assert (length (p ++ concat ps) = length p + length (concat ps))%nat as Hl by apply length_app.
  destruct (take_cells cells _ (length p) Hc) as [Ht Hd].
  rewrite take_app_length in Ht. rewrite drop_app_length in Hd.
  cbn [send_loop]. destruct (Z.ltb_spec 0 (len (p ++ concat ps))) as [_|]; [|lia].
  unfold bind at 1, send_ at 1, bind at 1. cbn [syscall script incoming errno fmap list_fmap app].
  replace (Z.max 0 (Z.min (len p) (len (p ++ concat ps)))) with (len p) by lia.
  unfold bind at 1, lift at 1. rewrite rdcs_written by done. cbn [bind transmit ret].
  destruct (Z.ltb_spec (len p) 0); [lia|]. unfold bind, transmit, ret.
  replace (len (p ++ concat ps) - len p) with (len (concat ps)) by lia.
  rewrite Nat2Z.id. cbn [length] in Hf.
  specialize (IH (drop (length p) cells) ps Hd Hne ltac:(lia)). cbn [fmap list_fmap] in IH. rewrite IH.
  by rewrite app_nil_r.
Qed.

Lemma block_header_frame sz : 0 ≤ sz → block_header sz = frame_header 4 sz.
Proof.
  intros Hsz. unfold block_header, frame_header, FRAME_SET_LENGTH, Frame.FRAME_SET_LENGTH.
  assert (∀ i, u8 (Z.land (Z.shiftr sz i) 255) = Z.land (Z.shiftr sz i) 255) as Hb.
  { intros i. apply wrap_small. rewrite land_255. apply Z.mod_pos_bound. lia. }
  cbn [fmap list_fmap]. by rewrite !Hb.
Qed.

Lemma length_block_header sz :
  0 ≤ sz → len (block_header sz) = if sz <? 126 then 2 else if sz <? 65536 then 4 else 10.
Proof. intros. unfold block_header. by destruct (sz <? 126), (sz <? 65536). Qed.

(** The longest message that fits the cache with its header. *)
Definition SEND_MAX : Z := CACHE_SIZE - 4.

Lemma lsend_ok m s :
  len m ≤ SEND_MAX → Forall calm (script s) → len (wire (data_frame 4 m)) ≤ supply (script s) →
  wp (lsend m) s (fun _ s' w => w = wire (data_frame 4 m) ∧ sent (len (wire (data_frame 4 m))) s s').
Proof.
  unfold SEND_MAX, CACHE_SIZE. intros Hm Hcalm Hsup.
  assert (wire (data_frame 4 m) = block_header (len m) ++ m) as Hw.
  { rewrite block_header_frame by lia. symmetry. by apply header_wire. }
  rewrite Hw in *. unfold lsend, websocket_block_send.
  rewrite swrap_small by (try lia; change (2 ^ (32 - 1)) with 2147483648; lia).
  rewrite wrap_small by (change (2 ^ 64) with 18446744073709551616; lia).
  pose proof (length_block_header (len m) ltac:(lia)) as Hh. set (h := block_header (len m)) in *.
  assert (len h ≤ 4) as Hh4 by (rewrite Hh; destruct (Z.ltb_spec (len m) 126), (Z.ltb_spec (len m) 65536); lia).
  assert (length (array CACHE_SIZE) = 4096%nat) as Ha by (unfold array; by rewrite length_replicate).
  apply wp_bind, wp_lift. eapply returns_eq.
  { apply (memcpy_done (array CACHE_SIZE) 0). rewrite length_fmap, Ha. lia. }
  cbn [Nat.add]. set (c1 := splice _ _ _).
  assert (length c1 = 4096%nat) as Hc1 by (unfold c1; rewrite length_splice; rewrite ?length_fmap; lia).
  apply wp_bind, wp_lift. eapply returns_eq; [by apply rdn_done|]. rewrite firstn_all.
  apply wp_bind, wp_lift. eapply returns_eq.
  { apply memcpy_done. rewrite length_fmap. lia. }
  set (c2 := splice _ _ _).
  assert (take (length (h ++ m)) c2 = Some <$> h ++ m) as Hc2.
  { unfold c2. rewrite fmap_app, length_app. rewrite <- (length_fmap Some m).
    rewrite splice_take by (rewrite length_fmap; lia). f_equal.
    pose proof (splice_take (array CACHE_SIZE) 0 (Some <$> h)) as Hs. cbn [Nat.add] in Hs.
    rewrite length_fmap in Hs. apply Hs. lia. }
  rewrite length_app, Nat2Z.inj_add in Hsup |- *.
  rewrite swrap_small by (try lia; change (2 ^ (32 - 1)) with 2147483648; lia).
  replace (len m + len h) with (len (h ++ m)) by (rewrite length_app; lia).
  apply wp_bind. eapply wp_mono.
  { apply (send_loop_ok _ c2 (h ++ m) s Hc2 Hcalm); [rewrite length_app; lia|lia]. }
  intros r s' w (-> & -> & Hs). apply wp_ret. split; [by rewrite app_nil_r|].
  by rewrite length_app, Nat2Z.inj_add in Hs.
Qed.

Fixpoint send_all (msgs : list (list Z)) : act unit :=
  match msgs with
  | [] => ret tt
  | m :: msgs => lsend m ;; send_all msgs
  end.

Lemma send_all_ok msgs s :
  Forall (fun m => len m ≤ SEND_MAX) msgs → Forall calm (script s) →
  len (concat (wire <$> (data_frame 4 <$> msgs))) ≤ supply (script s) →
  wp (send_all msgs) s (fun _ _ w => w = concat (wire <$> (data_frame 4 <$> msgs))).
Proof.
  intros Hm. revert s. induction Hm as [|m msgs Hm Hms IH]; intros s Hcalm Hsup.
  { by apply wp_ret. }
  cbn [send_all fmap list_fmap concat] in *. rewrite length_app in Hsup.
  apply wp_bind. eapply wp_mono; [apply lsend_ok; [done|done|lia]|].
  intros _ s' w (-> & Hcalm' & _ & Hs). eapply wp_mono; [apply IH; [done|lia]|].
  by intros _ s'' w ->.
Qed.
End sending.
End ClientSocketSpec.

(** * What the websocket client receives

    [prompt k es]: the next [k] reads find all their bytes, with repeatable errors
    in between. The lemmas follow [lrecv]: one read, the length, the mask, the
    unmasking, the frame, a sequence of frames. *)
Module ClientStreams.
Import Frame FrameSpec Netpack ClientSocket ClientSocketSpec.

Inductive prompt : nat → list event → Prop :=
  | prompt_any es : prompt 0 es
  | prompt_read k es : prompt k es → prompt (S k) (Ret 1 :: Ret CACHE_SIZE :: es)
  | prompt_again k e es : e = EAGAIN ∨ e = EINTR → prompt k es → prompt k (Ret 1 :: Err e :: es).

Lemma prompt_le k k' es : prompt k es → (k' ≤ k)%nat → prompt k' es.
Proof.
  intros H. revert k'. induction H as [| |k e es He H IH]; intros k' Hk.
  - replace k' with 0%nat by lia. constructor.
  - destruct k' as [|k']; constructor. auto with lia.
  - constructor; auto.
Qed.

(** The buffer after a whole read. *)
Definition filled (buffer : list cell) (bs : list Z) : list cell :=
  (Some <$> bs) ++ drop (length bs) buffer.

Lemma wp_fuel {A} (f : nat → act A) s Q : wp (f (S (length (script s)))) s Q → wp (with_fuel f) s Q.
Proof. done. Qed.

Lemma length_filled buffer bs : (length bs ≤ length buffer)%nat → length (filled buffer bs) = length buffer.
Proof. intros. unfold filled. rewrite length_app, length_fmap, length_drop. lia. Qed.

Lemma filled_take buffer bs : take (length bs) (filled buffer bs) = Some <$> bs.
Proof. unfold filled. rewrite <- (length_fmap Some bs) at 1. by rewrite take_app_length. Qed.

Section receiving.
Implicit Types (s : sock) (bs m rest : list Z) (es : list event).

(** One [recv] that gets [bs]: all that was asked for, or all the kernel has. *)
Lemma recv_bytes buffer off bs rest es err sz n :
  (off + length bs ≤ length buffer)%nat → len bs ≤ n → len bs ≤ sz → (sz = len bs ∨ n = len bs) →
  recv_ buffer (Z.of_nat off) sz (Sock (Ret n :: es) (bs ++ rest) err) =
    Done ((len bs, splice buffer off (Some <$> bs)), Sock es rest err, []).
Proof.
  intros Hb Hn Hsz Heq. unfold recv_, bind, syscall, get, put, lift, ret. cbn [script incoming errno].
  rewrite length_app.
  replace (Z.max 0 (Z.min n (Z.min sz (Z.of_nat (length bs + length rest))))) with (len bs) by lia.
  by rewrite Nat2Z.id, take_app_length, drop_app_length, memcpy_done by (rewrite length_fmap; lia).
Qed.

Lemma splice_filled (buffer : list cell) bs : splice buffer 0 (Some <$> bs) = filled buffer bs.
Proof. unfold splice, filled. cbn [Nat.add take app]. by rewrite length_fmap. Qed.

(** What a read leaves for the next ones. *)
Definition ready (k : nat) rest s : Prop := incoming s = rest ∧ prompt k (script s).

Lemma block_read_ok buffer bs rest k s sz :
  (length bs ≤ length buffer)%nat → len bs ≤ CACHE_SIZE → sz = len bs →
  incoming s = bs ++ rest → prompt (S k) (script s) →
  wp (block_read buffer sz) s (fun r s' w => r = (0, filled buffer bs) ∧ w = [] ∧ ready k rest s').
Proof.
  intros Hb Hc -> Hinc Hp. apply wp_fuel.
  assert (∀ fuel s, (length (script s) < fuel)%nat → incoming s = bs ++ rest → prompt (S k) (script s) →
    wp (block_read_loop fuel buffer (len bs)) s (fun r s' w => r = (0, filled buffer bs) ∧ w = [] ∧ ready k rest s'))
    as Hloop; [|by apply Hloop; [lia| |]].
  clear s Hinc Hp. intros fuel [es inc err] Hf Hinc Hp. cbn [script incoming] in *. subst inc.
  remember (S k) as k' eqn:Hk. revert fuel err Hf.
  induction Hp as [|k' es Hp IH|k' e es He Hp IH]; intros fuel err Hf; [done| |];
    (destruct fuel as [|fuel]; [cbn [length] in Hf; lia|]); cbn [length] in Hf;
    cbn [block_read_loop];
    (destruct (Z.eqb_spec (len bs) 0) as [H0|H0];
      [destruct bs; [|done]; apply wp_ret; split; [by unfold filled; rewrite drop_0|]; split; [done|];
        split; [done|]; cbn [script]|]).
  - injection Hk as ->. apply (prompt_le (S k)); [by constructor|lia].
  - injection Hk as ->. apply wp_bind. exists 1, (Sock (Ret CACHE_SIZE :: es) (bs ++ rest) err), [].
    split; [done|]. change (1 =? -1) with false. change (1 =? 0) with false. cbn iota.
    rewrite wrap_small by (unfold CACHE_SIZE in Hc; change (2 ^ 64) with 18446744073709551616; lia).
    apply wp_bind. eexists _, _, []. split; [apply (recv_bytes buffer 0); lia|]. rewrite splice_filled. cbn iota.
    rewrite (proj2 (Z.eqb_neq _ _) H0). destruct (Z.ltb_spec (len bs) 0); [lia|].
    rewrite Z.sub_diag. apply wp_bind. apply wp_lift. eapply returns_eq; [by apply int_ok|].
    destruct fuel as [|fuel]; [lia|]. cbn [block_read_loop]. change (0 =? 0) with true. by apply wp_ret.
  - subst k'. constructor; [done|]. by apply (prompt_le (S k)); [|lia].
  - apply wp_bind. exists 1, (Sock (Err e :: es) (bs ++ rest) err), []. split; [done|].
    change (1 =? -1) with false. change (1 =? 0) with false. cbn iota.
    apply wp_bind. exists (-1, buffer), (Sock es (bs ++ rest) e), []. split; [done|]. cbn iota.
    change (-1 =? 0) with false. change (-1 <? 0) with true. cbn iota.
    apply wp_bind. exists true, (Sock es (bs ++ rest) e), []. split; [by destruct He as [->| ->]|].
    eapply wp_mono; [apply (IH Hk fuel e); lia|]. by intros r s' w (-> & -> & ?).
Qed.

Lemma rdc_written {E} (cells : list cell) i b : zget cells i = Some (Some b) → rdc (E:=E) cells i = Done b.
Proof. intros Hb. unfold rdc. by rewrite (rd_done _ _ _ Hb). Qed.

Lemma unmask_loop_ok pre d (post : list cell) m :
  mask_ok m → bytes_ok d →
  unmask_loop (length d) (len pre) ((Some <$> pre) ++ (Some <$> d) ++ post) (Some <$> m) =
    Done ((Some <$> pre) ++ (Some <$> xor_mask m (len pre) d) ++ post).
Proof.
  intros Hm Hd. revert pre. induction Hd as [|b d Hb Hd IH]; intros pre; [done|].
  cbn [length unmask_loop fmap list_fmap app xor_mask].
  rewrite (rdc_written _ _ b); cbn [obind].
  2: { rewrite zget_of_nat, lookup_app_r, length_fmap, Nat.sub_diag by (rewrite length_fmap; lia). done. }
  pose proof (mask_rd (E:=failure) m (len pre) Hm ltac:(lia)) as Hrd.
  rewrite (rdc_written _ _ (nth (Z.to_nat (len pre mod 4)) m 0)).
  2: { unfold rd in Hrd. destruct (zget m _) as [x|] eqn:Hx; [|done]. injection Hrd as <-.
       apply zget_Some in Hx as [? Hx]. apply zget_Some. split; [done|]. by rewrite list_lookup_fmap, Hx. }
  cbn [obind]. rewrite wr_done by (rewrite length_app, length_fmap; cbn [length]; lia). cbn [obind].
  set (x := nth _ _ _).
  assert (byte_ok (Z.lxor b x)) as Hx by by apply byte_ok_lxor, mask_nth_ok.
  replace (u8 (Z.lxor b x)) with (Z.lxor b x) by (symmetry; by apply wrap_small).
  unfold zset. rewrite Nat2Z.id, insert_app_r_alt, length_fmap, Nat.sub_diag by (rewrite length_fmap; lia).
  specialize (IH (pre ++ [Z.lxor b x])). rewrite fmap_app, length_app in IH.
  rewrite <- !app_assoc in IH. cbn [app fmap list_fmap length] in IH.
  replace (Z.of_nat (length pre + 1)) with (len pre + 1) in IH by lia. exact IH.
Qed.

Context (strerror : errno_t → list Z).

(** A read in front of the rest of [lrecv]. *)
Lemma read_then buffer bs rest j s sz (k : list cell → act (list lua_value)) Q :
  (length bs ≤ length buffer)%nat → len bs ≤ CACHE_SIZE → sz = len bs →
  incoming s = bs ++ rest → prompt (S j) (script s) →
  (∀ s', ready j rest s' → wp (k (filled buffer bs)) s' Q) →
  wp (let* (res, buffer) := block_read buffer sz in on_read strerror res (k buffer)) s Q.
Proof.
  intros Hb Hc Hsz Hinc Hp Hk. apply wp_bind.
  eapply wp_mono; [by apply (block_read_ok buffer bs rest j)|].
  intros r s' w (-> & -> & Hr). cbn iota. by apply Hk.
Qed.

Lemma read_length_ok f buffer rest j s (k : Z → list cell → act (list lua_value)) Q :
  frame_ok f → (8 ≤ length buffer)%nat → incoming s = ext f ++ rest → prompt (S j) (script s) →
  (∀ buffer' s', length buffer' = length buffer → ready j rest s' → wp (k (len (payload f)) buffer') s' Q) →
  wp (read_length strerror (len7 f) buffer k) s Q.
Proof.
  intros Hf Hb Hinc Hp Hk. pose proof (fo_form f Hf) as Hform. pose proof (fo_len f Hf) as Hlen.
  pose proof (length_ext f) as Hle. unfold MAX_PACKSIZE in Hlen.
  unfold read_length, len7. unfold ext in *. destruct (fform f).
  - rewrite (proj2 (Z.ltb_lt _ _) Hform). apply Hk; [done|]. split; [done|]. by apply (prompt_le (S j)); [|lia].
  - change (126 <? 126) with false. change (126 =? 126) with true. cbn iota.
    apply (read_then buffer (be_bytes 2 (len (payload f))) rest j); [lia|rewrite Hle; done|by rewrite Hle|done|done|].
    intros s' Hr. pose proof (rdcs_written (E:=failure) _ _ (filled_take buffer (be_bytes 2 (len (payload f))))) as Hrd.
    rewrite Hle in Hrd. apply wp_bind, wp_lift. eapply returns_eq; [exact Hrd|].
    cbn [be_bytes app]. rewrite ntohs_le by (unfold byte_ok; dlia).
    replace (be16 (len (payload f) / 256 mod 256) (len (payload f) mod 256))
      with (len (payload f)) by (unfold be16; dlia).
    apply Hk; [|done]. apply length_filled. cbn. lia.
  - change (127 <? 126) with false. change (126 =? 127) with false. cbn iota.
    apply (read_then buffer (be_bytes 8 (len (payload f))) rest j); [lia|rewrite Hle; done|by rewrite Hle|done|done|].
    intros s' Hr. pose proof (rdcs_written (E:=failure) _ _ (filled_take buffer (be_bytes 8 (len (payload f))))) as Hrd.
    rewrite Hle in Hrd. apply wp_bind, wp_lift. eapply returns_eq; [exact Hrd|].
    rewrite (ntoh64_le _ (be_bytes_ok _ _) (length_be_bytes _ _)).
    rewrite be_value_bytes by (change (256 ^ Z.of_nat 8) with 18446744073709551616; lia).
    rewrite swrap_small by (change (2 ^ (32 - 1)) with 2147483648; lia).
    apply Hk; [|done]. apply length_filled. lia.
Qed.

Lemma read_mask_ok f masks rest j s (k : list cell → act (list lua_value)) Q :
  frame_ok f → length masks = 4%nat → incoming s = maskbytes f ++ rest → prompt (S j) (script s) →
  (∀ masks' s', (match fmask f with Some m => masks' = Some <$> m | None => True end) →
    ready j rest s' → wp (k masks') s' Q) →
  wp (read_mask strerror (maskbit f) masks k) s Q.
Proof.
  intros Hf Hm Hinc Hp Hk. pose proof (fo_mask f Hf) as Hmask.
  unfold read_mask, maskbit. unfold maskbytes in Hinc. destruct (fmask f) as [m|].
  - destruct Hmask as [_ Hl]. change (1 =? 0) with false. cbn iota. cbn [default from_option] in Hinc.
    apply (read_then masks m rest j); [lia|unfold CACHE_SIZE; lia|by rewrite Hl|done|done|].
    intros s' Hr. apply Hk; [|done]. unfold filled. rewrite drop_ge by lia. by rewrite app_nil_r.
  - apply Hk; [done|]. split; [done|]. by apply (prompt_le (S j)); [|lia].
Qed.

(** What is left to do when the payload is in the buffer. *)
Lemma unmask_ok f buffer masks :
  frame_ok f → match fmask f with Some m => masks = Some <$> m | None => True end →
  take (length (payload f)) buffer = Some <$> masked f 0 (payload f) →
  ∃ buffer', (if maskbit f =? 0 then Done buffer
      else unmask_loop (Z.to_nat (len (payload f))) 0 buffer masks) = Done buffer' ∧
    rdcs (E:=failure) buffer' (len (payload f)) = Done (payload f).
Proof.
  intros Hf Hmasks Hb. pose proof (fo_mask f Hf) as Hmask. pose proof (fo_payload f Hf) as Hpay.
  unfold maskbit, masked in *. destruct (fmask f) as [m|].
  - subst masks. change (1 =? 0) with false. cbn iota. rewrite Nat2Z.id.
    pose proof (xor_mask_ok m 0 (payload f) Hmask Hpay) as Hx.
    pose proof (unmask_loop_ok [] _ (drop (length (payload f)) buffer) m Hmask Hx) as Hu.
    rewrite length_xor_mask, <- Hb in Hu. cbn [fmap list_fmap app length] in Hu.
    change (Z.of_nat 0) with 0 in Hu. rewrite take_drop, xor_mask_involutive in Hu.
    eexists. split; [exact Hu|]. apply rdcs_written.
    rewrite <- (length_fmap Some (payload f)) at 1. by rewrite take_app_length.
  - eexists. split; [done|]. by apply rdcs_written.
Qed.

Lemma lrecv_loop_ok fuel f buffer masks rest j s :
  frame_ok f → len (payload f) ≤ CACHE_SIZE → len buffer = CACHE_SIZE → length masks = 4%nat →
  incoming s = wire f ++ rest → prompt (4 + j) (script s) →
  wp (lrecv_loop strerror (S fuel) buffer masks) s (fun r s' w =>
    r = [Lstring (payload f)] ∧ w = [] ∧ ready j rest s').
Proof.
  intros Hf Hlen Hb Hm Hinc Hp. unfold CACHE_SIZE in *. cbn [lrecv_loop].
  unfold wire, hdr in Hinc. rewrite <- app_assoc in Hinc. cbn [app] in Hinc.
  set (b0 := 128 + opcode f) in *. set (b1 := 128 * maskbit f + len7 f) in *.
  rewrite <- !app_assoc in Hinc.
  apply (read_then buffer [b0; b1] (ext f ++ maskbytes f ++ masked f 0 (payload f) ++ rest) (3 + j));
    [cbn; lia|done|done|done|done|].
  intros s1 [Hinc1 Hp1].
  apply wp_bind, wp_lift. eapply returns_eq; [by apply rdc_written|].
  apply wp_bind, wp_lift. eapply returns_eq; [by apply rdc_written|].
  destruct (opcode_bits (opcode f) (proj1 (fo_opcode f Hf))) as (_ & H6 & H5 & H4 & _).
  destruct (length_bits (maskbit f) (len7 f) (len7_range f Hf)) as [H7 Hl7].
  { unfold maskbit. destruct (fmask f); lia. }
  fold b0 in H6, H5, H4. fold b1 in H7, Hl7. rewrite H6, H5, H4, H7, Hl7. cbn [negb orb].
  change (0 =? 0) with true. cbn [negb orb].
  apply (read_length_ok f _ (maskbytes f ++ masked f 0 (payload f) ++ rest) (2 + j)); try done.
  { rewrite length_filled; cbn [length]; lia. }
  intros buffer2 s2 Hb2 [Hinc2 Hp2]. rewrite length_filled in Hb2 by (cbn [length]; lia).
  apply (read_mask_ok f _ (masked f 0 (payload f) ++ rest) (1 + j)); [done..|].
  intros masks3 s3 Hm3 [Hinc3 Hp3].
  assert (length (masked f 0 (payload f)) = length (payload f)) as Hml.
  { unfold masked. destruct (fmask f); [apply length_xor_mask|done]. }
  apply (read_then buffer2 (masked f 0 (payload f)) rest j);
    [lia|unfold CACHE_SIZE; lia|lia|done|done|].
  intros s4 Hr4. destruct (unmask_ok f (filled buffer2 (masked f 0 (payload f))) masks3 Hf Hm3) as (buffer5 & Hu & Hd).
  { rewrite <- Hml at 1. apply filled_take. }
  apply wp_bind, wp_lift. eapply returns_eq; [exact Hu|].
  apply wp_bind, wp_lift. eapply returns_eq; [exact Hd|]. by apply wp_ret.
Qed.

Lemma len_array n : 0 ≤ n → len (array n) = n.
Proof. intros. unfold array. rewrite length_replicate. lia. Qed.

Fixpoint recv_all (n : nat) : act (list (list lua_value)) :=
  match n with
  | O => ret []
  | S n' =>
      let* r := lrecv strerror in
      let* rs := recv_all n' in
      ret (r :: rs)
  end.

Lemma recv_all_ok fs s :
  Forall (fun f => frame_ok f ∧ len (payload f) ≤ CACHE_SIZE) fs →
  ∀ rest j, incoming s = concat (wire <$> fs) ++ rest → prompt (4 * length fs + j) (script s) →
  wp (recv_all (length fs)) s (fun rs s' w =>
    rs = (fun f => [Lstring (payload f)]) <$> fs ∧ w = [] ∧ ready j rest s').
Proof.
  intros Hfs. revert s. induction Hfs as [|f fs [Hf Hlen] Hfs IH]; intros s rest j Hinc Hp.
  { by apply wp_ret. }
  cbn [length recv_all fmap list_fmap concat] in *. rewrite <- app_assoc in Hinc.
  apply wp_bind. eapply wp_mono.
  { apply wp_fuel, (lrecv_loop_ok _ f _ _ (concat (wire <$> fs) ++ rest) (4 * length fs + j));
      [done|done|by apply len_array|by apply length_replicate|done|].
    eapply prompt_le; [done|lia]. }
  intros r s1 w (-> & -> & Hinc1 & Hp1). apply wp_bind.
  eapply wp_mono; [by apply (IH s1 rest j)|]. intros rs s2 w (-> & -> & Hr). by apply wp_ret.
Qed.
End receiving.
End ClientStreams.

(** * The handshake of the websocket client

    The client's copy of the blank-line search agrees with the server's on
    responses of at least three bytes, and the loop of the handshake reads a
    response in pieces up to its blank line. *)
Module ClientHandshake.
Import Frame ClientSocket ClientSocketSpec ClientStreams.

(** ** The two copies of the search *)
Lemma rd_written {E} bs (tail : list cell) i b :
  rd (E:=Empty_set) bs i = Done b → rdc (E:=E) ((Some <$> bs) ++ tail) i = Done b.
Proof.
  unfold rd. destruct (zget bs i) as [x|] eqn:Hx; [|done]. intros [= ->].
  apply rdc_written. apply zget_Some in Hx as [? Hx]. apply zget_Some. split; [done|].
  rewrite lookup_app_l by (rewrite length_fmap; by eapply lookup_lt_Some).
  by rewrite list_lookup_fmap, Hx.
Qed.

Lemma rdn_written {E} bs (tail : list cell) n r :
  rdn (E:=Empty_set) bs n = Done r → rdcs (E:=E) ((Some <$> bs) ++ tail) n = Done r.
Proof.
  unfold rdn. destruct (Z.leb_spec 0 n), (Z.leb_spec n (len bs)); cbn [andb]; try done. intros [= <-].
  rewrite <- (Z2Nat.id n) by lia. rewrite Nat2Z.id.
  replace (Z.of_nat (Z.to_nat n)) with (len (take (Z.to_nat n) bs)) by (rewrite length_take; lia).
  apply rdcs_written. rewrite length_take, Nat.min_l by lia.
  rewrite take_app_le by (rewrite length_fmap; lia). by rewrite fmap_take.
Qed.

Lemma search_agrees n i hs (tail : list cell) needle r :
  Frame.strnpos_loop n i hs needle = Done r →
  strnpos_loop ((Some <$> hs) ++ tail) i (i + Z.of_nat n) needle = Done r.
Proof.
  revert i hs. induction n as [|n IH]; intros i hs Hr.
  { destruct ((Some <$> hs) ++ tail); cbn [strnpos_loop]; rewrite Z.add_0_r, Z.ltb_irrefl; injection Hr as <-; done. }
  cbn [Frame.strnpos_loop] in Hr. apply obind_done in Hr as (h0 & Hh & Hr).
  apply obind_done in Hr as (n0 & Hn & Hr). apply obind_done in Hr as (e & He & Hr).
  destruct hs as [|x hs]; [done|]. cbn [fmap list_fmap app] in *. cbn [strnpos_loop].
  rewrite (proj2 (Z.ltb_lt _ _)) by lia. rewrite (rd_written (x :: hs) tail 0 h0 Hh : rdc (Some x :: _) 0 = _).
  cbn [obind]. assert (rd (E:=failure) needle 0 = Done n0) as -> by (unfold rd in *; destruct (zget needle 0); [by injection Hn as ->|done]).
  cbn [obind].
  assert ((if h0 =? n0 then let! h := rdcs (Some x :: (Some <$> hs) ++ tail) (len needle) in
      Done (memcmp (length needle) h needle =? 0) else Done false) = (Done e : outcome failure bool)) as ->.
  { destruct (h0 =? n0); [|by injection He as <-]. apply obind_done in He as (h & Hh' & He).
    rewrite (rdn_written (x :: hs) tail _ h Hh' : rdcs (Some x :: _) _ = _). by injection He as <-. }
  cbn [obind]. destruct e; [by injection Hr as <-|].
  replace (i + Z.of_nat (S n)) with (i + 1 + Z.of_nat n) by lia. by apply IH.
Qed.

Lemma get_http_header_agrees bs (tail : list cell) r :
  3 ≤ len bs ≤ INT_MAX → Frame.get_http_header bs (len bs) = Done r →
  get_http_header ((Some <$> bs) ++ tail) (len bs) = Done r.
Proof.
  unfold INT_MAX, get_http_header, Frame.get_http_header. intros Hlen Hr.
  rewrite (wrap_small 32) in * by (change (2 ^ 32) with 4294967296; lia).
  apply obind_done in Hr as (n & Hn & Hr). unfold websocket_strnpos, Frame.websocket_strnpos in *.
  change (4 <=? 0) with false. change (0 <? 4) with true in Hn. cbn [guard_or obind] in *. cbn iota.
  rewrite (wrap_small 32 (len bs - 4 + 1)) in * by (change (2 ^ 32) with 4294967296; lia).
  rewrite swrap_small in * by (try lia; change (2 ^ (32 - 1)) with 2147483648; lia).
  rewrite (wrap_small 32) in * by (change (2 ^ 32) with 4294967296; lia).
  assert (strnpos_loop ((Some <$> bs) ++ tail) 0 (len bs - 4 + 1) [13; 10; 13; 10] = Done n) as ->.
  2: { cbn [obind]. destruct (n <? 0); by injection Hr as <-. }
  destruct (Z.ltb_spec (len bs) 4).
  - replace (len bs - 4 + 1) with 0 by lia. injection Hn as <-.
    destruct ((Some <$> bs) ++ tail); done.
  - replace (len bs - 4 + 1) with (0 + Z.of_nat (Z.to_nat (len bs - 4 + 1))) by lia. by apply search_agrees.
Qed.

(** ** The response *)
Definition no_end_before (resp : list Z) : Prop :=
  ∀ k, (k < length resp)%nat → no_end (take k resp).

Lemma header_no_end resp : http_header resp → no_end_before resp.
Proof.
  intros (H4 & Hm & Hb) k Hk i Hi. pose proof (match_at_length _ _ Hi) as Hl.
  rewrite length_take in Hl. apply (Hb i); [lia|].
  rewrite <- (take_drop k resp). apply match_at_app; [rewrite length_take; lia|done].
Qed.

Lemma search_prefix resp k (tail : list cell) :
  http_header resp → len resp ≤ CACHE_SIZE → (3 ≤ k ≤ length resp)%nat →
  get_http_header ((Some <$> take k resp) ++ tail) (Z.of_nat k) =
    Done (if (k =? length resp)%nat then Z.of_nat k else -1).
Proof.
  unfold CACHE_SIZE. intros Hr Hlen Hk.
  assert (length (take k resp) = k) as Hl by (rewrite length_take; lia).
  rewrite <- Hl at 2. apply get_http_header_agrees; [rewrite Hl; unfold INT_MAX; lia|]. rewrite Hl.
  destruct (Nat.eqb_spec k (length resp)) as [->|Hne].
  - rewrite firstn_all. apply get_http_header_end; [done|change (2 ^ 31) with 2147483648; lia|by rewrite firstn_all].
  - apply get_http_header_none; [lia|change (2 ^ 31) with 2147483648; lia|].
    rewrite take_take, Nat.min_id. apply header_no_end; [done|lia].
Qed.

(** The pieces [cs] are read behind the [k] bytes that are there. *)
Lemma response_loop_ok fuel cs resp k rest err buffer es :
  http_header resp → len resp ≤ CACHE_SIZE → len buffer = CACHE_SIZE →
  take k buffer = Some <$> take k resp → drop k resp = concat cs → (k < length resp)%nat →
  Forall (fun c => c ≠ []) cs → (3 ≤ k + length (default [] (head cs)))%nat → (length cs < fuel)%nat →
  wp (response_loop fuel buffer (Z.of_nat k) (-1))
    (Sock (((fun c => Ret (len c)) <$> cs) ++ es) (concat cs ++ rest) err)
    (fun r s' w => r = 0 ∧ w = [] ∧ incoming s' = rest).
Proof.
  intros Hr Hlen. unfold CACHE_SIZE in *. revert k buffer fuel.
  induction cs as [|c cs IH]; intros k buffer fuel Hb Htk Hdk Hk Hne H3 Hf.
  { apply (f_equal length) in Hdk. rewrite length_drop in Hdk. cbn in Hdk. lia. }
  apply Forall_cons in Hne as [Hc Hne]. destruct fuel as [|fuel]; [lia|].
  cbn [fmap list_fmap concat app default from_option head length Datatypes.id] in *. rewrite <- app_assoc.
  assert (length (drop k resp) = length c + length (concat cs))%nat as Hl by (by rewrite Hdk, length_app).
  rewrite length_drop in Hl. assert (0 < length c)%nat by (destruct c; [done|cbn; lia]).
  set (k' := (k + length c)%nat). assert (k' = k + length c)%nat as Hk' by done. set (buffer' := splice buffer k (Some <$> c)).
  assert (take k' buffer' = Some <$> take k' resp) as Htk'.
  { unfold k', buffer'. rewrite <- (length_fmap Some c). rewrite splice_take by (rewrite length_fmap; lia).
    rewrite Htk, length_fmap, <- fmap_app. f_equal.
    rewrite <- (take_drop k resp) at 2. rewrite Hdk.
    rewrite take_app_ge by (rewrite length_take; lia). rewrite length_take. f_equal.
    rewrite take_app_length'; [done|]. lia. }
  cbn [response_loop]. apply wp_bind.
  exists (len c, buffer'), (Sock (((fun c => Ret (len c)) <$> cs) ++ es) (concat cs ++ rest) err), [].
  split.
  { apply recv_bytes; unfold CACHE_SIZE; lia. }
  cbn iota. destruct (Z.eqb_spec (len c) 0); [lia|]. destruct (Z.ltb_spec (len c) 0); [lia|].
  replace (Z.of_nat k + len c) with (Z.of_nat k') by lia.
  apply wp_bind, wp_lift. eapply returns_eq.
  { rewrite <- (take_drop k' buffer'), Htk'. apply search_prefix; [done|done|lia]. }
  destruct (Nat.eqb_spec k' (length resp)) as [He|He].
  - destruct (Z.ltb_spec 0 (Z.of_nat k')); [|lia]. apply wp_ret. split; [done|]. split; [done|]. cbn [incoming].
    assert (length (concat cs) = 0)%nat as Hnil by lia. by apply nil_length_inv in Hnil as ->.
  - change (0 <? -1) with false. cbn iota. apply IH; try done; try lia.
    + unfold buffer'. rewrite length_splice; rewrite ?length_fmap; lia.
    + unfold k'. by rewrite <- drop_drop, Hdk, drop_app_length.
Qed.
End ClientHandshake.
