(* ===== verification/ClientProps.v ===== *)
(** * The claims about the websocket client

    Both ends of the program over one connection, the handshake, and the inputs
    the client does not survive. *)
From S2P Require Import Prelude Libc Frame FrameSpec Netpack NetpackSpec NetpackFilter NetpackStreams NetpackHandshake ClientSocket ClientStreams.

Module ClientProps.
Import Frame FrameSpec Netpack ClientSocket ClientSocketSpec ClientStreams ClientHandshake.

(** ** Runs into a fault *)
Section split.
Implicit Types (bs rest : list Z) (es : list event).

(** One round of [block_read]. *)
Lemma block_read_round fuel buffer bs rest es err sz n :
  (length bs ≤ length buffer)%nat → bs ≠ [] → len bs ≤ n → len bs ≤ sz ≤ INT_MAX → (sz = len bs ∨ n = len bs) →
  block_read_loop (S fuel) buffer sz (Sock (Ret 1 :: Ret n :: es) (bs ++ rest) err) =
    block_read_loop fuel (filled buffer bs) (sz - len bs) (Sock es rest err).
Proof.
  intros Hb Hne Hn Hsz Heq. assert (0 < length bs)%nat as Hpos by (destruct bs; [done|cbn; lia]).
  unfold INT_MAX in *. cbn [block_read_loop]. destruct (Z.eqb_spec sz 0); [lia|].
  unfold bind at 1. cbn [select_ bind syscall ret script incoming errno].
  change (1 =? -1) with false. change (1 =? 0) with false. cbn iota.
  rewrite wrap_small by (change (2 ^ 64) with 18446744073709551616; lia).
  pose proof (recv_bytes buffer 0 bs rest es err sz n Hb Hn (proj1 Hsz) Heq) as Hr.
  rewrite splice_filled in Hr. change (Z.of_nat 0) with 0 in Hr.
  unfold bind at 1. rewrite Hr. cbn iota. destruct (Z.eqb_spec (len bs) 0); [lia|].
  destruct (Z.ltb_spec (len bs) 0); [lia|]. unfold bind, lift. rewrite int_ok by (unfold INT_MAX; lia).
  by destruct (block_read_loop fuel _ _ _) as [[[? ?] ?]| | |].
Qed.

Lemma block_read_whole buffer bs rest es err sz :
  (length bs ≤ length buffer)%nat → bs ≠ [] → len bs ≤ CACHE_SIZE → sz = len bs →
  block_read buffer sz (Sock (Ret 1 :: Ret CACHE_SIZE :: es) (bs ++ rest) err) =
    Done ((0, filled buffer bs), Sock es rest err, []).
Proof.
  unfold CACHE_SIZE. intros Hb Hne Hc ->. unfold block_read, with_fuel.
  rewrite block_read_round by (try done; unfold INT_MAX; lia || auto).
  rewrite Z.sub_diag. by cbn [script length block_read_loop].
Qed.

Lemma block_read_halves buffer p1 p2 rest es err sz :
  len buffer = CACHE_SIZE → p1 ≠ [] → p2 ≠ [] → len p1 + len p2 ≤ CACHE_SIZE → sz = len p1 + len p2 →
  block_read buffer sz
    (Sock (Ret 1 :: Ret (len p1) :: Ret 1 :: Ret CACHE_SIZE :: es) (p1 ++ p2 ++ rest) err) =
    Done ((0, filled (filled buffer p1) p2), Sock es rest err, []).
Proof.
  unfold CACHE_SIZE. intros Hb H1 H2 Hc ->. unfold block_read, with_fuel. cbn [script length].
  rewrite block_read_round by (try done; unfold INT_MAX; lia || auto).
  replace (len p1 + len p2 - len p1) with (len p2) by lia.
  rewrite block_read_round by (rewrite ?length_filled; try done; unfold INT_MAX; lia || auto).
  rewrite Z.sub_diag. by cbn [block_read_loop].
Qed.

Lemma filled_beyond buffer bs i : (length bs ≤ i)%nat → filled buffer bs !! i = buffer !! i.
Proof.
  intros Hi. unfold filled. rewrite lookup_app_r by (rewrite length_fmap; lia).
  rewrite length_fmap, lookup_drop. f_equal. lia.
Qed.

Lemma rdcs_unwritten (cells : list cell) n (i : nat) :
  cells !! i = Some None → Z.of_nat i < n ≤ len cells → rdcs (E:=failure) cells n = Fault Uninitialised.
Proof.
  intros Hi Hn. unfold rdcs. rewrite <- (Z2Nat.id n) by lia. rewrite rdn_done by lia. cbn [obind].
  rewrite decide_False; [done|]. intros Hall.
  apply (Forall_lookup_1 _ _ i None) in Hall; [by destruct Hall|].
  rewrite lookup_take_lt by lia. done.
Qed.

Context (strerror : errno_t → list Z).

(** Whole reads for the header and the length. *)
Definition header_reads (f : frame) : list event :=
  [Ret 1; Ret CACHE_SIZE] ++ match fform f with Short => [] | _ => [Ret 1; Ret CACHE_SIZE] end.

(** The buffer when the length is known: only its first bytes are written. *)
Lemma read_length_fault f buffer rest es err k fl :
  frame_ok f → len buffer = CACHE_SIZE → (∀ i, (8 ≤ i < length buffer)%nat → buffer !! i = Some None) →
  (∀ buffer', len buffer' = CACHE_SIZE → (∀ i, (8 ≤ i < length buffer)%nat → buffer' !! i = Some None) →
    k (len (payload f)) buffer' (Sock es rest err) = Fault fl) →
  read_length strerror (len7 f) buffer k
    (Sock (match fform f with Short => [] | _ => [Ret 1; Ret CACHE_SIZE] end ++ es) (ext f ++ rest) err) = Fault fl.
Proof.
  unfold CACHE_SIZE. intros Hf Hb Hnone Hk. pose proof (fo_form f Hf) as Hform. pose proof (fo_len f Hf) as Hlen.
  pose proof (length_ext f) as Hle. unfold MAX_PACKSIZE in Hlen.
  unfold read_length, len7. unfold ext in *. destruct (fform f).
  - rewrite (proj2 (Z.ltb_lt _ _) Hform). by apply Hk.
  - change (126 <? 126) with false. change (126 =? 126) with true. cbn iota.
    eapply bind_fault.
    { apply block_read_whole; [lia|by intros Hn; rewrite Hn in Hle|unfold CACHE_SIZE; lia|by rewrite Hle]. }
    pose proof (rdcs_written (E:=failure) _ _ (filled_take buffer (be_bytes 2 (len (payload f))))) as Hrd.
    rewrite Hle in Hrd. eapply bind_fault; [by apply lift_done|].
    cbn [be_bytes app] in *. rewrite ntohs_le by (unfold byte_ok; dlia).
    replace (be16 (len (payload f) / 256 mod 256) (len (payload f) mod 256))
      with (len (payload f)) by (unfold be16; dlia).
    apply Hk; [rewrite length_filled; cbn [length]; lia|].
    intros i Hi. rewrite filled_beyond by (cbn [length]; lia). by apply Hnone.
  - change (127 <? 126) with false. change (126 =? 127) with false. cbn iota.
    eapply bind_fault.
    { apply block_read_whole; [lia|by intros Hn; rewrite Hn in Hle|unfold CACHE_SIZE; lia|by rewrite Hle]. }
    pose proof (rdcs_written (E:=failure) _ _ (filled_take buffer (be_bytes 8 (len (payload f))))) as Hrd.
    rewrite Hle in Hrd. eapply bind_fault; [by apply lift_done|].
    rewrite (ntoh64_le _ (be_bytes_ok _ _) (length_be_bytes _ _)).
    rewrite be_value_bytes by (change (256 ^ Z.of_nat 8) with 18446744073709551616; lia).
    rewrite swrap_small by (change (2 ^ (32 - 1)) with 2147483648; lia).
    apply Hk; [rewrite length_filled; lia|]. intros i Hi. rewrite filled_beyond by lia. by apply Hnone.
Qed.
End split.

(** ** The claims *)
(** C10: messages of at most 4092 bytes sent by [lsend] reach the gate at the other end
    as the same messages: however the kernel splits the sends, with repeatable errors
    in between, as long as it takes all the bytes and reports no other error, and
    however the stream is cut on its way, the netpack filter of the server hands over
    one packet per message, with its bytes, and keeps nothing pending. A longer message
    overruns the client's cache ([lsend_too_long]). *)
Theorem client_to_gate msgs s :
  Forall (fun m => bytes_ok m ∧ len m ≤ SEND_MAX) msgs → Forall calm (script s) →
  len (concat (wire <$> (data_frame 4 <$> msgs))) ≤ supply (script s) →
  wp (send_all msgs) s (fun _ _ w => ∀ n fd chunks,
    len msgs < CAPACITY → Forall (fun c => c ≠ []) chunks → concat chunks = w →
    wp (serve_all (pair fd <$> chunks)) (Lua None n) (fun out l' _ =>
      packets_of fd out = packet fd <$> msgs ∧ pend (lua_q l') fd = None)).
Proof.
  intros Hm Hcalm Hsup. eapply wp_mono.
  { apply send_all_ok; [|done|done]. by eapply Forall_impl; [exact Hm|intros m []]. }
  intros _ _ w -> n fd chunks Hcap Hne Hcat. eapply wp_mono.
  { apply (frames_served n fd (data_frame 4 <$> msgs) chunks); try done.
    - apply Forall_fmap. eapply Forall_impl; [exact Hm|]. unfold SEND_MAX, CACHE_SIZE.
      intros m []. apply data_frame_ok; [done|done|unfold MAX_PACKSIZE; lia].
    - by rewrite length_fmap. }
  intros out l' ? [-> ?]. split; [|done]. unfold packs. rewrite <- list_fmap_compose.
  by apply list_fmap_ext.
Qed.

Lemma client_to_gate_witness :
  wp (send_all [[1; 2; 3]; []]) (Sock (replicate 9 (Ret 1)) [] EAGAIN) (fun _ _ w => ∀ n fd chunks,
    len [[1; 2; 3]; []] < CAPACITY → Forall (fun c => c ≠ []) chunks → concat chunks = w →
    wp (serve_all (pair fd <$> chunks)) (Lua None n) (fun out l' _ =>
      packets_of fd out = packet fd <$> [[1; 2; 3]; []] ∧ pend (lua_q l') fd = None)).
Proof.
  apply (client_to_gate [[1; 2; 3]; []]).
  - apply (bool_decide_unpack _). vm_compute. exact I.
  - repeat constructor.
  - vm_compute. congruence.
Defined.

(** The cache of [websocket_block_send] holds the header and the message: any
    message longer than 4092 bytes is copied beyond its end. *)
Theorem lsend_too_long m s :
  SEND_MAX < len m ≤ INT_MAX → lsend m s = Fault OutOfBounds.
Proof.
  unfold SEND_MAX, CACHE_SIZE, INT_MAX. intros Hm. unfold lsend, websocket_block_send.
  rewrite swrap_small by (try lia; change (2 ^ (32 - 1)) with 2147483648; lia).
  rewrite wrap_small by (change (2 ^ 64) with 18446744073709551616; lia).
  pose proof (length_block_header (len m) ltac:(lia)) as Hh. set (h := block_header (len m)) in *.
  assert (4 ≤ len h ≤ 10) as Hh4 by (rewrite Hh; destruct (Z.ltb_spec (len m) 126), (Z.ltb_spec (len m) 65536); lia).
  assert (length (array CACHE_SIZE) = 4096%nat) as Ha by (unfold array; by rewrite length_replicate).
  eapply bind_fault.
  { apply lift_done, (memcpy_done (array CACHE_SIZE) 0). rewrite length_fmap, Ha. lia. }
  eapply bind_fault; [by apply lift_done, rdn_done|]. rewrite firstn_all.
  apply bind_fault_now, lift_fault. unfold memcpy.
  rewrite length_splice by (rewrite length_fmap; lia). rewrite length_fmap, Ha.
  destruct (Z.leb_spec 0 (len h)), (Z.leb_spec (len h + len m) (Z.of_nat 4096)); done || lia.
Qed.

Lemma lsend_too_long_witness :
  lsend (replicate 4093 7) (Sock [Ret 9000] [] EAGAIN) = Fault OutOfBounds.
Proof. apply lsend_too_long. vm_compute. split; congruence. Defined.

(** C32: [lrecv], called once per frame, returns the unmasked payloads of frames of at
    most 4096 payload bytes, in order, and takes no byte of what follows, when every
    read gets its bytes in one piece; the length may have any of the three forms
    and the frame may be masked or not. [lpack] writes such frames. A longer payload
    overruns the buffer of the function ([recv_too_long]); one that comes in pieces is
    lost ([recv_split_uninitialised]). *)
Theorem frames_received strerror fs rest s :
  Forall (fun f => frame_ok f ∧ len (payload f) ≤ CACHE_SIZE) fs →
  incoming s = concat (wire <$> fs) ++ rest → prompt (4 * length fs) (script s) →
  wp (recv_all strerror (length fs)) s (fun rs s' w =>
    rs = (fun f => [Lstring (payload f)]) <$> fs ∧ w = [] ∧ incoming s' = rest).
Proof.
  intros Hfs Hinc Hp. eapply wp_mono.
  { apply (recv_all_ok strerror fs s Hfs rest 0 Hinc). by rewrite Nat.add_0_r. }
  by intros rs s' w (-> & -> & -> & _).
Qed.

Lemma frames_received_witness :
  wp (recv_all (fun _ => []) 2)
    (Sock (concat (replicate 8 [Ret 1; Ret CACHE_SIZE])) (lpack [7; 8] ++ wire demo_frame ++ [99]) EAGAIN)
    (fun rs s' w => rs = [[Lstring [7; 8]]; [Lstring [65; 66]]] ∧ w = [] ∧ incoming s' = [99]).
Proof.
  apply (frames_received (fun _ => []) [data_frame 2 [7; 8]; demo_frame] [99]).
  - constructor; [|constructor; [|done]]; (split; [|done]).
    + apply data_frame_ok; [done|bytes|done].
    + split; cbn; [lia|split; [bytes|done]|lia|unfold MAX_PACKSIZE; lia|bytes].
  - reflexivity.
  - repeat constructor.
Defined.

(** The length of the payload is not compared with the size of the buffer: a longer
    payload is received beyond its end. *)
Definition long_frame : FrameSpec.frame := data_frame 2 (replicate 4097 7).

Example recv_too_long :
  lrecv (fun _ => []) (Sock (concat (replicate 3 [Ret 1; Ret 5000])) (wire long_frame) EAGAIN) = Fault OutOfBounds.
Proof. vm_compute. reflexivity. Qed.

(** A payload that arrives in two pieces is lost: [block_read] stores every
    piece at the beginning of the buffer, so [lrecv] hands the second piece and
    memory that was never written to Lua. *)
Theorem recv_split_uninitialised strerror f p1 p2 rest err es :
  frame_ok f → fmask f = None → payload f = p1 ++ p2 → p1 ≠ [] → p2 ≠ [] →
  8 < len (payload f) ≤ CACHE_SIZE →
  lrecv strerror (Sock (header_reads f ++ Ret 1 :: Ret (len p1) :: Ret 1 :: Ret CACHE_SIZE :: es)
    (wire f ++ rest) err) = Fault Uninitialised.
Proof.
  intros Hf Hmask Hpay H1 H2 Hlen. unfold lrecv, with_fuel, header_reads, wire, hdr, masked, maskbytes.
  rewrite Hmask. cbn [default from_option]. rewrite app_nil_r, <- app_assoc. cbn [app script lrecv_loop].
  rewrite <- (app_assoc (ext f)). set (b0 := 128 + opcode f). set (b1 := 128 * maskbit f + len7 f).
  assert (len (array CACHE_SIZE) = 4096) as Ha by (by apply len_array).
  assert (0 < length p1)%nat by (destruct p1; [done|cbn; lia]).
  assert (0 < length p2)%nat by (destruct p2; [done|cbn; lia]).
  assert (len (payload f) = len p1 + len p2) as Hl by (rewrite Hpay, length_app; lia).
  unfold CACHE_SIZE in Hlen.
  eapply bind_fault.
  { apply (block_read_whole _ [b0; b1]); [cbn [length]; lia|done|done|done]. }
  eapply bind_fault; [by apply lift_done, rdc_written|].
  eapply bind_fault; [by apply lift_done, rdc_written|].
  destruct (opcode_bits (opcode f) (proj1 (fo_opcode f Hf))) as (_ & H6 & H5 & H4 & _).
  destruct (length_bits (maskbit f) (len7 f) (len7_range f Hf)) as [H7 Hl7].
  { unfold maskbit. rewrite Hmask. lia. }
  fold b0 in H6, H5, H4. fold b1 in H7, Hl7. rewrite H6, H5, H4, H7, Hl7.
  change (0 =? 0) with true. cbn [negb orb].
  assert (length (filled (array CACHE_SIZE) [b0; b1]) = length (array CACHE_SIZE)) as Hfl.
  { apply length_filled. cbn [length]. lia. }
  apply read_length_fault; [done|rewrite Hfl; exact Ha| |].
  { intros i Hi. rewrite Hfl in Hi. rewrite filled_beyond by (cbn [length]; lia).
    apply lookup_replicate_2. unfold array in Hi. rewrite length_replicate in Hi. apply Hi. }
  intros buffer Hbuf Hnone. unfold CACHE_SIZE in Hbuf.
  unfold maskbit. rewrite Hmask. unfold read_mask. change (0 =? 0) with true. cbn iota.
  eapply bind_fault.
  { rewrite Hpay, <- app_assoc. by apply block_read_halves; unfold CACHE_SIZE; rewrite ?length_app; try lia. }
  eapply bind_fault; [done|]. apply bind_fault_now, lift_fault.
  apply (rdcs_unwritten _ _ (length (payload f) - 1)).
  - rewrite !filled_beyond by lia. apply Hnone. lia.
  - rewrite !length_filled; rewrite ?length_filled; lia.
Qed.

Lemma recv_split_uninitialised_witness :
  lrecv (fun _ => []) (Sock (header_reads (data_frame 2 (replicate 9 7)) ++
      Ret 1 :: Ret 4 :: Ret 1 :: Ret CACHE_SIZE :: []) (wire (data_frame 2 (replicate 9 7)) ++ []) EAGAIN)
    = Fault Uninitialised.
Proof.
  apply (recv_split_uninitialised (fun _ => []) _ (replicate 4 7) (replicate 5 7)); try done.
  apply data_frame_ok; [done|bytes|done].
Defined.

(** C34: [lconnect] returns the socket when the connection is accepted, the kernel takes
    the request, in any pieces, and the response arrives in any pieces, up to its blank
    line; the request is on the wire, once and whole, and nothing behind the response is
    consumed. The response has at most 4096 bytes and its first piece at least three:
    after a shorter one the search runs over memory that was never written
    ([short_response]). *)
Theorem connect_handshake addr port fd resp ps cs rest err es :
  http_header resp → len resp ≤ CACHE_SIZE →
  concat ps = WEBSOCKET_CLIENT_HEADER → Forall (fun p => p ≠ []) ps →
  concat cs = resp → Forall (fun c => c ≠ []) cs → 3 ≤ len (default [] (hd_error cs)) →
  wp (lconnect addr port)
    (Sock (Ret fd :: Ret 0 :: ((fun p => Ret (len p)) <$> ps) ++ ((fun c => Ret (len c)) <$> cs) ++ es)
      (resp ++ rest) err)
    (fun r s' w => r = fd ∧ w = WEBSOCKET_CLIENT_HEADER ∧ incoming s' = rest).
Proof.
  intros Hr Hlen Hps Hpne Hcs Hne H3. pose proof Hr as (H4 & _).
  unfold lconnect. set (H := WEBSOCKET_CLIENT_HEADER) in *. clearbody H.
  apply wp_bind. eexists _, _, []. split; [done|]. apply wp_bind. eexists _, _, []. split; [done|].
  change (0 =? -1) with false. cbn iota.
  set (ev := ((fun c => Ret (len c)) <$> cs) ++ es).
  apply wp_bind. exists 0, (Sock ev (resp ++ rest) err), H. split.
  { unfold common_block_send, with_fuel. cbn [script]. rewrite <- Hps. apply send_loop_pieces; [|done|].
    - by rewrite <- (length_fmap Some (concat ps)), firstn_all.
    - rewrite length_app, length_fmap. lia. }
  change (0 <? 0) with false. cbn iota.
  apply wp_bind. eapply wp_mono.
  { apply wp_fuel. subst resp. apply (response_loop_ok _ cs (concat cs) 0 rest err (array CACHE_SIZE) es); try done.
    - lia.
    - lia.
    - cbn [script]. unfold ev. rewrite length_app, length_fmap. lia. }
  intros r s' w (-> & -> & Hinc). change (0 <? 0) with false. cbn iota. apply wp_ret.
  split; [done|]. split; [|done]. by rewrite !app_nil_r.
Qed.

(** The request is taken in two pieces, the response comes in three, and the first bytes
    of a frame come behind it. *)
Lemma connect_handshake_witness :
  wp (lconnect (lit "127.0.0.1") 8001)
    (Sock (Ret 3 :: Ret 0 :: ((fun p => Ret (len p)) <$> [take 100 WEBSOCKET_CLIENT_HEADER; drop 100 WEBSOCKET_CLIENT_HEADER]) ++
        ((fun c => Ret (len c)) <$> [lit "HTTP/1"; [13; 10; 13]; [10]]) ++ [])
      ((lit "HTTP/1" ++ [13; 10; 13; 10]) ++ [130; 0]) EAGAIN)
    (fun r s' w => r = 3 ∧ w = WEBSOCKET_CLIENT_HEADER ∧ incoming s' = [130; 0]).
Proof.
  apply (connect_handshake (lit "127.0.0.1") 8001 3 (lit "HTTP/1" ++ [13; 10; 13; 10])); try done.
  - split; [vm_compute; lia|]. split; [reflexivity|]. intros i Hi Hm.
    do 6 (destruct i as [|i]; [by vm_compute in Hm|]). cbn in Hi. lia.
  - repeat constructor; done.
  - repeat constructor; done.
Defined.

(** The search where the memory was not written. *)
Lemma search_none cells i n : i < n → strnpos_loop (None :: cells) i n [13; 10; 13; 10] = Fault Uninitialised.
Proof. intros Hi. cbn [strnpos_loop]. by rewrite (proj2 (Z.ltb_lt _ _) Hi). Qed.

Lemma search_some c cells (j : nat) i n :
  i < n → cells !! j = Some None → (j < 3 ≤ length cells)%nat →
  strnpos_loop cells (i + 1) n [13; 10; 13; 10] = Fault Uninitialised →
  strnpos_loop (Some c :: cells) i n [13; 10; 13; 10] = Fault Uninitialised.
Proof.
  intros Hi Hj Hl Hnext. cbn [strnpos_loop]. rewrite (proj2 (Z.ltb_lt _ _) Hi).
  rewrite (rdc_written (Some c :: cells) 0 c) by done. cbn [obind].
  change (rd [13; 10; 13; 10] 0) with (@Done failure Z 13). cbn [obind].
  destruct (c =? 13); [|done].
  change (len [13; 10; 13; 10]) with 4. by rewrite (rdcs_unwritten _ 4 (S j)) by (done || (cbn [length]; lia)).
Qed.

(** A response whose first piece has one or two bytes makes the search for the
    blank line run over memory that was never written: the number of positions
    is a difference below zero in an unsigned type. *)
Theorem short_response bs rest err es :
  1 ≤ len bs ≤ 2 →
  recv_websocket_header_response (Sock (Ret (len bs) :: es) (bs ++ rest) err) = Fault Uninitialised.
Proof.
  intros Hlen.
  assert (∃ cells, array CACHE_SIZE = None :: None :: None :: None :: None :: cells) as [cells Ha].
  { eexists (replicate 4091 None). reflexivity. }
  unfold recv_websocket_header_response, with_fuel. cbn [script length response_loop].
  eapply bind_fault.
  { apply (recv_bytes _ 0); [rewrite Ha; cbn [length]; lia|lia|unfold CACHE_SIZE; lia|by right]. }
  cbn iota. destruct (Z.eqb_spec (len bs) 0); [lia|]. destruct (Z.ltb_spec (len bs) 0); [lia|].
  apply bind_fault_now, lift_fault. rewrite Ha.
  destruct bs as [|a [|b [|]]]; cbn [length] in Hlen; try lia; unfold splice;
    cbn [Nat.add take drop app fmap list_fmap length]; unfold get_http_header, websocket_strnpos;
    change (4 <=? 0) with false; cbn iota.
  - change (u32 _) with 4294967294. rewrite (search_some _ _ 0); [done|done|done|cbn [length]; lia|].
    by rewrite search_none.
  - change (u32 _) with 4294967295. rewrite (search_some _ _ 1); [done|done|done|cbn [length]; lia|].
    apply (search_some _ _ 0); [done|done|cbn [length]; lia|]. by rewrite search_none.
Qed.

Lemma short_response_witness :
  recv_websocket_header_response (Sock [Ret 2] ([72; 84] ++ [84; 80]) EAGAIN) = Fault Uninitialised.
Proof. apply (short_response [72; 84]). cbn. lia. Defined.

End ClientProps.
