(* ===== verification/ClientStdin.v ===== *)
(** * lua-clientwebsocket.c: lines of the standard input

    A thread reads lines with [fgets] and puts them into a ring buffer, from which
    [lreadstdin] takes them; both hold the lock of the queue around their work on
    it, so a run of the two threads is a sequence of whole steps. *)
From S2P Require Import Prelude Libc Ring.

Module ClientStdin.

Definition QUEUE_SIZE : Z := 1024.
(** The [char tmp[1024]] of the reader. *)
Definition TMP_SIZE : Z := 1024.

(** [queue]: a slot is NULL or the string it points to. *)
Record queue := Queue { head : Z; tail : Z; slots_ : list (option (list Z)) }.
Definition queue_init : queue := Queue 0 0 (replicate (Z.to_nat QUEUE_SIZE) None).

(** The unread bytes, and whether a read has met the end ([feof]). *)
Record file := File { unread : list Z; eof : bool }.

(** [exit(1)] ends the process. *)
Inductive ended := Exit.
Abbreviation out A := (outcome ended A).

(** The bytes [fgets] stores, at most [n], up to and with a newline. *)
Fixpoint fgets_loop (n : nat) (s : list Z) : list Z * file :=
  match n with
  | O => ([], File s false)
  | S n' =>
      match s with
      | [] => ([], File [] true)
      | c :: s' =>
          if c =? 10 then ([c], File s' false)
          else let '(l, f) := fgets_loop n' s' in (c :: l, f)
      end
  end.

(** [None] when there is nothing to read. *)
Definition fgets (size : Z) (f : file) : option (list Z) * file :=
  let '(l, f') := fgets_loop (Z.to_nat (size - 1)) (unread f) in
  match l with [] => (None, f') | _ => (Some l, f') end.

(** One round of the loop of [readline_stdin]; no round when [feof] holds. *)
Definition readline_stdin (q : queue) (stdin : file) : out (queue * file) :=
  if eof stdin then Done (q, stdin)
  else
    match fgets TMP_SIZE stdin with
    | (None, _) => Raise Exit
    | (Some tmp, stdin) =>
        let n := len (cstr tmp) - 1 in
        let! str := rdn tmp (u64 n) in
        let! slots := wr (slots_ q) (tail q) (Some str) in
        let tail' := tail q + 1 in
        let tail' := if QUEUE_SIZE <=? tail' then 0 else tail' in
        if head q =? tail' then Raise Exit
        else Done (Queue (head q) tail' slots, stdin)
    end.

(** The string returned to Lua, [None] for no result. *)
Definition lreadstdin (q : queue) : out (option (list Z) * queue) :=
  if head q =? tail q then Done (None, q)
  else
    let! str := rd (slots_ q) (head q) in
    let head' := head q + 1 in
    let head' := if QUEUE_SIZE <=? head' then 0 else head' in
    match str with
    | None => Fault NullDeref
    | Some str => Done (Some (cstr str), Queue head' (tail q) (slots_ q))
    end.

(** ** The two threads *)
Inductive thread := Reader | Lua.

(** What the calls of [lreadstdin] return, for an order of the steps. *)
Fixpoint run (sched : list thread) (q : queue) (stdin : file) : out (list (option (list Z))) :=
  match sched with
  | [] => Done []
  | Reader :: sched =>
      let! (q, stdin) := readline_stdin q stdin in run sched q stdin
  | Lua :: sched =>
      let! (r, q) := lreadstdin q in
      let! rs := run sched q stdin in Done (r :: rs)
  end.

(** The queue of lines the two threads implement: [pending] lines wait; a line
    more than the ring can hold, or the end of the input, ends the process. *)
Fixpoint spec (sched : list thread) (pending todo : list (list Z)) : out (list (option (list Z))) :=
  match sched with
  | [] => Done []
  | Reader :: sched =>
      match todo with
      | [] => Raise Exit
      | l :: todo =>
          if QUEUE_SIZE <=? len pending + 1 then Raise Exit else spec sched (pending ++ [l]) todo
      end
  | Lua :: sched =>
      let (r, pending) := match pending with [] => (None, []) | l :: p => (Some l, p) end in
      let! rs := spec sched pending todo in Done (r :: rs)
  end.

(** ** Lines *)
Definition line_ok (l : list Z) : Prop :=
  Forall (fun c => c ≠ 10 ∧ c ≠ 0) l ∧ len l + 1 < TMP_SIZE.
Definition text (ls : list (list Z)) : list Z := ls ≫= (fun l => l ++ [10]).

Lemma fgets_line n l rest :
  Forall (fun c => c ≠ 10 ∧ c ≠ 0) l → (length l < n)%nat →
  fgets_loop n (l ++ 10 :: rest) = (l ++ [10], File rest false).
Proof.
  intros Hl. revert n. induction Hl as [|c l [Hc _] Hl IH]; intros n Hn; (destruct n as [|n]; [cbn in Hn; lia|]).
  - done.
  - cbn [fgets_loop app]. rewrite (proj2 (Z.eqb_neq _ _) Hc), IH by (cbn in Hn; lia). done.
Qed.

Lemma cstr_clean l : Forall (fun c => c ≠ 10 ∧ c ≠ 0) l → ∀ t, cstr (l ++ t) = l ++ cstr t.
Proof.
  induction 1 as [|c l [_ Hc] Hl IH]; intros t; [done|]. cbn [app cstr].
  by rewrite (proj2 (Z.eqb_neq _ _) Hc), IH.
Qed.

(** ** The ring *)
Definition waiting (q : queue) (pending : list (list Z)) : Prop :=
  ring_ok (slots_ q) QUEUE_SIZE (head q) (tail q) ∧
  ring_list (slots_ q) QUEUE_SIZE (head q) (tail q) = pending.

Lemma waiting_init : waiting queue_init [].
Proof.
  split; [|done]. split; try done.
  intros i Hi. change (Z.of_nat i < 0) in Hi. lia.
Qed.

Lemma readline_step q pending l rest :
  waiting q pending → line_ok l →
  (QUEUE_SIZE ≤ len pending + 1 → readline_stdin q (File (l ++ 10 :: rest) false) = Raise Exit) ∧
  (len pending + 1 < QUEUE_SIZE → ∃ q', readline_stdin q (File (l ++ 10 :: rest) false) =
    Done (q', File rest false) ∧ waiting q' (pending ++ [l])).
Proof.
  intros [Hok <-] [Hl Hlen]. unfold TMP_SIZE in Hlen. rewrite (ring_list_length _ _ _ _ Hok).
  pose proof (ring_size_range _ _ _ _ Hok) as Hr. pose proof Hok as [Hc Hh Ht Hb _].
  unfold readline_stdin, fgets. cbn [eof unread].
  rewrite fgets_line by (done || (unfold TMP_SIZE in *; lia)).
  replace (match l ++ [10] with [] => (None, File rest false) | _ :: _ => (Some (l ++ [10]), File rest false) end)
    with (Some (l ++ [10]), File rest false) by (by destruct l).
  rewrite cstr_clean by done. change (cstr [10]) with [10]. rewrite length_app. cbn [length].
  rewrite wrap_small by (change (2 ^ 64) with 18446744073709551616; lia).
  replace (Z.of_nat (length l + 1) - 1) with (len l) by lia.
  rewrite rdn_done, take_app_length by (rewrite length_app; lia). cbn [obind].
  rewrite wr_done by lia. cbn [obind]. rewrite next_mod by lia. split; intros Hfull.
  - rewrite (ring_full _ _ _ _ Hok) at 1 by lia. by rewrite Z.eqb_refl.
  - destruct (ring_push _ _ _ _ l Hok Hfull) as (Hne & Hok' & Hlist).
    rewrite (proj2 (Z.eqb_neq _ _) Hne). eexists. split; [done|]. by split.
Qed.

Lemma lreadstdin_step q pending :
  waiting q pending → Forall line_ok pending →
  ∃ q', lreadstdin q = Done (list.head pending, q') ∧ waiting q' (list.tail pending).
Proof.
  intros [Hok Hlist] Hp. unfold lreadstdin. pose proof Hok as [Hc Hh Ht Hb _].
  destruct (head q =? tail q) eqn:He.
  - apply (ring_empty _ _ _ _ Hok) in He. subst pending. exists q. rewrite He. by split.
  - destruct pending as [|l pending]; [apply (ring_empty _ _ _ _ Hok) in Hlist; congruence|].
    destruct (ring_pop _ _ _ _ _ _ Hok Hlist) as (_ & Hget & Hok' & Hlist').
    rewrite (rd_done _ _ _ Hget). cbn [obind list.head list.tail]. rewrite next_mod by lia.
    apply Forall_cons in Hp as [[Hl _] _].
    assert (cstr l = l) as -> by (pose proof (cstr_clean l Hl []) as H; cbn [cstr] in H; by rewrite !app_nil_r in H).
    eexists. split; [done|]. by split.
Qed.

(** C33: whatever the order in which the reader thread and the Lua side take their
    steps, [readstdin] returns the lines of the input, each once, whole and in
    order, and nothing while none waits; the process ends when a line comes that
    the ring cannot hold, and at the end of the input. The input is one of lines
    shorter than 1023 bytes and without a NUL: a longer line loses a byte at each
    cut, and one that begins with a NUL makes the reader copy a huge number of
    bytes. *)
Theorem stdin_fifo sched ls :
  Forall line_ok ls → run sched queue_init (File (text ls) false) = spec sched [] ls.
Proof.
  intros Hls. assert (∀ q pending, waiting q pending → Forall line_ok pending →
    run sched q (File (text ls) false) = spec sched pending ls) as Hrun; [|by apply Hrun; [apply waiting_init|]].
  revert ls Hls. induction sched as [|[] sched IH]; intros ls Hls q pending Hq Hp; [done| |].
  - cbn [run spec]. destruct Hls as [|l ls Hl Hls]; [done|].
    cbn [text mbind list_bind]. rewrite <- app_assoc. cbn [app]. fold (text ls).
    destruct (readline_step q pending l (text ls) Hq Hl) as [Hfull Hroom].
    destruct (Z.leb_spec QUEUE_SIZE (len pending + 1)).
    + by rewrite Hfull.
    + destruct Hroom as (q' & -> & Hq'); [done|]. cbn [obind]. apply IH; [done|done|].
      apply Forall_app. by split; [|constructor].
  - cbn [run spec]. destruct (lreadstdin_step q pending Hq Hp) as (q' & -> & Hq'). cbn [obind].
    destruct pending as [|l pending]; cbn [list.head list.tail] in *.
    + by rewrite (IH ls Hls q' []).
    + apply Forall_cons in Hp as [_ Hp]. by rewrite (IH ls Hls q' pending).
Qed.

Lemma stdin_fifo_witness :
  run [Lua; Reader; Reader; Lua; Lua; Lua] queue_init (File (text [lit "say hi"; lit ""]) false)
    = Done [None; Some (lit "say hi"); Some []; None].
Proof.
  etrans; [apply (stdin_fifo [Lua; Reader; Reader; Lua; Lua; Lua] [lit "say hi"; lit ""])|reflexivity].
  repeat constructor; vm_compute; congruence.
Defined.
End ClientStdin.
