(* ===== verification/LuaHash.v ===== *)
(** * lua-hash.c: hash codes of Lua tables

    The hash code of a table is built from the hash codes of its entries, nested
    tables included. It does not depend on the order in which [lua_next] or a
    [__pairs] metamethod visits the entries. *)
From S2P Require Import Prelude Libc Double Cjson.

Module LuaHash.
Import Double Cjson.

Definition MAX_DEPTH : Z := 16.
Abbreviation out A := (outcome (list Z) A).

(** The bytes of a double, read as a [uint64_t]; [nan_bits] stands for the
    pattern of a NaN. *)
Definition double_bits (nan_bits : Z) (x : double) : Z :=
  let sign (s : bool) := if s then 2 ^ 63 else 0 in
  match x with
  | S754_zero s => sign s
  | S754_infinity s => sign s + 2047 * 2 ^ 52
  | S754_nan => nan_bits
  | S754_finite s m e =>
      if Z.pos m <? 2 ^ 52 then sign s + Z.pos m
      else sign s + (e + 1075) * 2 ^ 52 + (Z.pos m - 2 ^ 52)
  end.

Section hash.
(** [arith]: the value of a sum or a product of ints that may leave their range.
    [pairs]: what the [__pairs] of a table with one yields. *)
Context (arith : Z → out Z) (nan_bits : Z) (pairs : nat → option entries) (h : heap).

Definition hash_number (v : value) : Z :=
  match v with
  | Integer v =>
      if negb (v =? i32 v) then
        let value := u64 v in i32 (Z.lxor value (Z.shiftr value 32))
      else i32 v
  | _ =>
      let value := double_bits nan_bits (lua_tonumber v) in
      i32 (Z.lxor value (Z.shiftr value 32))
  end.

Definition hash_boolean (b : bool) : Z := if b then 1231 else 1237.

Fixpoint string_loop (hash : Z) (str : list Z) : out Z :=
  match str with
  | [] => Done hash
  | c :: str =>
      let! m := arith (31 * hash) in
      let! hash := arith (m + i8 c) in
      string_loop hash str
  end.

Definition hash_string (str : list Z) : out Z := string_loop 0 str.

(** The loop over the entries, the same with and without [__pairs]. *)
Fixpoint entries_loop (hash_one : value → out Z) (hash : Z) (es : entries) : out Z :=
  match es with
  | [] => Done hash
  | (k, v) :: es =>
      let! kh := hash_one k in
      let! vh := hash_one v in
      let! hash := arith (hash + Z.lxor kh vh) in
      entries_loop hash_one hash es
  end.

Definition visited (t : nat) : entries := default (table h t) (pairs t).

Definition hash_table (hash_one : value → out Z) (t : nat) (depth : Z) : out Z :=
  let! hash := entries_loop hash_one 0 (visited t) in
  arith (hash * depth).

Fixpoint hash_one (fuel : nat) (depth : Z) (v : value) : out Z :=
  match fuel with
  | O => NoFuel
  | S fuel' =>
      if MAX_DEPTH <? depth then Raise (lit "Can't hash too depth table")
      else
        match v with
        | Integer _ | Number _ => Done (hash_number v)
        | Boolean b => Done (hash_boolean b)
        | Str s => hash_string s
        | Table t => hash_table (hash_one fuel' (depth + 1)) t (depth + 1)
        | _ => Raise (lit "Wrong type " ++ lua_typename v ++ lit " to evaluate hash code")
        end
  end.

(** One level of fuel for every depth up to the first that is refused. *)
Definition lhash_table (v : value) : out Z :=
  match v with
  | Table t => hash_table (hash_one (Z.to_nat MAX_DEPTH + 1) 1) t 1
  | _ => Raise (lit "Argument must be table")
  end.
End hash.

(** ** Two arithmetics *)
(** What the compilers of the server do, and what the C standard says. *)
Definition wrapping (z : Z) : out Z := Done (i32 z).
Definition trapping (z : Z) : out Z := int z.

Lemma i32_ext a b : a mod 2 ^ 32 = b mod 2 ^ 32 → i32 a = i32 b.
Proof. intros Hab. unfold swrap. by rewrite Hab. Qed.

Lemma i32_mod a : i32 a mod 2 ^ 32 = a mod 2 ^ 32.
Proof.
  unfold swrap. destruct (_ <? _); [by rewrite Z.mod_mod|].
  rewrite <- (Z.mod_add _ 1), Z.mul_1_l, Z.sub_add by done. by rewrite Z.mod_mod.
Qed.

Lemma i32_add_l a b : i32 (i32 a + b) = i32 (a + b).
Proof. apply i32_ext. by rewrite Zplus_mod, i32_mod, <- Zplus_mod. Qed.

(** ** Outcomes of a call that ends *)
(** The same value, or an error of both. *)
Definition same {A} (o1 o2 : out A) : Prop :=
  match o1, o2 with Done a, Done b => a = b | Raise _, Raise _ => True | _, _ => False end.
Abbreviation ends o := (same o o).

Lemma same_trans {A} (o1 o2 o3 : out A) : same o1 o2 → same o2 o3 → same o1 o3.
Proof. destruct o1, o2, o3; cbn; try done. congruence. Qed.

Lemma same_bind {A B} (o1 o2 : out A) (k1 k2 : A → out B) :
  same o1 o2 → (∀ a, same (k1 a) (k2 a)) → same (obind o1 k1) (obind o2 k2).
Proof. destruct o1, o2; cbn; try done. intros -> Hk. apply Hk. Qed.

Section loops.
Implicit Types (f g : value → out Z) (es : entries).

Lemma loop_perm f es1 es2 hash :
  es1 ≡ₚ es2 → (∀ v, ends (f v)) →
  same (entries_loop wrapping f hash es1) (entries_loop wrapping f hash es2).
Proof.
  intros Hp Hf. revert hash. induction Hp as [|[k v] l1 l2 _ IH|[k1 v1] [k2 v2] l|l1 l2 l3 _ IH1 _ IH2]; intros hash.
  - done.
  - cbn [entries_loop]. do 2 (apply same_bind; [apply Hf|]; intros ?). cbn [obind wrapping]. apply IH.
  - cbn [entries_loop].
    assert (∀ es a, ends (entries_loop wrapping f a es)) as Hends.
    { induction es as [|[k v] es IH]; intros a; [done|]. cbn [entries_loop].
      do 2 (apply same_bind; [apply Hf|]; intros ?). cbn [obind wrapping]. apply IH. }
    pose proof (Hf k1) as Hk1. pose proof (Hf v1) as Hv1. pose proof (Hf k2) as Hk2. pose proof (Hf v2) as Hv2.
    destruct (f k1), (f v1), (f k2), (f v2); try done; cbn [obind wrapping].
    rewrite !i32_add_l.
    replace (hash + Z.lxor a1 a2 + Z.lxor a a0) with (hash + Z.lxor a a0 + Z.lxor a1 a2) by lia.
    apply Hends.
  - by eapply same_trans.
Qed.

Lemma loop_related f g es1 es2 hash :
  Forall2 (fun a b => same (f a.1) (g b.1) ∧ same (f a.2) (g b.2)) es1 es2 →
  same (entries_loop wrapping f hash es1) (entries_loop wrapping g hash es2).
Proof.
  intros Hes. revert hash. induction Hes as [|[k1 v1] [k2 v2] es1 es2 [Hk Hv] _ IH]; intros hash; [done|].
  cbn [entries_loop fst snd] in *. apply same_bind; [done|]. intros kh. apply same_bind; [done|]. intros vh.
  cbn [obind wrapping]. apply IH.
Qed.
End loops.

Section alike.
Context (nan_bits : Z) (pairs1 pairs2 : nat → option entries) (h1 h2 : heap).

(** Equal up to the order of the entries, at most [n] levels deep. *)
Fixpoint alike (n : nat) (v1 v2 : value) : Prop :=
  match n with
  | O => True
  | S n' =>
      match v1, v2 with
      | Table t1, Table t2 =>
          ∃ es, visited pairs1 h1 t1 ≡ₚ es ∧
            Forall2 (fun a b => alike n' a.1 b.1 ∧ alike n' a.2 b.2) es (visited pairs2 h2 t2)
      | _, _ => v1 = v2
      end
  end.

Lemma alike_leaf n v : match v with Table _ => False | _ => True end → alike n v v.
Proof. by destruct n, v. Qed.

Lemma alike_table n t1 t2 es :
  visited pairs1 h1 t1 ≡ₚ es →
  Forall2 (fun a b => alike n a.1 b.1 ∧ alike n a.2 b.2) es (visited pairs2 h2 t2) →
  alike (S n) (Table t1) (Table t2).
Proof. intros. by exists es. Qed.

Lemma string_loop_ends hash s : ends (string_loop wrapping hash s).
Proof. revert hash. induction s as [|c s IH]; intros hash; [done|]. cbn [string_loop obind wrapping]. apply IH. Qed.

(** The tables of the two heaps at one depth. *)
Lemma table_alike f g n d t1 t2 :
  (∀ v, ends (f v)) → (∀ v1 v2, alike n v1 v2 → same (f v1) (g v2)) →
  alike (S n) (Table t1) (Table t2) →
  same (hash_table wrapping pairs1 h1 f t1 d) (hash_table wrapping pairs2 h2 g t2 d).
Proof.
  intros Hf Hfg (es & Hp & Hes). unfold hash_table. apply same_bind; [|done].
  eapply same_trans; [by apply loop_perm|]. apply loop_related.
  eapply Forall2_impl; [exact Hes|]. intros a b []. auto.
Qed.
End alike.

Lemma alike_refl pairs h n v : alike pairs pairs h h n v v.
Proof.
  revert v. induction n as [|n IH]; intros v; [done|]. destruct v; try done.
  exists (visited pairs h t). split; [done|]. induction (visited pairs h t); by constructor.
Qed.

(** Every level of depth needs one of fuel. *)
Lemma hash_one_alike nan_bits pairs1 h1 n d pairs2 h2 v1 v2 :
  MAX_DEPTH + 1 < Z.of_nat n + d → d ≤ MAX_DEPTH + 1 → alike pairs1 pairs2 h1 h2 n v1 v2 →
  same (hash_one wrapping nan_bits pairs1 h1 n d v1) (hash_one wrapping nan_bits pairs2 h2 n d v2).
Proof.
  revert d pairs2 h2 v1 v2. induction n as [|n IH]; intros d pairs2 h2 v1 v2 Hn Hd Ha; [lia|].
  cbn [hash_one]. destruct (Z.ltb_spec MAX_DEPTH d); [done|].
  assert (∀ p h v1 v2, alike pairs1 p h1 h n v1 v2 →
    same (hash_one wrapping nan_bits pairs1 h1 n (d + 1) v1) (hash_one wrapping nan_bits p h n (d + 1) v2)) as Hnext.
  { intros p h' w1 w2 Hw. apply IH; [lia|lia|done]. }
  destruct v1, v2; try done; try (injection Ha as <-; done).
  - injection Ha as <-. apply string_loop_ends.
  - apply (table_alike pairs1 pairs2 h1 h2 _ _ n); [|by apply Hnext|done].
    intros v. apply Hnext, alike_refl.
Qed.

(** ** Claims *)
(** C36: the hash code of a table depends on its contents only: [lhash_table] always
    ends, and for two tables with the same entries in any order, nested tables
    compared the same way, in the same or in different heaps, visited by
    [lua_next] or by a [__pairs] metamethod, it returns the same code or raises
    an error for both. Cyclic tables raise the error of too deep a table. *)
Theorem hash_order_independent nan_bits pairs1 pairs2 h1 h2 v1 v2 :
  alike pairs1 pairs2 h1 h2 (Z.to_nat MAX_DEPTH + 2) v1 v2 →
  same (lhash_table wrapping nan_bits pairs1 h1 v1) (lhash_table wrapping nan_bits pairs2 h2 v2).
Proof.
  intros Ha. change (Z.to_nat MAX_DEPTH + 2)%nat with (S (Z.to_nat MAX_DEPTH + 1)) in Ha.
  destruct v1, v2; try done. unfold lhash_table.
  apply (table_alike pairs1 pairs2 h1 h2 _ _ (Z.to_nat MAX_DEPTH + 1)); [| |exact Ha].
  - intros v. by apply hash_one_alike; [..|apply alike_refl].
  - intros w1 w2 Hw. by apply hash_one_alike.
Qed.

Definition demo_inner : entries := [(Boolean true, Number (of_Z 7)); (Integer 2, Str [200])].
Definition demo_heap1 : heap := [[(Str (lit "a"), Integer 1); (Integer 1, Table 1)]; demo_inner].
Definition demo_heap2 : heap := [reverse demo_inner; []].
Definition demo_pairs (t : nat) : option entries :=
  if (t =? 1)%nat then Some [(Integer 1, Table 0); (Str (lit "a"), Integer 1)] else None.

Lemma hash_order_independent_witness :
  same (lhash_table wrapping 0 (fun _ => None) demo_heap1 (Table 0))
    (lhash_table wrapping 0 demo_pairs demo_heap2 (Table 1)).
Proof.
  apply (hash_order_independent 0).
  apply (alike_table _ _ _ _ _ _ _ [(Integer 1, Table 1); (Str (lit "a"), Integer 1)]); [apply perm_swap|].
  constructor; [|constructor; [|constructor]]; (split; [by apply alike_leaf|]); [|by apply alike_leaf].
  apply (alike_table _ _ _ _ _ _ _ (reverse demo_inner)); [apply perm_swap|].
  constructor; [|constructor; [|constructor]]; by split; apply alike_leaf.
Defined.

(** The C standard leaves the sums undefined for every string of at least seven
    printable characters. *)
Lemma hash_string_overflow str :
  Forall (fun c => 32 ≤ c < 127) str → (7 ≤ length str)%nat → hash_string trapping str = Fault IntOverflow.
Proof.
  intros Hs Hlen. unfold hash_string.
  assert (∀ str hash k, Forall (fun c => 32 ≤ c < 127) str → (k + length str = 7)%nat →
    32 * (31 ^ Z.of_nat k - 1) ≤ 30 * hash → 0 ≤ hash ≤ INT_MAX →
    ∀ rest, string_loop trapping hash (str ++ rest) = Fault IntOverflow) as Hloop.
  { clear. unfold INT_MAX. induction str as [|c str IH]; intros hash k Hs Hk Hh Hmax rest.
    - cbn [length] in Hk. replace (Z.of_nat k) with 7 in Hh by lia. change (31 ^ 7) with 27512614111 in Hh. lia.
    - apply Forall_cons in Hs as [Hc Hs]. cbn [length app string_loop] in *.
      unfold trapping at 1. destruct (Z.le_gt_cases (31 * hash) INT_MAX); [|by rewrite int_overflow].
      rewrite int_ok by (unfold INT_MAX in *; lia). cbn [obind]. rewrite swrap_id_u8 by lia.
      unfold trapping at 1. destruct (Z.le_gt_cases (31 * hash + c) INT_MAX); [|by rewrite int_overflow].
      rewrite int_ok by (unfold INT_MAX in *; lia). cbn [obind].
      apply (IH _ (S k)); [done|lia| |unfold INT_MAX in *; lia].
      rewrite Nat2Z.inj_succ, Z.pow_succ_r by lia. lia. }
  rewrite <- (take_drop 7 str). apply (Hloop _ _ 0%nat); [by apply Forall_take|rewrite length_take; lia| |].
  - change (31 ^ Z.of_nat 0) with 1. lia.
  - by unfold INT_MAX.
Qed.
End LuaHash.
