(* ===== verification/Loggers.v ===== *)
(** * service_busilogger.c and service_syslog.c: the log services

    [busilogger] keeps the file it writes to, one per day; the calls of the C
    library and of the framework are effects. [moment] is what the system answers
    while one message is handled: the two readings of the clock, whether the
    directory exists or can be made, whether the file can be opened. *)
From S2P Require Import Prelude Libc.

Module Loggers.

(** ** The business log *)
Inductive stream := NULL | stdout | Opened (filename : list Z).
Record busilogger := Busilogger {
  handle : stream;
  close : bool;
  log_create_time : option Z;
  log_dir : list Z;
  log_prefix : list Z
}.

Inductive effect :=
  | Fopen (filename : list Z)
  | Fclose (f : stream)
  | Fflush (f : stream)
  | Fwrite (f : stream) (bytes : list Z)
  | Stderr (what : list Z)
  | Mkdir (dir : list Z)
  | Callback
  | Command (cmd arg : list Z)
  | Free.

Record moment := Moment {
  now : Z;            (** [time] in [busi_update_name] *)
  now_open : Z;       (** [time] in [busi_open_file] *)
  access : option Z;  (** the [errno] of [access], [None] when the directory exists *)
  mkdir : option Z;   (** the [errno] of [mkdir] *)
  fopen : bool
}.

Abbreviation act A := (M busilogger effect Empty_set A).
Definition ENOENT : Z := 2.

Definition busilogger_create : busilogger := Busilogger NULL false None [] [].

Definition set_handle (f : stream) (inst : busilogger) : busilogger :=
  Busilogger f (close inst) (log_create_time inst) (log_dir inst) (log_prefix inst).
Definition set_log_create_time (t : Z) (inst : busilogger) : busilogger :=
  Busilogger (handle inst) (close inst) (Some t) (log_dir inst) (log_prefix inst).

Definition sameday (t1 t2 : Z) : Z :=
  if Z.quot (t1 + 8 * 3600) 86400 =? Z.quot (t2 + 8 * 3600) 86400 then 1 else 0.

Definition busilogger_release : act unit :=
  let* inst := get in
  (if close inst then emit (Fclose (handle inst)) else ret tt) ;;
  emit Free.

Definition busi_create_dir (m : moment) (dir_name : list Z) : act Z :=
  match access m with
  | None => ret 0
  | Some saved_errno =>
      if ENOENT =? saved_errno then
        emit (Mkdir dir_name) ;;
        match mkdir m with
        | Some saved_errno =>
            emit (Stderr (lit "busi_create_dir mkdir error: " ++ fmt_d saved_errno)) ;; ret (-1)
        | None => ret 0
        end
      else
        emit (Stderr (lit "busi_create_dir access dir error: " ++ fmt_d saved_errno)) ;; ret (-1)
  end.

Section logger.
(** [strftime] with "%Y%m%d" of the local time. *)
Context (ymd : Z → list Z).

(** [snprintf] into 512 bytes. *)
Definition filename (inst : busilogger) (t : Z) : list Z :=
  take 511 (log_dir inst ++ lit "/" ++ log_prefix inst ++ lit ".log." ++ ymd t).

Definition busi_open_file (m : moment) : act Z :=
  let* inst := get in
  let* _ := busi_create_dir m (log_dir inst) in
  let name := filename inst (now_open m) in
  emit (Fopen name) ;;
  (if fopen m then put (set_handle (Opened name) inst)
   else
     emit (Stderr (lit "busi_open_file open file error")) ;;
     emit (Stderr name) ;;
     put (set_handle stdout inst)) ;;
  ret 0.

(** [mktime] of [localtime] is the time itself. *)
Definition busi_update_name (m : moment) : act Z :=
  let* inst := get in
  let* need_create :=
    match handle inst with
    | NULL => modify (set_log_create_time (now m)) ;; ret 1
    | _ =>
        match log_create_time inst with
        | None => fault_ Uninitialised
        | Some t =>
            if sameday (now m) t =? 0 then modify (set_log_create_time (now m)) ;; ret 1
            else ret 0
        end
    end in
  if 0 =? need_create then ret 0
  else
    match handle inst with
    | stdout => ret 0
    | NULL => busi_open_file m ;; ret 0
    | f => emit (Fflush f) ;; emit (Fclose f) ;; busi_open_file m ;; ret 0
    end.

Definition busilogger_cb (m : moment) (msg : list Z) : act Z :=
  busi_update_name m ;;
  let* inst := get in
  emit (Fwrite (handle inst) msg) ;;
  emit (Fwrite (handle inst) [10]) ;;
  emit (Fflush (handle inst)) ;;
  ret 0.

(** A word of [sscanf] and its terminator in an array of [size] bytes. *)
Definition scan_into (size : Z) (s : list Z) : outcome Empty_set (option (list Z * list Z)) :=
  match scan_word s with
  | None => Done None
  | Some (w, rest) => guard_or OutOfBounds (len w <? size) ;;! Done (Some (w, rest))
  end.

Definition busilogger_init (m : moment) (parm : option (list Z)) : act Z :=
  match parm with
  | None => ret 1
  | Some parm =>
      let* r := lift (scan_into 128 parm) in
      match r with
      | None => ret 1
      | Some (service_name, rest) =>
          let* r := lift (scan_into 256 rest) in
          match r with
          | None => ret 1
          | Some (dir, rest) =>
              modify (fun inst => Busilogger (handle inst) (close inst) (log_create_time inst) dir (log_prefix inst)) ;;
              let* r := lift (scan_into 256 rest) in
              match r with
              | None => ret 1
              | Some (prefix, _) =>
                  modify (fun inst => Busilogger (handle inst) (close inst) (log_create_time inst) (log_dir inst) prefix) ;;
                  let* r := busi_update_name m in
                  (if -1 =? r then
                     modify (fun inst => Busilogger (handle inst) true (log_create_time inst) (log_dir inst) (log_prefix inst))
                   else ret tt) ;;
                  let* inst := get in
                  match handle inst with
                  | NULL => ret 1
                  | _ => emit Callback ;; emit (Command (lit "REG") service_name) ;; ret 0
                  end
              end
          end
      end
  end.
End logger.

(** ** The system log *)
Definition LOG_ERR : Z := 3.
Definition LOG_WARNING : Z := 4.
Definition LOG_NOTICE : Z := 5.
Definition LOG_INFO : Z := 6.
Definition LOG_DEBUG : Z := 7.

(** The text behind the prefix, and the priority. *)
Definition check_msg (msg : list Z) (sz : Z) (priority : Z) : outcome Empty_set (list Z * Z) :=
  if sz <? 2 then Done (msg, priority)
  else
    let! c1 := rd msg 1 in
    if negb (c1 =? 124) then Done (msg, priority)
    else
      let! c0 := rd msg 0 in
      if c0 =? 68 then Done (drop 2 msg, LOG_DEBUG)
      else if c0 =? 73 then Done (drop 2 msg, LOG_INFO)
      else if c0 =? 78 then Done (drop 2 msg, LOG_NOTICE)
      else if c0 =? 87 then Done (drop 2 msg, LOG_WARNING)
      else if c0 =? 69 then Done (drop 2 msg, LOG_ERR)
      else Done (msg, priority).

(** What is given to [syslog]: the priority and the line; [msg] ends with a NUL. *)
Definition syslog_cb (source : Z) (msg : list Z) (sz : Z) : outcome Empty_set (Z * list Z) :=
  let! (str, priority) := check_msg msg sz LOG_WARNING in
  Done (priority, lit "[:" ++ fmt_08x source ++ lit "] " ++ cstr str).

(** ** The business log writes to the file of the day *)
Definition writes (w : list effect) : list (stream * list Z) :=
  omap (fun e => match e with Fwrite f b => Some (f, b) | _ => None end) w.
Definition opens (w : list effect) : list stream :=
  omap (fun e => match e with Fopen n => Some (Opened n) | _ => None end) w.
Definition closes (w : list effect) : list stream :=
  omap (fun e => match e with Fclose f => Some f | _ => None end) w.

(** The day of a time, as [sameday] counts days: in the zone UTC+8. *)
Definition day (t : Z) : Z := Z.quot (t + 8 * 3600) 86400.

(** A history is the list of the moments at which a message was handled, the last one
    first; the oldest is the one of the initialisation. A moment starts a day when no
    moment of its day comes just before. *)
Definition starts_day (m : moment) (before : list moment) : bool :=
  match before with [] => true | m' :: _ => negb (day (now m) =? day (now m')) end.

(** The moment that started the current day. *)
Fixpoint opener (m : moment) (before : list moment) : moment :=
  match before with
  | [] => m
  | m' :: before => if starts_day m (m' :: before) then m else opener m' before
  end.

(** A file could not be opened at the start of a day. *)
Fixpoint broken (h : list moment) : bool :=
  match h with
  | [] => false
  | m :: before => broken before || (starts_day m before && negb (fopen m))
  end.

Section daily.
Context (ymd : Z → list Z) (dir prefix : list Z).

Definition day_file (t : Z) : stream :=
  Opened (take 511 (dir ++ lit "/" ++ prefix ++ lit ".log." ++ ymd t)).

(** Where the message of the last moment of a history is written. *)
Definition target (h : list moment) : stream :=
  match h with
  | [] => NULL
  | m :: before => if broken h then stdout else day_file (now_open (opener m before))
  end.

(** The writes for the messages [ms] behind the history [h]. *)
Fixpoint expected (h : list moment) (ms : list (moment * list Z)) : list (stream * list Z) :=
  match ms with
  | [] => []
  | (m, msg) :: ms => [(target (m :: h), msg); (target (m :: h), [10])] ++ expected (m :: h) ms
  end.

Definition history (m0 : moment) (ms : list (moment * list Z)) : list moment := reverse ms.*1 ++ [m0].

(** The state behind the history [m :: h], [f] being the last file that the service
    tried to open. *)
Definition logging (m : moment) (h : list moment) (f : stream) (inst : busilogger) : Prop :=
  handle inst = target (m :: h) ∧ handle inst = (if broken (m :: h) then stdout else f) ∧
  close inst = false ∧ (∃ t, log_create_time inst = Some t ∧ day t = day (now m)) ∧
  log_dir inst = dir ∧ log_prefix inst = prefix.

Lemma sameday_day t1 t2 : sameday t1 t2 = if day t1 =? day t2 then 1 else 0.
Proof. done. Qed.

(** Opening the file of the day, from any state with the right names. *)
Lemma open_ok m inst :
  log_dir inst = dir → log_prefix inst = prefix →
  wp (busi_open_file ymd m) inst (fun r inst' w => r = 0 ∧
    inst' = set_handle (if fopen m then day_file (now_open m) else stdout) inst ∧
    writes w = [] ∧ opens w = [day_file (now_open m)] ∧ closes w = []).
Proof.
  intros Hd Hp. unfold busi_open_file.
  apply wp_bind, wp_get. cbn [app]. apply wp_bind.
  apply (wp_mono _ _ (fun _ inst' w => inst' = inst ∧ writes w = [] ∧ opens w = [] ∧ closes w = [])).
  { unfold busi_create_dir. destruct (access m) as [e|]; [|by apply wp_ret].
    destruct (ENOENT =? e); [destruct (mkdir m)|]; by (eexists _, _, _; split; [done|]). }
  intros _ inst' w (-> & Hw & How & Hcw). unfold filename. rewrite Hd, Hp.
  destruct (fopen m); eexists _, _, _; (split; [done|]); (split; [done|]); (split; [done|]);
    unfold writes, opens, closes in *; by rewrite !omap_app, Hw, How, Hcw.
Qed.

Lemma update_ok m m' h f inst :
  logging m' h f inst →
  wp (busi_update_name ymd m) inst (fun _ inst' w => ∃ f', logging m (m' :: h) f' inst' ∧
    writes w = [] ∧ f :: opens w = closes w ++ [f']).
Proof.
  intros (Hh & Hf & Hc & (t & Ht & Hday) & Hd & Hp).
  unfold busi_update_name. apply wp_bind, wp_get. cbn [app]. rewrite Ht, sameday_day, Hday.
  unfold target in Hh. destruct (day (now m) =? day (now m')) eqn:Hm.
  - assert (broken (m :: m' :: h) = broken (m' :: h)) as Hb.
    { cbn [broken starts_day]. rewrite Hm. cbn. by rewrite orb_false_r. }
    assert (target (m :: m' :: h) = target (m' :: h)) as Htg.
    { unfold target. rewrite Hb. cbn [opener starts_day]. by rewrite Hm. }
    destruct (handle inst) eqn:Hi; [by destruct (broken (m' :: h))| |];
      eexists _, _, _; (split; [done|]); exists f; (split; [|done]); repeat split;
      rewrite ?Htg, ?Hb, ?Hi; try done; exists t; (split; [done|]); apply Z.eqb_eq in Hm; congruence.
  - assert (broken (m :: m' :: h) = broken (m' :: h) || negb (fopen m)) as Hb.
    { cbn [broken starts_day]. by rewrite Hm. }
    destruct (broken (m' :: h)) eqn:Hbr.
    + rewrite Hh. eexists _, _, _. split; [done|]. exists f. split; [|done].
      repeat split; rewrite ?Hb; try done.
      * change (handle inst = target (m :: m' :: h)). rewrite Hh. unfold target. by rewrite Hb.
      * by exists (now m).
    + rewrite Hh. unfold day_file at 1. apply wp_bind. eexists 1, (set_log_create_time (now m) inst), [].
      split; [done|]. change (0 =? 1) with false. unfold day_file at 1. cbn iota.
      apply wp_bind, wp_emit. apply wp_bind, wp_emit. apply wp_bind.
      eapply wp_mono; [by apply (open_ok m (set_log_create_time (now m) inst))|].
      intros r inst' w (-> & -> & Hw & How & Hcw). apply wp_ret.
      exists (day_file (now_open m)). split.
      * repeat split; try done; cbn [handle set_handle].
        -- unfold target. rewrite Hb. cbn [opener starts_day]. rewrite Hm. by destruct (fopen m).
        -- rewrite Hb. by destruct (fopen m).
        -- by exists (now m).
      * unfold writes, opens, closes in *. cbn [app omap list_omap]. rewrite !app_nil_r, Hw, How, Hcw.
        split; [done|]. by rewrite <- Hf, Hh.
Qed.

Lemma cb_ok m msg m' h f inst :
  logging m' h f inst →
  wp (busilogger_cb ymd m msg) inst (fun _ inst' w => ∃ f', logging m (m' :: h) f' inst' ∧
    writes w = [(target (m :: m' :: h), msg); (target (m :: m' :: h), [10])] ∧
    f :: opens w = closes w ++ [f']).
Proof.
  intros Hl. unfold busilogger_cb. apply wp_bind. eapply wp_mono; [by apply (update_ok m m' h f)|].
  intros _ inst' w (f' & Hl' & Hw & Hbal). pose proof Hl' as (Hh' & _).
  eexists _, _, _. split; [done|]. exists f'. split; [done|].
  unfold writes, opens, closes in *. rewrite !omap_app, Hw, Hh'. cbn [app omap list_omap].
  by rewrite !app_nil_r.
Qed.

Fixpoint serve (ms : list (moment * list Z)) : act unit :=
  match ms with
  | [] => ret tt
  | (m, msg) :: ms => busilogger_cb ymd m msg ;; serve ms
  end.

Lemma serve_ok ms m h f inst :
  logging m h f inst →
  wp (serve ms) inst (fun _ inst' w => ∃ m' h' f', reverse ms.*1 ++ m :: h = m' :: h' ∧
    logging m' h' f' inst' ∧ writes w = expected (m :: h) ms ∧ f :: opens w = closes w ++ [f']).
Proof.
  revert m h f inst. induction ms as [|[m1 msg] ms IH]; intros m h f inst Hl.
  { apply wp_ret. by exists m, h, f. }
  cbn [serve]. apply wp_bind. eapply wp_mono; [by apply (cb_ok m1 msg m h f)|].
  intros _ inst1 w1 (f1 & Hl1 & Hw1 & Hb1). eapply wp_mono; [by apply (IH m1 (m :: h) f1)|].
  intros _ inst2 w2 (m2 & h2 & f2 & He & Hl2 & Hw2 & Hb2). exists m2, h2, f2.
  split. { cbn [fmap list_fmap]. by rewrite reverse_cons, <- app_assoc. }
  split; [done|]. unfold writes, opens, closes in *. rewrite !omap_app, Hw1, Hw2. split; [done|].
  rewrite app_comm_cons, Hb1, <- app_assoc. cbn [app]. by rewrite Hb2, app_assoc.
Qed.

(** Where every file can be opened and the zone of the local time is the one of
    [sameday], the target is the file of the day of the message. *)
Lemma target_daily m h :
  (∀ t1 t2, day t1 = day t2 → ymd t1 = ymd t2) →
  Forall (fun m => fopen m = true ∧ day (now m) = day (now_open m)) (m :: h) →
  target (m :: h) = day_file (now m).
Proof.
  intros Hymd Hall. assert (∀ l, Forall (fun m => fopen m = true ∧ day (now m) = day (now_open m)) l →
    broken l = false) as Hb.
  { induction 1 as [|m1 l [Ho _] _ IH]; [done|]. cbn [broken]. rewrite IH, Ho. by destruct (starts_day _ _). }
  unfold target. rewrite Hb by done. unfold day_file. do 6 f_equal. apply Hymd.
  revert m Hall. induction h as [|m' h IH]; intros m Hall; apply Forall_cons in Hall as [[_ Hm] Hh]; [done|].
  cbn [opener starts_day]. destruct (Z.eqb_spec (day (now m)) (day (now m'))) as [->|]; [by apply IH|done].
Qed.
End daily.

Definition word_ok (size : Z) (s : list Z) : Prop :=
  s ≠ [] ∧ Forall (fun c => isspace c = false) s ∧ len s < size.

Lemma scan_word_into size s rest :
  word_ok size s → match rest with c :: _ => isspace c = true | [] => True end →
  scan_into size s = Done (Some (s, [])) ∧ scan_into size (s ++ rest) = Done (Some (s, rest)) ∧
  scan_into size (32 :: s) = Done (Some (s, [])) ∧ scan_into size (32 :: s ++ rest) = Done (Some (s, rest)).
Proof.
  intros (Hne & Hs & Hlen) Hrest.
  assert (∀ r, match r with c :: _ => isspace c = true | [] => True end →
    scan_word (s ++ r) = Some (s, r) ∧ scan_word (32 :: s ++ r) = Some (s, r)) as Hscan.
  { intros r Hr. unfold scan_word. change (skip_space (32 :: s ++ r)) with (skip_space (s ++ r)).
    assert (skip_space (s ++ r) = s ++ r) as ->.
    { destruct Hs as [|c s Hc Hs]; [done|]. cbn [app skip_space]. by rewrite Hc. }
    rewrite (span_all _ s r).
    - by destruct s.
    - eapply Forall_impl; [exact Hs|]. cbn. by intros c ->.
    - destruct r; [done|]. by rewrite Hr. }
  unfold scan_into. pose proof (Hscan [] I) as [H1 H2]. rewrite app_nil_r in H1, H2.
  destruct (Hscan rest Hrest) as [H3 H4]. rewrite H1, H2, H3, H4.
  by rewrite (proj2 (Z.ltb_lt _ _) Hlen).
Qed.


(** Two messages before midnight in UTC+8, one on it, and one on the next day, whose
    file cannot be opened: the fourth and the fifth go to standard output. The date is
    the number of the day. *)
Definition demo_moment (ok : bool) (t : Z) : moment := Moment t t None None ok.
Definition demo_ymd (t : Z) : list Z := fmt_d (day t).
Definition demo_messages : list (moment * list Z) :=
  [(demo_moment true 57599, lit "a"); (demo_moment true 57600, lit "b"); (demo_moment true 90000, lit "c");
   (demo_moment false 144000, lit "d"); (demo_moment true 230400, lit "e")].

End Loggers.
