(* ===== verification/WebClient.v ===== *)
(** * lua-webclient.c: the HTTP client

    Requests over libcurl. What curl and the allocator answer are arguments of
    the functions: a handle that may be NULL, a code, whether a block can be
    grown. Calls of curl are effects. A block of memory is a list of cells,
    [None] before they are written. *)
From S2P Require Import Prelude Libc.

Module WebClient.

Definition CURL_ERROR_SIZE : Z := 256.
Abbreviation cell := (option Z).

(** ** Requests *)
(** [curl] is the easy handle; [http_post] the form, owned by the request. *)
Record webrequest := Webrequest {
  curl : Z;
  header : list (list Z);
  http_post : option Z;
  error : list Z;
  content : option (list cell);
  content_length : Z;
  content_maxlength : Z;
  content_realloc_failed : bool
}.

(** A Lua error, or one about an argument. *)
Inductive lua_error := LuaError (msg : list Z) | ArgError (arg : Z) (msg : list Z).
Abbreviation out A := (outcome lua_error A).

(** [realloc]: the old cells up to the new size. *)
Definition realloc (block : option (list cell)) (size : Z) : list cell :=
  let old := default [] block in
  take (Z.to_nat size) old ++ replicate (Z.to_nat size - length old) None.

Definition set_maxlength (n : Z) (r : webrequest) : webrequest :=
  Webrequest (curl r) (header r) (http_post r) (error r) (content r) (content_length r) n
    (content_realloc_failed r).
Definition set_content (b : list cell) (r : webrequest) : webrequest :=
  Webrequest (curl r) (header r) (http_post r) (error r) (Some b) (content_length r)
    (content_maxlength r) (content_realloc_failed r).
Definition set_content_length (n : Z) (r : webrequest) : webrequest :=
  Webrequest (curl r) (header r) (http_post r) (error r) (content r) n (content_maxlength r)
    (content_realloc_failed r).
Definition set_failed (r : webrequest) : webrequest :=
  Webrequest (curl r) (header r) (http_post r) (error r) (content r) (content_length r)
    (content_maxlength r) true.
Definition set_error (e : list Z) (r : webrequest) : webrequest :=
  Webrequest (curl r) (header r) (http_post r) e (content r) (content_length r)
    (content_maxlength r) (content_realloc_failed r).

Definition MAX (a b : Z) : Z := if b <? a then a else b.

(** The growth of the block; the result is false when there is no memory. *)
Definition grow_content (room : bool) (length : Z) (r : webrequest) : webrequest * bool :=
  if content_maxlength r <? u64 (content_length r + length) then
    let n := MAX (content_maxlength r) (u64 (content_length r + length)) in
    let n := MAX n 512 in
    let n := u64 (2 * n) in
    let r := set_maxlength n r in
    if room then (set_content (realloc (content r) n) r, true) else (set_failed r, false)
  else (r, true).

Definition write_callback (room : bool) (buffer : list Z) (block_size count : Z) (r : webrequest)
    : out (Z * webrequest) :=
  let length := u64 (block_size * count) in
  if content_realloc_failed r then Done (length, r)
  else
    match grow_content room length r with
    | (r, false) => Done (length, r)
    | (r, true) =>
        let! bytes := rdn buffer length in
        let! block := memcpy (default [] (content r)) (content_length r) (Some <$> bytes) in
        let r := if decide (content r = None) then r else set_content block r in
        Done (length, set_content_length (u64 (content_length r + length)) r)
    end.

(** The strings pushed by [get_respond]: the content, and the error if there is one. *)
Definition push_respond (r : webrequest) : out (list (list Z) * webrequest) :=
  let r :=
    if content_realloc_failed r then set_error (take (Z.to_nat CURL_ERROR_SIZE) (lit "not enough memory.")) r
    else r in
  let! cells := rdn (default [] (content r)) (content_length r) in
  if decide (Forall is_Some cells) then
    let bytes := omap Datatypes.id cells in
    Done ((match error r with [] => [bytes] | e => [bytes; e] end), r)
  else Fault Uninitialised.

(** ** Forms *)
Inductive formoption :=
  | CURLFORM_COPYNAME | CURLFORM_COPYCONTENTS | CURLFORM_CONTENTSLENGTH | CURLFORM_FILE
  | CURLFORM_CONTENTTYPE | CURLFORM_FILENAME | CURLFORM_END.
(** The value is a string or NULL, or a length in the place of a pointer. *)
Inductive formvalue := Pointer (s : option (list Z)) | Size (n : Z) | NoValue.
Abbreviation form := (formoption * formvalue)%type.

Definition forms_max_index : Z := 7.

(** The key and the value of a field as [lua_tostring] gives them: [None] is NULL, for
    what is neither a string nor a number. An entry is the list of its fields, [None]
    when it is not a table. *)
Abbreviation field := (option (list Z) * option (list Z))%type.
Abbreviation entry := (option (list field)).

(** ** Calls of curl and the allocator *)
Inductive optval := Long (n : Z) | Text (s : list Z) | Address | Form (p : Z) | Headers (l : list (list Z)).
Inductive call :=
  | GlobalInit | GlobalCleanup | MultiCleanup
  | NewRequest | EasyInit | Setopt (handle : Z) (option : list Z) (v : optval)
  | MultiAdd (handle : Z) | MultiRemove (handle : Z) | EasyCleanup (handle : Z)
  | FormAdd (fs : list form) | FormFree
  | SlistFree (header : list (list Z)) | RequestFormFree (http_post : option Z)
  | FreeContent | FreeRequest | CurlFree.

Abbreviation act S A := (M S call lua_error A).
Definition throw {S A} (e : lua_error) : act S A := fun _ => Raise e.
Definition emit_all {S} (cs : list call) : act S unit := fun s => Done (tt, s, cs).

(** The branches of the inner loop for one key. *)
Definition one_field (forms : list (option form)) (i : Z) (key : list Z) (value : option (list Z))
    : out (list (option form) * Z) :=
  let one o := let! forms := wr forms i (Some (o, Pointer value)) in Done (forms, i + 1) in
  if decide (key = lit "name") then one CURLFORM_COPYNAME
  else if decide (key = lit "contents") then
    let! forms := wr forms i (Some (CURLFORM_COPYCONTENTS, Pointer value)) in
    let! forms := wr forms (i + 1) (Some (CURLFORM_CONTENTSLENGTH, Size (len (default [] value)))) in
    Done (forms, i + 2)
  else if decide (key = lit "file") then one CURLFORM_FILE
  else if decide (key = lit "content_type") then one CURLFORM_CONTENTTYPE
  else if decide (key = lit "filename") then one CURLFORM_FILENAME
  else Done (forms, i).

Fixpoint fields_loop (forms : list (option form)) (i : Z) (fields : list field)
    : out (list (option form) * Z) :=
  if i <? forms_max_index then
    match fields with
    | [] => Done (forms, i)
    | (None, _) :: _ => Fault NullDeref
    | (Some key, value) :: fields =>
        let! (forms, i) := one_field forms i (cstr key) value in
        fields_loop forms i fields
    end
  else Done (forms, i).

(** The options that [curl_formadd] reads: those before the first [CURLFORM_END]. *)
Fixpoint until_end (forms : list (option form)) : out (list form) :=
  match forms with
  | [] => Fault OutOfBounds
  | None :: _ => Fault Uninitialised
  | Some (CURLFORM_END, _) :: _ => Done []
  | Some f :: forms => let! fs := until_end forms in Done (f :: fs)
  end.

(** The array is shared by the entries; its old cells stay behind the end mark. The
    body of [lua_next] asserts that the entry is a table. The last result tells whether
    the inner loop stopped because the array is full: the key of the field is then
    still on the Lua stack, and the [lua_pop] behind the loop takes it away instead of
    the entry. *)
Definition one_entry (forms : list (option form)) (e : entry) : out (list (option form) * list form * bool) :=
  match e with
  | None => Fault AssertFailed
  | Some fields =>
      let! (forms, i) := fields_loop forms 0 fields in
      let! forms := wr forms i (Some (CURLFORM_END, NoValue)) in
      let! fs := until_end forms in
      Done (forms, fs, forms_max_index <=? i)
  end.

(** [formadd fs] says whether [curl_formadd] accepts the options [fs]. When the entry
    has stayed on the stack, the next [lua_next] takes it for the key, which it is not:
    an entry is a value of the table. *)
Fixpoint entries_loop {S} (formadd : list form → bool) (forms : list (option form))
    (items : list (list form)) (entries : list entry) : act S (option (list (list form))) :=
  match entries with
  | [] => ret (Some items)
  | e :: entries =>
      let* (forms, fs, key_left) := lift (one_entry forms e) in
      emit (FormAdd fs) ;;
      if negb (formadd fs) then ret None
      else if key_left : bool then throw (LuaError (lit "invalid key to 'next'"))
      else entries_loop formadd forms (items ++ [fs]) entries
  end.

(** The items added, or NULL: after a failure, when the items are freed, and for a
    table without entries. *)
Definition webclient_tohttppost {S} (formadd : list form → bool) (entries : list entry)
    : act S (option (list (list form))) :=
  let* r := entries_loop formadd (replicate (Z.to_nat (forms_max_index + 1)) None) [] entries in
  match r with
  | None => emit FormFree ;; ret None
  | Some [] => ret None
  | Some items => ret (Some items)
  end.

(** ** The client *)
(** [encoding_curl]: the handle of [url_encoding]. *)
Record webclient := Webclient { curlm : bool; encoding_curl : option Z }.

(** [multi]: whether [curl_multi_init] returns a handle. *)
Definition webclient_create (version_num : Z) (version : list Z) (multi : bool)
    : act unit webclient :=
  if version_num <? 462596 then
    throw (LuaError (lit "requires 7.15.4 or higher curl, current version is " ++ version))
  else
    emit GlobalInit ;;
    if multi then ret (Webclient true None)
    else emit GlobalCleanup ;; throw (LuaError (lit "webclient create failed")).

Definition webclient_destory : act webclient unit :=
  let* w := get in
  match encoding_curl w with
  | Some h => emit (EasyCleanup h) ;; put (Webclient (curlm w) None)
  | None => ret tt
  end ;;
  emit MultiCleanup ;;
  put (Webclient false None) ;;
  emit GlobalCleanup.

(** [init]: the handle [curl_easy_init] returns; [escape]: what [curl_easy_escape]
    returns for a handle, a string that may be NULL, and an int. *)
Definition url_encoding (init : option Z)
    (escape : option Z → option (list Z) → Z → option (list Z)) (str : option (list Z))
    : act webclient (list Z) :=
  let* w := get in
  match encoding_curl w with
  | None => emit EasyInit ;; put (Webclient (curlm w) init)
  | Some _ => ret tt
  end ;;
  let* w := get in
  let length := len (default [] str) in
  match escape (encoding_curl w) str (i32 length) with
  | None => ret (default [] str)
  | Some r => emit CurlFree ;; ret (cstr r)
  end.

(** ** The life of a request *)
(** [easy]: the handle [curl_easy_init] returns; [added]: whether
    [curl_multi_add_handle] succeeds. The record is zeroed, so that the error is the
    empty string. *)
Definition webclient_realrequest {S} (easy : option Z) (added : bool) (url : list Z)
    (form : option Z) (post_field : option (list Z)) (connect_timeout_ms : Z)
    : act S (option webrequest) :=
  emit NewRequest ;;
  match easy with
  | None => emit FreeRequest ;; ret None
  | Some handle =>
      emit EasyInit ;;
      emit_all
        [Setopt handle (lit "NOSIGNAL") (Long 1);
         Setopt handle (lit "SSL_VERIFYPEER") (Long 0);
         Setopt handle (lit "SSL_VERIFYHOST") (Long 0);
         Setopt handle (lit "FOLLOWLOCATION") (Long 1);
         Setopt handle (lit "WRITEFUNCTION") Address;
         Setopt handle (lit "WRITEDATA") Address;
         Setopt handle (lit "ERRORBUFFER") Address;
         Setopt handle (lit "CONNECTTIMEOUT_MS") (Long connect_timeout_ms);
         Setopt handle (lit "URL") (Text (cstr url))] ;;
      match form, post_field with
      | Some p, _ => emit (Setopt handle (lit "HTTPPOST") (Form p))
      | None, Some data =>
          emit_all [Setopt handle (lit "POSTFIELDSIZE") (Long (i64 (len data)));
                    Setopt handle (lit "COPYPOSTFIELDS") (Text data)]
      | None, None => ret tt
      end ;;
      emit (MultiAdd handle) ;;
      if added then ret (Some (Webrequest handle [] form [] None 0 0 false))
      else emit (EasyCleanup handle) ;; emit FreeRequest ;; ret None
  end.

(** The third argument of [request]: a table, a string or a number, or anything else. *)
Inductive post := NoPost | PostForm (entries : list entry) | PostData (data : list Z).

(** [form_ptr] is the address of the form; [timeout] the fourth argument, when it is a number. *)
Definition webclient_request {S} (formadd : list form → bool) (easy : option Z) (added : bool)
    (form_ptr : Z) (url : option (list Z)) (p : post) (timeout : option Z)
    : act S (option webrequest) :=
  match url with
  | None => throw (ArgError 2 (lit "parameter url invalid"))
  | Some url =>
      let* http_post :=
        match p with
        | PostForm entries =>
            let* r := webclient_tohttppost formadd entries in
            match r with
            | None => throw (ArgError 3 (lit "parameter post_form invalid"))
            | Some _ => ret (Some form_ptr)
            end
        | _ => ret None
        end in
      let postdata := match p with PostData d => Some d | _ => None end in
      let connect_timeout_ms := default 5000 timeout in
      if connect_timeout_ms <? 0 then throw (ArgError 4 (lit "parameter connect_timeout_ms invalid"))
      else webclient_realrequest easy added url http_post postdata connect_timeout_ms
  end.

(** The second argument of the other functions: NULL, or a pointer to a request, which
    may be one that [remove_request] has freed. *)
Inductive request_ptr := Null | Freed | Live (r : webrequest).

Definition request_arg : act request_ptr webrequest :=
  let* p := get in
  match p with
  | Null => throw (ArgError 2 (lit "parameter index invalid"))
  | Freed => fault_ NullDeref
  | Live r => ret r
  end.

Definition webclient_removerequest : act request_ptr unit :=
  let* r := request_arg in
  emit (MultiRemove (curl r)) ;;
  emit (EasyCleanup (curl r)) ;;
  emit (SlistFree (header r)) ;;
  emit (RequestFormFree (http_post r)) ;;
  match content r with Some _ => emit FreeContent | None => ret tt end ;;
  emit FreeRequest ;;
  put Freed.

Definition webclient_getrespond : act request_ptr (list (list Z)) :=
  let* r := request_arg in
  let* (strs, r) := lift (push_respond r) in
  put (Live r) ;; ret strs.

Definition add_header (strs : list (list Z)) (r : webrequest) : webrequest :=
  Webrequest (curl r) (header r ++ strs) (http_post r) (error r) (content r)
    (content_length r) (content_maxlength r) (content_realloc_failed r).

(** [curl_slist_append] copies a string, which must not be NULL. *)
Fixpoint header_strings (strs : list (option (list Z))) : out (list (list Z)) :=
  match strs with
  | [] => Done []
  | None :: _ => Fault NullDeref
  | Some str :: strs => let! l := header_strings strs in Done (cstr str :: l)
  end.

Definition webclient_sethttpheader (strs : list (option (list Z))) : act request_ptr unit :=
  let* r := request_arg in
  let* l := lift (header_strings strs) in
  let r := add_header l r in
  put (Live r) ;;
  match header r with
  | [] => ret tt
  | l => emit (Setopt (curl r) (lit "HTTPHEADER") (Headers l))
  end.

Definition webclient_debug (enable : bool) : act request_ptr unit :=
  let* r := request_arg in
  emit (Setopt (curl r) (lit "VERBOSE") (Long (if enable then 1 else 0))).

(** [getinfo]: what [curl_easy_getinfo] stores for an option, [None] when it fails. An
    address may be NULL. [D] are the doubles. *)
Section info.
Context {D : Type}.
Inductive info := InfoText (s : option (list Z)) | InfoLong (n : Z) | InfoDouble (d : D) | InfoBool (b : bool).
Context (getinfo : Z → list Z → option info).

Definition set_info (key : string) (v : option info) : list (list Z * info) :=
  match v with Some v => [(lit key, v)] | None => [] end.

(** The entries of the table, in the order in which they are set. *)
Definition webclient_getinfo : act request_ptr (list (list Z * info)) :=
  let* r := request_arg in
  ret (set_info "ip" (getinfo (curl r) (lit "PRIMARY_IP")) ++
       set_info "port" (getinfo (curl r) (lit "LOCAL_PORT")) ++
       set_info "content_length" (getinfo (curl r) (lit "CONTENT_LENGTH_DOWNLOAD")) ++
       set_info "response_code" (getinfo (curl r) (lit "RESPONSE_CODE")) ++
       (if content_realloc_failed r then set_info "content_save_failed" (Some (InfoBool true)) else [])).

Definition webclient_getprogress (is_uploadprogress : bool) : act request_ptr (list info) :=
  let* r := request_arg in
  let (size, length) :=
    if negb is_uploadprogress then (lit "SIZE_DOWNLOAD", lit "CONTENT_LENGTH_DOWNLOAD")
    else (lit "SIZE_UPLOAD", lit "CONTENT_LENGTH_UPLOAD") in
  match getinfo (curl r) size with
  | None => ret []
  | Some finished =>
      match getinfo (curl r) length with
      | None => ret []
      | Some total => ret [finished; total]
      end
  end.
End info.

(** ** Finished requests *)
(** A message of [curl_multi_info_read]: whether it is [CURLMSG_DONE], the handle
    and the result. *)
Record message := Message { is_done : bool; easy_handle : Z; result : Z }.

Fixpoint webclient_realquery (msgs : list message) : option (Z * Z) * list message :=
  match msgs with
  | [] => (None, [])
  | m :: msgs =>
      if is_done m then (Some (easy_handle m, result m), msgs) else webclient_realquery msgs
  end.

(** The messages that wait, and the answers of the coming calls of
    [curl_multi_perform]: a code and the messages the call adds. *)
Record multi := Multi { queue : list message; performs : list (Z * list message) }.

Definition CURLM_OK : Z := 0.
Definition CURLM_CALL_MULTI_PERFORM : Z := -1.
Definition curl_multi_perform : M multi call lua_error Z :=
  let* m := get in
  match performs m with
  | [] => lift NoFuel
  | (code, new) :: ps => put (Multi (queue m ++ new) ps) ;; ret code
  end.

Definition info_read : M multi call lua_error (option (Z * Z)) :=
  let* m := get in
  let (r, msgs) := webclient_realquery (queue m) in
  put (Multi msgs (performs m)) ;; ret r.

Definition webclient_query : M multi call lua_error (option (Z * Z)) :=
  let* r := info_read in
  match r with
  | Some _ => ret r
  | None =>
      let* perform_result := curl_multi_perform in
      if negb (perform_result =? CURLM_OK) && negb (perform_result =? CURLM_CALL_MULTI_PERFORM)
      then throw (LuaError (lit "webclient query failed"))
      else info_read
  end.
End WebClient.
