(* ===== verification/WebClientSpec.v ===== *)
(** * lua-webclient.c: the content of a response and the forms of a request

    The buffer of a response holds what curl has delivered, up to the first chunk for
    which there was no memory; the array of form options is large enough for every
    entry, and curl gets the options of the known keys. *)
From S2P Require Import Prelude Libc WebClient.

Module WebClientSpec.
Import WebClient.

(** ** Responses *)
(** A call of the write callback: whether there is memory for a growth, the sizes and
    the bytes. *)
Record chunk := Chunk { room : bool; block_size : Z; count : Z; bytes : list Z }.
Definition chunk_ok (c : chunk) : Prop :=
  0 ≤ block_size c ∧ 0 ≤ count c ∧ block_size c * count c = len (bytes c).

(** The values returned to curl, and the request afterwards. *)
Fixpoint deliver (cs : list chunk) (r : webrequest) : out (list Z * webrequest) :=
  match cs with
  | [] => Done ([], r)
  | c :: cs =>
      let! (n, r) := write_callback (room c) (bytes c) (block_size c) (count c) r in
      let! (ns, r) := deliver cs r in
      Done (n :: ns, r)
  end.

Definition content_of (cs : list chunk) : list Z := concat (bytes <$> cs).

(** [data] has been stored. *)
Definition stored (r : webrequest) (data : list Z) : Prop :=
  content_length r = len data ∧ ∃ rest, default [] (content r) = (Some <$> data) ++ rest.

(** The block has its nominal size and there has been no failure. *)
Definition holds (r : webrequest) (data : list Z) : Prop :=
  stored r data ∧ content_realloc_failed r = false ∧
  len (default [] (content r)) = content_maxlength r ∧
  0 ≤ content_maxlength r ≤ 2 ^ 63 ∧ (content r = None → content_maxlength r = 0).

Definition max_content : Z := 2 ^ 62.

Lemma grown_size m n : 0 ≤ m < n → n < max_content →
  ∃ k, u64 (2 * MAX (MAX m n) 512) = k ∧ n ≤ k ≤ 2 ^ 63.
Proof.
  intros Hm Hn. unfold max_content in Hn. eexists. split; [done|]. unfold MAX.
  destruct (Z.ltb_spec n m); [lia|]. destruct (Z.ltb_spec 512 n); rewrite wrap_small; lia.
Qed.

Lemma take_prefix {A} (l rest : list A) (n : nat) : (length l ≤ n)%nat →
  take n (l ++ rest) = l ++ take (n - length l) rest.
Proof. intros. rewrite take_app_ge; [done|lia]. Qed.

Lemma grow_content_spec b n r data :
  holds r data → 0 ≤ n → len data + n < max_content →
  let '(r', ok) := grow_content b n r in
  error r' = error r ∧
  if ok then holds r' data ∧ len data + n ≤ content_maxlength r' ∧
             (content r' = None → n = 0)
  else b = false ∧ stored r' data ∧ content_realloc_failed r' = true.
Proof.
  intros Hh Hn Hlt. pose proof Hh as ([Hl (rest & Hc)] & Hf & Hm & Hmax & Hnone).
  assert (u64 (content_length r + n) = len data + n) as Hu.
  { rewrite Hl, wrap_small; [done|]. unfold max_content in Hlt. lia. }
  unfold grow_content. rewrite !Hu.
  destruct (Z.ltb_spec (content_maxlength r) (len data + n)) as [Hg|Hg].
  - destruct (grown_size (content_maxlength r) (len data + n)) as (k & Hk & Hkr); [lia|done|].
    rewrite Hk. destruct b.
    + split; [done|]. split; [|split; [simpl; lia|done]].
      assert (len data ≤ content_maxlength r) as Hle.
      { rewrite <- Hm, Hc, length_app, length_fmap. lia. }
      assert (length rest = Z.to_nat (content_maxlength r) - length data)%nat as Hrest.
      { rewrite <- Hm, Hc, Nat2Z.id, length_app, length_fmap. lia. }
      unfold holds, stored, realloc. simpl. split; [split; [done|]|].
      * exists (take (Z.to_nat k - length data) rest ++
                replicate (Z.to_nat k - length ((Some <$> data) ++ rest)) None).
        rewrite Hc, take_prefix by (rewrite length_fmap; lia).
        by rewrite length_fmap, <- app_assoc.
      * rewrite Hc. split; [done|]. split; [|split; [lia|done]].
        rewrite length_app, length_take, length_replicate, length_app, length_fmap, Hrest. lia.
    + split; [done|]. split; [done|]. split; [|done]. split; [done|]. by exists rest.
  - split; [done|]. split; [|split; [lia|]].
    + exact Hh.
    + intros Hcn. specialize (Hnone Hcn). lia.
Qed.

Lemma write_callback_spec c r data :
  holds r data → chunk_ok c → len data + len (bytes c) < max_content →
  returns (write_callback (room c) (bytes c) (block_size c) (count c) r) (fun '(n, r') =>
    n = len (bytes c) ∧ error r' = error r ∧
    (holds r' (data ++ bytes c) ∨
     room c = false ∧ stored r' data ∧ content_realloc_failed r' = true)).
Proof.
  intros Hh (? & ? & Hlen) Hlt. unfold write_callback. rewrite Hlen.
  assert (u64 (len (bytes c)) = len (bytes c)) as ->.
  { rewrite wrap_small; [done|]. unfold max_content in Hlt. lia. }
  pose proof Hh as (_ & -> & _).
  pose proof (grow_content_spec (room c) (len (bytes c)) r data Hh ltac:(lia) Hlt) as Hg.
  destruct (grow_content _ _ r) as [r' []]; destruct Hg as [He Hg].
  - destruct Hg as (([Hl (rest & Hc)] & Hf & Hm & Hmax & Hnone) & Hfit & Hn).
    rewrite rdn_done, firstn_all by done. cbn [obind]. rewrite Hl.
    assert (length (data ++ bytes c) ≤ length (default [] (content r')))%nat as Hroom.
    { rewrite length_app. lia. }
    rewrite length_app in Hroom.
    rewrite memcpy_done by (rewrite length_fmap; lia). cbn [obind].
    apply returns_done. split; [done|].
    assert (splice (default [] (content r')) (length data) (Some <$> bytes c) =
            (Some <$> data ++ bytes c) ++ drop (length (bytes c)) rest) as Hs.
    { rewrite Hc. unfold splice. rewrite length_fmap.
      rewrite take_app_length' by (by rewrite length_fmap).
      rewrite fmap_app, <- app_assoc. do 2 f_equal.
      rewrite drop_app_ge by (rewrite length_fmap; lia). f_equal. rewrite length_fmap. lia. }
    assert (u64 (len data + len (bytes c)) = len (data ++ bytes c)) as Hu.
    { rewrite length_app, Nat2Z.inj_add, wrap_small; [done|]. unfold max_content in Hlt. lia. }
    case_decide as Hnil; (split; [done|]); left.
    + assert (bytes c = []) as Hb by (apply nil_length_inv; specialize (Hn Hnil); lia).
      rewrite Hl, Hu, Hb, app_nil_r. split; [|done]. split; [done|]. by exists rest.
    + split; [split; [simpl; by rewrite Hl|by exists (drop (length (bytes c)) rest)]|].
      split; [done|]. split; [|split; [done|done]]. simpl.
      rewrite length_splice; [done|]. rewrite length_fmap. lia.
  - apply returns_done. split; [done|]. split; [done|]. right. done.
Qed.

(** After a failure nothing changes any more. *)
Lemma write_callback_failed c r : content_realloc_failed r = true → chunk_ok c →
  len (bytes c) < max_content →
  write_callback (room c) (bytes c) (block_size c) (count c) r = Done (len (bytes c), r).
Proof.
  intros Hf (? & ? & Hlen) Hlt. unfold write_callback. rewrite Hf, Hlen, wrap_small; [done|].
  unfold max_content in Hlt. lia.
Qed.

Lemma deliver_failed cs r : content_realloc_failed r = true → Forall chunk_ok cs →
  len (content_of cs) < max_content →
  deliver cs r = Done ((fun c => len (bytes c)) <$> cs, r).
Proof.
  intros Hf. induction cs as [|c cs IH]; intros Hcs Hlt; [done|].
  apply Forall_cons in Hcs as [Hc Hcs]. unfold content_of in *.
  rewrite fmap_cons in Hlt. simpl in Hlt. rewrite length_app in Hlt. cbn [deliver].
  rewrite write_callback_failed by (done || lia). cbn [obind].
  rewrite IH by (done || lia). done.
Qed.

(** The chunks before the first failure. *)
Definition delivered (cs : list chunk) (r0 r : webrequest) : Prop :=
  error r = error r0 ∧ ∃ cs1 cs2, cs = cs1 ++ cs2 ∧ stored r (content_of cs1) ∧
    (content_realloc_failed r = false ∧ cs2 = [] ∨
     content_realloc_failed r = true ∧ ∃ c, head cs2 = Some c ∧ room c = false).

Lemma deliver_spec pre cs r :
  holds r (content_of pre) → Forall chunk_ok cs →
  len (content_of (pre ++ cs)) < max_content →
  returns (deliver cs r) (fun '(ns, r') =>
    ns = (fun c => len (bytes c)) <$> cs ∧ delivered (pre ++ cs) r r').
Proof.
  revert pre r. induction cs as [|c cs IH]; intros pre r Hh Hcs Hlt.
  - apply returns_done. split; [done|]. split; [done|]. exists pre, [].
    destruct Hh as (Hs & Hf & _). split; [done|]. split; [done|]. by left.
  - apply Forall_cons in Hcs as [Hc Hcs]. cbn [deliver].
    assert (len (content_of pre) + len (bytes c) + len (content_of cs) < max_content) as Hl.
    { unfold content_of in *. rewrite fmap_app, concat_app, length_app in Hlt.
      rewrite fmap_cons in Hlt. simpl in Hlt. rewrite length_app in Hlt. lia. }
    eapply returns_bind; [apply (write_callback_spec c r (content_of pre)); [done|done|lia]|].
    intros [n r1] (-> & He & Hr). destruct Hr as [Hr|(Hroom & Hs & Hf)].
    + eapply returns_bind.
      * apply (IH (pre ++ [c]) r1); [|done|by rewrite <- app_assoc].
        unfold content_of in *. rewrite fmap_app, concat_app. simpl. by rewrite app_nil_r.
      * intros [ns r2] (-> & He2 & Hd). apply returns_done. split; [done|].
        rewrite <- app_assoc in Hd. split; [congruence|done].
    + rewrite deliver_failed by (done || lia). apply returns_done. split; [done|].
      split; [done|]. exists pre, (c :: cs). split; [done|]. split; [done|].
      right. split; [done|]. by exists c.
Qed.

Lemma push_respond_spec r data : stored r data →
  push_respond r = Done
    (if content_realloc_failed r then [data; lit "not enough memory."]
     else match error r with [] => [data] | e => [data; e] end,
     if content_realloc_failed r then set_error (lit "not enough memory.") r else r).
Proof.
  intros [Hl (rest & Hc)]. unfold push_respond.
  assert (take (Z.to_nat CURL_ERROR_SIZE) (lit "not enough memory.") = lit "not enough memory.") as ->
    by done.
  assert (∀ r', content_length r' = content_length r → content r' = content r →
    rdn (E:=lua_error) (default [] (content r')) (content_length r') = Done (Some <$> data)) as Hrd.
  { intros r' -> ->. rewrite Hl, rdn_done, Hc; [|rewrite Hc, length_app, length_fmap; lia].
    by rewrite take_app_length' by (by rewrite length_fmap). }
  rewrite Hrd by (by destruct (content_realloc_failed r)). cbn [obind].
  rewrite decide_True by (apply Forall_fmap, Forall_true; by eexists).
  rewrite omap_id_Some. by destruct (content_realloc_failed r).
Qed.

(** ** Forms *)
Section splices.
Context {A : Type}.
Implicit Types l a b : list A.

Lemma splice_splice l i a b : (i + length a + length b ≤ length l)%nat →
  splice (splice l i a) (i + length a) b = splice l i (a ++ b).
Proof.
  intros. unfold splice at 1. rewrite splice_take by lia. unfold splice.
  rewrite <- !app_assoc. do 3 f_equal.
  rewrite drop_app_ge; rewrite length_take; [|lia].
  rewrite drop_app_ge by lia. rewrite drop_drop, length_app. f_equal. lia.
Qed.

Lemma wr_splice {E} l (i : nat) (x : A) : (i < length l)%nat →
  wr (E:=E) l (Z.of_nat i) x = Done (splice l i [x]).
Proof.
  intros. rewrite wr_done by lia. unfold zset, splice. rewrite Nat2Z.id, insert_take_drop by done.
  simpl. do 3 f_equal. by rewrite Nat.add_1_r.
Qed.
End splices.

(** The options for one field. *)
Definition wanted (key : list Z) (value : option (list Z)) : list form :=
  if decide (key = lit "name") then [(CURLFORM_COPYNAME, Pointer value)]
  else if decide (key = lit "contents") then
    [(CURLFORM_COPYCONTENTS, Pointer value); (CURLFORM_CONTENTSLENGTH, Size (len (default [] value)))]
  else if decide (key = lit "file") then [(CURLFORM_FILE, Pointer value)]
  else if decide (key = lit "content_type") then [(CURLFORM_CONTENTTYPE, Pointer value)]
  else if decide (key = lit "filename") then [(CURLFORM_FILENAME, Pointer value)]
  else [].

(** An entry whose keys are the strings [keys]. *)
Definition fields_of (kvs : list (list Z * option (list Z))) : list field :=
  (fun '(k, v) => (Some k, v)) <$> kvs.
Definition entry_forms (kvs : list (list Z * option (list Z))) : list form :=
  concat ((fun '(k, v) => wanted (cstr k) v) <$> kvs).

(** The number of options of a key. *)
Definition weight (key : list Z) : nat := length (wanted key None).
Definition known : list (list Z) :=
  lit <$> ["name"; "contents"; "file"; "content_type"; "filename"]%string.

Lemma wanted_length k v : length (wanted k v) = weight k.
Proof. unfold weight, wanted. by repeat case_decide. Qed.

Lemma weight_unknown k : k ∉ known → weight k = 0%nat.
Proof.
  intros Hk. unfold weight, wanted. repeat case_decide; try done; subst; destruct Hk;
    apply (bool_decide_unpack _); vm_compute; exact I.
Qed.

Lemma weight_filter ks :
  sum_list (weight <$> ks) = sum_list (weight <$> filter (fun k => k ∈ known) ks).
Proof.
  induction ks as [|k ks IH]; [done|].
  rewrite filter_cons, fmap_cons. cbn [sum_list_with]. rewrite IH.
  case_decide; [by rewrite fmap_cons|]. by rewrite weight_unknown.
Qed.

(** Distinct keys give at most six options. *)
Lemma weight_bound ks : NoDup ks → (sum_list (weight <$> ks) ≤ 6)%nat.
Proof.
  intros Hnd. rewrite weight_filter.
  assert (filter (fun k => k ∈ known) ks ⊆+ known) as (rest & Hp)%submseteq_Permutation.
  { apply NoDup_submseteq; [by apply NoDup_filter|]. intros k. by intros [? _]%list_elem_of_filter. }
  assert (sum_list (weight <$> known) = 6%nat) as <- by (vm_compute; reflexivity).
  rewrite Hp, fmap_app, sum_list_with_app. lia.
Qed.

Lemma entry_forms_cons k v kvs :
  entry_forms ((k, v) :: kvs) = wanted (cstr k) v ++ entry_forms kvs.
Proof. done. Qed.

Lemma entry_forms_length kvs :
  length (entry_forms kvs) = sum_list (weight <$> ((fun kv => cstr kv.1) <$> kvs)).
Proof.
  induction kvs as [|[k v] kvs IH]; [done|].
  rewrite entry_forms_cons, fmap_cons, length_app, wanted_length, IH. done.
Qed.

Lemma one_field_spec forms (i : nat) k v : (i + length (wanted k v) ≤ length forms)%nat →
  one_field forms (Z.of_nat i) k v =
    Done (splice forms i (Some <$> wanted k v), Z.of_nat (i + length (wanted k v))).
Proof.
  unfold one_field, wanted. intros Hi.
  repeat case_decide; simpl in Hi; try by (cbn; rewrite splice_nil, Nat.add_0_r).
  2: { rewrite wr_splice by lia. cbn [obind].
       replace (Z.of_nat i + 1) with (Z.of_nat (i + 1)) by lia.
       rewrite wr_splice by (rewrite length_splice; simpl; lia). cbn [obind].
       replace (i + 1)%nat with (i + length [Some (CURLFORM_COPYCONTENTS, Pointer v)])%nat at 1 by done.
       rewrite splice_splice by (simpl; lia). do 2 f_equal. simpl. lia. }
  all: rewrite wr_splice by lia; cbn [obind]; do 2 f_equal; simpl; lia.
Qed.

Lemma fields_loop_spec kvs forms (i : nat) :
  (i + length (entry_forms kvs) ≤ 6)%nat → length forms = 8%nat →
  fields_loop forms (Z.of_nat i) (fields_of kvs) =
    Done (splice forms i (Some <$> entry_forms kvs), Z.of_nat (i + length (entry_forms kvs))).
Proof.
  revert forms i. induction kvs as [|[k v] kvs IH]; intros forms i Hi Hlen.
  - simpl. destruct (Z.ltb_spec (Z.of_nat i) forms_max_index).
    + by rewrite splice_nil, Nat.add_0_r.
    + by rewrite splice_nil, Nat.add_0_r.
  - rewrite entry_forms_cons in *. rewrite length_app in Hi. cbn [fields_of fields_loop fmap list_fmap].
    destruct (Z.ltb_spec (Z.of_nat i) forms_max_index) as [_|Hge]; [|unfold forms_max_index in Hge; lia].
    rewrite one_field_spec by lia. cbn [obind]. fold (fields_of kvs).
    rewrite IH; [|lia|by rewrite length_splice; rewrite ?length_fmap; lia].
    rewrite fmap_app, length_app, Nat.add_assoc.
    replace (i + length (wanted (cstr k) v))%nat
      with (i + length (Some <$> wanted (cstr k) v))%nat at 1 by (by rewrite length_fmap).
    rewrite splice_splice by (rewrite !length_fmap; lia). done.
Qed.

Lemma until_end_spec fs rest : Forall (fun f => f.1 ≠ CURLFORM_END) fs →
  until_end ((Some <$> fs) ++ Some (CURLFORM_END, NoValue) :: rest) = Done fs.
Proof.
  induction 1 as [|[o v] fs Hf _ IH]; [done|]. rewrite fmap_cons.
  cbn [app until_end]. rewrite IH. by destruct o.
Qed.

Lemma entry_forms_not_end kvs : Forall (fun f : form => f.1 ≠ CURLFORM_END) (entry_forms kvs).
Proof.
  apply Forall_concat, Forall_fmap, Forall_true. intros [k v]. simpl. unfold wanted.
  repeat case_decide; repeat constructor; done.
Qed.

(** The strings of an entry's keys, as C sees them, are distinct. *)
Definition distinct_keys (kvs : list (list Z * option (list Z))) : Prop :=
  NoDup ((fun kv => cstr kv.1) <$> kvs).

Lemma one_entry_spec forms kvs : distinct_keys kvs → length forms = 8%nat →
  ∃ forms', one_entry forms (Some (fields_of kvs)) = Done (forms', entry_forms kvs, false) ∧
    length forms' = 8%nat.
Proof.
  intros Hd Hlen. pose proof (weight_bound _ Hd) as Hw. rewrite <- entry_forms_length in Hw.
  unfold one_entry. change 0 with (Z.of_nat 0). rewrite (fields_loop_spec kvs forms 0) by (done || lia). cbn [obind].
  rewrite wr_splice by (rewrite length_splice; rewrite ?length_fmap; lia). cbn [obind].
  replace (0 + length (entry_forms kvs))%nat
    with (0 + length (Some <$> entry_forms kvs))%nat by (by rewrite length_fmap).
  rewrite splice_splice by (rewrite length_fmap; simpl; lia).
  eexists (splice forms 0 ((Some <$> entry_forms kvs) ++ [Some (CURLFORM_END, NoValue)])). split.
  - unfold splice. simpl. rewrite <- app_assoc. simpl.
    rewrite until_end_spec by apply entry_forms_not_end. cbn [obind]. do 2 f_equal.
    apply Z.leb_gt. unfold forms_max_index. rewrite ?length_fmap. lia.
  - rewrite length_splice; [done|]. rewrite length_app, length_fmap. simpl. lia.
Qed.

(** The outcome for the items [todo] after the items [done]: the calls and the result. *)
Definition post_result (formadd : list form → bool) (items todo : list (list form))
    : option (list (list form)) * list call :=
  let '(good, bad) := span formadd todo in
  match bad with
  | [] => (Some (items ++ good), FormAdd <$> good)
  | f :: _ => (None, FormAdd <$> good ++ [f])
  end.

Lemma entries_loop_spec {S} formadd items kvss forms (s : S) :
  Forall distinct_keys kvss → length forms = 8%nat →
  entries_loop formadd forms items ((fun kvs => Some (fields_of kvs)) <$> kvss) s =
    let '(r, calls) := post_result formadd items (entry_forms <$> kvss) in Done (r, s, calls).
Proof.
  intros Hd. revert items forms. induction Hd as [|kvs kvss Hk _ IH]; intros items forms Hlen.
  - unfold post_result. simpl. by rewrite app_nil_r.
  - rewrite !fmap_cons. cbn [entries_loop]. unfold bind, lift, emit.
    destruct (one_entry_spec forms kvs Hk Hlen) as (forms' & -> & Hlen').
    unfold post_result. cbn [span]. destruct (formadd (entry_forms kvs)) eqn:Hf.
    + cbn [negb]. rewrite IH by done. unfold post_result. destruct (span formadd (entry_forms <$> kvss)) as [good bad].
      destruct bad as [|f bad]; simpl; [by rewrite <- app_assoc|done].
    + done.
Qed.

(** ** Finished requests *)
(** The handles and results of the messages that tell of the end of a request. *)
Definition finished (msgs : list message) : list (Z * Z) :=
  (fun m => (easy_handle m, result m)) <$> filter (fun m => is_done m = true) msgs.
(** Those that wait, and those that will come. *)
Definition reports (m : multi) : list (Z * Z) :=
  finished (queue m ++ concat (snd <$> performs m)).
Definition perform_ok (p : Z * list message) : Prop :=
  p.1 = CURLM_OK ∨ p.1 = CURLM_CALL_MULTI_PERFORM.

Lemma finished_app l1 l2 : finished (l1 ++ l2) = finished l1 ++ finished l2.
Proof. unfold finished. by rewrite filter_app, fmap_app. Qed.

Lemma realquery_spec msgs :
  match webclient_realquery msgs with
  | (Some x, rest) => finished msgs = x :: finished rest
  | (None, rest) => finished msgs = [] ∧ rest = []
  end.
Proof.
  unfold finished. induction msgs as [|[d h r] msgs IH]; [done|]. simpl. rewrite filter_cons. simpl.
  by destruct d.
Qed.

Lemma wp_info_read m (Q : option (Z * Z) → multi → list call → Prop) :
  (∀ x q, finished (queue m) = x :: finished q → Q (Some x) (Multi q (performs m)) []) →
  (finished (queue m) = [] → Q None (Multi [] (performs m)) []) →
  wp info_read m Q.
Proof.
  intros HS HN. unfold info_read. step. step. pose proof (realquery_spec (queue m)) as Hr.
  destruct (webclient_realquery (queue m)) as [[x|] q]; do 3 step; [by apply HS|].
  destruct Hr as [Hr ->]. by apply HN.
Qed.

(** A query takes the next report, or makes a step on which there is none. *)
Lemma wp_query m (Q : option (Z * Z) → multi → list call → Prop) :
  Forall perform_ok (performs m) → reports m ≠ [] →
  (∀ x m', reports m = x :: reports m' → Forall perform_ok (performs m') →
     (length (performs m') ≤ length (performs m))%nat → Q (Some x) m' []) →
  (∀ m', reports m' = reports m → Forall perform_ok (performs m') →
     (length (performs m') < length (performs m))%nat → Q None m' []) →
  wp webclient_query m Q.
Proof.
  intros Hok Hne HS HN. unfold webclient_query. step. apply wp_info_read.
  - intros x q Hq. step. apply HS; [|done|done].
    unfold reports in *. simpl. by rewrite !finished_app, Hq.
  - intros Hq. destruct (performs m) as [|[code new] ps] eqn:Hps.
    { unfold reports in Hne. rewrite Hps in Hne. simpl in Hne. by rewrite app_nil_r, Hq in Hne. }
    apply Forall_cons in Hok as [Hcode Hok]. step. unfold curl_multi_perform. step. step. simpl. do 3 step.
    assert (negb (code =? CURLM_OK) && negb (code =? CURLM_CALL_MULTI_PERFORM) = false) as ->.
    { by destruct Hcode as [Hcode|Hcode]; simpl in Hcode; subst. }
    assert (reports m = finished new ++ finished (concat (snd <$> ps))) as Hm.
    { unfold reports. rewrite Hps. cbn [fmap list_fmap concat snd]. by rewrite !finished_app, Hq. }
    apply wp_info_read; simpl.
    + intros x q Hx. apply HS; [|done|rewrite ?Hps; simpl; lia]. rewrite Hm, Hx. unfold reports. simpl. by rewrite finished_app.
    + intros Hx. apply HN; [|done|rewrite ?Hps; simpl; lia]. by rewrite Hm, Hx.
Qed.

(** The loop of webclient.lua: it asks until [k] requests have been reported. *)
Fixpoint poll (fuel k : nat) : M multi call lua_error (list (Z * Z)) :=
  match k, fuel with
  | O, _ => ret []
  | S _, O => lift NoFuel
  | S k', S fuel =>
      let* r := webclient_query in
      match r with
      | Some x => let* xs := poll fuel k' in ret (x :: xs)
      | None => poll fuel k
      end
  end.

Lemma poll_spec fuel k m : Forall perform_ok (performs m) → (k ≤ length (reports m))%nat →
  (k + length (performs m) ≤ fuel)%nat →
  wp (poll fuel k) m (fun xs m' _ => xs = take k (reports m) ∧ reports m' = drop k (reports m)).
Proof.
  revert k m. induction fuel as [|fuel IH]; intros [|k] m Hok Hk Hfuel; simpl in Hfuel; try lia;
    try (by apply wp_ret).
  cbn [poll]. step. apply wp_query; [done|intros He; rewrite He in Hk; simpl in Hk; lia| |].
  - intros x m' Hm Hok' Hl. step. rewrite Hm in Hk. simpl in Hk.
    eapply wp_mono; [apply IH; [done|lia|lia]|]. intros xs m2 ? [-> Hm2]. step. by rewrite Hm.
  - intros m' Hm Hok' Hl. rewrite <- Hm in *. apply IH; [done|done|simpl; lia].
Qed.
End WebClientSpec.
