(* ===== verification/WebClientProps.v ===== *)
(** * lua-webclient.c: the claims *)
From S2P Require Import Prelude Libc WebClient WebClientSpec.

Module WebClientProps.
Import WebClient WebClientSpec.

(** C28: whatever the pieces in which curl delivers a response, every call of the write
    callback reports its whole length, and [get_respond] returns the bytes of the
    pieces in order, with the error curl has stored if there is one. When the block
    cannot be grown for some piece, the content stops before that piece and the error
    says so. *)
Theorem response_content h hd form e cs :
  Forall chunk_ok cs → len (content_of cs) < max_content →
  returns (deliver cs (Webrequest h hd form e None 0 0 false)) (fun '(ns, r) =>
    ns = (fun c => len (bytes c)) <$> cs ∧
    ∃ cs1 cs2 strs r', cs = cs1 ++ cs2 ∧ webclient_getrespond (Live r) = Done (strs, Live r', []) ∧
      match cs2 with
      | [] => strs = content_of cs1 :: match e with [] => [] | _ => [e] end
      | c :: _ => room c = false ∧ strs = [content_of cs1; lit "not enough memory."]
      end).
Proof.
  intros Hcs Hlt. eapply returns_mono.
  - apply (deliver_spec []); [|done|done].
    split; [split; [done|by exists []]|]. split; [done|]. split; [done|]. split; [simpl; lia|done].
  - intros [ns r] (-> & He & cs1 & cs2 & Heq & Hs & Hr). split; [done|]. simpl in Heq. subst cs.
    pose proof (push_respond_spec _ _ Hs) as Hp. exists cs1, cs2.
    unfold webclient_getrespond, request_arg, bind, get, lift, put, ret. cbn [curl].
    rewrite Hp. destruct Hr as [[-> ->]|(-> & c & Hc & Hroom)].
    + rewrite He. simpl. eexists _, r. split; [done|]. split; [done|]. by destruct e.
    + eexists _, _. split; [done|]. split; [done|]. destruct cs2 as [|c' cs2]; [done|].
      by simplify_eq/=.
Qed.

Lemma response_content_witness :
  returns (deliver [Chunk true 1 3 (lit "abc"); Chunk true 2 1 (lit "de")]
      (Webrequest 7 [] None [] None 0 0 false)) (fun '(ns, r) =>
    ns = [3; 2] ∧ ∃ r', webclient_getrespond (Live r) = Done ([lit "abcde"], Live r', [])).
Proof.
  eapply returns_mono.
  - apply (response_content 7 [] None [] [Chunk true 1 3 (lit "abc"); Chunk true 2 1 (lit "de")]);
      [repeat constructor; simpl; lia|unfold max_content; simpl; lia].
  - intros [ns r] (-> & cs1 & cs2 & strs & r' & Hcs & Hg & Hm). split; [done|].
    destruct cs2 as [|c cs2].
    + rewrite app_nil_r in Hcs. subst. by exists r'.
    + destruct Hm as [Hroom _]. exfalso.
      assert (c ∈ [Chunk true 1 3 (lit "abc"); Chunk true 2 1 (lit "de")]) as Hin.
      { rewrite Hcs. apply elem_of_app. right. left. }
      rewrite !elem_of_cons, elem_of_nil in Hin. destruct Hin as [->|[->|[]]]; done.
Defined.

(** C40: the array of eight form options is large enough for every entry of the form
    table whose keys are distinct as C strings: the fields become options, in order,
    the unknown ones left out, without a write outside the array and without an old
    option of an earlier entry; [curl_formadd] gets them until it refuses an entry,
    and then the form is freed and the result is NULL. *)
Theorem forms_fit {S} formadd (s : S) kvss :
  Forall distinct_keys kvss →
  webclient_tohttppost formadd ((fun kvs => Some (fields_of kvs)) <$> kvss) s =
    let '(good, bad) := span formadd (entry_forms <$> kvss) in
    match bad with
    | [] => Done (match good with [] => None | _ => Some good end, s, FormAdd <$> good)
    | f :: _ => Done (None, s, (FormAdd <$> good) ++ [FormAdd f; FormFree])
    end.
Proof.
  intros Hd. unfold webclient_tohttppost, bind.
  rewrite entries_loop_spec by done. unfold post_result.
  destruct (span formadd (entry_forms <$> kvss)) as [good [|f bad]]; simpl.
  - destruct good; simpl; by rewrite ?app_nil_r.
  - by rewrite fmap_app, <- app_assoc.
Qed.

(** Two entries: the stale option of the first one is not seen for the second. *)
Definition form_example : list (list (list Z * option (list Z))) :=
  [[(lit "filename", Some (lit "a.txt")); (lit "contents", Some (lit "xy")); (lit "name", Some (lit "f"))];
   [(lit "name", Some (lit "g")); (lit "color", None)]].

Lemma forms_fit_witness :
  webclient_tohttppost (fun _ => true) ((fun kvs => Some (fields_of kvs)) <$> form_example) tt =
    Done (Some [[(CURLFORM_FILENAME, Pointer (Some (lit "a.txt")));
                 (CURLFORM_COPYCONTENTS, Pointer (Some (lit "xy"))); (CURLFORM_CONTENTSLENGTH, Size 2);
                 (CURLFORM_COPYNAME, Pointer (Some (lit "f")))];
                [(CURLFORM_COPYNAME, Pointer (Some (lit "g")))]], tt,
          FormAdd <$> (entry_forms <$> form_example)).
Proof.
  rewrite (forms_fit (fun _ => true) tt form_example); [vm_compute; reflexivity|].
  repeat constructor; apply (bool_decide_unpack _); vm_compute; exact I.
Defined.

(** Keys that C reads as the same string fill the array: the end mark is written behind it. *)
Definition same_keys : list field :=
  [(Some (lit "contents"), None); (Some (lit "contents" ++ [0]), None);
   (Some (lit "contents" ++ [0; 1]), None); (Some (lit "contents" ++ [0; 2]), None)].

Lemma forms_overrun formadd :
  webclient_tohttppost (S:=unit) formadd [Some same_keys] tt = Fault OutOfBounds.
Proof. vm_compute. reflexivity. Qed.

(** When the array is just full, the field whose key was not taken from the stack breaks
    the walk over the entries. *)
Lemma forms_full formadd : (∀ f, formadd f = true) →
  webclient_tohttppost (S:=unit) formadd
    [Some ([(Some (lit "name"), None); (Some (lit "file"), None); (Some (lit "filename"), None)] ++ take 2 same_keys)] tt =
  Raise (LuaError (lit "invalid key to 'next'")).
Proof. intros Hf. vm_compute. rewrite Hf. reflexivity. Qed.

(** A request that is not added keeps neither its handle nor its record, but the form
    stays allocated: no call frees it. *)
Lemma form_leaked {S} (s : S) formadd handle p url kvss (ms : Z) :
  Forall distinct_keys kvss → kvss ≠ [] → (∀ f, formadd f = true) → 0 ≤ ms →
  wp (webclient_request formadd (Some handle) false p (Some url)
        (PostForm (((fun kvs => Some (fields_of kvs)) <$> kvss))) (Some ms)) s
     (fun r _ calls => r = None ∧ EasyCleanup handle ∈ calls ∧ FreeRequest ∈ calls ∧
        (FormFree ∉ calls) ∧ (RequestFormFree (Some p) ∉ calls)).
Proof.
  intros Hd Hne Hadd Hms.
  assert (span formadd (entry_forms <$> kvss) = (entry_forms <$> kvss, [])) as Hspan.
  { rewrite <- (app_nil_r (entry_forms <$> kvss)) at 1.
    apply span_all; [apply Forall_true; intros; apply Hadd|done]. }
  destruct kvss as [|kvs kvss]; [done|]. eexists _, s, _. split.
  - unfold webclient_request, webclient_tohttppost, bind.
    rewrite entries_loop_spec by done. unfold post_result. rewrite Hspan. simpl.
    destruct (Z.ltb_spec ms 0); [lia|]. reflexivity.
  - split; [done|]. rewrite !app_nil_r.
    set_unfold. naive_solver.
Qed.

(** C30: every request that finishes is reported, once and in the order of the messages,
    however many rounds of [curl_multi_perform] it takes: when [k] requests finish
    within the coming rounds, a loop that calls [query] until it has [k] reports ends
    with the first [k] of them, after at most [k] queries more than there are rounds;
    messages of other kinds are skipped. *)
Theorem finished_reported k q ps :
  Forall perform_ok ps → (k ≤ length (reports (Multi q ps)))%nat →
  wp (poll (k + length ps) k) (Multi q ps) (fun xs m _ =>
    xs = take k (reports (Multi q ps)) ∧ reports m = drop k (reports (Multi q ps))).
Proof. intros Hok Hk. by apply poll_spec. Qed.

Lemma finished_reported_witness :
  wp (poll 4 2) (Multi [] [(0, []); (-1, [Message false 0 0; Message true 7 0; Message true 8 28])])
    (fun xs m _ => xs = [(7, 0); (8, 28)] ∧ reports m = []).
Proof.
  apply (finished_reported 2 [] [(0, []); (-1, [Message false 0 0; Message true 7 0; Message true 8 28])]).
  - constructor; [by left|]. constructor; [by right|constructor].
  - vm_compute. lia.
Defined.
End WebClientProps.
