(* ===== verification/Bigint.v ===== *)
(** * dtoa.c: big integers

    A [Bigint] is a block of 32-bit words; the cells of a block that were never
    written are [None]. Blocks are values that a variable owns: [Balloc] takes one
    from the free list of its size, or makes one, and [Bfree] puts it back. The state
    is the free lists, the part of the private memory that is used, and the chain
    [p5s] of the powers 5^(4*2^i). Effects tell which blocks were handed out and
    given back. *)
From S2P Require Import Prelude.

Module Bigint.

Abbreviation cell := (option Z).

Record Bigint := mkBigint {
  k : Z; maxwds : Z; sign : Z; wds : Z; x : list cell
}.
Definition set_x (xs : list cell) (b : Bigint) : Bigint := mkBigint (k b) (maxwds b) (sign b) (wds b) xs.
Definition set_wds (n : Z) (b : Bigint) : Bigint := mkBigint (k b) (maxwds b) (sign b) n (x b).
Definition set_sign (s : Z) (b : Bigint) : Bigint := mkBigint (k b) (maxwds b) s (wds b) (x b).

Record pool := mkPool {
  freelist : list (list Bigint);
  pmem_next : Z;
  p5s : list Bigint
}.

Definition Kmax : Z := 7.
(** [PRIVATE_mem], in doubles. *)
Definition PRIVATE_mem : Z := 288.
(** The static variables before the first call. *)
Definition pool0 : pool := mkPool (replicate 8 []) 0 [].

(** [Got n]: a block of size [n] handed out, [Malloced] and [Released]: by [malloc] and
    to [free], [Gave n]: a block given back. *)
Inductive event := Got (n : Z) | Gave (n : Z) | Malloced (bytes : Z) | Released (n : Z).

Definition FFFFFFFF : Z := 4294967295.

Section Bigint.
Context {E : Type}.
Implicit Types (xs : list cell).

(** A read of a word. *)
Definition rdw (xs : list cell) (i : Z) : outcome E Z :=
  let! c := rd xs i in
  match c with Some w => Done w | None => Fault Uninitialised end.
(** A write of a word, truncated to its width. *)
Definition wrw (xs : list cell) (i : Z) (w : Z) : outcome E (list cell) := wr xs i (Some (u32 w)).

(** [sizeof(Bigint)] is 32, [len] an unsigned int, in doubles. *)
Definition block_len (n : Z) : Z := u32 (u64 (32 + (n - 1) * 4 + 8 - 1) / 8).

Definition Balloc (n : Z) : M pool event E Bigint :=
  let* s := get in
  let* free := (if n <=? Kmax then lift (rd (freelist s) n) else ret []) in
  match free with
  | rv :: next =>
      put (mkPool (zset (freelist s) n next) (pmem_next s) (p5s s)) ;;
      emit (Got n) ;;
      ret (set_wds 0 (set_sign 0 rv))
  | [] =>
      let* maxwds := lift (int (Z.shiftl 1 n)) in
      let len := block_len maxwds in
      (if (n <=? Kmax) && (pmem_next s + len <=? PRIVATE_mem)
       then put (mkPool (freelist s) (pmem_next s + len) (p5s s))
       else emit (Malloced (len * 8))) ;;
      emit (Got n) ;;
      ret (mkBigint n maxwds 0 0 (replicate (Z.to_nat maxwds) None))
  end.

Definition Bfree (v : Bigint) : M pool event E unit :=
  (if Kmax <? k v then emit (Released (k v))
   else
     let* s := get in
     let* l := lift (rd (freelist s) (k v)) in
     put (mkPool (zset (freelist s) (k v) (v :: l)) (pmem_next s) (p5s s))) ;;
  emit (Gave (k v)).

(** [memcpy] from the field [sign] on. *)
Definition Bcopy (b1 b : Bigint) : outcome E Bigint :=
  let! ws := rdn (x b) (wds b) in
  let! xs := memcpy (x b1) 0 ws in
  Done (mkBigint (k b1) (maxwds b1) (sign b) (wds b) xs).

(** ** Multiplication by an int *)
Fixpoint multadd_loop (fuel : nat) (xs : list cell) (i n m carry : Z) : outcome E (list cell * Z) :=
  match fuel with
  | O => NoFuel
  | S fuel' =>
      let! w := rdw xs i in
      let y := u64 (w * u64 m + carry) in
      let carry := Z.shiftr y 32 in
      let! xs := wrw xs i (Z.land y FFFFFFFF) in
      if i + 1 <? n then multadd_loop fuel' xs (i + 1) n m carry else Done (xs, carry)
  end.

Definition multadd (b : Bigint) (m a : Z) : M pool event E Bigint :=
  let* (xs, carry) := lift (multadd_loop (S (Z.to_nat (wds b))) (x b) 0 (wds b) m (u64 a)) in
  let b := set_x xs b in
  if carry =? 0 then ret b
  else
    let n := wds b in
    let* b :=
      (if maxwds b <=? n then
         let* b1 := Balloc (k b + 1) in
         let* b1 := lift (Bcopy b1 b) in
         Bfree b ;;
         ret b1
       else ret b) in
    let* xs := lift (wrw (x b) n carry) in
    ret (set_wds (n + 1) (set_x xs b)).

(** ** Decimal digits *)
Fixpoint s2b_size (fuel : nat) (n y size : Z) : Z :=
  match fuel with
  | O => size
  | S fuel' => if y <? n then s2b_size fuel' n (Z.shiftl y 1) (size + 1) else size
  end.
(** [b = multadd(b, 10, *s++ - '0')] for the characters [i] to [n - 1]. *)
Fixpoint s2b_loop (cnt : nat) (b : Bigint) (s : list Z) (pos : Z) : M pool event E Bigint :=
  match cnt with
  | O => ret b
  | S cnt' =>
      let* c := lift (rd s pos) in
      let* b := multadd b 10 (c - 48) in
      s2b_loop cnt' b s (pos + 1)
  end.
Definition s2b (s : list Z) (nd0 nd y9 dplen : Z) : M pool event E Bigint :=
  let n := Z.quot (nd + 8) 9 in
  let* b := Balloc (s2b_size 31 n 1 0) in
  let* xs := lift (wrw (x b) 0 y9) in
  let b := set_wds 1 (set_x xs b) in
  if 9 <? nd0 then
    let* b := s2b_loop (Z.to_nat (nd0 - 9)) b s 9 in
    s2b_loop (Z.to_nat (nd - nd0)) b s (nd0 + dplen)
  else s2b_loop (Z.to_nat (nd - 9)) b s (dplen + 9).

(** ** Zero bits at the ends of a word *)
Definition bits_clear (w mask : Z) : bool := Z.land w mask =? 0.

Definition hi0bits (w : Z) : Z :=
  let '(n, w) := if bits_clear w 4294901760 then (16, u32 (Z.shiftl w 16)) else (0, w) in
  let '(n, w) := if bits_clear w 4278190080 then (n + 8, u32 (Z.shiftl w 8)) else (n, w) in
  let '(n, w) := if bits_clear w 4026531840 then (n + 4, u32 (Z.shiftl w 4)) else (n, w) in
  let '(n, w) := if bits_clear w 3221225472 then (n + 2, u32 (Z.shiftl w 2)) else (n, w) in
  if bits_clear w 2147483648 then
    if bits_clear w 1073741824 then 32 else n + 1
  else n.

(** The count and the new value of the word. *)
Definition lo0bits (y : Z) : Z * Z :=
  if negb (bits_clear y 7) then
    if negb (bits_clear y 1) then (0, y)
    else if negb (bits_clear y 2) then (1, Z.shiftr y 1)
    else (2, Z.shiftr y 2)
  else
    let '(n, w) := if bits_clear y 65535 then (16, Z.shiftr y 16) else (0, y) in
    let '(n, w) := if bits_clear w 255 then (n + 8, Z.shiftr w 8) else (n, w) in
    let '(n, w) := if bits_clear w 15 then (n + 4, Z.shiftr w 4) else (n, w) in
    let '(n, w) := if bits_clear w 3 then (n + 2, Z.shiftr w 2) else (n, w) in
    if bits_clear w 1 then
      let w := Z.shiftr w 1 in
      if w =? 0 then (32, y) else (n + 1, w)
    else (n, w).

Definition i2b (i : Z) : M pool event E Bigint :=
  let* b := Balloc 1 in
  let* xs := lift (wrw (x b) 0 i) in
  ret (set_wds 1 (set_x xs b)).

(** ** Multiplication *)
Fixpoint zero_loop (n : nat) (xs : list cell) (i : Z) : outcome E (list cell) :=
  match n with
  | O => Done xs
  | S n' => let! xs := wrw xs i 0 in zero_loop n' xs (i + 1)
  end.

(** One word [y] of [b] times [a], added to [c] from [j] on. *)
Fixpoint mult_row (fuel : nat) (xa : list cell) (i wa y : Z) (xc : list cell) (j carry : Z)
    : outcome E (list cell) :=
  match fuel with
  | O => NoFuel
  | S fuel' =>
      let! a := rdw xa i in
      let! c := rdw xc j in
      let z := u64 (a * y + c + carry) in
      let carry := Z.shiftr z 32 in
      let! xc := wrw xc j (Z.land z FFFFFFFF) in
      if i + 1 <? wa then mult_row fuel' xa (i + 1) wa y xc (j + 1) carry
      else wrw xc (j + 1) carry
  end.

Fixpoint mult_loop (n : nat) (xa : list cell) (wa : Z) (xb : list cell) (i : Z) (xc : list cell)
    : outcome E (list cell) :=
  match n with
  | O => Done xc
  | S n' =>
      let! y := rdw xb i in
      let! xc := (if y =? 0 then Done xc else mult_row (S (Z.to_nat wa)) xa 0 wa y xc i 0) in
      mult_loop n' xa wa xb (i + 1) xc
  end.

(** [for(; wc > 0 && !*--xc; --wc)]. *)
Fixpoint trim_loop (n : nat) (xc : list cell) : outcome E Z :=
  match n with
  | O => Done 0
  | S n' =>
      let! w := rdw xc (Z.of_nat n') in
      if w =? 0 then trim_loop n' xc else Done (Z.of_nat n)
  end.

Definition mult (a b : Bigint) : M pool event E Bigint :=
  let '(a, b) := if wds a <? wds b then (b, a) else (a, b) in
  let wc := wds a + wds b in
  let* c := Balloc (if maxwds a <? wc then k a + 1 else k a) in
  let* xc := lift (zero_loop (Z.to_nat wc) (x c) 0) in
  let* xc := lift (mult_loop (Z.to_nat (wds b)) (x a) (wds a) (x b) 0 xc) in
  let* wc := lift (trim_loop (Z.to_nat wc) xc) in
  ret (set_wds wc (set_x xc c)).

(** ** Multiplication by a power of 5 *)
Definition p05 : list Z := [5; 25; 125].
Definition get_p5 (i : nat) : M pool event E (option Bigint) :=
  let* s := get in ret (p5s s !! i).
Definition add_p5 (p : Bigint) : M pool event E unit :=
  modify (fun s => mkPool (freelist s) (pmem_next s) (p5s s ++ [p])).

(** [p5] is the element [i] of the chain. *)
Fixpoint pow5_loop (fuel : nat) (b : Bigint) (n : Z) (i : nat) (p5 : Bigint) : M pool event E Bigint :=
  match fuel with
  | O => lift NoFuel
  | S fuel' =>
      let* b :=
        (if Z.odd n then
           let* b1 := mult b p5 in
           Bfree b ;;
           ret b1
         else ret b) in
      let n := Z.shiftr n 1 in
      if n =? 0 then ret b
      else
        let* next := get_p5 (S i) in
        let* p51 :=
          match next with
          | Some p51 => ret p51
          | None =>
              let* p51 := mult p5 p5 in
              add_p5 p51 ;;
              ret p51
          end in
        pow5_loop fuel' b n (S i) p51
  end.

Definition pow5mult (b : Bigint) (n : Z) : M pool event E Bigint :=
  let i := Z.land n 3 in
  let* b :=
    (if i =? 0 then ret b
     else
       let* m := lift (rd p05 (i - 1)) in
       multadd b m 0) in
  let n := Z.shiftr n 2 in
  if n =? 0 then ret b
  else
    let* first := get_p5 0 in
    let* p5 :=
      match first with
      | Some p5 => ret p5
      | None =>
          let* p5 := i2b 625 in
          add_p5 p5 ;;
          ret p5
      end in
    pow5_loop 32 b n 0 p5.

(** ** Shifts *)
(** [for(i = b->maxwds; n1 > i; i <<= 1) k1++]. *)
Fixpoint lshift_size (fuel : nat) (n1 i k1 : Z) : outcome E Z :=
  match fuel with
  | O => NoFuel
  | S fuel' =>
      if i <? n1 then let! i := int (Z.shiftl i 1) in lshift_size fuel' n1 i (k1 + 1)
      else Done k1
  end.

(** The words of [b], shifted by [n] bits, from [j] on; the last carry is written
    behind them. *)
Fixpoint shift_loop (fuel : nat) (xb : list cell) (i wb n : Z) (x1 : list cell) (j z : Z)
    : outcome E (list cell * Z) :=
  match fuel with
  | O => NoFuel
  | S fuel' =>
      let! w := rdw xb i in
      let! x1 := wrw x1 j (Z.lor (u32 (Z.shiftl w n)) z) in
      let z := Z.shiftr w (32 - n) in
      if i + 1 <? wb then shift_loop fuel' xb (i + 1) wb n x1 (j + 1) z
      else let! x1 := wrw x1 (j + 1) z in Done (x1, z)
  end.
Fixpoint copy_loop (fuel : nat) (xb : list cell) (i wb : Z) (x1 : list cell) (j : Z)
    : outcome E (list cell) :=
  match fuel with
  | O => NoFuel
  | S fuel' =>
      let! w := rdw xb i in
      let! x1 := wrw x1 j w in
      if i + 1 <? wb then copy_loop fuel' xb (i + 1) wb x1 (j + 1) else Done x1
  end.

Definition lshift (b : Bigint) (n : Z) : M pool event E Bigint :=
  let words := Z.shiftr n 5 in
  let n1 := words + wds b + 1 in
  let* k1 := lift (lshift_size 32 n1 (maxwds b) (k b)) in
  let* b1 := Balloc k1 in
  let* x1 := lift (zero_loop (Z.to_nat words) (x b1) 0) in
  let bits := Z.land n 31 in
  let* (x1, n1) := lift
    (if bits =? 0 then
       let! x1 := copy_loop (S (Z.to_nat (wds b))) (x b) 0 (wds b) x1 words in Done (x1, n1)
     else
       let! (x1, z) := shift_loop (S (Z.to_nat (wds b))) (x b) 0 (wds b) bits x1 words 0 in
       Done (x1, if z =? 0 then n1 else n1 + 1)) in
  Bfree b ;;
  ret (set_wds (n1 - 1) (set_x x1 b1)).

(** ** Comparison and difference *)
(** From the word [n - 1] downwards. *)
Fixpoint cmp_loop (n : nat) (xa xb : list cell) : outcome E Z :=
  match n with
  | O => Fault OutOfBounds
  | S n' =>
      let! a := rdw xa (Z.of_nat n') in
      let! b := rdw xb (Z.of_nat n') in
      if negb (a =? b) then Done (if a <? b then -1 else 1)
      else match n' with O => Done 0 | _ => cmp_loop n' xa xb end
  end.

Definition cmp (a b : Bigint) : outcome E Z :=
  let i := wds a - wds b in
  if negb (i =? 0) then Done i else cmp_loop (Z.to_nat (wds b)) (x a) (x b).

(** Both numbers have words, then [a] alone; [borrow] is 0 or 1. *)
Fixpoint diff_loop (fuel : nat) (xa : list cell) (wa : Z) (xb : list cell) (wb : Z) (xc : list cell)
    (i borrow : Z) : outcome E (list cell) :=
  match fuel with
  | O => NoFuel
  | S fuel' =>
      let! a := rdw xa i in
      let! b := (if (i =? 0) || (i <? wb) then rdw xb i else Done 0) in
      let y := u64 (a - b - borrow) in
      let borrow := Z.land (Z.shiftr y 32) 1 in
      let! xc := wrw xc i (Z.land y FFFFFFFF) in
      if (i + 1 <? wb) || (i + 1 <? wa) then diff_loop fuel' xa wa xb wb xc (i + 1) borrow
      else Done xc
  end.
(** [while(!*--xc) wa--]. *)
Fixpoint diff_trim (n : nat) (xc : list cell) : outcome E Z :=
  match n with
  | O => Fault OutOfBounds
  | S n' => let! w := rdw xc (Z.of_nat n') in if w =? 0 then diff_trim n' xc else Done (Z.of_nat n)
  end.

Definition diff (a b : Bigint) : M pool event E Bigint :=
  let* i := lift (cmp a b) in
  if i =? 0 then
    let* c := Balloc 0 in
    let* xc := lift (wrw (x c) 0 0) in
    ret (set_wds 1 (set_x xc c))
  else
    let '(a, b, s) := if i <? 0 then (b, a, 1) else (a, b, 0) in
    let* c := Balloc (k a) in
    let* xc := lift (diff_loop (S (Z.to_nat (wds a))) (x a) (wds a) (x b) (wds b) (x c) 0 0) in
    let* wa := lift (diff_trim (Z.to_nat (wds a)) xc) in
    ret (set_wds wa (set_x xc (set_sign s c))).

(** ** Quotient and remainder *)
Definition dshift (b : Bigint) (p2 : Z) : outcome E Z :=
  let! w := rdw (x b) (wds b - 1) in
  let rv := hi0bits w - 4 in
  let rv := if 0 <? p2 then rv - p2 else rv in
  Done (Z.land rv 31).

(** [b -= q * S], word by word up to the word [n] of [S]. *)
Fixpoint submul_loop (fuel : nat) (xb xs : list cell) (i n q borrow carry : Z)
    : outcome E (list cell) :=
  match fuel with
  | O => NoFuel
  | S fuel' =>
      let! s := rdw xs i in
      let! b := rdw xb i in
      let ys := u64 (s * q + carry) in
      let carry := Z.shiftr ys 32 in
      let y := u64 (b - Z.land ys FFFFFFFF - borrow) in
      let borrow := Z.land (Z.shiftr y 32) 1 in
      let! xb := wrw xb i (Z.land y FFFFFFFF) in
      if i + 1 <=? n then submul_loop fuel' xb xs (i + 1) n q borrow carry else Done xb
  end.

(** [while(--bxe > bx && !*bxe) --n]. *)
Fixpoint quorem_trim (fuel : nat) (xb : list cell) (bxe n : Z) : outcome E Z :=
  match fuel with
  | O => NoFuel
  | S fuel' =>
      let bxe := bxe - 1 in
      if 0 <? bxe then
        let! w := rdw xb bxe in
        if w =? 0 then quorem_trim fuel' xb bxe (n - 1) else Done n
      else Done n
  end.

(** The two steps that end a subtraction: the words above [n] are dropped when the
    word [n] is 0. *)
Definition quorem_end (b : Bigint) (n : Z) : outcome E (Bigint * Z) :=
  let! w := rdw (x b) n in
  if w =? 0 then
    let! n := quorem_trim (S (Z.to_nat n)) (x b) n n in
    Done (set_wds n b, n)
  else Done (b, n).

(** The quotient and the remainder, in the block of [b]. *)
Definition quorem (b s : Bigint) : outcome E (Z * Bigint) :=
  let n := wds s in
  if wds b <? n then Done (0, b)
  else
    let n := n - 1 in
    let! bn := rdw (x b) n in
    let! sn := rdw (x s) n in
    let d := u32 (sn + 1) in
    if d =? 0 then Fault IntOverflow
    else
      let q := bn / d in
      let! (b, n1) :=
        (if q =? 0 then Done (b, n)
         else
           let! xb := submul_loop (S (Z.to_nat n)) (x b) (x s) 0 n q 0 0 in
           quorem_end (set_x xb b) n) in
      let! c := cmp b s in
      if 0 <=? c then
        let! xb := submul_loop (S (Z.to_nat n)) (x b) (x s) 0 n 1 0 0 in
        let! (b, _) := quorem_end (set_x xb b) n1 in
        Done (u32 (q + 1), b)
      else Done (q, b).
End Bigint.
End Bigint.
