(* ===== verification/BigintSpec.v ===== *)
(** * Big integers: the words, their value, and the loops on them

    [value ws] is the number of the words [ws], the lowest first. [repr b ws]: the block
    [b] holds the words [ws]; [big b n]: it holds the number [n > 0] without leading
    zero words. Each loop of dtoa.c is shown to compute on a segment of its arrays. *)
From S2P Require Import Prelude Bigint.

Module BigintSpec.
Import Bigint.

(** ** Words *)
Abbreviation W := 4294967296.
Definition word_ok (w : Z) : Prop := 0 ≤ w < W.
Abbreviation words_ok := (Forall word_ok).

Fixpoint value (ws : list Z) : Z :=
  match ws with [] => 0 | w :: ws => w + W * value ws end.

Lemma size_S n : W ^ Z.of_nat (S n) = W * W ^ Z.of_nat n.
Proof. rewrite Nat2Z.inj_succ, Z.pow_succ_r by lia. done. Qed.

Lemma size_pos (n : nat) : 0 < W ^ Z.of_nat n.
Proof. apply Z.pow_pos_nonneg; lia. Qed.

Lemma value_range ws : words_ok ws → 0 ≤ value ws < W ^ len ws.
Proof.
  induction 1 as [|w ws Hw Hws IH]; [done|]. cbn [length]. rewrite size_S. cbn [value].
  unfold word_ok in Hw. lia.
Qed.

Lemma value_app ws vs : value (ws ++ vs) = value ws + W ^ len ws * value vs.
Proof.
  induction ws as [|w ws IH]; [cbn [app value length]; change (W ^ Z.of_nat 0) with 1; lia|].
  cbn [length]. rewrite <- app_comm_cons, size_S. cbn [value]. rewrite IH. ring.
Qed.

Lemma value_zeros n : value (replicate n 0) = 0.
Proof. induction n as [|n IH]; [done|]. cbn [replicate value]. lia. Qed.

(** No leading zero word. *)
Definition normal (ws : list Z) : Prop := ∃ ws' w, ws = ws' ++ [w] ∧ 0 < w.

Lemma normal_bound ws : words_ok ws → normal ws → W ^ (len ws - 1) ≤ value ws.
Proof.
  intros Hws (ws' & w & -> & Hw). apply Forall_app in Hws as [Hws' _].
  rewrite value_app, length_app. cbn [length value].
  replace (Z.of_nat (length ws' + 1) - 1) with (len ws') by lia.
  pose proof (value_range ws' Hws'). pose proof (size_pos (length ws')). nia.
Qed.

Lemma normal_nonnil ws : normal ws → (0 < length ws)%nat.
Proof. intros (ws' & w & -> & _). rewrite length_app. cbn. lia. Qed.

(** ** Halves of a double word *)
Lemma land_mask y : Z.land y FFFFFFFF = y mod W.
Proof. change FFFFFFFF with (Z.ones 32). by rewrite Z.land_ones by lia. Qed.

Lemma shiftr_word y : Z.shiftr y 32 = y / W.
Proof. by rewrite Z.shiftr_div_pow2 by lia. Qed.

Lemma word_mod y : word_ok (y mod W).
Proof. unfold word_ok. apply Z.mod_pos_bound. lia. Qed.

(** The borrow of a difference of words that is taken in 64 bits. *)
Lemma borrow_spec y :
  - W ≤ y < W →
  let b := Z.land (Z.shiftr (u64 y) 32) 1 in
  Z.land (u64 y) FFFFFFFF = y mod W ∧ y = y mod W - W * b ∧ 0 ≤ b ≤ 1.
Proof.
  intros Hy b.
  assert (Z.land (u64 y) FFFFFFFF = y mod W) as Hl.
  { rewrite land_mask. unfold wrap. change (2 ^ 64) with (W * W).
    rewrite Z.rem_mul_r by lia. rewrite Z.mul_comm, Z.mod_add by lia. apply Z.mod_mod. lia. }
  split; [done|]. unfold b. rewrite shiftr_word. unfold wrap. change (2 ^ 64) with (W * W).
  destruct (decide (0 ≤ y)).
  - rewrite (Z.mod_small y (W * W)) by lia. rewrite Z.div_small, Z.land_0_l by lia.
    rewrite Z.mod_small by lia. lia.
  - rewrite <- (Z.mod_add y 1 (W * W)) by lia. rewrite (Z.mod_small (y + _)) by lia.
    replace (y + 1 * (W * W)) with (y + W + (W - 1) * W) by lia.
    rewrite Z.div_add by lia. rewrite <- (Z.mod_add y 1 W) by lia.
    destruct (decide (y = - W)) as [->|]; [done|].
    rewrite Z.div_small, Z.mod_small by lia. change (Z.land (0 + (W - 1)) 1) with 1. lia.
Qed.

(** ** Reads and writes at a position of an array *)

(** The next word of a segment moves to what is done. *)
Lemma snoc_cells (A B : list cell) w : A ++ Some w :: B = (A ++ [Some w]) ++ B.
Proof. by rewrite <- app_assoc. Qed.

Lemma len_snoc {C} (A : list C) w : len (A ++ [w]) = len A + 1.
Proof. rewrite length_app. cbn. lia. Qed.

(** Side conditions on positions in segments. *)
Ltac seg := rewrite ?len_snoc; cbn [length] in *; first [assumption | lia | done].

Section loops.
Context {E : Type}.
Implicit Types (A B : list cell) (ws : list Z).

Lemma rdw_mid A w B i : i = len A → rdw (E:=E) (A ++ Some w :: B) i = Done w.
Proof.
  intros ->. unfold rdw, rd. rewrite zget_of_nat, lookup_app_r, Nat.sub_diag by lia. done.
Qed.

Lemma wrw_mid A c B i w :
  i = len A → word_ok w → wrw (E:=E) (A ++ c :: B) i w = Done (A ++ Some w :: B).
Proof.
  intros -> Hw. unfold wrw, word_ok in *.
  rewrite wr_done by (rewrite length_app; cbn [length]; lia).
  unfold zset. rewrite Nat2Z.id, insert_app_r_alt, Nat.sub_diag by lia.
  rewrite (wrap_small 32) by (change (2 ^ 32) with W; lia). done.
Qed.

Lemma multadd_loop_spec fuel ws A B i n m carry :
  i = len A → n = i + len ws → ws ≠ [] → words_ok ws → 0 ≤ m < 2147483648 → word_ok carry →
  (length ws ≤ fuel)%nat →
  ∃ ws' c, multadd_loop (E:=E) fuel (A ++ (Some <$> ws) ++ B) i n m carry =
      Done (A ++ (Some <$> ws') ++ B, c) ∧
    length ws' = length ws ∧ words_ok ws' ∧ word_ok c ∧
    value ws' + W ^ len ws * c = value ws * m + carry.
Proof.
  intros Hi Hn Hne Hws Hm Hc Hf. revert fuel A i carry Hi Hn Hc Hf.
  induction Hws as [|w ws Hw Hws IH]; intros fuel A i carry Hi Hn Hc Hf; [done|].
  destruct fuel as [|fuel]; [cbn in Hf; lia|]. cbn [multadd_loop].
  rewrite fmap_cons, <- app_comm_cons, rdw_mid by done. cbn [obind].
  unfold word_ok in *. rewrite (wrap_small 64 m) by (change (2 ^ 64) with (W * W); lia).
  set (y := w * m + carry). assert (0 ≤ y < W * W) as Hy by (unfold y; nia).
  rewrite (wrap_small 64 y) by (change (2 ^ 64) with (W * W); lia).
  rewrite land_mask, wrw_mid by (assumption || apply word_mod). cbn [obind].
  rewrite shiftr_word. pose proof (Z.div_mod y W ltac:(lia)) as Hdm.
  assert (0 ≤ y / W < W) as Hq.
  { split; [apply Z.div_pos; lia|apply Z.div_lt_upper_bound; lia]. }
  rewrite snoc_cells. cbn [length] in *. destruct ws as [|w2 ws].
  - destruct (Z.ltb_spec (i + 1) n) as [Hlt|_]; [cbn [length] in *; lia|].
    exists [y mod W], (y / W). rewrite <- app_assoc.
    split; [done|]. split; [done|]. split; [constructor; [apply word_mod|done]|].
    split; [lia|]. cbn [value length]. change (Z.of_nat 1) with 1. rewrite Z.pow_1_r. lia.
  - destruct (Z.ltb_spec (i + 1) n) as [_|Hge]; [|cbn [length] in *; lia].
    destruct (IH ltac:(done) fuel (A ++ [Some (y mod W)]) (i + 1) (y / W)) as
      (ws' & c & -> & Hl & Hok & Hc' & Hv); [rewrite len_snoc; lia|cbn [length] in *; lia|lia|lia|].
    exists (y mod W :: ws'), c. rewrite fmap_cons, <- app_assoc. split; [done|].
    split; [cbn [length] in *; lia|]. split; [constructor; [apply word_mod|done]|].
    split; [done|]. rewrite size_S. cbn [value length] in *. unfold y in *. lia.
Qed.

(** Segments of several words move the same way. *)
Lemma lt_continue (i n : Z) (ws : list Z) :
  n = i + 1 + len ws → (i + 1 <? n) = match ws with [] => false | _ => true end.
Proof. intros ->. destruct ws; cbn [length]; [apply Z.ltb_ge|apply Z.ltb_lt]; lia. Qed.

Lemma zero_loop_spec n A B i :
  i = len A → (n ≤ length B)%nat →
  zero_loop (E:=E) n (A ++ B) i = Done (A ++ (Some <$> replicate n 0) ++ drop n B).
Proof.
  revert A B i. induction n as [|n IH]; intros A B i Hi Hn; [done|].
  destruct B as [|c B]; [cbn in Hn; lia|]. cbn [zero_loop].
  rewrite wrw_mid by (done || (unfold word_ok; lia)). cbn [obind].
  rewrite snoc_cells, IH; [|rewrite len_snoc; lia|cbn in Hn; lia].
  by rewrite <- app_assoc.
Qed.

(** A product of words with two words added does not overflow. *)
Lemma row_word a y c carry :
  word_ok a → word_ok y → word_ok c → word_ok carry →
  let z := a * y + c + carry in
  u64 z = z ∧ word_ok (z / W) ∧ z = z mod W + W * (z / W).
Proof.
  intros Ha Hy Hc Hca z. unfold word_ok in *. assert (0 ≤ z < W * W) by (unfold z; nia).
  split; [apply wrap_small; change (2 ^ 64) with (W * W); lia|].
  split; [split; [apply Z.div_pos; lia|apply Z.div_lt_upper_bound; lia]|].
  pose proof (Z.div_mod z W). lia.
Qed.

Lemma mult_row_spec fuel ws cs A1 B1 A2 c0 B2 i n y j carry :
  i = len A1 → j = len A2 → n = i + len ws → ws ≠ [] → words_ok ws → words_ok cs →
  length cs = length ws → word_ok y → word_ok carry → (length ws ≤ fuel)%nat →
  ∃ cs', mult_row (E:=E) fuel (A1 ++ (Some <$> ws) ++ B1) i n y (A2 ++ (Some <$> cs) ++ c0 :: B2) j carry =
      Done (A2 ++ (Some <$> cs') ++ B2) ∧
    length cs' = S (length ws) ∧ words_ok cs' ∧ value cs' = value ws * y + value cs + carry.
Proof.
  intros Hi Hj Hn Hne Hws Hcs Hl Hy Hc Hf. revert fuel cs A1 A2 i j carry Hi Hj Hn Hcs Hl Hc Hf.
  induction Hws as [|w ws Hw Hws IH]; intros fuel cs A1 A2 i j carry Hi Hj Hn Hcs Hl Hc Hf; [done|].
  destruct fuel as [|fuel]; [cbn in Hf; lia|]. destruct cs as [|c cs]; [done|].
  apply Forall_cons in Hcs as [Hc1 Hcs]. cbn [mult_row].
  rewrite !fmap_cons, <- !app_comm_cons, !rdw_mid by done. cbn [obind].
  destruct (row_word w y c carry) as (Hz & Hq & Hdm); [done..|].
  set (z := w * y + c + carry) in *. rewrite Hz, land_mask, wrw_mid by (assumption || apply word_mod).
  cbn [obind]. rewrite shiftr_word, (snoc_cells A1), (snoc_cells A2). cbn [length] in *.
  rewrite (lt_continue i n ws) by lia. destruct ws as [|w2 ws].
  - destruct cs; [|done]. cbn [fmap list_fmap app].
    rewrite (wrw_mid (A2 ++ [Some (z mod W)])) by (done || rewrite len_snoc; lia).
    exists [z mod W; z / W]. rewrite <- app_assoc. split; [done|]. split; [done|].
    split; [constructor; [apply word_mod|by constructor]|]. cbn [value]. unfold z in *. lia.
  - destruct (IH ltac:(done) fuel cs (A1 ++ [Some w]) (A2 ++ [Some (z mod W)]) (i + 1) (j + 1) (z / W))
      as (cs' & -> & Hl' & Hok & Hv); [seg..|].
    exists (z mod W :: cs'). rewrite <- app_assoc. split; [done|]. split; [seg|].
    split; [constructor; [apply word_mod|done]|]. cbn [value] in *. unfold z in *. lia.
Qed.

Lemma mult_loop_spec ws A1 B1 bs Ab Bb cs A B i n :
  i = len A → i = len Ab → n = len ws → A1 = [] → ws ≠ [] → words_ok ws → words_ok bs → words_ok cs →
  length cs = length ws →
  ∃ cs', mult_loop (E:=E) (length bs) (A1 ++ (Some <$> ws) ++ B1) n (Ab ++ (Some <$> bs) ++ Bb) i
      (A ++ (Some <$> cs) ++ (Some <$> replicate (length bs) 0) ++ B) =
      Done (A ++ (Some <$> cs') ++ B) ∧
    length cs' = (length ws + length bs)%nat ∧ words_ok cs' ∧
    value cs' = value cs + value ws * value bs.
Proof.
  intros Hi Hib Hn -> Hne Hws Hbs. revert cs A Ab i Hi Hib.
  induction Hbs as [|b bs Hb Hbs IH]; intros cs A Ab i Hi Hib Hcs Hl.
  { exists cs. cbn [length mult_loop]. split; [done|]. split; [lia|]. split; [done|]. cbn [value]. lia. }
  cbn [length mult_loop]. rewrite fmap_cons, <- app_comm_cons, rdw_mid by done. cbn [obind replicate].
  rewrite fmap_cons. set (Z0 := (Some <$> replicate (length bs) 0) ++ B).
  assert (∃ cs1, (if b =? 0 then Done (A ++ (Some <$> cs) ++ (Some 0 :: Z0))
      else mult_row (S (Z.to_nat n)) ([] ++ (Some <$> ws) ++ B1) 0 n b (A ++ (Some <$> cs) ++ (Some 0 :: Z0)) i 0)
      = Done (E:=E) (A ++ (Some <$> cs1) ++ Z0) ∧
    length cs1 = S (length ws) ∧ words_ok cs1 ∧ value cs1 = value ws * b + value cs) as
    (cs1 & Hrow & Hl1 & Hok1 & Hv1).
  { destruct (Z.eqb_spec b 0) as [->|Hb0].
    - exists (cs ++ [0]). rewrite fmap_app, <- app_assoc. split; [done|].
      split; [rewrite length_app; cbn; lia|].
      split; [apply Forall_app; repeat constructor; done|]. rewrite value_app. cbn [value]. lia.
    - destruct (mult_row_spec (S (Z.to_nat n)) ws cs [] B1 A (Some 0) Z0 0 n b i 0)
        as (cs' & -> & ? & ? & Hv); [done || lia..|].
      exists cs'. split; [done|]. split; [done|]. split; [done|]. lia. }
  rewrite <- app_comm_cons. fold Z0. rewrite Hrow. cbn [obind]. clear Hrow.
  destruct cs1 as [|c cs1]; [done|]. apply Forall_cons in Hok1 as [Hc Hok1].
  rewrite fmap_cons, <- app_comm_cons, (snoc_cells A), (snoc_cells Ab). unfold Z0.
  destruct (IH cs1 (A ++ [Some c]) (Ab ++ [Some b]) (i + 1)) as (cs' & -> & Hl' & Hok' & Hv');
    [seg..|].
  exists (c :: cs'). rewrite <- app_assoc. split; [done|]. split; [cbn [length] in *; lia|].
  split; [by constructor|]. cbn [value] in *. rewrite Hv'. lia.
Qed.

(** The words that are left have no leading zero. *)
Lemma trim_loop_spec ws B n :
  n = length ws → words_ok ws → 0 < value ws →
  ∃ ws' zs, trim_loop (E:=E) n ((Some <$> ws) ++ B) = Done (len ws') ∧ ws = ws' ++ zs ∧
    normal ws' ∧ value ws' = value ws.
Proof.
  intros -> Hws. revert B. induction ws as [|w ws IH] using rev_ind; intros B Hv; [done|].
  rewrite length_app. cbn [length]. rewrite Nat.add_1_r. cbn [trim_loop].
  rewrite fmap_app, <- app_assoc. cbn [fmap list_fmap app].
  rewrite rdw_mid by (by rewrite length_fmap). cbn [obind].
  apply Forall_app in Hws as [Hws [Hw _]%Forall_cons]. rewrite value_app in Hv. cbn [value] in Hv.
  destruct (Z.eqb_spec w 0) as [->|Hne].
  - destruct (IH Hws (Some 0 :: B)) as (ws' & zs & Heq & -> & Hn & Hv'); [lia|].
    exists ws', (zs ++ [0]). rewrite Heq. split; [done|]. split; [by rewrite app_assoc|].
    split; [done|]. rewrite !value_app. cbn [value]. rewrite value_app in Hv'. lia.
  - exists (ws ++ [w]), []. split; [f_equal; rewrite length_app; cbn [length]; lia|].
    rewrite app_nil_r. split; [done|]. split; [|done]. exists ws, w. unfold word_ok in Hw. split; [done|lia].
Qed.

(** Two words of a shifted number: the bits do not overlap. *)
Lemma shift_word w n z :
  word_ok w → 0 < n < 32 → 0 ≤ z < 2 ^ n →
  let y := Z.lor (u32 (Z.shiftl w n)) z in let z' := Z.shiftr w (32 - n) in
  word_ok y ∧ 0 ≤ z' < 2 ^ n ∧ w * 2 ^ n + z = y + W * z'.
Proof.
  intros Hw Hn Hz y z'. unfold word_ok in *.
  assert (2 ^ n * 2 ^ (32 - n) = W) as HW by (rewrite <- Z.pow_add_r by lia; replace (n + (32 - n)) with 32 by lia; done).
  assert (0 < 2 ^ n ∧ 0 < 2 ^ (32 - n)) as [Hp Hp'] by (split; apply Z.pow_pos_nonneg; lia).
  assert (z' = w / 2 ^ (32 - n)) as Hz' by (apply Z.shiftr_div_pow2; lia).
  assert (u32 (Z.shiftl w n) = 2 ^ n * (w mod 2 ^ (32 - n))) as Hu.
  { unfold wrap. rewrite Z.shiftl_mul_pow2 by lia. change (2 ^ 32) with W.
    rewrite <- HW, (Z.mul_comm w). by rewrite Z.mul_mod_distr_l by lia. }
  assert (y = 2 ^ n * (w mod 2 ^ (32 - n)) + z) as Hy.
  { unfold y. rewrite Hu, (Z.mul_comm (2 ^ n)), <- Z.shiftl_mul_pow2 by lia.
    rewrite lor_shiftl_add, Z.shiftl_mul_pow2 by lia. done. }
  pose proof (Z.mod_pos_bound w (2 ^ (32 - n)) ltac:(lia)).
  pose proof (Z.div_mod w (2 ^ (32 - n)) ltac:(lia)).
  assert (0 ≤ z' < 2 ^ n).
  { rewrite Hz'. split; [apply Z.div_pos; lia|apply Z.div_lt_upper_bound; lia]. }
  rewrite Hy, Hz' in *. split; [nia|]. split; [done|]. nia.
Qed.

Lemma shift_loop_spec fuel ws A1 B1 A2 cs B2 i n bits j z :
  i = len A1 → j = len A2 → n = i + len ws → ws ≠ [] → words_ok ws →
  length cs = S (length ws) → 0 < bits < 32 → 0 ≤ z < 2 ^ bits → (length ws ≤ fuel)%nat →
  ∃ ws' z', shift_loop (E:=E) fuel (A1 ++ (Some <$> ws) ++ B1) i n bits (A2 ++ cs ++ B2) j z =
      Done (A2 ++ (Some <$> ws' ++ [z']) ++ B2, z') ∧
    length ws' = length ws ∧ words_ok (ws' ++ [z']) ∧
    value (ws' ++ [z']) = value ws * 2 ^ bits + z.
Proof.
  intros Hi Hj Hn Hne Hws Hl Hb Hz Hf.
  assert (2 ^ bits < W) as Hlt by (apply (Z.pow_lt_mono_r 2 bits 32); lia).
  revert fuel cs A1 A2 i j z Hi Hj Hn Hl Hz Hf.
  induction Hws as [|w ws Hw Hws IH]; intros fuel cs A1 A2 i j z Hi Hj Hn Hl Hz Hf; [done|].
  destruct fuel as [|fuel]; [cbn in Hf; lia|]. destruct cs as [|c cs]; [done|]. cbn [shift_loop].
  rewrite fmap_cons, <- !app_comm_cons, rdw_mid by done. cbn [obind].
  destruct (shift_word w bits z) as (Hy & Hz' & Heq); [done..|].
  rewrite wrw_mid by assumption. cbn [obind].
  rewrite (snoc_cells A1), (snoc_cells A2). cbn [length] in *.
  rewrite (lt_continue i n ws) by lia.
  set (y := Z.lor (u32 (Z.shiftl w bits)) z) in *. set (z' := Z.shiftr w (32 - bits)) in *.
  destruct ws as [|w2 ws].
  - destruct cs as [|c2 [|? ?]]; [done| |done].
    assert (word_ok z') by (unfold word_ok; lia). cbn [app].
    rewrite wrw_mid by seg. cbn [obind]. exists [y], z'. rewrite <- app_assoc. split; [done|].
    split; [done|]. split; [by constructor; [|constructor; [|constructor]]|]. cbn [value app]. lia.
  - destruct (IH ltac:(done) fuel cs (A1 ++ [Some w]) (A2 ++ [Some y]) (i + 1) (j + 1) z')
      as (ws' & z2 & -> & Hl' & Hok & Hv); [seg..|].
    exists (y :: ws'), z2. rewrite <- app_assoc. split; [done|]. split; [seg|].
    split; [by constructor|]. rewrite <- app_comm_cons. cbn [value] in *. lia.
Qed.

Lemma words_copy_spec fuel ws A1 B1 A2 cs B2 i n j :
  i = len A1 → j = len A2 → n = i + len ws → ws ≠ [] → words_ok ws →
  length cs = length ws → (length ws ≤ fuel)%nat →
  copy_loop (E:=E) fuel (A1 ++ (Some <$> ws) ++ B1) i n (A2 ++ cs ++ B2) j =
    Done (A2 ++ (Some <$> ws) ++ B2).
Proof.
  intros Hi Hj Hn Hne Hws Hl Hf. revert fuel cs A1 A2 i j Hi Hj Hn Hl Hf.
  induction Hws as [|w ws Hw Hws IH]; intros fuel cs A1 A2 i j Hi Hj Hn Hl Hf; [done|].
  destruct fuel as [|fuel]; [cbn in Hf; lia|]. destruct cs as [|c cs]; [done|]. cbn [copy_loop].
  rewrite fmap_cons, <- !app_comm_cons, rdw_mid by done. cbn [obind]. rewrite wrw_mid by done. cbn [obind].
  rewrite (snoc_cells A1), (snoc_cells A2). cbn [length] in *.
  rewrite (lt_continue i n ws) by lia. destruct ws as [|w2 ws].
  - destruct cs; [|done]. by rewrite <- app_assoc.
  - rewrite IH by (done || seg). by rewrite <- app_assoc.
Qed.

(** The sign of a comparison. *)
Definition sgn (c : comparison) : Z := match c with Lt => -1 | Eq => 0 | Gt => 1 end.

Lemma cmp_loop_spec ws vs A B :
  length ws = length vs → ws ≠ [] → words_ok ws → words_ok vs →
  cmp_loop (E:=E) (length ws) ((Some <$> ws) ++ A) ((Some <$> vs) ++ B) =
    Done (sgn (value ws ?= value vs)).
Proof.
  intros Hl Hne Hws. revert vs A B Hl.
  induction ws as [|w ws IH] using rev_ind; intros vs A B Hl Hvs; [done|]. clear Hne.
  destruct vs as [|v vs _] using rev_ind; [rewrite length_app in Hl; cbn in Hl; lia|].
  rewrite !length_app in Hl. cbn [length] in Hl.
  rewrite length_app. cbn [length]. rewrite Nat.add_1_r. cbn [cmp_loop].
  rewrite !fmap_app, <- !app_assoc. cbn [fmap list_fmap app].
  rewrite !rdw_mid by (rewrite length_fmap; lia). cbn [obind].
  apply Forall_app in Hws as [Hws [Hw _]%Forall_cons].
  apply Forall_app in Hvs as [Hvs [Hv _]%Forall_cons].
  rewrite !value_app. cbn [value]. replace (length vs) with (length ws) by lia.
  pose proof (value_range ws Hws) as Hrw. pose proof (value_range vs Hvs) as Hrv.
  replace (length vs) with (length ws) in Hrv by lia.
  destruct (Z.eqb_spec w v) as [->|Hwv]; cbn [negb].
  - destruct ws as [|w0 ws].
    + destruct vs; [|cbn in Hl; lia]. cbn [length value]. by rewrite Z.compare_refl.
    + change (length (w0 :: ws)) with (S (length ws)) at 1. cbv iota.
      rewrite IH by (done || lia). do 2 f_equal.
      by rewrite !(Z.add_comm (value _)), Zcompare_plus_compat.
  - destruct (Z.ltb_spec w v); [rewrite (proj2 (Z.compare_lt_iff _ _)); [done|nia]|].
    rewrite (proj2 (Z.compare_gt_iff _ _)); [done|nia].
Qed.

Lemma diff_loop_spec fuel ws vs A1 B1 xb A3 cs B3 i wa wb borrow :
  i = len A1 → i = len A3 → wa = i + len ws → len vs = Z.max 0 (wb - i) →
  (∀ (j : nat) v, vs !! j = Some v → rdw (E:=E) xb (i + Z.of_nat j) = Done v) →
  (i = 0 → vs ≠ []) → ws ≠ [] → (length vs ≤ length ws)%nat → words_ok ws → words_ok vs →
  length cs = length ws → 0 ≤ borrow ≤ 1 → (length ws ≤ fuel)%nat →
  ∃ ws' b, diff_loop (E:=E) fuel (A1 ++ (Some <$> ws) ++ B1) wa xb wb (A3 ++ cs ++ B3) i borrow =
      Done (A3 ++ (Some <$> ws') ++ B3) ∧
    length ws' = length ws ∧ words_ok ws' ∧ 0 ≤ b ≤ 1 ∧
    value ws' = value ws - value vs - borrow + W ^ len ws * b.
Proof.
  intros Hi Hi3 Hwa Hwb Hxb Hnv Hne Hvw Hws.
  revert fuel vs A1 A3 cs i borrow Hi Hi3 Hwa Hwb Hxb Hnv Hvw.
  induction Hws as [|w ws Hw Hws IH];
    intros fuel vs A1 A3 cs i borrow Hi Hi3 Hwa Hwb Hxb Hnv Hvw Hvs Hl Hb Hf; [done|].
  destruct fuel as [|fuel]; [cbn in Hf; lia|]. destruct cs as [|c cs]; [done|]. cbn [diff_loop].
  rewrite fmap_cons, <- !app_comm_cons, rdw_mid by done. cbn [obind].
  assert (∃ v, (if (i =? 0) || (i <? wb) then rdw xb i else Done 0) = Done (E:=E) v ∧
    word_ok v ∧ value vs = v + W * value (tl vs) ∧ words_ok (tl vs)) as (v & -> & Hv & Hvv & Hvs').
  { destruct vs as [|v vs].
    - destruct (Z.eqb_spec i 0) as [Hi0|_]; [by specialize (Hnv Hi0)|].
      destruct (Z.ltb_spec i wb); [cbn [length] in *; lia|]. exists 0. by unfold word_ok.
    - apply Forall_cons in Hvs as [Hv Hvs]. exists v.
      pose proof (Hxb 0%nat v eq_refl) as Hr. rewrite Z.add_0_r in Hr. rewrite Hr.
      destruct (Z.ltb_spec i wb); [|cbn [length] in *; lia]. by rewrite orb_true_r. }
  cbn [obind]. destruct (borrow_spec (w - v - borrow)) as (Hland & Hy & Hb'); [unfold word_ok in *; lia|].
  set (y := w - v - borrow) in *. rewrite Hland, wrw_mid by (assumption || apply word_mod). cbn [obind].
  set (b' := Z.land (Z.shiftr (u64 y) 32) 1) in *.
  rewrite (snoc_cells A1), (snoc_cells A3). cbn [length] in *.
  assert ((i + 1 <? wb) = true → (i + 1 <? wa) = true) as Himp.
  { intros Hlt%Z.ltb_lt. apply Z.ltb_lt. lia. }
  rewrite (lt_continue i wa ws) in * by lia. destruct ws as [|w2 ws].
  - destruct (i + 1 <? wb); [by specialize (Himp eq_refl)|]. destruct cs; [|done]. cbn [orb].
    assert (value (tl vs) = 0) as Ht by (destruct vs as [|? [|? ?]]; cbn in *; [done..|lia]).
    exists [y mod W], b'. rewrite <- app_assoc. split; [done|]. split; [done|].
    split; [constructor; [apply word_mod|done]|]. split; [done|].
    cbn [value length]. change (Z.of_nat 1) with 1. rewrite Z.pow_1_r. lia.
  - rewrite orb_true_r.
    destruct (IH ltac:(done) fuel (tl vs) (A1 ++ [Some w]) (A3 ++ [Some (y mod W)]) cs (i + 1) b')
      as (ws' & b & -> & Hl' & Hok & Hbb & Hval); [try seg..|].
    { destruct vs; cbn [tl length] in *; lia. }
    { intros j u Hu. replace (i + 1 + Z.of_nat j) with (i + Z.of_nat (S j)) by lia.
      apply Hxb. by destruct vs. }
    { destruct vs; cbn [tl length] in *; lia. }
    exists (y mod W :: ws'), b. rewrite <- app_assoc. split; [done|]. split; [seg|].
    split; [constructor; [apply word_mod|done]|]. split; [done|].
    rewrite size_S. cbn [value length] in *. lia.
Qed.

(** [carry] of the product and [borrow] of the difference leave together. *)
Lemma submul_loop_spec fuel ss bs A1 B1 A2 B2 i n q borrow carry :
  i = len A1 → i = len A2 → n = i + len ss - 1 → ss ≠ [] → words_ok ss → words_ok bs →
  length bs = length ss → word_ok q → 0 ≤ borrow ≤ 1 → word_ok carry → (length ss ≤ fuel)%nat →
  ∃ bs' t, submul_loop (E:=E) fuel (A1 ++ (Some <$> bs) ++ B1) (A2 ++ (Some <$> ss) ++ B2) i n q
      borrow carry = Done (A1 ++ (Some <$> bs') ++ B1) ∧
    length bs' = length bs ∧ words_ok bs' ∧
    value bs' = value bs - (value ss * q + carry) - borrow + W ^ len ss * t.
Proof.
  intros Hi Hi2 Hn Hne Hss. revert fuel bs A1 A2 i borrow carry Hi Hi2 Hn.
  induction Hss as [|s ss Hs Hss IH];
    intros fuel bs A1 A2 i borrow carry Hi Hi2 Hn Hbs Hl Hq Hb Hc Hf; [done|].
  destruct fuel as [|fuel]; [cbn in Hf; lia|]. destruct bs as [|b bs]; [done|].
  apply Forall_cons in Hbs as [Hb0 Hbs]. cbn [submul_loop].
  rewrite !fmap_cons, <- !app_comm_cons, !rdw_mid by done. cbn [obind].
  destruct (row_word s q carry 0) as (Hz & Hqq & Hdm); [done || (unfold word_ok; lia)..|].
  rewrite Z.add_0_r in *. set (ys := s * q + carry) in *. rewrite Hz, (shiftr_word ys), (land_mask ys).
  pose proof (word_mod ys) as Hm.
  destruct (borrow_spec (b - ys mod W - borrow)) as (Hland & Hy & Hb'); [unfold word_ok in *; lia|].
  set (y := b - ys mod W - borrow) in *. rewrite Hland, wrw_mid by (assumption || apply word_mod).
  cbn [obind]. set (b' := Z.land (Z.shiftr (u64 y) 32) 1) in *.
  rewrite (snoc_cells A1), (snoc_cells A2). cbn [length] in *. destruct ss as [|s2 ss].
  - destruct (Z.leb_spec (i + 1) n) as [?|_]; [cbn [length] in *; lia|]. destruct bs; [|done].
    exists [y mod W], (b' + ys / W). rewrite <- app_assoc. split; [done|]. split; [done|].
    split; [constructor; [apply word_mod|done]|].
    cbn [value length]. change (Z.of_nat 1) with 1. rewrite Z.pow_1_r. unfold y, ys in *. lia.
  - destruct (Z.leb_spec (i + 1) n) as [_|?]; [|cbn [length] in *; lia].
    destruct (IH ltac:(done) fuel bs (A1 ++ [Some (y mod W)]) (A2 ++ [Some s]) (i + 1) b' (ys / W))
      as (bs' & t & -> & Hl' & Hok & Hv); [seg..|].
    exists (y mod W :: bs'), t. rewrite <- app_assoc. split; [done|]. split; [seg|].
    split; [constructor; [apply word_mod|done]|].
    rewrite size_S. cbn [value length] in *. unfold y, ys in *. lia.
Qed.

Lemma quorem_trim_spec fuel ws B n :
  n = len ws → words_ok ws → (length ws < fuel)%nat →
  ∃ ws' zs, quorem_trim (E:=E) fuel ((Some <$> ws) ++ B) n n = Done (len ws') ∧ ws = ws' ++ zs ∧
    value ws' = value ws ∧ (0 < value ws → normal ws') ∧ (value ws = 0 → (length ws' ≤ 1)%nat).
Proof.
  intros -> Hws. revert fuel B. induction ws as [|w ws IH] using rev_ind; intros fuel B Hf.
  { destruct fuel; [lia|]. exists [], []. cbn. split; [done|]. repeat split; lia. }
  destruct fuel as [|fuel]; [lia|]. rewrite length_app in Hf. cbn [length] in Hf.
  cbn [quorem_trim]. rewrite length_app. cbn [length].
  replace (Z.of_nat (length ws + 1) - 1) with (len ws) by lia.
  apply Forall_app in Hws as [Hws [Hw _]%Forall_cons].
  rewrite fmap_app, <- app_assoc. cbn [fmap list_fmap app].
  rewrite value_app. cbn [value].
  assert (w ≠ 0 → normal (ws ++ [w])) as Hnorm.
  { intros ?. exists ws, w. unfold word_ok in Hw. split; [done|lia]. }
  pose proof (value_range ws Hws) as Hr.
  destruct (Z.ltb_spec 0 (len ws)) as [Hlt|Hle].
  - rewrite rdw_mid by (by rewrite length_fmap). cbn [obind].
    destruct (Z.eqb_spec w 0) as [->|Hne].
    + destruct (IH Hws fuel (Some 0 :: B)) as (ws' & zs & Heq & -> & Hv & Hn & Hz); [lia|].
      exists ws', (zs ++ [0]). rewrite Heq. split; [done|]. split; [by rewrite app_assoc|].
      change (0 + W * 0) with 0. rewrite Z.mul_0_r, Z.add_0_r. done.
    + exists (ws ++ [w]), []. rewrite app_nil_r, length_app. split; [f_equal; cbn; lia|].
      split; [done|]. rewrite value_app. cbn [value]. split; [done|]. split; [auto|].
      unfold word_ok in Hw. nia.
  - destruct ws; [|cbn in Hle; lia]. exists [w], []. split; [done|]. split; [done|].
    cbn [value length app] in *. change (W ^ Z.of_nat 0) with 1. split; [lia|]. split; [|lia].
    intros. apply Hnorm. lia.
Qed.

End loops.
End BigintSpec.
