(* ===== verification/BigintOps.v ===== *)
(** * Big integers: the operations

    [big b n]: the block [b], of at most 128 words, holds the number [n > 0] without
    leading zero words. Under [run] an operation keeps the pool in order, and its count
    says how many blocks more are in use afterwards, not counting those of [p5s]. *)
From S2P Require Import Prelude Bigint BigintSpec.

Module BigintOps.
Import Bigint BigintSpec.

(** ** Blocks *)
Definition block_ok (b : Bigint) : Prop :=
  0 ≤ k b ≤ Kmax ∧ maxwds b = 2 ^ k b ∧ len (x b) = maxwds b.

Definition holds (b : Bigint) (ws : list Z) : Prop :=
  block_ok b ∧ wds b = len ws ∧ words_ok ws ∧ ∃ rest, x b = (Some <$> ws) ++ rest.

Definition big (b : Bigint) (n : Z) : Prop := ∃ ws, holds b ws ∧ normal ws ∧ value ws = n.

(** A remainder 0 is left with at most one word. *)
Definition zero (b : Bigint) : Prop := block_ok b ∧ wds b ≤ 1 ∧ ∃ rest, x b = Some 0 :: rest.

(** Numbers below it have at most 127 words. *)
Definition capacity : Z := W ^ 127.

Lemma holds_length b ws : holds b ws → len ws ≤ maxwds b.
Proof.
  intros ((_ & _ & Hl) & _ & _ & rest & Hx). rewrite Hx, length_app, length_fmap in Hl. lia.
Qed.

Lemma maxwds_range b : block_ok b → 1 ≤ maxwds b ≤ 128.
Proof.
  intros (Hk & -> & _). unfold Kmax in Hk. split.
  - pose proof (Z.pow_pos_nonneg 2 (k b)). lia.
  - change 128 with (2 ^ 7). apply Z.pow_le_mono_r; lia.
Qed.

Lemma normal_pos ws : words_ok ws → normal ws → 0 < value ws.
Proof.
  intros Hws Hn. pose proof (normal_bound ws Hws Hn). pose proof (normal_nonnil ws Hn).
  pose proof (Z.pow_pos_nonneg W (len ws - 1)). lia.
Qed.

Lemma big_pos b n : big b n → 0 < n.
Proof. intros (ws & (_ & _ & Hws & _) & Hn & <-). by apply normal_pos. Qed.

Lemma big_block b n : big b n → block_ok b.
Proof. by intros (? & [? _] & _). Qed.

(** The words of a number that is small enough. *)
Lemma normal_length ws n : words_ok ws → normal ws → 0 ≤ n → value ws < W ^ n → len ws ≤ n.
Proof.
  intros Hws Hn Hn0 Hv. pose proof (normal_bound ws Hws Hn).
  destruct (decide (len ws ≤ n)); [done|].
  pose proof (Z.pow_le_mono_r W n (len ws - 1)). lia.
Qed.

Lemma normal_nil ws : normal ws → ws ≠ [].
Proof. intros (ws' & w & -> & _) Heq. by destruct ws'. Qed.

Lemma length_nonnil (ws vs : list Z) : (0 < length ws)%nat → length vs = length ws → vs ≠ [].
Proof. intros Hl Heq ->. cbn in Heq. lia. Qed.

Lemma normal_end ws : ws ≠ [] → words_ok ws → W ^ (len ws - 1) ≤ value ws → normal ws.
Proof.
  intros Hne Hws Hv. destruct ws as [|w ws _] using rev_ind; [done|].
  apply Forall_app in Hws as [Hws [Hw _]%Forall_cons].
  exists ws, w. split; [done|]. rewrite value_app, length_app in Hv. cbn [value length] in Hv.
  replace (Z.of_nat (length ws + 1) - 1) with (len ws) in Hv by lia.
  pose proof (value_range ws Hws). unfold word_ok in Hw.
  destruct (decide (w = 0)) as [->|]; lia.
Qed.

Lemma normal_snoc ws w : 0 < w → normal (ws ++ [w]).
Proof. intros. by exists ws, w. Qed.

(** Two blocks with the same number have the same words. *)
Lemma value_inj ws vs :
  words_ok ws → words_ok vs → length ws = length vs → value ws = value vs → ws = vs.
Proof.
  intros Hws. revert vs. induction Hws as [|w ws Hw Hws IH]; intros [|v vs] Hvs Hl Hv; try done.
  apply Forall_cons in Hvs as [Hv1 Hvs]. cbn [value length] in *. unfold word_ok in *.
  assert (w = v) as -> by lia. f_equal. apply IH; [done|lia|lia].
Qed.

(** ** The pool *)
Definition pool_ok (s : pool) : Prop :=
  length (freelist s) = 8%nat ∧
  (∀ n l, zget (freelist s) n = Some l → Forall (fun b => block_ok b ∧ k b = n) l) ∧
  (∀ i b, p5s s !! i = Some b → big b (5 ^ (4 * 2 ^ Z.of_nat i))).

Lemma pool0_ok : pool_ok pool0.
Proof.
  split; [done|]. split; [|done]. intros n l [_ Hl]%zget_Some.
  apply lookup_replicate in Hl as [-> _]. done.
Qed.

Fixpoint balance (w : list event) : Z :=
  match w with
  | [] => 0
  | Got _ :: w => balance w + 1
  | Gave _ :: w => balance w - 1
  | _ :: w => balance w
  end.

Lemma balance_app w1 w2 : balance (w1 ++ w2) = balance w1 + balance w2.
Proof. induction w1 as [|[] w1 IH]; cbn [balance app]; lia. Qed.

Section ops.
Context {E : Type}.

Definition run {A} (m : M pool event E A) (s : pool) (d : Z) (Q : A → pool → Prop) : Prop :=
  wp m s (fun a s' w => pool_ok s' ∧ balance w + len (p5s s) = d + len (p5s s') ∧ Q a s').

Lemma run_ret {A} (a : A) s Q : pool_ok s → Q a s → run (ret a) s 0 Q.
Proof. intros. apply wp_ret. split; [done|]. split; [cbn; lia|done]. Qed.

Lemma run_bind {A B} (m : M pool event E A) (f : A → M pool event E B) s d1 d P Q :
  run m s d1 P → (∀ a s', pool_ok s' → P a s' → run (f a) s' (d - d1) Q) → run (bind m f) s d Q.
Proof.
  intros Hm Hf. apply wp_bind. eapply wp_mono; [exact Hm|]. intros a s1 w1 (Hs1 & Hb1 & HP).
  eapply wp_mono; [apply (Hf a s1 Hs1 HP)|]. intros b s2 w2 (Hs2 & Hb2 & HQ).
  split; [done|]. rewrite balance_app. split; [lia|done].
Qed.

(** A step that computes on the block only. *)
Lemma run_lift {A B} (o : outcome E A) (f : A → M pool event E B) s d Q :
  returns o (fun a => run (f a) s d Q) → run (bind (lift o) f) s d Q.
Proof.
  intros (a & -> & Hf). apply wp_bind. apply wp_lift, returns_done. exact Hf.
Qed.

Lemma run_mono {A} (m : M pool event E A) s d (P Q : A → pool → Prop) :
  run m s d P → (∀ a s', P a s' → Q a s') → run m s d Q.
Proof. intros Hm HPQ. eapply wp_mono; [exact Hm|]. intros a s' w (? & ? & ?). auto. Qed.

Lemma run_conv {A} (m : M pool event E A) s d d' Q : run m s d Q → d = d' → run m s d' Q.
Proof. by intros ? <-. Qed.

(** What an operation makes that leaves [p5s] alone. *)
Definition same (P : Bigint → Prop) (s : pool) : Bigint → pool → Prop :=
  fun b s' => P b ∧ p5s s' = p5s s.

Lemma put_free_ok s n l :
  pool_ok s → 0 ≤ n → Forall (fun b => block_ok b ∧ k b = n) l →
  pool_ok (mkPool (zset (freelist s) n l) (pmem_next s) (p5s s)).
Proof.
  intros (Hlen & Hfree & Hp5) Hn Hl. split; [cbn [freelist]; by rewrite length_zset|].
  split; [|done]. cbn [freelist]. intros n' l' Hz. destruct (decide (n = n')) as [<-|Hne].
  - pose proof (zget_lt _ _ _ Hz) as Hlt. rewrite length_zset in Hlt.
    rewrite zget_zset_eq in Hz by lia. by injection Hz as <-.
  - rewrite zget_zset_ne in Hz by done. by apply Hfree.
Qed.

Lemma Balloc_sign s n :
  pool_ok s → 0 ≤ n ≤ Kmax →
  run (Balloc n) s 1 (same (fun b => (block_ok b ∧ k b = n) ∧ sign b = 0) s).
Proof.
  intros Hs Hn. pose proof Hs as (Hlen & Hfree & Hp5). unfold Balloc.
  apply wp_bind, wp_get. unfold Kmax in *. destruct (Z.leb_spec n 7); [|lia].
  apply wp_bind. apply wp_lift. destruct (rd_total (E:=E) (freelist s) n) as [l Hl]; [lia|].
  rewrite Hl. apply returns_done. unfold rd in Hl. destruct (zget (freelist s) n) as [l'|] eqn:Hz; [|done].
  injection Hl as ->. specialize (Hfree _ _ Hz). destruct l as [|rv next].
  - rewrite int_ok by (rewrite Z.shiftl_1_l; pose proof (Z.pow_pos_nonneg 2 n);
      pose proof (Z.pow_le_mono_r 2 n 7); unfold INT_MAX; lia).
    apply wp_bind, wp_lift, returns_done.
    assert (block_ok (mkBigint n (Z.shiftl 1 n) 0 0 (replicate (Z.to_nat (Z.shiftl 1 n)) None))).
    { split; [done|]. cbn [k maxwds x]. rewrite Z.shiftl_1_l, length_replicate.
      pose proof (Z.pow_pos_nonneg 2 n). split; [done|lia]. }
    destruct (_ && _).
    + repeat step. split; [done|]. split; [cbn; lia|]. done.
    + repeat step. split; [done|]. split; [cbn; lia|]. done.
  - apply Forall_cons in Hfree as [[Hrv Hk] Hnext].
    repeat step. split; [apply put_free_ok; [done|lia|done]|]. split; [cbn; lia|]. done.
Qed.

Lemma Balloc_spec s n :
  pool_ok s → 0 ≤ n ≤ Kmax →
  run (Balloc n) s 1 (same (fun b => block_ok b ∧ k b = n) s).
Proof. intros. eapply run_mono; [by apply Balloc_sign|]. by intros b s' [[? ?] ?]. Qed.

Lemma Bfree_spec s b :
  pool_ok s → block_ok b → run (Bfree b) s (-1) (fun _ s' => p5s s' = p5s s).
Proof.
  intros Hs Hb. pose proof Hs as (Hlen & Hfree & Hp5). pose proof Hb as (Hk & _).
  unfold Bfree, Kmax in *. apply wp_bind. destruct (Z.ltb_spec 7 (k b)); [lia|].
  apply wp_bind, wp_get, wp_bind, wp_lift.
  destruct (rd_total (E:=E) (freelist s) (k b)) as [l Hl]; [lia|].
  rewrite Hl. apply returns_done. unfold rd in Hl.
  destruct (zget (freelist s) (k b)) as [l'|] eqn:Hz; [|done]. injection Hl as ->.
  repeat step. split; [apply put_free_ok; [done|lia|]; constructor; [done|by apply Hfree]|].
  split; [cbn; lia|done].
Qed.

(** ** Writing the words of a block *)
Lemma holds_mk b ws rest n :
  block_ok b → len ((Some <$> ws) ++ rest) = maxwds b → words_ok ws → n = len ws →
  holds (set_wds n (set_x ((Some <$> ws) ++ rest) b)) ws.
Proof.
  intros (Hk & Hm & Hl) Hlen Hws ->. split; [|split; [done|split; [done|by exists rest]]].
  split; [done|]. split; [done|]. exact Hlen.
Qed.

Lemma holds_push b ws c :
  holds b ws → len ws < maxwds b → word_ok c →
  ∃ xs, wrw (E:=E) (x b) (wds b) c = Done xs ∧ holds (set_wds (wds b + 1) (set_x xs b)) (ws ++ [c]).
Proof.
  intros (Hb & Hw & Hws & rest & Hx) Hlt Hc. pose proof Hb as (_ & _ & Hlen).
  rewrite Hx, length_app, length_fmap in Hlen. destruct rest as [|r rest]; [cbn in Hlen; lia|].
  exists ((Some <$> ws ++ [c]) ++ rest). rewrite Hx, wrw_mid by (rewrite ?length_fmap; done).
  split; [by rewrite fmap_app, <- app_assoc|].
  apply holds_mk; [done| |by apply Forall_app; split; [|constructor]|rewrite Hw; seg].
  rewrite length_app, length_fmap, length_app. cbn [length] in *. lia.
Qed.

(** A block without words gets its first. *)
Lemma first_word b w :
  block_ok b → word_ok w →
  ∃ xs, wrw (E:=E) (x b) 0 w = Done xs ∧ holds (set_wds 1 (set_x xs b)) [w].
Proof.
  intros Hb Hw. pose proof (maxwds_range b Hb). destruct Hb as (Hk & Hm & Hl).
  destruct (x b) as [|c rest] eqn:Hx; [cbn in Hl; lia|]. exists ((Some <$> [w]) ++ rest).
  split; [by apply (wrw_mid [])|]. apply holds_mk; [by rewrite <- Hx in Hl| |by constructor|done].
  cbn in *. lia.
Qed.

Lemma holds_block b ws : holds b ws → block_ok b.
Proof. by intros [? _]. Qed.

(** The number of a block fits into half of a block of the largest size. *)
Lemma Bcopy_spec b1 b ws :
  holds b ws → block_ok b1 → maxwds b ≤ maxwds b1 →
  ∃ b', Bcopy (E:=E) b1 b = Done b' ∧ holds b' ws ∧ maxwds b' = maxwds b1 ∧ k b' = k b1.
Proof.
  intros Hh Hb1 Hle. pose proof (holds_length b ws Hh) as Hlen.
  destruct Hh as (Hb & Hw & Hws & rest & Hx). destruct Hb1 as (Hk1 & Hm1 & Hl1).
  unfold Bcopy. rewrite Hw, rdn_done by (rewrite Hx, length_app, length_fmap; lia). cbn [obind].
  rewrite Hx, take_app_length' by (by rewrite length_fmap).
  change 0 with (Z.of_nat 0). rewrite memcpy_done by (rewrite length_fmap; lia). cbn [obind].
  eexists. split; [done|]. split; [|done].
  split; [split; [done|]; split; [done|]|].
  - cbn [x maxwds]. rewrite length_splice by (rewrite length_fmap; lia). done.
  - split; [done|]. split; [done|]. by eexists.
Qed.

(** A full block is replaced by one of twice its size. *)
Lemma grow_spec s b ws :
  pool_ok s → holds b ws → maxwds b ≤ len ws → len ws < 127 →
  run (let* b1 := Balloc (k b + 1) in
       let* b1 := lift (Bcopy b1 b) in
       Bfree b ;;
       ret b1) s 0 (fun b2 s2 => holds b2 ws ∧ len ws < maxwds b2 ∧ p5s s2 = p5s s).
Proof.
  intros Hs Hh Hle Hlt. pose proof (holds_block b ws Hh) as Hb. pose proof Hb as (Hk & Hmb & _).
  pose proof (holds_length b ws Hh) as Hmax. pose proof (maxwds_range b Hb).
  assert (k b < 7) by (apply (Z.pow_lt_mono_r_iff 2); unfold Kmax in *; lia).
  eapply run_bind; [apply Balloc_spec; [done|unfold Kmax in *; lia]|].
  intros b1 s1 Hs1 [[Hb1 Hk1] Hp1]. apply run_lift. pose proof Hb1 as (_ & Hm1 & _).
  assert (maxwds b1 = 2 * maxwds b) as Hm2.
  { rewrite Hm1, Hmb, Hk1, Z.pow_add_r by lia. lia. }
  destruct (Bcopy_spec b1 b ws Hh Hb1) as (b2 & -> & Hh2 & Hmx & _); [lia|].
  apply returns_done. eapply run_bind; [by apply Bfree_spec|].
  intros u s2 Hs2 Hp2. eapply run_conv; [apply run_ret; [done|]|lia].
  split; [done|]. split; [lia|congruence].
Qed.

Lemma multadd_spec s b n m a :
  pool_ok s → big b n → 0 < m < 2147483648 → 0 ≤ a < 2147483648 → n * m + a < capacity →
  run (multadd b m a) s 0 (same (fun b' => big b' (n * m + a)) s).
Proof.
  intros Hs (ws & (Hb & Hw & Hws & rest & Hx) & Hn & Hv) Hm Ha Hcap. unfold multadd.
  apply run_lift. pose proof (normal_nonnil ws Hn) as Hne. rewrite Hw, Hx.
  rewrite (wrap_small 64 a) by (change (2 ^ 64) with (W * W); lia).
  destruct (multadd_loop_spec (E:=E) (S (Z.to_nat (len ws))) ws [] rest 0 (len ws) m a) as
    (ws' & c & Heq & Hl & Hok & Hc & Hval); [done|lia|by apply normal_nil|done|lia|
    unfold word_ok; lia|lia|].
  cbn [app] in Heq. rewrite Heq. apply returns_done. rewrite <- Hv. clear Heq.
  assert (holds (set_x ((Some <$> ws') ++ rest) b) ws') as Hh.
  { apply (holds_mk b ws' rest (wds b)); [done| |done|lia].
    destruct Hb as (_ & _ & Hlx). rewrite Hx in Hlx. rewrite length_app, length_fmap in *. lia. }
  set (b' := set_x _ b) in *.
  destruct (Z.eqb_spec c 0) as [->|Hc0].
  - apply run_ret; [done|]. split; [|done]. exists ws'. split; [done|].
    split; [|lia]. apply normal_end; [by apply (length_nonnil ws)|done|].
    rewrite Hl. pose proof (normal_bound ws Hws Hn). nia.
  - assert (W ^ len ws ≤ value ws * m + a) as Hge.
    { pose proof (value_range ws' Hok). unfold word_ok in Hc. pose proof (size_pos (length ws)). nia. }
    assert (len ws < 127) as Hlt.
    { apply (Z.pow_lt_mono_r_iff W); [lia..|]. unfold capacity in Hcap. lia. }
    assert (∀ b2 s2, pool_ok s2 → holds b2 ws' → len ws' < maxwds b2 →
      run (let* xs := lift (wrw (x b2) (len ws) c) in ret (set_wds (len ws + 1) (set_x xs b2))) s2 0
        (same (fun b' => big b' (value ws * m + a)) s2)) as Hend.
    { intros b2 s2 Hs2 Hh2 Hl2. apply run_lift.
      destruct (holds_push b2 ws' c Hh2 Hl2 Hc) as (xs & Heq & Hh').
      replace (wds b2) with (len ws) in * by (destruct Hh2 as (_ & -> & _); lia).
      rewrite Heq. apply returns_done, run_ret; [done|]. split; [|done]. exists (ws' ++ [c]).
      split; [done|]. split; [apply normal_snoc; unfold word_ok in Hc; lia|].
      rewrite value_app, Hl. cbn [value]. lia. }
    change (wds b') with (wds b). change (maxwds b') with (maxwds b). change (k b') with (k b).
    rewrite Hw. pose proof (holds_length b' ws' Hh) as Hmax. change (maxwds b') with (maxwds b) in Hmax.
    apply (run_bind _ _ _ 0 0 (fun b2 s2 => holds b2 ws' ∧ len ws' < maxwds b2 ∧ p5s s2 = p5s s)).
    2:{ intros b2 s2 Hs2 (Hh2 & Hl2 & Hp2). eapply run_mono; [by apply Hend|].
        intros b3 s3 [? Hp3]. split; [done|congruence]. }
    destruct (Z.leb_spec (maxwds b) (len ws)) as [Hle|Hgt].
    + apply (grow_spec s b' ws'); [done|done|change (maxwds b') with (maxwds b); lia|lia].
    + apply run_ret; [done|]. split; [done|]. change (maxwds b') with (maxwds b). split; [lia|done].
Qed.

Lemma i2b_spec s i :
  pool_ok s → 0 < i < 2147483648 → run (i2b i) s 1 (same (fun b => big b i) s).
Proof.
  intros Hs Hi. unfold i2b. eapply run_bind; [apply Balloc_spec; [done|unfold Kmax; lia]|].
  intros b s1 Hs1 [[Hb Hk] Hp]. apply run_lift.
  destruct (first_word b i Hb) as (xs & -> & Hh); [unfold word_ok; lia|]. apply returns_done.
  apply run_ret; [done|]. split; [|done]. exists [i]. split; [done|].
  split; [exists [], i; split; [done|lia]|cbn; lia].
Qed.

(** ** Multiplication *)
(** A product needs the words of both factors, less than two more than its size. *)
Lemma product_words ws vs :
  words_ok ws → words_ok vs → normal ws → normal vs → value ws * value vs < capacity →
  len ws + len vs ≤ 128.
Proof.
  intros Hws Hvs Hn1 Hn2 Hcap. pose proof (normal_bound ws Hws Hn1). pose proof (normal_bound vs Hvs Hn2).
  pose proof (normal_nonnil ws Hn1). pose proof (normal_nonnil vs Hn2).
  assert (W ^ (len ws - 1 + (len vs - 1)) ≤ value ws * value vs) as Hge.
  { rewrite Z.pow_add_r by lia. apply Z.mul_le_mono_nonneg; try lia; apply Z.pow_nonneg; lia. }
  assert (len ws - 1 + (len vs - 1) < 127); [|lia].
  apply (Z.pow_lt_mono_r_iff W); [lia..|]. unfold capacity in Hcap. lia.
Qed.

(** The block for [n] words when one of size [kk] may be too small by one step. *)
Lemma size_for kk mx n :
  0 ≤ kk ≤ Kmax → mx = 2 ^ kk → n ≤ 2 * mx → n ≤ 128 →
  let k' := if mx <? n then kk + 1 else kk in 0 ≤ k' ≤ Kmax ∧ n ≤ 2 ^ k'.
Proof.
  intros Hk -> Hn Hn2. unfold Kmax in *. destruct (Z.ltb_spec (2 ^ kk) n); cbn zeta; [|lia].
  assert (kk < 7) by (apply (Z.pow_lt_mono_r_iff 2); lia).
  rewrite Z.pow_add_r by lia. lia.
Qed.

Lemma mult_ordered s a b ws vs :
  pool_ok s → holds a ws → holds b vs → normal ws → normal vs → len vs ≤ len ws →
  value ws * value vs < capacity →
  run (let wc := wds a + wds b in
       let* c := Balloc (if maxwds a <? wc then k a + 1 else k a) in
       let* xc := lift (zero_loop (Z.to_nat wc) (x c) 0) in
       let* xc := lift (mult_loop (Z.to_nat (wds b)) (x a) (wds a) (x b) 0 xc) in
       let* wc := lift (trim_loop (Z.to_nat wc) xc) in
       ret (set_wds wc (set_x xc c))) s 1 (same (fun c => big c (value ws * value vs)) s).
Proof.
  intros Hs Ha Hb Hna Hnb Hle Hcap. pose proof (holds_length a ws Ha) as Hla.
  destruct Ha as ((Hka & Hma & _) & Hwa & Hws & ra & Hxa).
  destruct Hb as (_ & Hwb & Hvs & rb & Hxb).
  pose proof (product_words ws vs Hws Hvs Hna Hnb Hcap) as Hprod.
  pose proof (normal_pos ws Hws Hna). pose proof (normal_pos vs Hvs Hnb).
  cbv zeta. rewrite Hwa, Hwb, Hxa, Hxb. clear Hwa Hwb Hxa Hxb.
  destruct (size_for (k a) (maxwds a) (len ws + len vs)) as [Hk' Hn']; [done|done|lia|lia|].
  set (k' := if maxwds a <? _ then _ else _) in *.
  eapply run_bind; [by apply Balloc_spec|]. intros c s1 Hs1 [[Hc Hkc] Hp1].
  pose proof Hc as (_ & Hmc & Hlc). rewrite Hkc in Hmc.
  apply run_lift. replace (Z.to_nat (len ws + len vs)) with (length ws + length vs)%nat by lia.
  change (x c) with ([] ++ x c) at 1. rewrite zero_loop_spec by (done || lia). apply returns_done.
  apply run_lift. rewrite Nat2Z.id. rewrite replicate_add, fmap_app, <- app_assoc.
  set (rest := drop _ (x c)).
  destruct (mult_loop_spec (E:=E) ws [] ra vs [] rb (replicate (length ws) 0) [] rest 0 (len ws))
    as (cs & Heq & Hl & Hok & Hv); [done|done|done|done|by apply normal_nil|done|done| | |].
  { apply Forall_replicate. unfold word_ok. lia. }
  { apply length_replicate. }
  cbn [app] in Heq |- *. rewrite Heq. apply returns_done. apply run_lift.
  rewrite value_zeros, Z.add_0_l in Hv.
  destruct (trim_loop_spec (E:=E) cs rest (length ws + length vs)) as (cs' & zs & -> & -> & Hn & Hv');
    [done|done|nia|]. apply returns_done, run_ret; [done|]. split; [|done].
  exists cs'. apply Forall_app in Hok as [Hok _]. split; [|split; [done|congruence]].
  rewrite fmap_app, <- app_assoc. apply holds_mk; [done| |done|done].
  rewrite !length_app, !length_fmap. unfold rest. rewrite length_drop. rewrite length_app in Hl. lia.
Qed.

Lemma mult_spec s a b m n :
  pool_ok s → big a m → big b n → m * n < capacity →
  run (mult a b) s 1 (same (fun c => big c (m * n)) s).
Proof.
  intros Hs (ws & Ha & Hna & <-) (vs & Hb & Hnb & <-) Hcap. unfold mult.
  pose proof Ha as (_ & Hwa & _). pose proof Hb as (_ & Hwb & _).
  destruct (Z.ltb_spec (wds a) (wds b)); cbv zeta.
  - rewrite (Z.mul_comm (value ws)) in *. apply mult_ordered; try done. lia.
  - apply mult_ordered; try done. lia.
Qed.

(** ** Comparison *)
Lemma cmp_spec a b m n :
  big a m → big b n → ∃ r, cmp (E:=E) a b = Done r ∧ (r < 0 ↔ m < n) ∧ (r = 0 ↔ m = n).
Proof.
  intros (ws & (_ & Hwa & Hws & ra & Hxa) & Hna & <-) (vs & (_ & Hwb & Hvs & rb & Hxb) & Hnb & <-).
  unfold cmp. rewrite Hwa, Hwb, Hxa, Hxb.
  pose proof (normal_bound ws Hws Hna). pose proof (normal_bound vs Hvs Hnb).
  pose proof (value_range ws Hws). pose proof (value_range vs Hvs).
  destruct (Z.eqb_spec (len ws - len vs) 0) as [Heq|Hne]; cbn [negb].
  - rewrite Nat2Z.id. replace (length vs) with (length ws) by lia.
    rewrite cmp_loop_spec by (done || lia || by apply normal_nil). eexists. split; [done|].
    destruct (Z.compare_spec (value ws) (value vs)); cbn [sgn]; lia.
  - eexists. split; [done|]. destruct (decide (len ws < len vs)).
    + pose proof (Z.pow_le_mono_r W (len ws) (len vs - 1)). lia.
    + pose proof (Z.pow_le_mono_r W (len vs) (len ws - 1)). lia.
Qed.

(** ** Shifts *)
Lemma lshift_size_spec fuel n1 i k1 :
  i = 2 ^ k1 → 0 ≤ k1 ≤ Kmax → n1 ≤ 128 → Kmax - k1 < Z.of_nat fuel →
  ∃ r, lshift_size (E:=E) fuel n1 i k1 = Done r ∧ k1 ≤ r ≤ Kmax ∧ n1 ≤ 2 ^ r.
Proof.
  intros Hi Hk Hn. revert i k1 Hi Hk. unfold Kmax in *.
  induction fuel as [|fuel IH]; intros i k1 Hi Hk Hf; [lia|]. cbn [lshift_size].
  destruct (Z.ltb_spec i n1) as [Hlt|Hge]; [|exists k1; split; [done|lia]].
  assert (k1 < 7) by (apply (Z.pow_lt_mono_r_iff 2); lia).
  assert (Z.shiftl i 1 = 2 ^ (k1 + 1)) as Heq by (rewrite Z.shiftl_mul_pow2, Z.pow_add_r by lia; lia).
  rewrite int_ok by (rewrite Z.shiftl_mul_pow2 by lia; unfold INT_MAX; lia). cbn [obind].
  destruct (IH (Z.shiftl i 1) (k1 + 1)) as (r & -> & Hr & Hn'); [done|lia|lia|].
  exists r. split; [done|lia].
Qed.

Lemma normal_app ws vs : normal vs → normal (ws ++ vs).
Proof. intros (vs' & w & -> & Hw). exists (ws ++ vs'), w. split; [by rewrite app_assoc|done]. Qed.

(** The words that follow the zeros of a left shift. *)
Lemma shifted_words ws rb n bits x1 cells :
  words_ok ws → normal ws → 0 ≤ bits < 32 → len ws + 1 ≤ len cells →
  let n1 := n + len ws + 1 in
  len x1 = n →
  ∃ ws' rest, (if bits =? 0 then
       let! x1 := copy_loop (S (Z.to_nat (len ws))) ((Some <$> ws) ++ rb) 0 (len ws) (x1 ++ cells) n in
       Done (x1, n1)
     else
       let! (x1, z) := shift_loop (S (Z.to_nat (len ws))) ((Some <$> ws) ++ rb) 0 (len ws) bits (x1 ++ cells) n 0 in
       Done (x1, if z =? 0 then n1 else n1 + 1)) = Done (E:=E) (x1 ++ (Some <$> ws') ++ rest, n + len ws' + 1) ∧
    length ((Some <$> ws') ++ rest) = length cells ∧
    words_ok ws' ∧ normal ws' ∧ value ws' = value ws * 2 ^ bits.
Proof.
  intros Hws Hn Hbits Hcells n1 Hx1. pose proof (normal_nil ws Hn) as Hne.
  pose proof (normal_bound ws Hws Hn) as Hv. destruct (Z.eqb_spec bits 0) as [->|Hb0].
  - rewrite <- (take_drop (length ws) cells).
    pose proof (words_copy_spec (E:=E) (S (Z.to_nat (len ws))) ws [] rb x1 (take (length ws) cells)
      (drop (length ws) cells) 0 (len ws) n) as Heq. cbn [app] in Heq.
    rewrite Heq by (done || lia || (rewrite length_take; lia)). exists ws, (drop (length ws) cells).
    split; [cbn [obind]; do 2 f_equal; lia|]. rewrite !length_app, length_fmap, length_take, length_drop.
    split; [lia|]. split; [done|]. split; [done|]. rewrite Z.mul_1_r. done.
  - rewrite <- (take_drop (S (length ws)) cells). set (cs := take _ cells). set (rest := drop _ cells).
    destruct (shift_loop_spec (E:=E) (S (Z.to_nat (len ws))) ws [] rb x1 cs rest 0 (len ws) bits n 0)
      as (ws' & z & Heq & Hl & Hok & Hval); [done|done|done|done|done| |lia| |lia|].
    { unfold cs. rewrite length_take. lia. }
    { pose proof (Z.pow_pos_nonneg 2 bits). lia. }
    cbn [app] in Heq. rewrite Heq. cbn [obind]. rewrite Z.add_0_r in Hval.
    assert (length cs = S (length ws)) as Hcs by (unfold cs; rewrite length_take; lia).
    pose proof Hok as Hok'. apply Forall_app in Hok' as [Hok' [Hz _]%Forall_cons]. unfold word_ok in Hz.
    destruct (Z.eqb_spec z 0) as [->|Hz0].
    + exists ws', (Some 0 :: rest). rewrite fmap_app, <- app_assoc.
      split; [unfold n1; do 2 f_equal; lia|]. rewrite !length_app, length_fmap. cbn [length].
      split; [lia|]. split; [done|]. rewrite value_app in Hval. cbn [value] in Hval.
      pose proof (Z.pow_pos_nonneg 2 bits). split; [|lia].
      apply normal_end; [apply (length_nonnil ws); [by apply normal_nonnil|done]|done|].
      rewrite Hl. assert (1 ≤ 2 ^ bits) by lia. nia.
    + exists (ws' ++ [z]), rest. split; [rewrite length_app; unfold n1; cbn [length]; do 2 f_equal; lia|].
      rewrite !length_app, length_fmap, length_app. cbn [length]. split; [lia|].
      split; [done|]. split; [apply normal_snoc; lia|done].
Qed.

Lemma lshift_spec s b n sh :
  pool_ok s → big b n → 0 ≤ sh → n * 2 ^ sh < capacity →
  run (lshift b sh) s 0 (same (fun b' => big b' (n * 2 ^ sh)) s).
Proof.
  intros Hs (ws & Hh & Hn & <-) Hsh Hcap. pose proof (holds_block b ws Hh) as Hb.
  destruct Hh as (_ & Hw & Hws & rest & Hx). pose proof Hb as (Hk & Hm & _).
  unfold lshift. cbv zeta. set (words := Z.shiftr sh 5). set (bits := Z.land sh 31).
  assert (words = sh / 32) as Hwd by (unfold words; by rewrite Z.shiftr_div_pow2 by lia).
  assert (bits = sh mod 32) as Hbt by (unfold bits; change 31 with (Z.ones 5); by rewrite Z.land_ones by lia).
  pose proof (Z.mod_pos_bound sh 32 ltac:(lia)). pose proof (Z.div_mod sh 32 ltac:(lia)) as Hdm.
  assert (2 ^ sh = W ^ words * 2 ^ bits) as Hpow.
  { change W with (2 ^ 32). rewrite <- Z.pow_mul_r, <- Z.pow_add_r by lia. f_equal. lia. }
  pose proof (normal_bound ws Hws Hn) as Hv. pose proof (normal_nonnil ws Hn).
  assert (len ws + words ≤ 127) as Hfit.
  { assert (len ws - 1 + words < 127); [|lia]. apply (Z.pow_lt_mono_r_iff W); [lia..|].
    rewrite Z.pow_add_r by lia. unfold capacity in Hcap. pose proof (Z.pow_pos_nonneg 2 bits).
    pose proof (Z.pow_pos_nonneg W words). rewrite Hpow in Hcap.
    assert (W ^ (len ws - 1) * W ^ words ≤ value ws * (W ^ words * 2 ^ bits)); [|lia].
    rewrite Z.mul_assoc. assert (1 ≤ 2 ^ bits) by lia. nia. }
  apply run_lift. rewrite Hw.
  destruct (lshift_size_spec 32 (words + len ws + 1) (maxwds b) (k b)) as (k1 & -> & Hk1 & Hn1);
    [done|done|lia|unfold Kmax in *; lia|]. apply returns_done.
  eapply run_bind; [apply Balloc_spec; [done|lia]|]. intros b1 s1 Hs1 [[Hb1 Hkb1] Hp1].
  pose proof Hb1 as (_ & Hm1 & Hl1). rewrite Hkb1 in Hm1. apply run_lift.
  change (x b1) with ([] ++ x b1) at 1. rewrite zero_loop_spec by (done || lia). apply returns_done.
  set (zs := Some <$> replicate (Z.to_nat words) 0). set (cells := drop _ (x b1)). cbn [app].
  assert (len zs = words) as Hzs by (unfold zs; rewrite length_fmap, length_replicate; lia).
  assert (len cells = len (x b1) - words) as Hcl by (unfold cells; rewrite length_drop; lia).
  apply run_lift. rewrite Hx.
  destruct (shifted_words ws rest words bits zs cells) as (ws' & rest' & Heq & Hl' & Hok & Hn' & Hval);
    [done|done|lia|lia|done|]. rewrite Heq. apply returns_done.
  eapply run_bind; [by apply Bfree_spec|]. intros u s2 Hs2 Hp2. eapply run_conv; [apply run_ret; [done|]|lia].
  split; [|congruence]. exists (replicate (Z.to_nat words) 0 ++ ws').
  assert (words_ok (replicate (Z.to_nat words) 0)) by (apply Forall_replicate; unfold word_ok; lia).
  split; [|split; [by apply normal_app|]].
  - unfold zs. rewrite app_assoc, <- fmap_app. apply holds_mk; [done| |by apply Forall_app|].
    + rewrite fmap_app, <- app_assoc, length_app. fold zs. lia.
    + rewrite length_app, length_replicate. lia.
  - rewrite value_app, value_zeros, length_replicate, Z2Nat.id, Hval, Hpow by lia. ring.
Qed.

(** ** Quotient and remainder *)
(** A number, or the remainder 0. *)
Definition rest_of (b : Bigint) (r : Z) : Prop := (0 < r → big b r) ∧ (r = 0 → zero b).

Lemma big_rest b n : big b n → rest_of b n.
Proof. intros Hb. pose proof (big_pos b n Hb). split; [done|lia]. Qed.

Lemma zero_head ws rest :
  words_ok ws → value ws = 0 → ∃ rest', (Some <$> ws) ++ [Some 0] ++ rest = Some 0 :: rest'.
Proof.
  intros [|w vs Hw Hvs] Hv; [by exists rest|]. pose proof (value_range vs Hvs).
  cbn [value] in Hv. unfold word_ok in Hw. assert (w = 0) as -> by lia. by eexists.
Qed.

Lemma quorem_end_spec b bs w rest :
  block_ok b → x b = (Some <$> bs ++ [w]) ++ rest → wds b = len bs + 1 → words_ok (bs ++ [w]) →
  ∃ b' n, quorem_end (E:=E) b (len bs) = Done (b', n) ∧ rest_of b' (value (bs ++ [w])) ∧
    (w = 0 → wds b' ≤ len bs) ∧ (w ≠ 0 → b' = b ∧ n = len bs).
Proof.
  intros Hb Hx Hw Hok. pose proof Hok as Hok'. apply Forall_app in Hok' as [Hbs [Hw0 _]%Forall_cons].
  unfold quorem_end. rewrite Hx, fmap_app, <- app_assoc. cbn [fmap list_fmap app].
  rewrite rdw_mid by (by rewrite length_fmap). cbn [obind]. unfold word_ok in Hw0.
  destruct (Z.eqb_spec w 0) as [->|Hne].
  - destruct (quorem_trim_spec (E:=E) (S (Z.to_nat (len bs))) bs (Some 0 :: rest) (len bs))
      as (ws & zs & -> & -> & Hv & Hn & Hz); [done|done|lia|]. cbn [obind].
    eexists _, _. split; [done|]. rewrite value_app. cbn [value].
    change (0 + W * 0) with 0. rewrite Z.mul_0_r, Z.add_0_r.
    apply Forall_app in Hbs as [Hws Hzs]. split; [|split; [|done]].
    + split; intros Hval.
      * exists ws. split; [|split; [by apply Hn|done]].
        split; [done|]. split; [done|]. split; [done|].
        exists ((Some <$> zs) ++ Some 0 :: rest). cbn [x set_wds].
        rewrite Hx, !fmap_app, <- !app_assoc. done.
      * split; [done|]. cbn [wds set_wds x]. specialize (Hz Hval). split; [lia|].
        rewrite Hx, fmap_app, <- app_assoc. apply zero_head; [|done]. by apply Forall_app.
    + intros _. cbn [wds set_wds]. rewrite length_app. lia.
  - eexists _, _. split; [done|]. split; [|split; [done|done]]. apply big_rest.
    exists (bs ++ [w]). split; [|split; [apply normal_snoc; lia|done]].
    split; [done|]. split; [rewrite length_app; cbn [length]; lia|]. split; [done|]. by exists rest.
Qed.

(** The first quotient is at most one too small. *)
Lemma quotient_guess bs ss bn sn :
  words_ok bs → words_ok ss → length bs = length ss → word_ok bn → 134217728 ≤ sn < 268435456 →
  let n := value (bs ++ [bn]) in let d := value (ss ++ [sn]) in let q := bn / (sn + 1) in
  0 ≤ q < 32 ∧ d * q ≤ n < d * (q + 2).
Proof.
  intros Hbs Hss Hl Hbn Hsn n d q. unfold n, d. rewrite !value_app. cbn [value].
  rewrite !Z.mul_0_r, !Z.add_0_r, Hl. pose proof (value_range bs Hbs) as Hb. rewrite Hl in Hb.
  pose proof (value_range ss Hss) as Hs. pose proof (size_pos (length ss)) as HX.
  set (X := W ^ len ss) in *. unfold word_ok in Hbn.
  pose proof (Z.div_mod bn (sn + 1) ltac:(lia)) as Hdm. fold q in Hdm.
  pose proof (Z.mod_pos_bound bn (sn + 1) ltac:(lia)).
  assert (0 ≤ q < 32) as Hq.
  { split; [apply Z.div_pos; lia|apply Z.div_lt_upper_bound; lia]. }
  split; [done|]. set (vb := value bs) in *. set (vs := value ss) in *.
  assert (q * (sn + 1) ≤ bn ∧ bn + 1 ≤ (sn + 1) * (q + 1)) as [H1 H2] by nia.
  assert ((sn + 1) * (q + 1) ≤ sn * (q + 2)) as H3 by nia. split.
  - assert (vs * q ≤ X * q) by nia. assert (X * (q * (sn + 1)) ≤ X * bn) by nia. nia.
  - assert (X * (bn + 1) ≤ X * (sn * (q + 2))) by nia. nia.
Qed.

Lemma zero_small b s d : zero b → big s d → wds b < wds s → ∃ r, cmp (E:=E) b s = Done r ∧ r < 0.
Proof.
  intros _ _ Hlt. unfold cmp. destruct (Z.eqb_spec (wds b - wds s) 0); [lia|]. cbn [negb].
  eexists. split; [done|lia].
Qed.

(** The subtraction of [q * S] that does not become negative. *)
Lemma submul_block b bs ss rs q :
  block_ok b → (∃ rest, x b = (Some <$> bs) ++ rest) → wds b = len bs → words_ok bs →
  words_ok ss → ss ≠ [] → length bs = length ss → word_ok q → value ss * q ≤ value bs →
  ∃ bs' b', submul_loop (E:=E) (S (Z.to_nat (len ss - 1))) (x b) ((Some <$> ss) ++ rs) 0 (len ss - 1) q 0 0
      = Done (x b') ∧ b' = set_x (x b') b ∧ block_ok b' ∧ wds b' = len bs ∧
    (∃ rest, x b' = (Some <$> bs') ++ rest) ∧ length bs' = length bs ∧ words_ok bs' ∧
    value bs' = value bs - value ss * q.
Proof.
  intros Hb [rest Hx] Hw Hbs Hss Hne Hl Hq Hle. assert (0 < length ss)%nat by (destruct ss; cbn; [done|lia]).
  destruct (submul_loop_spec (E:=E) (S (Z.to_nat (len ss - 1))) ss bs [] rest [] rs 0 (len ss - 1) q 0 0)
    as (bs' & t & Heq & Hl' & Hok & Hv); [done|done|lia|done|done|done|done|done|lia|
    unfold word_ok; lia|lia|].
  cbn [app] in Heq. rewrite Hx, Heq. exists bs', (set_x ((Some <$> bs') ++ rest) b).
  pose proof (value_range bs Hbs) as Hrb. pose proof (value_range bs' Hok) as Hrb'.
  pose proof (value_range ss Hss) as Hrs. unfold word_ok in Hq.
  split; [done|]. split; [done|]. split.
  { destruct Hb as (? & ? & Hlen). split; [done|]. split; [done|]. cbn [x maxwds set_x].
    rewrite Hx in Hlen. rewrite length_app, length_fmap in *. lia. }
  split; [done|]. split; [by exists rest|]. split; [done|]. split; [done|].
  rewrite Hl' in Hrb'. rewrite Hl in *. set (X := W ^ len ss) in *.
  assert (0 ≤ value ss * q) by nia. set (p := value ss * q) in *.
  assert (t = 0) as -> by nia. lia.
Qed.

(** The logarithm of a number is that of its highest word and 32 for each other. *)
Lemma top_word ws w :
  words_ok (ws ++ [w]) → 0 < w → Z.log2 (value (ws ++ [w])) = 32 * len ws + Z.log2 w.
Proof.
  intros [Hws [Hw _]%Forall_cons]%Forall_app H0. unfold word_ok in Hw.
  pose proof (value_range ws Hws). rewrite value_app. cbn [value]. rewrite Z.mul_0_r, Z.add_0_r.
  destruct (Z.log2_spec w H0) as [Hlo Hhi]. pose proof (Z.log2_nonneg w).
  rewrite Z.pow_succ_r in Hhi by done.
  apply Z.log2_unique; [lia|]. rewrite Z.pow_succ_r, Z.pow_add_r, Z.pow_mul_r by lia.
  change (2 ^ 32) with W. pose proof (size_pos (length ws)). set (X := W ^ len ws) in *.
  set (P := 2 ^ Z.log2 w) in *. nia.
Qed.

Lemma leading_word ws :
  words_ok ws → normal ws → Z.log2 (value ws) mod 32 = 27 →
  ∃ ss sn, ws = ss ++ [sn] ∧ 134217728 ≤ sn < 268435456.
Proof.
  intros Hok (ss & sn & -> & Hsn) Hlog. exists ss, sn. split; [done|].
  rewrite top_word in Hlog by done. rewrite (Z.mul_comm 32), Z.add_comm, Z.mod_add in Hlog by lia.
  apply Forall_app in Hok as [_ [Hw _]%Forall_cons]. unfold word_ok in Hw.
  pose proof (Z.log2_nonneg sn). assert (Z.log2 sn < 32) by (apply Z.log2_lt_pow2; lia).
  rewrite Z.mod_small in Hlog by lia. destruct (Z.log2_spec sn Hsn) as [Hlo Hhi].
  rewrite Hlog in *. change (2 ^ 27) with 134217728 in *. change (2 ^ Z.succ 27) with 268435456 in *. lia.
Qed.

(** The first subtraction. *)
Lemma quorem_first b bs bn rs ss sn :
  holds b (bs ++ [bn]) → words_ok (ss ++ [sn]) → length bs = length ss →
  134217728 ≤ sn < 268435456 →
  let n := value (bs ++ [bn]) in let d := value (ss ++ [sn]) in let q := bn / (sn + 1) in
  0 < bn →
  ∃ b1 n1, (if q =? 0 then Done (b, len ss)
         else
           let! xb := submul_loop (S (Z.to_nat (len ss))) (x b) ((Some <$> ss ++ [sn]) ++ rs) 0 (len ss) q 0 0 in
           quorem_end (set_x xb b) (len ss)) = Done (E:=E) (b1, n1) ∧
    rest_of b1 (n - d * q) ∧ (d ≤ n - d * q → n1 = len ss ∧ wds b1 = len ss + 1) ∧
    (n - d * q = 0 → wds b1 ≤ len ss).
Proof.
  intros Hh Hss Hl Hsn n d q Hbn0. pose proof Hh as (Hb & Hw & Hok & rest & Hx).
  pose proof (normal_pos (bs ++ [bn]) Hok (normal_snoc bs bn Hbn0)) as Hn. fold n in Hn.
  pose proof Hok as Hok'. apply Forall_app in Hok' as [Hbs [Hbn _]%Forall_cons].
  pose proof Hss as Hss'. apply Forall_app in Hss' as [Hss' _].
  destruct (quotient_guess bs ss bn sn) as (Hq & Hdq & Hdq2); [done..|].
  fold n in Hdq, Hdq2. fold d in Hdq, Hdq2. fold q in Hq, Hdq, Hdq2.
  rewrite length_app in Hw. cbn [length] in Hw.
  destruct (Z.eqb_spec q 0) as [Hq0|Hq0].
  - exists b, (len ss). rewrite Hq0, Z.mul_0_r, Z.sub_0_r in *. split; [done|]. split; [|split; [lia|lia]].
    split; [|lia]. intros _. exists (bs ++ [bn]). split; [done|]. split; [|done].
    by apply normal_snoc.
  - destruct (submul_block b (bs ++ [bn]) (ss ++ [sn]) rs q) as (bs' & b1 & Heq & Hb1 & Hbk & Hw1 & [rest' Hx1] & Hl' & Hok1 & Hv1);
      [done|by exists rest|rewrite length_app; cbn [length]; lia|done|done|by destruct ss|
      rewrite !length_app; cbn [length]; lia|unfold word_ok; lia|fold n; fold d; lia|].
    rewrite length_app in Heq. cbn [length] in Heq.
    replace (Z.of_nat (length ss + 1) - 1) with (len ss) in Heq by lia.
    rewrite Heq. cbn [obind]. rewrite <- Hb1.
    destruct bs' as [|w ws _] using rev_ind; [rewrite length_app in Hl'; cbn in Hl'; lia|].
    rewrite !length_app in Hl'. cbn [length] in Hl'.
    rewrite length_app in Hw1. cbn [length] in Hw1.
    replace (len ss) with (len ws) by lia.
    destruct (quorem_end_spec b1 ws w rest') as (b2 & n2 & -> & Hr & Hz & Hnz); [done|done|lia|done|].
    fold n d in Hv1. rewrite Hv1 in Hr. exists b2, n2. split; [done|]. split; [done|].
    destruct (decide (w = 0)) as [->|Hw0].
    + specialize (Hz eq_refl). split; [|lia]. intros Hge. exfalso.
      rewrite <- Hv1, value_app in Hge. cbn [value] in Hge.
      apply Forall_app in Hok1 as [Hok1 _]. pose proof (value_range ws Hok1).
      unfold d in Hge. rewrite value_app in Hge. cbn [value] in Hge.
      pose proof (value_range ss Hss'). replace (len ws) with (len ss) in * by lia.
      pose proof (size_pos (length ss)). nia.
    + destruct (Hnz Hw0) as [-> ->]. split; [intros _; lia|]. intros Hz0.
      rewrite <- Hv1, value_app in Hz0. cbn [value] in Hz0.
      apply Forall_app in Hok1 as [Hok1 [Hw2 _]%Forall_cons]. unfold word_ok in Hw2.
      pose proof (value_range ws Hok1). pose proof (size_pos (length ws)). nia.
Qed.

(** The second one, when the guess was too small. *)
Lemma quorem_second b1 r rs ss sn :
  big b1 r → words_ok (ss ++ [sn]) → 0 < sn → wds b1 = len ss + 1 → value (ss ++ [sn]) ≤ r →
  ∃ xb b2 n2, submul_loop (E:=E) (S (Z.to_nat (len ss))) (x b1) ((Some <$> ss ++ [sn]) ++ rs) 0 (len ss) 1 0 0
      = Done xb ∧ quorem_end (E:=E) (set_x xb b1) (len ss) = Done (b2, n2) ∧
    rest_of b2 (r - value (ss ++ [sn])).
Proof.
  intros (ws & (Hb & Hw & Hok & rest & Hx) & _ & <-) Hss Hsn Hw1 Hle. rewrite Hw in Hw1.
  destruct (submul_block b1 ws (ss ++ [sn]) rs 1) as
    (bs' & b2 & Heq & Hb2 & Hbk & Hw2 & [rest' Hx2] & Hl' & Hok2 & Hv2);
    [done|by exists rest|done|done|done|by destruct ss|rewrite length_app; cbn [length]; lia|
    unfold word_ok; lia|lia|].
  rewrite length_app in Heq. cbn [length] in Heq.
  replace (Z.of_nat (length ss + 1) - 1) with (len ss) in Heq by lia.
  destruct bs' as [|w ws' _] using rev_ind; [cbn in Hl'; lia|].
  rewrite length_app in Hl'. cbn [length] in Hl'.
  destruct (quorem_end_spec b2 ws' w rest') as (b3 & n3 & Hend & Hr & _); [done|done|lia|done|].
  exists (x b2), b3, n3. split; [done|]. rewrite <- Hb2. replace (len ss) with (len ws') by lia.
  split; [done|]. rewrite Hv2, Z.mul_1_r in Hr. done.
Qed.

Lemma quorem_spec b s n d :
  big b n → big s d → Z.log2 d mod 32 = 27 → n < 16 * d →
  ∃ b', quorem (E:=E) b s = Done (n / d, b') ∧ rest_of b' (n mod d).
Proof.
  intros (ws & Hh & Hn & <-) (vs & Hs & Hns & <-) Hlog Hlt.
  pose proof Hs as (_ & Hws & Hvs & rs & Hxs). destruct (leading_word vs Hvs Hns Hlog) as (ss & sn & -> & Hsn).
  pose proof Hh as (Hb & Hw & Hok & rest & Hx).
  pose proof (value_range (ss ++ [sn]) Hvs) as Hrs. pose proof (normal_pos ws Hok Hn) as Hpos.
  rewrite length_app in Hws. cbn [length] in Hws. unfold quorem. rewrite Hw, Hws.
  destruct (Z.ltb_spec (len ws) (Z.of_nat (length ss + 1))) as [Hshort|Hlong].
  { exists b. pose proof (value_range ws Hok). pose proof (normal_bound _ Hvs Hns) as Hnb.
    rewrite length_app in Hnb. cbn [length] in Hnb.
    pose proof (Z.pow_le_mono_r W (len ws) (Z.of_nat (length ss + 1) - 1)).
    rewrite Z.div_small, Z.mod_small by lia. split; [done|]. apply big_rest. by exists ws. }
  assert (len ws ≤ len ss + 1) as Hle.
  { apply normal_length; [done|done|lia|]. rewrite Z.pow_add_r, Z.pow_1_r by lia.
    rewrite value_app in Hlt. cbn [value] in Hlt. apply Forall_app in Hvs as [Hss _].
    pose proof (value_range ss Hss). pose proof (size_pos (length ss)). nia. }
  destruct Hn as (bs & bn & -> & Hbn). rewrite length_app in Hle, Hlong. cbn [length] in Hle, Hlong.
  replace (Z.of_nat (length ss + 1) - 1) with (len ss) by lia.
  pose proof Hok as Hok'. apply Forall_app in Hok' as [Hbs [Hbnw _]%Forall_cons].
  replace (rdw (x b) (len ss)) with (Done (E:=E) bn).
  2:{ rewrite Hx, fmap_app, <- app_assoc. cbn [fmap list_fmap app].
      rewrite rdw_mid; [done|]. rewrite length_fmap. lia. }
  replace (rdw (x s) (len ss)) with (Done (E:=E) sn).
  2:{ rewrite Hxs, fmap_app, <- app_assoc. cbn [fmap list_fmap app].
      rewrite rdw_mid; [done|]. by rewrite length_fmap. }
  cbn [obind]. rewrite (wrap_small 32 (sn + 1)) by (change (2 ^ 32) with W; lia).
  destruct (Z.eqb_spec (sn + 1) 0); [lia|]. rewrite Hxs.
  destruct (quotient_guess bs ss bn sn) as (Hq & Hdq & Hdq2);
    [done|by apply Forall_app in Hvs as [? _]|lia|done|done|].
  destruct (quorem_first b bs bn rs ss sn) as (b1 & n1 & -> & Hr & Hge & Hz); [done|done|lia|done|done|].
  set (q := bn / (sn + 1)) in *. set (nn := value (bs ++ [bn])) in *.
  set (dd := value (ss ++ [sn])) in *. cbn [obind].
  assert (∃ c, cmp (E:=E) b1 s = Done c ∧ (0 ≤ c ↔ dd ≤ nn - dd * q)) as (c & -> & Hc).
  { destruct (decide (nn - dd * q = 0)) as [H0|H0].
    - destruct (zero_small b1 s dd) as (c & -> & ?); [by apply Hr|by exists (ss ++ [sn])| |].
      { specialize (Hz H0). lia. }
      exists c. split; [done|]. lia.
    - destruct (cmp_spec b1 s (nn - dd * q) dd) as (c & -> & H1 & H2);
        [apply Hr; lia|by exists (ss ++ [sn])|]. exists c. split; [done|]. lia. }
  cbn [obind]. destruct (Z.leb_spec 0 c) as [Hc0|Hc0].
  - destruct (Hge (proj1 Hc Hc0)) as [-> Hw1].
    destruct (quorem_second b1 (nn - dd * q) rs ss sn) as (xb & b2 & n2 & -> & Hend & Hr2);
      [apply Hr; lia|done|lia|done|tauto|]. cbn [obind]. rewrite Hend. cbn [obind]. fold dd in Hr2.
    exists b2. assert (nn / dd = q + 1 ∧ nn mod dd = nn - dd * q - dd) as [-> ->].
    { split; symmetry; [apply Z.div_unique with (nn - dd * q - dd)|apply Z.mod_unique with (q + 1)]; lia. }
    rewrite (wrap_small 32) by (change (2 ^ 32) with W; lia). done.
  - exists b1. assert (nn / dd = q ∧ nn mod dd = nn - dd * q) as [-> ->]; [|done].
    split; symmetry; [apply Z.div_unique with (nn - dd * q)|apply Z.mod_unique with q]; lia.
Qed.

(** ** Powers of 5 *)
Definition p5 (i : nat) : Z := 5 ^ (4 * 2 ^ Z.of_nat i).

Lemma p5_S i : p5 (S i) = p5 i * p5 i.
Proof.
  unfold p5. rewrite Nat2Z.inj_succ, Z.pow_succ_r by lia.
  pose proof (Z.pow_pos_nonneg 2 (Z.of_nat i)). rewrite <- Z.pow_add_r by lia. f_equal. lia.
Qed.

Lemma p5_pos i : 1 ≤ p5 i.
Proof.
  unfold p5. pose proof (Z.pow_pos_nonneg 2 (Z.of_nat i)).
  pose proof (Z.pow_pos_nonneg 5 (4 * 2 ^ Z.of_nat i)). lia.
Qed.

Lemma run_get_p5 {B} i (f : option Bigint → M pool event E B) s d Q :
  run (f (p5s s !! i)) s d Q → run (bind (get_p5 i) f) s d Q.
Proof.
  intros Hf. apply wp_bind. unfold get_p5. apply wp_bind, wp_get, wp_ret. exact Hf.
Qed.

(** The next element of the chain is made by [m] when it is not there. *)
Lemma p5_next s i (m : M pool event E Bigint) :
  pool_ok s → (i ≤ length (p5s s))%nat → run m s 1 (same (fun b => big b (p5 i)) s) →
  run (match p5s s !! i with
       | Some p => ret p
       | None => let* p := m in add_p5 p ;; ret p
       end) s 0 (fun p s' => big p (p5 i) ∧ (i < length (p5s s'))%nat).
Proof.
  intros Hs Hi Hm. destruct (p5s s !! i) as [p|] eqn:Hp.
  - apply run_ret; [done|]. split; [by apply Hs|]. by eapply lookup_lt_Some.
  - eapply run_bind; [exact Hm|]. intros p s1 Hs1 [Hbig Hp1].
    apply lookup_ge_None in Hp. unfold add_p5.
    apply wp_bind, wp_modify, wp_ret. destruct Hs1 as (Hl & Hf & Hp5).
    split; [|split; [|split; [done|]]].
    + split; [done|]. split; [done|]. cbn [p5s]. intros j b [Hj|[Hge Hj]]%lookup_app_Some; [by apply Hp5|].
      apply list_lookup_singleton_Some in Hj as [Hj <-].
      assert (j = i) as -> by (rewrite Hp1 in *; lia). exact Hbig.
    + cbn [p5s balance]. rewrite length_app. cbn [length app balance]. lia.
    + cbn [p5s]. rewrite length_app, Hp1. cbn. lia.
Qed.

(** One step of exponentiation by squaring. *)
Lemma square_step m p n :
  1 ≤ m → 1 ≤ p → 0 < n →
  let m' := if Z.odd n then m * p else m in
  m' * (p * p) ^ (n / 2) = m * p ^ n ∧ m' ≤ m * p ^ n ∧ 1 ≤ m'.
Proof.
  intros Hm Hp Hn m'. pose proof (Z.div_pos n 2 ltac:(lia) ltac:(lia)) as Hd.
  assert (1 ≤ m') by (unfold m'; destruct (Z.odd n); nia).
  assert (m' * (p * p) ^ (n / 2) = m * p ^ n) as Heq.
  { rewrite <- (Z.pow_2_r p), <- Z.pow_mul_r by lia. unfold m'.
    pose proof (Z.div2_odd n) as Hodd. rewrite Z.div2_div in Hodd.
    destruct (Z.odd n); cbn [Z.b2z] in Hodd; rewrite Hodd at 2;
      rewrite ?Z.add_0_r, ?Z.pow_add_r, ?Z.pow_1_r by lia; ring. }
  split; [done|]. split; [|done]. rewrite <- Heq.
  pose proof (Z.pow_pos_nonneg (p * p) (n / 2) ltac:(nia) Hd). nia.
Qed.

Lemma pow5_loop_spec fuel s b m n i q :
  pool_ok s → big b m → big q (p5 i) → (i < length (p5s s))%nat →
  0 < n < 2 ^ Z.of_nat fuel → m * p5 i ^ n < capacity →
  run (pow5_loop fuel b n i q) s 0 (fun b' _ => big b' (m * p5 i ^ n)).
Proof.
  intros Hs Hb Hq Hi. revert s b m n i q Hs Hb Hq Hi.
  induction fuel as [|fuel IH]; intros s b m n i q Hs Hb Hq Hi Hn Hcap.
  { change (2 ^ Z.of_nat 0) with 1 in Hn. lia. }
  cbn [pow5_loop]. pose proof (big_pos b m Hb) as Hm. pose proof (p5_pos i) as Hp.
  rewrite Nat2Z.inj_succ, Z.pow_succ_r in Hn by lia.
  assert (Z.shiftr n 1 = n / 2) as -> by (by rewrite Z.shiftr_div_pow2 by lia).
  destruct (square_step m (p5 i) n) as (Hm' & Hle & Hm1); [lia|lia|lia|].
  set (m' := if Z.odd n then m * p5 i else m) in *.
  apply (run_bind _ _ _ 0 0 (fun b' s' => big b' m' ∧ p5s s' = p5s s)).
  { unfold m'. destruct (Z.odd n) eqn:Hodd.
    - eapply run_bind; [apply mult_spec; [done|done|done|]|].
      { unfold m' in Hle. rewrite ?Hodd in Hle. lia. }
      intros b1 s1 Hs1 [Hb1 Hp1]. destruct Hb as (ws & Hh & _).
      eapply run_bind; [apply Bfree_spec; [done|by eapply holds_block]|].
      intros u s2 Hs2 Hp2. eapply run_conv; [apply run_ret; [done|]|lia]. split; [done|congruence].
    - by apply run_ret. }
  intros b1 s1 Hs1 [Hb1 Hp1]. destruct (Z.eqb_spec (n / 2) 0) as [H0|H0].
  { apply run_ret; [done|]. rewrite H0, Z.pow_0_r, Z.mul_1_r in Hm'. by rewrite <- Hm'. }
  pose proof (Z.div_pos n 2 ltac:(lia) ltac:(lia)) as Hd0.
  assert (p5 i * p5 i < capacity) as Hsq.
  { assert ((p5 i * p5 i) ^ 1 ≤ (p5 i * p5 i) ^ (n / 2)) by (apply Z.pow_le_mono_r; nia).
    rewrite Z.pow_1_r in *. nia. }
  apply run_get_p5. eapply (run_bind _ _ _ 0).
  { apply (p5_next s1 (S i)); [done|rewrite Hp1; lia|]. rewrite p5_S. by apply mult_spec. }
  intros q' s2 Hs2 [Hq' Hi']. rewrite <- Hm'. rewrite <- p5_S in *.
  eapply run_mono; [apply (IH s2 b1 m' (n / 2) (S i) q')|]; try done.
  - split; [lia|]. apply Z.div_lt_upper_bound; lia.
  - by rewrite Hm'.
Qed.

Lemma pow5mult_spec s b m n :
  pool_ok s → big b m → 0 ≤ n < 17179869184 → m * 5 ^ n < capacity →
  run (pow5mult b n) s 0 (fun b' _ => big b' (m * 5 ^ n)).
Proof.
  intros Hs Hb Hn Hcap. pose proof (big_pos b m Hb) as Hm. unfold pow5mult. cbv zeta.
  assert (Z.land n 3 = n mod 4) as -> by (change 3 with (Z.ones 2); by rewrite Z.land_ones by lia).
  assert (Z.shiftr n 2 = n / 4) as -> by (by rewrite Z.shiftr_div_pow2 by lia).
  pose proof (Z.mod_pos_bound n 4 ltac:(lia)) as Hi. pose proof (Z.div_mod n 4 ltac:(lia)) as Hdm.
  pose proof (Z.div_pos n 4 ltac:(lia) ltac:(lia)) as Hd0.
  assert (m * 5 ^ (n mod 4) * p5 0 ^ (n / 4) = m * 5 ^ n) as Heq.
  { change (p5 0) with (5 ^ 4). rewrite <- Z.pow_mul_r, <- Z.mul_assoc, <- Z.pow_add_r by lia.
    do 2 f_equal. lia. }
  pose proof (Z.pow_pos_nonneg 5 (n mod 4) ltac:(lia) ltac:(lia)).
  assert (m * 5 ^ (n mod 4) ≤ m * 5 ^ n) as Hle.
  { rewrite <- Heq. pose proof (Z.pow_pos_nonneg (p5 0) (n / 4)). pose proof (p5_pos 0). nia. }
  apply (run_bind _ _ _ 0 0 (fun b' s' => big b' (m * 5 ^ (n mod 4)) ∧ p5s s' = p5s s)).
  { destruct (Z.eqb_spec (n mod 4) 0) as [->|Hne].
    - apply run_ret; [done|]. by rewrite Z.mul_1_r.
    - apply run_lift. assert (rd (E:=E) p05 (n mod 4 - 1) = Done (5 ^ (n mod 4))) as ->.
      { assert (n mod 4 = 1 ∨ n mod 4 = 2 ∨ n mod 4 = 3) as [->|[->| ->]] by lia; done. }
      apply returns_done. eapply run_mono; [apply (multadd_spec s b m (5 ^ (n mod 4)) 0)|].
      + done.
      + done.
      + pose proof (Z.pow_le_mono_r 5 (n mod 4) 3). change (5 ^ 3) with 125 in *. lia.
      + lia.
      + lia.
      + intros b' s'. by rewrite Z.add_0_r. }
  intros b1 s1 Hs1 [Hb1 Hp1]. destruct (Z.eqb_spec (n / 4) 0) as [H0|H0].
  { apply run_ret; [done|]. rewrite H0, Z.pow_0_r, Z.mul_1_r in Heq. by rewrite <- Heq. }
  apply run_get_p5. eapply (run_bind _ _ _ 0).
  { apply (p5_next s1 0); [done|lia|]. by apply i2b_spec. }
  intros q s2 Hs2 [Hq Hi2]. rewrite <- Heq. rewrite <- Heq in Hcap.
  eapply run_conv; [apply pow5_loop_spec; try done|lia].
  split; [lia|]. apply Z.div_lt_upper_bound; [lia|]. change (2 ^ Z.of_nat 32) with 4294967296. lia.
Qed.

(** ** Difference *)
Lemma diff_trim_trim n xc r : trim_loop (E:=E) n xc = Done r → r ≠ 0 → diff_trim (E:=E) n xc = Done r.
Proof.
  intros Ht Hr. induction n as [|n IH]; cbn [trim_loop diff_trim] in *; [by injection Ht as <-|].
  destruct (rdw xc (Z.of_nat n)); cbn [obind] in *; try done.
  destruct (a =? 0); [by apply IH|done].
Qed.

Lemma holds_read b ws (j : nat) v :
  (∃ rest, x b = (Some <$> ws) ++ rest) → ws !! j = Some v → rdw (E:=E) (x b) (Z.of_nat j) = Done v.
Proof.
  intros [rest ->] Hj. unfold rdw, rd. rewrite zget_of_nat.
  rewrite lookup_app_l by (rewrite length_fmap; by eapply lookup_lt_Some).
  by rewrite list_lookup_fmap, Hj.
Qed.

Lemma diff_ordered s a b m n sg :
  pool_ok s → big a m → big b n → n < m →
  run (let* c := Balloc (k a) in
       let* xc := lift (diff_loop (S (Z.to_nat (wds a))) (x a) (wds a) (x b) (wds b) (x c) 0 0) in
       let* wa := lift (diff_trim (Z.to_nat (wds a)) xc) in
       ret (set_wds wa (set_x xc (set_sign sg c)))) s 1
    (same (fun c => big c (m - n) ∧ sign c = sg) s).
Proof.
  intros Hs (ws & Ha & Hna & <-) (vs & Hb & Hnb & <-) Hlt. pose proof (holds_length a ws Ha) as Hla.
  destruct Ha as ((Hka & Hma & _) & Hwa & Hws & ra & Hxa). destruct Hb as (_ & Hwb & Hvs & Hrb).
  eapply run_bind; [by apply Balloc_spec|]. intros c s1 Hs1 [[Hc Hkc] Hp1].
  pose proof Hc as (_ & Hmc & Hlc). rewrite Hkc in Hmc. apply run_lift. rewrite Hwa, Hwb, Hxa.
  assert (len vs ≤ len ws) as Hle.
  { apply normal_length; [done|done|lia|]. pose proof (value_range ws Hws). lia. }
  rewrite <- (take_drop (length ws) (x c)). set (cs := take _ _). set (rest := drop _ _).
  assert (length cs = length ws) as Hcs by (unfold cs; rewrite length_take; lia).
  destruct (diff_loop_spec (E:=E) (S (Z.to_nat (len ws))) ws vs [] ra (x b) [] cs rest 0 (len ws) (len vs) 0)
    as (ws' & bo & Heq & Hl' & Hok & Hbo & Hv); [done|done|done|lia| |intros; by apply normal_nil|
    by apply normal_nil|lia|done|done|done|lia|lia|].
  { intros j v Hj. rewrite Z.add_0_l. by apply (holds_read b vs). }
  cbn [app] in Heq. rewrite Heq. apply returns_done. apply run_lift.
  pose proof (value_range ws Hws). pose proof (value_range vs Hvs).
  pose proof (value_range ws' Hok) as Hr'. rewrite Hl' in Hr'.
  assert (bo = 0) as -> by nia. rewrite Z.mul_0_r, Z.add_0_r, Z.sub_0_r in Hv.
  destruct (trim_loop_spec (E:=E) ws' rest (Z.to_nat (len ws))) as (cs' & zs & Ht & -> & Hn & Hv');
    [lia|done|lia|]. pose proof (normal_nonnil cs' Hn).
  rewrite (diff_trim_trim _ _ _ Ht) by lia. apply returns_done, run_ret; [done|].
  split; [|done]. split; [|done]. exists cs'. apply Forall_app in Hok as [Hok _].
  split; [|split; [done|lia]]. rewrite fmap_app, <- app_assoc.
  apply holds_mk; [done| |done|done]. cbn [maxwds set_sign].
  rewrite !length_app, !length_fmap. unfold rest. rewrite length_drop. rewrite length_app in Hl'. lia.
Qed.

Lemma diff_spec s a b m n :
  pool_ok s → big a m → big b n →
  run (diff a b) s 1 (same (fun c => rest_of c (Z.abs (m - n)) ∧ sign c = (if m <? n then 1 else 0)) s).
Proof.
  intros Hs Ha Hb. unfold diff. apply run_lift.
  destruct (cmp_spec a b m n Ha Hb) as (r & -> & Hr1 & Hr2). apply returns_done.
  destruct (Z.eqb_spec r 0) as [H0|H0].
  - eapply run_bind; [apply Balloc_sign; [done|unfold Kmax; lia]|].
    intros c s1 Hs1 [[[Hc _] Hsg] Hp1]. apply run_lift.
    destruct (first_word c 0 Hc) as (xs & -> & Hh); [by unfold word_ok|]. apply returns_done.
    apply run_ret; [done|]. split; [|done]. cbn [sign set_wds set_x].
    split; [split; [lia|intros _]|by rewrite (proj2 (Z.ltb_ge m n)) by lia]. destruct Hh as (Hb' & Hw & _ & rest & Hx).
    split; [done|]. split; [cbn; lia|]. by exists rest.
  - destruct (Z.ltb_spec r 0) as [Hlt|Hge].
    + eapply run_mono; [apply (diff_ordered s b a n m 1); [done..|tauto]|]. intros c s' [[Hc Hsg] Hp].
      split; [|done]. replace (Z.abs (m - n)) with (n - m) by lia. split; [by apply big_rest|by rewrite (proj2 (Z.ltb_lt m n)) by tauto].
    + eapply run_mono; [apply (diff_ordered s a b m n 0); [done..|lia]|]. intros c s' [[Hc Hsg] Hp].
      split; [|done]. replace (Z.abs (m - n)) with (m - n) by lia. split; [by apply big_rest|by rewrite (proj2 (Z.ltb_ge m n)) by lia].
Qed.

(** A difference 0 is below every number. *)
Lemma zero_cmp b s d : zero b → big s d → ∃ r, cmp (E:=E) b s = Done r ∧ r < 0.
Proof.
  intros Hz Hs. pose proof Hz as (_ & Hw & rest & Hx). destruct (decide (wds b < wds s)) as [Hlt|Hge]; [by apply (zero_small b s d)|].
  destruct Hs as (ws & (_ & Hws & Hok & rs & Hxs) & Hn & _). pose proof (normal_nonnil ws Hn).
  assert (length ws = 1%nat) as H1 by lia. destruct Hn as (ws' & w & -> & Hp). rewrite length_app in H1. cbn [length] in H1.
  destruct ws'; [|cbn [length] in H1; lia]. unfold cmp. rewrite Hws, Hx, Hxs. cbn [length app fmap list_fmap] in *.
  replace (wds b - Z.of_nat 1) with 0 by lia. change (negb (0 =? 0)) with false. cbv iota.
  change (Z.to_nat (Z.of_nat 1)) with 1%nat. cbn [cmp_loop]. change (Z.of_nat 0) with 0.
  assert (∀ v r, rdw (E:=E) (Some v :: r) 0 = Done v) as Hrd by (intros; by apply (rdw_mid [])). rewrite !Hrd. cbn [obind].
  rewrite (proj2 (Z.eqb_neq 0 w)), (proj2 (Z.ltb_lt 0 w)) by lia. by exists (-1).
Qed.

Lemma rest_cmp b r s d : 0 ≤ r → rest_of b r → big s d → ∃ c, cmp (E:=E) b s = Done c ∧ (c < 0 ↔ r < d) ∧ (c = 0 ↔ r = d).
Proof.
  intros Hr [Hp Hz] Hs. destruct (decide (r = 0)) as [->|H0].
  - destruct (zero_cmp b s d (Hz eq_refl) Hs) as (c & -> & Hc). pose proof (big_pos s d Hs). exists c. split; [done|lia].
  - apply cmp_spec; [apply Hp; lia|done].
Qed.
End ops.
End BigintOps.
