(* ===== verification/BigintProps.v ===== *)
(** * dtoa.c: the big integers compute as the integers do

    [expr] is a computation with the operations of dtoa.c, [build] makes it with them and
    gives every intermediate block back, [eval] is its value. The division of a conversion
    is [quorem]. *)
From S2P Require Import Prelude Bigint BigintSpec BigintOps.

Module BigintProps.
Import Bigint BigintSpec BigintOps.

Inductive expr :=
  | Num (i : Z)
  | MulAdd (e : expr) (m a : Z)
  | Mul (e1 e2 : expr)
  | Pow5 (e : expr) (n : Z)
  | Shift (e : expr) (n : Z)
  | Dist (e1 e2 : expr).

Fixpoint eval (e : expr) : Z :=
  match e with
  | Num i => i
  | MulAdd e m a => eval e * m + a
  | Mul e1 e2 => eval e1 * eval e2
  | Pow5 e n => eval e * 5 ^ n
  | Shift e n => eval e * 2 ^ n
  | Dist e1 e2 => Z.abs (eval e1 - eval e2)
  end.

(** The arguments are those the operations are for, a difference is not 0 and no number
    is beyond the capacity of the largest block of the freelist. *)
Fixpoint fits (e : expr) : Prop :=
  eval e < capacity ∧
  match e with
  | Num i => 0 < i < 2147483648
  | MulAdd e m a => fits e ∧ 0 < m < 2147483648 ∧ 0 ≤ a < 2147483648
  | Mul e1 e2 => fits e1 ∧ fits e2
  | Pow5 e n => fits e ∧ 0 ≤ n < 17179869184
  | Shift e n => fits e ∧ 0 ≤ n
  | Dist e1 e2 => fits e1 ∧ fits e2 ∧ eval e1 ≠ eval e2
  end.

Section build.
Context {E : Type}.

Definition both (m1 m2 : M pool event E Bigint) (op : Bigint → Bigint → M pool event E Bigint) : M pool event E Bigint :=
  let* a := m1 in
  let* b := m2 in
  let* c := op a b in
  Bfree a ;;
  Bfree b ;;
  ret c.

Fixpoint build (e : expr) : M pool event E Bigint :=
  match e with
  | Num i => i2b i
  | MulAdd e m a => let* b := build e in multadd b m a
  | Mul e1 e2 => both (build e1) (build e2) mult
  | Pow5 e n => let* b := build e in pow5mult b n
  | Shift e n => let* b := build e in lshift b n
  | Dist e1 e2 => both (build e1) (build e2) diff
  end.

Lemma both_spec m1 m2 op s n1 n2 n :
  run m1 s 1 (fun a _ => big a n1) →
  (∀ s1, pool_ok s1 → run m2 s1 1 (fun b _ => big b n2)) →
  (∀ s2 a b, pool_ok s2 → big a n1 → big b n2 → run (op a b) s2 1 (fun c _ => big c n)) →
  run (both m1 m2 op) s 1 (fun c _ => big c n).
Proof.
  intros H1 H2 Hop. eapply run_bind; [exact H1|]. intros a s1 Hs1 Ha.
  eapply run_bind; [by apply H2|]. intros b s2 Hs2 Hb. eapply run_bind; [by apply Hop|]. intros c s3 Hs3 Hc.
  eapply run_bind; [by apply Bfree_spec, (big_block a n1)|]. intros _ s4 Hs4 _.
  eapply run_bind; [by apply Bfree_spec, (big_block b n2)|]. intros _ s5 Hs5 _.
  eapply run_conv; [by apply run_ret|lia].
Qed.

Lemma build_ok e s : pool_ok s → fits e → run (build e) s 1 (fun b _ => big b (eval e)).
Proof.
  revert s. induction e as [i|e IH m a|e1 IH1 e2 IH2|e IH n|e IH n|e1 IH1 e2 IH2]; intros s Hs [Hcap Hf]; cbn [build eval] in *.
  - eapply run_mono; [by apply i2b_spec|]. by intros b s' [? _].
  - destruct Hf as (Hf & Hm & Ha). eapply run_bind; [by apply IH|]. intros b s1 Hs1 Hb.
    eapply run_mono; [by apply (multadd_spec _ _ (eval e))|]. by intros c s' [? _].
  - destruct Hf as [Hf1 Hf2]. apply (both_spec _ _ _ _ (eval e1) (eval e2)); [by apply IH1|auto|].
    intros s2 a b Hs2 Ha Hb. eapply run_mono; [by apply (mult_spec _ _ _ (eval e1) (eval e2))|]. by intros c s' [? _].
  - destruct Hf as [Hf Hn]. eapply run_bind; [by apply IH|]. intros b s1 Hs1 Hb. by apply (pow5mult_spec _ _ (eval e)).
  - destruct Hf as [Hf Hn]. eapply run_bind; [by apply IH|]. intros b s1 Hs1 Hb.
    eapply run_mono; [by apply (lshift_spec _ _ (eval e))|]. by intros c s' [? _].
  - destruct Hf as (Hf1 & Hf2 & Hne). apply (both_spec _ _ _ _ (eval e1) (eval e2)); [by apply IH1|auto|].
    intros s2 a b Hs2 Ha Hb. eapply run_mono; [by apply (diff_spec _ _ _ (eval e1) (eval e2))|]. intros c s' [[[Hc _] _] _]. apply Hc. lia.
Qed.

(** C29: The big integers implement the integers: a computation with [i2b], [multadd],
    [mult], [pow5mult], [lshift] and [diff] never leaves the blocks it got, makes the
    normalised number of its value and has given every other block back, whatever the
    freelist and the cache of powers of five hold; [cmp] orders two of its results as the
    integers. *)
Theorem bigint_refines_Z e1 e2 s :
  pool_ok s → fits e1 → fits e2 →
  run (build e1) s 1 (fun a s1 =>
    big a (eval e1) ∧
    run (build e2) s1 1 (fun b _ =>
      big b (eval e2) ∧
      ∃ r, cmp (E:=E) a b = Done r ∧ (r < 0 ↔ eval e1 < eval e2) ∧ (r = 0 ↔ eval e1 = eval e2))).
Proof.
  intros Hs H1 H2. eapply wp_mono; [by apply build_ok|]. intros a s1 w (Hs1 & Hbal & Ha).
  split; [done|]. split; [done|]. split; [done|]. eapply run_mono; [by apply build_ok|].
  intros b s2 Hb. split; [done|]. by apply cmp_spec.
Qed.

(** [quorem] divides: when the divisor fills its top word up to bit 27 and the quotient
    is below 10, as [dtoa] makes sure, it returns exactly the quotient, the next decimal
    digit, and leaves exactly the remainder in the dividend. *)
Theorem quorem_divides b s n d :
  big b n → big s d → Z.log2 d mod 32 = 27 → n < 10 * d →
  ∃ b', quorem (E:=E) b s = Done (n / d, b') ∧ rest_of b' (n mod d).
Proof. intros Hb Hs Hl Hn. pose proof (big_pos s d Hs). apply quorem_spec; [done..|lia]. Qed.
End build.

Definition sample : expr := Dist (Shift (Pow5 (Num 3) 100) 7) (Mul (Num 2147483647) (Num 5)).

Lemma sample_fits : fits sample.
Proof. vm_compute. repeat split; intros [=]. Qed.

Lemma bigint_refines_Z_witness :
  run (E:=Empty_set) (build sample) pool0 1 (fun a _ => big a (eval sample)).
Proof.
  eapply run_mono; [apply (bigint_refines_Z sample (Num 1) pool0 pool0_ok sample_fits)|by intros a s [Ha _]].
  vm_compute. repeat split; intros [=].
Defined.

Lemma two_words u v : word_ok u → word_ok v → 0 < v → big (mkBigint 1 2 0 2 [Some u; Some v]) (u + W * (v + W * 0)).
Proof.
  intros Hu Hv H0. exists [u; v]. split; [|split; [by exists [u], v|done]].
  split; [split; [unfold Kmax; cbn; lia|done]|]. split; [done|]. split; [by apply Forall_cons; split; [|apply Forall_cons; split]|by exists []].
Qed.

Lemma quorem_divides_witness :
  ∃ b', quorem (E:=Empty_set) (mkBigint 1 2 0 2 [Some 5; Some 700000000]) (mkBigint 1 2 0 2 [Some 7; Some 150000000]) = Done (4, b') ∧
    rest_of b' 429496729599999977.
Proof.
  apply (quorem_divides _ _ (5 + W * (700000000 + W * 0)) (7 + W * (150000000 + W * 0))).
  - apply two_words; unfold word_ok; lia.
  - apply two_words; unfold word_ok; lia.
  - vm_compute. reflexivity.
  - lia.
Defined.
End BigintProps.
