(* ===== verification/Dtoa.v ===== *)
(** * dtoa.c and g_fmt.c: the internal conversion of doubles to text

    [fpconv_g_fmt] of g_fmt.c is the conversion that lua-cjson uses when it is built with
    its own number code. It calls [dtoa] with mode 2, the digits of [ndigits] significant
    places; that mode is modelled, with its three ways: floating-point arithmetic for
    few digits, small integers, and big integers. The build has [IEEE_8087] and
    [MULTIPLE_THREADS]; doubles are rounded to nearest even. The string is made in a block
    of a [Bigint]: [text] has its bytes behind the size. *)
From S2P Require Import Prelude Libc Double Bigint.

Module Dtoa.
Import Double Bigint.

(** ** The words of a double *)
Definition bits (d : double) : Z :=
  match d with
  | S754_zero s => if s then 2 ^ 63 else 0
  | S754_infinity s => (if s then 2 ^ 63 else 0) + 2047 * 2 ^ 52
  | S754_nan => 4095 * 2 ^ 51
  | S754_finite s m e =>
      (if s then 2 ^ 63 else 0) +
      (if Z.pos m <? 2 ^ 52 then Z.pos m else (e + 1075) * 2 ^ 52 + (Z.pos m - 2 ^ 52))
  end.
Definition of_bits (z : Z) : double :=
  let s := 2 ^ 63 <=? z in
  let z := if s then z - 2 ^ 63 else z in
  let e := z / 2 ^ 52 in
  let f := z mod 2 ^ 52 in
  if e =? 2047 then (if f =? 0 then S754_infinity s else S754_nan)
  else if e =? 0 then
    match f with Z.pos m => S754_finite s m (-1074) | _ => S754_zero s end
  else
    match f + 2 ^ 52 with Z.pos m => S754_finite s m (e - 1075) | _ => S754_zero s end.

Definition word0 (d : double) : Z := bits d / 2 ^ 32.
Definition word1 (d : double) : Z := bits d mod 2 ^ 32.
Definition set_word0 (w : Z) (d : double) : double := of_bits (u32 w * 2 ^ 32 + word1 d).

(** ** Arithmetic *)
Definition fadd : double → double → double := SFadd 53 1024.
Definition fsub : double → double → double := SFsub 53 1024.
Definition fmul : double → double → double := SFmul 53 1024.
Definition fdiv : double → double → double := SFdiv 53 1024.
Definition is_zero (d : double) : bool := match d with S754_zero _ => true | _ => false end.

Definition Exp_msk1 : Z := 1048576.
Definition Frac_mask : Z := 1048575.
Definition Exp_mask : Z := 2146435072.
Definition Exp_11 : Z := 1072693248.
Definition Sign_bit : Z := 2147483648.
Definition Bias : Z := 1023.
Definition P : Z := 53.
Definition Ten_pmax : Z := 22.
Definition Bletch : Z := 16.
Definition Quick_max : Z := 14.
Definition Int_max : Z := 14.

(** The literals and tables; 1e23 and the large powers of 10 are rounded. *)
Definition tens : list double := Eval vm_compute in
  (fun i => of_decimal false 1 (Z.of_nat i)) <$> seq 0 23.
Definition bigtens : list double := Eval vm_compute in
  (fun e => of_decimal false 1 e) <$> [16; 32; 64; 128; 256].
Definition c_0_289 : double := Eval vm_compute in of_decimal false 289529654602168 (-15).
Definition c_0_176 : double := Eval vm_compute in of_decimal false 1760912590558 (-13).
Definition c_0_301 : double := Eval vm_compute in of_decimal false 301029995663981 (-15).
Definition c_1_5 : double := Eval vm_compute in of_decimal false 15 (-1).
Definition c_0_5 : double := Eval vm_compute in of_decimal false 5 (-1).

(** A string in a block of size [size_k]: the bytes behind its first int. *)
Record text := mkText { size_k : Z; chars : list cell }.

Section Dtoa.
Context {E : Type}.

(** The conversion to a 32-bit int. *)
Definition to_Long (d : double) : outcome E Z :=
  match d with
  | S754_zero _ => Done 0
  | S754_finite s m e =>
      let z := if 0 <=? e then Z.pos m * 2 ^ e else Z.pos m / 2 ^ (- e) in
      int (if s then - z else z)
  | _ => Fault IntOverflow
  end.

(** ** d2b *)
(** The mantissa without its low zero bits, its exponent and its number of bits. *)
Definition d2b (d : double) : M pool event E (Bigint * Z * Z) :=
  let* b := Balloc 1 in
  let d0 := word0 d in
  let z := Z.land d0 Frac_mask in
  let d0 := Z.land d0 2147483647 in
  let de := Z.shiftr d0 20 in
  let z := if de =? 0 then z else Z.lor z Exp_msk1 in
  let y := word1 d in
  let* (xs, n, kk) := lift (
    if y =? 0 then
      let '(kk, z) := lo0bits z in
      let! xs := wrw (x b) 0 z in
      Done (xs, 1, kk + 32)
    else
      let '(kk, y) := lo0bits y in
      let! xs := wrw (x b) 0 (if kk =? 0 then y else Z.lor y (u32 (Z.shiftl z (32 - kk)))) in
      let z := if kk =? 0 then z else Z.shiftr z kk in
      let! xs := wrw xs 1 z in
      Done (xs, if z =? 0 then 1 else 2, kk)) in
  let b := set_wds n (set_x xs b) in
  if de =? 0 then
    let* top := lift (rdw (x b) (n - 1)) in
    ret (b, de - Bias - (P - 1) + 1 + kk, 32 * n - hi0bits top)
  else ret (b, de - Bias - (P - 1) + kk, P - kk).

(** ** The strings *)
Fixpoint rv_size (fuel : nat) (i j kk : Z) : Z :=
  match fuel with
  | O => kk
  | S fuel' => if 32 - 4 - 4 + j <=? i then rv_size fuel' i (Z.shiftl j 1) (kk + 1) else kk
  end.
Definition rv_alloc (i : Z) : M pool event E text :=
  let kk := rv_size 31 i 4 0 in
  let* b := Balloc kk in
  ret (mkText (k b) (replicate (Z.to_nat (32 - 4 - 4 + 4 * maxwds b)) None)).

(** The bytes of the string are lost for the block. *)
Definition freedtoa (s : text) : M pool event E unit :=
  let maxwds := Z.shiftl 1 (size_k s) in
  Bfree (mkBigint (size_k s) maxwds 0 0 (replicate (Z.to_nat maxwds) None)).

(** [*s++ = c] *)
Definition put_char (t : list cell) (s c : Z) : outcome E (list cell) := wr t s (Some (i8 c)).
Definition get_char (t : list cell) (s : Z) : outcome E Z := rdw t s.

Fixpoint put_string (t : list cell) (s : Z) (cs : list Z) : outcome E (list cell * Z) :=
  match cs with
  | [] => let! t := put_char t s 0 in Done (t, s)
  | c :: cs => let! t := put_char t s c in put_string t (s + 1) cs
  end.
(** The string and its length. *)
Definition nrv_alloc (cs : list Z) (n : Z) : M pool event E (text * Z) :=
  let* rv := rv_alloc n in
  let* (t, s) := lift (put_string (chars rv) 0 cs) in
  ret (mkText (size_k rv) t, s).

(** [while ( *--s == '0'); s++;] *)
Fixpoint strip_loop (fuel : nat) (t : list cell) (s : Z) : outcome E Z :=
  match fuel with
  | O => NoFuel
  | S fuel' =>
      let! c := get_char t (s - 1) in
      if c =? 48 then strip_loop fuel' t (s - 1) else Done s
  end.

(** [while ( *--s == '9') if(s == s0) { k++; *s = '0'; break; } ++*s++;] *)
Fixpoint bump_up (fuel : nat) (t : list cell) (s kk : Z) : outcome E (list cell * Z * Z) :=
  match fuel with
  | O => NoFuel
  | S fuel' =>
      let s := s - 1 in
      let! c := get_char t s in
      if c =? 57 then
        if s =? 0 then
          let! t := put_char t s 48 in
          let! c := get_char t s in
          let! t := put_char t s (c + 1) in
          Done (t, s + 1, kk + 1)
        else bump_up fuel' t s kk
      else
        let! t := put_char t s (c + 1) in
        Done (t, s + 1, kk)
  end.
(** The same behind the label [roundoff]. *)
Fixpoint roundoff (fuel : nat) (t : list cell) (s kk : Z) : outcome E (list cell * Z * Z) :=
  match fuel with
  | O => NoFuel
  | S fuel' =>
      let s := s - 1 in
      let! c := get_char t s in
      if c =? 57 then
        if s =? 0 then
          let! t := put_char t s 49 in
          Done (t, s + 1, kk + 1)
        else roundoff fuel' t s kk
      else
        let! t := put_char t s (c + 1) in
        Done (t, s + 1, kk)
  end.

(** ** The estimate of the decimal exponent *)
(** A double in [1, 2) like the mantissa, and the binary exponent. *)
Definition mantissa_of (u : double) (be bbits : Z) : double * Z :=
  let i := Z.land (Z.shiftr (word0 u) 20) 2047 in
  if i =? 0 then
    let i := bbits + be + (Bias + (P - 1) - 1) in
    let x :=
      if 32 <? i
      then Z.lor (u32 (Z.shiftl (word0 u) (64 - i))) (Z.shiftr (word1 u) (i - 32))
      else u32 (Z.shiftl (word1 u) (32 - i)) in
    let d2 := of_Z x in
    (set_word0 (word0 d2 - 31 * Exp_msk1) d2, i - ((Bias + (P - 1) - 1) + 1))
  else (set_word0 (Z.lor (Z.land (word0 u) Frac_mask) Exp_11) u, i - Bias).

Definition log10_estimate (d2 : double) (i : Z) : double :=
  fadd (fadd (fmul (fsub d2 c_1_5) c_0_289) c_0_176) (fmul (of_Z i) c_0_301).

Definition floor_int (ds : double) : outcome E Z :=
  let! kk := to_Long ds in
  Done (if SFltb ds (of_Z 0) && negb (SFeqb ds (of_Z kk)) then kk - 1 else kk).

(** [k], the exponent [i] and [k_check]. *)
Definition estimate (u : double) (be bbits : Z) : outcome E (Z * Z * bool) :=
  let '(d2, i) := mantissa_of u be bbits in
  let! kk := floor_int (log10_estimate d2 i) in
  if (0 <=? kk) && (kk <=? Ten_pmax) then
    let! t := rd tens kk in
    Done (if SFltb u t then kk - 1 else kk, i, false)
  else Done (kk, i, true).

(** ** Few digits: floating-point arithmetic *)
(** [for(; j; j >>= 1, i++) if(j & 1) { ieps++; d *= bigtens[i]; }] *)
Fixpoint bigtens_loop (fuel : nat) (d : double) (j i ieps : Z) : outcome E (double * Z) :=
  match fuel with
  | O => NoFuel
  | S fuel' =>
      if j =? 0 then Done (d, ieps)
      else
        let! (d, ieps) :=
          (if Z.odd j then let! t := rd bigtens i in Done (fmul d t, ieps + 1) else Done (d, ieps)) in
        bigtens_loop fuel' d (Z.shiftr j 1) (i + 1) ieps
  end.

(** The double divided by [10^k], and the number of errors. *)
Definition quick_scale (u : double) (kk : Z) : outcome E (double * Z) :=
  if 0 <? kk then
    let! ds := rd tens (Z.land kk 15) in
    let j := Z.shiftr kk 4 in
    let! (u, j, ieps) :=
      (if Z.land j Bletch =? 0 then Done (u, j, 2)
       else let! t := rd bigtens 4 in Done (fdiv u t, Z.land j (Bletch - 1), 3)) in
    let! (ds, ieps) := bigtens_loop 6 ds j 0 ieps in
    Done (fdiv u ds, ieps)
  else if kk =? 0 then Done (u, 2)
  else
    let j1 := - kk in
    let! t := rd tens (Z.land j1 15) in
    bigtens_loop 6 (fmul u t) (Z.shiftr j1 4) 0 2.

(** The digits of [u], [ilim] of them or less when nothing is left; the bound [eps]
    decides about the rounding, or cannot. *)
Fixpoint quick_loop (fuel : nat) (t : list cell) (s : Z) (u eps : double) (i ilim : Z)
    : outcome E (list cell * Z * option bool) :=
  match fuel with
  | O => NoFuel
  | S fuel' =>
      let! L := to_Long u in
      let u := fsub u (of_Z L) in
      let ilim := if is_zero u then i else ilim in
      let! t := put_char t s (48 + L) in
      let s := s + 1 in
      if i =? ilim then
        if SFltb (fadd c_0_5 eps) u then Done (t, s, Some true)
        else if SFltb u (fsub c_0_5 eps) then Done (t, s, Some false)
        else Done (t, s, None)
      else quick_loop fuel' t s (fmul u (of_Z 10)) eps (i + 1) ilim
  end.

(** The bytes, and where the string ends and its exponent, unless the digits are not
    certain. *)
Definition quick (u : double) (kk ilim : Z) (k_check : bool) (t : list cell)
    : outcome E (list cell * option (Z * Z)) :=
  let! (u, ieps) := quick_scale u kk in
  let '(u, kk, ieps) :=
    if k_check && SFltb u (of_Z 1) && (0 <? ilim)
    then (fmul u (of_Z 10), kk - 1, ieps + 1) else (u, kk, ieps) in
  let eps := fadd (fmul (of_Z ieps) u) (of_Z 7) in
  let eps := set_word0 (word0 eps - (P - 1) * Exp_msk1) eps in
  let! top := rd tens (ilim - 1) in
  let! (t, s, up) := quick_loop (Z.to_nat ilim) t 0 u (fmul eps top) 1 ilim in
  match up with
  | Some true =>
      let! (t, s, kk) := bump_up (S (Z.to_nat s)) t s kk in
      Done (t, Some (s, kk))
  | Some false =>
      let! s := strip_loop (S (Z.to_nat s)) t s in
      Done (t, Some (s, kk))
  | None => Done (t, None)
  end.

(** ** Small integers *)
Fixpoint int_loop (fuel : nat) (t : list cell) (s : Z) (u ds : double) (i ilim kk : Z)
    : outcome E (list cell * Z * Z) :=
  match fuel with
  | O => NoFuel
  | S fuel' =>
      let! L := to_Long (fdiv u ds) in
      let u := fsub u (fmul (of_Z L) ds) in
      let! t := put_char t s (48 + L) in
      let s := s + 1 in
      if is_zero u then Done (t, s, kk)
      else if i =? ilim then
        let u := fadd u u in
        if SFltb ds u || (SFeqb u ds && Z.odd L) then bump_up (S (Z.to_nat s)) t s kk
        else Done (t, s, kk)
      else int_loop fuel' t s (fmul u (of_Z 10)) ds (i + 1) ilim kk
  end.

Definition small_integer (u : double) (kk ilim : Z) (t : list cell)
    : outcome E (list cell * Z * Z) :=
  let! ds := rd tens kk in
  int_loop (Z.to_nat ilim) t 0 u ds 1 ilim kk.

(** ** Big integers *)
Definition no_words (b : Bigint) : outcome E bool :=
  let! w := rdw (x b) 0 in Done ((w =? 0) && (wds b <=? 1)).

(** The digits of [b / S]; [None] when nothing is left, else the last digit. *)
Fixpoint digit_loop (fuel : nat) (b sb : Bigint) (t : list cell) (s i ilim : Z)
    : M pool event E (Bigint * list cell * Z * option Z) :=
  match fuel with
  | O => lift NoFuel
  | S fuel' =>
      let* (q, b) := lift (quorem b sb) in
      let dig := q + 48 in
      let* t := lift (put_char t s dig) in
      let s := s + 1 in
      let* none := lift (no_words b) in
      if none then ret (b, t, s, None)
      else if ilim <=? i then ret (b, t, s, Some dig)
      else
        let* b := multadd b 10 0 in
        digit_loop fuel' b sb t s (i + 1) ilim
  end.

(** The exponents of 2 and 5 on both sides of the quotient. *)
Definition scale_exponents (kk j : Z) : Z * Z * Z * Z :=
  let '(b2, s2) := if 0 <=? j then (0, j) else (- j, 0) in
  let '(b2, s2, b5, s5) := if 0 <=? kk then (b2, s2 + kk, 0, kk) else (b2 - kk, s2, - kk, 0) in
  let i := if (0 <? b2) && (0 <? s2) then Z.min b2 s2 else 0 in
  (b2 - i, s2 - i, b5, s5).

(** [b / S] is the double divided by [10^k]. *)
Definition scaled (b : Bigint) (b2 s2 b5 s5 : Z) : M pool event E (Bigint * Bigint) :=
  let* b := (if 0 <? b5 then pow5mult b b5 else ret b) in
  let* sb := i2b 1 in
  let* sb := (if 0 <? s5 then pow5mult sb s5 else ret sb) in
  let* i := lift (dshift sb s2) in
  let b2 := b2 + i in
  let s2 := s2 + i in
  let* b := (if 0 <? b2 then lshift b b2 else ret b) in
  let* sb := (if 0 <? s2 then lshift sb s2 else ret sb) in
  ret (b, sb).

Definition round_last (b sb : Bigint) (t : list cell) (s kk dig : Z)
    : M pool event E (Bigint * list cell * Z * Z) :=
  let* b := lshift b 1 in
  let* j := lift (cmp b sb) in
  if (0 <? j) || ((j =? 0) && Z.odd dig) then
    let* (t, s, kk) := lift (roundoff (S (Z.to_nat s)) t s kk) in
    ret (b, t, s, kk)
  else
    let* s := lift (strip_loop (S (Z.to_nat s)) t s) in
    ret (b, t, s, kk).

Definition big_digits (b : Bigint) (kk j ilim : Z) (k_check : bool) (t : list cell)
    : M pool event E (Bigint * list cell * Z * Z) :=
  let '(b2, s2, b5, s5) := scale_exponents kk j in
  let* (b, sb) := scaled b b2 s2 b5 s5 in
  let* (b, kk) :=
    (if k_check then
       let* c := lift (cmp b sb) in
       if c <? 0 then
         let* b := multadd b 10 0 in
         ret (b, kk - 1)
       else ret (b, kk)
     else ret (b, kk)) in
  let* (b, t, s, dig) := digit_loop (Z.to_nat ilim) b sb t 0 1 ilim in
  let* (b, t, s, kk) :=
    match dig with
    | None => ret (b, t, s, kk)
    | Some dig => round_last b sb t s kk dig
    end in
  Bfree sb ;;
  ret (b, t, s, kk).

(** Few digits, a small integer, or big integers: the digits, where they end, and the
    decimal exponent. *)
Definition convert (u : double) (b : Bigint) (be j kk ilim : Z) (k_check : bool) (t : list cell)
    : M pool event E (Bigint * list cell * Z * Z) :=
  let* (t, r) :=
    (if (0 <=? ilim) && (ilim <=? Quick_max)
     then lift (quick u kk ilim k_check t) else ret (t, None)) in
  match r with
  | Some (s, kk) => ret (b, t, s, kk)
  | None =>
      if (0 <=? be) && (kk <=? Int_max) then
        let* (t, s, kk) := lift (small_integer u kk ilim t) in
        ret (b, t, s, kk)
      else big_digits b kk j ilim k_check t
  end.

(** ** dtoa *)
(** The string, its length ([*rve]), [*decpt] and [*sign]. *)
Definition dtoa (dd : double) (ndigits : Z) : M pool event E (text * Z * Z * bool) :=
  let sign := negb (Z.land (word0 dd) Sign_bit =? 0) in
  let u := if sign then set_word0 (Z.land (word0 dd) 2147483647) dd else dd in
  if Z.land (word0 u) Exp_mask =? Exp_mask then
    let* (t, n) :=
      (if (word1 u =? 0) && (Z.land (word0 u) 1048575 =? 0)
       then nrv_alloc (lit "Infinity") 8 else nrv_alloc (lit "NaN") 3) in
    ret (t, n, 9999, sign)
  else if is_zero u then
    let* (t, n) := nrv_alloc (lit "0") 1 in
    ret (t, n, 1, sign)
  else
    let* (b, be, bbits) := d2b u in
    let* (kk, i, k_check) := lift (estimate u be bbits) in
    let ndigits := if ndigits <=? 0 then 1 else ndigits in
    let ilim := ndigits in
    let* rv := rv_alloc ilim in
    let* (b, t, s, kk) := convert u b be (bbits - i - 1) kk ilim k_check (chars rv) in
    Bfree b ;;
    let* t := lift (put_char t s 0) in
    ret (mkText (size_k rv) t, s, kk + 1, sign).
End Dtoa.
End Dtoa.
