(* ===== verification/FloatSpec.v ===== *)
(** * Floating-point arithmetic over the reals

    [val x] is the real number of a double. [rounds y r]: the double [y] is [r] rounded
    to nearest. The operations of the Standard Library's [SpecFloat] round their exact
    results; what is representable is exact, and the relative error of the others is at
    most 2^-53. *)
From Stdlib Require Import Reals Lra.
From S2P Require Import Prelude Libc Double DoubleSpec.

Module FloatSpec.
Import Double DoubleSpec.

(** ** Absolute values *)
Lemma Rabs_le_inv x a : (Rabs x <= a)%R → (- a <= x <= a)%R.
Proof. intros H. pose proof (Rle_abs x). pose proof (Rle_abs (- x)). rewrite Rabs_Ropp in *. lra. Qed.
Lemma Rabs_lt_inv x a : (Rabs x < a)%R → (- a < x < a)%R.
Proof. intros H. pose proof (Rle_abs x). pose proof (Rle_abs (- x)). rewrite Rabs_Ropp in *. lra. Qed.

(** ** Powers of 2 and 10 *)
Definition pow2 (e : Z) : R := powerRZ 2 e.
Definition pow10 (e : Z) : R := powerRZ 10 e.

Lemma pow2_pos e : (0 < pow2 e)%R.
Proof. apply powerRZ_lt. lra. Qed.
Lemma pow10_pos e : (0 < pow10 e)%R.
Proof. apply powerRZ_lt. lra. Qed.

Lemma pow2_add a b : pow2 (a + b) = (pow2 a * pow2 b)%R.
Proof. apply powerRZ_add. lra. Qed.
Lemma tenpow_add a b : pow10 (a + b) = (pow10 a * pow10 b)%R.
Proof. apply powerRZ_add. lra. Qed.

Lemma pow2_neg e : (pow2 e * pow2 (- e) = 1)%R.
Proof. rewrite <- pow2_add. by replace (e + - e) with 0 by lia. Qed.
Lemma pow10_neg e : (pow10 e * pow10 (- e) = 1)%R.
Proof. rewrite <- tenpow_add. by replace (e + - e) with 0 by lia. Qed.

Lemma pow2_inv e : (/ pow2 e = pow2 (- e))%R.
Proof. pose proof (pow2_neg e). pose proof (pow2_pos e). apply Rmult_eq_reg_l with (pow2 e); [|lra]. rewrite Rinv_r; lra. Qed.
Lemma pow10_inv e : (/ pow10 e = pow10 (- e))%R.
Proof. pose proof (pow10_neg e). pose proof (pow10_pos e). apply Rmult_eq_reg_l with (pow10 e); [|lra]. rewrite Rinv_r; lra. Qed.
Lemma pow2_div a b : (pow2 a / pow2 b = pow2 (a - b))%R.
Proof. unfold Rdiv, Z.sub. by rewrite pow2_inv, pow2_add. Qed.

Lemma powerRZ_IZR b e : 0 ≤ e → powerRZ (IZR b) e = IZR (b ^ e).
Proof.
  intros He. rewrite <- (Z2Nat.id e) at 1 by done. rewrite <- pow_powerRZ, pow_IZR.
  by rewrite Z2Nat.id by done.
Qed.
Lemma pow2_IZR e : 0 ≤ e → pow2 e = IZR (2 ^ e).
Proof. apply (powerRZ_IZR 2). Qed.
Lemma pow10_IZR e : 0 ≤ e → pow10 e = IZR (10 ^ e).
Proof. apply (powerRZ_IZR 10). Qed.

Lemma pow2_S e : pow2 (e + 1) = (2 * pow2 e)%R.
Proof. rewrite pow2_add. assert (pow2 1 = 2)%R as -> by (unfold pow2, pow10, powerRZ; rewrite Pos2Nat.inj_1; lra). lra. Qed.
Lemma pow10_S e : pow10 (e + 1) = (10 * pow10 e)%R.
Proof. rewrite tenpow_add. assert (pow10 1 = 10)%R as -> by (unfold pow2, pow10, powerRZ; rewrite Pos2Nat.inj_1; lra). lra. Qed.

Lemma pow2_le a b : a ≤ b → (pow2 a <= pow2 b)%R.
Proof.
  intros Hab. replace b with (a + (b - a)) by lia. rewrite pow2_add, (pow2_IZR (b - a)) by lia.
  assert (1 <= IZR (2 ^ (b - a)))%R.
  { apply IZR_le. pose proof (Z.pow_pos_nonneg 2 (b - a)). lia. }
  pose proof (pow2_pos a). nra.
Qed.
Lemma pow10_le a b : a ≤ b → (pow10 a <= pow10 b)%R.
Proof.
  intros Hab. replace b with (a + (b - a)) by lia. rewrite tenpow_add, (pow10_IZR (b - a)) by lia.
  assert (1 <= IZR (10 ^ (b - a)))%R.
  { apply IZR_le. pose proof (Z.pow_pos_nonneg 10 (b - a)). lia. }
  pose proof (pow10_pos a). nra.
Qed.
Lemma pow2_lt a b : a < b → (pow2 a < pow2 b)%R.
Proof.
  intros Hab. pose proof (pow2_le (a + 1) b ltac:(lia)). rewrite pow2_S in *.
  pose proof (pow2_pos a). lra.
Qed.

(** ** The value of a double *)
Definition val (x : double) : R :=
  match x with
  | S754_finite s m e => (IZR (if s then Z.neg m else Z.pos m) * pow2 e)%R
  | _ => 0%R
  end.

(** [M * 2^E] with a mantissa of 53 bits and an exponent that is not too small. *)
Definition repr (r : R) : Prop := ∃ M E, r = (IZR M * pow2 E)%R ∧ Z.abs M < 2 ^ 53 ∧ -1074 ≤ E.

(** [r] rounded to nearest, ties to even; the exponent is that of [r], or the smallest one. *)
Definition rounds (y : double) (r : R) : Prop :=
  finite y = true ∧ double_ok y ∧
  ∃ q e, val y = (IZR q * pow2 e)%R ∧ (Rabs (IZR q * pow2 e - r) <= pow2 (e - 1))%R ∧
    -1074 ≤ e ∧ ((pow2 (e + 52) <= Rabs r)%R ∨ e = -1074) ∧
    ((Rabs (IZR q * pow2 e - r) = pow2 (e - 1))%R → Z.even q = true).

Lemma repr_val x : finite x = true → double_ok x → repr (val x).
Proof.
  intros Hf Hok. destruct x as [s| | |s m e]; try done.
  { exists 0, 0. cbn. split; [lra|lia]. }
  destruct (double_ok_exp s m e Hok) as [He Hm]. exists (if s then Z.neg m else Z.pos m), e.
  split; [done|]. split; [destruct s; lia|lia].
Qed.

Lemma repr_IZR z : Z.abs z < 2 ^ 53 → repr (IZR z).
Proof. intros Hz. exists z, 0. split; [cbn; lra|lia]. Qed.

Lemma repr_opp r : repr r → repr (- r).
Proof.
  intros (M & E & -> & HM & HE). exists (- M), E. rewrite opp_IZR. split; [lra|lia].
Qed.

(** A representable number with a small exponent is small. *)
Lemma repr_cases M E e :
  Z.abs M < 2 ^ 53 → (∃ K, (IZR M * pow2 E = IZR K * pow2 e)%R) ∨
    (E < e ∧ (Rabs (IZR M * pow2 E) < pow2 (e + 52))%R).
Proof.
  intros HM. destruct (decide (e ≤ E)) as [He|He].
  - left. exists (M * 2 ^ (E - e)). rewrite mult_IZR, <- pow2_IZR by lia.
    replace E with ((E - e) + e) at 1 by lia. rewrite pow2_add. ring.
  - right. split; [lia|]. rewrite Rabs_mult, (Rabs_pos_eq (pow2 E)) by (pose proof (pow2_pos E); lra).
    rewrite <- abs_IZR. assert (IZR (Z.abs M) < pow2 53)%R by (rewrite pow2_IZR by lia; by apply IZR_lt).
    pose proof (pow2_le (E + 53) (e + 52) ltac:(lia)) as Hle. rewrite pow2_add in Hle.
    pose proof (pow2_pos E). nra.
Qed.

Lemma half_unit e : (pow2 (e - 1) * 2 = pow2 e)%R.
Proof. pose proof (pow2_S (e - 1)) as Hs. replace (e - 1 + 1) with e in Hs by lia. lra. Qed.

Lemma half_inv : pow2 (-1) = (/ 2)%R.
Proof. pose proof (half_unit 0) as H. change (pow2 0) with 1%R in H. change (0 - 1) with (-1) in H. lra. Qed.

(** Rounding does not cross a representable number. *)
Lemma rounds_ge y r z : rounds y r → repr z → (z <= r)%R → (z <= val y)%R.
Proof.
  intros (_ & _ & q & e & -> & Herr & He & Hr & _) (M & E & -> & HM & HE) Hz.
  pose proof (pow2_pos e) as Hp. pose proof (half_unit e) as Hh.
  apply Rabs_le_inv in Herr as [Hlo Hhi]. destruct (repr_cases M E e HM) as [[K HK]|[HEe Hs]].
  - rewrite HK in *. assert (IZR K < IZR q + 1)%R as Hlt by nra. rewrite <- plus_IZR in Hlt.
    apply lt_IZR in Hlt. apply Rmult_le_compat_r; [lra|]. apply IZR_le. lia.
  - destruct Hr as [Hr|Hr]; [|lia]. apply Rabs_lt_inv in Hs as [Hs1 Hs2].
    assert (pow2 (e + 52) <= r)%R as Hrp.
    { destruct (Rle_dec 0 r) as [H0|H0]; [by rewrite Rabs_pos_eq in Hr|].
      rewrite Rabs_left in Hr by lra. lra. }
    assert (pow2 (e + 52) = pow2 52 * pow2 e)%R as Hpe by (rewrite pow2_add; ring).
    assert (IZR (2 ^ 52) < IZR q + 1)%R as Hlt.
    { rewrite <- pow2_IZR by lia. nra. }
    rewrite <- plus_IZR in Hlt. apply lt_IZR in Hlt.
    assert (pow2 52 <= IZR q)%R by (rewrite pow2_IZR by lia; apply IZR_le; lia). nra.
Qed.

Lemma val_opp y : val (SFopp y) = (- val y)%R.
Proof.
  destruct y as [s|s| |s m e']; cbn; try lra. destruct s; cbn;
    [change (Z.pos m) with (- Z.neg m)|change (Z.neg m) with (- Z.pos m)]; rewrite opp_IZR; lra.
Qed.

Lemma rounds_opp y r : rounds y r → rounds (SFopp y) (- r).
Proof.
  intros (Hf & Hok & q & e & Hv & Herr & He & Hr & Ht). split; [by destruct y|]. split; [by destruct y|].
  exists (- q), e. rewrite val_opp, Hv, opp_IZR. split; [lra|]. rewrite Rabs_Ropp, Z.even_opp.
  replace (- IZR q * pow2 e - - r)%R with (- (IZR q * pow2 e - r))%R by lra. by rewrite Rabs_Ropp.
Qed.

Lemma rounds_le y r z : rounds y r → repr z → (r <= z)%R → (val y <= z)%R.
Proof.
  intros Hr Hz Hle. apply rounds_opp in Hr. apply repr_opp in Hz.
  pose proof (rounds_ge _ _ _ Hr Hz ltac:(lra)) as H. rewrite val_opp in H. lra.
Qed.

Lemma rounds_exact y r : rounds y r → repr r → val y = r.
Proof.
  intros Hr Hz. apply Rle_antisym; [apply (rounds_le y r)|apply (rounds_ge y r)]; done || lra.
Qed.

(** The error, relative or that of the smallest numbers. *)
Lemma rounds_error y r : rounds y r → (Rabs (val y - r) <= pow2 (-53) * Rabs r + pow2 (-1075))%R.
Proof.
  intros (_ & _ & q & e & -> & Herr & He & Hr & _). eapply Rle_trans; [exact Herr|].
  pose proof (pow2_pos (-1075)). pose proof (pow2_pos (-53)). destruct Hr as [Hr| ->].
  - assert (pow2 (e - 1) = pow2 (-53) * pow2 (e + 52))%R as -> by (rewrite <- pow2_add; f_equal; lia).
    nra.
  - change (-1074 - 1) with (-1075). pose proof (Rabs_pos r). nra.
Qed.

Lemma rounds_relative y r :
  rounds y r → (pow2 (-1022) <= Rabs r)%R → (Rabs (val y - r) <= pow2 (-53) * Rabs r)%R.
Proof.
  intros (_ & _ & q & e & -> & Herr & He & Hr & _) Hn. eapply Rle_trans; [exact Herr|].
  assert (pow2 (e + 52) <= Rabs r)%R as Hr'.
  { destruct Hr as [Hr| ->]; [done|]. exact Hn. }
  pose proof (pow2_pos (-53)).
  assert (pow2 (e - 1) = pow2 (-53) * pow2 (e + 52))%R as -> by (rewrite <- pow2_add; f_equal; lia).
  nra.
Qed.

(** ** The rounding of SpecFloat *)
(** Where a number is between two mantissas. *)
Definition loc_ok (l : location) (m : Z) (t : R) : Prop :=
  match l with
  | loc_Exact => t = IZR m
  | loc_Inexact Lt => (IZR m < t < IZR m + / 2)%R
  | loc_Inexact Eq => (t = IZR m + / 2)%R
  | loc_Inexact Gt => (IZR m + / 2 < t < IZR m + 1)%R
  end.

Lemma loc_bounds l m t : loc_ok l m t → (IZR m <= t < IZR m + 1)%R.
Proof. destruct l as [|[]]; cbn; lra. Qed.

Lemma shr_1_ok mrs t :
  0 ≤ shr_m mrs → loc_ok (loc_of_shr_record mrs) (shr_m mrs) t →
  loc_ok (loc_of_shr_record (shr_1 mrs)) (shr_m (shr_1 mrs)) (t * / 2) ∧
  shr_m (shr_1 mrs) = shr_m mrs / 2.
Proof.
  destruct mrs as [m r s]. intros Hm Hl. cbn [shr_m] in Hm.
  destruct m as [|p|p]; [| |lia].
  - split; [destruct r, s; cbn [loc_of_shr_record shr_1 shr_m loc_ok orb] in *; lra|done].
  - destruct p as [p|p|].
    + assert (Z.pos p~1 = 2 * Z.pos p + 1) as Hp by lia.
      split; [|cbn [shr_1 shr_m]; rewrite Hp; clear; dlia].
      apply (f_equal IZR) in Hp. rewrite plus_IZR, mult_IZR in Hp.
      destruct r, s; cbn [loc_of_shr_record shr_1 shr_m loc_ok orb] in *; lra.
    + assert (Z.pos p~0 = 2 * Z.pos p) as Hp by lia.
      split; [|cbn [shr_1 shr_m]; rewrite Hp; clear; dlia].
      apply (f_equal IZR) in Hp. rewrite mult_IZR in Hp.
      destruct r, s; cbn [loc_of_shr_record shr_1 shr_m loc_ok orb] in *; lra.
    + split; [destruct r, s; cbn [loc_of_shr_record shr_1 shr_m loc_ok orb] in *; lra|done].
Qed.

Lemma iter_pos_ok n mrs t :
  0 ≤ shr_m mrs → loc_ok (loc_of_shr_record mrs) (shr_m mrs) t →
  loc_ok (loc_of_shr_record (iter_pos shr_1 n mrs)) (shr_m (iter_pos shr_1 n mrs)) (t * pow2 (- Z.pos n)) ∧
  shr_m (iter_pos shr_1 n mrs) = shr_m mrs / 2 ^ Z.pos n.
Proof.
  revert mrs t. induction n as [n IH|n IH|]; intros mrs t Hm Hl; cbn [iter_pos].
  - destruct (shr_1_ok mrs t Hm Hl) as [Hl1 Hm1].
    destruct (IH (shr_1 mrs) (t * / 2)%R) as [Hl2 Hm2]; [rewrite Hm1; dlia|done|].
    destruct (IH (iter_pos shr_1 n (shr_1 mrs)) (t * / 2 * pow2 (- Z.pos n))%R) as [Hl3 Hm3];
      [rewrite Hm2; apply Z.div_pos; [rewrite Hm1; dlia|lia]|done|].
    replace (t * pow2 (- Z.pos n~1))%R with (t * / 2 * pow2 (- Z.pos n) * pow2 (- Z.pos n))%R.
    2:{ replace (- Z.pos n~1) with (- Z.pos n + - Z.pos n + -1) by lia. rewrite <- half_inv.
        rewrite !pow2_add. ring. }
    split; [done|]. rewrite Hm3, Hm2, Hm1, !Z.div_div by lia. f_equal.
    replace (Z.pos n~1) with (1 + Z.pos n + Z.pos n) by lia. rewrite !Z.pow_add_r by lia.
    change (2 ^ 1) with 2. ring.
  - destruct (IH mrs t) as [Hl2 Hm2]; [done|done|].
    destruct (IH (iter_pos shr_1 n mrs) (t * pow2 (- Z.pos n))%R) as [Hl3 Hm3];
      [rewrite Hm2; apply Z.div_pos; lia|done|].
    replace (t * pow2 (- Z.pos n~0))%R with (t * pow2 (- Z.pos n) * pow2 (- Z.pos n))%R.
    2:{ replace (- Z.pos n~0) with (- Z.pos n + - Z.pos n) by lia. rewrite pow2_add. ring. }
    split; [done|]. rewrite Hm3, Hm2, Z.div_div by lia. f_equal.
    rewrite <- Z.pow_add_r by lia. f_equal. lia.
  - destruct (shr_1_ok mrs t Hm Hl) as [Hl1 Hm1]. change (Z.opp 1) with (-1). rewrite Z.pow_1_r, half_inv. done.
Qed.

Lemma record_ok m l t :
  loc_ok l m t → loc_ok (loc_of_shr_record (shr_record_of_loc m l)) (shr_m (shr_record_of_loc m l)) t ∧
  shr_m (shr_record_of_loc m l) = m.
Proof. destruct l as [|[]]; done. Qed.

Abbreviation fexp_ := (fexp 53 1024).
Lemma fexp_eq e : fexp_ e = Z.max (e - 53) (-1074).
Proof. done. Qed.

(** The shift to the exponent of the format. *)
Lemma shr_fexp_ok m e l t :
  0 ≤ m → loc_ok l m t → e ≤ fexp_ (Zdigits2 m + e) →
  ∃ mrs, shr_fexp 53 1024 m e l = (mrs, fexp_ (Zdigits2 m + e)) ∧
    loc_ok (loc_of_shr_record mrs) (shr_m mrs) (t * pow2 (e - fexp_ (Zdigits2 m + e))) ∧
    shr_m mrs = m / 2 ^ (fexp_ (Zdigits2 m + e) - e).
Proof.
  intros Hm Hl He. destruct (record_ok m l t Hl) as [Hr Hrm]. unfold shr_fexp, shr.
  set (e' := fexp_ (Zdigits2 m + e)) in *. destruct (e' - e) as [|n|n] eqn:Hn; [| |lia].
  - exists (shr_record_of_loc m l). replace e' with e by lia. rewrite Z.sub_diag.
    change (pow2 0) with 1%R. rewrite Rmult_1_r, Z.pow_0_r, Z.div_1_r. done.
  - exists (iter_pos shr_1 n (shr_record_of_loc m l)). split; [f_equal; lia|].
    destruct (iter_pos_ok n (shr_record_of_loc m l) t) as [H1 H2]; [lia|done|].
    replace (e - e') with (- Z.pos n) by lia. split; [done|]. by rewrite H2, Hrm.
Qed.

Lemma Zdigits2_spec m : 0 < m → 0 < Zdigits2 m ∧ 2 ^ (Zdigits2 m - 1) ≤ m < 2 ^ Zdigits2 m.
Proof. destruct m as [|p|p]; [lia| |lia]. intros _. split; [done|]. apply digits2_pos_spec. Qed.

Lemma Zdigits2_le m n : 0 ≤ n → 0 < m < 2 ^ n → Zdigits2 m ≤ n.
Proof.
  intros Hn Hm. destruct (Zdigits2_spec m ltac:(lia)) as [_ Hd].
  assert (Zdigits2 m - 1 < n); [|lia]. apply (Z.pow_lt_mono_r_iff 2); lia.
Qed.

Lemma Zdigits2_ge m n : 0 ≤ n → 2 ^ n ≤ m → n < Zdigits2 m.
Proof.
  intros Hn Hm. destruct (Zdigits2_spec m) as [? Hd]; [pose proof (Z.pow_pos_nonneg 2 n); lia|].
  apply (Z.pow_lt_mono_r_iff 2); lia.
Qed.

(** The nearest integer. *)
Lemma round_nearest_even_ok l m t :
  loc_ok l m t → (Rabs (IZR (round_nearest_even m l) - t) <= / 2)%R ∧
    m ≤ round_nearest_even m l ≤ m + 1 ∧
    ((Rabs (IZR (round_nearest_even m l) - t) = / 2)%R → Z.even (round_nearest_even m l) = true).
Proof.
  assert (∀ q, (Rabs (IZR q - t) = / 2)%R → (IZR q - t = / 2 ∨ IZR q - t = - / 2)%R) as Heq.
  { intros q Hq. destruct (Rcase_abs (IZR q - t)) as [Hn|Hn]; [rewrite Rabs_left in Hq by done|rewrite Rabs_right in Hq by done]; lra. }
  intros Hl. assert (∀ q, (Rabs (IZR q - t) <= / 2)%R ↔ (- / 2 <= IZR q - t <= / 2)%R) as Habs.
  { intros q. split; [apply Rabs_le_inv|apply Rabs_le]. }
  rewrite Habs. destruct l as [|[]]; cbn [round_nearest_even loc_ok] in *;
    try (split; [lra|split; [lia|intros Ht%Heq; lra]]).
  - destruct (Z.even m) eqn:Hm; [by split; [lra|split; [lia|]]|]. rewrite plus_IZR. split; [lra|]. split; [lia|].
    intros _. by rewrite Z.even_add, Hm.
  - rewrite plus_IZR. split; [lra|]. split; [lia|]. intros Ht. rewrite <- plus_IZR in Ht. apply Heq in Ht.
    rewrite plus_IZR in Ht. lra.
Qed.

(** A mantissa below 2^53, or 2^53 itself, and an exponent of the format. *)
Lemma round_final q e :
  0 < q ≤ 2 ^ 53 → -1074 ≤ e ≤ 970 → (2 ^ 52 ≤ q ∨ e = -1074) →
  ∃ m e', (let '(mrs, e'') := shr_fexp 53 1024 q e loc_Exact in
    match shr_m mrs with
    | Z0 => S754_zero false
    | Z.pos m => if e'' <=? 971 then S754_finite false m e'' else S754_infinity false
    | _ => S754_nan
    end) = S754_finite false m e' ∧ double_ok (S754_finite false m e') ∧
    val (S754_finite false m e') = (IZR q * pow2 e)%R.
Proof.
  intros Hq He Hn. destruct q as [|p|p]; [lia| |lia].
  destruct (decide (Z.pos p = 2 ^ 53)) as [Heq|Hne].
  - assert (p = 9007199254740992%positive) as -> by lia.
    assert (shr_fexp 53 1024 9007199254740992 e loc_Exact = (Build_shr_record 4503599627370496 false false, e + 1)) as ->.
    { unfold shr_fexp. change (Zdigits2 9007199254740992) with 54. rewrite fexp_eq.
      replace (Z.max (54 + e - 53) (-1074) - e) with 1 by lia. done. }
    cbn [shr_m]. destruct (Z.leb_spec (e + 1) 971); [|lia]. exists 4503599627370496%positive, (e + 1).
    split; [done|]. split.
    + unfold double_ok, valid_binary, bounded, canonical_mantissa.
      change (digits2_pos 4503599627370496) with 53%positive. rewrite fexp_eq.
      destruct (Z.leb_spec (e + 1) (1024 - 53)); [|lia]. rewrite andb_true_r. apply Z.eqb_eq. lia.
    + cbn [val]. rewrite pow2_S. lra.
  - pose proof (Zdigits2_le (Z.pos p) 53 ltac:(lia) ltac:(lia)) as Hd.
    assert (fexp_ (Zdigits2 (Z.pos p) + e) = e) as Hf.
    { rewrite fexp_eq. destruct Hn as [Hn| ->]; [|lia].
      pose proof (Zdigits2_ge (Z.pos p) 52 ltac:(lia) Hn). lia. }
    unfold shr_fexp. rewrite Hf, Z.sub_diag. cbn [shr shr_record_of_loc shr_m].
    destruct (Z.leb_spec e 971); [|lia]. exists p, e. split; [done|]. split; [|done].
    unfold double_ok, valid_binary, bounded, canonical_mantissa. cbn [Zdigits2] in Hf. rewrite Hf, Z.eqb_refl.
    destruct (Z.leb_spec e (1024 - 53)); [done|lia].
Qed.

Lemma binary_round_aux_ok m e l t :
  0 < m → loc_ok l m t → e ≤ fexp_ (Zdigits2 m + e) → (t * pow2 e < pow2 1023)%R →
  rounds (binary_round_aux 53 1024 false m e l) (t * pow2 e).
Proof.
  intros Hm Hl He Hmax. pose proof (loc_bounds l m t Hl) as Ht.
  destruct (shr_fexp_ok m e l t) as (mrs & Hshr & Hl' & Hm'); [lia|done|done|].
  unfold binary_round_aux. rewrite Hshr. set (e' := fexp_ (Zdigits2 m + e)) in *.
  destruct (round_nearest_even_ok _ _ _ Hl') as (Hq & Hqm & Hqt).
  set (q := round_nearest_even (shr_m mrs) (loc_of_shr_record mrs)) in *.
  destruct (Zdigits2_spec m Hm) as [Hd0 [Hdlo Hdhi]].
  assert (t * pow2 (e - e') * pow2 e' = t * pow2 e)%R as Hte.
  { rewrite Rmult_assoc, <- pow2_add. do 2 f_equal. lia. }
  assert (pow2 (Zdigits2 m - 1 + e) <= t * pow2 e)%R as Hlow.
  { rewrite pow2_add, pow2_IZR by lia. apply Rmult_le_compat_r; [pose proof (pow2_pos e); lra|].
    apply IZR_le in Hdlo. lra. }
  assert (e' = Z.max (Zdigits2 m + e - 53) (-1074)) as He' by apply fexp_eq.
  assert (Zdigits2 m - 1 + e < 1023) as Hexp.
  { destruct (decide (Zdigits2 m - 1 + e < 1023)); [done|].
    pose proof (pow2_le 1023 (Zdigits2 m - 1 + e) ltac:(lia)). lra. }
  pose proof (pow2_pos e') as Hpe. pose proof (half_unit e') as Hhalf.
  assert (Rabs (IZR q * pow2 e' - t * pow2 e) <= pow2 (e' - 1))%R as Herr.
  { rewrite <- Hte, <- Rmult_minus_distr_r, Rabs_mult, (Rabs_pos_eq (pow2 e')) by lra. nra. }
  assert ((Rabs (IZR q * pow2 e' - t * pow2 e) = pow2 (e' - 1))%R → Z.even q = true) as Htie.
  { rewrite <- Hte, <- Rmult_minus_distr_r, Rabs_mult, (Rabs_pos_eq (pow2 e')) by lra. intros Ht'. apply Hqt. nra. }
  assert ((pow2 (e' + 52) <= Rabs (t * pow2 e))%R ∨ e' = -1074) as Hnorm.
  { destruct (decide (e' = -1074)); [by right|]. left. rewrite Rabs_pos_eq by (pose proof (pow2_pos (Zdigits2 m - 1 + e)); lra).
    eapply Rle_trans; [|exact Hlow]. apply pow2_le. lia. }
  assert (shr_m mrs < 2 ^ 53 ∧ (2 ^ 52 ≤ shr_m mrs ∨ e' = -1074) ∧ 0 ≤ shr_m mrs) as (Hup & Hlo & H0).
  { rewrite Hm'. split; [|split; [|apply Z.div_pos; lia]].
    - apply Z.div_lt_upper_bound; [lia|]. rewrite <- Z.pow_add_r by lia.
      eapply Z.lt_le_trans; [exact Hdhi|]. apply Z.pow_le_mono_r; lia.
    - destruct (decide (e' = -1074)); [by right|]. left. apply Z.div_le_lower_bound; [lia|].
      rewrite <- Z.pow_add_r by lia. eapply Z.le_trans; [|exact Hdlo]. apply Z.pow_le_mono_r; lia. }
  destruct (decide (q = 0)) as [Hq0|Hq0].
  - assert (e' = -1074) as -> by lia. rewrite Hq0. change (shr_fexp 53 1024 0 (-1074) loc_Exact)
      with (Build_shr_record 0 false false, -1074). cbn [shr_m].
    split; [done|]. split; [done|]. exists 0, (-1074). rewrite Hq0 in Herr.
    split; [cbn; lra|]. by split; [|split; [|split; [right|]]].
  - destruct (round_final q e') as (m' & e2 & Heq & Hok & Hv); [lia|lia|lia|].
    change (1024 - 53) with 971. rewrite Heq. split; [done|]. split; [done|].
    exists q, e'. rewrite Hv. split; [done|]. split; [done|]. split; [lia|]. by split.
Qed.
End FloatSpec.
