(* ===== verification/FloatOps.v ===== *)
(** * The operations on doubles, rounded

    Each operation of [SpecFloat] on doubles gives its exact result rounded to nearest,
    and comparisons decide the order of the values. *)
From Stdlib Require Import Reals Lra.
From S2P Require Import Prelude Libc Double DoubleSpec FloatSpec.

Module FloatOps.
Import Double DoubleSpec FloatSpec.

(** A finite double in the format. *)
Definition good (x : double) : Prop := finite x = true ∧ double_ok x.

Lemma rounds_good y r : rounds y r → good y.
Proof. intros (? & ? & _). done. Qed.

Lemma rounds_zero s : rounds (S754_zero s) 0.
Proof.
  split; [done|]. split; [done|]. exists 0, (-1074). cbn [val].
  replace (IZR 0 * pow2 (-1074))%R with 0%R by lra. split; [done|].
  rewrite Rminus_0_r, Rabs_R0. pose proof (pow2_pos (-1074 - 1)). split; [lra|]. split; [lia|]. split; [by right|lra].
Qed.

(** Full mantissas, except for the smallest numbers. *)
Lemma double_ok_mantissa s m e :
  double_ok (S754_finite s m e) → (2 ^ 52 ≤ Z.pos m ∨ e = -1074) ∧ -1074 ≤ e ≤ 971 ∧ Z.pos m < 2 ^ 53.
Proof.
  intros Hok. destruct (double_ok_exp s m e Hok) as [He Hm]. split; [|done].
  unfold double_ok in Hok. cbn [valid_binary] in Hok. unfold bounded, canonical_mantissa in Hok.
  apply andb_prop in Hok as [Hc%Z.eqb_eq _]. rewrite fexp_eq in Hc.
  destruct (decide (e = -1074)); [by right|left].
  pose proof (digits2_pos_spec m) as [Hlo _]. assert (Z.pos (digits2_pos m) = 53) as Hd by lia.
  rewrite Hd in Hlo. exact Hlo.
Qed.

Lemma binary_round_aux_opp m e l :
  binary_round_aux 53 1024 true m e l = SFopp (binary_round_aux 53 1024 false m e l).
Proof.
  unfold binary_round_aux. destruct (shr_fexp 53 1024 m e l) as [mrs e'].
  destruct (shr_fexp 53 1024 _ e' loc_Exact) as [mrs2 e2]. destruct (shr_m mrs2); try done.
  by destruct (e2 <=? 1024 - 53).
Qed.

(** A rounded magnitude with a sign. *)
Lemma rounds_sign s m e l r :
  rounds (binary_round_aux 53 1024 false m e l) r →
  rounds (binary_round_aux 53 1024 s m e l) (if s then - r else r).
Proof. destruct s; [|done]. rewrite binary_round_aux_opp. apply rounds_opp. Qed.

Lemma val_sign s m e : val (S754_finite s m e) = (if s then - (IZR (Z.pos m) * pow2 e) else IZR (Z.pos m) * pow2 e)%R.
Proof. destruct s; [|done]. cbn [val]. change (Z.neg m) with (- Z.pos m). rewrite opp_IZR. lra. Qed.

Lemma fmul_ok x y :
  good x → good y → (Rabs (val x * val y) < pow2 1023)%R → rounds (SFmul 53 1024 x y) (val x * val y).
Proof.
  intros [Hfx Hx] [Hfy Hy] Hmax. destruct x as [sx| | |sx mx ex]; try done.
  { destruct y as [sy| | |sy my ey]; try done; cbn [val SFmul]; rewrite Rmult_0_l; apply rounds_zero. }
  destruct y as [sy| | |sy my ey]; try done; [cbn [val SFmul]; rewrite Rmult_0_r; apply rounds_zero|].
  destruct (double_ok_mantissa _ _ _ Hx) as (Hmx & Hex & Hmx').
  destruct (double_ok_mantissa _ _ _ Hy) as (Hmy & Hey & Hmy').
  set (r := (IZR (Z.pos (mx * my)) * pow2 (ex + ey))%R).
  assert (r = IZR (Z.pos mx) * pow2 ex * (IZR (Z.pos my) * pow2 ey))%R as Hr.
  { unfold r. rewrite Pos2Z.inj_mul, mult_IZR, pow2_add. ring. }
  assert (val (S754_finite sx mx ex) * val (S754_finite sy my ey) = if xorb sx sy then - r else r)%R as Hv.
  { rewrite !val_sign, Hr. destruct sx, sy; cbn [xorb]; ring. }
  rewrite Hv in Hmax |- *. cbn [SFmul]. apply rounds_sign. apply binary_round_aux_ok; [lia|done| |].
  - change (Zdigits2 (Z.pos (mx * my)) + (ex + ey)) with (Zdigits2 (Z.pos (mx * my)) + (ex + ey)).
    rewrite fexp_eq. destruct Hmx as [Hmx| ->]; [|destruct Hmy as [Hmy| ->]; [|lia]].
    + pose proof (Zdigits2_ge (Z.pos (mx * my)) 52 ltac:(lia) ltac:(nia)). lia.
    + pose proof (Zdigits2_ge (Z.pos (mx * my)) 52 ltac:(lia) ltac:(nia)). lia.
  - fold r. apply Rabs_lt_inv in Hmax. destruct (xorb sx sy); lra.
Qed.

(** ** Sums *)
Lemma binary_round_ok s m e :
  (IZR (Z.pos m) * pow2 e < pow2 1023)%R →
  rounds (binary_round 53 1024 s m e) (if s then - (IZR (Z.pos m) * pow2 e) else IZR (Z.pos m) * pow2 e).
Proof.
  intros Hmax. unfold binary_round, shl_align.
  destruct (Z.sub (fexp_ (Z.pos (digits2_pos m) + e)) e) as [|d|d] eqn:Hd.
  - apply rounds_sign, binary_round_aux_ok; [lia|done| |done]. cbn [Zdigits2]. lia.
  - apply rounds_sign, binary_round_aux_ok; [lia|done| |done]. cbn [Zdigits2]. lia.
  - destruct (iter_xO m d) as [Hi Hdig].
    assert (IZR (Z.pos m) * pow2 e = IZR (Z.pos (Pos.iter xO m d)) * pow2 (fexp_ (Z.pos (digits2_pos m) + e)))%R as Heq.
    { rewrite Hi, mult_IZR, <- pow2_IZR, Rmult_assoc, <- pow2_add by lia. do 2 f_equal. lia. }
    rewrite Heq in Hmax |- *. apply rounds_sign, binary_round_aux_ok; [lia|done| |done].
    cbn [Zdigits2]. rewrite Hdig. replace (Z.pos (digits2_pos m) + Z.pos d + _) with (Z.pos (digits2_pos m) + e) by lia.
    done.
Qed.

Lemma binary_normalize_ok z e b :
  (Rabs (IZR z * pow2 e) < pow2 1023)%R → rounds (binary_normalize 53 1024 z e b) (IZR z * pow2 e).
Proof.
  intros Hmax. pose proof (pow2_pos e). apply Rabs_lt_inv in Hmax. destruct z as [|p|p]; cbn [binary_normalize].
  - rewrite Rmult_0_l. apply rounds_zero.
  - apply (binary_round_ok false). lra.
  - change (Z.neg p) with (- Z.pos p) in *. rewrite opp_IZR in *.
    replace (- IZR (Z.pos p) * pow2 e)%R with (- (IZR (Z.pos p) * pow2 e))%R by lra.
    apply (binary_round_ok true). lra.
Qed.

Lemma shl_align_min m e e' :
  e' ≤ e → Z.pos (shl_align m e e').1 = Z.pos m * 2 ^ (e - e').
Proof.
  intros He. unfold shl_align. destruct (e' - e) as [|d|d] eqn:Hd; [|lia|].
  - replace (e - e') with 0 by lia. cbn [fst]. lia.
  - cbn [fst]. destruct (iter_xO m d) as [-> _]. do 2 f_equal. lia.
Qed.

(** A term of a sum at the smaller exponent. *)
Lemma term_ok s m e e' :
  e' ≤ e → (IZR (cond_Zopp s (Z.pos (shl_align m e e').1)) * pow2 e' = val (S754_finite s m e))%R.
Proof.
  intros He. rewrite val_sign, shl_align_min by done.
  assert (IZR (Z.pos m * 2 ^ (e - e')) * pow2 e' = IZR (Z.pos m) * pow2 e)%R as Heq.
  { rewrite mult_IZR, <- pow2_IZR, Rmult_assoc, <- pow2_add by lia. do 2 f_equal. lia. }
  destruct s; cbn [cond_Zopp]; [|done]. rewrite opp_IZR. lra.
Qed.

Lemma rounds_self x : good x → rounds x (val x).
Proof.
  intros [Hf Hok]. destruct x as [s| | |s m e]; try done; [apply rounds_zero|].
  destruct (double_ok_mantissa _ _ _ Hok) as (Hm & He & Hm').
  split; [done|]. split; [done|]. exists (if s then Z.neg m else Z.pos m), e. split; [done|].
  cbn [val]. rewrite Rminus_diag, Rabs_R0. pose proof (pow2_pos (e - 1)). split; [lra|]. split; [lia|]. split; [|lra].
  destruct Hm as [Hm|Hm]; [left|by right]. rewrite Rabs_mult, (Rabs_pos_eq (pow2 e)) by (pose proof (pow2_pos e); lra).
  rewrite <- abs_IZR. replace (Z.abs (if s then Z.neg m else Z.pos m)) with (Z.pos m) by (by destruct s).
  rewrite Z.add_comm, pow2_add, pow2_IZR by lia. apply Rmult_le_compat_r; [pose proof (pow2_pos e); lra|].
  by apply IZR_le.
Qed.

Lemma fadd_ok x y :
  good x → good y → (Rabs (val x + val y) < pow2 1023)%R → rounds (SFadd 53 1024 x y) (val x + val y).
Proof.
  intros Hx Hy Hmax. destruct x as [sx|[]| |sx mx ex], y as [sy|[]| |sy my ey];
    try (by destruct Hx); try (by destruct Hy).
  - cbn [val]. rewrite Rplus_0_r. destruct sx, sy; apply rounds_zero.
  - assert (val (S754_zero sx) = 0)%R as -> by done. rewrite Rplus_0_l. by apply rounds_self.
  - assert (val (S754_zero sy) = 0)%R as -> by done. rewrite Rplus_0_r. by apply rounds_self.
  - cbn [SFadd]. set (ez := Z.min ex ey).
    rewrite <- (term_ok sx mx ex ez), <- (term_ok sy my ey ez), <- Rmult_plus_distr_r, <- plus_IZR in Hmax |- * by lia.
    by apply binary_normalize_ok.
Qed.

Lemma fsub_ok x y :
  good x → good y → (Rabs (val x - val y) < pow2 1023)%R → rounds (SFsub 53 1024 x y) (val x - val y).
Proof.
  intros Hx Hy Hmax. destruct x as [sx|[]| |sx mx ex], y as [sy|[]| |sy my ey];
    try (by destruct Hx); try (by destruct Hy).
  - cbn [val]. rewrite Rminus_0_r. destruct sx, sy; apply rounds_zero.
  - assert (val (S754_zero sx) = 0)%R as -> by done. rewrite Rminus_0_l.
    apply (rounds_opp (S754_finite sy my ey)). by apply rounds_self.
  - assert (val (S754_zero sy) = 0)%R as -> by done. rewrite Rminus_0_r. by apply rounds_self.
  - cbn [SFsub]. set (ez := Z.min ex ey).
    rewrite <- (term_ok sx mx ex ez), <- (term_ok sy my ey ez), <- Rmult_minus_distr_r, <- minus_IZR in Hmax |- * by lia.
    by apply binary_normalize_ok.
Qed.

(** ** Quotients *)
Lemma new_location_ok m2 q r :
  0 < m2 → 0 ≤ r < m2 → loc_ok (new_location m2 r) q (IZR q + IZR r / IZR m2).
Proof.
  intros Hm Hr. assert (0 < IZR m2)%R as Hm' by (by apply IZR_lt).
  assert (∀ a, (IZR r / IZR m2 = a ↔ IZR r = a * IZR m2)%R ∧ (IZR r / IZR m2 < a ↔ IZR r < a * IZR m2)%R ∧
    (a < IZR r / IZR m2 ↔ a * IZR m2 < IZR r)%R) as Hdiv.
  { intros a. assert (IZR r = IZR r / IZR m2 * IZR m2)%R as Heq by (field; lra).
    set (t := (IZR r / IZR m2)%R) in *. rewrite Heq. clear Heq Hr.
    split; [|split]; (split; intros H; [try (rewrite H; done); by apply Rmult_lt_compat_r|]).
    - apply Rmult_eq_reg_r with (IZR m2); lra.
    - by apply Rmult_lt_reg_r with (IZR m2).
    - by apply Rmult_lt_reg_r with (IZR m2). }
  destruct (decide (r = 0)) as [->|Hr0].
  { assert (new_location m2 0 = loc_Exact) as -> by (unfold new_location; by destruct (Z.even m2)).
    cbn [loc_ok]. unfold Rdiv. lra. }
  assert (new_location m2 r = loc_Inexact (if Z.even m2 then 2 * r ?= m2
    else match 2 * r + 1 ?= m2 with Gt => Gt | _ => Lt end)) as ->.
  { destruct r as [|p|p]; [done| |lia]. unfold new_location, new_location_even, new_location_odd.
    destruct (Z.even m2); [done|]. by destruct (2 * Z.pos p + 1 ?= m2). }
  assert (0 < IZR r)%R by (apply IZR_lt; lia). assert (IZR r < IZR m2)%R by (apply IZR_lt; lia).
  pose proof (Hdiv 0%R) as (_ & _ & HH0). pose proof (Hdiv 1%R) as (_ & HH1 & _).
  pose proof (Hdiv (/ 2)%R) as (He & Hl & Hg).
  destruct (Z.even m2) eqn:Hev.
  - destruct (Z.compare_spec (2 * r) m2) as [Hc|Hc|Hc]; cbn [loc_ok];
      [apply (f_equal IZR) in Hc|apply IZR_lt in Hc|apply IZR_lt in Hc]; rewrite mult_IZR in Hc; lra.
  - apply (f_equal negb) in Hev. rewrite Z.negb_even in Hev. apply Z.odd_spec in Hev as [h Hh].
    destruct (Z.compare_spec (2 * r + 1) m2) as [Hc|Hc|Hc]; cbn [loc_ok].
    + apply (f_equal IZR) in Hc. rewrite plus_IZR, mult_IZR in Hc. lra.
    + apply IZR_lt in Hc. rewrite plus_IZR, mult_IZR in Hc. lra.
    + assert (m2 < 2 * r) as Hc' by lia. apply IZR_lt in Hc'. rewrite mult_IZR in Hc'. lra.
Qed.

Lemma fdiv_core_ok m1 e1 m2 e2 :
  0 < m1 → 0 < m2 →
  (pow2 (-1022) <= IZR m1 * pow2 e1 / (IZR m2 * pow2 e2) < pow2 1023)%R →
  let '(q, e, l) := SFdiv_core_binary 53 1024 m1 e1 m2 e2 in
  rounds (binary_round_aux 53 1024 false q e l) (IZR m1 * pow2 e1 / (IZR m2 * pow2 e2)).
Proof.
  intros Hm1 Hm2 Hq. unfold SFdiv_core_binary.
  destruct (Zdigits2_spec m1 Hm1) as [Hd1 [Hlo1 Hhi1]]. destruct (Zdigits2_spec m2 Hm2) as [Hd2 [Hlo2 Hhi2]].
  set (d1 := Zdigits2 m1) in *. set (d2 := Zdigits2 m2) in *. rewrite fexp_eq.
  set (e := Z.min (Z.max (d1 + e1 - (d2 + e2) - 53) (-1074)) (e1 - e2)).
  assert (match e1 - e2 - e with Z.pos _ => Z.shiftl m1 (e1 - e2 - e) | 0 => m1 | Z.neg _ => 0 end
    = m1 * 2 ^ (e1 - e2 - e)) as ->.
  { destruct (e1 - e2 - e) as [|s|s] eqn:Hs; [lia|by rewrite Z.shiftl_mul_pow2 by lia|lia]. }
  set (s := e1 - e2 - e). assert (0 ≤ s) as Hs by lia.
  pose proof (Z.pow_pos_nonneg 2 s ltac:(lia) Hs) as Hps.
  pose proof (Z.div_mod (m1 * 2 ^ s) m2 ltac:(lia)) as Hdm.
  pose proof (Z.mod_pos_bound (m1 * 2 ^ s) m2 Hm2) as Hr.
  unfold Z.div, Z.modulo in Hdm, Hr.
  destruct (Z.div_eucl (m1 * 2 ^ s) m2) as [q r].
  assert (0 < IZR m2)%R as Hm2' by (by apply IZR_lt).
  assert (0 < IZR m1)%R as Hm1' by (by apply IZR_lt).
  set (t := (IZR q + IZR r / IZR m2)%R).
  assert (t * IZR m2 = IZR m1 * pow2 s)%R as Ht.
  { apply (f_equal IZR) in Hdm. rewrite plus_IZR, !mult_IZR in Hdm. rewrite pow2_IZR, Hdm by lia.
    unfold t. field. lra. }
  assert (IZR m1 * pow2 e1 / (IZR m2 * pow2 e2) = t * pow2 e)%R as Hval.
  { apply (Rmult_eq_reg_r (IZR m2 * pow2 e2)); [|pose proof (pow2_pos e2); nra].
    unfold Rdiv. rewrite Rmult_assoc, Rinv_l, Rmult_1_r by (pose proof (pow2_pos e2); nra).
    replace (t * pow2 e * (IZR m2 * pow2 e2))%R with (t * IZR m2 * (pow2 e * pow2 e2))%R by ring.
    rewrite Ht, Rmult_assoc, <- !pow2_add. do 2 f_equal. lia. }
  rewrite Hval in *. pose proof (new_location_ok m2 q r Hm2 Hr) as Hloc. fold t in Hloc.
  pose proof (loc_bounds _ _ _ Hloc) as Hb.
  assert (pow2 52 <= t)%R as Ht52.
  { destruct (decide (e ≤ -1074)) as [He|He].
    - assert (pow2 (-1022) = pow2 52 * pow2 (-1074))%R as Heq by (rewrite <- pow2_add; f_equal; lia).
      pose proof (pow2_le e (-1074) He). pose proof (pow2_pos e). pose proof (pow2_pos 52).
      apply Rnot_lt_le. intros Hlt. destruct Hq as [Hq _]. rewrite Heq in Hq.
      assert (t * pow2 e < pow2 52 * pow2 e)%R by nra. nra.
    - assert (e = d1 + e1 - (d2 + e2) - 53 ∨ e = e1 - e2) as [Hee|Hee] by lia.
      + assert (s = d2 - d1 + 53) as Hss by lia.
        apply (Rmult_le_reg_r (IZR m2)); [done|]. rewrite Ht, pow2_IZR, <- mult_IZR, pow2_IZR, <- mult_IZR by lia.
        apply IZR_le. assert (2 ^ (d1 - 1) * 2 ^ s = 2 ^ 52 * 2 ^ d2) as Heq.
        { rewrite <- !Z.pow_add_r by lia. f_equal. lia. }
        nia.
      + assert (s = 0) as Hss by lia.
        assert (d2 - d1 + 53 ≤ 0) as Hdd by lia.
        apply (Rmult_le_reg_r (IZR m2)); [done|]. rewrite Ht, Hss, pow2_IZR, <- mult_IZR, pow2_IZR, <- mult_IZR by lia.
        apply IZR_le. rewrite Z.mul_1_r.
        assert (2 ^ 52 * 2 ^ d2 ≤ 2 ^ (d1 - 1)) as Heq.
        { rewrite <- Z.pow_add_r by lia. apply Z.pow_le_mono_r; lia. }
        nia. }
  assert (2 ^ 52 ≤ q) as Hq52.
  { rewrite pow2_IZR in Ht52 by lia. assert (IZR (2 ^ 52) < IZR (q + 1))%R as Hlt by (rewrite plus_IZR; lra).
    apply lt_IZR in Hlt. lia. }
  apply binary_round_aux_ok; [lia|done| |lra].
  pose proof (Zdigits2_ge q 52 ltac:(lia) Hq52). rewrite fexp_eq. lia.
Qed.

(** Positive doubles. *)
Lemma fdiv_ok x y :
  good x → good y → (0 < val x)%R → (0 < val y)%R →
  (pow2 (-1022) <= val x / val y < pow2 1023)%R → rounds (SFdiv 53 1024 x y) (val x / val y).
Proof.
  intros [Hfx Hx] [Hfy Hy] Hpx Hpy Hq.
  destruct x as [sx| | |sx mx ex]; try done; [cbn in Hpx; lra|].
  destruct y as [sy| | |sy my ey]; try done; [cbn in Hpy; lra|].
  rewrite val_sign in Hpx, Hpy. pose proof (pow2_pos ex). pose proof (pow2_pos ey).
  assert (0 < IZR (Z.pos mx))%R by (by apply IZR_lt). assert (0 < IZR (Z.pos my))%R by (by apply IZR_lt).
  destruct sx; [nra|]. destruct sy; [nra|]. cbn [SFdiv val] in *.
  pose proof (fdiv_core_ok (Z.pos mx) ex (Z.pos my) ey ltac:(lia) ltac:(lia) Hq) as Hcore.
  destruct (SFdiv_core_binary 53 1024 (Z.pos mx) ex (Z.pos my) ey) as [[q e] l]. exact Hcore.
Qed.

(** ** Comparisons *)
Lemma magnitude_lt m1 e1 m2 e2 :
  double_ok (S754_finite false m1 e1) → double_ok (S754_finite false m2 e2) → e1 < e2 →
  (IZR (Z.pos m1) * pow2 e1 < IZR (Z.pos m2) * pow2 e2)%R.
Proof.
  intros H1 H2 He. destruct (double_ok_mantissa _ _ _ H1) as (_ & He1 & Hm1).
  destruct (double_ok_mantissa _ _ _ H2) as ([Hm2|Hm2] & He2 & _); [|lia].
  apply Rlt_le_trans with (pow2 (53 + e1))%R.
  - rewrite pow2_add, (pow2_IZR 53) by lia. apply Rmult_lt_compat_r; [apply pow2_pos|]. by apply IZR_lt.
  - apply Rle_trans with (pow2 (52 + e2))%R; [apply pow2_le; lia|].
    rewrite pow2_add, (pow2_IZR 52) by lia. apply Rmult_le_compat_r; [pose proof (pow2_pos e2); lra|]. by apply IZR_le.
Qed.

Inductive compares (a b : R) : comparison → Prop :=
  | CmpLt : (a < b)%R → compares a b Lt
  | CmpEq : a = b → compares a b Eq
  | CmpGt : (b < a)%R → compares a b Gt.

Lemma magnitude_compare m1 e1 m2 e2 :
  double_ok (S754_finite false m1 e1) → double_ok (S754_finite false m2 e2) →
  compares (IZR (Z.pos m1) * pow2 e1) (IZR (Z.pos m2) * pow2 e2)
    (match e1 ?= e2 with Eq => Pos.compare_cont Eq m1 m2 | Lt => Lt | Gt => Gt end).
Proof.
  intros H1 H2. destruct (Z.compare_spec e1 e2) as [->|He|He].
  - pose proof (pow2_pos e2). change (Pos.compare_cont Eq m1 m2) with (Z.compare (Z.pos m1) (Z.pos m2)).
    destruct (Z.compare_spec (Z.pos m1) (Z.pos m2)) as [->|Hm|Hm]; constructor; [done|..];
      apply IZR_lt in Hm; nra.
  - constructor. by apply magnitude_lt.
  - constructor. by apply magnitude_lt.
Qed.

Lemma SFcompare_ok x y :
  good x → good y → ∃ c, SFcompare x y = Some c ∧ compares (val x) (val y) c.
Proof.
  intros [Hfx Hx] [Hfy Hy]. assert (∀ m e, 0 < IZR (Z.pos m) * pow2 e)%R as Hpos.
  { intros m e. apply Rmult_lt_0_compat; [by apply IZR_lt|apply pow2_pos]. }
  destruct x as [sx|[]| |sx mx ex]; try done; destruct y as [sy|[]| |sy my ey]; try done.
  - eexists. split; [done|]. by constructor.
  - eexists. split; [done|]. rewrite val_sign. specialize (Hpos my ey).
    destruct sy; constructor; cbn [val]; lra.
  - eexists. split; [done|]. rewrite val_sign. specialize (Hpos mx ex).
    destruct sx; constructor; cbn [val]; lra.
  - pose proof (magnitude_compare mx ex my ey Hx Hy) as Hc. pose proof (Hpos mx ex). pose proof (Hpos my ey).
    rewrite !val_sign. cbn [SFcompare]. eexists. split; [done|].
    destruct sx, sy; [|constructor; lra|constructor; lra|exact Hc].
    destruct (ex ?= ey); [destruct (Pos.compare_cont Eq mx my)| |]; inversion Hc; constructor; lra.
Qed.

Lemma SFltb_ok x y : good x → good y → SFltb x y = true ↔ (val x < val y)%R.
Proof.
  intros Hx Hy. unfold SFltb. destruct (SFcompare_ok x y Hx Hy) as (c & -> & Hc).
  destruct Hc; split; intros; (done || lra).
Qed.

Lemma SFeqb_ok x y : good x → good y → SFeqb x y = true ↔ val x = val y.
Proof.
  intros Hx Hy. unfold SFeqb. destruct (SFcompare_ok x y Hx Hy) as (c & -> & Hc).
  destruct Hc; split; intros; (done || lra).
Qed.

Lemma SFltb_false x y : good x → good y → SFltb x y = false ↔ (val y <= val x)%R.
Proof.
  intros Hx Hy. rewrite <- not_true_iff_false, SFltb_ok by done. split; lra.
Qed.

(** ** Integers *)
Lemma of_Z_ok z : Z.abs z < 2 ^ 53 → good (of_Z z) ∧ val (of_Z z) = IZR z.
Proof.
  intros Hz. assert (rounds (of_Z z) (IZR z * pow2 0)) as Hr.
  { apply binary_normalize_ok. change (pow2 0) with 1%R. rewrite Rmult_1_r, <- abs_IZR.
    rewrite pow2_IZR by lia. apply IZR_lt. eapply Z.lt_trans; [exact Hz|]. reflexivity. }
  change (pow2 0) with 1%R in Hr. rewrite Rmult_1_r in Hr. split; [by eapply rounds_good|].
  apply rounds_exact; [done|by apply repr_IZR].
Qed.
End FloatOps.
