(* ===== verification/FloatRound.v ===== *)
(** * Doubles: the rounding is unique, and strtod rounds

    A real has one rounding to nearest even, so two conversions that both round the same
    numeral give the same double. [of_decimal], the exact conversion of the C library
    model, is one: the quotient of more than 64 bits and its sticky bit are rounded as the
    quotient itself. *)
From Stdlib Require Import Reals Lra.
From S2P Require Import Prelude Libc Double DoubleSpec FloatSpec FloatOps.

Module FloatRound.
Import Double DoubleSpec FloatSpec FloatOps.

(** A representable number that is not below [2 ^ (e + 52)] is a multiple of [2 ^ e]. *)
Lemma repr_multiple v e : repr v → (pow2 (e + 52) <= Rabs v)%R → ∃ K, v = (IZR K * pow2 e)%R.
Proof.
  intros (M & E & -> & HM & HE) Hv. destruct (repr_cases M E e HM) as [HK|[_ Hs]]; [done|lra].
Qed.

Lemma rounds_big y r e : rounds y r → -1074 ≤ e → (pow2 e <= Rabs r)%R → (pow2 e <= Rabs (val y))%R.
Proof.
  intros Hr He Hp. assert (repr (pow2 e)) as Hz by (exists 1, e; split; [lra|lia]).
  destruct (Rle_dec 0 r) as [H0|H0].
  - rewrite Rabs_pos_eq in Hp by done. pose proof (rounds_ge _ _ _ Hr Hz Hp). eapply Rle_trans; [done|apply Rle_abs].
  - rewrite Rabs_left in Hp by lra. pose proof (rounds_le _ _ _ Hr (repr_opp _ Hz) ltac:(lra)).
    rewrite <- Rabs_Ropp. eapply Rle_trans; [|apply Rle_abs]. lra.
Qed.

(** Two nearest integers are the same, or both even neighbours. *)
Lemma nearest_equal q q' t :
  (Rabs (IZR q - t) <= / 2)%R → (Rabs (IZR q' - t) <= / 2)%R →
  ((Rabs (IZR q - t) = / 2)%R → Z.even q = true) → ((Rabs (IZR q' - t) = / 2)%R → Z.even q' = true) → q = q'.
Proof.
  intros [H1 H2]%Rabs_le_inv [H3 H4]%Rabs_le_inv He He'.
  assert (IZR q - 1 <= IZR q' <= IZR q + 1)%R as [Ha Hb] by lra.
  rewrite <- minus_IZR in Ha. rewrite <- plus_IZR in Hb. apply le_IZR in Ha, Hb.
  assert (q' = q - 1 ∨ q' = q ∨ q' = q + 1) as [->|[->| ->]] by lia; [|done|]; exfalso.
  - rewrite minus_IZR in *. rewrite Rabs_pos_eq in He by lra. rewrite Rabs_left1 in He' by lra.
    specialize (He ltac:(lra)). specialize (He' ltac:(lra)). rewrite Z.even_sub, He in He'. done.
  - rewrite plus_IZR in *. rewrite Rabs_left1 in He by lra. rewrite Rabs_pos_eq in He' by lra.
    specialize (He ltac:(lra)). specialize (He' ltac:(lra)). rewrite Z.even_add, He in He'. done.
Qed.

(** The error of a multiple in units. *)
Lemma unit_error q e r : (Rabs (IZR q * pow2 e - r) = Rabs (IZR q - r * pow2 (- e)) * pow2 e)%R.
Proof.
  pose proof (pow2_pos e) as Hp. rewrite <- (Rabs_pos_eq (pow2 e)) at 2 by lra. rewrite <- Rabs_mult. f_equal.
  pose proof (pow2_neg e). rewrite Rmult_minus_distr_r. rewrite (Rmult_assoc r), (Rmult_comm (pow2 (- e))), H. lra.
Qed.

Lemma unit_half q e r :
  ((Rabs (IZR q * pow2 e - r) <= pow2 (e - 1))%R ↔ (Rabs (IZR q - r * pow2 (- e)) <= / 2)%R) ∧
  ((Rabs (IZR q * pow2 e - r) = pow2 (e - 1))%R ↔ (Rabs (IZR q - r * pow2 (- e)) = / 2)%R).
Proof.
  rewrite unit_error. pose proof (pow2_pos e) as Hp. pose proof (half_unit e) as Hh.
  set (a := Rabs (IZR q - r * pow2 (- e))). split; split; intros; nra.
Qed.

Lemma rounds_unique y y' r : rounds y r → rounds y' r → val y = val y'.
Proof.
  assert (∀ y y' q e q' e', rounds y r → e ≤ e' → -1074 ≤ e → val y = (IZR q * pow2 e)%R → val y' = (IZR q' * pow2 e')%R →
    (Rabs (IZR q * pow2 e - r) <= pow2 (e - 1))%R → (Rabs (IZR q' * pow2 e' - r) <= pow2 (e' - 1))%R →
    ((Rabs (IZR q * pow2 e - r) = pow2 (e - 1))%R → Z.even q = true) →
    ((Rabs (IZR q' * pow2 e' - r) = pow2 (e' - 1))%R → Z.even q' = true) →
    ((pow2 (e' + 52) <= Rabs r)%R ∨ e' = -1074) → val y = val y') as Hw.
  { clear. intros y y' q e q' e' Hr Hee He Hv Hv' Hq Hq' Ht Ht' Hn. destruct (decide (e = e')) as [<-|Hne].
    - rewrite Hv, Hv'. do 2 f_equal. apply (nearest_equal _ _ (r * pow2 (- e))).
      + by apply (unit_half q e r).
      + by apply (unit_half q' e r).
      + intros H. by apply Ht, (unit_half q e r).
      + intros H. by apply Ht', (unit_half q' e r).
    - destruct Hn as [Hn|]; [|lia]. pose proof (rounds_big y r (e' + 52) Hr ltac:(lia) Hn) as Hb.
      destruct (repr_multiple (val y) e') as [K HK]; [destruct Hr as (? & ? & _); by apply repr_val|done|].
      rewrite HK, Hv'. do 2 f_equal. rewrite <- Hv, HK in Hq.
      apply Rabs_le_inv in Hq, Hq'. pose proof (pow2_le e (e' - 1) ltac:(lia)) as Hle.
      pose proof (half_unit e). pose proof (half_unit e'). pose proof (pow2_pos e').
      assert (IZR K - 1 < IZR q' < IZR K + 1)%R as [Ha Hb'] by nra.
      rewrite <- minus_IZR in Ha. rewrite <- plus_IZR in Hb'. apply lt_IZR in Ha, Hb'. lia. }
  intros Hr Hr'. pose proof Hr as (_ & _ & q & e & Hv & Hq & He & Hn & Ht).
  pose proof Hr' as (_ & _ & q' & e' & Hv' & Hq' & He' & Hn' & Ht').
  destruct (decide (e ≤ e')) as [Hle|Hgt].
  - by eapply (Hw y y' q e q' e').
  - symmetry. eapply (Hw y' y q' e' q e); (done || lia).
Qed.

(** Positive doubles with the same value are the same. *)
Lemma val_eq m e m' e' :
  double_ok (S754_finite false m e) → double_ok (S754_finite false m' e') →
  val (S754_finite false m e) = val (S754_finite false m' e') → S754_finite false m e = S754_finite false m' e'.
Proof.
  intros Hok Hok' Hv. destruct (Z.lt_trichotomy e e') as [Hlt|[->|Hlt]].
  - pose proof (magnitude_lt m e m' e' Hok Hok' Hlt). cbn [val] in Hv. lra.
  - f_equal. cbn [val] in Hv. pose proof (pow2_pos e'). apply Rmult_eq_reg_r in Hv; [|lra]. apply eq_IZR in Hv. lia.
  - pose proof (magnitude_lt m' e' m e Hok' Hok Hlt). cbn [val] in Hv. lra.
Qed.

Lemma val_positive x : good x → (0 < val x)%R → ∃ m e, x = S754_finite false m e.
Proof.
  intros [Hf Hok] Hp. destruct x as [s| | |[] m e]; try done; [cbn in Hp; lra| |by eexists _, _].
  rewrite val_sign in Hp. pose proof (pow2_pos e). assert (0 < IZR (Z.pos m))%R by (apply IZR_lt; lia). nra.
Qed.

Lemma rounds_equal y y' r : rounds y r → rounds y' r → (pow2 (-1074) <= r)%R → y = y'.
Proof.
  intros Hr Hr' Hp. pose proof (pow2_pos (-1074)) as H0. pose proof (rounds_unique _ _ _ Hr Hr') as Hv.
  assert (repr (pow2 (-1074))) as Hrep by (exists 1, (-1074); split; [lra|lia]).
  pose proof (rounds_ge _ _ _ Hr Hrep Hp). pose proof (rounds_good _ _ Hr) as G. pose proof (rounds_good _ _ Hr') as G'.
  destruct (val_positive y G) as (m & e & ->); [lra|]. destruct (val_positive y' G') as (m' & e' & ->); [lra|].
  apply val_eq; [apply G|apply G'|done].
Qed.

(** ** A quotient with a sticky bit *)
(** What rounds an odd multiple of a small unit rounds everything less than a unit away. *)
Lemma rounds_sticky y q E r :
  rounds y (IZR (2 * q + 1) * pow2 E) → 2 ^ 64 ≤ q → -1074 ≤ E + 12 →
  (IZR (2 * q) * pow2 E < r < IZR (2 * q + 2) * pow2 E)%R → rounds y r.
Proof.
  intros Hy Hq HE Hr. pose proof Hy as (Hf & Hok & q' & e & Hv & Herr & He & Hn & Ht). split; [done|]. split; [done|].
  pose proof (pow2_pos E) as HpE. set (N := 2 * q + 1) in *.
  assert (0 < IZR (2 * q))%R as Hq0 by (apply IZR_lt; lia). assert (0 < r)%R as Hr0 by nra.
  assert (IZR N * pow2 E - r < pow2 E ∧ r - IZR N * pow2 E < pow2 E)%R as [Hd1 Hd2].
  { unfold N. rewrite !plus_IZR in *. lra. }
  destruct (decide (E + 2 ≤ e)) as [Hle|Hgt].
  - exists q', e. split; [done|]. set (h := 2 ^ (e - 1 - E)). assert (pow2 (e - 1) = IZR h * pow2 E)%R as Hh.
    { unfold h. rewrite <- pow2_IZR, <- pow2_add by lia. f_equal. lia. }
    assert (pow2 e = IZR (2 * h) * pow2 E)%R as Hh2 by (pose proof (half_unit e); rewrite mult_IZR; lra).
    assert (∃ h', h = 2 * h') as [h' Hh'].
    { exists (2 ^ (e - 2 - E)). unfold h. rewrite <- Z.pow_succ_r by lia. f_equal. lia. }
    assert (IZR (q' * (2 * h)) * pow2 E = IZR q' * pow2 e)%R as Hqe by (rewrite Hh2, mult_IZR; ring).
    rewrite <- Hqe, Hh, <- Rmult_minus_distr_r, <- minus_IZR, Rabs_mult, (Rabs_pos_eq (pow2 E)), <- abs_IZR in Herr by lra.
    apply Rmult_le_reg_r in Herr; [|done]. apply le_IZR in Herr.
    assert (Z.abs (q' * (2 * h) - N) < h) as Hlt by (unfold N in *; lia).
    assert (Rabs (IZR q' * pow2 e - r) < pow2 (e - 1))%R as Hs.
    { rewrite <- Hqe, Hh. assert (IZR (N - h + 1) <= IZR (q' * (2 * h)) <= IZR (N + h - 1))%R as [Ha Hb] by (split; apply IZR_le; lia).
      rewrite plus_IZR, minus_IZR in Ha. rewrite minus_IZR, plus_IZR in Hb. apply Rabs_def1; nra. }
    split; [lra|]. split; [done|]. split; [|lra]. destruct Hn as [Hn|]; [left|by right].
    rewrite Rabs_pos_eq in * by (unfold N; try nra; rewrite plus_IZR; nra).
    replace (e + 52) with (e + 52 - E + E) in Hn |- * by lia. rewrite pow2_add, pow2_IZR in Hn |- * by lia.
    apply Rmult_le_reg_r in Hn; [|done]. apply le_IZR in Hn.
    assert (2 ^ (e + 52 - E) = 2 * 2 ^ (e + 51 - E)) as Hev by (rewrite <- Z.pow_succ_r by lia; f_equal; lia).
    assert (IZR (2 ^ (e + 52 - E)) <= IZR (2 * q))%R by (apply IZR_le; unfold N in *; lia). nra.
  - assert (pow2 (E + 64) <= IZR N * pow2 E)%R as Hbig.
    { rewrite Z.add_comm, pow2_add, pow2_IZR by lia. apply Rmult_le_compat_r; [lra|]. apply IZR_le. unfold N. lia. }
    assert (pow2 (E + 64) <= r)%R as Hbig'.
    { rewrite Z.add_comm, pow2_add, pow2_IZR by lia. assert (IZR (2 ^ 64) <= IZR (2 * q))%R by (apply IZR_le; lia). nra. }
    assert (pow2 (E + 12 + 52) <= Rabs (val y))%R as Hvb.
    { replace (E + 12 + 52) with (E + 64) by lia. apply (rounds_big _ _ _ Hy); [lia|]. rewrite Rabs_pos_eq; [done|pose proof (pow2_pos (E + 64)); lra]. }
    destruct (repr_multiple (val y) (E + 12)) as [K HK]; [by apply repr_val|done|].
    exists K, (E + 12). split; [done|]. rewrite <- HK.
    assert (Rabs (val y - r) < pow2 (E + 12 - 1))%R as Hs.
    { rewrite <- Hv in Herr. apply Rabs_le_inv in Herr. pose proof (pow2_le (e - 1) E ltac:(lia)).
      pose proof (pow2_le (E + 1) (E + 12 - 1) ltac:(lia)). rewrite pow2_S in *. apply Rabs_def1; lra. }
    split; [lra|]. split; [lia|]. split; [|lra]. left. rewrite Rabs_pos_eq by lra. replace (E + 12 + 52) with (E + 64) by lia. done.
Qed.

(** [strtod] of the model of the C library rounds to nearest even. *)
Lemma of_decimal_ok d e :
  0 < d → (pow2 (-1018) <= IZR d * pow10 e < pow2 1022)%R → rounds (of_decimal false d e) (IZR d * pow10 e).
Proof.
  intros Hd [Hmin Hmax]. unfold of_decimal. rewrite (proj2 (Z.eqb_neq d 0)) by lia. cbn [signed].
  pose proof (pow2_lt 1022 1023 ltac:(lia)) as H23. destruct (Z.leb_spec 0 e) as [H0|H0].
  - replace (IZR d * pow10 e)%R with (IZR (d * 10 ^ e) * pow2 0)%R.
    2: { change (pow2 0) with 1%R. rewrite mult_IZR, pow10_IZR by lia. ring. }
    apply binary_normalize_ok. change (pow2 0) with 1%R. rewrite mult_IZR, <- pow10_IZR by lia.
    pose proof (pow10_pos e). assert (0 < IZR d)%R by (by apply IZR_lt). rewrite Rabs_pos_eq; nra.
  - set (den := 10 ^ (- e)). assert (0 < den) as Hden by (apply Z.pow_pos_nonneg; lia).
    set (kk := Z.max 0 (Z.log2 den - Z.log2 d + 66)). cbv zeta.
    pose proof (Z.log2_spec den Hden) as Hld. pose proof (Z.log2_spec d Hd) as Hlg. rewrite <- Z.add_1_r in *.
    assert (IZR d * pow10 e = IZR d / IZR den)%R as Hr.
    { unfold den, Rdiv. rewrite <- pow10_IZR, pow10_inv by lia. do 2 f_equal. lia. }
    rewrite Hr in *. clear Hr. apply IZR_lt in Hden as Hden'. set (r := (IZR d / IZR den)%R) in *.
    assert (IZR d = r * IZR den)%R as Hdr by (unfold r; field; lra).
    pose proof (Z.log2_nonneg den). pose proof (Z.log2_nonneg d).
    assert (Z.log2 den - Z.log2 d < 1019) as Hdiff.
    { destruct (decide (Z.log2 den - Z.log2 d < 1019)) as [|Hn]; [done|]. exfalso.
      assert (IZR d < pow2 (Z.log2 d + 1))%R as Hu1 by (rewrite pow2_IZR by lia; apply IZR_lt; lia).
      assert (pow2 (Z.log2 den) <= IZR den)%R as Hu2 by (rewrite pow2_IZR by lia; apply IZR_le; lia).
      pose proof (pow2_le (Z.log2 d + 1) (-1018 + Z.log2 den) ltac:(lia)) as Hu3. rewrite (pow2_add (-1018)) in Hu3.
      pose proof (pow2_pos (-1018)) as Hp0. assert (pow2 (-1018) * IZR den <= IZR d)%R by (rewrite Hdr; apply Rmult_le_compat_r; lra).
      assert (pow2 (-1018) * pow2 (Z.log2 den) <= pow2 (-1018) * IZR den)%R by (apply Rmult_le_compat_l; lra). lra. }
    set (n := d * 2 ^ kk) in *. pose proof (Z.div_mod n den ltac:(lia)) as Hdm. pose proof (Z.mod_pos_bound n den Hden) as Hm.
    set (q := n / den) in *. set (rem := n mod den) in *.
    assert (2 ^ 64 ≤ q) as Hq.
    { apply Z.div_le_lower_bound; [done|]. assert (2 ^ (Z.log2 den + 1) * 2 ^ 64 ≤ 2 ^ Z.log2 d * 2 ^ kk).
      { rewrite <- !Z.pow_add_r by lia. apply Z.pow_le_mono_r; lia. }
      assert (2 ^ Z.log2 d * 2 ^ kk ≤ n) by (unfold n; apply Z.mul_le_mono_nonneg_r; lia). nia. }
    assert (IZR n = r * pow2 kk * IZR den)%R as Hn by (unfold n; rewrite mult_IZR, <- pow2_IZR, Hdr by lia; ring).
    assert (pow2 kk * pow2 (- kk - 1) = / 2)%R as Hk by (rewrite <- pow2_add, <- half_inv; f_equal; lia).
    assert (r = 2 * (IZR n / IZR den) * pow2 (- kk - 1))%R as Hrn.
    { rewrite Hn. replace (2 * (r * pow2 kk * IZR den / IZR den) * pow2 (- kk - 1))%R with (2 * r * (pow2 kk * pow2 (- kk - 1)))%R by (field; lra).
      rewrite Hk. lra. }
    assert (IZR n / IZR den = IZR q + IZR rem / IZR den)%R as Hf.
    { rewrite Hdm, plus_IZR, mult_IZR. field. lra. }
    pose proof (pow2_pos (- kk - 1)) as Hp. assert (IZR q >= 1)%R by (apply Rle_ge, IZR_le; lia).
    destruct (Z.eqb_spec rem 0) as [Hz|Hz].
    + rewrite Z.add_0_r. assert (r = IZR (2 * q) * pow2 (- kk - 1))%R as Hr.
      { rewrite Hrn, Hf, Hz, mult_IZR. unfold Rdiv. rewrite Rmult_0_l. ring. }
      rewrite Hr. apply binary_normalize_ok. rewrite <- Hr, Rabs_pos_eq; [lra|]. pose proof (pow2_pos (-1018)). lra.
    + assert (0 < IZR rem / IZR den < 1)%R as Hfr.
      { split; [apply Rdiv_lt_0_compat; [apply IZR_lt; lia|done]|]. apply (Rmult_lt_reg_r (IZR den)); [done|]. unfold Rdiv. rewrite Rmult_assoc, Rinv_l, Rmult_1_r, Rmult_1_l by lra. apply IZR_lt. lia. }
      assert (IZR (2 * q) * pow2 (- kk - 1) < r < IZR (2 * q + 2) * pow2 (- kk - 1))%R as Hrange.
      { rewrite Hrn, Hf, plus_IZR, mult_IZR. nra. }
      apply (rounds_sticky _ q (- kk - 1)); [|done|lia|done]. apply binary_normalize_ok.
      rewrite Rabs_pos_eq; rewrite plus_IZR, mult_IZR in *; [|nra]. change 1023 with (1022 + 1) in *. rewrite pow2_S in *. nra.
Qed.
End FloatRound.
