(* ===== verification/DtoaWords.v ===== *)
(** * dtoa.c: the words of a double and the bits of a word

    The fields of a double that dtoa.c reads and writes through its two words, and the
    counts of zero bits: [d2b] gives the mantissa as a big integer. *)
From S2P Require Import Prelude Libc Double DoubleSpec Bigint BigintSpec BigintOps Dtoa FloatSpec FloatOps.

Module DtoaWords.
Import Double DoubleSpec Bigint BigintSpec BigintOps Dtoa FloatSpec FloatOps.

(** ** Zero bits *)
Lemma bits_clear_low y n : 0 ≤ n → bits_clear y (Z.ones n) = (y mod 2 ^ n =? 0).
Proof. intros Hn. unfold bits_clear. by rewrite Z.land_ones. Qed.

(** The high bits of a word. *)
Lemma bits_clear_high w n :
  word_ok w → 0 ≤ n < 32 → bits_clear w (W - 2 ^ n) = (w <? 2 ^ n).
Proof.
  unfold word_ok, bits_clear. intros Hw Hn.
  assert (W - 2 ^ n = Z.shiftl (Z.ones (32 - n)) n) as ->.
  { rewrite Z.shiftl_mul_pow2, Z.ones_equiv by lia. unfold Z.pred.
    rewrite Z.mul_add_distr_r, <- Z.pow_add_r by lia. replace (32 - n + n) with 32 by lia.
    change (2 ^ 32) with W. lia. }
  assert (Z.land w (Z.shiftl (Z.ones (32 - n)) n) = Z.shiftl (Z.land (Z.shiftr w n) (Z.ones (32 - n))) n) as ->.
  { apply Z.bits_inj'. intros i Hi. rewrite Z.land_spec, !Z.shiftl_spec, Z.land_spec by lia.
    destruct (Z.ltb_spec i n).
    - rewrite (Z.testbit_neg_r _ (i - n)), andb_false_r by lia. by rewrite Z.testbit_neg_r by lia.
    - rewrite Z.shiftr_spec by lia. do 2 f_equal. lia. }
  pose proof (Z.pow_pos_nonneg 2 n ltac:(lia) ltac:(lia)) as Hp.
  rewrite Z.shiftl_mul_pow2, Z.shiftr_div_pow2, Z.land_ones by lia.
  assert (0 ≤ w / 2 ^ n < 2 ^ (32 - n)) as Hr.
  { split; [apply Z.div_pos; lia|]. apply Z.div_lt_upper_bound; [lia|].
    rewrite <- Z.pow_add_r by lia. replace (n + (32 - n)) with 32 by lia; change (2 ^ 32) with W; lia. }
  rewrite Z.mod_small by done.
  destruct (Z.ltb_spec w (2 ^ n)) as [Hlt|Hge].
  - by rewrite Z.div_small by lia.
  - apply Z.eqb_neq. pose proof (Z.div_le_mono (2 ^ n) w (2 ^ n) ltac:(lia) Hge) as Hd.
    rewrite Z.div_same in Hd by lia. nia.
Qed.

(** One step of [hi0bits]: shift by [c] when the upper [c] bits are clear. *)
Lemma hi0bits_step w c mask kk :
  mask = W - 2 ^ (32 - c) → 0 < c ≤ 16 → 2 ^ (32 - 2 * c) ≤ w < W →
  let '(k', w') := if bits_clear w mask then (kk + c, u32 (Z.shiftl w c)) else (kk, w) in
  2 ^ (32 - c) ≤ w' < W ∧ Z.log2 w' - k' = Z.log2 w - kk.
Proof.
  intros -> Hc Hw. pose proof (Z.pow_pos_nonneg 2 (32 - 2 * c)).
  rewrite bits_clear_high by (unfold word_ok; lia).
  destruct (Z.ltb_spec w (2 ^ (32 - c))) as [Hlt|Hge]; [|lia].
  assert (2 ^ (32 - c) * 2 ^ c = W) as HW by (rewrite <- Z.pow_add_r by lia; by replace (32 - c + c) with 32 by lia).
  assert (2 ^ (32 - 2 * c) * 2 ^ c = 2 ^ (32 - c)) as HW2 by (rewrite <- Z.pow_add_r by lia; f_equal; lia).
  pose proof (Z.pow_pos_nonneg 2 c ltac:(lia) ltac:(lia)).
  rewrite Z.shiftl_mul_pow2 by lia. rewrite (wrap_small 32) by (change (2 ^ 32) with W; nia).
  split; [nia|]. rewrite Z.log2_mul_pow2 by lia. lia.
Qed.

Lemma hi0bits_spec w : 0 < w < W → hi0bits w = 31 - Z.log2 w.
Proof.
  intros Hw. unfold hi0bits.
  pose proof (hi0bits_step w 16 4294901760 0 eq_refl ltac:(lia) ltac:(cbn; lia)) as H1.
  rewrite Z.add_0_l in H1. destruct (if bits_clear w 4294901760 then _ else _) as [k1 w1]. destruct H1 as [H1 L1].
  pose proof (hi0bits_step w1 8 4278190080 k1 eq_refl ltac:(lia) H1) as H2.
  destruct (if bits_clear w1 4278190080 then _ else _) as [k2 w2]. destruct H2 as [H2 L2].
  pose proof (hi0bits_step w2 4 4026531840 k2 eq_refl ltac:(lia) H2) as H3.
  destruct (if bits_clear w2 4026531840 then _ else _) as [k3 w3]. destruct H3 as [H3 L3].
  pose proof (hi0bits_step w3 2 3221225472 k3 eq_refl ltac:(lia) H3) as H4.
  destruct (if bits_clear w3 3221225472 then _ else _) as [k4 w4]. destruct H4 as [H4 L4].
  change (2 ^ (32 - 2)) with 1073741824 in H4.
  change 2147483648 with (W - 2 ^ 31). rewrite (bits_clear_high w4 31) by (unfold word_ok; lia).
  change (2 ^ 31) with 2147483648. destruct (Z.ltb_spec w4 2147483648) as [Hlt|Hge].
  - assert (bits_clear w4 1073741824 = false) as ->.
    { unfold bits_clear. apply Z.eqb_neq. intros Heq. apply (f_equal (fun z => Z.testbit z 30)) in Heq.
      rewrite Z.land_spec, Z.bits_0 in Heq. change 1073741824 with (2 ^ 30) in *.
      rewrite Z.pow2_bits_true, andb_true_r in Heq by lia.
      assert (Z.log2 w4 = 30) as Hl by (apply Z.log2_unique; [lia|change (2 ^ Z.succ 30) with 2147483648; lia]).
      rewrite <- Hl, Z.bit_log2 in Heq by lia. done. }
    assert (Z.log2 w4 = 30) by (apply Z.log2_unique; [lia|change (2 ^ 30) with 1073741824; change (2 ^ Z.succ 30) with 2147483648; lia]).
    lia.
  - assert (Z.log2 w4 = 31) by (apply Z.log2_unique; [lia|change (2 ^ 31) with 2147483648; change (2 ^ Z.succ 31) with W; lia]).
    lia.
Qed.

(** One step of [lo0bits]: shift by [c] when the lower [c] bits are clear. *)
Lemma lo0bits_step y w c kk mask :
  mask = Z.ones c → 0 < c → 0 ≤ kk → y = w * 2 ^ kk → 0 < w → w mod 2 ^ (2 * c) ≠ 0 →
  let '(k', w') := if bits_clear w mask then (kk + c, Z.shiftr w c) else (kk, w) in
  0 ≤ k' ∧ y = w' * 2 ^ k' ∧ 0 < w' ∧ w' mod 2 ^ c ≠ 0.
Proof.
  intros -> Hc Hk Hy Hw Hm. rewrite bits_clear_low by lia.
  pose proof (Z.pow_pos_nonneg 2 c ltac:(lia) ltac:(lia)).
  destruct (Z.eqb_spec (w mod 2 ^ c) 0) as [H0|H0]; [|done].
  rewrite Z.shiftr_div_pow2 by lia. pose proof (Z.div_mod w (2 ^ c) ltac:(lia)) as Hdm.
  assert (w = w / 2 ^ c * 2 ^ c) as Heq by lia. split; [lia|]. split; [|split; [nia|]].
  - rewrite Hy. rewrite Heq at 1. rewrite <- Z.mul_assoc, <- Z.pow_add_r by lia. do 2 f_equal. lia.
  - intros Hz. apply Hm. replace (2 * c) with (c + c) by lia. rewrite Z.pow_add_r, Z.rem_mul_r by lia.
    rewrite H0, Hz. lia.
Qed.

Lemma lo0bits_spec y :
  0 < y < W → let '(kk, y') := lo0bits y in 0 ≤ kk < 32 ∧ y = y' * 2 ^ kk ∧ Z.odd y' = true.
Proof.
  intros Hy.
  assert (let '(kk, y') := lo0bits y in 0 ≤ kk ∧ y = y' * 2 ^ kk ∧ y' mod 2 ≠ 0) as Hs.
  { unfold lo0bits. change 7 with (Z.ones 3). change 1 with (Z.ones 1). rewrite !bits_clear_low by lia.
    change (2 ^ 3) with 8. change (2 ^ 1) with 2. change (Z.ones 1) with 1.
    destruct (Z.eqb_spec (y mod 8) 0) as [H8|H8]; cbn [negb].
    2:{ destruct (Z.eqb_spec (y mod 2) 0) as [H2|H2]; cbn [negb]; [|lia].
        assert (bits_clear y 2 = (y mod 4 =? 0)) as ->.
        { unfold bits_clear. assert (Z.land y 2 = Z.land (y mod 4) 2) as ->.
          { change 4 with (2 ^ 2). rewrite <- Z.land_ones, <- Z.land_assoc by lia. done. }
          assert (y mod 4 = 0 ∨ y mod 4 = 2) as [-> | ->] by dlia; done. }
        destruct (Z.eqb_spec (y mod 4) 0) as [H4|H4]; cbn [negb]; rewrite Z.shiftr_div_pow2 by lia.
        - change (2 ^ 2) with 4. split; [lia|]. split; dlia.
        - change (2 ^ 1) with 2. split; [lia|]. split; dlia. }
    pose proof (lo0bits_step y y 16 0 65535 eq_refl ltac:(lia) ltac:(lia) ltac:(lia) ltac:(lia)) as H1.
    destruct (if bits_clear y 65535 then _ else _) as [k1 w1] in *.
    destruct H1 as (K1 & E1 & P1 & M1); [rewrite Z.mod_small; lia|].
    pose proof (lo0bits_step y w1 8 k1 255 eq_refl ltac:(lia) K1 E1 P1 M1) as H2.
    destruct (if bits_clear w1 255 then _ else _) as [k2 w2]. destruct H2 as (K2 & E2 & P2 & M2).
    pose proof (lo0bits_step y w2 4 k2 15 eq_refl ltac:(lia) K2 E2 P2 M2) as H3.
    destruct (if bits_clear w2 15 then _ else _) as [k3 w3]. destruct H3 as (K3 & E3 & P3 & M3).
    pose proof (lo0bits_step y w3 2 k3 3 eq_refl ltac:(lia) K3 E3 P3 M3) as H4.
    destruct (if bits_clear w3 3 then _ else _) as [k4 w4]. destruct H4 as (K4 & E4 & P4 & M4).
    change (2 ^ 2) with 4 in M4. change 1 with (Z.ones 1) at 1. rewrite bits_clear_low by lia.
    change (2 ^ 1) with 2. destruct (Z.eqb_spec (w4 mod 2) 0) as [H0|H0]; [|done].
    rewrite Z.shiftr_div_pow2 by lia. change (2 ^ 1) with 2.
    destruct (Z.eqb_spec (w4 / 2) 0); [dlia|]. split; [lia|]. split; [|dlia].
    rewrite Z.pow_add_r by lia. change (2 ^ 1) with 2. assert (w4 = w4 / 2 * 2) as Heq by dlia.
    rewrite E4 at 1. rewrite Heq at 1. ring. }
  destruct (lo0bits y) as [kk y']. destruct Hs as (Hk & -> & Hm).
  pose proof (Z.pow_pos_nonneg 2 kk ltac:(lia) Hk). assert (0 < y') by nia.
  split; [|split; [done|by rewrite Zodd_mod; apply Z.eqb_eq; pose proof (Z.mod_pos_bound y' 2); lia]].
  split; [done|]. apply (Z.pow_lt_mono_r_iff 2); [lia|lia|]. change (2 ^ 32) with W. nia.
Qed.

Lemma bits_clear_high_bit w : 0 ≤ w < 2 ^ 32 → (Z.land w Sign_bit =? 0) = (w <? 2 ^ 31).
Proof. intros Hw. apply (bits_clear_high w 31); [exact Hw|lia]. Qed.

(** ** The fields of a double *)
(** The bits of a positive double: the biased exponent and the fraction. *)
Definition field_e (m : positive) (e : Z) : Z := if Z.pos m <? 2 ^ 52 then 0 else e + 1075.
Definition field_f (m : positive) : Z := if Z.pos m <? 2 ^ 52 then Z.pos m else Z.pos m - 2 ^ 52.

Lemma fields (s : bool) m e :
  double_ok (S754_finite s m e) →
  bits (S754_finite s m e) = (if s then 2 ^ 63 else 0) + (field_e m e * 2 ^ 52 + field_f m) ∧
  0 ≤ field_e m e < 2047 ∧ 0 ≤ field_f m < 2 ^ 52 ∧ (field_e m e = 0 ↔ Z.pos m < 2 ^ 52) ∧
  (field_e m e = 0 → e = -1074) ∧ (field_e m e ≠ 0 → e = field_e m e - 1075).
Proof.
  intros Hok. destruct (double_ok_mantissa _ _ _ Hok) as (Hm & He & Hm'). cbn [bits].
  unfold field_e, field_f. destruct (Z.ltb_spec (Z.pos m) (2 ^ 52)); repeat split; try lia; intros; lia.
Qed.

Lemma bits_range d : good d → 0 ≤ bits d < 2 ^ 64.
Proof.
  intros [Hf Hok]. destruct d as [s| | |s m e]; try done; [destruct s; cbn; lia|].
  destruct (fields s m e Hok) as (-> & He & Hff & _). destruct s; lia.
Qed.

Lemma word_split d : bits d = word0 d * 2 ^ 32 + word1 d ∧ 0 ≤ word1 d < 2 ^ 32.
Proof.
  unfold word0, word1. pose proof (Z.div_mod (bits d) (2 ^ 32) ltac:(lia)).
  pose proof (Z.mod_pos_bound (bits d) (2 ^ 32) ltac:(lia)). lia.
Qed.

Lemma of_bits_fields (s : bool) ef f :
  0 ≤ ef < 2047 → 0 ≤ f < 2 ^ 52 →
  of_bits ((if s then 2 ^ 63 else 0) + (ef * 2 ^ 52 + f)) =
    if ef =? 0 then match f with Z.pos m => S754_finite s m (-1074) | _ => S754_zero s end
    else match f + 2 ^ 52 with Z.pos m => S754_finite s m (ef - 1075) | _ => S754_zero s end.
Proof.
  intros He Hf. unfold of_bits. set (z := ef * 2 ^ 52 + f). assert (0 ≤ z < 2 ^ 63) as Hz by (unfold z; lia).
  assert ((2 ^ 63 <=? (if s then 2 ^ 63 else 0) + z) = s) as ->.
  { destruct s; [apply Z.leb_le|apply Z.leb_gt]; lia. }
  assert ((if s then (if s then 2 ^ 63 else 0) + z - 2 ^ 63 else (if s then 2 ^ 63 else 0) + z) = z) as ->.
  { destruct s; lia. }
  assert (z / 2 ^ 52 = ef) as ->.
  { unfold z. rewrite Z.add_comm, Z.div_add, Z.div_small by lia. lia. }
  assert (z mod 2 ^ 52 = f) as ->.
  { unfold z. rewrite Z.add_comm, Z.mod_add, Z.mod_small by lia. lia. }
  destruct (Z.eqb_spec ef 2047); [lia|]. done.
Qed.

Lemma of_bits_bits s m e : double_ok (S754_finite s m e) →
  of_bits ((if s then 2 ^ 63 else 0) + (field_e m e * 2 ^ 52 + field_f m)) = S754_finite s m e.
Proof.
  intros Hok. destruct (fields s m e Hok) as (_ & He & Hf & H0 & H1 & H2).
  rewrite of_bits_fields by done. destruct (Z.eqb_spec (field_e m e) 0) as [Hz|Hz].
  - rewrite H1 by done. unfold field_f. by rewrite (proj2 (Z.ltb_lt _ _) (proj1 H0 Hz)).
  - assert (field_f m + 2 ^ 52 = Z.pos m) as ->; [|by rewrite <- H2].
    unfold field_f. destruct (Z.ltb_spec (Z.pos m) (2 ^ 52)) as [Hlt|]; [by apply H0 in Hlt|lia].
Qed.

(** The parts of the upper word. *)
Lemma word0_fields s m e :
  double_ok (S754_finite s m e) →
  word0 (S754_finite s m e) = (if s then 2 ^ 31 else 0) + field_e m e * 2 ^ 20 + field_f m / 2 ^ 32 ∧
  word1 (S754_finite s m e) = field_f m mod 2 ^ 32 ∧ 0 ≤ field_f m / 2 ^ 32 < 2 ^ 20.
Proof.
  intros Hok. destruct (fields s m e Hok) as (Hb & He & Hf & _). unfold word0, word1. rewrite Hb.
  set (f := field_f m) in *. set (ef := field_e m e) in *.
  pose proof (Z.div_mod f (2 ^ 32) ltac:(lia)) as Hdm. pose proof (Z.mod_pos_bound f (2 ^ 32) ltac:(lia)).
  assert ((if s then 2 ^ 63 else 0) + (ef * 2 ^ 52 + f) =
    f mod 2 ^ 32 + ((if s then 2 ^ 31 else 0) + ef * 2 ^ 20 + f / 2 ^ 32) * 2 ^ 32) as ->.
  { destruct s; lia. }
  rewrite Z.div_add, Z.mod_add, Z.div_small, Z.mod_small by lia.
  split; [lia|]. split; [done|]. split; [apply Z.div_pos; lia|apply Z.div_lt_upper_bound; lia].
Qed.

Section words.
Context (m : positive) (e : Z) (s : bool) (Hok : double_ok (S754_finite s m e)).

Lemma word0_mod n : 0 ≤ n ≤ 31 →
  Z.land (word0 (S754_finite s m e)) (Z.ones n) = (field_e m e * 2 ^ 20 + field_f m / 2 ^ 32) mod 2 ^ n.
Proof.
  intros Hn. rewrite Z.land_ones by lia. destruct (word0_fields s m e Hok) as (-> & _).
  rewrite <- Z.add_assoc. destruct s; [|done].
  replace (2 ^ 31) with (2 ^ (31 - n) * 2 ^ n) by (rewrite <- Z.pow_add_r by lia; f_equal; lia).
  rewrite Z.add_comm, Z.mod_add by (pose proof (Z.pow_pos_nonneg 2 n); lia). done.
Qed.

Lemma word0_sign : (Z.land (word0 (S754_finite s m e)) Sign_bit =? 0) = negb s.
Proof.
  destruct (word0_fields s m e Hok) as (Hw & _ & Hf). destruct (fields s m e Hok) as (_ & He & _).
  rewrite (bits_clear_high_bit (word0 (S754_finite s m e))) by (rewrite Hw; destruct s; lia).
  rewrite Hw. destruct s; [apply Z.ltb_ge|apply Z.ltb_lt]; lia.
Qed.
End words.

(** ** The mantissa as a big integer *)
Lemma zget_app_l {A} (l k : list A) i : 0 ≤ i < len l → zget (l ++ k) i = zget l i.
Proof.
  intros Hi. unfold zget. destruct (Z.ltb_spec i 0); [lia|]. rewrite lookup_app_l by lia. done.
Qed.

Section d2b.
Context {E : Type}.

Lemma wrw_0 (c : cell) B w : word_ok w → wrw (E:=E) (c :: B) 0 w = Done (Some w :: B).
Proof. intros Hw. by apply (wrw_mid []). Qed.
Lemma wrw_1 (c d : cell) B w : word_ok w → wrw (E:=E) (c :: d :: B) 1 w = Done (c :: Some w :: B).
Proof. intros Hw. by apply (wrw_mid [c]). Qed.

(** The two words that are written, and the zero bits that are dropped. *)
Lemma mantissa_words (c0 c1 : cell) z y :
  0 ≤ z < 2 ^ 21 → word_ok y → 0 < z * 2 ^ 32 + y →
  ∃ ws rest kk, (if y =? 0 then
      let '(kk, z) := lo0bits z in
      let! xs := wrw [c0; c1] 0 z in
      Done (xs, 1, kk + 32)
    else
      let '(kk, y) := lo0bits y in
      let! xs := wrw [c0; c1] 0 (if kk =? 0 then y else Z.lor y (u32 (Z.shiftl z (32 - kk)))) in
      let! xs := wrw xs 1 (if kk =? 0 then z else Z.shiftr z kk) in
      Done (xs, if (if kk =? 0 then z else Z.shiftr z kk) =? 0 then 1 else 2, kk)) = Done (E:=E) ((Some <$> ws) ++ rest, len ws, kk) ∧
    length ((Some <$> ws) ++ rest) = 2%nat ∧ words_ok ws ∧ normal ws ∧ 0 ≤ kk ∧
    value ws * 2 ^ kk = z * 2 ^ 32 + y.
Proof.
  unfold word_ok. intros Hz Hy Hpos. destruct (Z.eqb_spec y 0) as [->|Hy0].
  - pose proof (lo0bits_spec z ltac:(lia)) as Hlo. destruct (lo0bits z) as [kk z'].
    destruct Hlo as (Hk & Heq & _). pose proof (Z.pow_pos_nonneg 2 kk ltac:(lia) ltac:(lia)).
    assert (word_ok z' ∧ 0 < z') as [Hz' Hz0] by (unfold word_ok; nia).
    rewrite wrw_0 by done. cbn [obind]. exists [z'], [c1], (kk + 32). split; [done|].
    split; [done|]. split; [by constructor|]. split; [by apply (normal_snoc [])|]. split; [lia|].
    cbn [value]. rewrite Z.pow_add_r by lia. lia.
  - pose proof (lo0bits_spec y ltac:(lia)) as Hlo. destruct (lo0bits y) as [kk y'].
    destruct Hlo as (Hk & Heq & _). pose proof (Z.pow_pos_nonneg 2 kk ltac:(lia) ltac:(lia)).
    assert (∃ lo hi, (if kk =? 0 then y' else Z.lor y' (u32 (Z.shiftl z (32 - kk)))) = lo ∧
      (if kk =? 0 then z else Z.shiftr z kk) = hi ∧ word_ok lo ∧ word_ok hi ∧
      (lo + W * hi) * 2 ^ kk = z * 2 ^ 32 + y) as (lo & hi & -> & -> & Hlo & Hhi & Hval).
    { destruct (Z.eqb_spec kk 0) as [->|Hk0].
      - exists y', z. unfold word_ok. split; [done|]. split; [done|]. change (2 ^ 0) with 1 in *. lia.
      - destruct (shift_word z (32 - kk) y') as (Hw & Hz' & Hsum); [unfold word_ok; lia|lia| |].
        { split; [nia|]. apply (Z.mul_lt_mono_pos_r (2 ^ kk)); [done|]. rewrite <- Z.pow_add_r by lia.
          replace (32 - kk + kk) with 32 by lia. change (2 ^ 32) with W. lia. }
        replace (32 - (32 - kk)) with kk in * by lia.
        eexists _, _. split; [by rewrite Z.lor_comm|]. split; [done|]. split; [done|].
        assert (2 ^ (32 - kk) * 2 ^ kk = W) as HW by (rewrite <- Z.pow_add_r by lia; by replace (32 - kk + kk) with 32 by lia).
        split; [unfold word_ok; nia|]. rewrite <- Hsum. change (2 ^ 32) with W. rewrite Heq, <- HW. ring. }
    rewrite wrw_0 by done. cbn [obind].
    rewrite wrw_1 by done. cbn [obind].
    destruct (Z.eqb_spec hi 0) as [->|Hhi0].
    + exists [lo], [Some 0], kk. split; [done|]. split; [done|]. split; [by constructor|].
      unfold word_ok in *. split; [apply (normal_snoc []); nia|]. split; [lia|]. cbn [value]. lia.
    + exists [lo; hi], [], kk. split; [done|]. split; [done|]. split; [by constructor; [|constructor]|].
      unfold word_ok in Hhi. split; [apply (normal_snoc [lo]); lia|]. split; [lia|]. cbn [value]. lia.
Qed.

Lemma bits_of_value ws : words_ok ws → normal ws → ∃ top, rdw (E:=E) (Some <$> ws) (len ws - 1) = Done top ∧
  32 * len ws - hi0bits top = Z.log2 (value ws) + 1.
Proof.
  intros Hws (ws' & w & -> & Hw). exists w. rewrite length_app. cbn [length].
  rewrite fmap_app. cbn [fmap list_fmap].
  split; [apply rdw_mid; rewrite length_fmap; lia|]. rewrite top_word by done.
  apply Forall_app in Hws as [_ [Hw' _]%Forall_cons]. unfold word_ok in Hw'.
  rewrite hi0bits_spec by lia. lia.
Qed.

Lemma d2b_spec s m e :
  pool_ok s → double_ok (S754_finite false m e) →
  run (d2b (E:=E) (S754_finite false m e)) s 1 (fun r s' =>
    let '(b, be, bbits) := r in
    ∃ n, big b n ∧ e ≤ be ∧ n * 2 ^ (be - e) = Z.pos m ∧ bbits = Z.log2 n + 1 ∧ p5s s' = p5s s).
Proof.
  intros Hs Hok. destruct (word0_fields false m e Hok) as (Hw0 & Hw1 & Hr).
  destruct (fields false m e Hok) as (_ & Hef & Hf & Hz & He0 & He1).
  set (u := S754_finite false m e) in *. set (ef := field_e m e) in *. set (f := field_f m) in *.
  unfold d2b. eapply run_bind; [apply Balloc_spec; [done|unfold Kmax; lia]|].
  intros b s1 Hs1 [[Hb Hk] Hp]. pose proof Hb as (_ & Hm & Hl). rewrite Hk in Hm. change (2 ^ 1) with 2 in Hm.
  cbv zeta. change Frac_mask with (Z.ones 20). change 2147483647 with (Z.ones 31).
  rewrite !(word0_mod m e false Hok) by lia. fold ef f.
  assert ((ef * 2 ^ 20 + f / 2 ^ 32) mod 2 ^ 20 = f / 2 ^ 32) as ->.
  { rewrite Z.add_comm, Z.mod_add, Z.mod_small by lia. done. }
  rewrite (Z.mod_small (_ + _)) by lia.
  assert (Z.shiftr (ef * 2 ^ 20 + f / 2 ^ 32) 20 = ef) as ->.
  { rewrite Z.shiftr_div_pow2, Z.add_comm, Z.div_add, Z.div_small by lia. lia. }
  set (z := if ef =? 0 then f / 2 ^ 32 else Z.lor (f / 2 ^ 32) Exp_msk1).
  pose proof (Z.div_mod f (2 ^ 32) ltac:(lia)) as Hdm. pose proof (Z.mod_pos_bound f (2 ^ 32) ltac:(lia)).
  assert (0 ≤ z < 2 ^ 21 ∧ z * 2 ^ 32 + f mod 2 ^ 32 = Z.pos m) as [Hzr Hzm].
  { unfold z, f, field_f in *. destruct (Z.eqb_spec ef 0) as [H0|H0].
    - rewrite (proj2 (Z.ltb_lt _ _) (proj1 Hz H0)) in *. lia.
    - assert ((Z.pos m <? 2 ^ 52) = false) as Hlt by (apply Z.ltb_ge; lia). rewrite Hlt in *.
      set (g := (Z.pos m - 2 ^ 52) / 2 ^ 32) in *.
      assert (Z.lor g Exp_msk1 = g + 2 ^ 20) as ->; [|lia].
      rewrite Z.lor_comm. change Exp_msk1 with (Z.shiftl 1 20). rewrite lor_shiftl_add by lia. lia. }
  destruct (x b) as [|c0 [|c1 [|? ?]]] eqn:Hx; cbn [length] in Hl; try lia.
  rewrite Hw1. apply run_lift.
  destruct (mantissa_words c0 c1 z (f mod 2 ^ 32)) as (ws & rest & kk & -> & Hlen & Hws & Hn & Hk0 & Hval);
    [done|unfold word_ok; done|lia|]. apply returns_done.
  assert (holds (set_wds (len ws) (set_x ((Some <$> ws) ++ rest) b)) ws) as Hh by (apply holds_mk; (done || lia)).
  set (b' := set_wds _ _) in *.
  assert (big b' (value ws)) as Hbig by (by exists ws).
  rewrite Hzm in Hval. pose proof (Z.pow_pos_nonneg 2 kk ltac:(lia) Hk0).
  pose proof (normal_pos ws Hws Hn) as Hpos.
  assert (Z.log2 (Z.pos m) = Z.log2 (value ws) + kk) as Hlog by (rewrite <- Hval, Z.log2_mul_pow2 by lia; lia).
  destruct (Z.eqb_spec ef 0) as [Hef0|Hef0].
  - apply run_lift. destruct (bits_of_value ws Hws Hn) as (top & Htop & Hbits).
    assert (rdw (E:=E) (x b') (len ws - 1) = Done top) as ->.
    { pose proof (normal_nonnil ws Hn). cbn [x b' set_wds set_x]. unfold rdw, rd in *.
      by rewrite zget_app_l by (rewrite length_fmap; lia). }
    apply returns_done, run_ret; [done|]. exists (value ws). split; [done|].
    rewrite He0 by done. unfold Bias, P. split; [lia|]. split; [|split; [lia|done]].
    replace (ef - 1023 - (53 - 1) + 1 + kk - -1074) with kk by lia. done.
  - apply run_ret; [done|]. exists (value ws). split; [done|]. unfold Bias, P.
    split; [lia|]. split; [|split; [|done]].
    + replace (ef - 1023 - (53 - 1) + kk - e) with kk by lia. done.
    + assert (Z.log2 (Z.pos m) = 52) as Hl52; [|lia].
      destruct (double_ok_mantissa _ _ _ Hok) as (_ & _ & Hm53).
      apply Z.log2_unique; [lia|]. change (Z.succ 52) with 53. lia.
Qed.
End d2b.
End DtoaWords.
