(* ===== verification/DtoaEstimate.v ===== *)
(** * dtoa.c: the estimate of the decimal exponent

    [dtoa] computes [floor (log10 u)] from a line above the logarithm. The line grows with
    the double, so that it is enough to look at the powers of 10: a computation on
    intervals of 64 bits checks each of them. The floating-point errors are bounded once. *)
From Stdlib Require Import Reals Lra.
From S2P Require Import Prelude Libc Double DoubleSpec Bigint BigintSpec BigintOps Dtoa FloatSpec FloatOps DtoaWords.

Module DtoaEstimate.
Import Double DoubleSpec Bigint BigintSpec BigintOps Dtoa FloatSpec FloatOps DtoaWords.

(** ** The line *)
(** Its constants, scaled by 2^60. *)
Definition scaled_constant (d : double) : Z :=
  match d with S754_finite _ m e => Z.pos m * 2 ^ (60 + e) | _ => 0 end.
Definition C1 : Z := Eval vm_compute in scaled_constant c_0_289.
Definition C2 : Z := Eval vm_compute in scaled_constant c_0_176.
Definition C3 : Z := Eval vm_compute in scaled_constant c_0_301.

Definition line (x : R) (i : Z) : R := (((x - 3 / 2) * IZR C1 + IZR C2 + IZR i * IZR C3) / IZR (2 ^ 60))%R.

(** The error of the arithmetic, scaled by 2^60, and that of a mantissa of 32 bits for the
    smallest numbers. *)
Definition err : Z := 2 ^ 17.
Definition cut (i : Z) : Z := if i <? -1022 then 2 ^ 29 else 0.

(** ** The powers of 10 *)
(** [10^n] is between [lo * 2^e] and [hi * 2^e]. *)
Definition enclosed (n : Z) (st : Z * Z * Z) : Prop :=
  let '(lo, hi, e) := st in (IZR lo * pow2 e <= pow10 n <= IZR hi * pow2 e)%R ∧ 0 < lo.

Definition step_up (st : Z * Z * Z) : Z * Z * Z :=
  let '(lo, hi, e) := st in
  let s := if lo * 10 <? 2 ^ 67 then 3 else 4 in
  (lo * 10 / 2 ^ s, hi * 10 / 2 ^ s + 1, e + s).
Definition step_down (st : Z * Z * Z) : Z * Z * Z :=
  let '(lo, hi, e) := st in
  let s := if lo * 8 <? 10 * 2 ^ 63 then 4 else 3 in
  (lo * 2 ^ s / 10, hi * 2 ^ s / 10 + 1, e - s).

(** The line at [a * 2^-63], times 2^124. *)
Definition line_at (a i : Z) : Z := (2 * a - 3 * 2 ^ 63) * C1 + 2 ^ 64 * (C2 + i * C3).

(** A little below [10^n] the line is at [n] or above; below [7/8 * 10^n] it is below [n]. *)
Definition check_power (n : Z) (st : Z * Z * Z) : bool :=
  let '(lo, hi, e) := st in
  let i := e + 63 in
  let a := lo - lo / 2 ^ 46 - 1 in
  let '(a', i') := if hi * 7 <? 2 ^ 66 then (hi * 7 / 4 + 1, i - 1) else (hi * 7 / 8 + 1, i) in
  (2 ^ 63 <=? a) && (hi <? 2 ^ 64) && (2 ^ 63 <=? a') && (a' <? 2 ^ 64) &&
  (2 ^ 64 * (n * 2 ^ 60 + err + cut i) <=? line_at a i) &&
  (line_at a' i' + 2 ^ 64 * err <? 2 ^ 64 * (n * 2 ^ 60)).

Fixpoint check_from (step : Z * Z * Z → Z * Z * Z) (d : Z) (fuel : nat) (n : Z) (st : Z * Z * Z) : bool :=
  match fuel with
  | O => true
  | S fuel' =>
      let st := step st in
      check_power (n + d) st && check_from step d fuel' (n + d) st
  end.

Definition one : Z * Z * Z := (2 ^ 63, 2 ^ 63, -63).
Lemma up_checked : check_from step_up 1 312 0 one = true.
Proof. vm_compute. reflexivity. Qed.
Lemma down_checked : check_from step_down (-1) 330 0 one = true.
Proof. vm_compute. reflexivity. Qed.

Lemma IZR_div_bounds a b : 0 < b → (IZR (a / b) * IZR b <= IZR a < (IZR (a / b) + 1) * IZR b)%R.
Proof.
  intros Hb. pose proof (Z.div_mod a b ltac:(lia)). pose proof (Z.mod_pos_bound a b Hb).
  rewrite <- plus_IZR, <- !mult_IZR. split; [apply IZR_le|apply IZR_lt]; lia.
Qed.

(** A step multiplies the bounds by [num / den] and the power by [num / den * 2^-d]. *)
Lemma enclosed_scale lo hi e n n' num den d :
  0 < num → 0 < den → 0 < lo * num / den →
  (pow10 n' * IZR den = pow10 n * IZR num * pow2 d)%R →
  enclosed n (lo, hi, e) → enclosed n' (lo * num / den, hi * num / den + 1, e + d).
Proof.
  intros Hnum Hden Hpos Hstep [[Hlo Hhi] Hlo0]. split; [|done].
  pose proof (IZR_div_bounds (lo * num) den Hden) as [H1 _]. pose proof (IZR_div_bounds (hi * num) den Hden) as [_ H2].
  rewrite mult_IZR in H1, H2. pose proof (pow2_pos e). pose proof (pow2_pos d).
  assert (0 < IZR num)%R by (by apply IZR_lt). assert (0 < IZR den)%R by (by apply IZR_lt).
  rewrite plus_IZR, pow2_add. set (t := IZR (lo * num / den)) in *. set (t' := IZR (hi * num / den)) in *.
  assert (0 < IZR num * pow2 d)%R by (by apply Rmult_lt_0_compat).
  assert (0 < pow2 e * pow2 d)%R by (by apply Rmult_lt_0_compat).
  split; apply (Rmult_le_reg_r (IZR den)); try done.
  - rewrite Hstep. apply Rle_trans with (IZR lo * IZR num * (pow2 e * pow2 d))%R; [|nra].
    replace (t * (pow2 e * pow2 d) * IZR den)%R with (t * IZR den * (pow2 e * pow2 d))%R by ring. nra.
  - rewrite Hstep. apply Rle_trans with (IZR hi * IZR num * (pow2 e * pow2 d))%R; [nra|].
    replace ((t' + 1) * (pow2 e * pow2 d) * IZR den)%R with ((t' + 1) * IZR den * (pow2 e * pow2 d))%R by ring. nra.
Qed.

Lemma step_up_ok n st : enclosed n st → 2 ^ 63 ≤ st.1.1 → enclosed (n + 1) (step_up st).
Proof.
  destruct st as [[lo hi] e]. cbn [fst]. intros He Hlo. unfold step_up.
  assert (∀ s, 3 ≤ s ≤ 4 → enclosed (n + 1) (lo * 10 / 2 ^ s, hi * 10 / 2 ^ s + 1, e + s)) as Hs.
  { intros s Hs. apply (enclosed_scale lo hi e n); [lia|lia| |
      by rewrite pow10_S, <- pow2_IZR by lia; lra|exact He].
    apply Z.div_str_pos. assert (2 ^ s ≤ 2 ^ 4) by (apply Z.pow_le_mono_r; lia). lia. }
  destruct (lo * 10 <? 2 ^ 67); apply Hs; lia.
Qed.

Lemma step_down_ok n st : enclosed n st → 2 ^ 63 ≤ st.1.1 → enclosed (n + -1) (step_down st).
Proof.
  destruct st as [[lo hi] e]. cbn [fst]. intros He Hlo. unfold step_down.
  assert (∀ s, 3 ≤ s ≤ 4 → enclosed (n + -1) (lo * 2 ^ s / 10, hi * 2 ^ s / 10 + 1, e - s)) as Hs.
  { intros s Hs. pose proof (Z.pow_le_mono_r 2 3 s ltac:(lia) ltac:(lia)).
    apply (enclosed_scale lo hi e n _ _ _ (- s)); [lia|lia|apply Z.div_str_pos; nia| |exact He].
    rewrite <- (pow2_IZR s), Rmult_assoc, pow2_neg by lia.
    replace n with (n + -1 + 1) at 2 by lia. rewrite pow10_S. lra. }
  destruct (lo * 8 <? 10 * 2 ^ 63); apply Hs; lia.
Qed.

Lemma check_power_low n st : enclosed n st → check_power n st = true → 2 ^ 63 ≤ st.1.1.
Proof.
  destruct st as [[lo hi] e]. cbn [fst]. intros [_ Hlo0] Hp. unfold check_power in Hp.
  destruct (if hi * 7 <? 2 ^ 66 then _ else _) as [a' i']. rewrite !andb_true_iff in Hp.
  pose proof (Z.div_pos lo (2 ^ 46)) as Hd. lia.
Qed.

Lemma check_from_ok step d :
  (∀ n st, enclosed n st → 2 ^ 63 ≤ st.1.1 → enclosed (n + d) (step st)) →
  ∀ fuel n st, enclosed n st → 2 ^ 63 ≤ st.1.1 → check_from step d fuel n st = true →
  ∀ j, 0 < j ≤ Z.of_nat fuel → ∃ st', enclosed (n + d * j) st' ∧ check_power (n + d * j) st' = true.
Proof.
  intros Hstep. induction fuel as [|fuel IH]; intros n st Hst Hlo Hc j Hj; [lia|].
  cbn [check_from] in Hc. apply andb_prop in Hc as [Hp Hc]. specialize (Hstep n st Hst Hlo).
  destruct (decide (j = 1)) as [->|Hj1]; [exists (step st); by rewrite Z.mul_1_r|].
  destruct (IH (n + d) (step st) Hstep) with (j := j - 1) as (st' & Hst'); [|done|lia|].
  - by apply (check_power_low (n + d)).
  - exists st'. by replace (n + d + d * (j - 1)) with (n + d * j) in Hst' by lia.
Qed.

(** ** The line and the powers of 10 *)
(** The line as it is computed, for the double [x * 2^i]. *)
Definition good_power (n : Z) : Prop :=
  ∀ x i, (1 <= x < 2)%R →
    ((pow10 n * (1 - pow2 (-46)) <= x * pow2 i)%R → (IZR n + IZR (err + cut i) / IZR (2 ^ 60) <= line x i)%R) ∧
    ((x * pow2 i < 7 / 8 * pow10 n)%R → (line x i + IZR err / IZR (2 ^ 60) < IZR n)%R).

Lemma line_mono x x' i i' :
  (1 <= x < 2)%R → (1 <= x' < 2)%R → (x * pow2 i <= x' * pow2 i')%R → (line x i <= line x' i')%R ∧ i ≤ i'.
Proof.
  intros Hx Hx' Hle. assert (i ≤ i') as Hi.
  { destruct (decide (i ≤ i')) as [|Hi]; [done|]. pose proof (pow2_le (i' + 1) i ltac:(lia)) as H.
    rewrite pow2_S in H. pose proof (pow2_pos i'). nra. }
  split; [|done]. unfold line. apply Rmult_le_compat_r; [left; apply Rinv_0_lt_compat; by apply IZR_lt|].
  assert (0 < IZR C1)%R by (by apply IZR_lt). destruct (decide (i = i')) as [->|Hne].
  - pose proof (pow2_pos i'). assert (x <= x')%R by (apply Rmult_le_reg_r with (pow2 i'); done). nra.
  - assert (IZR i + 1 <= IZR i')%R by (rewrite <- plus_IZR; apply IZR_le; lia).
    assert (IZR C1 <= IZR C3)%R by (by apply IZR_le). nra.
Qed.

Lemma line_at_ok a i : line (IZR a * pow2 (-63)) i = (IZR (line_at a i) / IZR (2 ^ 124))%R.
Proof.
  unfold line, line_at. rewrite plus_IZR, !mult_IZR, minus_IZR, plus_IZR, !mult_IZR.
  replace (IZR (2 ^ 124)) with (2 * IZR (2 ^ 63) * IZR (2 ^ 60))%R by (rewrite <- !mult_IZR; f_equal; lia).
  replace (IZR (2 ^ 64)) with (2 * IZR (2 ^ 63))%R by (rewrite <- !mult_IZR; f_equal; lia).
  assert (pow2 (-63) = / IZR (2 ^ 63))%R as ->.
  { rewrite <- pow2_IZR by lia. pose proof (pow2_neg 63) as H. change (- (63)) with (-63) in H.
    pose proof (pow2_pos 63). apply Rmult_eq_reg_l with (pow2 63); [|lra]. rewrite H. field. lra. }
  assert (0 < IZR (2 ^ 63))%R by (by apply IZR_lt). assert (0 < IZR (2 ^ 60))%R by (by apply IZR_lt).
  field. lra.
Qed.

Lemma unit_point a e : 2 ^ 63 ≤ a < 2 ^ 64 →
  (1 <= IZR a * pow2 (-63) < 2)%R ∧ (IZR a * pow2 (-63) * pow2 (e + 63) = IZR a * pow2 e)%R.
Proof.
  intros [H1 H2]. apply IZR_le in H1. apply IZR_lt in H2. rewrite <- pow2_IZR in H1, H2 by lia.
  pose proof (pow2_neg 63) as Hn. change (- (63)) with (-63) in Hn. pose proof (pow2_pos (-63)).
  pose proof (pow2_pos 63). change 64 with (63 + 1) in H2. rewrite pow2_S in H2.
  split; [split; nra|]. rewrite Rmult_assoc, <- pow2_add. do 2 f_equal. lia.
Qed.

Section check.
Context (n lo hi e : Z) (Hlo : (IZR lo * pow2 e <= pow10 n)%R) (Hhi : (pow10 n <= IZR hi * pow2 e)%R).
Context (Hlo0 : 0 < lo).
Local Abbreviation A := (IZR (2 ^ 64)).
Local Abbreviation B := (IZR (2 ^ 60)).

Lemma scales : IZR (2 ^ 124) = (A * B)%R ∧ (0 < A)%R ∧ (0 < B)%R.
Proof. split; [by rewrite <- mult_IZR|]. by split; apply IZR_lt. Qed.

Lemma check_low x i :
  (1 <= x < 2)%R → 2 ^ 63 ≤ lo - lo / 2 ^ 46 - 1 → lo < 2 ^ 64 →
  2 ^ 64 * (n * 2 ^ 60 + err + cut (e + 63)) ≤ line_at (lo - lo / 2 ^ 46 - 1) (e + 63) →
  (pow10 n * (1 - pow2 (-46)) <= x * pow2 i)%R → (IZR n + IZR (err + cut i) / B <= line x i)%R.
Proof.
  intros Hx Ha Hlt Hc Hp. set (a := lo - lo / 2 ^ 46 - 1) in *. pose proof (pow2_pos e).
  pose proof (Z.div_pos lo (2 ^ 46) ltac:(lia) ltac:(lia)).
  destruct (unit_point a e ltac:(lia)) as [Hua Hea]. apply IZR_le in Hc. rewrite mult_IZR, !plus_IZR, mult_IZR in Hc.
  pose proof (line_at_ok a (e + 63)) as Hla. set (la := IZR (line_at a (e + 63))) in *.
  destruct scales as (H124 & H64 & H60).
  assert (IZR a * pow2 e <= x * pow2 i)%R as Hle.
  { eapply Rle_trans; [|exact Hp]. unfold a. rewrite !minus_IZR.
    pose proof (IZR_div_bounds lo (2 ^ 46) ltac:(lia)) as [_ Hd].
    assert (IZR (2 ^ 46) * pow2 (-46) = 1)%R as H46 by (rewrite <- pow2_IZR by lia; apply pow2_neg).
    pose proof (pow2_pos (-46)). set (d := IZR (lo / 2 ^ 46)) in *. set (p46 := pow2 (-46)) in *.
    assert (IZR lo * p46 <= d + 1)%R by nra.
    assert (p46 <= 1)%R by (pose proof (pow2_le (-46) 0 ltac:(lia)) as Hp46; change (pow2 0) with 1%R in Hp46; exact Hp46).
    assert (IZR lo * pow2 e * (1 - p46) <= pow10 n * (1 - p46))%R by nra. nra. }
  rewrite <- Hea in Hle. destruct (line_mono _ _ _ _ Hua Hx Hle) as [Hl Hi].
  assert (cut i ≤ cut (e + 63)) as Hcut by (unfold cut; destruct (Z.ltb_spec i (-1022)), (Z.ltb_spec (e + 63) (-1022)); lia).
  apply IZR_le in Hcut. rewrite plus_IZR. apply Rle_trans with (la / IZR (2 ^ 124))%R; [|lra].
  rewrite H124. apply Rmult_le_reg_r with (A * B)%R; [nra|].
  replace (la / (A * B) * (A * B))%R with la by (field; lra).
  replace ((IZR n + (IZR err + IZR (cut i)) / B) * (A * B))%R with (A * (IZR n * B + IZR err + IZR (cut i)))%R by (field; lra).
  nra.
Qed.

Lemma check_high x i a i' :
  (1 <= x < 2)%R → 2 ^ 63 ≤ a < 2 ^ 64 → (7 / 8 * IZR hi * pow2 63 * pow2 e <= IZR a * pow2 i')%R →
  line_at a i' + 2 ^ 64 * err < 2 ^ 64 * (n * 2 ^ 60) →
  (x * pow2 i < 7 / 8 * pow10 n)%R → (line x i + IZR err / B < IZR n)%R.
Proof.
  intros Hx Ha Hle Hc Hp. destruct (unit_point a (i' - 63) Ha) as [Hua Hea]. replace (i' - 63 + 63) with i' in Hea by lia.
  apply IZR_lt in Hc. rewrite plus_IZR, !mult_IZR in Hc.
  pose proof (line_at_ok a i') as Hla. set (la := IZR (line_at a i')) in *. destruct scales as (H124 & H64 & H60).
  assert (x * pow2 i <= IZR a * pow2 (-63) * pow2 i')%R as Hmono.
  { pose proof (pow2_neg 63) as Hn. change (- (63)) with (-63) in Hn. pose proof (pow2_pos (-63)).
    apply Rle_trans with (7 / 8 * IZR hi * pow2 e)%R; [lra|].
    replace (7 / 8 * IZR hi * pow2 e)%R with (7 / 8 * IZR hi * pow2 63 * pow2 e * pow2 (-63))%R by
      (transitivity (7 / 8 * IZR hi * pow2 e * (pow2 63 * pow2 (-63)))%R; [ring|rewrite Hn; ring]).
    replace (IZR a * pow2 (-63) * pow2 i')%R with (IZR a * pow2 i' * pow2 (-63))%R by ring.
    apply Rmult_le_compat_r; lra. }
  destruct (line_mono _ _ _ _ Hx Hua Hmono) as [Hl _].
  apply Rle_lt_trans with (la / IZR (2 ^ 124) + IZR err / B)%R; [lra|].
  rewrite H124. apply Rmult_lt_reg_r with (A * B)%R; [nra|].
  replace ((la / (A * B) + IZR err / B) * (A * B))%R with (la + A * IZR err)%R by (field; lra). nra.
Qed.
End check.

Lemma check_power_ok n st : enclosed n st → check_power n st = true → good_power n.
Proof.
  destruct st as [[lo hi] e]. intros [[Hlo Hhi] Hlo0] Hc. unfold check_power in Hc.
  pose proof (pow2_pos e) as He. assert (lo ≤ hi) as Hlh by (apply le_IZR; nra).
  set (q := if hi * 7 <? 2 ^ 66 then _ else _) in Hc.
  assert (7 / 8 * IZR hi * pow2 63 * pow2 e <= IZR q.1 * pow2 q.2)%R as Hq.
  { assert (∀ d k, 0 < d → (pow2 (e + 63) = / 8 * IZR d * 8 * pow2 (e + 63 - k))%R → d = 2 ^ k ∨ True →
      (7 / 8 * IZR hi * pow2 63 * pow2 e <= IZR (hi * 7 / (8 / d) + 1) * pow2 (e + 63 - k))%R → True) as _ by done.
    assert (∀ den i', 0 < den → (pow2 (e + 63) * IZR den = 8 * pow2 i')%R →
      (7 / 8 * IZR hi * pow2 63 * pow2 e <= IZR (hi * 7 / den + 1) * pow2 i')%R) as H.
    { intros den i' Hden Hp. pose proof (IZR_div_bounds (hi * 7) den Hden) as [_ Hd]. rewrite mult_IZR in Hd.
      rewrite plus_IZR. set (t := IZR (hi * 7 / den)) in *. pose proof (pow2_pos (e + 63)) as Hp63. rewrite pow2_add in Hp, Hp63.
      apply IZR_lt in Hden. apply Rmult_le_reg_r with (IZR den); [done|].
      replace (7 / 8 * IZR hi * pow2 63 * pow2 e * IZR den)%R with (7 / 8 * IZR hi * (pow2 e * pow2 63 * IZR den))%R by ring.
      rewrite Hp. pose proof (pow2_pos i'). nra. }
    unfold q. destruct (hi * 7 <? 2 ^ 66); cbn [fst snd]; apply H; try lia.
    - replace (e + 63) with (e + 63 - 1 + 1) by lia. rewrite pow2_S. replace (e + 63 - 1 + 1 - 1) with (e + 63 - 1) by lia. lra.
    - lra. }
  destruct q as [a i']. cbn [fst snd] in Hq. rewrite !andb_true_iff, !Z.leb_le, !Z.ltb_lt in Hc.
  destruct Hc as [[[[[Ha Hh] Ha1] Ha2] Hc1] Hc2]. intros x i Hx. split.
  - by apply (check_low n lo e Hlo Hlo0); [..|lia|].
  - by apply (check_high n hi e Hhi x i a i').
Qed.

Lemma good_power_0 : good_power 0.
Proof.
  intros x i Hx. change (pow10 0) with 1%R.
  assert (pow2 0 = 1)%R as H0 by done. assert (pow2 (-1) = / 2)%R as H1 by apply half_inv.
  split; intros Hp.
  - assert (pow2 (-46) = / 2 ^ 46)%R as H46 by (cbn; f_equal; ring).
    destruct (line_mono (2 - 2 / 2 ^ 46) x (-1) i) as [Hl Hi]; [lra|done|rewrite H1; lra|].
    assert (cut i = 0) as -> by (unfold cut; destruct (Z.ltb_spec i (-1022)); lia).
    eapply Rle_trans; [|exact Hl]. unfold line, C1, C2, C3. change (err + 0) with 131072. change err with 131072. change (2 ^ 60) with 1152921504606846976. lra.
  - destruct (line_mono x (7 / 4) i (-1)) as [Hl Hi]; [done|lra|rewrite H1; lra|].
    eapply Rle_lt_trans; [apply Rplus_le_compat_r, Hl|]. unfold line, C1, C2, C3. change (err + 0) with 131072. change err with 131072. change (2 ^ 60) with 1152921504606846976. lra.
Qed.

Lemma powers_good n : -330 ≤ n ≤ 312 → good_power n.
Proof.
  intros Hn.
  assert (enclosed 0 one) as H1.
  { split; [|lia]. rewrite <- pow2_IZR, <- pow2_add by lia. change (pow10 0) with 1%R. change (pow2 (63 + -63)) with 1%R. lra. }
  destruct (decide (n = 0)) as [->|Hn0]; [apply good_power_0|].
  destruct (decide (0 < n)).
  - destruct (check_from_ok step_up 1 step_up_ok 312 0 one H1 (Z.le_refl (2 ^ 63)) up_checked n) as (st & Hst); [lia|].
    replace (0 + 1 * n) with n in Hst by lia. destruct Hst as [He Hc]. exact (check_power_ok n st He Hc).
  - destruct (check_from_ok step_down (-1) step_down_ok 330 0 one H1 (Z.le_refl (2 ^ 63)) down_checked (- n)) as (st & Hst); [lia|].
    replace (0 + -1 * - n) with n in Hst by lia. destruct Hst as [He Hc]. exact (check_power_ok n st He Hc).
Qed.

(** ** The mantissa *)
Lemma double_ok_finite m e :
  (2 ^ 52 ≤ Z.pos m < 2 ^ 53 ∧ -1074 ≤ e ≤ 971) ∨ (Z.pos m < 2 ^ 52 ∧ e = -1074) → double_ok (S754_finite false m e).
Proof.
  intros Hm. unfold double_ok. cbn [valid_binary]. unfold bounded, canonical_mantissa.
  rewrite fexp_eq. pose proof (digits2_pos_spec m) as [Hlo Hhi].
  assert (Z.pos (digits2_pos m) ≤ 53) as Hd.
  { destruct (decide (Z.pos (digits2_pos m) ≤ 53)) as [|Hd]; [done|].
    pose proof (Z.pow_le_mono_r 2 53 (Z.pos (digits2_pos m) - 1) ltac:(lia) ltac:(lia)). lia. }
  destruct Hm as [[Hm He]|[Hm ->]].
  - assert (52 < Z.pos (digits2_pos m)).
    { apply (Z.pow_lt_mono_r_iff 2); lia. }
    apply andb_true_intro. split; [apply Z.eqb_eq|apply Z.leb_le]; lia.
  - apply andb_true_intro. split; [apply Z.eqb_eq|apply Z.leb_le]; [|lia].
    assert (Z.pos (digits2_pos m) ≤ 52); [|lia].
    destruct (decide (Z.pos (digits2_pos m) ≤ 52)) as [|Hd2]; [done|].
    pose proof (Z.pow_le_mono_r 2 52 (Z.pos (digits2_pos m) - 1) ltac:(lia) ltac:(lia)). lia.
Qed.

(** A new exponent in the upper word. *)
Lemma set_exponent m e w e' :
  2 ^ 52 ≤ Z.pos m → double_ok (S754_finite false m e) → -1074 ≤ e' ≤ 971 →
  u32 w = (e' + 1075) * 2 ^ 20 + field_f m / 2 ^ 32 →
  set_word0 w (S754_finite false m e) = S754_finite false m e' ∧ good (S754_finite false m e').
Proof.
  intros Hm Hok He' Hw. destruct (double_ok_mantissa _ _ _ Hok) as (_ & _ & Hm').
  assert (double_ok (S754_finite false m e')) as Hok' by (apply double_ok_finite; lia).
  split; [|done]. unfold set_word0. destruct (word0_fields false m e Hok) as (_ & -> & _). rewrite Hw.
  rewrite <- (of_bits_bits false m e' Hok'). f_equal. unfold field_e.
  destruct (Z.ltb_spec (Z.pos m) (2 ^ 52)); [lia|].
  pose proof (Z.div_mod (field_f m) (2 ^ 32) ltac:(lia)). lia.
Qed.

Lemma word0_normal m e : 2 ^ 52 ≤ Z.pos m → double_ok (S754_finite false m e) →
  word0 (S754_finite false m e) = (e + 1075) * 2 ^ 20 + field_f m / 2 ^ 32 ∧ 0 ≤ field_f m / 2 ^ 32 < 2 ^ 20.
Proof.
  intros Hm Hok. destruct (word0_fields false m e Hok) as (-> & _ & Hr). split; [|done]. unfold field_e.
  destruct (Z.ltb_spec (Z.pos m) (2 ^ 52)); lia.
Qed.

Lemma shift_exponent m e j :
  2 ^ 52 ≤ Z.pos m → double_ok (S754_finite false m e) → -1074 ≤ e - j → 0 ≤ j →
  set_word0 (word0 (S754_finite false m e) - j * Exp_msk1) (S754_finite false m e) = S754_finite false m (e - j) ∧
  good (S754_finite false m (e - j)).
Proof.
  intros Hm Hok Hj Hj0. destruct (double_ok_mantissa _ _ _ Hok) as (_ & He & _).
  destruct (word0_normal m e Hm Hok) as [-> Hr]. apply set_exponent; [done|done|lia|].
  change Exp_msk1 with (2 ^ 20). rewrite wrap_small; lia.
Qed.

Lemma normal_double d : good d → (pow2 (-1022) <= val d)%R →
  ∃ m e, d = S754_finite false m e ∧ 2 ^ 52 ≤ Z.pos m ∧ double_ok (S754_finite false m e).
Proof.
  intros [Hf Hok] Hv. pose proof (pow2_pos (-1022)). destruct d as [s| | |s m e]; try done; [change (val _) with 0%R in Hv; lra|].
  assert (0 < IZR (Z.pos m) * pow2 e)%R by (apply Rmult_lt_0_compat; [by apply IZR_lt|apply pow2_pos]).
  rewrite val_sign in Hv. destruct s; [lra|]. exists m, e. split; [done|]. split; [|done].
  destruct (double_ok_mantissa _ _ _ Hok) as ([Hm| ->] & _); [done|].
  change (-1022) with (52 + -1074) in Hv. rewrite pow2_add, (pow2_IZR 52) in Hv by lia.
  apply Rmult_le_reg_r in Hv; [by apply le_IZR|apply pow2_pos].
Qed.

(** A double near [x], the mantissa of the argument. *)
Definition near (d2 : double) (x : R) (i : Z) : Prop :=
  good d2 ∧ (1 <= val d2 <= x)%R ∧ (x < 2)%R ∧ (x - IZR (cut i) / IZR (2 ^ 60) <= val d2)%R.

Lemma mantissa_range m : 0 < m → (1 <= IZR m * pow2 (- Z.log2 m) < 2)%R.
Proof.
  intros Hm. destruct (Z.log2_spec m Hm) as [H1 H2]. pose proof (Z.log2_nonneg m).
  apply IZR_le in H1. apply IZR_lt in H2. rewrite <- pow2_IZR in H1, H2 by lia.
  rewrite <- Z.add_1_r, pow2_S in H2. pose proof (pow2_neg (Z.log2 m)). pose proof (pow2_pos (- Z.log2 m)). nra.
Qed.

(** The upper 32 bits of a small mantissa. *)
Lemma upper_bits m :
  0 < m < 2 ^ 52 →
  let i := Z.log2 m + 1 in
  let t := if 32 <? i then Z.lor (u32 (Z.shiftl (m / 2 ^ 32) (64 - i))) (Z.shiftr (m mod 2 ^ 32) (i - 32))
           else u32 (Z.shiftl (m mod 2 ^ 32) (32 - i)) in
  t = if 32 <? i then m / 2 ^ (i - 32) else m * 2 ^ (32 - i).
Proof.
  intros Hm. cbv zeta. set (i := Z.log2 m + 1). pose proof (Z.log2_spec m ltac:(lia)) as [Hlo Hhi].
  change (Z.succ (Z.log2 m)) with (Z.log2 m + 1) in Hhi. fold i in Hhi. pose proof (Z.log2_nonneg m).
  assert (i ≤ 52).
  { destruct (decide (i ≤ 52)) as [|Hi]; [done|].
    pose proof (Z.pow_le_mono_r 2 52 (Z.log2 m) ltac:(lia) ltac:(lia)). lia. }
  destruct (Z.ltb_spec 32 i) as [Hi|Hi].
  - pose proof (Z.div_mod m (2 ^ 32) ltac:(lia)) as Hdm. pose proof (Z.mod_pos_bound m (2 ^ 32) ltac:(lia)) as Hmod.
    assert (2 ^ 32 = 2 ^ (i - 32) * 2 ^ (64 - i)) as H32 by (rewrite <- Z.pow_add_r by lia; f_equal; lia).
    assert (2 ^ i = 2 ^ (i - 32) * 2 ^ 32) as Hp by (rewrite <- Z.pow_add_r by lia; f_equal; lia).
    assert (0 < 2 ^ (i - 32) ∧ 0 < 2 ^ (64 - i)) as [Hp1 Hp2] by (split; apply Z.pow_pos_nonneg; lia).
    assert (0 ≤ m / 2 ^ 32 < 2 ^ (i - 32)).
    { split; [apply Z.div_pos; lia|apply Z.div_lt_upper_bound; lia]. }
    assert (0 ≤ (m mod 2 ^ 32) / 2 ^ (i - 32) < 2 ^ (64 - i)) as Hd.
    { split; [apply Z.div_pos; lia|apply Z.div_lt_upper_bound; lia]. }
    rewrite Z.shiftl_mul_pow2, Z.shiftr_div_pow2 by lia. rewrite wrap_small by nia.
    rewrite <- Z.shiftl_mul_pow2, lor_shiftl_add by lia.
    symmetry. rewrite Hdm at 1. rewrite H32 at 1.
    replace (2 ^ (i - 32) * 2 ^ (64 - i) * (m / 2 ^ 32)) with (m / 2 ^ 32 * 2 ^ (64 - i) * 2 ^ (i - 32)) by ring.
    rewrite Z.div_add_l by lia. lia.
  - assert (2 ^ i ≤ 2 ^ 32) by (apply Z.pow_le_mono_r; lia). rewrite (Z.mod_small m) by lia.
    rewrite Z.shiftl_mul_pow2 by lia. apply wrap_small.
    assert (2 ^ 32 = 2 ^ i * 2 ^ (32 - i)) as H32 by (rewrite <- Z.pow_add_r by lia; f_equal; lia).
    pose proof (Z.pow_pos_nonneg 2 (32 - i)). nia.
Qed.

Lemma mantissa_normal m e be bbits :
  2 ^ 52 ≤ Z.pos m → double_ok (S754_finite false m e) →
  mantissa_of (S754_finite false m e) be bbits = (S754_finite false m (-52), e + 52) ∧ good (S754_finite false m (-52)).
Proof.
  intros Hm Hok. destruct (double_ok_mantissa _ _ _ Hok) as (_ & He & _).
  destruct (word0_normal m e Hm Hok) as [Hw Hr]. unfold mantissa_of.
  assert (Z.land (Z.shiftr (word0 (S754_finite false m e)) 20) 2047 = e + 1075) as ->.
  { change 2047 with (Z.ones 11). rewrite Hw, Z.land_ones, Z.shiftr_div_pow2, Z.add_comm, Z.div_add, Z.div_small, Z.mod_small by lia. lia. }
  destruct (Z.eqb_spec (e + 1075) 0); [lia|].
  destruct (set_exponent m e (Z.lor (Z.land (word0 (S754_finite false m e)) Frac_mask) Exp_11) (-52)) as [-> Hg];
    [done|done|lia| |split; [|exact Hg]; f_equal; unfold Bias; lia].
  change Frac_mask with (Z.ones 20). change Exp_11 with (Z.shiftl 1023 20).
  rewrite Z.land_ones, Hw, Z.add_comm, Z.mod_add, Z.mod_small, Z.lor_comm, lor_shiftl_add, wrap_small by lia. lia.
Qed.

Lemma near_mantissa m i : 2 ^ 52 ≤ Z.pos m < 2 ^ 53 → good (S754_finite false m (-52)) →
  near (S754_finite false m (-52)) (IZR (Z.pos m) * pow2 (- Z.log2 (Z.pos m))) i.
Proof.
  intros Hm Hg. pose proof (mantissa_range (Z.pos m) ltac:(lia)) as Hx.
  assert (Z.log2 (Z.pos m) = 52) as -> by (apply Z.log2_unique; lia).
  assert (Z.log2 (Z.pos m) = 52) as Hl by (apply Z.log2_unique; lia). rewrite Hl in Hx.
  split; [done|]. rewrite val_sign. change (- (52)) with (-52) in *. split; [lra|]. split; [lra|].
  assert (0 <= IZR (cut i) / IZR (2 ^ 60))%R; [|lra].
  apply Rmult_le_pos; [apply IZR_le; unfold cut; destruct (i <? -1022); lia|].
  left. apply Rinv_0_lt_compat. by apply IZR_lt.
Qed.

Lemma upper_bits_range m :
  0 < m → let i := Z.log2 m + 1 in 2 ^ 31 ≤ (if 32 <? i then m / 2 ^ (i - 32) else m * 2 ^ (32 - i)) < 2 ^ 32.
Proof.
  intros Hm i. pose proof (Z.log2_spec m Hm) as [Hl Hh]. change (Z.succ (Z.log2 m)) with i in Hh.
  pose proof (Z.log2_nonneg m). assert (Z.log2 m = i - 1) as Hi by (unfold i; lia). rewrite Hi in *. clearbody i.
  destruct (Z.ltb_spec 32 i) as [Hi'|Hi'].
  - pose proof (Z.pow_pos_nonneg 2 (i - 32) ltac:(lia) ltac:(lia)).
    assert (∀ n, 31 ≤ n → 2 ^ (n + (i - 32)) = 2 ^ n * 2 ^ (i - 32)) as Hp by (intros; rewrite Z.pow_add_r by lia; done).
    split; [apply Z.div_le_lower_bound|apply Z.div_lt_upper_bound]; try done; rewrite Z.mul_comm, <- Hp by lia.
    + by replace (31 + (i - 32)) with (i - 1) by lia.
    + by replace (32 + (i - 32)) with i by lia.
  - pose proof (Z.pow_pos_nonneg 2 (32 - i) ltac:(lia) ltac:(lia)).
    replace (2 ^ 31) with (2 ^ (i - 1) * 2 ^ (32 - i)) by (rewrite <- Z.pow_add_r by lia; f_equal; lia).
    replace (2 ^ 32) with (2 ^ i * 2 ^ (32 - i)) by (rewrite <- Z.pow_add_r by lia; f_equal; lia).
    split; [apply Z.mul_le_mono_nonneg_r|apply Z.mul_lt_mono_pos_r]; lia.
Qed.

Lemma near_upper_bits m t d2 :
  0 < m < 2 ^ 52 → let i := Z.log2 m + 1 in
  t = (if 32 <? i then m / 2 ^ (i - 32) else m * 2 ^ (32 - i)) →
  2 ^ 31 ≤ t → good d2 → val d2 = (IZR t * pow2 (-31))%R → near d2 (IZR m * pow2 (- Z.log2 m)) (Z.log2 m - 1074).
Proof.
  intros Hm i Ht Hlo Hg Hv. pose proof (mantissa_range m ltac:(lia)) as Hx. pose proof (Z.log2_nonneg m).
  assert (Z.log2 m < 52) as Hlog by (apply Z.log2_lt_pow2; lia).
  assert (cut (Z.log2 m - 1074) = 2 ^ 29) as Hcut by (unfold cut; destruct (Z.ltb_spec (Z.log2 m - 1074) (-1022)); lia).
  assert (IZR (2 ^ 29) / IZR (2 ^ 60) = pow2 (-31))%R as H31.
  { by rewrite <- !pow2_IZR, pow2_div by lia. }
  assert (IZR m * pow2 (- Z.log2 m) - pow2 (-31) <= IZR t * pow2 (-31) <= IZR m * pow2 (- Z.log2 m))%R as Hb.
  { rewrite Ht. pose proof (pow2_pos (-31)). destruct (Z.ltb_spec 32 i) as [Hi|Hi].
    - pose proof (IZR_div_bounds m (2 ^ (i - 32)) ltac:(apply Z.pow_pos_nonneg; lia)) as Hd.
      rewrite <- pow2_IZR in Hd by lia. pose proof (pow2_pos (- Z.log2 m)).
      assert (pow2 (-31) = pow2 (i - 32) * pow2 (- Z.log2 m))%R as -> by (rewrite <- pow2_add; f_equal; unfold i; lia). nra.
    - rewrite mult_IZR, <- pow2_IZR, Rmult_assoc, <- pow2_add by lia.
      replace (32 - i + -31) with (- Z.log2 m) by (unfold i; lia). lra. }
  split; [done|]. rewrite Hcut, H31, Hv. split; [|lra]. split; [|lra].
  apply IZR_le in Hlo. rewrite <- pow2_IZR in Hlo by lia. pose proof (pow2_neg 31) as Hn. change (- (31)) with (-31) in Hn.
  pose proof (pow2_pos (-31)). nra.
Qed.

Lemma mantissa_of_spec m e be bbits :
  double_ok (S754_finite false m e) → bbits + be = Z.log2 (Z.pos m) + 1 + e →
  ∃ d2, mantissa_of (S754_finite false m e) be bbits = (d2, Z.log2 (Z.pos m) + e) ∧
    near d2 (IZR (Z.pos m) * pow2 (- Z.log2 (Z.pos m))) (Z.log2 (Z.pos m) + e).
Proof.
  intros Hok Hb. destruct (double_ok_mantissa _ _ _ Hok) as (Hm & He & Hm').
  destruct (decide (2 ^ 52 ≤ Z.pos m)) as [Hn|Hn].
  { destruct (mantissa_normal m e be bbits Hn Hok) as [-> Hg].
    assert (Z.log2 (Z.pos m) = 52) as Hl by (apply Z.log2_unique; lia).
    exists (S754_finite false m (-52)). split; [f_equal; lia|]. by apply near_mantissa. }
  assert (e = -1074) as -> by lia. clear Hm He.
  destruct (word0_fields false m (-1074) Hok) as (Hw0 & Hw1 & _).
  assert (field_e m (-1074) = 0 ∧ field_f m = Z.pos m) as [He Hf].
  { unfold field_e, field_f. destruct (Z.ltb_spec (Z.pos m) (2 ^ 52)); lia. }
  rewrite He, Hf in *. unfold mantissa_of.
  assert (0 ≤ Z.pos m / 2 ^ 32 < 2 ^ 20) as Hr.
  { split; [apply Z.div_pos; lia|apply Z.div_lt_upper_bound; lia]. }
  assert (Z.land (Z.shiftr (word0 (S754_finite false m (-1074))) 20) 2047 = 0) as ->.
  { change 2047 with (Z.ones 11). rewrite Hw0, Z.land_ones, Z.shiftr_div_pow2, Z.div_small, Z.mod_small by lia. lia. }
  change (0 =? 0) with true. cbv iota. replace (bbits + be + (Bias + (P - 1) - 1)) with (Z.log2 (Z.pos m) + 1) by (unfold Bias, P; lia).
  assert (word0 (S754_finite false m (-1074)) = Z.pos m / 2 ^ 32) as -> by lia. rewrite Hw1.
  rewrite (upper_bits (Z.pos m)) by lia. cbv zeta.
  set (t := if 32 <? _ then _ else _).
  pose proof (upper_bits_range (Z.pos m) ltac:(lia)) as Ht. cbv zeta in Ht. fold t in Ht.
  destruct (of_Z_ok t ltac:(lia)) as [Hg Hv].
  destruct (normal_double (of_Z t) Hg) as (mt & et & Heq & Hmt & Hokt).
  { rewrite Hv. apply Rle_trans with (pow2 31); [apply pow2_le; lia|]. rewrite pow2_IZR by lia. apply IZR_le; lia. }
  rewrite Heq. rewrite Heq in Hv.
  assert (-1074 ≤ et - 31) as Het.
  { destruct (double_ok_mantissa _ _ _ Hokt) as (_ & Het & Hmt').
    destruct (decide (-1074 ≤ et - 31)) as [|Hlt]; [done|].
    rewrite val_sign in Hv. apply IZR_lt in Hmt'. rewrite <- pow2_IZR in Hmt' by lia.
    pose proof (pow2_le (53 + et) 0 ltac:(lia)) as Hle. rewrite pow2_add in Hle. change (pow2 0) with 1%R in Hle.
    pose proof (pow2_pos et). pose proof (IZR_le (2 ^ 31) t ltac:(lia)) as Hbig.
    assert (1 < IZR (2 ^ 31))%R by (by apply IZR_lt). nra. }
  destruct (shift_exponent mt et 31 Hmt Hokt Het ltac:(lia)) as [-> Hg2].
  exists (S754_finite false mt (et - 31)). split; [f_equal; unfold Bias, P; lia|].
  replace (Z.log2 (Z.pos m) + -1074) with (Z.log2 (Z.pos m) - 1074) by lia. apply (near_upper_bits (Z.pos m) t); [lia|done|lia|done|].
  rewrite val_sign. rewrite val_sign in Hv. rewrite <- Hv, Rmult_assoc, <- pow2_add. by do 2 f_equal.
Qed.

(** ** The arithmetic *)
Lemma rounds_bound y r B : rounds y r → (Rabs r <= B)%R → (Rabs (val y - r) <= pow2 (-53) * (B + 1))%R.
Proof.
  intros Hr Hb. pose proof (rounds_error y r Hr) as He. pose proof (pow2_le (-1075) (-53) ltac:(lia)).
  pose proof (pow2_pos (-53)). nra.
Qed.

Lemma small_range r B : (Rabs r <= B)%R → (B <= 2 ^ 20)%R → (Rabs r < pow2 1023)%R.
Proof.
  intros H1 H2. apply Rle_lt_trans with (2 ^ 20)%R; [lra|].
  apply Rlt_le_trans with (pow2 21); [|apply pow2_le; lia]. rewrite pow2_IZR by lia. change (2 ^ 21) with 2097152. lra.
Qed.

Lemma constant_val m e :
  - 60 ≤ e ≤ 0 → val (S754_finite false m e) = (IZR (scaled_constant (S754_finite false m e)) / IZR (2 ^ 60))%R.
Proof.
  intros He. cbn [scaled_constant val]. rewrite mult_IZR, <- !pow2_IZR by lia. unfold Rdiv.
  rewrite Rmult_assoc, pow2_inv, <- pow2_add. do 2 f_equal. lia.
Qed.

Lemma constants_ok :
  (good c_0_289 ∧ val c_0_289 = (IZR C1 / IZR (2 ^ 60))%R) ∧ (good c_0_176 ∧ val c_0_176 = (IZR C2 / IZR (2 ^ 60))%R) ∧
  (good c_0_301 ∧ val c_0_301 = (IZR C3 / IZR (2 ^ 60))%R) ∧ (good c_1_5 ∧ val c_1_5 = 3 / 2)%R.
Proof.
  split; [|split; [|split]]; (split; [split; reflexivity|]).
  - apply constant_val. lia.
  - apply constant_val. lia.
  - apply constant_val. lia.
  - unfold c_1_5. rewrite val_sign. change (-52) with (-1 + -51). rewrite pow2_add, half_inv.
    assert (IZR 6755399441055744 * pow2 (-51) = 3)%R; [|lra].
    replace 6755399441055744 with (3 * 2 ^ 51) by lia. rewrite mult_IZR, <- pow2_IZR, Rmult_assoc by lia.
    pose proof (pow2_neg 51) as Hn. change (- (51)) with (-51) in Hn. rewrite Hn. lra.
Qed.

Lemma constants_range :
  (28 / 100 <= IZR C1 / IZR (2 ^ 60) <= 29 / 100)%R ∧ (17 / 100 <= IZR C2 / IZR (2 ^ 60) <= 18 / 100)%R ∧
  (301 / 1000 <= IZR C3 / IZR (2 ^ 60) <= 302 / 1000)%R.
Proof. change (2 ^ 60) with 1152921504606846976. unfold C1, C2, C3. lra. Qed.

Lemma line_split x i :
  line x i = ((x - 3 / 2) * (IZR C1 / IZR (2 ^ 60)) + IZR C2 / IZR (2 ^ 60) + IZR i * (IZR C3 / IZR (2 ^ 60)))%R.
Proof. unfold line, Rdiv. ring. Qed.

Lemma Rabs_le_intro x a : (- a <= x <= a)%R → (Rabs x <= a)%R.
Proof. intros. by apply Rabs_le. Qed.

(** [y] is near [r], which is not large. *)
Lemma close_bound y r d B : (Rabs (y - r) <= d)%R → (Rabs r <= B)%R → (Rabs y <= B + d)%R.
Proof. intros H1 H2. apply Rabs_le_inv in H1, H2. apply Rabs_le_intro. lra. Qed.

Lemma log10_estimate_ok d2 i :
  good d2 → (1 <= val d2 < 2)%R → -1100 ≤ i ≤ 1100 →
  good (log10_estimate d2 i) ∧ (Rabs (val (log10_estimate d2 i) - line (val d2) i) <= IZR err / IZR (2 ^ 60))%R.
Proof.
  intros Hg Hd Hi. destruct constants_ok as ((G1 & V1) & (G2 & V2) & (G3 & V3) & G15 & V15).
  destruct constants_range as (R1 & R2 & R3). destruct (of_Z_ok i ltac:(lia)) as [Gi Vi].
  rewrite line_split. set (c1 := (IZR C1 / IZR (2 ^ 60))%R) in *. set (c2 := (IZR C2 / IZR (2 ^ 60))%R) in *.
  set (c3 := (IZR C3 / IZR (2 ^ 60))%R) in *.
  assert (-1100 <= IZR i <= 1100)%R as HI by (split; apply IZR_le; lia).
  assert (pow2 (-53) <= / 1000000000)%R as Hu.
  { apply Rle_trans with (pow2 (-30)); [apply pow2_le; lia|]. change (-30) with (- (30)). rewrite <- pow2_inv, pow2_IZR by lia.
    apply Rinv_le_contravar; [lra|]. change (2 ^ 30) with 1073741824. lra. }
  pose proof (pow2_pos (-53)). unfold log10_estimate, fadd, fmul, fsub.
  pose proof (fsub_ok d2 c_1_5 Hg G15) as Ha. rewrite V15 in Ha.
  specialize (Ha ltac:(apply (small_range _ 1); [apply Rabs_le_intro; lra|lra])).
  pose proof (rounds_good _ _ Ha) as Ga. apply (rounds_bound _ _ (/ 2)) in Ha; [|apply Rabs_le_intro; lra].
  set (a := SFsub 53 1024 d2 c_1_5) in *. apply Rabs_le_inv in Ha.
  pose proof (fmul_ok a c_0_289 Ga G1) as Hb. rewrite V1 in Hb.
  specialize (Hb ltac:(apply (small_range _ 1); [apply Rabs_le_intro; nra|lra])).
  pose proof (rounds_good _ _ Hb) as Gb. apply (rounds_bound _ _ 1) in Hb; [|apply Rabs_le_intro; nra].
  set (b := SFmul 53 1024 a c_0_289) in *. apply Rabs_le_inv in Hb.
  pose proof (fadd_ok b c_0_176 Gb G2) as Hc. rewrite V2 in Hc.
  specialize (Hc ltac:(apply (small_range _ 2); [apply Rabs_le_intro; nra|lra])).
  pose proof (rounds_good _ _ Hc) as Gc. apply (rounds_bound _ _ 2) in Hc; [|apply Rabs_le_intro; nra].
  set (c := SFadd 53 1024 b c_0_176) in *. apply Rabs_le_inv in Hc.
  pose proof (fmul_ok (of_Z i) c_0_301 Gi G3) as Hdd. rewrite V3, Vi in Hdd.
  specialize (Hdd ltac:(apply (small_range _ 341); [apply Rabs_le_intro; nra|lra])).
  pose proof (rounds_good _ _ Hdd) as Gd. apply (rounds_bound _ _ 341) in Hdd; [|apply Rabs_le_intro; nra].
  set (d := SFmul 53 1024 (of_Z i) c_0_301) in *. apply Rabs_le_inv in Hdd.
  pose proof (fadd_ok c d Gc Gd) as He.
  specialize (He ltac:(apply (small_range _ 344); [apply Rabs_le_intro; nra|lra])).
  pose proof (rounds_good _ _ He) as Ge. apply (rounds_bound _ _ 344) in He; [|apply Rabs_le_intro; nra].
  split; [done|]. set (v := val (SFadd 53 1024 c d)) in *. apply Rabs_le_inv in He.
  assert (IZR err / IZR (2 ^ 60) = pow2 (-53) * 1024)%R as ->.
  { unfold err. rewrite <- !pow2_IZR, pow2_div by lia. change (17 - 60) with (-53 + 10). rewrite pow2_add, (pow2_IZR 10) by lia. done. }
  apply Rabs_le_intro. split; nra.
Qed.

(** ** The conversion to an integer *)
Section conversion.
Context {E : Type}.

Lemma to_Long_spec d :
  good d → (Rabs (val d) < IZR INT_MAX)%R →
  ∃ z, to_Long (E:=E) d = Done z ∧ Z.abs z ≤ INT_MAX ∧
    ((0 <= val d)%R → (IZR z <= val d < IZR z + 1)%R) ∧ ((val d <= 0)%R → (IZR z - 1 < val d <= IZR z)%R).
Proof.
  intros [Hf Hok] Hd. apply Rabs_lt_inv in Hd. destruct d as [s| | |s m e]; try done.
  { exists 0. split; [done|]. split; [done|]. change (val (S754_zero s)) with 0%R. lra. }
  set (z := if 0 <=? e then Z.pos m * 2 ^ e else Z.pos m / 2 ^ (- e)).
  assert (IZR z <= IZR (Z.pos m) * pow2 e < IZR z + 1)%R as Hz.
  { unfold z. destruct (Z.leb_spec 0 e).
    - rewrite mult_IZR, pow2_IZR by lia. lra.
    - pose proof (IZR_div_bounds (Z.pos m) (2 ^ (- e)) ltac:(apply Z.pow_pos_nonneg; lia)) as Hb.
      rewrite <- pow2_IZR in Hb by lia. pose proof (pow2_neg e) as Hn. pose proof (pow2_pos e). pose proof (pow2_pos (- e)).
      set (t := IZR (Z.pos m / 2 ^ (- e))) in *.
      assert (IZR (Z.pos m) * pow2 e * pow2 (- e) = IZR (Z.pos m))%R as Hm by (rewrite Rmult_assoc, Hn; lra).
      split; [apply Rmult_le_reg_r with (pow2 (- e))|apply Rmult_lt_reg_r with (pow2 (- e))]; (done || lra). }
  assert (0 ≤ z) as Hz0.
  { unfold z. destruct (Z.leb_spec 0 e); [pose proof (Z.pow_nonneg 2 e); nia|]. apply Z.div_pos; [lia|]. apply Z.pow_pos_nonneg; lia. }
  rewrite val_sign in *. apply IZR_le in Hz0.
  assert (z ≤ INT_MAX) as Hmax.
  { apply le_IZR. destruct s; lra. }
  exists (if s then - z else z). split; [|split; [destruct s; apply le_IZR in Hz0; lia|]].
  - unfold to_Long. fold z. apply le_IZR in Hz0. apply int_ok. destruct s; unfold INT_MAX in *; lia.
  - destruct s; rewrite ?opp_IZR; split; lra.
Qed.

Lemma floor_int_spec d :
  good d → (Rabs (val d) < 2 ^ 20)%R → ∃ k, floor_int (E:=E) d = Done k ∧ (IZR k <= val d < IZR k + 1)%R.
Proof.
  intros Hg Hd. assert (2 ^ 20 <= IZR (2 ^ 30))%R as H20 by (change (2 ^ 30) with 1073741824; lra).
  destruct (to_Long_spec d Hg) as (z & Hz & Hzb & Hp & Hn).
  { eapply Rlt_le_trans; [exact Hd|]. eapply Rle_trans; [exact H20|]. apply IZR_le. done. }
  unfold floor_int. rewrite Hz. cbn [obind].
  assert (Z.abs z < 2 ^ 53) as Hz53 by (unfold INT_MAX in Hzb; lia).
  destruct (of_Z_ok z Hz53) as [Gz Vz]. destruct (of_Z_ok 0 ltac:(lia)) as [G0 V0].
  eexists. split; [done|]. destruct (SFltb d (of_Z 0)) eqn:Hlt.
  - apply SFltb_ok in Hlt; [|done..]. rewrite V0 in Hlt. specialize (Hn ltac:(lra)). cbn [andb].
    destruct (SFeqb d (of_Z z)) eqn:Heq; cbn [negb].
    + apply SFeqb_ok in Heq; [|done..]. rewrite Vz in Heq. lra.
    + rewrite minus_IZR. assert (val d ≠ IZR z); [|lra].
      intros Hv. rewrite <- Vz in Hv. apply SFeqb_ok in Hv; [congruence|done..].
  - apply SFltb_false in Hlt; [|done..]. rewrite V0 in Hlt. by apply Hp.
Qed.
End conversion.

(** ** The tables *)
Lemma scale_ok m e z : 0 ≤ e ∧ m * 2 ^ e = z ∨ e ≤ 0 ∧ m = z * 2 ^ (- e) → (IZR m * pow2 e = IZR z)%R.
Proof.
  intros [[He <-]|[He ->]]; rewrite mult_IZR, <- pow2_IZR by lia; [done|].
  rewrite Rmult_assoc, (Rmult_comm (pow2 _)), pow2_neg. lra.
Qed.

Definition exact_double (d : double) (z : Z) : bool :=
  match d with
  | S754_finite false m e =>
      valid_binary 53 1024 d &&
      (if 0 <=? e then Z.pos m * 2 ^ e =? z else Z.pos m =? z * 2 ^ (- e))
  | _ => false
  end.

Lemma exact_double_ok d z : exact_double d z = true → good d ∧ val d = IZR z.
Proof.
  destruct d as [| | |[] m e]; try done. intros [Hv Hz]%andb_prop. split; [done|].
  rewrite val_sign. apply scale_ok. destruct (Z.leb_spec 0 e); apply Z.eqb_eq in Hz; [left|right]; lia.
Qed.

Lemma tens_checked : forallb (λ p, exact_double p.2 (10 ^ Z.of_nat p.1)) (zip (seq 0 23) tens) = true.
Proof. vm_compute. reflexivity. Qed.

Lemma tens_ok {E} kk : 0 ≤ kk ≤ 22 → ∃ t, rd (E:=E) tens kk = Done t ∧ good t ∧ val t = pow10 kk.
Proof.
  intros Hk. destruct (lookup_lt_is_Some_2 tens (Z.to_nat kk)) as [t Ht].
  { change (length tens) with 23%nat. lia. }
  exists t. split; [unfold rd, zget; destruct (Z.ltb_spec kk 0); [lia|by rewrite Ht]|].
  rewrite pow10_IZR by lia. apply exact_double_ok.
  pose proof tens_checked as Hc. rewrite forallb_forall in Hc. specialize (Hc (Z.to_nat kk, t)).
  cbn [fst snd] in Hc. rewrite Z2Nat.id in Hc by lia. apply Hc. apply list_elem_of_In.
  apply list_elem_of_lookup. exists (Z.to_nat kk). apply lookup_zip_Some. split; [|done].
  apply lookup_seq. lia.
Qed.

(** ** The estimate *)
(** A smaller double is smaller by an error of rounding. *)
Lemma double_gap u t : good u → good t → (0 < val u < val t)%R → (val u <= val t * (1 - pow2 (-53)))%R.
Proof.
  intros [Hfu Hu] [Hft Ht] [Hpos Hlt].
  destruct u as [| | |su mu eu]; try done; [change (val _) with 0%R in Hpos; lra|].
  destruct t as [| | |st mt et]; try done; [change (val (S754_zero _)) with 0%R in Hlt; lra|].
  assert (∀ m e, 0 < IZR (Z.pos m) * pow2 e)%R as Hmag.
  { intros m e. apply Rmult_lt_0_compat; [by apply IZR_lt|apply pow2_pos]. }
  pose proof (Hmag mu eu). pose proof (Hmag mt et). rewrite !val_sign in *.
  destruct su; [lra|]. destruct st; [lra|].
  destruct (double_ok_mantissa _ _ _ Hu) as (_ & _ & Hmu). destruct (double_ok_mantissa _ _ _ Ht) as (Hmt & _ & Hmt').
  pose proof (pow2_neg 53) as Hn. change (- (53)) with (-53) in Hn. pose proof (pow2_pos (-53)).
  destruct (Z.lt_trichotomy eu et) as [He|[->|He]].
  - destruct Hmt as [Hmt|Hmt]; [|destruct (double_ok_mantissa _ _ _ Hu); lia].
    assert (Z.pos mu ≤ 2 ^ 53 - 1) as Hm by lia. apply IZR_le in Hm. rewrite minus_IZR, <- pow2_IZR in Hm by lia.
    apply IZR_le in Hmt. rewrite <- pow2_IZR in Hmt by lia. pose proof (pow2_pos eu). pose proof (pow2_pos et).
    assert (pow2 53 * pow2 eu <= IZR (Z.pos mt) * pow2 et)%R as Hle.
    { apply Rle_trans with (pow2 52 * pow2 et)%R; [|nra]. rewrite <- !pow2_add. apply pow2_le. lia. }
    apply Rle_trans with ((pow2 53 - 1) * pow2 eu)%R; [nra|].
    replace ((pow2 53 - 1) * pow2 eu)%R with (pow2 53 * pow2 eu * (1 - pow2 (-53)))%R.
    + apply Rmult_le_compat_r; [|done]. pose proof (pow2_le (-53) 0 ltac:(lia)) as Hp53. change (pow2 0) with 1%R in Hp53. lra.
    + replace (pow2 53 * pow2 eu * (1 - pow2 (-53)))%R with ((pow2 53 - pow2 53 * pow2 (-53)) * pow2 eu)%R by ring. by rewrite Hn.
  - pose proof (pow2_pos et) as Hp. apply Rmult_lt_reg_r in Hlt; [|done]. apply lt_IZR in Hlt.
    assert (Z.pos mu ≤ Z.pos mt - 1) as Hm by lia. apply IZR_le in Hm. rewrite minus_IZR in Hm.
    apply IZR_lt in Hmt'. rewrite <- pow2_IZR in Hmt' by lia.
    assert (IZR (Z.pos mt) * pow2 (-53) <= 1)%R by nra.
    replace (IZR (Z.pos mt) * pow2 et * (1 - pow2 (-53)))%R with ((IZR (Z.pos mt) - IZR (Z.pos mt) * pow2 (-53)) * pow2 et)%R by ring. nra.
  - pose proof (magnitude_lt _ _ _ _ Ht Hu He). lra.
Qed.

(** The decimal exponent [k], exact for small numbers; else it can be one too large for a
    number near to [10^k]. *)
Definition estimated (U : R) (kk : Z) (k_check : bool) : Prop :=
  if k_check then (kk < 0 ∨ 22 < kk) ∧ (7 / 8 * pow10 kk <= U < pow10 (kk + 1) * (1 - pow2 (-46)))%R
  else -1 ≤ kk ≤ 22 ∧ (pow10 kk <= U <= pow10 (kk + 1) * (1 - pow2 (-53)))%R.

Lemma floor_estimate x i (d2 : double) (ds : R) kk :
  near d2 x i → -1074 ≤ i ≤ 1023 → (Rabs (ds - line (val d2) i) <= IZR err / IZR (2 ^ 60))%R →
  (IZR kk <= ds < IZR kk + 1)%R →
  (7 / 8 * pow10 kk <= x * pow2 i < pow10 (kk + 1) * (1 - pow2 (-46)))%R ∧ -326 ≤ kk ≤ 310.
Proof.
  intros (Hg & Hd & Hx & Hcut) Hi He Hk. destruct constants_range as (R1 & R2 & R3).
  assert (line x i - IZR (cut i) / IZR (2 ^ 60) <= line (val d2) i <= line x i)%R as Hl by (rewrite !line_split; nra).
  apply Rabs_le_inv in He.
  assert (-1074 <= IZR i <= 1023)%R as HI by (split; apply IZR_le; lia).
  assert (0 <= IZR err / IZR (2 ^ 60) <= / 1000)%R as Herr.
  { change err with 131072. change (2 ^ 60) with 1152921504606846976. lra. }
  assert (0 <= IZR (cut i) / IZR (2 ^ 60) <= / 1000)%R as Hcut0.
  { unfold cut. destruct (i <? -1022); [change (2 ^ 29) with 536870912|]; change (2 ^ 60) with 1152921504606846976; lra. }
  assert (-326 ≤ kk ≤ 310) as Hr.
  { rewrite line_split in Hl at 1. rewrite (line_split x i) in Hl.
    split; [apply Z.lt_succ_r, lt_IZR; rewrite succ_IZR|apply le_IZR]; nra. }
  split; [|done]. destruct (powers_good (kk + 1) ltac:(lia) x i ltac:(lra)) as [Hup _].
  destruct (powers_good kk ltac:(lia) x i ltac:(lra)) as [_ Hlow].
  rewrite plus_IZR in Hup. unfold Rdiv in *. rewrite (plus_IZR err), Rmult_plus_distr_r in Hup.
  split.
  - apply Rnot_lt_le. intros Hlt. specialize (Hlow Hlt). lra.
  - apply Rnot_le_lt. intros Hle. specialize (Hup Hle). lra.
Qed.

Lemma val_mantissa m e :
  (IZR (Z.pos m) * pow2 (- Z.log2 (Z.pos m)) * pow2 (Z.log2 (Z.pos m) + e) = val (S754_finite false m e))%R.
Proof. rewrite Rmult_assoc, <- pow2_add, val_sign. do 2 f_equal. lia. Qed.

Lemma double_exponent m e : double_ok (S754_finite false m e) → -1074 ≤ Z.log2 (Z.pos m) + e ≤ 1023.
Proof.
  intros Hok. destruct (double_ok_mantissa _ _ _ Hok) as (_ & He & Hm).
  pose proof (Z.log2_nonneg (Z.pos m)). assert (Z.log2 (Z.pos m) < 53) by (apply Z.log2_lt_pow2; lia). lia.
Qed.

Lemma estimate_spec {E} m e be bbits :
  double_ok (S754_finite false m e) → bbits + be = Z.log2 (Z.pos m) + 1 + e →
  ∃ kk k_check, estimate (E:=E) (S754_finite false m e) be bbits = Done (kk, Z.log2 (Z.pos m) + e, k_check) ∧
    estimated (val (S754_finite false m e)) kk k_check ∧ -326 ≤ kk ≤ 310.
Proof.
  intros Hok Hb. destruct (mantissa_of_spec m e be bbits Hok Hb) as (d2 & Hm & Hnear).
  pose proof (double_exponent m e Hok) as Hi. set (i := Z.log2 (Z.pos m) + e) in *.
  pose proof Hnear as (Hg & Hd & Hx & _).
  destruct (log10_estimate_ok d2 i Hg ltac:(lra) ltac:(lia)) as [Gs Hs].
  set (ds := log10_estimate d2 i) in *.
  assert (Rabs (val ds) < 2 ^ 20)%R as Hsmall.
  { eapply Rle_lt_trans; [apply (close_bound _ _ _ 1000 Hs)|].
    - destruct constants_range as (R1 & R2 & R3). rewrite line_split.
      assert (-1074 <= IZR i <= 1023)%R by (split; apply IZR_le; lia). apply Rabs_le_intro. nra.
    - change err with 131072. change (2 ^ 60) with 1152921504606846976. lra. }
  destruct (floor_int_spec (E:=E) ds Gs Hsmall) as (kk & Hk & Hfloor).
  destruct (floor_estimate _ i d2 (val ds) kk Hnear Hi Hs Hfloor) as [HU Hr].
  unfold i in HU at 1 2. rewrite val_mantissa in HU. unfold estimate. rewrite Hm. cbv beta iota. fold ds. rewrite Hk. cbn [obind].
  destruct (Z.leb_spec 0 kk); [destruct (Z.leb_spec kk Ten_pmax) as [Hk22|Hk22]|]; unfold Ten_pmax in *; cbn [andb].
  - destruct (tens_ok (E:=E) kk ltac:(lia)) as (t & -> & Gt & Vt). cbn [obind].
    eexists _, false. split; [done|]. split; [|destruct (SFltb _ _); lia]. unfold estimated.
    assert (good (S754_finite false m e)) as Gu by done. set (u := S754_finite false m e) in *.
    destruct (SFltb u t) eqn:Hlt.
    + apply SFltb_ok in Hlt; [|done..]. rewrite Vt in Hlt. split; [lia|]. pose proof (pow10_S (kk - 1)) as H10.
      replace (kk - 1 + 1) with kk in H10 by lia. pose proof (pow10_pos (kk - 1)). split; [lra|].
      replace (kk - 1 + 1) with kk by lia. rewrite <- Vt. apply double_gap; [done..|]. rewrite Vt.
      split; [lra|done].
    + apply SFltb_false in Hlt; [|done..]. rewrite Vt in Hlt. split; [lia|]. split; [done|].
      pose proof (pow2_le (-53) (-46) ltac:(lia)). pose proof (pow10_pos (kk + 1)). nra.
  - exists kk, true. split; [done|]. split; [|done]. split; [by right|done].
  - exists kk, true. split; [done|]. split; [|done]. split; [left; lia|done].
Qed.
(** The estimate of the decimal exponent, a line in doubles through the logarithm, is
    never more than one too large and never too small: when it asks for no check it is the
    exponent of the leading digit, and else the double lies between 7/8 of the power of
    ten it names and the next one, by a margin, so that the one check of the conversion
    corrects it; the cast to [int] does not overflow. *)
Theorem estimate_within_one m e be bbits :
  double_ok (S754_finite false m e) → bbits + be = Z.log2 (Z.pos m) + 1 + e →
  ∃ kk k_check, estimate (E:=Empty_set) (S754_finite false m e) be bbits = Done (kk, Z.log2 (Z.pos m) + e, k_check) ∧
    estimated (val (S754_finite false m e)) kk k_check ∧ -326 ≤ kk ≤ 310.
Proof. apply estimate_spec. Qed.

Lemma estimate_within_one_witness :
  ∃ kk k_check, estimate (E:=Empty_set) (S754_finite false 5404319552844595 (-54)) (-54) 53 = Done (kk, -2, k_check) ∧
    estimated (val (S754_finite false 5404319552844595 (-54))) kk k_check ∧ -326 ≤ kk ≤ 310.
Proof. apply (estimate_within_one 5404319552844595 (-54) (-54) 53); [done|]. vm_compute. reflexivity. Defined.
End DtoaEstimate.
