(* ===== verification/DtoaDigits.v ===== *)
(** * dtoa.c: the digits of a number

    [nearest q r]: the integer [r] is [q] rounded, ties to even. [decimal U P cs kk]: the
    digits [cs], of at most [P], with the decimal exponent [kk] of the first, are those of
    [U] rounded to [P] digits. The text in a block grows by a digit; the last digit is
    raised or the trailing zeros are dropped. *)
From Stdlib Require Import Reals Lra.
From S2P Require Import Prelude Libc Double DoubleSpec Bigint BigintSpec Dtoa FloatSpec.

Module DtoaDigits.
Import Double DoubleSpec Bigint BigintSpec Dtoa FloatSpec.

(** ** Rounding *)
Definition nearest (q : R) (r : Z) : Prop :=
  (Rabs (q - IZR r) <= / 2)%R ∧ ((Rabs (q - IZR r) = / 2)%R → Z.even r = true).

Lemma nearest_unique q r r' : nearest q r → nearest q r' → r = r'.
Proof.
  intros [H1 E1] [H2 E2]. pose proof (Rabs_le_inv _ _ H1). pose proof (Rabs_le_inv _ _ H2).
  assert (IZR r - 1 <= IZR r' <= IZR r + 1)%R as [Ha Hb] by lra.
  rewrite <- minus_IZR in Ha. rewrite <- plus_IZR in Hb. apply le_IZR in Ha, Hb.
  destruct (Z.lt_trichotomy r r') as [Hlt|[?|Hlt]]; [|done|]; exfalso.
  - assert (r' = r + 1) as -> by lia. rewrite plus_IZR in *.
    assert (q = IZR r + / 2)%R as Hq by lra.
    assert (Z.even r = true) by (apply E1; rewrite Rabs_pos_eq; lra).
    assert (Z.even (r + 1) = true) by (apply E2; rewrite Rabs_left; lra).
    rewrite Z.even_add in *. by destruct (Z.even r).
  - assert (r = r' + 1) as -> by lia. rewrite plus_IZR in *.
    assert (q = IZR r' + / 2)%R as Hq by lra.
    assert (Z.even (r' + 1) = true) by (apply E1; rewrite Rabs_left; lra).
    assert (Z.even r' = true) by (apply E2; rewrite Rabs_pos_eq; lra).
    rewrite Z.even_add in *. by destruct (Z.even r').
Qed.

Lemma nearest_exact r : nearest (IZR r) r.
Proof. unfold nearest. rewrite Rminus_diag, Rabs_R0. split; lra. Qed.

Lemma nearest_down q r : (IZR r <= q < IZR r + / 2)%R → nearest q r.
Proof. intros. unfold nearest. rewrite Rabs_pos_eq by lra. split; lra. Qed.
Lemma nearest_up q r : (IZR r + / 2 < q <= IZR r + 1)%R → nearest q (r + 1).
Proof. intros. unfold nearest. rewrite plus_IZR, Rabs_left1 by lra. split; lra. Qed.
Lemma nearest_close q r : (Rabs (q - IZR r) < / 2)%R → nearest q r.
Proof. intros H. split; lra. Qed.
Lemma nearest_tie q r : (q = IZR r + / 2)%R → nearest q (if Z.odd r then r + 1 else r).
Proof.
  intros ->. unfold nearest. destruct (Z.odd r) eqn:Hodd.
  - rewrite plus_IZR, Rabs_left by lra. split; [lra|]. rewrite Z.even_add, <- Z.negb_odd, Hodd. done.
  - rewrite Rabs_pos_eq by lra. split; [lra|]. by rewrite <- Z.negb_odd, Hodd.
Qed.

(** [10^K] is the power of 10 at or below [U]. *)
Definition decade (U : R) (K : Z) : Prop := (pow10 K <= U < pow10 (K + 1))%R.

Lemma decade_unique U K K' : decade U K → decade U K' → K = K'.
Proof.
  intros H H'. unfold decade in *. destruct (Z.lt_trichotomy K K') as [Hlt|[?|Hlt]]; [|done|].
  - pose proof (pow10_le (K + 1) K' ltac:(lia)). lra.
  - pose proof (pow10_le (K' + 1) K ltac:(lia)). lra.
Qed.

(** ** Digits *)
Definition leading (cs : list Z) : Prop := ∃ d ds, cs = d :: ds ∧ 49 ≤ d ≤ 57.
Definition stripped (cs : list Z) : Prop := last cs ≠ Some 48.

Definition decimal (U : R) (P : Z) (cs : list Z) (kk : Z) : Prop :=
  digits_ok cs ∧ leading cs ∧ len cs ≤ P ∧
  ∃ K r, decade U K ∧ nearest (U * pow10 (P - 1 - K)) r ∧ K ≤ kk ∧
    dec_value cs * 10 ^ (P - len cs + (kk - K)) = r.

Lemma dec_value_snoc cs c : dec_value (cs ++ [c]) = dec_value cs * 10 + (c - 48).
Proof. unfold dec_value. by rewrite foldl_app. Qed.

Lemma leading_app cs ds : leading cs → leading (cs ++ ds).
Proof. intros (d & ds' & -> & Hd). by exists d, (ds' ++ ds). Qed.

Lemma leading_head c ds : 49 ≤ c ≤ 57 → leading (c :: ds).
Proof. by exists c, ds. Qed.

Lemma dec_value_range cs : digits_ok cs → 0 ≤ dec_value cs < 10 ^ len cs.
Proof.
  induction cs as [|c cs IH] using rev_ind; [cbn; lia|]. intros [Hcs [Hc _]%Forall_cons]%Forall_app.
  rewrite dec_value_snoc, length_app, Nat2Z.inj_add, Z.pow_add_r by lia. specialize (IH Hcs).
  change (10 ^ len [c]) with 10. lia.
Qed.

Lemma dec_value_leading cs : digits_ok cs → leading cs → 10 ^ (len cs - 1) ≤ dec_value cs.
Proof.
  intros Hcs (d & ds & -> & Hd). induction ds as [|c ds IH] using rev_ind; [cbn; lia|].
  change (d :: ds ++ [c]) with ((d :: ds) ++ [c]) in *. apply Forall_app in Hcs as [Hcs [Hc _]%Forall_cons].
  rewrite dec_value_snoc, length_app. cbn [length] in *. specialize (IH Hcs).
  replace (Z.of_nat (S (length ds) + 1) - 1) with (Z.of_nat (S (length ds)) - 1 + 1) by lia.
  rewrite Z.pow_add_r by lia. lia.
Qed.

Lemma dec_value_zeros cs n : dec_value (cs ++ replicate n 48) = dec_value cs * 10 ^ Z.of_nat n.
Proof.
  revert cs. induction n as [|n IH]; intros cs.
  { rewrite app_nil_r. cbn. lia. }
  cbn [replicate]. change (48 :: replicate n 48) with ([48] ++ replicate n 48).
  rewrite app_assoc, IH, dec_value_snoc, Nat2Z.inj_succ, Z.pow_succ_r by lia. lia.
Qed.

Lemma stripped_snoc cs c : c ≠ 48 → stripped (cs ++ [c]).
Proof. intros Hc. unfold stripped. rewrite last_snoc. by intros [= ->]. Qed.

(** ** Texts *)
(** The text [t] has the digits [cs] up to [s]. *)
Definition text_of (t : list cell) (s : Z) (cs : list Z) : Prop :=
  digits_ok cs ∧ s = len cs ∧ ∃ rest, t = (Some <$> cs) ++ rest.

Lemma digit_range cs c : digits_ok (cs ++ [c]) → 48 ≤ c ≤ 57.
Proof. by intros [_ [Hc _]%Forall_cons]%Forall_app. Qed.

Lemma i8_digit c : 48 ≤ c ≤ 58 → i8 c = c.
Proof. intros. apply swrap_small; [lia|]. change (2 ^ (8 - 1)) with 128. lia. Qed.

Section texts.
Context {E : Type}.

Lemma put_char_at A r rest s c :
  s = len A → 48 ≤ c ≤ 58 → put_char (E:=E) (A ++ r :: rest) s c = Done (A ++ Some c :: rest).
Proof.
  intros -> Hc. unfold put_char. rewrite i8_digit by done.
  rewrite wr_done by (rewrite length_app; cbn [length]; lia).
  unfold zset. by rewrite Nat2Z.id, insert_app_r_alt, Nat.sub_diag by lia.
Qed.

Lemma get_char_at A c rest s : s = len A → get_char (E:=E) (A ++ Some c :: rest) s = Done c.
Proof. apply rdw_mid. Qed.

Lemma put_first r rest c : 48 ≤ c ≤ 58 → put_char (E:=E) (r :: rest) 0 c = Done (Some c :: rest).
Proof. by apply (put_char_at []). Qed.
Lemma get_first c rest : get_char (E:=E) (Some c :: rest) 0 = Done c.
Proof. by apply (get_char_at []). Qed.

Lemma put_char_spec t s cs c :
  text_of t s cs → 48 ≤ c ≤ 57 → s < len t →
  ∃ t', put_char (E:=E) t s c = Done t' ∧ text_of t' (s + 1) (cs ++ [c]) ∧ len t' = len t.
Proof.
  intros (Hcs & -> & rest & ->) Hc Hl. rewrite length_app, length_fmap in Hl.
  destruct rest as [|r rest]; [cbn [length] in Hl; lia|].
  exists ((Some <$> cs) ++ Some c :: rest). split; [apply put_char_at; [by rewrite length_fmap|lia]|].
  split; [|by rewrite !length_app]. split; [by apply Forall_app; split; [|apply Forall_singleton]|].
  split; [rewrite length_app; cbn [length]; lia|]. exists rest.
  by rewrite fmap_app, <- app_assoc.
Qed.

Lemma text_snoc t s cs c :
  text_of t s (cs ++ [c]) → ∃ rest, t = (Some <$> cs) ++ Some c :: rest ∧ s - 1 = len cs ∧ digits_ok cs ∧ 48 ≤ c ≤ 57.
Proof.
  intros (Hcs & -> & rest & ->). exists rest. rewrite fmap_app, <- app_assoc. split; [done|].
  rewrite length_app. cbn [length]. split; [lia|]. split; [by apply Forall_app in Hcs as [? _]|by eapply digit_range].
Qed.

(** Zeros at the end. *)
Lemma strip_loop_spec fuel t s cs :
  text_of t s cs → leading cs → (length cs < fuel)%nat →
  ∃ cs' n, strip_loop (E:=E) fuel t s = Done (len cs') ∧ cs = cs' ++ replicate n 48 ∧
    text_of t (len cs') cs' ∧ leading cs' ∧ stripped cs'.
Proof.
  revert s cs. induction fuel as [|fuel IH]; intros s cs Ht Hl Hf; [lia|]. cbn [strip_loop].
  destruct cs as [|c cs _] using rev_ind; [by destruct Hl as (? & ? & ? & ?)|].
  destruct (text_snoc _ _ _ _ Ht) as (rest & Heq & Hs & Hcs & Hc). rewrite Heq, (get_char_at _ c) by (by rewrite length_fmap).
  cbn [obind]. rewrite <- Heq. destruct (Z.eqb_spec c 48) as [->|Hne].
  - assert (leading cs) as Hl'.
    { destruct Hl as (d & ds & Hd & Hdr). destruct cs as [|c' cs]; [injection Hd as <- <-; lia|].
      injection Hd as <- _. by exists c', cs. }
    destruct (IH (s - 1) cs) as (cs' & n & Hr & -> & Hrest); [|done|rewrite length_app in Hf; cbn [length] in Hf; lia|].
    { split; [done|]. split; [done|]. rewrite Heq. by eexists. }
    exists cs', (S n). split; [exact Hr|]. split; [|exact Hrest].
    by rewrite <- app_assoc, replicate_S_end.
  - exists (cs ++ [c]), O. rewrite app_nil_r. destruct Ht as (Ht1 & Ht2 & Ht3). rewrite <- Ht2. repeat split; try done.
    by apply stripped_snoc.
Qed.

(** The digits [cs'] are one more than [cs]; [d] more places before the point. *)
Definition raised (cs cs' : list Z) (d : Z) : Prop :=
  leading cs' ∧ stripped cs' ∧ len cs' ≤ len cs ∧ 0 ≤ d ∧ dec_value cs' * 10 ^ (len cs - len cs' + d) = dec_value cs + 1.

Lemma raised_last cs c : leading (cs ++ [c]) → 48 ≤ c < 57 → raised (cs ++ [c]) (cs ++ [c + 1]) 0.
Proof.
  intros Hl Hc. split.
  { destruct Hl as (d & ds & Heq & Hd). destruct cs as [|c' cs]; cbn [app] in *.
    - injection Heq as <- <-. apply leading_head. lia.
    - injection Heq as <- <-. by apply leading_head. }
  split; [apply stripped_snoc; lia|]. rewrite !length_app. cbn [length]. split; [lia|]. split; [lia|].
  rewrite Z.sub_diag. change (10 ^ (0 + 0)) with 1. rewrite !dec_value_snoc. lia.
Qed.

Lemma raised_nine cs cs' d : raised cs cs' d → raised (cs ++ [57]) cs' d.
Proof.
  intros (Hl & Hs & Hlen & Hd & Hv). split; [done|]. split; [done|]. rewrite length_app. cbn [length].
  split; [lia|]. split; [done|]. rewrite dec_value_snoc.
  replace (Z.of_nat (length cs + 1) - len cs' + d) with (len cs - len cs' + d + 1) by lia.
  rewrite Z.pow_add_r by lia. lia.
Qed.

Lemma raised_first : raised [57] [49] 1.
Proof. split; [apply leading_head; lia|]. split; [done|]. by vm_compute. Qed.

(** What both loops that raise the last digit do. *)
Definition raises (o : outcome E (list cell * Z * Z)) (t : list cell) (cs : list Z) (kk : Z) : Prop :=
  ∃ t' cs' kk', o = Done (t', len cs', kk') ∧ text_of t' (len cs') cs' ∧ len t' = len t ∧ raised cs cs' (kk' - kk).

Lemma leading_prefix cs c : cs ≠ [] → leading (cs ++ [c]) → leading cs.
Proof.
  intros Hne (d & ds & Heq & Hd). destruct cs as [|c' cs]; [done|]. injection Heq as <- _. by apply leading_head.
Qed.

Lemma raises_last t s cs c kk rest :
  t = (Some <$> cs) ++ Some c :: rest → s - 1 = len cs → digits_ok cs → leading (cs ++ [c]) → 48 ≤ c < 57 →
  raises (let! t := put_char t (s - 1) (c + 1) in Done (t, s - 1 + 1, kk)) t (cs ++ [c]) kk.
Proof.
  intros -> Hs Hcs Hl Hc. rewrite put_char_at by (rewrite ?length_fmap; lia). cbn [obind].
  eexists _, (cs ++ [c + 1]), kk. split; [rewrite length_app; cbn [length]; do 3 f_equal; lia|].
  split; [|split; [by rewrite !length_app|rewrite Z.sub_diag; by apply raised_last]].
  split; [apply Forall_app; split; [done|]; apply Forall_singleton; lia|]. split; [done|]. exists rest. by rewrite fmap_app, <- app_assoc.
Qed.

Lemma raises_nine o t cs kk : raises o t cs kk → raises o t (cs ++ [57]) kk.
Proof.
  intros (t' & cs' & kk' & Ho & Ht & Hl & Hr). exists t', cs', kk'. do 3 (split; [done|]).
  by apply raised_nine.
Qed.

Lemma raises_first c rest kk :
  raises (Done (Some 49 :: rest, 0 + 1, kk + 1)) (Some c :: rest) [57] kk.
Proof.
  exists (Some 49 :: rest), [49], (kk + 1). split; [done|]. split; [|split; [done|]].
  - split; [apply Forall_singleton; lia|]. split; [done|]. by exists rest.
  - replace (kk + 1 - kk) with 1 by lia. apply raised_first.
Qed.

Lemma roundoff_spec fuel t s cs kk :
  text_of t s cs → leading cs → (length cs ≤ fuel)%nat → raises (roundoff fuel t s kk) t cs kk.
Proof.
  revert s cs. induction fuel as [|fuel IH]; intros s cs Ht Hl Hf;
    (destruct cs as [|c cs _] using rev_ind; [by destruct Hl as (? & ? & ? & ?)|]);
    rewrite length_app in Hf; cbn [length] in Hf; [lia|]. cbn [roundoff].
  destruct (text_snoc _ _ _ _ Ht) as (rest & Heq & Hs & Hcs & Hc). rewrite Heq, (get_char_at _ c) by (by rewrite length_fmap).
  cbn [obind]. destruct (Z.eqb_spec c 57) as [->|Hne]; [|rewrite <- Heq; by apply (raises_last _ _ _ _ _ rest); [..|lia]].
  destruct (Z.eqb_spec (s - 1) 0) as [H0|H0].
  - destruct cs as [|? ?]; [|cbn [length] in Hs; lia]. rewrite H0. cbn [fmap list_fmap app].
    rewrite put_first by lia. cbn [obind]. apply raises_first.
  - rewrite <- Heq. apply raises_nine, IH; [|apply (leading_prefix cs 57); [intros ->; cbn in Hs; lia|done]|lia].
    split; [done|]. split; [done|]. by eexists.
Qed.

Lemma bump_up_spec fuel t s cs kk :
  text_of t s cs → leading cs → (length cs ≤ fuel)%nat → raises (bump_up fuel t s kk) t cs kk.
Proof.
  revert s cs. induction fuel as [|fuel IH]; intros s cs Ht Hl Hf;
    (destruct cs as [|c cs _] using rev_ind; [by destruct Hl as (? & ? & ? & ?)|]);
    rewrite length_app in Hf; cbn [length] in Hf; [lia|]. cbn [bump_up].
  destruct (text_snoc _ _ _ _ Ht) as (rest & Heq & Hs & Hcs & Hc). rewrite Heq, (get_char_at _ c) by (by rewrite length_fmap).
  cbn [obind]. destruct (Z.eqb_spec c 57) as [->|Hne]; [|rewrite <- Heq; by apply (raises_last _ _ _ _ _ rest); [..|lia]].
  destruct (Z.eqb_spec (s - 1) 0) as [H0|H0].
  - destruct cs as [|? ?]; [|cbn [length] in Hs; lia]. rewrite H0. cbn [fmap list_fmap app].
    rewrite put_first by lia. cbn [obind app].
    rewrite get_first. cbn [obind].
    rewrite put_first by lia. cbn [obind]. apply raises_first.
  - rewrite <- Heq. apply raises_nine, IH; [|apply (leading_prefix cs 57); [intros ->; cbn in Hs; lia|done]|lia].
    split; [done|]. split; [done|]. by eexists.
Qed.
End texts.

(** ** From the digits to the rounded number *)
Lemma text_of_app t s cs ds : text_of t s (cs ++ ds) → text_of t (len cs) cs.
Proof.
  intros (Hcs & _ & rest & ->). apply Forall_app in Hcs as [Hcs _]. split; [done|]. split; [done|].
  exists ((Some <$> ds) ++ rest). by rewrite fmap_app, <- app_assoc.
Qed.

Lemma decimal_down U P cs cs' n kk :
  decade U kk → digits_ok cs → len cs = P → nearest (U * pow10 (P - 1 - kk)) (dec_value cs) →
  cs = cs' ++ replicate n 48 → leading cs' → decimal U P cs' kk.
Proof.
  intros HU Hcs Hlen Hn -> Hl. split; [by apply Forall_app in Hcs as [? _]|]. split; [done|].
  rewrite length_app, length_replicate in Hlen. split; [lia|]. eexists kk, _. split; [done|]. split; [exact Hn|].
  split; [lia|]. rewrite dec_value_zeros. do 2 f_equal. lia.
Qed.

Lemma decimal_up U P cs cs' kk kk' :
  decade U kk → len cs = P → nearest (U * pow10 (P - 1 - kk)) (dec_value cs + 1) →
  digits_ok cs' → raised cs cs' (kk' - kk) → decimal U P cs' kk'.
Proof.
  intros HU Hlen Hn Hcs (Hl & Hs & Hlen' & Hk & Hv). do 2 (split; [done|]). split; [lia|].
  eexists kk, _. split; [done|]. split; [exact Hn|]. split; [lia|]. by rewrite <- Hlen.
Qed.

Lemma decimal_exact U P cs kk :
  decade U kk → digits_ok cs → leading cs → len cs ≤ P →
  (U * pow10 (len cs - 1 - kk) = IZR (dec_value cs))%R → decimal U P cs kk.
Proof.
  intros HU Hcs Hl Hlen Hv. do 3 (split; [done|]). eexists kk, _. split; [done|].
  split; [|split; [lia|reflexivity]]. replace (P - len cs + (kk - kk)) with (P - len cs) by lia.
  replace (P - 1 - kk) with (len cs - 1 - kk + (P - len cs)) by lia.
  rewrite tenpow_add, <- Rmult_assoc, Hv, pow10_IZR, <- mult_IZR by lia. apply nearest_exact.
Qed.

(** The integer above the number of digits: a half is rounded to even. *)
Lemma nearest_half q r (up : bool) :
  (IZR r <= q < IZR r + 1)%R →
  (up = true ↔ (IZR r + / 2 < q)%R ∨ (q = IZR r + / 2)%R ∧ Z.odd r = true) →
  nearest q (if up then r + 1 else r).
Proof.
  intros Hq Hup. destruct (Rtotal_order q (IZR r + / 2)) as [Hlt|[Heq|Hgt]].
  - destruct up; [exfalso; destruct (proj1 Hup eq_refl) as [|[? _]]; lra|]. apply nearest_down. lra.
  - pose proof (nearest_tie q r Heq) as Ht. destruct up.
    + destruct (proj1 Hup eq_refl) as [|[_ Hodd]]; [lra|]. by rewrite Hodd in Ht.
    + destruct (Z.odd r) eqn:Hodd; [|done]. assert (false = true) by (apply Hup; by right). done.
  - destruct up; [apply nearest_up; lra|]. assert (false = true) by (apply Hup; by left). done.
Qed.

(** Halfway between two numbers of [P] digits. *)
Definition tie (U : R) (P : Z) : Prop := ∃ K z, decade U K ∧ (U * pow10 (P - 1 - K) = IZR z + / 2)%R.
End DtoaDigits.
