(* ===== verification/DtoaBig.v ===== *)
(** * dtoa.c: the digits by big integers

    [b / S] is the double divided by a power of 10, exactly; each digit is the quotient
    of a division with remainder, and the comparison of twice the remainder with [S]
    rounds the last one. Every block but those of the powers of 5 is given back. *)
From Stdlib Require Import Reals Lra.
From S2P Require Import Prelude Libc Double DoubleSpec Bigint BigintSpec BigintOps Dtoa FloatSpec DtoaWords DtoaEstimate DtoaDigits FloatOps.

Module DtoaBig.
Import Double DoubleSpec Bigint BigintSpec BigintOps Dtoa FloatSpec DtoaWords DtoaEstimate DtoaDigits.

Section big.
Context {E : Type}.

Lemma rest_block b r : 0 ≤ r → rest_of b r → block_ok b.
Proof.
  intros Hr [Hp Hz]. destruct (decide (r = 0)) as [H0|H0]; [by apply Hz|].
  destruct (Hp ltac:(lia)) as (ws & Hh & _). apply Hh.
Qed.

Lemma no_words_spec b r : 0 ≤ r → rest_of b r → no_words (E:=E) b = Done (r =? 0).
Proof.
  intros Hr [Hp Hz]. unfold no_words. destruct (Z.eqb_spec r 0) as [->|H0].
  - destruct Hz as (_ & Hw & rest & Hx); [done|]. rewrite Hx. cbn. by rewrite (proj2 (Z.leb_le (wds b) 1) Hw).
  - destruct (Hp ltac:(lia)) as (ws & (_ & Hw & Hok & rest & Hx) & (ws' & w & -> & Hw0) & _).
    rewrite Hx, Hw. destruct ws' as [|v ws']; cbn [fmap list_fmap app].
    + change (rdw (Some w :: rest) 0) with (Done (E:=E) w). cbn [obind]. by rewrite (proj2 (Z.eqb_neq w 0)) by lia.
    + change (rdw (Some v :: _) 0) with (Done (E:=E) v). cbn [obind]. rewrite (proj2 (Z.leb_gt _ _)), andb_false_r; [done|].
      cbn [length app]. rewrite length_app. cbn [length]. lia.
Qed.

(** [n / d] are the digits of [U / 10^kk] behind [cs]. *)
Definition behind (U : R) (kk n d : Z) (cs : list Z) : Prop :=
  (IZR n = IZR d * (U * pow10 (len cs - kk) - 10 * IZR (dec_value cs)))%R.
(** What is left of them. *)
Definition left_over (U : R) (kk n d : Z) (cs : list Z) : Prop :=
  (IZR n = IZR d * (U * pow10 (len cs - 1 - kk) - IZR (dec_value cs)))%R.

Lemma behind_digit U kk n d cs :
  0 < d → behind U kk n d cs → left_over U kk (n mod d) d (cs ++ [n / d + 48]).
Proof.
  intros Hd Hb. unfold behind, left_over in *. rewrite dec_value_snoc, length_app. cbn [length].
  replace (Z.of_nat (length cs + 1) - 1 - kk) with (len cs - kk) by lia.
  rewrite Z.mod_eq, minus_IZR, Hb, mult_IZR, plus_IZR, mult_IZR by lia.
  replace (n / d + 48 - 48) with (n / d) by lia. ring.
Qed.

Lemma behind_next U kk n d cs : left_over U kk n d cs → behind U kk (n * 10 + 0) d cs.
Proof.
  unfold behind, left_over. intros H. rewrite Z.add_0_r, mult_IZR, H.
  replace (len cs - kk) with (len cs - 1 - kk + 1) by lia. rewrite pow10_S. ring.
Qed.

(** The digits end, or are as many as wanted. *)
Definition ended (U : R) (kk d ilim : Z) (t : list cell) (b' : Bigint) (t' : list cell) (s' : Z) (dig : option Z) : Prop :=
  ∃ cs n', text_of t' s' cs ∧ leading cs ∧ len t' = len t ∧ rest_of b' n' ∧ left_over U kk n' d cs ∧
    match dig with
    | None => n' = 0 ∧ len cs ≤ ilim ∧ stripped cs
    | Some c => 0 < n' < d ∧ len cs = ilim ∧ Z.odd c = Z.odd (dec_value cs)
    end.

Lemma digit_loop_spec fuel p b sb n d t s i ilim U kk cs :
  pool_ok p → big b n → big sb d → Z.log2 d mod 32 = 27 → 10 * d < capacity → n < 10 * d →
  text_of t s cs → i = len cs + 1 → (0 < fuel)%nat → Z.of_nat fuel + len cs = ilim → ilim < len t →
  (cs = [] ∧ d ≤ n ∨ leading cs) → behind U kk n d cs →
  run (digit_loop (E:=E) fuel b sb t s i ilim) p 0 (fun r p' =>
    let '(b', t', s', dig) := r in p5s p' = p5s p ∧ ended U kk d ilim t b' t' s' dig).
Proof.
  revert p b n t s i cs. induction fuel as [|fuel IH]; intros p b n t s i cs Hp Hb Hd Hlog Hcap Hn Ht Hi Hf0 Hf Hlt Hl Hbe; [lia|].
  cbn [digit_loop]. pose proof (big_pos _ _ Hd) as Hd0. pose proof (big_pos _ _ Hb) as Hn0.
  destruct (quorem_spec (E:=E) b sb n d Hb Hd Hlog ltac:(lia)) as (b1 & Hq & Hr).
  apply run_lift. rewrite Hq. apply returns_done.
  assert (0 ≤ n / d < 10) as Hqr by (split; [apply Z.div_pos|apply Z.div_lt_upper_bound]; lia).
  pose proof (Z.mod_pos_bound n d Hd0) as Hm. pose proof (Z.div_mod n d ltac:(lia)) as Hdm.
  destruct (put_char_spec (E:=E) t s cs (n / d + 48) Ht) as (t1 & Hput & Ht1 & Hl1); [lia|destruct Ht as (_ & -> & _); lia|].
  apply run_lift. rewrite Hput. apply returns_done. cbv zeta.
  set (cs1 := cs ++ [n / d + 48]) in *. pose proof (behind_digit U kk n d cs Hd0 Hbe) as Hlo. fold cs1 in Hlo.
  assert (leading cs1) as Hlead.
  { destruct Hl as [[-> Hge]|Hl]; [|by apply leading_app]. apply leading_head.
    assert (1 ≤ n / d) by (apply Z.div_le_lower_bound; lia). lia. }
  assert (len cs1 = len cs + 1) as Hlen1 by (unfold cs1; rewrite length_app; cbn [length]; lia).
  apply run_lift. rewrite (no_words_spec b1 (n mod d)) by (done || lia). apply returns_done.
  destruct (Z.eqb_spec (n mod d) 0) as [Hz|Hz].
  - apply run_ret; [done|]. split; [done|]. exists cs1, 0. rewrite Hz in *. do 5 (split; [done|]). split; [done|].
    split; [lia|]. apply stripped_snoc. nia.
  - destruct (Z.leb_spec ilim i) as [Hlim|Hlim].
    + apply run_ret; [done|]. split; [done|]. exists cs1, (n mod d). do 5 (split; [done|]). split; [lia|]. split; [lia|].
      unfold cs1. rewrite dec_value_snoc, !Z.odd_add, Z.odd_mul, andb_false_r, Z.odd_sub, Z.odd_add.
      by destruct (Z.odd (n / d)).
    + eapply run_bind; [apply (multadd_spec p b1 (n mod d) 10 0); [done|apply Hr; lia|lia|lia|lia]|].
      intros b2 p2 Hp2 [Hb2 H5]. rewrite Z.sub_diag.
      eapply run_mono; [apply (IH p2 b2 (n mod d * 10 + 0) t1 (s + 1) (i + 1) cs1); try done; try lia|].
      * by right.
      * by apply behind_next.
      * intros [[[b' t'] s'] dig] p' [H5' (cs' & n' & Hend)]. split; [congruence|]. exists cs', n'. by rewrite <- Hl1.
Qed.

(** ** The quotient *)
Lemma scale_exponents_spec kk j b2 s2 b5 s5 :
  scale_exponents kk j = (b2, s2, b5, s5) →
  b2 - s2 = - j - kk ∧ b5 - s5 = - kk ∧ 0 ≤ b2 ≤ Z.max (- j) 0 + Z.max (- kk) 0 ∧
  0 ≤ s2 ≤ Z.max j 0 + Z.max kk 0 ∧ 0 ≤ b5 ≤ Z.max (- kk) 0 ∧ 0 ≤ s5 ≤ Z.max kk 0.
Proof.
  unfold scale_exponents. destruct (Z.leb_spec 0 j), (Z.leb_spec 0 kk); cbv beta iota zeta;
    repeat match goal with |- context [Z.ltb ?a ?b] => destruct (Z.ltb_spec a b) end; cbn [andb];
    intros [= <- <- <- <-]; lia.
Qed.

(** The shift that brings the leading bit of [S] to bit 27 of its word. *)
Lemma dshift_spec sb d s2 :
  big sb d → 0 ≤ s2 → ∃ i, dshift (E:=E) sb s2 = Done i ∧ 0 ≤ i < 32 ∧ (Z.log2 d + s2 + i) mod 32 = 27.
Proof.
  intros (ws & (_ & Hw & Hok & rest & Hx) & Hn & <-) Hs. unfold dshift. rewrite Hw, Hx.
  destruct (bits_of_value (E:=E) ws Hok Hn) as (top & Htop & Hbits).
  pose proof (normal_nonnil ws Hn) as Hne.
  assert (rdw (E:=E) ((Some <$> ws) ++ rest) (len ws - 1) = Done top) as ->.
  { unfold rdw, rd in *. by rewrite zget_app_l by (rewrite length_fmap; lia). }
  cbn [obind]. eexists. split; [done|].
  set (i := if 0 <? s2 then hi0bits top - 4 - s2 else hi0bits top - 4).
  assert (i = hi0bits top - 4 - s2) as Hi by (unfold i; destruct (Z.ltb_spec 0 s2); lia).
  change 31 with (Z.ones 5). rewrite Z.land_ones by lia. change (2 ^ 5) with 32.
  split; [apply Z.mod_pos_bound; lia|].
  rewrite Z.add_mod_idemp_r by lia. replace (Z.log2 (value ws) + s2 + i) with (27 + (len ws - 1) * 32) by lia.
  by rewrite Z.mod_add by lia.
Qed.

Lemma pow_bound a b n : 0 ≤ a → 0 < b ≤ 2 ^ a → 0 ≤ n → b * 2 ^ n ≤ 2 ^ (a + n).
Proof. intros. rewrite Z.pow_add_r by lia. pose proof (Z.pow_pos_nonneg 2 n). nia. Qed.

Lemma pow5_bound n : 0 ≤ n ≤ 330 → 0 < 5 ^ n ≤ 2 ^ 990.
Proof.
  intros Hn. split; [apply Z.pow_pos_nonneg; lia|]. apply Z.le_trans with (8 ^ n); [apply Z.pow_le_mono_l; lia|].
  change 8 with (2 ^ 3). rewrite <- Z.pow_mul_r by lia. apply Z.pow_le_mono_r; lia.
Qed.

Lemma capacity_bits n a : a ≤ 4063 → 0 < n ≤ 2 ^ a → n < capacity.
Proof.
  intros Ha Hn. apply Z.le_lt_trans with (2 ^ 4063).
  - destruct (decide (0 ≤ a)); [|rewrite Z.pow_neg_r in Hn by lia; lia].
    eapply Z.le_trans; [apply Hn|]. apply Z.pow_le_mono_r; lia.
  - unfold capacity. change W with (2 ^ 32). rewrite <- Z.pow_mul_r by lia. apply Z.pow_lt_mono_r; lia.
Qed.

Lemma scaled_spec p b n b2 s2 b5 s5 :
  pool_ok p → big b n → n ≤ 2 ^ 53 → 0 ≤ b2 ≤ 1500 → 0 ≤ s2 ≤ 1500 → 0 ≤ b5 ≤ 330 → 0 ≤ s5 ≤ 330 →
  run (scaled (E:=E) b b2 s2 b5 s5) p 1 (fun r _ => ∃ i, 0 ≤ i < 32 ∧
    big r.1 (n * 5 ^ b5 * 2 ^ (b2 + i)) ∧ big r.2 (5 ^ s5 * 2 ^ (s2 + i)) ∧
    Z.log2 (5 ^ s5 * 2 ^ (s2 + i)) mod 32 = 27).
Proof.
  intros Hp Hb Hn Hb2 Hs2 Hb5 Hs5. unfold scaled. pose proof (big_pos _ _ Hb) as Hn0.
  pose proof (pow5_bound b5 Hb5) as HB. pose proof (pow5_bound s5 Hs5) as HS.
  assert (n * 5 ^ b5 ≤ 2 ^ 1043) as HnB.
  { change 1043 with (53 + 990). rewrite Z.pow_add_r by lia. apply Z.mul_le_mono_nonneg; lia. }
  assert (∀ p b m k, pool_ok p → big b m → 0 ≤ k ≤ 330 → m * 5 ^ k < capacity →
    run (if 0 <? k then pow5mult (E:=E) b k else ret b) p 0 (fun b' _ => big b' (m * 5 ^ k))) as H5.
  { intros p' b' m k Hp' Hb' Hk Hc. destruct (Z.ltb_spec 0 k); [apply pow5mult_spec; done || lia|].
    apply run_ret; [done|]. replace k with 0 by lia. by rewrite Z.mul_1_r. }
  assert (∀ p b m k, pool_ok p → big b m → 0 ≤ k → m * 2 ^ k < capacity →
    run (if 0 <? k then lshift (E:=E) b k else ret b) p 0 (fun b' _ => big b' (m * 2 ^ k))) as Hsh.
  { intros p' b' m k Hp' Hb' Hk Hc. destruct (Z.ltb_spec 0 k).
    - eapply run_mono; [by apply lshift_spec|]. by intros ? ? [? _].
    - apply run_ret; [done|]. replace k with 0 by lia. by rewrite Z.mul_1_r. }
  eapply run_bind; [apply (H5 p b n b5); try done; apply (capacity_bits _ 1043); nia|]. intros b1 p1 Hp1 Hb1.
  eapply run_bind; [apply i2b_spec; [done|lia]|]. intros sb p2 Hp2 [Hsb _].
  eapply run_bind; [apply (H5 p2 sb 1 s5); try done; apply (capacity_bits _ 990); lia|]. intros sb1 p3 Hp3 Hsb1.
  rewrite Z.mul_1_l in Hsb1. destruct (dshift_spec sb1 (5 ^ s5) s2 Hsb1 ltac:(lia)) as (i & Hi & Hir & Hlog).
  apply run_lift. rewrite Hi. apply returns_done. cbv zeta.
  pose proof (pow_bound 1043 (n * 5 ^ b5) (b2 + i) ltac:(lia) ltac:(nia) ltac:(lia)).
  pose proof (pow_bound 990 (5 ^ s5) (s2 + i) ltac:(lia) ltac:(lia) ltac:(lia)).
  pose proof (Z.pow_pos_nonneg 2 (b2 + i) ltac:(lia) ltac:(lia)). pose proof (Z.pow_pos_nonneg 2 (s2 + i) ltac:(lia) ltac:(lia)).
  eapply run_bind; [apply (Hsh p3 b1 (n * 5 ^ b5) (b2 + i)); try done; [lia|]|].
  { apply (capacity_bits _ (1043 + (b2 + i))); [lia|]. split; [nia|done]. }
  intros b3 p4 Hp4 Hb3.
  eapply run_bind; [apply (Hsh p4 sb1 (5 ^ s5) (s2 + i)); try done; [lia|]|].
  { apply (capacity_bits _ (990 + (s2 + i))); [lia|]. split; [nia|done]. }
  intros sb3 p5 Hp5 Hsb3. eapply run_conv; [apply run_ret; [done|]|lia]. exists i. do 3 (split; [done|]).
  rewrite Z.log2_mul_pow2 by lia. by replace (s2 + i + Z.log2 (5 ^ s5)) with (Z.log2 (5 ^ s5) + s2 + i) by lia.
Qed.

Lemma pow5_IZR n : 0 ≤ n → (IZR (5 ^ n) = pow10 n * pow2 (- n))%R.
Proof.
  intros Hn. rewrite pow10_IZR by done. replace (10 ^ n) with (5 ^ n * 2 ^ n) by (rewrite <- Z.pow_mul_l; done).
  rewrite mult_IZR, <- (pow2_IZR n), Rmult_assoc, pow2_neg by done. lra.
Qed.

(** [n / d] is [U / 10^kk]. *)
Lemma quotient_value n be kk b2 s2 b5 s5 i :
  b2 - s2 = be - kk → b5 - s5 = - kk → 0 ≤ b2 + i → 0 ≤ s2 + i → 0 ≤ b5 → 0 ≤ s5 →
  behind (IZR n * pow2 be) kk (n * 5 ^ b5 * 2 ^ (b2 + i)) (5 ^ s5 * 2 ^ (s2 + i)) [].
Proof.
  intros H2 H5 ? ? ? ?. unfold behind. rewrite !mult_IZR, !pow5_IZR, <- !pow2_IZR by done.
  change (IZR (dec_value [])) with 0%R. rewrite Rmult_0_r, Rminus_0_r. cbn [length]. change (Z.of_nat 0 - kk) with (0 - kk).
  replace b5 with (s5 + (0 - kk)) at 1 by lia. rewrite tenpow_add.
  assert (pow2 (- b5) * pow2 (b2 + i) = pow2 (- s5) * pow2 (s2 + i) * pow2 be)%R as Hp.
  { rewrite <- !pow2_add. f_equal. lia. }
  transitivity (IZR n * (pow10 s5 * pow10 (0 - kk)) * (pow2 (- b5) * pow2 (b2 + i)))%R; [ring|]. rewrite Hp. ring.
Qed.

Lemma behind_decade U kk n d : 0 < d → behind U kk n d [] → (d ≤ n ↔ (pow10 kk <= U)%R) ∧ (n < 10 * d ↔ (U < pow10 (kk + 1))%R).
Proof.
  intros Hd Hb. unfold behind in Hb. cbn [length] in Hb. change (Z.of_nat 0 - kk) with (- kk) in Hb.
  change (IZR (dec_value [])) with 0%R in Hb. apply IZR_lt in Hd. pose proof (pow10_pos kk). pose proof (pow10_pos (- kk)).
  pose proof (pow10_neg kk) as Hn.
  assert (U = U * pow10 (- kk) * pow10 kk)%R as HU by (rewrite Rmult_assoc, (Rmult_comm (pow10 (- kk))), Hn; lra).
  set (V := (U * pow10 (- kk))%R) in *. rewrite pow10_S. replace (V - 10 * 0)%R with V in Hb by lra.
  split; split; intros H'.
  - apply IZR_le in H'. assert (1 <= V)%R by (apply Rmult_le_reg_l with (IZR d); lra). nra.
  - apply le_IZR. rewrite Hb. assert (1 <= V)%R by (apply Rmult_le_reg_r with (pow10 kk); lra). nra.
  - apply IZR_lt in H'. rewrite mult_IZR in H'. assert (V < 10)%R by (apply Rmult_lt_reg_l with (IZR d); lra). nra.
  - apply lt_IZR. rewrite Hb, mult_IZR. assert (V < 10)%R by (apply Rmult_lt_reg_r with (pow10 kk); lra). nra.
Qed.

(** ** The last digit *)
(** The string of the result. *)
Definition digits_in (U : R) (P : Z) (t : list cell) (s kk : Z) : Prop :=
  ∃ cs, text_of t s cs ∧ decimal U P cs kk ∧ stripped cs.

Lemma round_last_spec p b sb n d t s U kk ilim cs dig :
  pool_ok p → big b n → big sb d → n < d → 2 * d < capacity → decade U kk →
  text_of t s cs → leading cs → left_over U kk n d cs → len cs = ilim → Z.odd dig = Z.odd (dec_value cs) →
  run (round_last (E:=E) b sb t s kk dig) p 0 (fun r _ => let '(b', t', s', kk') := r in
    block_ok b' ∧ len t' = len t ∧ digits_in U ilim t' s' kk').
Proof.
  intros Hp Hb Hd Hnd Hcap HU Ht Hl Hlo Hlen Hodd. pose proof (big_pos _ _ Hd) as Hd0. pose proof (big_pos _ _ Hb) as Hn0.
  unfold round_last. eapply run_bind; [apply lshift_spec; [done|exact Hb|lia|change (2 ^ 1) with 2; lia]|].
  intros b1 p1 Hp1 [Hb1 _]. change (2 ^ 1) with 2 in Hb1.
  destruct (cmp_spec (E:=E) b1 sb _ _ Hb1 Hd) as (r & Hr & Hlt & Heq). apply run_lift. rewrite Hr. apply returns_done.
  set (v := dec_value cs) in *. set (q := (U * pow10 (ilim - 1 - kk))%R).
  assert (block_ok b1) as Hb1' by (destruct Hb1 as (? & Hh & _); apply Hh).
  assert (IZR n = IZR d * (q - IZR v))%R as Hq by (unfold left_over in Hlo; rewrite Hlen in Hlo; exact Hlo).
  pose proof (IZR_lt _ _ Hd0) as Hd0'. pose proof (IZR_lt _ _ Hn0) as Hn0'. pose proof (IZR_lt _ _ Hnd) as Hnd'.
  assert (IZR v <= q < IZR v + 1)%R as Hqv by (split; nra).
  set (up := (0 <? r) || (r =? 0) && Z.odd dig).
  assert (up = true ↔ (IZR v + / 2 < q)%R ∨ (q = IZR v + / 2)%R ∧ Z.odd v = true) as Hup.
  { assert (0 < r ↔ (IZR v + / 2 < q)%R) as H1.
    { assert (0 < r ↔ d < n * 2) as -> by lia. split; intros H.
      - apply IZR_lt in H. rewrite mult_IZR, Hq in H. apply Rmult_lt_reg_l with (IZR d); lra.
      - apply lt_IZR. rewrite mult_IZR, Hq. nra. }
    assert (r = 0 ↔ (q = IZR v + / 2)%R) as H2.
    { rewrite Heq. split; intros H.
      - apply (f_equal IZR) in H. rewrite mult_IZR, Hq in H. apply Rmult_eq_reg_l with (IZR d); lra.
      - apply eq_IZR. rewrite mult_IZR, Hq, H. lra. }
    unfold up. rewrite orb_true_iff, andb_true_iff, Z.ltb_lt, Z.eqb_eq, H1, H2, Hodd. done. }
  pose proof (nearest_half q v up Hqv Hup) as Hnear. clearbody up. destruct Ht as (Hcs & Hs & Htx). destruct up.
  - destruct (roundoff_spec (E:=E) (S (Z.to_nat s)) t s cs kk) as (t' & cs' & kk' & Hro & Ht' & Hl' & Hra); [done|done|lia|].
    apply run_lift. rewrite Hro. apply returns_done, run_ret; [done|]. split; [done|]. split; [done|]. exists cs'.
    split; [done|]. split; [|apply Hra]. eapply decimal_up; try done. apply Ht'.
  - destruct (strip_loop_spec (E:=E) (S (Z.to_nat s)) t s cs) as (cs' & k & Hst & Hcs' & Ht' & Hl' & Hs'); [done|done|lia|].
    apply run_lift. rewrite Hst. apply returns_done, run_ret; [done|]. split; [done|]. split; [done|]. exists cs'.
    split; [done|]. split; [|done]. eapply decimal_down; done.
Qed.

(** ** All of it *)
Lemma scale_bounds a b k i : 0 ≤ k → 0 < a * 5 ^ k ≤ 2 ^ b → 0 ≤ i ≤ 1531 → 0 ≤ b ≤ 1043 → 0 < a * 5 ^ k * 2 ^ i ∧ 20 * (a * 5 ^ k * 2 ^ i) < capacity.
Proof.
  intros Hk Ha Hi Hb. pose proof (pow_bound b _ i ltac:(lia) Ha ltac:(lia)). pose proof (Z.pow_pos_nonneg 2 i ltac:(lia) ltac:(lia)).
  split; [nia|]. apply (capacity_bits _ (b + i + 5)); [lia|]. rewrite (Z.pow_add_r 2 (b + i) 5) by lia. lia.
Qed.

Lemma big_digits_spec p b n be kk ilim k_check t :
  pool_ok p → big b n → n ≤ 2 ^ 53 → -1074 ≤ be ≤ 1023 → estimated (IZR n * pow2 be) kk k_check → -326 ≤ kk ≤ 310 →
  1 ≤ ilim < len t →
  run (big_digits (E:=E) b kk (- be) ilim k_check t) p 0 (fun r _ => let '(b', t', s', kk') := r in
    block_ok b' ∧ len t' = len t ∧ digits_in (IZR n * pow2 be) ilim t' s' kk').
Proof.
  intros Hp Hb Hn Hbe Hest Hkk Hlim. pose proof (big_pos _ _ Hb) as Hn0. unfold big_digits.
  destruct (scale_exponents kk (- be)) as [[[b2 s2] b5] s5] eqn:Hse.
  apply scale_exponents_spec in Hse as (H2 & H5 & Hb2 & Hs2 & Hb5 & Hs5). rewrite Z.opp_involutive in H2.
  eapply run_bind; [apply (scaled_spec p b n b2 s2 b5 s5); done || lia|].
  intros [b1 sb] p1 Hp1 (i & Hi & Hb1 & Hsb & Hlog). cbn [fst snd] in *.
  pose proof (quotient_value n be kk b2 s2 b5 s5 i H2 H5 ltac:(lia) ltac:(lia) ltac:(lia) ltac:(lia)) as Hq.
  pose proof (pow5_bound b5 ltac:(lia)) as H5b. pose proof (pow5_bound s5 ltac:(lia)) as H5s.
  destruct (scale_bounds n 1043 b5 (b2 + i)) as [_ Hcn]; [lia| |lia|lia|].
  { split; [nia|]. change 1043 with (53 + 990). rewrite Z.pow_add_r by lia. apply Z.mul_le_mono_nonneg; lia. }
  destruct (scale_bounds 1 990 s5 (s2 + i)) as [Hd0 Hcd]; [lia|lia|lia|lia|]. rewrite Z.mul_1_l in Hd0, Hcd.
  set (N := n * 5 ^ b5 * 2 ^ (b2 + i)) in *. set (d := 5 ^ s5 * 2 ^ (s2 + i)) in *. set (U := (IZR n * pow2 be)%R) in *.
  clearbody N d U. destruct (behind_decade U kk N d Hd0 Hq) as [Hge Hlt].
  assert (U < pow10 (kk + 1))%R as HU.
  { pose proof (pow10_pos (kk + 1)). pose proof (pow2_pos (-46)). pose proof (pow2_pos (-53)). destruct k_check; destruct Hest; nra. }
  apply (run_bind _ _ _ 0 _ (fun r _ => ∃ N', big r.1 N' ∧ decade U r.2 ∧ behind U r.2 N' d [])).
  { destruct k_check; [|apply run_ret; [done|]; exists N; split; [done|]; split; [split; [apply Hest|done]|done]].
    destruct (cmp_spec (E:=E) b1 sb _ _ Hb1 Hsb) as (c & Hc & Hclt & _). apply run_lift. rewrite Hc. apply returns_done.
    destruct (Z.ltb_spec c 0) as [Hneg|Hpos].
    - eapply (run_bind _ _ _ 0); [apply multadd_spec; done || lia|]. intros b2' p2 Hp2 [Hb2' _]. apply run_ret; [done|].
      exists (N * 10 + 0). split; [done|]. cbn [snd]. split.
      + pose proof (pow10_S (kk - 1)) as H10. pose proof (pow10_pos (kk - 1)). unfold decade. replace (kk - 1 + 1) with kk in * by lia.
        destruct Hest as [_ [Hlow _]]. split; [lra|]. apply Rnot_le_lt. rewrite <- Hge. lia.
      + unfold behind in *. rewrite Z.add_0_r, mult_IZR, Hq. cbn [length]. change (Z.of_nat 0 - kk) with (- kk).
        replace (Z.of_nat 0 - (kk - 1)) with (- kk + 1) by lia. rewrite pow10_S. change (IZR (dec_value [])) with 0%R. ring.
    - apply run_ret; [done|]. exists N. split; [done|]. split; [split; [apply Hge; lia|done]|done]. }
  intros [b3 kk'] p3 Hp3 (N' & Hb3 & Hdec & Hbeh). cbn [fst snd] in *. clear Hge Hlt.
  destruct (behind_decade U kk' N' d Hd0 Hbeh) as [Hge Hlt]. apply proj1 in Hdec as HU1. apply proj2 in Hdec as HU2.
  apply Hge in HU1. apply Hlt in HU2.
  eapply (run_bind _ _ _ 0).
  { apply (digit_loop_spec _ p3 b3 sb N' d t 0 1 ilim U kk' []); try done; try (cbn [length]; lia); [|by left].
    split; [done|]. split; [done|]. by exists t. }
  intros [[[b4 t4] s4] dig] p4 Hp4 (_ & cs & n' & Ht4 & Hl4 & Hlen4 & Hr4 & Hlo4 & Hdig).
  apply (run_bind _ _ _ 0 _ (fun r _ => let '(b', t', s', kk') := r in
    block_ok b' ∧ len t' = len t ∧ digits_in U ilim t' s' kk')).
  { destruct dig as [c|].
    - destruct Hdig as (Hn' & Hlcs & Hodd). eapply run_mono.
      + apply (round_last_spec p4 b4 sb n' d t4 s4 U kk' ilim cs c); try done; [apply Hr4; lia|lia|lia].
      + intros [[[? ?] ?] ?] _. rewrite Hlen4. done.
    - destruct Hdig as (-> & Hlcs & Hst). apply run_ret; [done|]. split; [by apply (rest_block b4 0)|]. split; [done|].
      exists cs. split; [done|]. split; [|done]. apply decimal_exact; [done|apply Ht4|done|done|].
      unfold left_over in Hlo4. apply IZR_lt in Hd0. apply Rmult_eq_reg_l with (IZR d); lra. }
  intros [[[b5' t5] s5'] kk5] p5 Hp5 (Hb5' & Hl5 & Hres).
  eapply (run_bind _ _ _ (-1)); [apply Bfree_spec; [done|]|].
  { destruct Hsb as (? & Hh & _). apply Hh. }
  intros _ p6 Hp6 _. eapply run_conv; [by apply run_ret|lia].
Qed.
End big.
End DtoaBig.

(** * dtoa.c: small integers

    The digits of an integer of at most 15 digits come from divisions of doubles; every
    number is an integer below 2^53, so that the arithmetic is exact but for the
    quotient, whose integer part is right. *)
Module DtoaSmall.
Import Double DoubleSpec Bigint BigintSpec BigintOps Dtoa FloatSpec FloatOps DtoaWords DtoaEstimate DtoaDigits DtoaBig.

Section small.
Context {E : Type}.

(** A double with the value of an integer. *)
Definition is_int (x : double) (z : Z) : Prop := good x ∧ val x = IZR z.

Lemma int_rounds y r z : rounds y r → r = IZR z → Z.abs z < 2 ^ 53 → is_int y z.
Proof.
  intros Hr -> Hz. split; [by eapply rounds_good|]. apply rounds_exact; [done|]. by apply repr_IZR.
Qed.

Lemma int_range z : Z.abs z < 2 ^ 53 → (Rabs (IZR z) < pow2 1023)%R.
Proof.
  intros Hz. rewrite <- abs_IZR, pow2_IZR by lia. apply IZR_lt. eapply Z.lt_le_trans; [exact Hz|]. apply Z.pow_le_mono_r; lia.
Qed.

Lemma is_int_of_Z z : Z.abs z < 2 ^ 53 → is_int (of_Z z) z.
Proof. apply of_Z_ok. Qed.

Lemma is_int_mul x y a b : is_int x a → is_int y b → Z.abs (a * b) < 2 ^ 53 → is_int (fmul x y) (a * b).
Proof.
  intros [Gx Vx] [Gy Vy] Hab. apply (int_rounds _ (val x * val y)); [|by rewrite Vx, Vy, mult_IZR|done].
  apply fmul_ok; [done..|]. rewrite Vx, Vy, <- mult_IZR. by apply int_range.
Qed.
Lemma is_int_add x y a b : is_int x a → is_int y b → Z.abs (a + b) < 2 ^ 53 → is_int (fadd x y) (a + b).
Proof.
  intros [Gx Vx] [Gy Vy] Hab. apply (int_rounds _ (val x + val y)); [|by rewrite Vx, Vy, plus_IZR|done].
  apply fadd_ok; [done..|]. rewrite Vx, Vy, <- plus_IZR. by apply int_range.
Qed.
Lemma is_int_sub x y a b : is_int x a → is_int y b → Z.abs (a - b) < 2 ^ 53 → is_int (fsub x y) (a - b).
Proof.
  intros [Gx Vx] [Gy Vy] Hab. apply (int_rounds _ (val x - val y)); [|by rewrite Vx, Vy, minus_IZR|done].
  apply fsub_ok; [done..|]. rewrite Vx, Vy, <- minus_IZR. by apply int_range.
Qed.

Lemma is_zero_val x : good x → is_zero x = true ↔ val x = 0%R.
Proof.
  intros [Hf _]. destruct x as [s| | |s m e]; try done. split; [done|]. intros H. exfalso. rewrite val_sign in H.
  assert (0 < IZR (Z.pos m) * pow2 e)%R by (apply Rmult_lt_0_compat; [by apply IZR_lt|apply pow2_pos]).
  destruct s; lra.
Qed.

Lemma is_int_zero x z : is_int x z → is_zero x = (z =? 0).
Proof.
  intros [G V]. apply is_zero_val in G as Hz. rewrite V in Hz. destruct (Z.eqb_spec z 0) as [->|Hne].
  - by apply Hz.
  - apply not_true_is_false. intros H. apply Hz in H. by apply eq_IZR in H.
Qed.

(** The integer part of a quotient. *)
Lemma int_quotient x y a b :
  is_int x a → is_int y b → 0 < a < 10 * b → b ≤ 10 ^ 14 → to_Long (E:=E) (fdiv x y) = Done (a / b).
Proof.
  intros [Gx Vx] [Gy Vy] Ha Hb. set (q := (IZR a / IZR b)%R).
  assert (0 < b) as Hb0 by lia. pose proof (IZR_lt _ _ Hb0) as Hb0'.
  pose proof (Z.div_mod a b ltac:(lia)) as Hdm. pose proof (Z.mod_pos_bound a b Hb0) as Hm.
  assert (0 ≤ a / b < 10) as Hd by (split; [apply Z.div_pos|apply Z.div_lt_upper_bound]; lia).
  assert (IZR b * q = IZR a)%R as Hq by (unfold q; field; lra).
  assert (1 <= IZR a)%R as Ha1 by (apply IZR_le; lia). assert (IZR b <= 10 ^ 14)%R as Hb14.
  { apply IZR_le in Hb. change (10 ^ 14) with 100000000000000 in Hb. lra. }
  assert (IZR a < 10 * IZR b)%R as Ha10 by (rewrite <- mult_IZR; apply IZR_lt; lia).
  assert (/ 10 ^ 14 <= q < 10)%R as Hqr.
  { split; [|apply Rmult_lt_reg_l with (IZR b); lra]. unfold q. apply Rle_trans with (/ IZR b)%R.
    - by apply Rinv_le_contravar.
    - unfold Rdiv. assert (0 < / IZR b)%R by (by apply Rinv_0_lt_compat). nra. }
  assert (rounds (fdiv x y) q) as Hr.
  { unfold q. rewrite <- Vx, <- Vy. apply fdiv_ok; [done|done|rewrite Vx; lra|rewrite Vy; lra|]. rewrite Vx, Vy. fold q.
    split.
    - apply Rle_trans with (/ 10 ^ 14)%R; [|lra]. apply Rle_trans with (pow2 (- (60))); [apply pow2_le; lia|].
      rewrite <- pow2_inv, pow2_IZR by lia. apply Rinv_le_contravar; [lra|]. change (2 ^ 60) with 1152921504606846976. lra.
    - apply Rlt_le_trans with (pow2 4); [rewrite pow2_IZR by lia; change (2 ^ 4) with 16; lra|apply pow2_le; lia]. }
  assert (IZR (a / b) <= q)%R as Hge.
  { apply Rmult_le_reg_l with (IZR b); [done|]. rewrite Hq, <- mult_IZR. apply IZR_le. lia. }
  assert (q <= IZR (a / b) + 1 - / 10 ^ 14)%R as Hle.
  { apply Rmult_le_reg_l with (IZR b); [done|]. rewrite Hq.
    assert (IZR a <= IZR b * IZR (a / b) + IZR b - 1)%R.
    { rewrite <- mult_IZR, <- plus_IZR, <- minus_IZR. apply IZR_le. lia. }
    assert (IZR b * / 10 ^ 14 <= 1)%R by (apply Rmult_le_reg_r with (10 ^ 14)%R; [lra|]; rewrite Rmult_assoc, Rinv_l; lra).
    lra. }
  pose proof (rounds_ge _ _ (IZR (a / b)) Hr ltac:(apply repr_IZR; lia) Hge) as Hge'.
  pose proof (rounds_error _ _ Hr) as He. rewrite (Rabs_pos_eq q) in He by lra. apply Rabs_le_inv in He.
  assert (pow2 (-53) * q + pow2 (-1075) < / 10 ^ 14)%R as Hsmall.
  { assert (pow2 (-1075) <= pow2 (-53))%R by (apply pow2_le; lia). pose proof (pow2_pos (-53)).
    assert (pow2 (-53) * 20 < / 10 ^ 14)%R; [|nra]. change (-53) with (- (53)). rewrite <- pow2_inv, pow2_IZR by lia.
    change (2 ^ 53) with 9007199254740992. lra. }
  destruct (to_Long_spec (E:=E) (fdiv x y) ltac:(by eapply rounds_good)) as (z & -> & _ & Hz & _).
  { assert (0 <= IZR (a / b) <= 9)%R by (split; apply IZR_le; lia). rewrite Rabs_pos_eq by lra.
    apply Rlt_trans with 11%R; [lra|]. by apply IZR_lt. }
  assert (0 <= IZR (a / b))%R by (apply IZR_le; lia). specialize (Hz ltac:(lra)).
  assert (z = a / b) as ->; [|done]. apply Z.le_antisymm; apply Z.lt_succ_r, lt_IZR; rewrite succ_IZR; lra.
Qed.

(** What is left behind [P] digits is zero or half a digit. *)
Definition zero_or_half (U : R) (kk P : Z) : Prop :=
  ∀ cs r, len cs = P → left_over U kk r (10 ^ kk) cs → 0 < r < 10 ^ kk → 2 * r = 10 ^ kk.

Lemma half_tie U kk P r cs :
  decade U kk → len cs = P → left_over U kk r (10 ^ kk) cs → 0 < 10 ^ kk → 2 * r = 10 ^ kk → tie U P.
Proof.
  intros HU Hl Hlo Hd Hr. exists kk, (dec_value cs). split; [done|]. unfold left_over in Hlo. rewrite Hl in Hlo.
  apply IZR_lt in Hd. apply (f_equal IZR) in Hr. rewrite mult_IZR, Hlo in Hr. apply Rmult_eq_reg_l with (IZR (10 ^ kk)); lra.
Qed.

(** The digits, with zeros at the end only at a tie. *)
Definition digits_or_tie (U : R) (P : Z) (t : list cell) (s kk : Z) : Prop :=
  ∃ cs, text_of t s cs ∧ decimal U P cs kk ∧ (stripped cs ∨ tie U P).

Lemma int_loop_spec fuel t s u ds i P kk U r cs :
  0 ≤ kk ≤ 14 → is_int ds (10 ^ kk) → is_int u r → 0 < r < 10 * 10 ^ kk → decade U kk → zero_or_half U kk P →
  text_of t s cs → i = len cs + 1 → (0 < fuel)%nat → Z.of_nat fuel + len cs = P → P < len t →
  (cs = [] ∧ 10 ^ kk ≤ r ∨ leading cs) → behind U kk r (10 ^ kk) cs →
  ∃ t' s' kk', int_loop (E:=E) fuel t s u ds i P kk = Done (t', s', kk') ∧ len t' = len t ∧ digits_or_tie U P t' s' kk'.
Proof.
  intros Hk Hds Hu Hr HU Hzh. pose proof (Z.pow_pos_nonneg 10 kk ltac:(lia) ltac:(lia)) as Hd0.
  pose proof (Z.pow_le_mono_r 10 kk 14 ltac:(lia) ltac:(lia)) as Hd14. set (d := 10 ^ kk) in *.
  revert t s u i r cs Hu Hr. induction fuel as [|fuel IH]; intros t s u i r cs Hu Hr Ht Hi Hf0 Hf Hlt Hl Hbe; [lia|].
  cbn [int_loop]. rewrite (int_quotient u ds r d) by done. cbn [obind].
  assert (0 ≤ r / d < 10) as Hqr by (split; [apply Z.div_pos|apply Z.div_lt_upper_bound]; lia).
  pose proof (Z.mod_pos_bound r d Hd0) as Hm. pose proof (Z.div_mod r d ltac:(lia)) as Hdm.
  assert (is_int (fsub u (fmul (of_Z (r / d)) ds)) (r mod d)) as Hu1.
  { replace (r mod d) with (r - r / d * d) by lia. apply is_int_sub; [done| |lia].
    apply is_int_mul; [apply is_int_of_Z; lia|done|lia]. }
  set (u1 := fsub u _) in *. clearbody u1. rewrite Z.add_comm.
  destruct (put_char_spec (E:=E) t s cs (r / d + 48) Ht) as (t1 & -> & Ht1 & Hl1); [lia|destruct Ht as (_ & -> & _); lia|].
  cbn [obind]. cbv zeta. rewrite (is_int_zero _ _ Hu1).
  pose proof (behind_digit U kk r d cs Hd0 Hbe) as Hlo. set (cs1 := cs ++ [r / d + 48]) in *.
  assert (leading cs1) as Hlead.
  { destruct Hl as [[-> Hge]|Hl]; [|by apply leading_app]. apply leading_head.
    assert (1 ≤ r / d) by (apply Z.div_le_lower_bound; lia). lia. }
  assert (len cs1 = len cs + 1) as Hlen1 by (unfold cs1; rewrite length_app; cbn [length]; lia).
  destruct (Z.eqb_spec (r mod d) 0) as [Hz|Hz].
  { eexists _, _, _. split; [done|]. split; [done|]. exists cs1. split; [done|]. split; [|left; apply stripped_snoc; nia].
    apply decimal_exact; [done|apply Ht1|done|lia|]. unfold left_over in Hlo. rewrite Hz in Hlo. apply IZR_lt in Hd0.
    apply Rmult_eq_reg_l with (IZR d); lra. }
  destruct (Z.eqb_spec i P) as [HiP|HiP].
  - assert (len cs1 = P) as HlP by lia. assert (2 * (r mod d) = d) as Hhalf by (apply (Hzh cs1); (done || lia)).
    assert (is_int (fadd u1 u1) (r mod d + r mod d)) as Hu2 by (apply is_int_add; (done || lia)).
    assert (tie U P) as Htie by (by apply (half_tie U kk P (r mod d) cs1)).
    assert (U * pow10 (P - 1 - kk) = IZR (dec_value cs1) + / 2)%R as Hq.
    { unfold left_over in Hlo. rewrite HlP in Hlo. apply IZR_lt in Hd0. apply (f_equal IZR) in Hhalf.
      rewrite mult_IZR, Hlo in Hhalf. apply Rmult_eq_reg_l with (IZR d); lra. }
    pose proof (nearest_tie _ _ Hq) as Hnear.
    assert (Z.odd (dec_value cs1) = Z.odd (r / d)) as Hodd.
    { unfold cs1. rewrite dec_value_snoc, Z.odd_add, Z.odd_mul, andb_false_r, Z.odd_sub, Z.odd_add. by destruct (Z.odd (r / d)). }
    destruct Hds as [Gds Vds]. destruct Hu2 as [Gu2 Vu2]. replace (r mod d + r mod d) with d in Vu2 by lia.
    assert (SFltb ds (fadd u1 u1) = false) as ->. { apply SFltb_false; [done|done|]. rewrite Vds, Vu2. lra. }
    assert (SFeqb (fadd u1 u1) ds = true) as ->. { apply SFeqb_ok; [done|done|]. by rewrite Vds, Vu2. }
    rewrite Hodd in Hnear. cbn [orb andb]. destruct (Z.odd (r / d)).
    + destruct (bump_up_spec (E:=E) (S (Z.to_nat (s + 1))) t1 (s + 1) cs1 kk) as (t' & cs' & kk' & -> & Ht' & Hl' & Hra); [done|done| |].
      { destruct Ht1 as (_ & -> & _). lia. }
      eexists _, _, _. split; [done|]. split; [lia|]. exists cs'. split; [done|]. split; [|by right].
      eapply decimal_up; try done. apply Ht'.
    + eexists _, _, _. split; [done|]. split; [lia|]. exists cs1. split; [done|]. split; [|by right].
      eapply (decimal_down _ _ cs1 cs1 0); [done|apply Ht1|done|done|by rewrite app_nil_r|done].
  - destruct (IH t1 (s + 1) (fmul u1 (of_Z 10)) (i + 1) (r mod d * 10 + 0) cs1) as (t' & s' & kk' & Heq & Hl' & Hres);
      try done; try lia.
    + rewrite Z.add_0_r. apply is_int_mul; [done|by apply is_int_of_Z|lia].
    + by right.
    + by apply behind_next.
    + exists t', s', kk'. split; [done|]. split; [lia|done].
Qed.

(** An integer has no digits behind the point. *)
Lemma integer_zero_or_half z kk P : 0 ≤ kk → kk < P → zero_or_half (IZR z) kk P.
Proof.
  intros Hk HP cs r Hl Hlo Hr. unfold left_over in Hlo. rewrite Hl, pow10_IZR, <- mult_IZR, <- minus_IZR, <- mult_IZR in Hlo by lia.
  apply eq_IZR in Hlo. exfalso. set (w := z * 10 ^ (P - 1 - kk) - dec_value cs) in *. set (d := 10 ^ kk) in *.
  assert (0 < w) by nia. nia.
Qed.

Lemma small_integer_spec u z kk P t :
  is_int u z → decade (IZR z) kk → 0 ≤ kk ≤ 14 → 1 ≤ P < len t → (P ≤ 14 → zero_or_half (IZR z) kk P) →
  ∃ t' s' kk', small_integer (E:=E) u kk P t = Done (t', s', kk') ∧ len t' = len t ∧ digits_or_tie (IZR z) P t' s' kk'.
Proof.
  intros Hu HU Hk HP Hzh. pose proof HU as [Hlo Hhi]. rewrite pow10_IZR in Hlo by lia. rewrite pow10_IZR in Hhi by lia.
  apply le_IZR in Hlo. apply lt_IZR in Hhi. rewrite Z.pow_add_r in Hhi by lia.
  destruct (tens_ok (E:=E) kk ltac:(lia)) as (ds & Hds & Gds & Vds). rewrite pow10_IZR in Vds by lia.
  unfold small_integer. rewrite Hds. cbn [obind].
  pose proof (Z.pow_pos_nonneg 10 kk ltac:(lia) ltac:(lia)).
  apply (int_loop_spec _ t 0 u ds 1 P kk (IZR z) z []); try done; try (cbn [length]; lia).
  - destruct (decide (P ≤ 14)); [by apply Hzh|]. apply integer_zero_or_half; lia.
  - split; [done|]. split; [done|]. by exists t.
  - left. done.
  - unfold behind. change (IZR (dec_value [])) with 0%R. change (len [] - kk) with (- kk).
    rewrite <- (pow10_IZR kk) by lia. rewrite Rmult_0_r, Rminus_0_r.
    replace (pow10 kk * (IZR z * pow10 (- kk)))%R with (IZR z * (pow10 kk * pow10 (- kk)))%R by ring. rewrite pow10_neg. lra.
Qed.
End small.
End DtoaSmall.
