(* ===== verification/DtoaScale.v ===== *)
(** * Relative errors of doubles

    [within n y x]: the double [y] is [x > 0] up to [n] roundings. Products and quotients
    add their errors; [n] roundings are an error of little more than [n * 2^-53]. *)
From Stdlib Require Import Reals Lra.
From S2P Require Import Prelude Libc Double DoubleSpec Dtoa FloatSpec FloatOps DtoaEstimate.

Module DtoaErrors.
Import Double DoubleSpec Dtoa FloatSpec FloatOps.

(** A rounding, and the growth of the error. *)
Definition eps : R := pow2 (-53).
Definition growth : R := (/ (1 - eps))%R.

Lemma eps_range : (0 < eps <= / 1000000000000000)%R.
Proof.
  unfold eps. split; [apply pow2_pos|]. change (-53) with (- (53)). rewrite <- pow2_inv, pow2_IZR by lia.
  apply Rinv_le_contravar; [lra|]. change (2 ^ 53) with 9007199254740992. lra.
Qed.

Lemma growth_eq : (growth * (1 - eps) = 1)%R.
Proof. unfold growth. pose proof eps_range. apply Rinv_l. lra. Qed.
Lemma growth_range : (1 <= growth <= 1 + eps * (1001 / 1000))%R.
Proof.
  pose proof eps_range. pose proof growth_eq. split.
  - apply Rmult_le_reg_r with (1 - eps)%R; lra.
  - apply Rmult_le_reg_r with (1 - eps)%R; nra.
Qed.

Lemma growth_pow n : (1 <= growth ^ n)%R.
Proof. apply pow_R1_Rle. apply growth_range. Qed.

Lemma growth_bound n : (n ≤ 64)%nat → (growth ^ n <= 1 + INR n * (eps * (1002 / 1000)))%R.
Proof.
  pose proof eps_range. induction n as [|n IH]; intros Hn; [cbn; lra|]. specialize (IH ltac:(lia)).
  rewrite S_INR. cbn [pow]. pose proof growth_range. pose proof (growth_pow n).
  assert (0 <= INR n <= 64)%R as Hr by (rewrite INR_IZR_INZ; split; apply IZR_le; lia).
  set (h := (eps * (1002 / 1000))%R). assert (growth <= 1 + h - eps * / 1000)%R by (unfold h; lra).
  assert (INR n * h * h <= eps * / 1000 / 2)%R.
  { assert (h * h <= eps * / 100000000000000)%R by (unfold h; assert (eps * eps <= eps * / 1000000000000000)%R by nra; lra).
    assert (0 <= h * h)%R by nra. rewrite Rmult_assoc. nra. }
  fold h in IH. assert (0 <= h)%R by (unfold h; lra). assert (0 <= INR n * h)%R by nra.
  apply Rle_trans with ((1 + h - eps * / 1000) * (1 + INR n * h))%R; [apply Rmult_le_compat; lra|]. nra.
Qed.

(** ** Numbers up to an error *)
Definition within (n : nat) (y x : R) : Prop := (0 < x ∧ x <= y * growth ^ n ∧ y <= x * growth ^ n)%R.

Lemma within_pos n y x : within n y x → (0 < y)%R.
Proof. intros (Hx & H1 & _). pose proof (growth_pow n). nra. Qed.

Lemma within_refl x : (0 < x)%R → within 0 x x.
Proof. intros. split; [done|]. cbn. lra. Qed.

Lemma within_le n m y x : (n ≤ m)%nat → within n y x → within m y x.
Proof.
  intros Hnm H. pose proof (within_pos _ _ _ H). destruct H as (Hx & H1 & H2). replace m with (n + (m - n))%nat by lia.
  pose proof (growth_pow (m - n)). pose proof (growth_pow n). unfold within. rewrite pow_add. split; [done|].
  assert (0 <= y * growth ^ n)%R by nra. assert (0 <= x * growth ^ n)%R by nra. split; nra.
Qed.

Lemma within_trans n m x y z : within n y x → within m z y → within (n + m) z x.
Proof.
  intros (Hx & H1 & H2) (Hy & H3 & H4). unfold within. rewrite pow_add. split; [done|].
  pose proof (growth_pow n). pose proof (growth_pow m). split.
  - apply Rle_trans with (y * growth ^ n)%R; [done|]. replace (z * (growth ^ n * growth ^ m))%R with (z * growth ^ m * growth ^ n)%R by ring. nra.
  - apply Rle_trans with (y * growth ^ m)%R; [done|]. replace (x * (growth ^ n * growth ^ m))%R with (x * growth ^ n * growth ^ m)%R by ring. nra.
Qed.

Lemma within_scale n y x c : (0 < c)%R → within n y x → within n (y * c) (x * c).
Proof. intros Hc (Hx & H1 & H2). split; [nra|]. split; [replace (y * c * growth ^ n)%R with (y * growth ^ n * c)%R by ring|replace (x * c * growth ^ n)%R with (x * growth ^ n * c)%R by ring]; nra. Qed.

Lemma within_mult n m y x y' x' : within n y x → within m y' x' → within (n + m) (y * y') (x * x').
Proof.
  intros H H'. pose proof (within_pos _ _ _ H). apply (within_trans n m _ (y * x')).
  - apply within_scale; [apply H'|done].
  - rewrite !(Rmult_comm y). by apply within_scale.
Qed.

Lemma within_inv n y x : within n y x → within n (/ y) (/ x).
Proof.
  intros H. pose proof (within_pos _ _ _ H) as Hy. destruct H as (Hx & H1 & H2). pose proof (growth_pow n).
  assert (∀ a b, 0 < a → 0 < b → b <= a * growth ^ n → / a <= / b * growth ^ n)%R as Hi.
  { intros a b Ha Hb Hab. apply Rmult_le_reg_r with (a * b)%R; [nra|].
    replace (/ a * (a * b))%R with b by (field; lra). replace (/ b * growth ^ n * (a * b))%R with (a * growth ^ n)%R by (field; lra). done. }
  split; [by apply Rinv_0_lt_compat|]. split; by apply Hi.
Qed.

Lemma within_div n m y x y' x' : within n y x → within m y' x' → within (n + m) (y / y') (x / x').
Proof. intros H H'. apply within_mult; [done|]. by apply within_inv. Qed.

(** The absolute error. *)
Lemma within_error n y x : (n ≤ 64)%nat → within n y x → (Rabs (y - x) <= INR n * (eps * (1002 / 1000)) * x)%R.
Proof.
  intros Hn H. pose proof (within_pos _ _ _ H). destruct H as (Hx & H1 & H2). pose proof (growth_bound n Hn) as Hg. pose proof (growth_pow n).
  set (c := (INR n * (eps * (1002 / 1000)))%R) in *. assert (0 <= c)%R as Hc.
  { unfold c. pose proof eps_range. pose proof (pos_INR n). nra. }
  apply Rabs_le. split; [|nra]. assert (y * growth ^ n <= y * (1 + c))%R by nra.
  destruct (Rle_dec y x); nra.
Qed.

(** ** Roundings *)
Lemma within_one y r : (0 < r)%R → (Rabs (y - r) <= eps * r)%R → within 1 y r.
Proof.
  intros Hr Hy. apply Rabs_le_inv in Hy. pose proof eps_range. pose proof growth_range. pose proof growth_eq.
  split; [done|]. rewrite pow_1. split; [|nra].
  apply Rle_trans with (r * (1 - eps) * growth)%R; [|nra]. replace (r * (1 - eps) * growth)%R with (r * (growth * (1 - eps)))%R by ring. nra.
Qed.

Lemma rounds_within y r : rounds y r → (pow2 (-1022) <= r)%R → within 1 (val y) r.
Proof.
  intros Hr Hn. pose proof (pow2_pos (-1022)). apply within_one; [lra|].
  pose proof (rounds_relative y r Hr) as He. rewrite Rabs_pos_eq in He by lra. by apply He.
Qed.

(** A multiple of the smallest double is exact, or large enough. *)
Lemma rounds_multiple y r z : rounds y r → r = (IZR z * pow2 (-1074))%R → 0 < z → within 1 (val y) r.
Proof.
  intros Hr -> Hz. pose proof (pow2_pos (-1074)). apply IZR_lt in Hz as Hz'.
  destruct (decide (z < 2 ^ 53)) as [Hs|Hs].
  - rewrite (rounds_exact _ _ Hr); [|exists z, (-1074); split; [done|lia]].
    apply (within_le 0); [lia|]. apply within_refl. nra.
  - apply rounds_within; [done|]. change (-1022) with (52 + -1074). rewrite pow2_add, pow2_IZR by lia.
    apply Rmult_le_compat_r; [lra|]. apply IZR_le. lia.
Qed.

Lemma good_multiple x : good x → ∃ z, val x = (IZR z * pow2 (-1074))%R.
Proof.
  intros [Hf Hok]. destruct x as [s| | |s m e]; try done; [exists 0; cbn; lra|].
  destruct (double_ok_mantissa _ _ _ Hok) as (_ & He & _).
  assert (IZR (Z.pos m) * pow2 e = IZR (Z.pos m * 2 ^ (e + 1074)) * pow2 (-1074))%R as Heq.
  { rewrite mult_IZR, <- pow2_IZR, Rmult_assoc, <- pow2_add by lia. do 2 f_equal. lia. }
  rewrite val_sign. destruct s; [exists (- (Z.pos m * 2 ^ (e + 1074)))|exists (Z.pos m * 2 ^ (e + 1074))]; rewrite ?opp_IZR; lra.
Qed.

(** A product with an integer. *)
Lemma fmul_within x y z :
  good x → good y → val y = IZR z → 0 < z → (0 < val x)%R → (val x * val y < pow2 1023)%R →
  good (fmul x y) ∧ within 1 (val (fmul x y)) (val x * val y).
Proof.
  intros Gx Gy Hy Hz Hx Hmax. apply IZR_lt in Hz as Hz'.
  assert (rounds (fmul x y) (val x * val y)) as Hr.
  { apply fmul_ok; [done|done|]. rewrite Rabs_pos_eq; [done|]. rewrite Hy. nra. }
  split; [by eapply rounds_good|]. destruct (good_multiple x Gx) as [w Hw].
  apply (rounds_multiple _ _ (w * z) Hr); [rewrite mult_IZR, Hw, Hy; ring|].
  assert (0 < w); [|nia]. apply lt_IZR. pose proof (pow2_pos (-1074)). rewrite Hw in Hx. nra.
Qed.

(** A quotient that is neither small nor large. *)
Lemma fdiv_within x y :
  good x → good y → (0 < val x)%R → (0 < val y)%R → (pow2 (-1022) <= val x / val y < pow2 1023)%R →
  good (fdiv x y) ∧ within 1 (val (fdiv x y)) (val x / val y).
Proof.
  intros Gx Gy Hx Hy Hq. pose proof (fdiv_ok x y Gx Gy Hx Hy Hq) as Hr. split; [by eapply rounds_good|].
  apply rounds_within; [done|apply Hq].
Qed.
End DtoaErrors.

(** * dtoa.c: the scaling of the quick conversion

    The double is divided by a power of 10, or multiplied with one, by the bits of the
    exponent; [ieps] counts the roundings, and [quick_scale_spec] says that it counts
    enough of them. *)
Module DtoaScale.
Import Double DoubleSpec Dtoa FloatSpec FloatOps DtoaEstimate DtoaErrors.

(** ** The large powers of 10 *)
Definition near_power (d : double) (j : Z) : bool :=
  match d with
  | S754_finite false m e =>
      valid_binary 53 1024 d && (0 <=? e) && (Z.abs (Z.pos m * 2 ^ e - 10 ^ j) * 2 ^ 53 <=? 10 ^ j)
  | _ => false
  end.

Lemma near_power_ok d j :
  0 ≤ j → near_power d j = true → good d ∧ (∃ z, val d = IZR z ∧ 0 < z) ∧ within 1 (val d) (pow10 j).
Proof.
  intros Hj. destruct d as [| | |[] m e]; try done. cbn [near_power].
  intros [[Hv He%Z.leb_le]%andb_prop Hz%Z.leb_le]%andb_prop.
  assert (val (S754_finite false m e) = IZR (Z.pos m * 2 ^ e)) as Hval by (rewrite val_sign, mult_IZR, pow2_IZR by done; done).
  split; [done|]. split.
  { exists (Z.pos m * 2 ^ e). split; [done|]. pose proof (Z.pow_pos_nonneg 2 e ltac:(lia) He). lia. }
  apply within_one; [apply pow10_pos|]. rewrite Hval, pow10_IZR, <- minus_IZR, <- abs_IZR by done.
  apply IZR_le in Hz. rewrite mult_IZR, <- (pow2_IZR 53) in Hz by lia. unfold eps. pose proof (pow2_neg 53) as Hn.
  change (- (53)) with (-53) in Hn. pose proof (pow2_pos (-53)).
  set (a := IZR (Z.abs _)) in *. set (b := IZR (10 ^ j)) in *.
  replace a with (pow2 (-53) * (a * pow2 53))%R by (replace (pow2 (-53) * (a * pow2 53))%R with (a * (pow2 53 * pow2 (-53)))%R by ring; rewrite Hn; ring).
  apply Rmult_le_compat_l; lra.
Qed.

Lemma bigtens_checked : forallb (λ p, near_power p.2 p.1) (zip [16; 32; 64; 128; 256] bigtens) = true.
Proof. vm_compute. reflexivity. Qed.

Section scale.
Context {E : Type}.

Lemma bigtens_ok i : 0 ≤ i ≤ 4 → ∃ t, rd (E:=E) bigtens i = Done t ∧ good t ∧ (∃ z, val t = IZR z ∧ 0 < z) ∧
  within 1 (val t) (pow10 (16 * 2 ^ i)).
Proof.
  intros Hi. pose proof bigtens_checked as Hc. cbn [zip zip_with bigtens] in Hc. cbn [forallb fst snd] in Hc.
  rewrite !andb_true_iff in Hc. destruct Hc as (H0 & H1 & H2 & H3 & H4 & _).
  assert (i = 0 ∨ i = 1 ∨ i = 2 ∨ i = 3 ∨ i = 4) as [ -> |[ -> |[ -> |[ -> | -> ]]]] by lia;
    (eexists; split; [reflexivity|]; apply near_power_ok; [lia|assumption]).
Qed.

Lemma within_max n y x B : (n ≤ 64)%nat → within n y x → (x <= B)%R → (y <= 2 * B)%R.
Proof.
  intros Hn (Hx & _ & H2) HB. pose proof (growth_bound n Hn) as Hg. pose proof eps_range. pose proof (growth_pow n).
  assert (0 <= INR n <= 64)%R as Hr by (rewrite INR_IZR_INZ; split; apply IZR_le; lia).
  assert (growth ^ n <= 2)%R by nra. nra.
Qed.

Lemma large_power : (2 * pow10 300 < pow2 1023)%R.
Proof. rewrite pow10_IZR, pow2_IZR, <- mult_IZR by lia. apply IZR_lt. vm_compute. reflexivity. Qed.

Lemma bigtens_loop_spec fuel d j i ieps n X :
  0 ≤ i → 0 ≤ j → j * 2 ^ i < 32 → (0 < fuel)%nat → j < 2 ^ (Z.of_nat fuel - 1) → (n + 2 * fuel ≤ 60)%nat →
  good d → within n (val d) X → (X * pow10 (16 * 2 ^ i * j) <= pow10 300)%R →
  ∃ d' c, bigtens_loop (E:=E) fuel d j i ieps = Done (d', ieps + Z.of_nat c) ∧ (c < fuel)%nat ∧ good d' ∧
    within (n + 2 * c) (val d') (X * pow10 (16 * 2 ^ i * j)).
Proof.
  revert d j i ieps n X. induction fuel as [|fuel IH]; intros d j i ieps n X Hi Hj Hji Hf0 Hf Hn Gd Hd Hmax; [lia|].
  cbn [bigtens_loop]. destruct (Z.eqb_spec j 0) as [->|Hj0].
  { exists d, O. rewrite Z.add_0_r, Z.mul_0_r, Nat.add_0_r. change (pow10 0) with 1%R. rewrite Rmult_1_r. repeat split; (done || lia || apply Gd || apply Hd). }
  pose proof (Z.pow_pos_nonneg 2 i ltac:(lia) Hi) as Hpi.
  assert (0 < fuel)%nat as Hf1 by (destruct fuel; [change (2 ^ (Z.of_nat 1 - 1)) with 1 in Hf; lia|lia]).
  assert (j / 2 < 2 ^ (Z.of_nat fuel - 1)) as Hf'.
  { apply Z.div_lt_upper_bound; [lia|]. rewrite <- Z.pow_succ_r by lia. by replace (Z.succ (Z.of_nat fuel - 1)) with (Z.of_nat (S fuel) - 1) by lia. }
  pose proof (Z.div_mod j 2 ltac:(lia)) as Hdm. rewrite Zmod_odd in Hdm.
  assert (Z.shiftr j 1 = j / 2) as -> by (by rewrite Z.shiftr_div_pow2 by lia).
  assert (0 ≤ j / 2) by (apply Z.div_pos; lia).
  assert (j / 2 * 2 ^ (i + 1) < 32) as Hji' by (rewrite Z.pow_add_r by lia; change (2 ^ 1) with 2; destruct (Z.odd j); nia).
  destruct (Z.odd j) eqn:Hodd.
  - assert (i ≤ 4) as Hi4.
    { destruct (decide (i ≤ 4)) as [|H4]; [done|]. pose proof (Z.pow_le_mono_r 2 5 i ltac:(lia) ltac:(lia)) as Hp. change (2 ^ 5) with 32 in Hp. nia. }
    destruct (bigtens_ok i ltac:(lia)) as (t & -> & Gt & (z & Vt & Hz) & Ht). cbn [obind].
    assert (pow10 (16 * 2 ^ i * j) = pow10 (16 * 2 ^ i) * pow10 (16 * 2 ^ (i + 1) * (j / 2)))%R as Hsplit.
    { rewrite <- tenpow_add. f_equal. rewrite Hdm at 1. rewrite Z.pow_add_r by lia. change (2 ^ 1) with 2. ring. }
    rewrite Hsplit, <- Rmult_assoc in Hmax |- *. pose proof (within_mult _ _ _ _ _ _ Hd Ht) as Hdt.
    assert (1 <= pow10 (16 * 2 ^ (i + 1) * (j / 2)))%R as H1.
    { change 1%R with (pow10 0). apply pow10_le. pose proof (Z.pow_pos_nonneg 2 (i + 1) ltac:(lia) ltac:(lia)). nia. }
    assert (X * pow10 (16 * 2 ^ i) <= pow10 300)%R as Hmax'.
    { destruct Hdt as [Hpos _]. eapply Rle_trans; [|exact Hmax]. rewrite <- (Rmult_1_r (X * _)) at 1.
      apply Rmult_le_compat_l; lra. }
    destruct (fmul_within d t z Gd Gt Vt Hz) as [Gdt Hr]; [by apply within_pos in Hd|..].
    { eapply Rle_lt_trans; [apply (within_max (n + 1) _ _ _ ltac:(lia) Hdt Hmax')|apply large_power]. }
    destruct (IH (fmul d t) (j / 2) (i + 1) (ieps + 1) (n + 2)%nat (X * pow10 (16 * 2 ^ i))%R) as (d' & c & -> & Hc & Gd' & Hd');
      try done; try lia.
    { apply (within_trans _ 1 _ _ _ Hdt) in Hr. by replace (n + 2)%nat with (n + 1 + 1)%nat by lia. }
    exists d', (S c). split; [do 2 f_equal; lia|]. split; [lia|]. split; [done|]. by replace (n + 2 * S c)%nat with (n + 2 + 2 * c)%nat by lia.
  - cbn [obind]. assert (16 * 2 ^ i * j = 16 * 2 ^ (i + 1) * (j / 2)) as Heq.
    { rewrite Hdm at 1. rewrite Z.pow_add_r by lia. change (2 ^ 1) with 2. ring. }
    rewrite Heq in Hmax |- *. destruct (IH d (j / 2) (i + 1) ieps n X) as (d' & c & -> & Hc & Gd' & Hd'); try done; try lia.
    exists d', c. repeat split; (done || lia || apply Gd' || apply Hd').
Qed.

(** ** The scaling *)
Lemma pow2_1022_small : (pow2 (-1022) <= / 4)%R.
Proof. apply Rle_trans with (pow2 (-2)); [apply pow2_le; lia|]. change (-2) with (- (2)). rewrite <- pow2_inv, pow2_IZR by lia. change (2 ^ 2) with 4. lra. Qed.
Lemma pow2_1023_large : (1000 < pow2 1023)%R.
Proof. apply Rlt_le_trans with (pow2 10); [rewrite pow2_IZR by lia; change (2 ^ 10) with 1024; lra|apply pow2_le; lia]. Qed.

(** The double divided by [10^kk] is not small and not large. *)
Lemma scaled_range U kk : (7 / 8 * pow10 kk <= U < pow10 (kk + 1))%R → (7 / 8 <= U * pow10 (- kk) < 10)%R.
Proof.
  intros [H1 H2]. rewrite pow10_S in H2. pose proof (pow10_pos (- kk)). pose proof (pow10_neg kk) as Hn.
  apply Rmult_le_compat_r with (r := pow10 (- kk)) in H1; [|lra]. apply Rmult_lt_compat_r with (r := pow10 (- kk)) in H2; [|lra].
  rewrite Rmult_assoc, Hn in H1, H2. lra.
Qed.

Lemma fdiv_power u ds kk :
  good u → good ds → val ds = pow10 kk → (7 / 8 * pow10 kk <= val u < pow10 (kk + 1))%R →
  rounds (fdiv u ds) (val u * pow10 (- kk)).
Proof.
  intros Gu Gds Hds HU. pose proof (scaled_range _ _ HU) as Hr. pose proof (pow10_pos kk).
  assert (val u * pow10 (- kk) = val u / val ds)%R as Heq by (unfold Rdiv; by rewrite Hds, pow10_inv).
  rewrite Heq in *. pose proof pow2_1022_small. pose proof pow2_1023_large. apply fdiv_ok; [done|done|lra|lra|lra].
Qed.

Lemma land_15 a : Z.land a 15 = a mod 16.
Proof. change 15 with (Z.ones 4). by rewrite Z.land_ones by lia. Qed.
Lemma shiftr_4 a : Z.shiftr a 4 = a / 16.
Proof. by rewrite Z.shiftr_div_pow2 by lia. Qed.

Lemma fmul_exact x y z :
  good x → good y → (val x * val y = IZR z)%R → repr (IZR z) → (Rabs (IZR z) < pow2 1023)%R →
  good (fmul x y) ∧ val (fmul x y) = IZR z.
Proof.
  intros Gx Gy Hz Hr Hmax. pose proof (fmul_ok x y Gx Gy) as H. rewrite Hz in H. specialize (H Hmax).
  split; [by eapply rounds_good|by apply rounds_exact].
Qed.

(** A power of 10 below 10^23 is exact. *)
Lemma small_power kk :
  16 ≤ kk ≤ 22 → ∃ t16 t, rd (E:=E) bigtens 0 = Done t16 ∧ rd (E:=E) tens (kk mod 16) = Done t ∧
    good (fmul t t16) ∧ val (fmul t t16) = pow10 kk.
Proof.
  intros Hk. assert (kk mod 16 = kk - 16) as Hm by (symmetry; apply Z.mod_unique with 1; lia). rewrite Hm.
  destruct (tens_ok (E:=E) (kk - 16) ltac:(lia)) as (t & Ht & Gt & Vt).
  assert (∃ t16, rd (E:=E) bigtens 0 = Done t16 ∧ good t16 ∧ val t16 = IZR (10 ^ 16)) as (t16 & H16 & G16 & V16).
  { eexists. split; [reflexivity|]. apply exact_double_ok. vm_compute. reflexivity. }
  exists t16, t. do 2 (split; [done|]). rewrite pow10_IZR by lia. destruct (tens_ok (E:=E) kk ltac:(lia)) as (p & _ & [Fp Dp] & Vp).
  rewrite pow10_IZR in Vp by lia. apply fmul_exact; [done|done| | |].
  - rewrite Vt, V16, <- (pow10_IZR 16), <- tenpow_add, pow10_IZR by lia. do 2 f_equal. lia.
  - rewrite <- Vp. by apply repr_val.
  - rewrite <- abs_IZR, Z.abs_eq, <- pow10_IZR by (try apply Z.pow_nonneg; lia). pose proof large_power.
    pose proof (pow10_le kk 300 ltac:(lia)). pose proof (pow10_pos 300). lra.
Qed.

Lemma quick_scale_small u kk :
  good u → (7 / 8 * pow10 kk <= val u < pow10 (kk + 1))%R → -1 ≤ kk ≤ 22 →
  ∃ u' ieps, quick_scale (E:=E) u kk = Done (u', ieps) ∧ rounds u' (val u * pow10 (- kk)) ∧ 2 ≤ ieps ≤ 3 ∧ (kk < 16 → ieps = 2).
Proof.
  intros Gu HU Hk. unfold quick_scale. cbv zeta. destruct (Z.ltb_spec 0 kk) as [Hpos|Hneg]; [|destruct (Z.eqb_spec kk 0) as [->|H0]].
  - rewrite land_15, shiftr_4. destruct (decide (kk < 16)) as [Hs|Hs].
    + rewrite Z.mod_small, Z.div_small by lia. destruct (tens_ok (E:=E) kk ltac:(lia)) as (t & -> & Gt & Vt). cbn.
      exists (fdiv u t), 2. split; [done|]. split; [by apply fdiv_power|lia].
    + destruct (small_power kk ltac:(lia)) as (t16 & t & H16 & -> & Gd & Vd).
      assert (kk / 16 = 1) as -> by (symmetry; apply Z.div_unique with (kk - 16); lia). cbn [obind].
      change (Z.land 1 Bletch =? 0) with true. cbn [obind bigtens_loop]. change (1 =? 0) with false. change (Z.odd 1) with true.
      cbv iota. rewrite H16. cbn [obind]. change (Z.shiftr 1 1) with 0. cbn [Z.eqb]. change (0 =? 0) with true. cbv iota. cbn [obind].
      exists (fdiv u (fmul t t16)), (2 + 1). split; [done|]. split; [by apply fdiv_power|lia].
  - exists u, 2. split; [done|]. change (pow10 (- 0)) with 1%R. rewrite Rmult_1_r. split; [by apply rounds_self|lia].
  - assert (kk = -1) as -> by lia. destruct (tens_ok (E:=E) 1 ltac:(lia)) as (t & Ht & Gt & Vt).
    change (Z.land (- -1) 15) with 1. rewrite Ht. cbn. exists (fmul u t), 2. split; [done|]. split; [|lia].
    change (- -1) with 1 in *. rewrite <- Vt. apply fmul_ok; [done|done|]. rewrite Vt.
    pose proof (scaled_range _ _ HU) as Hr. change (- -1) with 1 in Hr. pose proof pow2_1023_large. rewrite Rabs_pos_eq; lra.
Qed.

Lemma land_16 j : 0 ≤ j < 32 → (Z.land j Bletch =? 0) = (j <? 16).
Proof.
  intros Hj. change Bletch with (Z.shiftl 1 4). destruct (Z.ltb_spec j 16) as [Hlt|Hge].
  - apply Z.eqb_eq, Z.bits_inj'. intros i Hi. rewrite Z.land_spec, Z.bits_0, Z.shiftl_spec by done.
    destruct (Z.lt_ge_cases i 4); [by rewrite (Z.testbit_neg_r 1), andb_false_r by lia|].
    rewrite <- (Z.mod_small j (2 ^ 4)), Z.mod_pow2_bits_high by lia. done.
  - apply Z.eqb_neq. intros H. apply (f_equal (λ z, Z.testbit z 4)) in H. rewrite Z.land_spec, Z.bits_0 in H.
    assert (Z.testbit j 4 = true) as Hb; [|by rewrite Hb in H].
    rewrite Z.testbit_true by lia. change (2 ^ 4) with 16. by replace (j / 16) with 1 by (apply Z.div_unique with (j - 16); lia).
Qed.

Lemma tens_within a : 0 ≤ a < 16 → ∃ t, rd (E:=E) tens a = Done t ∧ good t ∧ within 0 (val t) (pow10 a) ∧ val t = IZR (10 ^ a).
Proof.
  intros Ha. destruct (tens_ok (E:=E) a ltac:(lia)) as (t & Ht & Gt & Vt). exists t. do 2 (split; [done|]).
  rewrite Vt, pow10_IZR by lia. split; [|done]. apply within_refl. rewrite <- pow10_IZR by lia. apply pow10_pos.
Qed.

Lemma within_range n y x a b : (n ≤ 40)%nat → within n y x → (a <= x <= b)%R → (0 < a)%R → (a / 2 <= y <= 2 * b)%R.
Proof.
  intros Hn H Hx Ha. split; [|apply (within_max n y x); [lia|done|lra]].
  pose proof (within_pos _ _ _ H). destruct H as (_ & H1 & _). pose proof (growth_bound n ltac:(lia)) as Hg. pose proof eps_range.
  assert (0 <= INR n <= 64)%R as Hr by (rewrite INR_IZR_INZ; split; apply IZR_le; lia).
  assert (growth ^ n <= 2)%R by nra. nra.
Qed.

(** A quotient of numbers up to an error. *)
Lemma fdiv_errors n m x y X Y :
  good x → good y → within n (val x) X → within m (val y) Y → (n + m ≤ 40)%nat → (/ 100 <= X / Y <= 100)%R →
  good (fdiv x y) ∧ within (n + m + 1) (val (fdiv x y)) (X / Y).
Proof.
  intros Gx Gy Hx Hy Hn Hq. pose proof (within_div _ _ _ _ _ _ Hx Hy) as Hd.
  pose proof (within_range _ _ _ _ _ Hn Hd Hq ltac:(lra)) as Hr. pose proof pow2_1023_large.
  assert (pow2 (-1022) <= / 1000)%R.
  { apply Rle_trans with (pow2 (- (10))); [apply pow2_le; lia|]. rewrite <- pow2_inv, pow2_IZR by lia.
    apply Rinv_le_contravar; [lra|]. change (2 ^ 10) with 1024. lra. }
  destruct (fdiv_within x y Gx Gy) as [Gd Hw]; [by eapply within_pos|by eapply within_pos|lra|].
  split; [done|]. by apply (within_trans _ _ _ (val x / val y)).
Qed.

Lemma quick_scale_large u kk :
  good u → (7 / 8 * pow10 kk <= val u < pow10 (kk + 1))%R → -326 ≤ kk ≤ 310 → kk ≠ 0 →
  ∃ u' ieps n, quick_scale (E:=E) u kk = Done (u', ieps) ∧ good u' ∧ within n (val u') (val u * pow10 (- kk)) ∧
    2 ≤ ieps ≤ 8 ∧ Z.of_nat n + 3 ≤ 2 * ieps ∧ (n ≤ 20)%nat.
Proof.
  intros Gu HU Hk Hk0. pose proof (scaled_range _ _ HU) as Hr. unfold quick_scale. cbv zeta.
  assert (0 < val u)%R as Hu by (pose proof (pow10_pos kk); lra).
  destruct (Z.ltb_spec 0 kk) as [Hpos|Hneg]; [|destruct (Z.eqb_spec kk 0); [done|]].
  - rewrite land_15, shiftr_4. pose proof (Z.mod_pos_bound kk 16 ltac:(lia)) as Hm. pose proof (Z.div_mod kk 16 ltac:(lia)) as Hdm.
    destruct (tens_within (kk mod 16) Hm) as (t & -> & Gt & Ht & _). cbn [obind]. rewrite land_16 by lia.
    destruct (Z.ltb_spec (kk / 16) 16) as [Hj|Hj]; cbn [obind].
    + destruct (bigtens_loop_spec 6 t (kk / 16) 0 2 0 (pow10 (kk mod 16))) as (ds & c & -> & Hc & Gds & Hds); try done; try lia.
      { rewrite <- tenpow_add. apply pow10_le. lia. }
      rewrite <- tenpow_add in Hds. replace (kk mod 16 + 16 * 2 ^ 0 * (kk / 16)) with kk in Hds by lia. cbn [obind].
      assert (val u * pow10 (- kk) = val u / pow10 kk)%R as Heq by (unfold Rdiv; by rewrite pow10_inv).
      rewrite Heq in *. destruct (fdiv_errors 0 (0 + 2 * c) u ds (val u) (pow10 kk)) as [Gd Hw]; try done; [by apply within_refl|lia|lra|].
      eexists _, _, _. split; [done|]. split; [done|]. split; [exact Hw|lia].
    + destruct (bigtens_ok 4 ltac:(lia)) as (b & -> & Gb & _ & Hb). change (16 * 2 ^ 4) with 256 in Hb. cbn [obind].
      change (Bletch - 1) with 15. rewrite land_15. replace ((kk / 16) mod 16) with (kk / 16 - 16) by (apply Z.mod_unique with 1; lia).
      destruct (bigtens_loop_spec 6 t (kk / 16 - 16) 0 3 0 (pow10 (kk mod 16))) as (ds & c & -> & Hc & Gds & Hds); try done; try lia.
      { rewrite <- tenpow_add. apply pow10_le. lia. }
      rewrite <- tenpow_add in Hds. replace (kk mod 16 + 16 * 2 ^ 0 * (kk / 16 - 16)) with (kk - 256) in Hds by lia. cbn [obind].
      assert (val u / pow10 256 = val u * pow10 (- kk) * pow10 (kk - 256))%R as H256.
      { unfold Rdiv. rewrite pow10_inv, Rmult_assoc, <- tenpow_add. do 2 f_equal. lia. }
      pose proof (pow10_le 0 (kk - 256) ltac:(lia)) as Hlo. change (pow10 0) with 1%R in Hlo.
      destruct (fdiv_within u b Gu Gb Hu) as [Gd Hw]; [by eapply within_pos|..].
      { pose proof (within_div 0 1 _ _ _ _ (within_refl _ Hu) Hb) as Hq. rewrite H256 in Hq.
        assert (7 / 8 <= val u * pow10 (- kk) * pow10 (kk - 256) <= pow10 300)%R as Hrange.
        { split; [nra|]. apply Rle_trans with (10 * pow10 (kk - 256))%R; [nra|]. rewrite <- pow10_S. apply pow10_le. lia. }
        pose proof (within_range (0 + 1) _ _ _ _ ltac:(lia) Hq Hrange ltac:(lra)). pose proof pow2_1022_small. pose proof large_power. lra. }
      pose proof (within_div 0 1 _ _ _ _ (within_refl _ Hu) Hb) as Hq. apply (within_trans _ _ _ _ _ Hq) in Hw.
      assert (val u / pow10 256 / pow10 (kk - 256) = val u * pow10 (- kk))%R as Heq.
      { rewrite H256. pose proof (pow10_pos (kk - 256)). field. lra. }
      destruct (fdiv_errors (0 + 1 + 1) (0 + 2 * c) (fdiv u b) ds (val u / pow10 256) (pow10 (kk - 256))) as [Gd2 Hw2]; try done; [lia|lra|].
      rewrite Heq in Hw2. eexists _, _, _. split; [done|]. split; [done|]. split; [exact Hw2|lia].
  - rewrite land_15, shiftr_4. pose proof (Z.mod_pos_bound (- kk) 16 ltac:(lia)) as Hm. pose proof (Z.div_mod (- kk) 16 ltac:(lia)) as Hdm.
    destruct (tens_within (- kk mod 16) Hm) as (t & -> & Gt & Ht & Vt). cbn [obind].
    set (a := - kk mod 16) in *. set (j := - kk / 16) in *.
    assert (val u * pow10 (- kk) = val u * pow10 a * pow10 (16 * j))%R as Hsplit.
    { rewrite Rmult_assoc, <- tenpow_add. do 2 f_equal. lia. }
    pose proof (pow10_le 0 (16 * j) ltac:(lia)) as Hj1. change (pow10 0) with 1%R in Hj1. pose proof (pow10_pos a).
    assert (0 < val u * pow10 a)%R as Hpos by nra.
    assert (val u * pow10 a <= 10)%R as Hmax by (rewrite Hsplit in Hr; nra).
    assert (val t = pow10 a) as Vt' by (rewrite Vt; symmetry; apply pow10_IZR; lia).
    destruct (fmul_within u t (10 ^ a) Gu Gt Vt) as [Gm Hw]; [apply Z.pow_pos_nonneg; lia|done|rewrite Vt'; pose proof pow2_1023_large; lra|].
    rewrite Vt' in Hw.
    destruct (bigtens_loop_spec 6 (fmul u t) j 0 2 1 (val u * pow10 a)) as (ds & c & -> & Hc & Gds & Hds); try done; try lia.
    { change (16 * 2 ^ 0 * j) with (16 * j). rewrite <- Hsplit. pose proof (pow10_le 1 300 ltac:(lia)) as H300. rewrite (pow10_IZR 1) in H300 by lia. change (10 ^ 1) with 10 in H300. lra. }
    change (16 * 2 ^ 0 * j) with (16 * j) in Hds. rewrite <- Hsplit in Hds.
    eexists _, _, _. split; [done|]. split; [done|]. split; [exact Hds|lia].
Qed.
End scale.
End DtoaScale.
