(* ===== verification/DtoaQuick.v ===== *)
(** * dtoa.c: few digits by floating-point arithmetic

    The digits of the scaled double are its integer parts, and the bound [eps] is above
    the error of what is left behind them. When the rest is further from a half than
    [eps], the digits are right; else the conversion starts again with big integers. *)
From Stdlib Require Import Reals Lra.
From S2P Require Import Prelude Libc Double DoubleSpec Bigint BigintSpec Dtoa FloatSpec FloatOps DtoaEstimate DtoaDigits DtoaBig DtoaScale.

Module DtoaQuick.
Import Double DoubleSpec Bigint BigintSpec Dtoa FloatSpec FloatOps DtoaEstimate DtoaDigits DtoaBig DtoaSmall DtoaErrors DtoaScale.

(** ** Integer parts *)
Lemma sub_floor u z : good u → (0 <= IZR z <= val u)%R → (val u < IZR z + 1)%R → z ≤ 9 →
  good (fsub u (of_Z z)) ∧ val (fsub u (of_Z z)) = (val u - IZR z)%R.
Proof.
  intros Gu [Hz0 Hz] Hu Hz9. apply le_IZR in Hz0 as Hz0'. destruct (of_Z_ok z ltac:(lia)) as [Gz Vz].
  assert (rounds (fsub u (of_Z z)) (val u - IZR z)) as Hr.
  { rewrite <- Vz. apply fsub_ok; [done..|]. rewrite Vz. apply (small_range _ 1); [|lra]. rewrite Rabs_pos_eq; lra. }
  split; [by eapply rounds_good|]. apply rounds_exact; [done|]. destruct Gu as [Hf Hok].
  destruct u as [s| | |s m e]; try done.
  { change (val (S754_zero s)) with 0%R in *. assert (IZR z = 0)%R as -> by lra. rewrite Rminus_0_r. apply (repr_IZR 0). lia. }
  destruct (double_ok_mantissa _ _ _ Hok) as (_ & He & Hm). rewrite val_sign in *.
  assert (0 < IZR (Z.pos m) * pow2 e)%R by (apply Rmult_lt_0_compat; [by apply IZR_lt|apply pow2_pos]).
  destruct s; [lra|]. destruct (decide (0 ≤ e)) as [He0|He0].
  - rewrite pow2_IZR, <- mult_IZR in * by done. apply le_IZR in Hz. rewrite <- plus_IZR in Hu. apply lt_IZR in Hu.
    assert (Z.pos m * 2 ^ e = z) as -> by lia. rewrite Rminus_diag. apply (repr_IZR 0). lia.
  - exists (Z.pos m - z * 2 ^ (- e)), e. rewrite minus_IZR, mult_IZR, <- pow2_IZR by lia.
    split; [rewrite Rmult_minus_distr_r, Rmult_assoc, (Rmult_comm (pow2 (- e))), pow2_neg; lra|].
    split; [|lia]. pose proof (Z.pow_pos_nonneg 2 (- e) ltac:(lia) ltac:(lia)).
    assert (z * 2 ^ (- e) ≤ Z.pos m); [|nia]. apply le_IZR. rewrite mult_IZR, <- pow2_IZR by lia.
    pose proof (pow2_neg e) as Hn. pose proof (pow2_pos (- e)). apply Rmult_le_compat_r with (r := pow2 (- e)) in Hz; [|lra].
    rewrite Rmult_assoc, Hn in Hz. lra.
Qed.

Lemma times_ten u : good u → (0 <= val u < 1)%R →
  rounds (fmul u (of_Z 10)) (val u * 10) ∧ (0 <= val (fmul u (of_Z 10)) < 10)%R ∧
  (Rabs (val (fmul u (of_Z 10)) - val u * 10) <= pow2 (-49))%R.
Proof.
  intros Gu Hu. destruct (of_Z_ok 10 ltac:(lia)) as [G10 V10]. destruct (of_Z_ok 1 ltac:(lia)) as [G1 V1].
  assert (rounds (fmul u (of_Z 10)) (val u * 10)) as Hr.
  { rewrite <- V10. apply fmul_ok; [done..|]. rewrite V10. apply (small_range _ 10); [|lra]. rewrite Rabs_pos_eq; lra. }
  split; [done|]. pose proof (rounds_error _ _ Hr) as He. rewrite (Rabs_pos_eq (val u * 10)) in He by lra.
  pose proof (rounds_ge _ _ 0 Hr ltac:(apply (repr_IZR 0); lia) ltac:(lra)) as Hge.
  assert (val u <= 1 - pow2 (-53))%R as Hgap.
  { destruct (Req_dec (val u) 0) as [->|Hne].
    - pose proof (pow2_le (-53) 0 ltac:(lia)) as H. change (pow2 0) with 1%R in H. lra.
    - pose proof (double_gap u (of_Z 1) Gu G1) as Hg. rewrite V1 in Hg. specialize (Hg ltac:(lra)). lra. }
  apply Rabs_le_inv in He. pose proof (pow2_pos (-53)).
  assert (pow2 (-1075) < 10 * (pow2 (-53) * pow2 (-53)))%R as Htiny.
  { rewrite <- pow2_add. change (-53 + -53) with (-106). pose proof (pow2_lt (-1075) (-106) ltac:(lia)). pose proof (pow2_pos (-106)). lra. }
  split; [split; [done|nra]|]. apply Rabs_le.
  assert (pow2 (-49) = 16 * pow2 (-53))%R as ->.
  { change (-49) with (4 + -53). rewrite pow2_add, pow2_IZR by lia. done. }
  assert (pow2 (-53) <= 1)%R by (pose proof (pow2_le (-53) 0 ltac:(lia)) as H1; exact H1). nra.
Qed.

Lemma c_0_5_ok : good c_0_5 ∧ val c_0_5 = (/ 2)%R.
Proof.
  split; [split; reflexivity|]. unfold c_0_5. rewrite val_sign. change (-53) with (-1 + -52). rewrite pow2_add, half_inv.
  change 4503599627370496 with (2 ^ 52). rewrite <- pow2_IZR by lia. pose proof (pow2_neg 52) as Hn. change (- (52)) with (-52) in Hn.
  replace (pow2 52 * (/ 2 * pow2 (-52)))%R with (/ 2 * (pow2 52 * pow2 (-52)))%R by ring. rewrite Hn. lra.
Qed.

(** Half a digit, up to [e]. *)
Definition up_half (u e : double) : bool := SFltb (fadd c_0_5 e) u.
Definition down_half (u e : double) : bool := SFltb u (fsub c_0_5 e).

Lemma half_bounds u e :
  good u → good e → (0 <= val e < / 4)%R →
  (if up_half u e then / 2 + val e - eps < val u else val u <= / 2 + val e + eps)%R ∧
  (if down_half u e then val u < / 2 - val e + eps else / 2 - val e - eps <= val u)%R.
Proof.
  intros Gu Ge He. destruct c_0_5_ok as [Gh Vh].
  assert (rounds (fadd c_0_5 e) (/ 2 + val e)) as Ha.
  { rewrite <- Vh. apply fadd_ok; [done..|]. rewrite Vh. apply (small_range _ 1); [|lra]. rewrite Rabs_pos_eq; lra. }
  assert (rounds (fsub c_0_5 e) (/ 2 - val e)) as Hs.
  { rewrite <- Vh. apply fsub_ok; [done..|]. rewrite Vh. apply (small_range _ 1); [|lra]. rewrite Rabs_pos_eq; lra. }
  pose proof (rounds_error _ _ Ha) as Ea. pose proof (rounds_error _ _ Hs) as Es.
  rewrite (Rabs_pos_eq (/ 2 + val e)) in Ea by lra. rewrite (Rabs_pos_eq (/ 2 - val e)) in Es by lra.
  assert (pow2 (-1075) <= eps * / 4)%R as Htiny.
  { unfold eps. apply Rle_trans with (pow2 (-53 + -2)); [apply pow2_le; lia|]. rewrite pow2_add. change (-2) with (- (2)).
    rewrite <- pow2_inv, (pow2_IZR 2) by lia. change (2 ^ 2) with 4. lra. }
  fold eps in Ea, Es. pose proof eps_range. apply Rabs_le_inv in Ea, Es. apply rounds_good in Ha, Hs.
  unfold up_half, down_half. split.
  - destruct (SFltb (fadd c_0_5 e) u) eqn:Hb.
    + apply SFltb_ok in Hb; [|done..]. unfold fadd in *. nra.
    + apply SFltb_false in Hb; [|done..]. unfold fadd in *. nra.
  - destruct (SFltb u (fsub c_0_5 e)) eqn:Hb.
    + apply SFltb_ok in Hb; [|done..]. unfold fsub in *. nra.
    + apply SFltb_false in Hb; [|done..]. unfold fsub in *. nra.
Qed.

(** ** The digits *)
Section quick.
Context {E : Type} (U : R) (kk P : Z) (D : R) (e : double).
Context (Ge : good e) (He : (val e < / 4)%R) (HD : (pow10 (P - 1) * D + 2 * eps < val e)%R) (HP : 1 ≤ P).

(** What is left behind the digits, at the place of the last one. *)
Definition rest_at (cs : list Z) : R := (U * pow10 (P - 1 - kk) - IZR (dec_value cs * 10 ^ (P - len cs)))%R.

(** The error of [u] grows with the digits. *)
Definition tracks (u : double) (cs : list Z) : Prop :=
  (Rabs (val u - (U * pow10 (len cs - kk) - 10 * IZR (dec_value cs))) + pow2 (-49) / 9 <= pow10 (len cs) * D)%R.

Definition quick_result (t : list cell) (t' : list cell) (s' : Z) (up : option bool) : Prop :=
  ∃ cs, text_of t' s' cs ∧ leading cs ∧ len t' = len t ∧ len cs ≤ P ∧
    match up with
    | Some true => len cs = P ∧ (/ 2 < rest_at cs <= 1 + pow10 (P - 1) * D)%R
    | Some false => (- (pow10 (P - 1) * D) <= rest_at cs < / 2)%R
    | None => len cs = P ∧ (Rabs (rest_at cs - / 2) <= val e + eps + pow10 (P - 1) * D)%R
    end.

Lemma rest_at_scaled cs : len cs ≤ P →
  (rest_at cs = (U * pow10 (len cs - 1 - kk) - IZR (dec_value cs)) * pow10 (P - len cs))%R.
Proof.
  intros Hl. unfold rest_at. rewrite mult_IZR, <- pow10_IZR by lia.
  replace (P - 1 - kk) with (len cs - 1 - kk + (P - len cs)) by lia. rewrite tenpow_add. ring.
Qed.

Lemma quick_loop_spec fuel t s u i cs :
  good u → (0 <= val u < 10)%R → tracks u cs → text_of t s cs → i = len cs + 1 → (0 < fuel)%nat →
  Z.of_nat fuel + len cs = P → P < len t → (cs = [] ∧ (1 <= val u)%R ∨ leading cs) →
  ∃ t' s' up, quick_loop (E:=E) fuel t s u e i P = Done (t', s', up) ∧ quick_result t t' s' up.
Proof.
  revert t s u i cs. induction fuel as [|fuel IH]; intros t s u i cs Gu Hu Htr Ht Hi Hf0 Hf Hlt Hl; [lia|].
  cbn [quick_loop]. destruct (to_Long_spec (E:=E) u Gu) as (z & -> & _ & Hz & _).
  { rewrite Rabs_pos_eq by lra. apply Rlt_trans with 11%R; [lra|]. by apply IZR_lt. }
  specialize (Hz ltac:(lra)). cbn [obind].
  assert (0 ≤ z ≤ 9) as Hzr.
  { split; apply Z.lt_succ_r, lt_IZR; rewrite succ_IZR; lra. }
  destruct (sub_floor u z Gu) as [Gu1 Vu1]; [split; [apply IZR_le; lia|lra]|lra|lia|].
  set (u1 := fsub u (of_Z z)) in *. rewrite (Z.add_comm 48 z).
  destruct (put_char_spec (E:=E) t s cs (z + 48) Ht) as (t1 & -> & Ht1 & Hl1); [lia|destruct Ht as (_ & -> & _); lia|].
  cbn [obind]. set (cs1 := cs ++ [z + 48]) in *.
  assert (len cs1 = len cs + 1) as Hlen1 by (unfold cs1; rewrite length_app; cbn [length]; lia).
  assert (leading cs1) as Hlead.
  { destruct Hl as [[-> Hge]|Hl]; [|by apply leading_app]. apply leading_head.
    assert (1 ≤ z); [|lia]. apply Z.lt_succ_r, lt_IZR. rewrite succ_IZR. lra. }
  assert (dec_value cs1 = dec_value cs * 10 + z) as Hdv by (unfold cs1; rewrite dec_value_snoc; lia).
  set (F := (U * pow10 (len cs1 - 1 - kk) - IZR (dec_value cs1))%R).
  assert (F = U * pow10 (len cs - kk) - 10 * IZR (dec_value cs) - IZR z)%R as HF.
  { unfold F. rewrite Hdv, plus_IZR, mult_IZR. replace (len cs1 - 1 - kk) with (len cs - kk) by lia. ring. }
  assert (Rabs (val u1 - F) + pow2 (-49) / 9 <= pow10 (len cs) * D)%R as Herr.
  { eapply Rle_trans; [|exact Htr]. apply Req_le. do 2 f_equal. rewrite HF, Vu1. ring. }
  pose proof (pow2_pos (-49)) as H49. assert (0 < D)%R as HD0.
  { pose proof (Rabs_pos (val u1 - F)). pose proof (pow10_pos (len cs)). assert (0 < pow10 (len cs) * D)%R by lra. nra. }
  assert (rest_at cs1 = F * pow10 (P - len cs1))%R as Hrest by (apply rest_at_scaled; lia).
  assert (Rabs (rest_at cs1 - val u1 * pow10 (P - len cs1)) <= pow10 (P - 1) * D)%R as Hre.
  { rewrite Hrest. replace (F * pow10 (P - len cs1) - val u1 * pow10 (P - len cs1))%R with (- ((val u1 - F) * pow10 (P - len cs1)))%R by ring.
    pose proof (pow10_pos (P - len cs1)). rewrite Rabs_Ropp, Rabs_mult, (Rabs_pos_eq (pow10 _)) by lra.
    replace (P - 1) with (P - len cs1 + len cs) by lia. rewrite tenpow_add. nra. }
  pose proof eps_range as Heps. pose proof (pow10_pos (P - 1)) as HpP.
  assert (0 < pow10 (P - 1) * D)%R by nra.
  pose proof (half_bounds u1 e Gu1 Ge ltac:(lra)) as [Hup Hdown]. unfold up_half, down_half in *.
  destruct (is_zero u1) eqn:Hzero.
  - apply is_zero_val in Hzero; [|done]. rewrite Hzero in *. rewrite Z.eqb_refl.
    destruct (SFltb (fadd c_0_5 e) u1); [lra|]. destruct (SFltb u1 (fsub c_0_5 e)); [|lra].
    eexists _, _, _. split; [done|]. exists cs1. do 3 (split; [done|]). split; [lia|].
    rewrite Rmult_0_l, Rminus_0_r in Hre. apply Rabs_le_inv in Hre. lra.
  - destruct (Z.eqb_spec i P) as [HiP|HiP].
    + assert (len cs1 = P) as HlP by lia. rewrite HlP, Z.sub_diag in Hre. change (pow10 0) with 1%R in Hre.
      rewrite Rmult_1_r in Hre. apply Rabs_le_inv in Hre.
      assert (∀ up, match up with Some true => (/ 2 < rest_at cs1 <= 1 + pow10 (P - 1) * D)%R
        | Some false => (- (pow10 (P - 1) * D) <= rest_at cs1 < / 2)%R
        | None => (Rabs (rest_at cs1 - / 2) <= val e + eps + pow10 (P - 1) * D)%R end → quick_result t t1 (s + 1) up) as Hq.
      { intros up Hr. exists cs1. do 3 (split; [done|]). split; [lia|]. by destruct up as [[]|]. }
      destruct (SFltb (fadd c_0_5 e) u1); [|destruct (SFltb u1 (fsub c_0_5 e))];
        (eexists _, _, _; split; [done|]; apply Hq); [lra|lra|]. apply Rabs_le. lra.
    + destruct (times_ten u1 Gu1 ltac:(lra)) as (Hr10 & Hr & Herr10). pose proof (rounds_good _ _ Hr10) as G10.
      destruct (IH t1 (s + 1) (fmul u1 (of_Z 10)) (i + 1) cs1) as (t' & s' & up & -> & cs' & Hres); try done; try lia.
      * unfold tracks. rewrite Hlen1, pow10_S. replace (len cs + 1 - kk) with (len cs1 - 1 - kk + 1) by lia. rewrite pow10_S.
        replace (U * (10 * pow10 (len cs1 - 1 - kk)) - 10 * IZR (dec_value cs1))%R with (10 * F)%R by (unfold F; ring).
        assert (Rabs (val (fmul u1 (of_Z 10)) - 10 * F) <= pow2 (-49) + 10 * Rabs (val u1 - F))%R; [|lra].
        replace (val (fmul u1 (of_Z 10)) - 10 * F)%R with ((val (fmul u1 (of_Z 10)) - val u1 * 10) + 10 * (val u1 - F))%R by ring.
        eapply Rle_trans; [apply Rabs_triang|]. rewrite (Rabs_mult 10), (Rabs_pos_eq 10) by lra. lra.
      * by right.
      * eexists _, _, _. split; [done|]. exists cs'. by rewrite <- Hl1.
Qed.
End quick.

(** ** The rounded number *)
Section rounded.
Context (U : R) (kk P : Z) (eta : R) (HP : 1 ≤ P) (Heta : (0 < eta < / 4)%R).
Local Abbreviation V := (U * pow10 (- kk))%R.
Context (HV : (/ 2 <= V <= 20)%R).

Lemma decade_at d : (pow10 d <= V < pow10 (d + 1))%R → decade U (kk + d).
Proof.
  intros [H1 H2]. pose proof (pow10_pos kk) as Hp. pose proof (pow10_neg kk) as Hn.
  assert (U = V * pow10 kk)%R as HU by (rewrite Rmult_assoc, (Rmult_comm (pow10 (- kk))), Hn; ring).
  unfold decade. replace (kk + d + 1) with (d + 1 + kk) by lia. rewrite (Z.add_comm kk d), !tenpow_add. rewrite tenpow_add in H2. rewrite HU. split; [apply Rmult_le_compat_r|apply Rmult_lt_compat_r]; lra.
Qed.

Lemma decade_cases :
  (decade U kk ∧ (1 <= V < 10)%R) ∨ (decade U (kk + 1) ∧ (10 <= V)%R) ∨ (decade U (kk - 1) ∧ (V < 1)%R).
Proof.
  assert (pow10 0 = 1 ∧ pow10 1 = 10 ∧ pow10 2 = 100 ∧ pow10 (-1) = / 10)%R as (H0 & H1 & H2 & Hm).
  { split; [done|]. split; [by rewrite pow10_IZR by lia|]. split; [by rewrite pow10_IZR by lia|].
    change (-1) with (- (1)). rewrite <- pow10_inv, pow10_IZR by lia. done. }
  destruct (Rlt_le_dec V 1) as [Hs|Hs]; [right; right|destruct (Rlt_le_dec V 10) as [Hb|Hb]; [left|right; left]].
  - split; [|done]. apply (decade_at (-1)). change (-1 + 1) with 0. lra.
  - split; [|done]. replace kk with (kk + 0) by lia. apply decade_at. change (0 + 1) with 1. lra.
  - split; [|done]. apply decade_at. change (1 + 1) with 2. lra.
Qed.

Lemma at_places d : (U * pow10 (P - 1 - (kk + d)) = V * pow10 (P - 1) * pow10 (- d))%R.
Proof. rewrite !Rmult_assoc, <- !tenpow_add. do 2 f_equal. lia. Qed.

(** Raised digits. *)
Lemma quick_up cs cs' kk' :
  digits_ok cs → leading cs → len cs = P → (/ 2 < rest_at U kk P cs <= 1 + eta)%R →
  digits_ok cs' → raised cs cs' (kk' - kk) → decimal U P cs' kk'.
Proof.
  intros Hcs Hl Hlen Hr Hcs' Hra. unfold rest_at in Hr. rewrite Hlen, Z.sub_diag, Z.mul_1_r in Hr.
  pose proof (dec_value_range cs Hcs) as Hrange. pose proof (dec_value_leading cs Hcs Hl) as Hlow. rewrite Hlen in *.
  pose proof (at_places 0) as Hq. rewrite Z.add_0_r, Z.opp_0 in Hq. change (pow10 0) with 1%R in Hq. rewrite Rmult_1_r in Hq.
  pose proof (pow10_pos (P - 1)) as HpP. destruct decade_cases as [[HU HV']|[[HU HV']|[HU HV']]].
  - apply (decimal_up U P cs cs' kk kk'); try done.
    destruct (Rle_dec (U * pow10 (P - 1 - kk)) (IZR (dec_value cs) + 1)) as [Hle|Hgt].
    + apply nearest_up. lra.
    + apply nearest_down. rewrite plus_IZR. lra.
  - set (N := dec_value cs) in *. assert (N = 10 ^ P - 1) as HN.
    { assert (10 ^ P - 2 < N); [|lia]. apply lt_IZR. rewrite minus_IZR, <- pow10_IZR by lia.
      replace P with (P - 1 + 1) at 1 by lia. rewrite pow10_S. nra. }
    destruct Hra as (Hl' & Hs' & Hlen' & Hk & Hv). rewrite Hlen in *. fold N in Hv. rewrite HN, Z.sub_add in Hv.
    pose proof (dec_value_range cs' Hcs') as Hr'. do 2 (split; [done|]). split; [lia|].
    assert (1 ≤ kk' - kk) as Hk1.
    { destruct (decide (1 ≤ kk' - kk)) as [|Hk0]; [done|]. replace (kk' - kk) with 0 in Hv by lia. exfalso.
      assert (10 ^ P = 10 ^ len cs' * 10 ^ (P - len cs')) as HPs by (rewrite <- Z.pow_add_r by lia; f_equal; lia).
      rewrite Z.add_0_r in Hv. pose proof (Z.pow_pos_nonneg 10 (P - len cs') ltac:(lia) ltac:(lia)). nia. }
    exists (kk + 1), (10 ^ (P - 1)). split; [done|]. split; [|split; [lia|]].
    + rewrite at_places, <- Hq. change (- (1)) with (-1). assert (pow10 (-1) = / 10)%R as -> by (change (-1) with (- (1)); rewrite <- pow10_inv, pow10_IZR by lia; done).
      assert (IZR N = 10 * pow10 (P - 1) - 1)%R as HN' by (rewrite HN, minus_IZR, <- pow10_IZR by lia; replace P with (P - 1 + 1) at 1 by lia; by rewrite pow10_S).
      apply nearest_down. rewrite <- pow10_IZR by lia. nra.
    + apply Z.mul_reg_r with 10; [lia|]. rewrite <- Z.mul_assoc, <- !(Z.mul_comm 10), <- !Z.pow_succ_r by lia.
      replace (Z.succ (P - len cs' + (kk' - (kk + 1)))) with (P - len cs' + (kk' - kk)) by lia. by replace (Z.succ (P - 1)) with P by lia.
  - exfalso. apply IZR_le in Hlow. rewrite <- pow10_IZR in Hlow by lia. nra.
Qed.

(** Digits as they are. *)
Lemma quick_down_full cs cs' n :
  digits_ok cs → leading cs → len cs = P → (- eta <= rest_at U kk P cs < / 2)%R → ((V < 1)%R → (10 * eta < / 2)%R) →
  cs = cs' ++ replicate n 48 → leading cs' → decimal U P cs' kk.
Proof.
  intros Hcs Hl Hlen Hr Hsmall Heq Hl'. unfold rest_at in Hr. rewrite Hlen, Z.sub_diag, Z.mul_1_r in Hr.
  pose proof (dec_value_range cs Hcs) as Hrange. pose proof (dec_value_leading cs Hcs Hl) as Hlow. rewrite Hlen in *.
  pose proof (at_places 0) as Hq. rewrite Z.add_0_r, Z.opp_0 in Hq. change (pow10 0) with 1%R in Hq. rewrite Rmult_1_r in Hq.
  pose proof (pow10_pos (P - 1)) as HpP. destruct decade_cases as [[HU HV']|[[HU HV']|[HU HV']]].
  - apply (decimal_down U P cs cs' n kk); try done. apply nearest_close. apply Rabs_def1; lra.
  - exfalso. assert (IZR (dec_value cs) <= 10 * pow10 (P - 1) - 1)%R.
    { rewrite pow10_IZR, <- mult_IZR, <- minus_IZR by lia. apply IZR_le. rewrite <- Z.pow_succ_r by lia.
      replace (Z.succ (P - 1)) with P by lia. lia. }
    nra.
  - set (N := dec_value cs) in *. specialize (Hsmall HV'). assert (N = 10 ^ (P - 1)) as HN.
    { assert (N < 10 ^ (P - 1) + 1); [|lia]. apply lt_IZR. rewrite plus_IZR, <- pow10_IZR by lia. nra. }
    assert (len cs' ≤ P) as Hlen' by (rewrite <- Hlen, Heq, length_app; lia).
    assert (dec_value cs' * 10 ^ (P - len cs') = N) as Hv.
    { unfold N. rewrite Heq, dec_value_zeros. do 2 f_equal. rewrite <- Hlen, Heq, length_app, length_replicate. lia. }
    split; [rewrite Heq in Hcs; by apply Forall_app in Hcs as [? _]|]. do 2 (split; [done|]).
    exists (kk - 1), (N * 10). split; [done|]. split; [|split; [lia|]].
    + pose proof (at_places (-1)) as Hq1. replace (kk + -1) with (kk - 1) in Hq1 by lia. rewrite Hq1, <- Hq.
      change (- -1) with 1. rewrite (pow10_IZR 1) by lia. change (10 ^ 1) with 10.
      apply nearest_close. rewrite mult_IZR.
      assert (U * pow10 (P - 1 - kk) < IZR N)%R by (rewrite Hq, HN, <- pow10_IZR by lia; nra). apply Rabs_def1; lra.
    + replace (P - len cs' + (kk - (kk - 1))) with (Z.succ (P - len cs')) by lia. rewrite Z.pow_succ_r by lia. lia.
Qed.

Lemma quick_down cs cs' n :
  digits_ok cs → leading cs → len cs ≤ P → (- eta <= rest_at U kk P cs < / 2)%R → ((V < 1)%R → (10 * eta < / 2)%R) →
  cs = cs' ++ replicate n 48 → leading cs' → decimal U P cs' kk.
Proof.
  intros Hcs Hl Hlen Hr Hsmall Heq Hl'. set (j := Z.to_nat (P - len cs)).
  assert (len (cs ++ replicate j 48) = P) as Hfull by (rewrite length_app, length_replicate; unfold j; lia).
  apply (quick_down_full (cs ++ replicate j 48) cs' (n + j)); try done.
  - apply Forall_app. split; [done|]. apply Forall_replicate. lia.
  - by apply leading_app.
  - replace (rest_at U kk P (cs ++ replicate j 48)) with (rest_at U kk P cs); [done|]. unfold rest_at.
    rewrite Hfull, Z.sub_diag, Z.mul_1_r, dec_value_zeros. unfold j. by rewrite Z2Nat.id by lia.
  - by rewrite Heq, <- app_assoc, <- replicate_add.
Qed.
End rounded.

(** ** The bound *)
(** A unit of the last place of a mantissa near 1, at the last digit. *)
Definition unit_at (p : Z) : R := (pow2 (-52) * pow10 (p - 1))%R.

Lemma eps_two : pow2 (-52) = (2 * eps)%R.
Proof. unfold eps. change (-52) with (-53 + 1). apply pow2_S. Qed.

Lemma scaled_down d : good d → (1 <= val d)%R → good (set_word0 (word0 d - (Dtoa.P - 1) * Exp_msk1) d) ∧
  val (set_word0 (word0 d - (Dtoa.P - 1) * Exp_msk1) d) = (val d * pow2 (-52))%R.
Proof.
  intros Gd Hd. destruct (normal_double d Gd) as (m & e & -> & Hm & Hok).
  { pose proof pow2_1022_small. lra. }
  destruct (double_ok_mantissa _ _ _ Hok) as (_ & He & Hm').
  assert (-1074 ≤ e - (Dtoa.P - 1)) as Hr.
  { unfold Dtoa.P. destruct (decide (-53 ≤ e)) as [|Hlt]; [lia|]. exfalso. rewrite val_sign in Hd.
    apply IZR_lt in Hm'. rewrite <- pow2_IZR in Hm' by lia. pose proof (pow2_le (53 + e) (-1) ltac:(lia)) as Hle.
    rewrite pow2_add, half_inv in Hle. pose proof (pow2_pos e). nra. }
  destruct (shift_exponent m e (Dtoa.P - 1) Hm Hok Hr) as [-> Hg]; [unfold Dtoa.P; lia|]. split; [done|].
  rewrite !val_sign, Rmult_assoc, <- pow2_add. do 2 f_equal.
Qed.

Lemma bound_ok u ieps p top :
  good u → (1 <= val u < 10)%R → 2 ≤ ieps ≤ 9 → 1 ≤ p ≤ 14 → good top → val top = pow10 (p - 1) →
  let e := fadd (fmul (of_Z ieps) u) (of_Z 7) in
  let e := fmul (set_word0 (word0 e - (Dtoa.P - 1) * Exp_msk1) e) top in
  good e ∧ ((IZR ieps * val u + 7 - / 1000000000) * unit_at p <= val e <= (IZR ieps * val u + 7 + / 1000000000) * unit_at p)%R.
Proof.
  intros Gu Hu Hi Hp Gt Vt. cbv zeta. destruct (of_Z_ok ieps ltac:(lia)) as [Gi Vi]. destruct (of_Z_ok 7 ltac:(lia)) as [G7 V7].
  assert (2 <= IZR ieps <= 9)%R as HI by (split; apply IZR_le; lia). pose proof eps_range as He.
  assert (rounds (fmul (of_Z ieps) u) (IZR ieps * val u)) as Hm.
  { rewrite <- Vi. apply fmul_ok; [done..|]. rewrite Vi. apply (small_range _ 100); [|lra]. rewrite Rabs_pos_eq; nra. }
  pose proof (rounds_bound _ _ 90 Hm ltac:(rewrite Rabs_pos_eq; nra)) as Em. apply rounds_good in Hm.
  set (m := fmul (of_Z ieps) u) in *. fold eps in Em. apply Rabs_le_inv in Em.
  assert (rounds (fadd m (of_Z 7)) (val m + 7)) as Ha.
  { rewrite <- V7. apply fadd_ok; [done..|]. rewrite V7. apply (small_range _ 100); [|lra]. rewrite Rabs_pos_eq; nra. }
  pose proof (rounds_bound _ _ 100 Ha ltac:(rewrite Rabs_pos_eq; nra)) as Ea. apply rounds_good in Ha.
  set (a := fadd m (of_Z 7)) in *. fold eps in Ea. apply Rabs_le_inv in Ea.
  destruct (scaled_down a Ha ltac:(nra)) as [Gs Vs]. set (sd := set_word0 _ a) in *.
  assert (IZR ieps * val u + 7 - / 10000000000 <= val a <= IZR ieps * val u + 7 + / 10000000000)%R as Hva by nra.
  assert (8 <= val a <= 100)%R as Har by nra. clear Em Ea.
  pose proof (pow2_pos (-52)) as H52. pose proof (pow10_pos (p - 1)) as Hp1.
  assert (1 <= pow10 (p - 1) <= pow10 13)%R as [Hplo Hphi].
  { split; [change 1%R with (pow10 0)|]; apply pow10_le; lia. }
  assert (pow10 13 = 10000000000000)%R as H13 by (rewrite pow10_IZR by lia; change (10 ^ 13) with 10000000000000; lra).
  assert (val sd * val top = val a * unit_at p)%R as Hprod by (rewrite Vs, Vt; unfold unit_at; ring). clear Vs.
  assert (pow2 (-52) <= unit_at p <= / 400)%R as Hun.
  { unfold unit_at. split; [nra|]. rewrite eps_two. apply Rle_trans with (2 * eps * 10000000000000)%R; [nra|].
    unfold eps. change (-53) with (- (53)). rewrite <- pow2_inv, pow2_IZR by lia. change (2 ^ 53) with 9007199254740992. lra. }
  assert (rounds (fmul sd top) (val a * unit_at p)) as Hr.
  { rewrite <- Hprod. apply fmul_ok; [done..|]. rewrite Hprod. apply (small_range _ 100); [|lra]. rewrite Rabs_pos_eq; nra. }
  pose proof (rounds_good _ _ Hr) as Gr. split; [done|].
  pose proof (rounds_relative _ _ Hr) as Er. rewrite (Rabs_pos_eq (val a * unit_at p)) in Er by nra.
  assert (0 < unit_at p)%R by lra.
  assert (pow2 (-1022) <= val a * unit_at p)%R as Hnorm.
  { pose proof (pow2_le (-1022) (-52) ltac:(lia)). nra. }
  specialize (Er Hnorm). fold eps in Er. apply Rabs_le_inv in Er. set (w := unit_at p) in *.
  assert (eps * val a <= / 10000000000)%R by nra. assert (eps * (val a * w) <= / 10000000000 * w)%R by nra.
  destruct Hva as [Hv1 Hv2]. apply Rmult_le_compat_r with (r := w) in Hv1; [|lra]. apply Rmult_le_compat_r with (r := w) in Hv2; [|lra].
  split; lra.
Qed.

(** The error of the digits is below the bound. *)
Definition spread (n : nat) (V : R) : R := (INR n * (eps * (1002 / 1000)) * V + pow2 (-49) / 9)%R.

Lemma unit_range p : 1 ≤ p ≤ 14 → (2 * eps <= unit_at p <= / 450)%R.
Proof.
  intros Hp. unfold unit_at. rewrite eps_two. pose proof eps_range.
  assert (1 <= pow10 (p - 1) <= pow10 13)%R as [Hplo Hphi].
  { split; [change 1%R with (pow10 0)|]; apply pow10_le; lia. }
  assert (pow10 13 = 10000000000000)%R as H13 by (rewrite pow10_IZR by lia; change (10 ^ 13) with 10000000000000; lra).
  split; [nra|]. apply Rle_trans with (2 * eps * 10000000000000)%R; [nra|].
  unfold eps. change (-53) with (- (53)). rewrite <- pow2_inv, pow2_IZR by lia. change (2 ^ 53) with 9007199254740992. lra.
Qed.

Lemma spread_at p n V : (pow10 (p - 1) * spread n V = unit_at p * (INR n / 2 * (1002 / 1000) * V + 8 / 9))%R.
Proof.
  unfold spread, unit_at. rewrite eps_two. assert (pow2 (-49) = 16 * eps)%R as ->; [|field].
  unfold eps. change (-49) with (4 + -53). rewrite pow2_add, (pow2_IZR 4) by lia. done.
Qed.

Section margins.
Context (p ieps : Z) (n : nat) (u V e : R).
Context (Hp : 1 ≤ p ≤ 14) (Hi : 2 ≤ ieps ≤ 9) (Hn : Z.of_nat n + 3 ≤ 2 * ieps) (Hu : (1 <= u < 10)%R).
Context (HV : (Rabs (u - V) <= INR n * (eps * (1002 / 1000)) * V)%R) (HV0 : (0 < V)%R).
Context (He : ((IZR ieps * u + 7 - / 1000000000) * unit_at p <= e <= (IZR ieps * u + 7 + / 1000000000) * unit_at p)%R).

Lemma counts : (2 <= IZR ieps <= 9 ∧ 0 <= INR n <= 15 ∧ INR n + 3 <= 2 * IZR ieps)%R.
Proof.
  rewrite INR_IZR_INZ. split; [split; apply IZR_le; lia|]. split; [split; apply IZR_le; lia|].
  rewrite <- plus_IZR, <- mult_IZR. apply IZR_le. lia.
Qed.

Lemma near_value : (V <= u * (1 + / 1000000) ∧ u <= V * (1 + / 1000000))%R.
Proof.
  destruct counts as (H1 & H2 & _). pose proof eps_range. apply Rabs_le_inv in HV.
  assert (INR n * (eps * (1002 / 1000)) <= / 10000000)%R by nra. split; nra.
Qed.

Lemma spread_margin : (pow10 (p - 1) * spread n V + 2 * eps < e)%R.
Proof.
  destruct counts as (H1 & H2 & H3). destruct near_value as [N1 N2]. pose proof (unit_range p Hp) as Hw. rewrite spread_at.
  pose proof eps_range. set (w := unit_at p) in *.
  assert (INR n / 2 * (1002 / 1000) * V + 8 / 9 + 1 < IZR ieps * u + 7 - / 1000000000)%R as Hlt.
  { assert (INR n / 2 * (1002 / 1000) <= IZR ieps - / 10)%R by nra.
    assert (INR n / 2 * (1002 / 1000) * V <= (IZR ieps - / 10) * (u * (1 + / 1000000)))%R by (apply Rmult_le_compat; nra). nra. }
  apply Rmult_lt_compat_l with (r := w) in Hlt; [|lra]. nra.
Qed.

Lemma bound_small : (e < / 4)%R.
Proof.
  destruct counts as (H1 & _). pose proof (unit_range p Hp) as Hw. pose proof eps_range. set (w := unit_at p) in *.
  assert (IZR ieps * u + 7 + / 1000000000 <= 98)%R by nra. nra.
Qed.

Lemma spread_pos : (0 < pow10 (p - 1) * spread n V)%R.
Proof.
  destruct counts as (_ & H2 & _). pose proof (unit_range p Hp) as Hw. pose proof eps_range. rewrite spread_at.
  assert (0 <= INR n / 2 * (1002 / 1000) * V)%R by (apply Rmult_le_pos; nra). nra.
Qed.

Lemma spread_below_one : (V < 1)%R → (10 * (pow10 (p - 1) * spread n V) < / 2)%R.
Proof.
  intros H. destruct counts as (_ & H2 & _). pose proof (unit_range p Hp) as Hw. rewrite spread_at.
  assert (INR n / 2 * (1002 / 1000) * V <= 8)%R by nra. nra.
Qed.

(** For a small integer what is left is a half, if it is not certain. *)
Lemma uncertain r : ieps = 2 → (n ≤ 1)%nat → (Rabs r <= e + eps + pow10 (p - 1) * spread n V)%R → (Rabs r < pow10 (p - 1 - 14))%R.
Proof.
  intros Hi2 Hn1 Hr. destruct near_value as [N1 N2]. assert (IZR ieps = 2)%R as Hi2' by (by rewrite Hi2). rewrite Hi2' in He. pose proof (unit_range p Hp) as Hw. pose proof eps_range as Heps. rewrite spread_at in Hr.
  assert (0 <= INR n <= 1)%R as Hn' by (rewrite INR_IZR_INZ; split; apply IZR_le; lia).
  assert (Rabs r <= 34 * unit_at p)%R as H34.
  { eapply Rle_trans; [exact Hr|]. assert (INR n / 2 * (1002 / 1000) * V <= 51 / 10)%R by nra. nra. }
  eapply Rle_lt_trans; [exact H34|]. unfold unit_at. replace (p - 1 - 14) with (p - 1 + -14) by lia. rewrite tenpow_add, eps_two.
  pose proof (pow10_pos (p - 1)). assert (34 * (2 * eps) < pow10 (-14))%R; [|nra].
  change (-14) with (- (14)). rewrite <- pow10_inv, pow10_IZR by lia. change (10 ^ 14) with 100000000000000. unfold eps. change (-53) with (- (53)).
  rewrite <- pow2_inv, pow2_IZR by lia. change (2 ^ 53) with 9007199254740992. lra.
Qed.
End margins.

(** ** All of it *)
Section all.
Context {E : Type}.

(** The scaled double, its decimal exponent and the number of roundings. *)
Definition scaled_double (U : R) (u : double) (kk ieps : Z) (n : nat) : Prop :=
  good u ∧ (1 <= val u < 10)%R ∧ within n (val u) (U * pow10 (- kk)) ∧ 2 ≤ ieps ≤ 9 ∧ Z.of_nat n + 3 ≤ 2 * ieps.

(** The part of [quick] behind the scaling. *)
Definition quick_rest (u : double) (kk ieps ilim : Z) (t : list cell) : outcome E (list cell * option (Z * Z)) :=
  let eps := fadd (fmul (of_Z ieps) u) (of_Z 7) in
  let eps := set_word0 (word0 eps - (Dtoa.P - 1) * Exp_msk1) eps in
  let! top := rd tens (ilim - 1) in
  let! (t, s, up) := quick_loop (Z.to_nat ilim) t 0 u (fmul eps top) 1 ilim in
  match up with
  | Some true =>
      let! (t, s, kk) := bump_up (S (Z.to_nat s)) t s kk in
      Done (t, Some (s, kk))
  | Some false =>
      let! s := strip_loop (S (Z.to_nat s)) t s in
      Done (t, Some (s, kk))
  | None => Done (t, None)
  end.

Lemma quick_start u kk k_check ilim t :
  good u → estimated (val u) kk k_check → -326 ≤ kk ≤ 310 → 1 ≤ ilim →
  ∃ u' kk' ieps n, quick (E:=E) u kk ilim k_check t = quick_rest u' kk' ieps ilim t ∧ scaled_double (val u) u' kk' ieps n ∧
    (k_check = false → 0 ≤ kk ≤ 14 → kk' = kk ∧ ieps = 2 ∧ (n ≤ 1)%nat).
Proof.
  intros Gu Hest Hk Hlim. destruct (of_Z_ok 1 ltac:(lia)) as [G1 V1]. unfold quick.
  pose proof (pow10_pos kk) as Hpk. pose proof (pow10_pos (kk + 1)) as Hpk1.
  assert (7 / 8 * pow10 kk <= val u < pow10 (kk + 1))%R as HU.
  { pose proof (pow2_pos (-46)). pose proof (pow2_pos (-53)). destruct k_check; destruct Hest as [_ [? ?]]; split; nra. }
  pose proof (scaled_range _ _ HU) as Hr. pose proof eps_range as He. destruct k_check.
  - destruct Hest as [Hk0 [_ Htop]].
    destruct (quick_scale_large (E:=E) u kk Gu HU Hk ltac:(lia)) as (u' & ieps & n & -> & Gu' & Hw & Hi & Hn & Hn20). cbn [obind andb].
    pose proof (within_error n _ _ ltac:(lia) Hw) as Herr. set (V := (val u * pow10 (- kk))%R) in *.
    assert (0 <= INR n <= 20)%R as HN by (rewrite INR_IZR_INZ; split; apply IZR_le; lia).
    assert (INR n * (eps * (1002 / 1000)) <= 21 * eps)%R as Hc by nra. apply Rabs_le_inv in Herr.
    assert (Z.ltb 0 ilim = true) as -> by (apply Z.ltb_lt; lia). rewrite andb_true_r.
    destruct (SFltb u' (of_Z 1)) eqn:Hlt.
    + apply SFltb_ok in Hlt; [|done..]. rewrite V1 in Hlt. pose proof (within_pos _ _ _ Hw) as Hu0.
      destruct (times_ten u' Gu' ltac:(lra)) as (Hr10 & Hr10' & Herr10).
      eexists _, (kk - 1), (ieps + 1), (n + 1)%nat. split; [reflexivity|]. split; [|done].
      split; [by eapply rounds_good|]. apply Rabs_le_inv in Herr10.
      assert (/ 2 <= val u')%R as Hhalf by nra.
      assert (pow2 (-49) <= 1)%R as H49 by (pose proof (pow2_le (-49) 0 ltac:(lia)) as H; exact H).
      split; [lra|]. split; [|lia]. replace (- (kk - 1)) with (- kk + 1) by lia. rewrite pow10_S.
      replace (val u * (10 * pow10 (- kk)))%R with (V * 10)%R by (unfold V; ring).
      apply (within_trans _ _ _ (val u' * 10)); [apply within_scale; [lra|done]|]. apply rounds_within; [done|].
      pose proof pow2_1022_small. lra.
    + apply SFltb_false in Hlt; [|done..]. rewrite V1 in Hlt. exists u', kk, ieps, n. split; [reflexivity|]. split; [|done].
      split; [done|]. split; [|split; [done|lia]]. split; [done|].
      assert (V < 10 * (1 - pow2 (-46)))%R as HV.
      { unfold V. apply Rmult_lt_compat_r with (r := pow10 (- kk)) in Htop; [|apply pow10_pos].
        rewrite pow10_S in Htop. replace (10 * pow10 kk * (1 - pow2 (-46)) * pow10 (- kk))%R with (10 * (1 - pow2 (-46)) * (pow10 kk * pow10 (- kk)))%R in Htop by ring.
        rewrite pow10_neg in Htop. lra. }
      assert (pow2 (-46) = 128 * eps)%R as H46.
      { unfold eps. change (-46) with (7 + -53). rewrite pow2_add, (pow2_IZR 7) by lia. done. }
      rewrite H46 in HV. nra.
  - destruct Hest as [Hk0 [Hlow Htop]].
    destruct (quick_scale_small (E:=E) u kk Gu HU Hk0) as (u' & ieps & -> & Hrd & Hi & Hi2). cbn [obind andb].
    exists u', kk, ieps, 1%nat. split; [reflexivity|]. split; [|intros; lia].
    set (V := (val u * pow10 (- kk))%R) in *. pose proof (pow10_neg kk) as Hn10.
    assert (1 <= V <= 10 * (1 - eps))%R as HV.
    { unfold V. pose proof (pow10_pos (- kk)). apply Rmult_le_compat_r with (r := pow10 (- kk)) in Hlow, Htop; [|lra..].
      rewrite pow10_S in Htop. replace (10 * pow10 kk * (1 - pow2 (-53)) * pow10 (- kk))%R with (10 * (1 - pow2 (-53)) * (pow10 kk * pow10 (- kk)))%R in Htop by ring.
      rewrite Hn10 in Hlow, Htop. unfold eps. lra. }
    assert (pow2 (-1022) <= V)%R as Hnorm by (pose proof pow2_1022_small; lra).
    split; [by eapply rounds_good|]. split; [|split; [by apply rounds_within|lia]].
    split; [apply (rounds_ge _ _ 1 Hrd); [apply (repr_IZR 1); lia|lra]|].
    pose proof (rounds_relative _ _ Hrd) as Her. rewrite (Rabs_pos_eq V) in Her by lra. specialize (Her Hnorm).
    fold eps in Her. apply Rabs_le_inv in Her. nra.
Qed.

(** What the quick conversion says when it gives up. *)
Definition near_half (U : R) (kk p : Z) : Prop :=
  ∃ N, (Rabs (U * pow10 (p - 1 - kk) - IZR N - / 2) < pow10 (p - 1 - 14))%R.

Lemma quick_rest_spec U u kk ieps n p t :
  scaled_double U u kk ieps n → 1 ≤ p ≤ 14 → p < len t →
  ∃ t' r, quick_rest u kk ieps p t = Done (t', r) ∧ len t' = len t ∧
    match r with
    | Some (s', kk') => digits_in U p t' s' kk'
    | None => ieps = 2 → (n ≤ 1)%nat → near_half U kk p
    end.
Proof.
  intros (Gu & Hu & Hw & Hi & Hn) Hp Hlen. destruct (tens_ok (E:=E) (p - 1) ltac:(lia)) as (top & Htop & Gt & Vt).
  destruct (bound_ok u ieps p top Gu Hu Hi Hp Gt Vt) as [Ge He]. unfold quick_rest. cbv zeta. rewrite Htop. cbn [obind].
  set (e := fmul _ top) in *. pose proof (within_error n _ _ ltac:(lia) Hw) as Herr. pose proof Hw as [HV0 _].
  set (V := (U * pow10 (- kk))%R) in *.
  pose proof (spread_margin p ieps n (val u) V (val e) Hp Hi Hn Hu Herr HV0 He) as Hmargin.
  pose proof (bound_small p ieps n (val u) (val e) Hp Hi Hn Hu He) as Hsmall.
  pose proof (spread_pos p ieps n V Hp Hi Hn HV0) as Hpos. pose proof (near_value ieps n (val u) V Hi Hn Hu Herr HV0) as [N1 N2].
  pose proof eps_range as Heps.
  destruct (quick_loop_spec (E:=E) U kk p (spread n V) e Ge Hsmall Hmargin (Z.to_nat p) t 0 u 1 []) as
    (t1 & s1 & up & -> & cs & Ht1 & Hl1 & Hlen1 & Hcs & Hup); try done; try (cbn [length]; lia).
  { lra. }
  { unfold tracks. cbn [length]. change (Z.of_nat 0 - kk) with (- kk). change (IZR (dec_value [])) with 0%R. rewrite Rmult_0_r, Rminus_0_r.
    fold V. change (pow10 (Z.of_nat 0)) with 1%R. unfold spread. lra. }
  { split; [done|]. split; [done|]. by exists t. }
  { left. split; [done|]. lra. }
  cbn [obind]. assert (0 < pow10 (p - 1) * spread n V < / 4)%R as Heta by lra.
  assert (/ 2 <= V <= 20)%R as HVr by lra.
  pose proof Ht1 as (Hok & Hs1 & _). destruct up as [[]|].
  - destruct (bump_up_spec (E:=E) (S (Z.to_nat s1)) t1 s1 cs kk Ht1 Hl1 ltac:(lia)) as (t2 & cs2 & kk2 & -> & Ht2 & Hl2 & Hra). cbn [obind].
    eexists _, _. split; [done|]. split; [lia|]. exists cs2. split; [done|]. split; [|apply Hra].
    apply (quick_up U kk p _ ltac:(lia) Heta HVr cs cs2 kk2); try done; [by destruct Hup|by destruct Hup|apply Ht2].
  - destruct (strip_loop_spec (E:=E) (S (Z.to_nat s1)) t1 s1 cs Ht1 Hl1 ltac:(lia)) as (cs2 & m & -> & Heq & Ht2 & Hl2 & Hst). cbn [obind].
    eexists _, _. split; [done|]. split; [lia|]. exists cs2. split; [done|]. split; [|done].
    apply (quick_down U kk p _ ltac:(lia) Heta HVr cs cs2 m); try done.
    intros HV1. by eapply (spread_below_one p ieps n); eauto.
  - eexists _, _. split; [done|]. split; [lia|]. intros Hi2 Hn1. destruct Hup as [HlP Hhalf]. exists (dec_value cs).
    unfold rest_at in Hhalf. rewrite HlP, Z.sub_diag, Z.mul_1_r in Hhalf.
    apply (uncertain p ieps n (val u) V (val e)); try done.
Qed.

Lemma quick_spec u kk k_check p t :
  good u → estimated (val u) kk k_check → -326 ≤ kk ≤ 310 → 1 ≤ p ≤ 14 → p < len t →
  ∃ t' r, quick (E:=E) u kk p k_check t = Done (t', r) ∧ len t' = len t ∧
    match r with
    | Some (s', kk') => digits_in (val u) p t' s' kk'
    | None => k_check = false → 0 ≤ kk ≤ 14 → near_half (val u) kk p
    end.
Proof.
  intros Gu Hest Hk Hp Hlen. destruct (quick_start u kk k_check p t Gu Hest Hk ltac:(lia)) as (u' & kk' & ieps & n & -> & Hsc & Hsmall).
  destruct (quick_rest_spec (val u) u' kk' ieps n p t Hsc Hp Hlen) as (t' & r & -> & Hl & Hr). exists t', r. do 2 (split; [done|]).
  destruct r as [[s' kk'']|]; [done|]. intros Hc Hk'. destruct (Hsmall Hc Hk') as (-> & Hi & Hn). by apply Hr.
Qed.
End all.
End DtoaQuick.
