(* ===== verification/DtoaProps.v ===== *)
(** * dtoa.c: the digits of a double are its rounded decimal expansion

    [dtoa_spec] is the contract of mode 2: the digits are those of the double rounded to
    the wanted number, ties to even, on each of the three ways; zeros at the end are left
    only when the double is halfway between two candidates; one block more is in use, the
    string, and [freedtoa] gives it back. *)
From Stdlib Require Import Reals Lra.
From S2P Require Import Prelude Libc Double DoubleSpec Bigint BigintSpec BigintOps Dtoa FloatSpec FloatOps DtoaWords DtoaEstimate DtoaDigits DtoaBig DtoaScale DtoaQuick.

Module DtoaProps.
Import Double DoubleSpec Bigint BigintSpec BigintOps Dtoa FloatSpec FloatOps DtoaWords DtoaEstimate DtoaDigits DtoaBig DtoaSmall DtoaErrors DtoaScale DtoaQuick.

(** ** Small integers that are not certain *)
Lemma near_half_integer z kk p : 0 ≤ kk ≤ 14 → 1 ≤ p → near_half (IZR z) kk p → zero_or_half (IZR z) kk p.
Proof.
  intros Hk Hp [N HN]. destruct (decide (kk < p)) as [Hlt|Hge]; [apply integer_zero_or_half; lia|].
  intros cs r Hl Hlo Hr. unfold left_over in Hlo. rewrite Hl in Hlo.
  set (j := kk - (p - 1)) in *. assert (1 ≤ j) as Hj by (unfold j; lia). assert (kk = p - 1 + j) as Hkj by (unfold j; lia).
  assert (10 ^ kk = 10 ^ (p - 1) * 10 ^ j) as Hpow by (rewrite <- Z.pow_add_r by lia; f_equal; lia).
  pose proof (Z.pow_pos_nonneg 10 (p - 1) ltac:(lia) ltac:(lia)) as Ha0. pose proof (Z.pow_pos_nonneg 10 j ltac:(lia) ltac:(lia)) as Hb0.
  replace (p - 1 - kk) with (- j) in * by lia.
  assert (IZR (10 ^ j) * pow10 (- j) = 1)%R as Hinv by (rewrite <- pow10_IZR by lia; apply pow10_neg).
  assert (r = 10 ^ (p - 1) * (z - 10 ^ j * dec_value cs)) as Hrz.
  { apply eq_IZR. rewrite Hlo, Hpow, !mult_IZR, minus_IZR, mult_IZR.
    transitivity (IZR (10 ^ (p - 1)) * (IZR z * (IZR (10 ^ j) * pow10 (- j)) - IZR (10 ^ j) * IZR (dec_value cs)))%R; [ring|]. rewrite Hinv. ring. }
  assert (Z.abs (2 * z - 2 * 10 ^ j * N - 10 ^ j) < 2) as Hsmall.
  { apply lt_IZR. rewrite abs_IZR, !minus_IZR, !mult_IZR. apply IZR_lt in Hb0.
    replace (2 * IZR z - 2 * IZR (10 ^ j) * IZR N - IZR (10 ^ j))%R with (2 * IZR (10 ^ j) * (IZR z * pow10 (- j) - IZR N - / 2))%R.
    - rewrite Rabs_mult, (Rabs_pos_eq (2 * _)) by lra.
      apply Rlt_le_trans with (2 * IZR (10 ^ j) * pow10 (p - 1 - 14))%R; [apply Rmult_lt_compat_l; lra|].
      rewrite <- pow10_IZR, Rmult_assoc, <- tenpow_add by lia. pose proof (pow10_le (j + (p - 1 - 14)) 0 ltac:(lia)) as H1.
      change (pow10 0) with 1%R in H1. lra.
    - transitivity (2 * (IZR z * (IZR (10 ^ j) * pow10 (- j))) - 2 * IZR (10 ^ j) * IZR N - IZR (10 ^ j))%R; [field|]. rewrite Hinv. ring. }
  assert (10 ^ j = 2 * (5 * 10 ^ (j - 1))) as Heven.
  { replace j with (Z.succ (j - 1)) at 1 by lia. rewrite Z.pow_succ_r by lia. lia. }
  assert (2 * z = 10 ^ j * (2 * N + 1)) as Hz by lia.
  rewrite Hpow in *. set (a := 10 ^ (p - 1)) in *. set (b := 10 ^ j) in *. set (v := dec_value cs) in *.
  assert (2 * r = a * b * (2 * (N - v) + 1)) as H2r by (rewrite Hrz; nia).
  assert (0 < a * b) by nia. assert (2 * (N - v) + 1 = 1); nia.
Qed.

(** ** The strings *)
Section strings.
Context {E : Type}.

Lemma rv_size_spec fuel i kk :
  0 ≤ kk → 0 ≤ i < 24 + 4 * 2 ^ (kk + Z.of_nat fuel) → kk ≤ rv_size fuel i (4 * 2 ^ kk) kk ≤ kk + Z.of_nat fuel ∧
    i < 24 + 4 * 2 ^ rv_size fuel i (4 * 2 ^ kk) kk ∧ (kk < rv_size fuel i (4 * 2 ^ kk) kk → 24 + 4 * 2 ^ (rv_size fuel i (4 * 2 ^ kk) kk - 1) ≤ i).
Proof.
  revert kk. induction fuel as [|fuel IH]; intros kk Hk Hi; cbn [rv_size].
  { rewrite Z.add_0_r in Hi. lia. }
  destruct (Z.leb_spec (32 - 4 - 4 + 4 * 2 ^ kk) i) as [Hle|Hlt]; [|lia].
  assert (Z.shiftl (4 * 2 ^ kk) 1 = 4 * 2 ^ (kk + 1)) as ->.
  { rewrite Z.shiftl_mul_pow2, Z.pow_add_r by lia. change (2 ^ 1) with 2. lia. }
  destruct (IH (kk + 1)) as (H1 & H2 & H3); [lia|by replace (kk + 1 + Z.of_nat fuel) with (kk + Z.of_nat (S fuel)) by lia|].
  split; [lia|]. split; [done|]. intros _. destruct (decide (kk + 1 < rv_size fuel i (4 * 2 ^ (kk + 1)) (kk + 1))); [by apply H3|].
  replace (rv_size fuel i (4 * 2 ^ (kk + 1)) (kk + 1) - 1) with kk by lia. lia.
Qed.

Definition text_ok (tx : text) : Prop := 0 ≤ size_k tx ≤ Kmax.

Lemma rv_alloc_spec p i :
  pool_ok p → 0 ≤ i < 500 → run (rv_alloc (E:=E) i) p 1 (fun tx _ => text_ok tx ∧ i < len (chars tx)).
Proof.
  intros Hp Hi. destruct (rv_size_spec 31 i 0) as (H1 & H2 & H3); [lia|split; [lia|]|].
  { change (2 ^ (0 + Z.of_nat 31)) with 2147483648. lia. }
  change (4 * 2 ^ 0) with 4 in *. unfold rv_alloc. set (kk := rv_size 31 i 4 0) in *. cbv zeta.
  assert (kk ≤ Kmax) as Hk.
  { unfold Kmax. destruct (decide (kk ≤ 7)) as [|Hk]; [done|]. specialize (H3 ltac:(lia)).
    pose proof (Z.pow_le_mono_r 2 7 (kk - 1) ltac:(lia) ltac:(lia)) as Hpow. change (2 ^ 7) with 128 in Hpow. lia. }
  eapply run_bind; [apply (Balloc_spec p kk); [done|lia]|]. intros b p1 Hp1 [[(Hb & Hm & _) Hkb] _].
  eapply run_conv; [apply run_ret; [done|]|lia]. unfold text_ok. cbn [size_k chars]. rewrite Hkb in *. split; [lia|].
  rewrite length_replicate, Hm. lia.
Qed.

Lemma freedtoa_spec p tx : pool_ok p → text_ok tx → run (freedtoa (E:=E) tx) p (-1) (fun _ p' => p5s p' = p5s p).
Proof.
  intros Hp Ht. unfold freedtoa. cbv zeta. apply Bfree_spec; [done|]. rewrite Z.shiftl_1_l.
  split; [exact Ht|]. split; [done|]. cbn [x maxwds]. rewrite length_replicate, Z2Nat.id; [done|]. apply Z.pow_nonneg. lia.
Qed.
End strings.

(** ** The sign and the special numbers *)
Lemma clear_sign m e :
  double_ok (S754_finite true m e) →
  set_word0 (Z.land (word0 (S754_finite true m e)) 2147483647) (S754_finite true m e) = S754_finite false m e.
Proof.
  intros Hok. assert (double_ok (S754_finite false m e)) as Hok' by exact Hok.
  destruct (word0_fields true m e Hok) as (Hw0 & Hw1 & Hr). destruct (fields true m e Hok) as (_ & Hef & Hf & _).
  unfold set_word0. change 2147483647 with (Z.ones 31). rewrite (word0_mod m e true Hok) by lia. rewrite Hw1.
  rewrite (Z.mod_small _ (2 ^ 31)) by lia. rewrite wrap_small by lia.
  rewrite <- (of_bits_bits false m e Hok'). f_equal.
  pose proof (Z.div_mod (field_f m) (2 ^ 32) ltac:(lia)). change (field_e m e) with (field_e m e). lia.
Qed.

Lemma not_special m e : double_ok (S754_finite false m e) → (Z.land (word0 (S754_finite false m e)) Exp_mask =? Exp_mask) = false.
Proof.
  intros Hok. apply Z.eqb_neq. intros H. apply (f_equal (λ z, Z.shiftr z 20)) in H. rewrite Z.shiftr_land in H.
  change (Z.shiftr Exp_mask 20) with (Z.ones 11) in H.
  destruct (word0_fields false m e Hok) as (Hw0 & _ & Hr). destruct (fields false m e Hok) as (_ & Hef & _).
  rewrite Z.land_ones, Z.shiftr_div_pow2, Hw0, Z.add_comm, Z.add_0_l, Z.div_add, Z.div_small, Z.mod_small in H by lia.
  change (Z.ones 11) with 2047 in H. lia.
Qed.

(** ** The digits *)
Section digits.
Context {E : Type}.

(** The integer of the double, when the exponent of its big integer is not negative. *)
Lemma small_integer_case U n be kk k_check :
  (U = IZR n * pow2 be)%R → 0 < n → 0 ≤ be → kk ≤ 14 → estimated U kk k_check →
  k_check = false ∧ 0 ≤ kk ∧ U = IZR (n * 2 ^ be) ∧ decade U kk.
Proof.
  intros HU Hn Hbe Hk Hest. assert (U = IZR (n * 2 ^ be)) as HUz by (rewrite HU, mult_IZR, pow2_IZR by done; done).
  assert (1 <= U)%R as H1.
  { rewrite HUz. apply IZR_le. pose proof (Z.pow_pos_nonneg 2 be ltac:(lia) Hbe). nia. }
  assert (∀ j, j < 0 → (pow10 (j + 1) <= 1)%R) as Hp by (intros j Hj; change 1%R with (pow10 0); apply pow10_le; lia).
  pose proof (pow2_pos (-46)). pose proof (pow2_pos (-53)). pose proof (pow10_pos (kk + 1)). destruct k_check.
  - exfalso. destruct Hest as [[Hneg|Hbig] [_ Hlt]]; [|lia]. specialize (Hp kk Hneg). nra.
  - destruct Hest as [Hr [Hlo Hhi]]. split; [done|]. assert (0 ≤ kk) as Hk0.
    { destruct (decide (0 ≤ kk)) as [|Hneg]; [done|]. specialize (Hp kk ltac:(lia)). exfalso. nra. }
    split; [done|]. split; [done|]. split; [done|]. nra.
Qed.

Lemma mantissa_scaled m e n be :
  double_ok (S754_finite false m e) → e ≤ be → n * 2 ^ (be - e) = Z.pos m → 0 < n →
  val (S754_finite false m e) = (IZR n * pow2 be)%R ∧ -1074 ≤ be ≤ 1023 ∧ n ≤ 2 ^ 53 ∧ Z.log2 (Z.pos m) = Z.log2 n + (be - e).
Proof.
  intros Hok Hbe Hm Hn. destruct (double_ok_mantissa _ _ _ Hok) as (_ & He & Hm53).
  pose proof (Z.pow_pos_nonneg 2 (be - e) ltac:(lia) ltac:(lia)). split.
  { rewrite val_sign, <- Hm, mult_IZR, <- pow2_IZR, Rmult_assoc, <- pow2_add by lia. do 2 f_equal. lia. }
  assert (be - e < 53) by (apply (Z.pow_lt_mono_r_iff 2); nia).
  split; [lia|]. split; [nia|]. rewrite <- Hm, Z.log2_mul_pow2 by lia. lia.
Qed.

(** The string of the result: digits, and a NUL behind them. *)
Definition result_text (tx : text) (n : Z) (cs : list Z) : Prop :=
  text_ok tx ∧ n = len cs ∧ digits_ok cs ∧ ∃ rest, chars tx = (Some <$> cs) ++ Some 0 :: rest.

Lemma terminated t s cs :
  text_of t s cs → s < len t → ∃ rest, put_char (E:=E) t s 0 = Done ((Some <$> cs) ++ Some 0 :: rest).
Proof.
  intros (_ & -> & rest & ->) Hl. rewrite length_app, length_fmap in Hl. destruct rest as [|r rest]; [cbn [length] in Hl; lia|].
  exists rest. unfold put_char. rewrite wr_done by (rewrite length_app, length_fmap; cbn [length]; lia).
  unfold zset. by rewrite Nat2Z.id, insert_app_r_alt, length_fmap, Nat.sub_diag by (rewrite length_fmap; lia).
Qed.

(** The three ways together. *)
Lemma convert_spec p b n be m e kk k_check ilim t i :
  pool_ok p → double_ok (S754_finite false m e) → big b n → e ≤ be → n * 2 ^ (be - e) = Z.pos m →
  estimated (val (S754_finite false m e)) kk k_check → -326 ≤ kk ≤ 310 → 1 ≤ ilim < len t → i = Z.log2 (Z.pos m) + e →
  run (convert (E:=E) (S754_finite false m e) b be (Z.log2 n + 1 - i - 1) kk ilim k_check t) p 0 (fun r _ => let '(b', t', s', kk') := r in
    block_ok b' ∧ len t' = len t ∧ digits_or_tie (val (S754_finite false m e)) ilim t' s' kk').
Proof.
  intros Hp Hok Hb Hbe Hm Hest Hk Hlim ->. pose proof (big_pos _ _ Hb) as Hn0.
  destruct (mantissa_scaled m e n be Hok Hbe Hm Hn0) as (HU & Hbr & Hn53 & Hlog).
  set (u := S754_finite false m e) in *. assert (good u) as Gu by done.
  assert (block_ok b) as Hblk by (destruct Hb as (? & Hh & _); apply Hh).
  unfold convert. eapply (run_bind _ _ _ 0 _ (fun r p' => len r.1 = len t ∧ match r.2 with
    | Some (s', kk') => digits_in (val u) ilim r.1 s' kk'
    | None => ilim ≤ 14 → k_check = false → 0 ≤ kk ≤ 14 → near_half (val u) kk ilim end)).
  { destruct (Z.leb_spec 0 ilim) as [_|]; [|lia]. cbn [andb]. unfold Quick_max. destruct (Z.leb_spec ilim 14) as [Hq|Hq].
    - destruct (quick_spec (E:=E) u kk k_check ilim t Gu Hest Hk ltac:(lia) ltac:(lia)) as (t' & r & Heq & Hl & Hr).
      rewrite Heq. apply run_ret; [done|]. cbn [fst snd]. split; [done|]. destruct r as [[s' kk']|]; [done|]. auto.
    - apply run_ret; [done|]. split; [done|]. cbn [snd]. lia. }
  intros [t1 r] p1 Hp1 [Hl1 Hr]. cbn [fst snd] in *. rewrite Z.sub_diag. destruct r as [[s' kk']|].
  { apply run_ret; [done|]. split; [done|]. split; [done|]. destruct Hr as (cs & Ht & Hd & Hs). exists cs. auto. }
  unfold Int_max. destruct (Z.leb_spec 0 be) as [Hbe0|Hbe0]; [destruct (Z.leb_spec kk 14) as [Hk14|Hk14]|]; cbn [andb].
  - destruct (small_integer_case _ n be kk k_check HU Hn0 Hbe0 Hk14 Hest) as (-> & Hk0 & HUz & Hdec).
    destruct (small_integer_spec (E:=E) u (n * 2 ^ be) kk ilim t1) as (t' & s' & kk' & Heq & Hl & Hres).
    + split; [done|]. exact HUz.
    + by rewrite <- HUz.
    + done.
    + by rewrite Hl1.
    + intros Hs. apply near_half_integer; [lia|lia|]. rewrite <- HUz. apply Hr; (done || lia).
    + rewrite Heq. apply run_lift, returns_done, run_ret; [done|]. split; [done|]. split; [lia|]. by rewrite HUz.
  - replace (Z.log2 n + 1 - (Z.log2 (Z.pos m) + e) - 1) with (- be) by lia. rewrite HU in *.
    eapply run_mono; [apply (big_digits_spec p1 b n be kk ilim k_check t1); (done || lia)|].
    intros [[[b' t'] s'] kk'] _ (Hb' & Hl' & cs & Ht & Hd & Hs). split; [done|]. split; [lia|]. exists cs. auto.
  - replace (Z.log2 n + 1 - (Z.log2 (Z.pos m) + e) - 1) with (- be) by lia. rewrite HU in *.
    eapply run_mono; [apply (big_digits_spec p1 b n be kk ilim k_check t1); (done || lia)|].
    intros [[[b' t'] s'] kk'] _ (Hb' & Hl' & cs & Ht & Hd & Hs). split; [done|]. split; [lia|]. exists cs. auto.
Qed.
End digits.

Section dtoa.
Context {E : Type}.

Lemma dtoa_finite p s m e nd :
  pool_ok p → double_ok (S754_finite s m e) → nd < 500 →
  run (dtoa (E:=E) (S754_finite s m e) nd) p 1 (fun r _ => let '(tx, n, decpt, sgn) := r in sgn = s ∧
    ∃ cs, result_text tx n cs ∧ decimal (val (S754_finite false m e)) (Z.max nd 1) cs (decpt - 1) ∧
      (stripped cs ∨ tie (val (S754_finite false m e)) (Z.max nd 1))).
Proof.
  intros Hp Hok Hnd. assert (double_ok (S754_finite false m e)) as Hok' by exact Hok. unfold dtoa. cbv zeta.
  rewrite (word0_sign m e s Hok), negb_involutive.
  assert ((if s then set_word0 (Z.land (word0 (S754_finite s m e)) 2147483647) (S754_finite s m e) else S754_finite s m e) =
    S754_finite false m e) as ->.
  { destruct s; [by apply clear_sign|done]. }
  rewrite (not_special m e Hok'). cbn [is_zero]. set (u := S754_finite false m e) in *.
  eapply run_bind; [by apply d2b_spec|]. intros [[b be] bbits] p1 Hp1 (n & Hb & Hbe & Hm & Hbb & _).
  pose proof (big_pos _ _ Hb) as Hn0. destruct (mantissa_scaled m e n be Hok' Hbe Hm Hn0) as (_ & _ & _ & Hlog).
  destruct (estimate_spec (E:=E) m e be bbits Hok' ltac:(lia)) as (kk & k_check & Hest & Hes & Hkr).
  apply run_lift. fold u in Hest. rewrite Hest. apply returns_done.
  set (ilim := if nd <=? 0 then 1 else nd). assert (ilim = Z.max nd 1) as Hilim by (unfold ilim; destruct (Z.leb_spec nd 0); lia).
  eapply (run_bind _ _ _ 1); [apply rv_alloc_spec; [done|lia]|]. intros rv p2 Hp2 [Hrv Hlen].
  rewrite Hbb. eapply (run_bind _ _ _ 0).
  { eapply (convert_spec p2 b n be m e kk k_check ilim (chars rv) _); try done; lia. }
  intros [[[b3 t3] s3] kk3] p3 Hp3 (Hb3 & Hl3 & cs & Ht3 & Hd3 & Hst3).
  eapply (run_bind _ _ _ (-1)); [by apply Bfree_spec|]. intros _ p4 Hp4 _.
  destruct (terminated (E:=E) t3 s3 cs Ht3) as (rest & Hput).
  { destruct Ht3 as (_ & -> & _). destruct Hd3 as (_ & _ & Hl & _). lia. }
  apply run_lift. rewrite Hput. apply returns_done. eapply run_conv; [apply run_ret; [done|]|lia]. split; [done|].
  rewrite Hilim in *. exists cs. replace (kk3 + 1 - 1) with kk3 by lia. destruct Ht3 as (Hcs & Hs3 & _). split; [|auto].
  split; [exact Hrv|]. split; [done|]. split; [done|]. by exists rest.
Qed.
End dtoa.
(** C15: [dtoa] in mode 2 converts correctly: whichever of its three ways it takes, for a
    finite double that is not 0 it returns the sign and between one and [ndigits] digits,
    the first not 0, which with the decimal exponent it returns are the multiple of
    [10 ^ (K - ndigits + 1)] nearest to the double, of two equally near ones the even
    one, where [K] is the exponent of the leading digit of the double; there is no 0 at
    the end, unless the double is halfway between two candidates; every operation stays
    inside its block, every block but the text is given back, and the cached powers of
    five stay right. *)
Theorem dtoa_correct p s m e nd :
  pool_ok p → double_ok (S754_finite s m e) → nd < 500 →
  run (dtoa (E:=Empty_set) (S754_finite s m e) nd) p 1 (fun r _ => let '(tx, n, decpt, sgn) := r in sgn = s ∧
    ∃ cs, result_text tx n cs ∧ decimal (val (S754_finite false m e)) (Z.max nd 1) cs (decpt - 1) ∧
      (stripped cs ∨ tie (val (S754_finite false m e)) (Z.max nd 1))).
Proof. apply dtoa_finite. Qed.

Lemma dtoa_correct_witness :
  run (dtoa (E:=Empty_set) (S754_finite true 5404319552844595 (-54)) 14) pool0 1 (fun r _ => let '(tx, n, decpt, sgn) := r in sgn = true ∧
    ∃ cs, result_text tx n cs ∧ decimal (val (S754_finite false 5404319552844595 (-54))) 14 cs (decpt - 1) ∧
      (stripped cs ∨ tie (val (S754_finite false 5404319552844595 (-54))) 14)).
Proof. apply (dtoa_correct pool0 true 5404319552844595 (-54) 14); [exact pool0_ok|done|lia]. Defined.
End DtoaProps.
