(* ===== verification/Gfmt.v ===== *)
(** * g_fmt.c: a double as text

    [fpconv_g_fmt] writes the text of [%.<precision>g] to a buffer, from the digits of
    [dtoa]. The buffer is a list of characters, those never written are not initialised,
    and a place is an index; a write outside is a fault. *)
From S2P Require Import Prelude Libc Double Bigint Dtoa.

Module Gfmt.
Import Double Bigint Dtoa.

Section Gfmt.
Context {E : Type}.

(** [while (( *b++ = *s++))]: the terminator too, [b] is behind it. *)
Fixpoint copy_past (fuel : nat) (t : list cell) (s : Z) (buf : list cell) (b : Z) : outcome E (list cell * Z) :=
  match fuel with
  | O => NoFuel
  | S fuel' =>
      let! c := get_char t s in
      let! buf := put_char buf b c in
      if c =? 0 then Done (buf, b + 1) else copy_past fuel' t (s + 1) buf (b + 1)
  end.

(** [while (( *b = *s++)) b++]: [b] is at the terminator. *)
Fixpoint copy_to (fuel : nat) (t : list cell) (s : Z) (buf : list cell) (b : Z) : outcome E (list cell * Z) :=
  match fuel with
  | O => NoFuel
  | S fuel' =>
      let! c := get_char t s in
      let! buf := put_char buf b c in
      if c =? 0 then Done (buf, b) else copy_to fuel' t (s + 1) buf (b + 1)
  end.

(** [for (; n > 0; n--) *b++ = '0'] *)
Fixpoint put_zeros (n : nat) (buf : list cell) (b : Z) : outcome E (list cell * Z) :=
  match n with
  | O => Done (buf, b)
  | S n' => let! buf := put_char buf b 48 in put_zeros n' buf (b + 1)
  end.

(** The number of digits of the exponent, at least 2, and the power of 10 of the first. *)
Fixpoint exponent_size (fuel : nat) (decpt j k : Z) : outcome E (Z * Z) :=
  match fuel with
  | O => NoFuel
  | S fuel' =>
      let! k10 := int (10 * k) in
      if k10 <=? decpt then exponent_size fuel' decpt (j + 1) k10 else Done (j, k)
  end.
Fixpoint exponent_digits (fuel : nat) (decpt j k : Z) (buf : list cell) (b : Z) : outcome E (list cell * Z) :=
  match fuel with
  | O => NoFuel
  | S fuel' =>
      let i := decpt / k in
      let! buf := put_char buf b (i + 48) in
      let b := b + 1 in
      if j - 1 <=? 0 then Done (buf, b)
      else
        let! decpt := int ((decpt - i * k) * 10) in
        exponent_digits fuel' decpt (j - 1) k buf b
  end.

(** The exponent from [e] on. *)
Definition put_exponent (decpt : Z) (buf : list cell) (b : Z) : outcome E (list cell * Z) :=
  let! buf := put_char buf b 101 in
  let b := b + 1 in
  let decpt := decpt - 1 in
  let '(c, decpt) := if decpt <? 0 then (45, - decpt) else (43, decpt) in
  let! buf := put_char buf b c in
  let b := b + 1 in
  let! (j, k) := exponent_size 10 decpt 2 10 in
  let! (buf, b) := exponent_digits 10 decpt j k buf b in
  let! buf := put_char buf b 0 in
  Done (buf, b).

Definition put_scientific (t : list cell) (decpt : Z) (buf : list cell) (b : Z) : outcome E (list cell * Z) :=
  let! c := get_char t 0 in
  let! buf := put_char buf b c in
  let b := b + 1 in
  let! c := get_char t 1 in
  let! (buf, b) :=
    (if c =? 0 then Done (buf, b)
     else
       let! buf := put_char buf b 46 in
       copy_to (S (length t)) t 1 buf (b + 1)) in
  put_exponent decpt buf b.

Definition put_small (t : list cell) (decpt : Z) (buf : list cell) (b : Z) : outcome E (list cell * Z) :=
  let! buf := put_char buf b 48 in
  let b := b + 1 in
  let! buf := put_char buf b 46 in
  let b := b + 1 in
  let! (buf, b) := put_zeros (Z.to_nat (- decpt)) buf b in
  let! (buf, b) := copy_past (S (length t)) t 0 buf b in
  Done (buf, b - 1).

(** [while (( *b = *s++)) { b++; if (--decpt == 0 && *s) *b++ = '.'; }] *)
Fixpoint plain_loop (fuel : nat) (t : list cell) (s decpt : Z) (buf : list cell) (b : Z)
    : outcome E (list cell * Z * Z) :=
  match fuel with
  | O => NoFuel
  | S fuel' =>
      let! c := get_char t s in
      let! buf := put_char buf b c in
      if c =? 0 then Done (buf, b, decpt)
      else
        let b := b + 1 in
        let decpt := decpt - 1 in
        let! c := (if decpt =? 0 then get_char t (s + 1) else Done 0) in
        if negb (c =? 0) then
          let! buf := put_char buf b 46 in
          plain_loop fuel' t (s + 1) decpt buf (b + 1)
        else plain_loop fuel' t (s + 1) decpt buf b
  end.
Definition put_plain (t : list cell) (decpt : Z) (buf : list cell) (b : Z) : outcome E (list cell * Z) :=
  let! (buf, b, decpt) := plain_loop (S (length t)) t 0 decpt buf b in
  let! (buf, b) := put_zeros (Z.to_nat decpt) buf b in
  let! buf := put_char buf b 0 in
  Done (buf, b).

(** The buffer and the length of the text. *)
Definition fpconv_g_fmt (buf : list cell) (x : double) (precision : Z) : M pool event E (list cell * Z) :=
  let* (tx, n, decpt, sign) := dtoa x precision in
  let t := chars tx in
  let* (buf, b) := lift (
    let! (buf, b) := (if sign then let! buf := put_char buf 0 45 in Done (buf, 1) else Done (buf, 0)) in
    if decpt =? 9999 then
      let! (buf, b) := copy_past (S (length t)) t 0 buf b in
      Done (buf, b - 1)
    else if (decpt <=? -4) || (precision <? decpt) then put_scientific t decpt buf b
    else if decpt <=? 0 then put_small t decpt buf b
    else put_plain t decpt buf b) in
  freedtoa tx ;;
  ret (buf, b).
End Gfmt.
End Gfmt.
