(* ===== verification/GfmtSpec.v ===== *)
(** * g_fmt.c: what is written to the buffer

    [wrote buf b out]: the characters [out] are at the start of the buffer and [b] is
    behind them; [ended buf out]: a terminator follows. Each part of the text is a list
    of characters, and the places behind it keep what they had. *)
From S2P Require Import Prelude Libc Double DoubleSpec Bigint BigintSpec Dtoa Gfmt.

Module GfmtSpec.
Import Double DoubleSpec Bigint BigintSpec Dtoa Gfmt.

Definition wrote (buf : list cell) (b : Z) (out : list Z) : Prop :=
  b = len out ∧ ∃ rest, buf = (Some <$> out) ++ rest.
Definition ended (buf : list cell) (out : list Z) : Prop := ∃ rest, buf = (Some <$> out) ++ Some 0 :: rest.

(** A string in a block, from the place [s] on. *)
Definition string_at (t : list cell) (s : Z) (cs : list Z) : Prop :=
  ∃ pre rest, s = len pre ∧ t = pre ++ (Some <$> cs) ++ Some 0 :: rest.

Abbreviation chars_ok := (Forall (fun c => 0 < c < 128)).

Lemma ended_wrote buf out : ended buf out → wrote buf (len out) out.
Proof. intros [rest ->]. split; [done|]. by eexists. Qed.

Lemma string_next t s c cs : string_at t s (c :: cs) → string_at t (s + 1) cs.
Proof.
  intros (pre & rest & -> & ->). exists (pre ++ [Some c]), rest. rewrite length_app. cbn [length].
  split; [lia|]. by rewrite <- app_assoc.
Qed.

Lemma digits_chars cs : digits_ok cs → chars_ok cs.
Proof. intros H. eapply Forall_impl; [exact H|]. cbn. lia. Qed.

Section writes.
Context {E : Type}.

Lemma string_get t s cs : string_at t s cs → get_char (E:=E) t s = Done (hd 0 cs).
Proof. intros (pre & rest & -> & ->). by destruct cs as [|c cs]; apply rdw_mid. Qed.

Lemma put_end buf b out c :
  wrote buf b out → 0 ≤ c < 128 → len out < len buf →
  ∃ rest, put_char (E:=E) buf b c = Done ((Some <$> out) ++ Some c :: rest) ∧ len ((Some <$> out) ++ Some c :: rest) = len buf.
Proof.
  intros [-> [rest ->]] Hc Hl. rewrite length_app, length_fmap in Hl. destruct rest as [|r rest]; [cbn [length] in Hl; lia|].
  exists rest. split; [|by rewrite !length_app]. unfold put_char.
  assert (i8 c = c) as -> by (apply swrap_small; [lia|]; change (2 ^ (8 - 1)) with 128; lia).
  rewrite wr_done by (rewrite length_app, length_fmap; cbn [length]; lia).
  unfold zset. by rewrite Nat2Z.id, insert_app_r_alt, length_fmap, Nat.sub_diag by (rewrite length_fmap; lia).
Qed.

Lemma put_spec buf b out c :
  wrote buf b out → 0 ≤ c < 128 → len out < len buf →
  ∃ buf', put_char (E:=E) buf b c = Done buf' ∧ wrote buf' (b + 1) (out ++ [c]) ∧ len buf' = len buf.
Proof.
  intros Hw Hc Hl. destruct (put_end buf b out c Hw Hc Hl) as (rest & -> & Hl'). eexists. split; [done|]. split; [|done].
  split; [rewrite length_app; cbn [length]; destruct Hw; lia|]. exists rest. by rewrite fmap_app, <- app_assoc.
Qed.

Lemma put_nul buf b out :
  wrote buf b out → len out < len buf → ∃ buf', put_char (E:=E) buf b 0 = Done buf' ∧ ended buf' out ∧ len buf' = len buf.
Proof.
  intros Hw Hl. destruct (put_end buf b out 0 Hw ltac:(lia) Hl) as (rest & -> & Hl'). eexists. split; [done|]. split; [|done]. by exists rest.
Qed.

(** What a step appends. *)
Definition appends (o : outcome E (list cell * Z)) (buf : list cell) (out w : list Z) : Prop :=
  ∃ buf', o = Done (buf', len (out ++ w)) ∧ wrote buf' (len (out ++ w)) (out ++ w) ∧ len buf' = len buf.
(** The same, with a terminator. *)
Definition finishes (o : outcome E (list cell * Z)) (buf : list cell) (out w : list Z) : Prop :=
  ∃ buf', o = Done (buf', len (out ++ w)) ∧ ended buf' (out ++ w) ∧ len buf' = len buf.

Lemma copy_past_spec fuel t s buf b out cs :
  string_at t s cs → chars_ok cs → wrote buf b out → (length cs < fuel)%nat → len out + len cs < len buf →
  ∃ buf', copy_past (E:=E) fuel t s buf b = Done (buf', len (out ++ cs) + 1) ∧ ended buf' (out ++ cs) ∧ len buf' = len buf.
Proof.
  revert t s buf b out cs. induction fuel as [|fuel IH]; intros t s buf b out cs Ht Hcs Hw Hf Hl; [lia|]. cbn [copy_past].
  rewrite (string_get _ _ _ Ht). cbn [obind]. destruct cs as [|c cs]; cbn [hd].
  - destruct (put_nul buf b out Hw) as (buf' & -> & He & Hl'); [cbn [length] in Hl; lia|]. cbn [obind]. rewrite app_nil_r.
    destruct Hw as [-> _]. by exists buf'.
  - apply Forall_cons in Hcs as [Hc Hcs]. cbn [length] in *.
    destruct (put_spec buf b out c Hw) as (buf' & -> & Hw' & Hl'); [lia|lia|]. cbn [obind].
    rewrite (proj2 (Z.eqb_neq c 0)) by lia. apply string_next in Ht.
    destruct (IH t (s + 1) buf' (b + 1) (out ++ [c]) cs Ht Hcs Hw') as (buf2 & -> & He & Hl2);
      [lia|rewrite length_app; cbn [length]; lia|]. rewrite <- app_assoc in *. exists buf2. split; [done|]. split; [done|lia].
Qed.

Lemma copy_to_spec fuel t s buf b out cs :
  string_at t s cs → chars_ok cs → wrote buf b out → (length cs < fuel)%nat → len out + len cs < len buf →
  finishes (copy_to fuel t s buf b) buf out cs.
Proof.
  revert t s buf b out cs. induction fuel as [|fuel IH]; intros t s buf b out cs Ht Hcs Hw Hf Hl; [lia|]. cbn [copy_to].
  rewrite (string_get _ _ _ Ht). cbn [obind]. destruct cs as [|c cs]; cbn [hd].
  - destruct (put_nul buf b out Hw) as (buf' & -> & He & Hl'); [cbn [length] in Hl; lia|]. cbn [obind]. unfold finishes. rewrite app_nil_r.
    destruct Hw as [-> _]. by exists buf'.
  - apply Forall_cons in Hcs as [Hc Hcs]. cbn [length] in *.
    destruct (put_spec buf b out c Hw) as (buf' & -> & Hw' & Hl'); [lia|lia|]. cbn [obind].
    rewrite (proj2 (Z.eqb_neq c 0)) by lia. apply string_next in Ht.
    destruct (IH t (s + 1) buf' (b + 1) (out ++ [c]) cs Ht Hcs Hw') as (buf2 & -> & He & Hl2);
      [lia|rewrite length_app; cbn [length]; lia|]. unfold finishes. rewrite <- app_assoc in *. exists buf2. split; [done|]. split; [done|lia].
Qed.

Lemma put_zeros_spec n buf b out :
  wrote buf b out → len out + Z.of_nat n < len buf → appends (put_zeros n buf b) buf out (replicate n 48).
Proof.
  revert buf b out. induction n as [|n IH]; intros buf b out Hw Hl; cbn [put_zeros replicate].
  - exists buf. rewrite app_nil_r. destruct Hw as [-> Hw]. by repeat split.
  - destruct (put_spec buf b out 48 Hw) as (buf' & -> & Hw' & Hl'); [lia|lia|]. cbn [obind].
    destruct (IH buf' (b + 1) (out ++ [48]) Hw') as (buf2 & -> & He & Hl2); [rewrite length_app; cbn [length]; lia|].
    rewrite <- app_assoc in *. exists buf2. split; [done|]. split; [done|lia].
Qed.

(** ** The exponent *)
Lemma exponent_size_spec d : 0 ≤ d < 1000 → exponent_size (E:=E) 10 d 2 10 = Done (if d <? 100 then (2, 10) else (3, 100)).
Proof.
  intros Hd. cbn [exponent_size]. change (int (E:=E) (10 * 10)) with (Done (E:=E) 100). cbn [obind].
  destruct (Z.leb_spec 100 d), (Z.ltb_spec d 100); try lia; [|done].
  cbn [exponent_size]. change (int (E:=E) (10 * 100)) with (Done (E:=E) 1000). cbn [obind]. by rewrite (proj2 (Z.leb_gt 1000 d)) by lia.
Qed.

(** The digits of an exponent. *)
Definition exponent_text (d : Z) : list Z :=
  if d <? 100 then [48 + d / 10; 48 + d mod 10] else [48 + d / 100; 48 + (d / 10) mod 10; 48 + d mod 10].

Lemma exponent_text_checked : forallb (λ n, bool_decide (exponent_text (Z.of_nat n) = pad_left 2 48 (fmt_u (Z.of_nat n)))) (seq 0 500) = true.
Proof. vm_compute. reflexivity. Qed.

Lemma exponent_text_ok d : 0 ≤ d < 500 → exponent_text d = pad_left 2 48 (fmt_u d).
Proof.
  intros Hd. pose proof exponent_text_checked as Hc. rewrite forallb_forall in Hc. specialize (Hc (Z.to_nat d)).
  rewrite Z2Nat.id in Hc by lia. apply (bool_decide_unpack (exponent_text d = pad_left 2 48 (fmt_u d))). apply Is_true_true. apply Hc.
  apply in_seq. lia.
Qed.

Lemma exponent_digits_spec d buf b out :
  0 ≤ d < 1000 → wrote buf b out → len out + 3 < len buf →
  appends (let! (j, k) := exponent_size 10 d 2 10 in exponent_digits 10 d j k buf b) buf out (exponent_text d).
Proof.
  intros Hd Hw Hl. rewrite exponent_size_spec by done. unfold exponent_text.
  pose proof (Z.mod_pos_bound d 10 ltac:(lia)). pose proof (Z.div_mod d 10 ltac:(lia)).
  assert (∀ z, -10000 ≤ z ≤ 10000 → int (E:=E) z = Done z) as Hint by (intros; apply int_ok; unfold INT_MAX; lia).
  destruct (Z.ltb_spec d 100) as [Hs|Hs]; cbn [obind].
  - assert (0 ≤ d / 10 < 10) by (split; [apply Z.div_pos|apply Z.div_lt_upper_bound]; lia).
    cbn [exponent_digits]. rewrite !(Z.add_comm _ 48).
    destruct (put_spec buf b out (48 + d / 10) Hw) as (b1 & -> & Hw1 & Hl1); [lia|lia|]. cbn [obind].
    change (2 - 1 <=? 0) with false. cbv iota. rewrite Hint by lia. cbn [obind].
    replace ((d - d / 10 * 10) * 10 / 10) with (d mod 10) by (rewrite Z.div_mul by lia; lia).
    rewrite (Z.add_comm _ 48).
    destruct (put_spec b1 (b + 1) (out ++ [48 + d / 10]) (48 + d mod 10) Hw1) as (b2 & -> & Hw2 & Hl2); [lia|rewrite length_app; cbn [length]; lia|].
    cbn [obind]. change (2 - 1 - 1 <=? 0) with true. cbv iota. rewrite <- app_assoc in Hw2. pose proof (proj1 Hw2) as Hb. cbn [app] in *.
    exists b2. rewrite Hb in *. split; [done|]. split; [done|lia].
  - assert (0 ≤ d / 100 < 10) by (split; [apply Z.div_pos|apply Z.div_lt_upper_bound]; lia).
    pose proof (Z.div_mod d 100 ltac:(lia)). pose proof (Z.mod_pos_bound d 100 ltac:(lia)).
    pose proof (Z.mod_pos_bound (d / 10) 10 ltac:(lia)). pose proof (Z.div_mod (d / 10) 10 ltac:(lia)) as Hd10.
    assert (d / 10 / 10 = d / 100) as H100 by (by rewrite Z.div_div by lia).
    cbn [exponent_digits]. rewrite !(Z.add_comm _ 48).
    destruct (put_spec buf b out (48 + d / 100) Hw) as (b1 & -> & Hw1 & Hl1); [lia|lia|]. cbn [obind].
    change (3 - 1 <=? 0) with false. cbv iota. rewrite Hint by lia. cbn [obind].
    set (d1 := (d - d / 100 * 100) * 10). assert (d1 / 100 = (d / 10) mod 10) as Hd1.
    { unfold d1. symmetry. apply Z.div_unique with (10 * (d mod 10)); lia. }
    rewrite Hd1, (Z.add_comm _ 48). destruct (put_spec b1 (b + 1) (out ++ [48 + d / 100]) (48 + (d / 10) mod 10) Hw1) as (b2 & -> & Hw2 & Hl2);
      [lia|rewrite length_app; cbn [length]; lia|].
    cbn [obind]. change (3 - 1 - 1 <=? 0) with false. cbv iota. rewrite Hint by (unfold d1; lia). cbn [obind].
    replace ((d1 - (d / 10) mod 10 * 100) * 10 / 100) with (d mod 10) by (apply Z.div_unique with 0; unfold d1; lia).
    rewrite (Z.add_comm _ 48).
    destruct (put_spec b2 (b + 1 + 1) ((out ++ [48 + d / 100]) ++ [48 + (d / 10) mod 10]) (48 + d mod 10) Hw2) as (b3 & -> & Hw3 & Hl3);
      [lia|rewrite !length_app; cbn [length]; lia|].
    cbn [obind]. change (3 - 1 - 1 - 1 <=? 0) with true. cbv iota. rewrite <- !app_assoc in Hw3. pose proof (proj1 Hw3) as Hb. cbn [app] in *.
    exists b3. rewrite Hb in *. split; [done|]. split; [done|lia].
Qed.

Lemma put_exponent_spec decpt buf b out :
  Z.abs (decpt - 1) < 500 → wrote buf b out → len out + 6 < len buf →
  finishes (put_exponent decpt buf b) buf out (print_exp (decpt - 1)).
Proof.
  intros Hd Hw Hl. unfold put_exponent, print_exp. rewrite <- exponent_text_ok by lia.
  destruct (put_spec buf b out 101 Hw) as (b1 & -> & Hw1 & Hl1); [lia|lia|]. cbn [obind]. cbv zeta.
  set (c := if decpt - 1 <? 0 then 45 else 43).
  assert ((if decpt - 1 <? 0 then (45, - (decpt - 1)) else (43, decpt - 1)) = (c, Z.abs (decpt - 1))) as ->.
  { unfold c. destruct (Z.ltb_spec (decpt - 1) 0); f_equal; lia. }
  cbv iota beta.
  destruct (put_spec b1 (b + 1) (out ++ [101]) c Hw1) as (b2 & -> & Hw2 & Hl2); [unfold c; destruct (_ <? _); lia|rewrite length_app; cbn [length]; lia|].
  cbn [obind]. assert (length (exponent_text (Z.abs (decpt - 1))) ≤ 3)%nat as Hlen3 by (unfold exponent_text; destruct (Z.abs (decpt - 1) <? 100); cbn [length]; lia).
  assert (len ((out ++ [101]) ++ [c]) = len out + 2) as Hlen2 by (rewrite !length_app; cbn [length]; lia).
  destruct (exponent_digits_spec (Z.abs (decpt - 1)) b2 (b + 1 + 1) ((out ++ [101]) ++ [c]) ltac:(lia) Hw2) as (b3 & Heq & Hw3 & Hl3); [lia|].
  rewrite exponent_size_spec in Heq |- * by lia. destruct (if Z.abs (decpt - 1) <? 100 then (2, 10) else (3, 100)) as [j k]. cbn [obind] in *. rewrite Heq. cbn [obind].
  destruct (put_nul b3 _ _ Hw3) as (b4 & -> & He & Hl4); [rewrite length_app; lia|]. cbn [obind].
  rewrite <- !app_assoc in *. exists b4. split; [done|]. split; [done|lia].
Qed.

(** ** The three forms *)
Definition point (cs : list Z) : list Z := match cs with [] => [] | _ => 46 :: cs end.

Lemma string_length t s cs : string_at t s cs → (length cs < length t)%nat.
Proof. intros (pre & rest & _ & ->). rewrite !length_app, length_fmap. cbn [length]. lia. Qed.

Lemma put_scientific_spec t decpt buf b out c cs :
  string_at t 0 (c :: cs) → chars_ok (c :: cs) → Z.abs (decpt - 1) < 500 → wrote buf b out →
  len out + len cs + 9 < len buf →
  finishes (put_scientific t decpt buf b) buf out (c :: point cs ++ print_exp (decpt - 1)).
Proof.
  intros Ht [Hc Hcs]%Forall_cons Hd Hw Hl. pose proof (string_length _ _ _ Ht) as Hlt. cbn [length] in Hlt. unfold put_scientific.
  rewrite (string_get t 0 _ Ht). cbn [obind hd]. pose proof (string_next _ _ _ _ Ht) as Ht1. change (0 + 1) with 1 in Ht1.
  destruct (put_spec buf b out c Hw) as (b1 & -> & Hw1 & Hl1); [lia|lia|]. cbn [obind]. rewrite (string_get t 1 _ Ht1). cbn [obind].
  destruct cs as [|c2 cs]; cbn [hd point].
  - change (0 =? 0) with true. cbv iota. cbn [obind].
    destruct (put_exponent_spec decpt b1 (b + 1) (out ++ [c]) Hd Hw1) as (b2 & -> & He & Hl2); [rewrite length_app; cbn [length]; lia|].
    rewrite <- app_assoc in *. exists b2. split; [done|]. split; [done|lia].
  - apply Forall_cons in Hcs as Hc2. destruct Hc2 as [Hc2 _]. rewrite (proj2 (Z.eqb_neq c2 0)) by lia.
    destruct (put_spec b1 (b + 1) (out ++ [c]) 46 Hw1) as (b2 & -> & Hw2 & Hl2); [lia|rewrite length_app; cbn [length] in *; lia|]. cbn [obind].
    destruct (copy_to_spec (S (length t)) t 1 b2 (b + 1 + 1) ((out ++ [c]) ++ [46]) (c2 :: cs) Ht1 Hcs Hw2) as (b3 & -> & He3 & Hl3);
      [cbn [length] in *; lia|rewrite !length_app; cbn [length] in *; lia|]. cbn [obind]. apply ended_wrote in He3.
    destruct (put_exponent_spec decpt b3 _ _ Hd He3) as (b4 & -> & He4 & Hl4); [rewrite !length_app; cbn [length] in *; lia|].
    rewrite <- !app_assoc in *. exists b4. split; [done|]. split; [done|lia].
Qed.

Lemma put_small_spec t decpt buf b out cs :
  string_at t 0 cs → chars_ok cs → decpt ≤ 0 → wrote buf b out → len out + 2 - decpt + len cs < len buf →
  finishes (put_small t decpt buf b) buf out (48 :: 46 :: replicate (Z.to_nat (- decpt)) 48 ++ cs).
Proof.
  intros Ht Hcs Hd Hw Hl. pose proof (string_length _ _ _ Ht) as Hlt. unfold put_small.
  destruct (put_spec buf b out 48 Hw) as (b1 & -> & Hw1 & Hl1); [lia|lia|]. cbn [obind].
  destruct (put_spec b1 _ _ 46 Hw1) as (b2 & -> & Hw2 & Hl2); [lia|rewrite length_app; cbn [length]; lia|]. cbn [obind].
  destruct (put_zeros_spec (Z.to_nat (- decpt)) b2 _ _ Hw2) as (b3 & -> & Hw3 & Hl3); [rewrite !length_app; cbn [length]; lia|]. cbn [obind].
  destruct (copy_past_spec (S (length t)) t 0 b3 _ _ cs Ht Hcs Hw3) as (b4 & -> & He4 & Hl4);
    [lia|rewrite !length_app, length_replicate; cbn [length]; lia|]. cbn [obind].
  rewrite <- !app_assoc in *. exists b4. split; [do 2 f_equal; cbn [app]; lia|]. split; [done|lia].
Qed.

(** The point behind [d] digits, if there are more. *)
Fixpoint plain_out (d : Z) (cs : list Z) : list Z :=
  match cs with
  | [] => []
  | c :: cs => c :: (if (d - 1 =? 0) && negb (bool_decide (cs = [])) then 46 :: plain_out (d - 1) cs else plain_out (d - 1) cs)
  end.

Lemma plain_out_length d cs : len (plain_out d cs) ≤ len cs + (if (0 <? d) then 1 else 0).
Proof.
  revert d. induction cs as [|c cs IH]; intros d; cbn [plain_out length]; [destruct (0 <? d); lia|]. specialize (IH (d - 1)).
  destruct (Z.eqb_spec (d - 1) 0), (Z.ltb_spec 0 (d - 1)), (Z.ltb_spec 0 d); try lia;
    destruct (bool_decide (cs = [])); cbn [andb negb length]; lia.
Qed.

Lemma plain_loop_spec fuel t s d buf b out cs :
  string_at t s cs → chars_ok cs → wrote buf b out → (length cs < fuel)%nat → len out + len cs + 1 < len buf →
  ∃ buf', plain_loop (E:=E) fuel t s d buf b = Done (buf', len (out ++ plain_out d cs), d - len cs) ∧
    ended buf' (out ++ plain_out d cs) ∧ len buf' = len buf.
Proof.
  intros Ht Hcs Hw Hf Hl. assert (len out + len cs + (if 0 <? d then 1 else 0) < len buf) as Hl' by (destruct (0 <? d); lia). clear Hl.
  revert t s d buf b out cs Ht Hcs Hw Hf Hl'. induction fuel as [|fuel IH]; intros t s d buf b out cs Ht Hcs Hw Hf Hl; [lia|]. cbn [plain_loop].
  rewrite (string_get _ _ _ Ht). cbn [obind]. destruct cs as [|c cs]; cbn [hd plain_out].
  - destruct (put_nul buf b out Hw) as (buf' & -> & He & Hl'); [cbn [length] in Hl; destruct (0 <? d); lia|]. cbn [obind]. rewrite app_nil_r.
    destruct Hw as [-> _]. exists buf'. split; [do 2 f_equal; cbn [length]; lia|done].
  - apply Forall_cons in Hcs as [Hc Hcs]. cbn [length] in *.
    destruct (put_spec buf b out c Hw) as (buf' & -> & Hw' & Hl'); [lia|destruct (0 <? d); lia|]. cbn [obind].
    rewrite (proj2 (Z.eqb_neq c 0)) by lia. apply string_next in Ht.
    assert ((if d - 1 =? 0 then get_char (E:=E) t (s + 1) else Done 0) = Done (if d - 1 =? 0 then hd 0 cs else 0)) as ->.
    { destruct (d - 1 =? 0); [by apply string_get|done]. }
    cbn [obind]. assert (negb ((if d - 1 =? 0 then hd 0 cs else 0) =? 0) = (d - 1 =? 0) && negb (bool_decide (cs = []))) as ->.
    { destruct (d - 1 =? 0); [|done]. destruct cs as [|c2 cs]; [done|]. apply Forall_cons in Hcs as [Hc2 _]. cbn [hd].
      by rewrite (proj2 (Z.eqb_neq c2 0)) by lia. }
    assert (len (out ++ [c]) = len out + 1) as Hlen1 by (rewrite length_app; cbn [length]; lia).
    destruct ((d - 1 =? 0) && negb (bool_decide (cs = []))) eqn:Hpt.
    + apply andb_prop in Hpt as [Hd%Z.eqb_eq _]. rewrite (proj2 (Z.ltb_lt 0 d)) in Hl by lia.
      destruct (put_spec buf' (b + 1) (out ++ [c]) 46 Hw') as (buf2 & -> & Hw2 & Hl2); [lia|lia|]. cbn [obind].
      destruct (IH t (s + 1) (d - 1) buf2 (b + 1 + 1) ((out ++ [c]) ++ [46]) cs Ht Hcs Hw2) as (buf3 & -> & He & Hl3); [lia| |].
      { rewrite Hd. change (0 <? 0) with false. cbv iota. rewrite !length_app in *. cbn [length] in *. lia. }
      rewrite <- !app_assoc in *. exists buf3. split; [do 2 f_equal; lia|]. split; [done|lia].
    + destruct (IH t (s + 1) (d - 1) buf' (b + 1) (out ++ [c]) cs Ht Hcs Hw') as (buf3 & -> & He & Hl3); [lia| |].
      { destruct (Z.ltb_spec 0 (d - 1)), (Z.ltb_spec 0 d); lia. }
      rewrite <- !app_assoc in *. exists buf3. split; [do 2 f_equal; lia|]. split; [done|lia].
Qed.

Lemma put_plain_spec t decpt buf b out cs :
  string_at t 0 cs → chars_ok cs → 0 < decpt → wrote buf b out → len out + Z.max (len cs) decpt + 1 < len buf →
  finishes (put_plain t decpt buf b) buf out (plain_out decpt cs ++ replicate (Z.to_nat (decpt - len cs)) 48).
Proof.
  intros Ht Hcs Hd Hw Hl. pose proof (string_length _ _ _ Ht) as Hlt. unfold put_plain.
  destruct (plain_loop_spec (S (length t)) t 0 decpt buf b out cs Ht Hcs Hw) as (b1 & -> & He1 & Hl1); [lia|lia|]. cbn [obind].
  apply ended_wrote in He1. pose proof (plain_out_length decpt cs) as Hpl. rewrite (proj2 (Z.ltb_lt 0 decpt)) in Hpl by lia.
  assert (0 < decpt - len cs → len (plain_out decpt cs) ≤ len cs) as Hpl0.
  { clear. revert decpt. induction cs as [|c cs IH]; intros d; cbn [plain_out length]; [lia|]. intros H.
    destruct (Z.eqb_spec (d - 1) 0); [lia|]. cbn [andb length]. specialize (IH (d - 1)). lia. }
  destruct (put_zeros_spec (Z.to_nat (decpt - len cs)) b1 _ _ He1) as (b2 & -> & Hw2 & Hl2); [rewrite !length_app; lia|]. cbn [obind].
  destruct (put_nul b2 _ _ Hw2) as (b3 & -> & He3 & Hl3); [rewrite !length_app, length_replicate; lia|]. cbn [obind].
  rewrite <- app_assoc in *. exists b3. split; [done|]. split; [done|lia].
Qed.
End writes.
End GfmtSpec.
