(* ===== verification/GfmtProps.v ===== *)
(** * g_fmt.c: the text is what printf prints

    The digits and the exponent of [dtoa] are those of [significant], the exact
    conversion of the C library, without the zeros at the end; [fpconv_g_fmt] then writes
    the text of [%.<P>g]. A double halfway between two candidates is the exception. *)
From Stdlib Require Import Reals Lra.
From S2P Require Import Prelude Libc Double DoubleSpec Fpconv FpconvSpec Bigint BigintSpec BigintOps Dtoa FloatSpec FloatOps DtoaDigits DtoaProps Gfmt GfmtSpec.

Module GfmtProps.
Import Double DoubleSpec FpconvSpec Bigint BigintSpec BigintOps Dtoa FloatSpec FloatOps DtoaDigits DtoaProps Gfmt GfmtSpec.

(** ** Digits and numbers *)
Lemma dec_value_unique cs ds : digits_ok cs → digits_ok ds → len cs = len ds → dec_value cs = dec_value ds → cs = ds.
Proof.
  revert ds. induction cs as [|c cs IH] using rev_ind; intros ds Hcs Hds Hl Hv.
  { destruct ds; [done|cbn [length] in Hl; lia]. }
  destruct ds as [|d ds _] using rev_ind; [rewrite length_app in Hl; cbn [length] in Hl; lia|].
  rewrite !dec_value_snoc in Hv. rewrite !length_app in Hl. cbn [length] in Hl.
  pose proof (digit_range _ _ Hcs). pose proof (digit_range _ _ Hds).
  apply Forall_app in Hcs as [Hcs _]. apply Forall_app in Hds as [Hds _].
  assert (dec_value cs = dec_value ds ∧ c = d) as [Hv' ->] by lia. by rewrite (IH ds) by (done || lia).
Qed.

Lemma leading_length cs : leading cs → 1 ≤ len cs.
Proof. intros (d & ds & -> & _). cbn [length]. lia. Qed.

Lemma fmt_u_dec_value cs : digits_ok cs → leading cs → fmt_u (dec_value cs) = cs.
Proof.
  intros Hcs Hl. pose proof (dec_value_range cs Hcs) as Hr. pose proof (dec_value_leading cs Hcs Hl) as Hlo.
  pose proof (leading_length cs Hl) as Hlen. pose proof (Z.pow_pos_nonneg 10 (len cs - 1) ltac:(lia) ltac:(lia)).
  destruct (fmt_u_value (dec_value cs) ltac:(lia)) as (_ & Hd & Hv).
  apply dec_value_unique; [done|done| |done]. rewrite (fmt_u_length_eq _ (len cs - 1)); [lia|lia|]. rewrite Z.sub_add; lia.
Qed.

Lemma strip_zeros_stripped cs n : stripped cs → strip_zeros (cs ++ replicate n 48) = cs.
Proof.
  induction cs as [|c cs IH]; intros Hs; [apply strip_zeros_replicate|]. cbn [app strip_zeros].
  destruct cs as [|d cs].
  - cbn [app]. rewrite strip_zeros_replicate. destruct (Z.eqb_spec c 48) as [->|]; [by destruct Hs|done].
  - rewrite IH; [done|exact Hs].
Qed.

Lemma stripped_drop n cs : stripped cs → stripped (drop n cs).
Proof.
  revert cs. induction n as [|n IH]; intros cs Hs; [done|]. destruct cs as [|c cs]; [done|]. cbn [drop]. apply IH.
  destruct cs; [done|exact Hs].
Qed.

Lemma plain_out_eq d cs : 0 < d →
  plain_out d cs = if d <? len cs then take (Z.to_nat d) cs ++ 46 :: drop (Z.to_nat d) cs else cs.
Proof.
  revert d. induction cs as [|c cs IH]; intros d Hd; cbn [plain_out length].
  { destruct (d <? Z.of_nat 0)%Z eqn:Hlt; [apply Z.ltb_lt in Hlt; lia|done]. }
  replace (Z.to_nat d) with (S (Z.to_nat (d - 1))) by lia. cbn [take drop].
  destruct (Z.eqb_spec (d - 1) 0) as [H0|H0].
  - rewrite H0. assert (∀ e l, e ≤ 0 → plain_out e l = l) as Hneg.
    { intros e l. revert e. induction l as [|a l IHl]; intros e He; [done|]. cbn [plain_out]. rewrite (proj2 (Z.eqb_neq (e - 1) 0)) by lia.
      cbn [andb]. by rewrite IHl by lia. }
    change (Z.to_nat 0) with 0%nat. cbn [take drop andb]. rewrite !Hneg by lia.
    destruct cs as [|c2 cs]; cbn [length]; [by rewrite (proj2 (Z.ltb_ge _ _)) by lia|]. rewrite bool_decide_eq_false_2 by done.
    cbn [negb]. by rewrite (proj2 (Z.ltb_lt _ _)) by lia.
  - cbn [andb]. rewrite IH by lia. destruct (Z.ltb_spec (d - 1) (len cs)), (Z.ltb_spec d (Z.of_nat (S (length cs)))); done || lia.
Qed.

(** The text of digits without zeros at the end, as [fpconv_g_fmt] writes it. *)
Definition g_text (P x : Z) (cs : list Z) : list Z :=
  if (x + 1 <=? -4) || (P <? x + 1) then take 1 cs ++ point (drop 1 cs) ++ print_exp x
  else if x + 1 <=? 0 then 48 :: 46 :: replicate (Z.to_nat (- (x + 1))) 48 ++ cs
  else plain_out (x + 1) cs ++ replicate (Z.to_nat (x + 1 - len cs)) 48.

Lemma fraction_point cs n : stripped cs → fraction 46 (cs ++ replicate n 48) = point cs.
Proof. intros Hs. unfold fraction. rewrite strip_zeros_stripped by done. by destruct cs. Qed.

Lemma g_text_printf P x cs :
  digits_ok cs → leading cs → stripped cs → len cs ≤ P →
  print_decimal 46 P (dec_value cs * 10 ^ (P - len cs)) x = g_text P x cs.
Proof.
  intros Hcs Hl Hs Hlen. pose proof (leading_length cs Hl) as H1.
  pose proof (dec_value_leading cs Hcs Hl) as Hlo. pose proof (Z.pow_pos_nonneg 10 (len cs - 1) ltac:(lia) ltac:(lia)).
  unfold print_decimal, g_text. set (n := Z.to_nat (P - len cs)). replace (P - len cs) with (Z.of_nat n) by (unfold n; lia).
  rewrite fmt_u_times10, fmt_u_dec_value by (done || lia). set (ds := cs ++ replicate n 48).
  assert (drop 1 ds = drop 1 cs ++ replicate n 48 ∧ take 1 ds = take 1 cs) as [Hd1 Ht1].
  { destruct Hl as (d & cs' & -> & _). done. }
  assert (((-4 <=? x) && (x <? P)) = negb ((x + 1 <=? -4) || (P <? x + 1))) as ->.
  { destruct (Z.leb_spec (-4) x), (Z.ltb_spec x P), (Z.leb_spec (x + 1) (-4)), (Z.ltb_spec P (x + 1)); cbn; done || lia. }
  destruct ((x + 1 <=? -4) || (P <? x + 1)) eqn:Hsci; cbn [negb].
  { rewrite Hd1, Ht1, fraction_point; [done|by apply stripped_drop]. }
  apply orb_false_iff in Hsci as [Hx1%Z.leb_gt Hx2%Z.ltb_ge].
  destruct (Z.leb_spec 0 x) as [Hx|Hx]; destruct (Z.leb_spec (x + 1) 0); try lia.
  - rewrite plain_out_eq by lia. destruct (Z.ltb_spec (x + 1) (len cs)) as [Hlt|Hge].
    + replace (Z.to_nat (x + 1 - len cs)) with 0%nat by lia. rewrite app_nil_r. unfold ds.
      rewrite take_app_le, drop_app_le by lia. rewrite fraction_point by (by apply stripped_drop). f_equal.
      destruct (drop (Z.to_nat (x + 1)) cs) eqn:Hd; [|done]. apply (f_equal length) in Hd. rewrite length_drop in Hd. cbn [length] in Hd. lia.
    + unfold ds. rewrite take_app_ge, drop_app_ge by lia. rewrite take_replicate, drop_replicate.
      unfold fraction. rewrite strip_zeros_replicate, app_nil_r. do 2 f_equal. unfold n. lia.
  - unfold ds. rewrite app_assoc. unfold fraction. rewrite strip_zeros_stripped.
    + replace (Z.to_nat (- (x + 1))) with (Z.to_nat (- x - 1)) by lia.
      destruct (replicate (Z.to_nat (- x - 1)) 48 ++ cs) eqn:Hd; [|done]. apply app_eq_nil in Hd as [_ ->]. cbn in H1. lia.
    + unfold stripped in *. rewrite last_app. destruct (last cs) eqn:Hlast; [done|]. apply last_None in Hlast. subst cs. cbn [length] in H1. lia.
Qed.

(** ** The digits of the C library *)
Lemma div_round_nearest a b : 0 < b → nearest (IZR a / IZR b) (div_round a b).
Proof.
  intros Hb. pose proof (Z.div_mod a b ltac:(lia)) as Hdm. pose proof (Z.mod_pos_bound a b Hb) as Hm. apply IZR_lt in Hb as Hb'.
  set (q := (IZR a / IZR b)%R). assert (IZR a = q * IZR b)%R as Ha by (unfold q; field; lra).
  assert (q = IZR (a / b) + IZR (a mod b) / IZR b)%R as Hq.
  { apply Rmult_eq_reg_r with (IZR b); [|lra]. rewrite <- Ha, Rmult_plus_distr_r. unfold Rdiv. rewrite Rmult_assoc, Rinv_l by lra.
    rewrite Hdm at 1. rewrite plus_IZR, mult_IZR. ring. }
  assert (∀ c, (c < / 2 ↔ 2 * (c * IZR b) < IZR b) ∧ (/ 2 < c ↔ IZR b < 2 * (c * IZR b)))%R as Hc by (intros c; split; split; nra).
  assert (IZR (a mod b) / IZR b * IZR b = IZR (a mod b))%R as Hr by (field; lra).
  destruct (Hc (IZR (a mod b) / IZR b)%R) as [Hlt Hgt]. rewrite Hr, <- mult_IZR in Hlt, Hgt.
  assert (0 <= IZR (a mod b) / IZR b < 1)%R as H01.
  { split; [apply Rmult_le_pos; [apply IZR_le; lia|left; by apply Rinv_0_lt_compat]|].
    apply Rmult_lt_reg_r with (IZR b); [done|]. rewrite Hr, Rmult_1_l. apply IZR_lt. lia. }
  unfold div_round. destruct (Z.compare_spec (2 * (a mod b)) b) as [Heq|Hl|Hg].
  - assert (q = IZR (a / b) + / 2)%R as Htie.
    { rewrite Hq. f_equal. apply Rmult_eq_reg_r with (IZR b); [|lra]. rewrite Hr. apply (f_equal IZR) in Heq. rewrite mult_IZR in Heq. lra. }
    pose proof (nearest_tie q (a / b) Htie) as Hn. rewrite <- Z.negb_even in Hn. by destruct (Z.even (a / b)).
  - apply IZR_lt, Hlt in Hl. apply nearest_down. lra.
  - apply IZR_lt, Hgt in Hg. apply nearest_up. lra.
Qed.

Section significant.
Context (num den : Z) (Hnum : 0 < num) (Hden : 0 < den).
Local Abbreviation U := (IZR num / IZR den)%R.

Lemma pow10_parts x : (pow10 x * IZR (10 ^ Z.max (- x) 0) = IZR (10 ^ Z.max x 0))%R.
Proof. rewrite <- !pow10_IZR, <- tenpow_add by lia. f_equal. lia. Qed.

Lemma ratio_le z w : (IZR z * IZR den <= IZR num * w)%R → (0 < w)%R → (IZR z / w <= U)%R.
Proof.
  intros H Hw. apply IZR_lt in Hden. apply Rmult_le_reg_r with (w * IZR den)%R; [nra|].
  replace (IZR z / w * (w * IZR den))%R with (IZR z * IZR den)%R by (field; lra).
  replace (U * (w * IZR den))%R with (IZR num * w)%R by (field; lra). done.
Qed.

Lemma decade_exponent : decade U (dec_exp num den).
Proof.
  destruct (dec_exp_spec num den Hnum Hden) as [H1 H2]. set (x := dec_exp num den) in *.
  apply IZR_le in H1. apply IZR_lt in H2. rewrite !mult_IZR in H1, H2. apply IZR_lt in Hden.
  pose proof (pow10_parts x) as P1. pose proof (pow10_parts (x + 1)) as P2.
  assert (∀ y, 0 < IZR (10 ^ Z.max y 0))%R as Hpos by (intros; apply IZR_lt; apply Z.pow_pos_nonneg; lia).
  pose proof (Hpos (- x)). pose proof (Hpos (- (x + 1))). unfold decade.
  assert (IZR num = U * IZR den)%R as HU by (field; lra). set (u := U) in *. rewrite HU in H1, H2. rewrite <- P1 in H1. rewrite <- P2 in H2. split.
  - apply Rmult_le_reg_r with (IZR den * IZR (10 ^ Z.max (- x) 0))%R; [nra|]. lra.
  - apply Rmult_lt_reg_r with (IZR den * IZR (10 ^ Z.max (- (x + 1)) 0))%R; [nra|]. lra.
Qed.

(** A number of [n] digits times a power of 10. *)
Lemma digits_power cs a P : digits_ok cs → leading cs → 0 ≤ a → 1 ≤ P → 10 ^ (P - 1) ≤ dec_value cs * 10 ^ a < 10 ^ P → len cs + a = P.
Proof.
  intros Hcs Hl Ha HP [H1 H2]. pose proof (dec_value_range cs Hcs) as Hr. pose proof (dec_value_leading cs Hcs Hl) as Hlo.
  pose proof (leading_length cs Hl). pose proof (Z.pow_pos_nonneg 10 a ltac:(lia) Ha).
  assert (P - 1 < len cs + a).
  { apply (Z.pow_lt_mono_r_iff 10); [lia|lia|]. rewrite (Z.pow_add_r 10 (len cs)) by lia. nia. }
  assert (len cs + a - 1 < P); [|lia].
  { apply (Z.pow_lt_mono_r_iff 10); [lia|lia|]. replace (len cs + a - 1) with (len cs - 1 + a) by lia. rewrite Z.pow_add_r by lia. nia. }
Qed.

Lemma significant_decimal P cs kk :
  1 ≤ P → decimal U P cs kk → significant P num den = (dec_value cs * 10 ^ (P - len cs), kk).
Proof.
  intros HP (Hcs & Hl & Hlen & K & r & HK & Hr & Hkk & Hv). unfold significant.
  pose proof decade_exponent as Hx. pose proof (decade_unique _ _ _ HK Hx) as ->. set (x := dec_exp num den) in *.
  set (a := num * 10 ^ Z.max (P - 1 - x) 0). set (b := den * 10 ^ Z.max (x - (P - 1)) 0).
  assert (0 < b) as Hb by (unfold b; apply Z.mul_pos_pos; [done|]; apply Z.pow_pos_nonneg; lia).
  assert (div_round a b = r) as Hdr.
  { apply (nearest_unique (IZR a / IZR b)); [by apply div_round_nearest|]. replace (IZR a / IZR b)%R with (U * pow10 (P - 1 - x))%R; [done|].
    unfold a, b. rewrite !mult_IZR. apply IZR_lt in Hden. pose proof (pow10_parts (P - 1 - x)) as Hp. replace (- (P - 1 - x)) with (x - (P - 1)) in Hp by lia.
    assert (0 < IZR (10 ^ Z.max (x - (P - 1)) 0))%R by (apply IZR_lt; apply Z.pow_pos_nonneg; lia). rewrite <- Hp. field. lra. }
  pose proof (DoubleSpec.scaled P num den x HP (dec_exp_spec num den Hnum Hden)) as [Hlo Hhi]. fold a b in Hlo, Hhi.
  pose proof (div_round_bounds _ _ _ _ Hb Hlo Hhi) as Hrange. rewrite Hdr in *.
  assert (10 ^ P = 10 * 10 ^ (P - 1)) as HPs by (rewrite <- Z.pow_succ_r by lia; f_equal; lia).
  pose proof (Z.pow_pos_nonneg 10 (P - 1) ltac:(lia) ltac:(lia)).
  destruct (Z.eqb_spec r (10 ^ P)) as [Heq|Hne].
  - assert (len cs + (P - len cs + (kk - x)) = P + 1) as Hpl.
    { apply digits_power; [done|done|lia|lia|]. rewrite Hv, Heq, Z.pow_add_r by lia. change (10 ^ 1) with 10. replace (P + 1 - 1) with P by lia. lia. }
    assert (kk = x + 1) as -> by lia. f_equal. replace (P - len cs + (x + 1 - x)) with (Z.succ (P - len cs)) in Hv by lia.
    rewrite Z.pow_succ_r in Hv by lia. lia.
  - assert (len cs + (P - len cs + (kk - x)) = P) as Hpl.
    { apply digits_power; [done|done|lia|lia|]. lia. }
    assert (kk = x) as -> by lia. f_equal. by rewrite <- Hv, Z.sub_diag, Z.add_0_r.
Qed.
End significant.

(** ** The text *)
Section text.
Context {E : Type}.

Lemma put_string_spec t s out cs :
  wrote t s out → chars_ok cs → len out + len cs < len t →
  finishes (put_string (E:=E) t s cs) t out cs.
Proof.
  revert t s out. induction cs as [|c cs IH]; intros t s out Hw Hcs Hl; cbn [put_string].
  - destruct (put_nul (E:=E) t s out Hw) as (t' & -> & He & Hl'); [cbn [length] in Hl; lia|]. cbn [obind].
    unfold finishes. rewrite app_nil_r. destruct Hw as [-> _]. by exists t'.
  - apply Forall_cons in Hcs as [Hc Hcs]. cbn [length] in Hl.
    destruct (put_spec (E:=E) t s out c Hw) as (t' & -> & Hw' & Hl'); [lia|lia|]. cbn [obind].
    destruct (IH t' (s + 1) (out ++ [c]) Hw' Hcs) as (t2 & -> & He & Hl2); [rewrite length_app; cbn [length]; lia|].
    unfold finishes. rewrite <- app_assoc in *. exists t2. split; [done|]. split; [done|lia].
Qed.

Lemma nrv_alloc_spec p cs n :
  pool_ok p → chars_ok cs → len cs ≤ n < 500 →
  run (nrv_alloc (E:=E) cs n) p 1 (fun r _ => text_ok r.1 ∧ ended (chars r.1) cs ∧ r.2 = len cs).
Proof.
  intros Hp Hcs Hn. unfold nrv_alloc. eapply run_bind; [apply rv_alloc_spec; [done|lia]|]. intros rv p1 Hp1 [Hok Hl].
  destruct (put_string_spec (chars rv) 0 [] cs) as (t & Ht & He & _); [split; [done|]; by exists (chars rv)|done|cbn [length]; lia|].
  apply run_lift. rewrite Ht. apply returns_done. eapply run_conv; [apply run_ret; [done|]|lia]. cbn [fst snd chars]. done.
Qed.

Lemma dtoa_zero p s nd :
  pool_ok p → run (dtoa (E:=E) (S754_zero s) nd) p 1 (fun r _ => let '(tx, n, decpt, sgn) := r in
    sgn = s ∧ decpt = 1 ∧ text_ok tx ∧ ended (chars tx) [48]).
Proof.
  intros Hp. assert (dtoa (E:=E) (S754_zero s) nd = (let* (t, n) := nrv_alloc (lit "0") 1 in ret (t, n, 1, s))) as ->.
  { by destruct s. }
  eapply run_bind; [apply (nrv_alloc_spec p (lit "0") 1); [done|by repeat constructor|cbn; lia]|].
  intros [t n] p1 Hp1 (Hok & He & _). eapply run_conv; [apply run_ret; [done|]|lia]. done.
Qed.

Lemma put_sign (s : bool) buf : 0 < len buf →
  ∃ buf', (if s then let! buf := put_char (E:=E) buf 0 45 in Done (buf, 1) else Done (buf, 0)) = Done (buf', len (if s then [45] else [])) ∧
    wrote buf' (len (if s then [45] else [])) (if s then [45] else []) ∧ len buf' = len buf.
Proof.
  intros Hl. destruct s.
  - destruct (put_spec (E:=E) buf 0 [] 45) as (b & -> & Hw & Hl'); [split; [done|]; by exists buf|lia|done|]. cbn [obind]. by exists b.
  - exists buf. split; [done|]. split; [|done]. split; [done|]. by exists buf.
Qed.

(** The forms of the text, by the exponent. *)
Lemma g_fmt_forms t buf b out P x cs :
  string_at t 0 cs → digits_ok cs → leading cs → len cs ≤ P → Z.abs x < 500 → wrote buf b out → len out ≤ 1 → P + 10 ≤ len buf →
  finishes (E:=E) (if (x + 1 <=? -4) || (P <? x + 1) then put_scientific t (x + 1) buf b
            else if x + 1 <=? 0 then put_small t (x + 1) buf b
            else put_plain t (x + 1) buf b) buf out (g_text P x cs).
Proof.
  intros Ht Hcs Hl Hlen Hx Hw Hout Hb. pose proof (digits_chars cs Hcs) as Hch. pose proof (leading_length cs Hl) as H1. unfold g_text.
  destruct (Z.leb_spec (x + 1) (-4)) as [Hs|Hs]; [|destruct (Z.ltb_spec P (x + 1)) as [Hp|Hp]]; cbn [orb].
  - destruct Hl as (d & ds & -> & Hd). cbn [take drop app length] in *. rewrite take_0, drop_0. cbn [app]. replace x with (x + 1 - 1) at 2 by lia.
    apply put_scientific_spec; (done || lia).
  - destruct Hl as (d & ds & -> & Hd). cbn [take drop app length] in *. rewrite take_0, drop_0. cbn [app]. replace x with (x + 1 - 1) at 2 by lia.
    apply put_scientific_spec; (done || lia).
  - destruct (Z.leb_spec (x + 1) 0); [apply put_small_spec|apply put_plain_spec]; (done || lia).
Qed.

Lemma magnitude_ratio m e :
  val (S754_finite false m e) = (IZR (Z.pos m * 2 ^ Z.max e 0) / IZR (2 ^ Z.max (- e) 0))%R.
Proof.
  rewrite val_sign, mult_IZR, <- !pow2_IZR by lia. unfold Rdiv. rewrite pow2_inv, Rmult_assoc, <- pow2_add. do 2 f_equal. lia.
Qed.

(** The digits are those of the C library. *)
Lemma decimal_significant P m e cs x :
  1 ≤ P → double_ok (S754_finite false m e) → decimal (val (S754_finite false m e)) P cs x →
  significant P (Z.pos m * 2 ^ Z.max e 0) (2 ^ Z.max (- e) 0) = (dec_value cs * 10 ^ (P - len cs), x) ∧ Z.abs x < 500.
Proof.
  intros HP Hok Hd. pose proof (Z.pow_pos_nonneg 2 (Z.max e 0) ltac:(lia) ltac:(lia)) as Hp2. pose proof (Z.pow_pos_nonneg 2 (Z.max (- e) 0) ltac:(lia) ltac:(lia)) as Hpd.
  rewrite magnitude_ratio in Hd. set (num := Z.pos m * 2 ^ Z.max e 0) in *. set (den := 2 ^ Z.max (- e) 0) in *. assert (0 < num) as Hpn by (unfold num; lia).
  pose proof (significant_decimal num den Hpn Hpd P cs x HP Hd) as Hsig. split; [done|].
  destruct (double_ok_mantissa _ _ _ Hok) as (_ & He & Hm).
  pose proof (dec_exp_range m e He Hm) as Hr. pose proof (significant_spec P num den ltac:(lia) Hpn Hpd) as Hss. rewrite Hsig in Hss. fold num den in Hr. lia.
Qed.

(** The text of a double and nothing else. *)
Definition prints (buf : list cell) (w : list Z) (r : list cell * Z) : Prop :=
  let '(buf', n) := r in n = len w ∧ ended buf' w ∧ len buf' = len buf.

Definition sign_text (s : bool) : list Z := if s then [45] else [].

Lemma g_fmt_digits p s m e P buf :
  pool_ok p → double_ok (S754_finite s m e) → 1 ≤ P < 500 → P + 10 ≤ len buf → ¬ tie (val (S754_finite false m e)) P →
  run (fpconv_g_fmt (E:=E) buf (S754_finite s m e) P) p 0 (fun r _ => ∃ cs x,
    decimal (val (S754_finite false m e)) P cs x ∧ stripped cs ∧ Z.abs x < 500 ∧ prints buf (sign_text s ++ g_text P x cs) r).
Proof.
  intros Hp Hok HP Hb Hnt. unfold fpconv_g_fmt. eapply run_bind; [by apply dtoa_finite; [..|lia]|].
  intros [[[tx n] decpt] sgn] p1 Hp1 [-> (cs & (Hok1 & _ & Hcs & rest & Htx) & Hd & Hst)].
  rewrite Z.max_l in Hd, Hst by lia. destruct Hst as [Hst|]; [|done].
  destruct (decimal_significant P m e cs (decpt - 1) ltac:(lia) Hok Hd) as [_ Hx]. pose proof Hd as (_ & Hl & Hlen & _).
  destruct (put_sign s buf ltac:(lia)) as (b1 & Hsgn & Hw & Hl1). rewrite Hsgn. cbn [obind].
  rewrite (proj2 (Z.eqb_neq decpt 9999)) by lia.
  destruct (g_fmt_forms (chars tx) b1 (len (sign_text s)) (sign_text s) P (decpt - 1) cs) as (b2 & Hres & He2 & Hl2); try done.
  { exists [], rest. done. }
  { by destruct s; cbn. }
  { lia. }
  rewrite Z.sub_add in Hres. apply run_lift. unfold sign_text in Hres. rewrite Hres. apply returns_done.
  eapply (run_bind _ _ _ (-1)); [by apply freedtoa_spec|]. intros _ p2 Hp2' _. eapply run_conv; [apply run_ret; [done|]|lia].
  exists cs, (decpt - 1). do 3 (split; [done|]). split; [done|]. split; [done|lia].
Qed.

Lemma g_fmt_finite p s m e P buf :
  pool_ok p → double_ok (S754_finite s m e) → 1 ≤ P < 500 → P + 10 ≤ len buf → ¬ tie (val (S754_finite false m e)) P →
  run (fpconv_g_fmt (E:=E) buf (S754_finite s m e) P) p 0 (fun r _ => prints buf (printf_g 46 P (S754_finite s m e)) r).
Proof.
  intros Hp Hok HP Hb Hnt. eapply run_mono; [by apply g_fmt_digits|]. intros r _ (cs & x & Hd & Hst & _ & Hr).
  destruct (decimal_significant P m e cs x ltac:(lia) Hok Hd) as [Hsig _]. destruct Hd as (Hcs & Hl & Hlen & _).
  unfold printf_g. cbn [neg]. by rewrite Hsig, g_text_printf.
Qed.
End text.

(** ** Halfway between two candidates *)
(** The rounding of [significant] is a tie. *)
Definition halfway (P : Z) (x : double) : bool :=
  match x with
  | S754_finite _ m e =>
      let num := Z.pos m * 2 ^ Z.max e 0 in
      let den := 2 ^ Z.max (- e) 0 in
      let x := dec_exp num den in
      let a := num * 10 ^ Z.max (P - 1 - x) 0 in
      let b := den * 10 ^ Z.max (x - (P - 1)) 0 in
      2 * (a mod b) =? b
  | _ => false
  end.

Lemma tie_halfway s m e P : tie (val (S754_finite false m e)) P → halfway P (S754_finite s m e) = true.
Proof.
  rewrite magnitude_ratio. unfold halfway. set (num := Z.pos m * 2 ^ Z.max e 0). set (den := 2 ^ Z.max (- e) 0).
  assert (0 < den) as Hd by (apply Z.pow_pos_nonneg; lia).
  assert (0 < num) as Hn by (pose proof (Z.pow_pos_nonneg 2 (Z.max e 0) ltac:(lia) ltac:(lia)); unfold num; lia).
  intros (K & z & HK & Hz). pose proof (decade_unique _ _ _ HK (decade_exponent num den Hn Hd)) as ->. set (x := dec_exp num den) in *.
  cbv zeta. set (a := num * 10 ^ Z.max (P - 1 - x) 0). set (b := den * 10 ^ Z.max (x - (P - 1)) 0).
  assert (0 < b) as Hb by (unfold b; apply Z.mul_pos_pos; [done|]; apply Z.pow_pos_nonneg; lia).
  assert (2 * a = (2 * z + 1) * b) as Hab.
  { apply eq_IZR. rewrite !mult_IZR, plus_IZR, mult_IZR. assert (IZR a = (IZR z + / 2) * IZR b)%R as ->; [|lra]. rewrite <- Hz.
    unfold a, b. rewrite !mult_IZR. apply IZR_lt in Hd. pose proof (pow10_parts (P - 1 - x)) as Hp.
    replace (- (P - 1 - x)) with (x - (P - 1)) in Hp by lia. rewrite <- Hp. field. lra. }
  apply Z.eqb_eq. assert (a mod b = a - z * b) as ->; [|lia]. symmetry. apply Z.mod_unique with z; lia.
Qed.

Section same_text.
Context {E : Type}.

(** C12: Except for a double halfway between two candidates of the wanted precision, the
    conversion of g_fmt.c and dtoa.c writes the same text, of the same length, as the one
    of fpconv.c, which calls [snprintf], in every locale; it stays inside the buffer of
    [FPCONV_G_FMT_BUFSIZE] bytes and gives back every block it took. *)
Theorem g_fmt_same_text p buf x P dp :
  pool_ok p → double_ok x → finite x = true → 1 ≤ P ≤ 14 → Fpconv.Fpconv.FPCONV_G_FMT_BUFSIZE ≤ len buf → point_ok dp →
  halfway P x = false →
  ∃ text, Fpconv.Fpconv.fpconv_g_fmt (E:=E) dp dp x P = Done (text ++ [0], len text) ∧
    run (fpconv_g_fmt (E:=E) buf x P) p 0 (fun r _ =>
      let '(buf', n) := r in n = len text ∧ ended buf' text ∧ len buf' = len buf).
Proof.
  intros Hp Hok Hf HP Hb Hdp Hnh. unfold Fpconv.Fpconv.FPCONV_G_FMT_BUFSIZE in Hb.
  exists (printf_g 46 P x). split; [by apply fpconv_g_fmt_ok|]. destruct x as [s| | |s m e]; try done.
  - unfold fpconv_g_fmt. eapply run_bind; [by apply dtoa_zero|].
    intros [[[tx n] decpt] sgn] p1 Hp1 (-> & -> & Hok1 & rest & Htx).
    destruct (put_sign (E:=E) s buf ltac:(lia)) as (b1 & Hsgn & Hw & Hl1). rewrite Hsgn. cbn [obind].
    cbn [Z.leb Z.ltb Z.eqb Z.compare orb]. rewrite (proj2 (Z.ltb_ge P 1)) by lia. cbn [orb].
    destruct (put_plain_spec (E:=E) (chars tx) 1 b1 (len (if s then [45] else [])) (if s then [45] else []) [48]) as (b2 & Hres & He2 & Hl2); try done.
    { by exists [], rest. }
    { by repeat constructor. }
    { destruct s; cbn [length]; lia. }
    apply run_lift. rewrite Hres. apply returns_done.
    eapply (run_bind _ _ _ (-1)); [by apply freedtoa_spec|]. intros _ p2 Hp2' _. eapply run_conv; [apply run_ret; [done|]|lia].
    split; [by destruct s|]. split; [by destruct s|lia].
  - apply g_fmt_finite; [done|done|lia|lia|]. intros Ht. apply (tie_halfway s) in Ht. congruence.
Qed.

End same_text.

Lemma g_fmt_same_text_witness :
  ∃ text, Fpconv.Fpconv.fpconv_g_fmt (E:=Empty_set) 44 44 (S754_finite true 6755399441055744 (-52)) 14 = Done (text ++ [0], len text) ∧
    run (fpconv_g_fmt (E:=Empty_set) (replicate 32 None) (S754_finite true 6755399441055744 (-52)) 14) pool0 0 (fun r _ =>
      let '(buf', n) := r in n = len text ∧ ended buf' text ∧ len buf' = len (replicate 32 (None : cell))).
Proof.
  apply (g_fmt_same_text pool0 (replicate 32 None) (S754_finite true 6755399441055744 (-52)) 14 44).
  - exact pool0_ok.
  - done.
  - done.
  - lia.
  - done.
  - apply (bool_decide_unpack _). vm_compute. exact I.
  - vm_compute. reflexivity.
Defined.

(** At a tie the zeros at the end stay, and count as digits of the exponent form: the
    texts of 1000500 to four digits. *)
Example tie_keeps_zeros :
  let x := of_Z 1000500 in
  halfway 4 x = true ∧
  printf_g 46 4 x = lit "1e+06" ∧
  match fpconv_g_fmt (E:=Empty_set) (replicate 32 None) x 4 pool0 with
  | Done (buf, n, _, _) => take (Z.to_nat n) buf = Some <$> lit "1.000e+06"
  | _ => False
  end.
Proof. vm_compute. auto. Qed.
End GfmtProps.
