(* ===== verification/Gethex.v ===== *)
(** * dtoa.c: hexadecimal numbers, infinities and NaNs in the text of a number

    What [fpconv_strtod] calls for the numerals that are not decimal: [match] and [hexnan]
    for the names, [gethex] for a hexadecimal numeral, which is rounded to nearest even
    with shifts of a big integer. The payload of a NaN is not part of the model of a
    double. A string is the list of its bytes (0 to 255) with the terminator, a pointer an
    index. *)
From S2P Require Import Prelude Libc Double Bigint Dtoa.

Module Gethex.
Import Double Bigint Dtoa.

Definition Nbits : Z := 53.
Definition Emax : Z := 1023.
(** The exponent of the last bit of the smallest denormal double. *)
Definition emin : Z := -1074.
Definition Big0 : Z := 2146435071.
Definition Big1 : Z := 4294967295.

Definition of_words (w0 w1 : Z) : double := of_bits (u32 w0 * 2 ^ 32 + u32 w1).

(** The table: 0 for what is no digit. *)
Definition hexdig (c : Z) : Z :=
  if (48 <=? c) && (c <=? 57) then c - 48 + 16
  else if (97 <=? c) && (c <=? 102) then c - 97 + 26
  else if (65 <=? c) && (c <=? 70) then c - 65 + 26
  else 0.
Definition is_hex (c : Z) : bool := negb (hexdig c =? 0).

Section Gethex.
Context {E : Type}.
Implicit Types (b : Bigint).

(** ** Names *)
(** The position behind the rest [t] of a name whose first letter is at [i]. *)
Fixpoint match_loop (t s : list Z) (i : Z) : outcome E (option Z) :=
  match t with
  | [] => Done (Some (i + 1))
  | d :: t =>
      let! c := rd s (i + 1) in
      let c := if (65 <=? c) && (c <=? 90) then c + 32 else c in
      if c =? d then match_loop t s (i + 1) else Done None
  end.
Definition match_ (s : list Z) (i : Z) (t : list Z) : outcome E (option Z) := match_loop t s i.

(** The first position behind [i] with a byte [p] does not hold for, and the byte. *)
Fixpoint skip_after (fuel : nat) (p : Z → bool) s (i : Z) : outcome E (Z * Z) :=
  match fuel with
  | O => NoFuel
  | S fuel' => let! c := rd s (i + 1) in if p c then skip_after fuel' p s (i + 1) else Done (i + 1, c)
  end.

(** [hexnan]: the position behind the parenthesis, or where it began. *)
Definition hexnan s (i : Z) : outcome E Z :=
  let fuel := S (length s) in
  let blank c := negb (c =? 0) && (c <=? 32) in
  let! (j, _) := skip_after fuel blank s i in
  let j := j - 1 in
  let! c1 := rd s (j + 1) in
  let! c2 := (if c1 =? 48 then rd s (j + 2) else Done 0) in
  let j := if (c1 =? 48) && ((c2 =? 120) || (c2 =? 88)) then j + 2 else j in
  let! (j, c) := skip_after fuel (fun c => negb (c =? 0) && (is_hex c || (c <=? 32))) s j in
  if c =? 0 then Done i
  else if c =? 41 then Done (j + 1)
  else
    let! (j, c) := skip_after fuel (fun c => negb (c =? 0) && negb (c =? 41)) s j in
    Done (if c =? 0 then i else j + 1).

(** ** Shifts to the right *)
Fixpoint rshift_bits (fuel : nat) (xs : list cell) (i wb n i1 y : Z) : outcome E (list cell * Z) :=
  match fuel with
  | O => NoFuel
  | S fuel' =>
      if i <? wb then
        let! w := rdw xs i in
        let! xs := wrw xs i1 (Z.lor y (u32 (Z.shiftl w (32 - n)))) in
        rshift_bits fuel' xs (i + 1) wb n (i1 + 1) (Z.shiftr w n)
      else
        let! xs := wrw xs i1 y in
        Done (xs, if y =? 0 then i1 else i1 + 1)
  end.
Fixpoint rshift_words (fuel : nat) (xs : list cell) (i wb i1 : Z) : outcome E (list cell * Z) :=
  match fuel with
  | O => NoFuel
  | S fuel' =>
      if i <? wb then
        let! w := rdw xs i in
        let! xs := wrw xs i1 w in
        rshift_words fuel' xs (i + 1) wb (i1 + 1)
      else Done (xs, i1)
  end.
Definition rshift b (k : Z) : outcome E Bigint :=
  let n := Z.shiftr k 5 in
  let bits := Z.land k 31 in
  let fuel := S (Z.to_nat (wds b)) in
  let! (xs, n1) :=
    (if n <? wds b then
       if bits =? 0 then rshift_words fuel (x b) n (wds b) 0
       else
         let! w := rdw (x b) n in
         rshift_bits fuel (x b) (n + 1) (wds b) bits 0 (Z.shiftr w bits)
     else Done (x b, 0)) in
  let! xs := (if n1 =? 0 then wrw xs 0 0 else Done xs) in
  Done (set_wds n1 (set_x xs b)).

(** A bit below the bit [k]. *)
Fixpoint any_word (n : nat) (xs : list cell) : outcome E bool :=
  match n with
  | O => Done false
  | S n' => let! w := rdw xs (Z.of_nat n') in if w =? 0 then any_word n' xs else Done true
  end.
Definition any_on b (k : Z) : outcome E bool :=
  let n := Z.shiftr k 5 in
  let bits := Z.land k 31 in
  if wds b <? n then any_word (Z.to_nat (wds b)) (x b)
  else
    let! part :=
      (if (n <? wds b) && negb (bits =? 0) then
         let! w := rdw (x b) n in
         Done (negb (u32 (Z.shiftl (Z.shiftr w bits) bits) =? w))
       else Done false) in
    if part then Done true else any_word (Z.to_nat n) (x b).

(** [x[k>>kshift] & 1 << (k & kmask)] *)
Definition bit_on b (k : Z) : outcome E bool :=
  let! w := rdw (x b) (Z.shiftr k 5) in Done (Z.testbit w (Z.land k 31)).

Fixpoint increment_loop (n : nat) (xs : list cell) (i : Z) : outcome E (list cell * bool) :=
  match n with
  | O => Done (xs, true)
  | S n' =>
      let! w := rdw xs i in
      if w <? FFFFFFFF then let! xs := wrw xs i (w + 1) in Done (xs, false)
      else let! xs := wrw xs i 0 in increment_loop n' xs (i + 1)
  end.
Definition increment b : M pool event E Bigint :=
  let* (xs, carry) := lift (increment_loop (Z.to_nat (wds b)) (x b) 0) in
  let b := set_x xs b in
  if negb carry then ret b
  else
    let n := wds b in
    let* b :=
      (if maxwds b <=? n then
         let* b1 := Balloc (k b + 1) in
         let* b1 := lift (Bcopy b1 b) in
         Bfree b ;;
         ret b1
       else ret b) in
    let* xs := lift (wrw (x b) n 1) in
    ret (set_wds (n + 1) (set_x xs b)).

(** ** The numeral *)
(** The first position from [i] on with a byte [p] does not hold for. *)
Definition skip_from (p : Z → bool) s (i : Z) : outcome E Z :=
  let! (j, _) := skip_after (S (length s)) p s (i - 1) in Done j.

(** The digits: where they begin and end, the exponent of the last one, whether there
    is one and whether all are 0. The prefix is at [sp]. *)
Definition hex_digits s (sp : Z) : outcome E (Z * Z * Z * bool * bool) :=
  let! s0 := skip_from (fun c => c =? 48) s (sp + 2) in
  let zeros := negb (s0 =? sp + 2) in
  let! c := rd s s0 in
  let rest (s0 j : Z) (decpt : option Z) (zret : bool) :=
    let! j := skip_from is_hex s j in
    let! c := rd s j in
    let! (j, decpt) :=
      (match decpt with
       | None => if c =? 46 then let! k := skip_from is_hex s (j + 1) in Done (k, Some (j + 1)) else Done (j, None)
       | Some _ => Done (j, decpt)
       end) in
    let! e := (match decpt with None => Done 0 | Some d => int (- ((j - d) * 4)) end) in
    Done (s0, j, e, true, zret) in
  if is_hex c then rest s0 s0 None false
  else if negb (c =? 46) then Done (s0, s0, 0, zeros, true)
  else
    let d := s0 + 1 in
    let! c := rd s d in
    if negb (is_hex c) then Done (s0, d, 0, zeros, true)
    else
      let! j := skip_from (fun c => c =? 48) s d in
      let! c := rd s j in
      rest j j (Some d) (negb (is_hex c)).

Fixpoint hex_exp_loop (fuel : nat) s (i e1 : Z) (big : bool) : outcome E (Z * Z * bool) :=
  match fuel with
  | O => NoFuel
  | S fuel' =>
      let! c := rd s (i + 1) in
      let n := hexdig c in
      if negb (n =? 0) && (n <=? 25) then
        let big := big || negb (Z.land e1 4160749568 =? 0) in
        let! e1 := int (10 * e1 + n) in
        hex_exp_loop fuel' s (i + 1) (e1 - 16) big
      else Done (i + 1, e1, big)
  end.
(** The binary exponent at [i], if there is one: its value, where it ends, whether it is
    too long, and its sign. *)
Definition hex_exponent s (i : Z) : outcome E (Z * Z * bool * bool) :=
  let! c := rd s i in
  if (c =? 112) || (c =? 80) then
    let! c := rd s (i + 1) in
    let esign := c =? 45 in
    let j := if (c =? 45) || (c =? 43) then i + 2 else i + 1 in
    let! c := rd s j in
    let n := hexdig c in
    if (n =? 0) || (25 <? n) then Done (0, i, false, esign)
    else
      let! (j, e1, big) := hex_exp_loop (S (length s)) s j (n - 16) false in
      Done (if esign then - e1 else e1, j, big, esign)
  else Done (0, i, false, false).

(** The words, from the last digit before [s1] back to [s0]. *)
Fixpoint hex_words (fuel : nat) s (s0 s1 : Z) (xs : list cell) (i n L : Z) : outcome E (list cell * Z * Z) :=
  match fuel with
  | O => NoFuel
  | S fuel' =>
      if s0 <? s1 then
        let! c := rd s (s1 - 1) in
        if c =? 46 then hex_words fuel' s s0 (s1 - 1) xs i n L
        else
          let! (xs, i, n, L) := (if n =? 32 then let! xs := wrw xs i L in Done (xs, i + 1, 0, 0) else Done (xs, i, n, L)) in
          hex_words fuel' s s0 (s1 - 1) xs i (n + 4) (Z.lor L (u32 (Z.shiftl (Z.land (hexdig c) 15) n)))
      else
        let! xs := wrw xs i L in
        Done (xs, i + 1, L)
  end.

Fixpoint hex_size (fuel : nat) (n kk : Z) : Z :=
  match fuel with
  | O => kk
  | S fuel' => if 7 <? n then hex_size fuel' (Z.shiftr n 1) (kk + 1) else kk
  end.

(** The bits that are cut off below the bit [n]: 1 when some are set, 2 for a half, 3 for
    more than a half. *)
Definition lost_bits b (n : Z) : outcome E Z :=
  let! any := any_on b n in
  if negb any then Done 0
  else
    let! half := bit_on b (n - 1) in
    if negb half then Done 1
    else
      let! more := (if 0 <? n - 1 then any_on b (n - 1) else Done false) in
      Done (if more then 3 else 2).

(** A number rounded to at most 53 bits that is too small: the bits that are lost. *)
Definition lost_denormal b (n lostbits : Z) : outcome E Z :=
  let kk := n - 1 in
  let! low := (if negb (lostbits =? 0) then Done 1
               else if 0 <? kk then let! any := any_on b kk in Done (if any then 1 else 0) else Done 0) in
  let! half := bit_on b kk in
  Done (if half then Z.lor low 2 else low).

(** Rounded up: the number and the exponent. *)
Definition round_up b (denorm : bool) (nbits e : Z) : M pool event E (Bigint * Z) :=
  let kk := wds b in
  let* b := increment b in
  if denorm then ret (b, e)
  else
    let n := Z.land nbits 31 in
    let* top := lift (rdw (x b) (kk - 1)) in
    if (kk <? wds b) || (negb (n =? 0) && (hi0bits top <? 32 - n)) then
      let* b := lift (rshift b 1) in
      ret (b, e + 1)
    else ret (b, e).

(** The words of the double. *)
Definition hex_double b (denorm : bool) (e : Z) : outcome E double :=
  let! w0 :=
    (if denorm then
       if 1 <? wds b then let! w := rdw (x b) 1 in Done (Z.land w 4293918719) else Done 0
     else
       let! w := rdw (x b) 1 in
       let! f := int (Z.shiftl (e + 1023 + 52) 20) in
       Done (Z.lor (Z.land w 4293918719) (u32 f))) in
  let! w1 := rdw (x b) 0 in
  Done (of_words w0 w1).

(** The digits from [s0] to [s1], rounded; [e] is the exponent of the last. *)
Definition hex_value s (s0 s1 e : Z) : M pool event E double :=
  let* b := Balloc (hex_size 31 (s1 - s0 - 1) 0) in
  let* (xs, n, L) := lift (hex_words (S (length s)) s s0 s1 (x b) 0 0 0) in
  let b := set_wds n (set_x xs b) in
  let n := 32 * n - hi0bits L in
  let* (b, e, lostbits) :=
    (if Nbits <? n then
       let n := n - Nbits in
       let* lostbits := lift (lost_bits b n) in
       let* b := lift (rshift b n) in
       ret (b, e + n, lostbits)
     else if n <? Nbits then
       let n := Nbits - n in
       let* b := lshift b n in
       ret (b, e - n, 0)
     else ret (b, e, 0)) in
  if Emax <? e then
    Bfree b ;;
    ret (S754_infinity false)
  else
    let denorm := e <? emin in
    let n := emin - e in
    if denorm && (Nbits <=? n) then
      let* tiny := (if n =? Nbits then lift (any_on b (n - 1)) else ret false) in
      if tiny then ret (of_words 0 1)
      else
        Bfree b ;;
        ret (S754_zero false)
    else
      let* (b, e, lostbits, nbits) :=
        (if denorm then
           let* lostbits := lift (lost_denormal b n lostbits) in
           let* b := lift (rshift b n) in
           ret (b, emin, lostbits, Nbits - n)
         else ret (b, e, lostbits, Nbits)) in
      let* w := lift (rdw (x b) 0) in
      let up := negb (Z.land lostbits 2 =? 0) && (negb (Z.land lostbits 1 =? 0) || Z.odd w) in
      let* (b, e) := (if up then round_up b denorm nbits e else ret (b, e)) in
      if up && negb denorm && (Emax <? e) then
        Bfree b ;;
        ret (S754_infinity false)
      else
        let* v := lift (hex_double b denorm e) in
        Bfree b ;;
        ret v.

(** The value and [*sp] after it, for a numeral at [sp]. *)
Definition gethex s (sp : Z) : M pool event E (double * Z) :=
  let* (s0, j, e, havedig, zret) := lift (hex_digits s sp) in
  let* (e1, j', big, esign) := lift (hex_exponent s j) in
  let* e := lift (int (e + e1)) in
  let sp' := if havedig then j' else s0 - 1 in
  if zret then ret (S754_zero false, sp')
  else if big then ret (if esign then S754_zero false else S754_infinity false, sp')
  else
    let* v := hex_value s s0 j e in
    ret (v, sp').
End Gethex.
(** ** What it reads wrongly *)
Definition read_hex (t : string) : outcome Empty_set (double * Z * list event) :=
  let! (r, _, w) := gethex (lit t ++ [0]) 0 pool0 in Done (r, w).
(** What the C library reads. *)
Definition exact_hex (t : string) : option double := fst <$> strtod 46 (lit t).

Definition tiny : double := S754_finite false 1 (-1074).
Definition min_normal : double := S754_finite false 4503599627370496 (-1074).

(** A numeral just above the range: the exponent of the last bit is compared with 1023
    and not with the 971 of the largest double. *)
Example hex_too_large :
  (let! (v, _, _) := read_hex "0x1.8p1024" in Done v) = Done S754_nan ∧ exact_hex "0x1.8p1024" = Some (S754_infinity false) ∧
  read_hex "0x1.8p1025" = Fault IntOverflow.
Proof. split; [|split]; vm_compute; reflexivity. Qed.

(** A denormal number that is rounded up to the smallest normal one loses its bit. *)
Example hex_denormal_carry :
  (let! (v, _, _) := read_hex "0x1.fffffffffffffp-1023" in Done v) = Done (S754_zero false) ∧
  exact_hex "0x1.fffffffffffffp-1023" = Some min_normal.
Proof. split; vm_compute; reflexivity. Qed.

(** More than half of the smallest number, by bits that were cut off before. *)
Example hex_tiny_lost :
  (let! (v, _, _) := read_hex "0x1.00000000000001p-1075" in Done v) = Done (S754_zero false) ∧
  exact_hex "0x1.00000000000001p-1075" = Some tiny.
Proof. split; vm_compute; reflexivity. Qed.

(** More than half of the smallest number is read correctly, but its block is lost. *)
Example hex_tiny_leaks :
  read_hex "0x1.0000000000001p-1075" = Done (tiny, 23, [Got 1]) ∧ exact_hex "0x1.0000000000001p-1075" = Some tiny.
Proof. split; vm_compute; reflexivity. Qed.
End Gethex.
