(* ===== verification/Strtod.v ===== *)
(** * dtoa.c: the internal conversion of text to doubles

    [fpconv_strtod], which lua-cjson calls when it is built with its own number code:
    the scanner, the short way for few digits, the first approximation and its correction
    with big integers, and the comparison of long numerals digit by digit. The build has
    [IEEE_8087]; the rounding is to nearest even. A string is the list of its bytes with
    the terminator, a pointer an index. *)
From S2P Require Import Prelude Libc Double Bigint Dtoa Gethex.

Module Strtod.
Import Double Bigint Dtoa Gethex.

Definition DBL_DIG : Z := 15.
Definition DBL_MAX_10_EXP : Z := 308.
Definition DBL_MAX_EXP : Z := 1024.
Definition Exp_1 : Z := 1072693248.
Definition Ebits : Z := 11.
Definition Bndry_mask : Z := 1048575.
Definition Bndry_mask1 : Z := 1048575.
Definition Emin : Z := -1022.
Definition Log2P : Z := 1.
Definition Scale_Bit : Z := 16.
Definition n_bigtens : Z := 5.
Definition strtod_diglim : Z := 40.

Definition tinytens : list double := Eval vm_compute in
  ((fun e => of_decimal false 1 e) <$> [-16; -32; -64; -128]) ++
  [fmul (of_Z 9007199254740992) (of_decimal false 9007199254740992 (-256))].
Definition c_0_4999999 : double := Eval vm_compute in of_decimal false 4999999 (-7).
Definition c_0_5000001 : double := Eval vm_compute in of_decimal false 5000001 (-7).

Definition set_word1 (w : Z) (d : double) : double := of_words (word0 d) w.
(** The largest double. *)
Definition Big : double := of_words Big0 Big1.

(** What the comparison of the digits needs. *)
Record BCinfo := mkBCinfo { bc_dp1 : Z; bc_nd0 : Z; bc_nd : Z; bc_e0 : Z; bc_scale : Z; bc_dsign : Z }.

(** What the scanner has seen: the position and the character there, the first digit
    [s0], the place of the point, and the counts and the first digits. *)
Record scan := mkScan {
  t_pos : Z; t_c : Z; t_s0 : Z; t_dp0 : Z; t_dp1 : Z; t_dplen : Z;
  t_nd : Z; t_nd0 : Z; t_nf : Z; t_nz : Z; t_nz1 : Z; t_y : Z; t_z : Z
}.

Section Strtod.
Context {E : Type}.
Implicit Types (rv : double).

(** ** The scanner *)
(** White space and the sign: [None] when the string ends. *)
Fixpoint start_loop (fuel : nat) s (i : Z) : outcome E (option (bool * Z)) :=
  match fuel with
  | O => NoFuel
  | S fuel' =>
      let! c := rd s i in
      if (c =? 45) || (c =? 43) then
        let! c' := rd s (i + 1) in
        Done (if c' =? 0 then None else Some (c =? 45, i + 1))
      else if c =? 0 then Done None
      else if ((9 <=? c) && (c <=? 13)) || (c =? 32) then start_loop fuel' s (i + 1)
      else Done (Some (false, i))
  end.

(** The first position from [i] on with another character, and the character. *)
Fixpoint skip_zeros (fuel : nat) s (i : Z) : outcome E (Z * Z) :=
  match fuel with
  | O => NoFuel
  | S fuel' => let! c := rd s i in if c =? 48 then skip_zeros fuel' s (i + 1) else Done (i, c)
  end.

(** One more digit: the first nine are in [y], seven more in [z]. *)
Definition add_digit (nd y z d : Z) : Z * Z * Z :=
  if nd <? 9 then (nd + 1, u32 (10 * y + d), z)
  else if nd <? 16 then (nd + 1, y, u32 (10 * z + d))
  else (nd + 1, y, z).

Definition is_digit (c : Z) : bool := (48 <=? c) && (c <=? 57).

Fixpoint int_digits (fuel : nat) s (i nd y z : Z) : outcome E (Z * Z * Z * Z * Z) :=
  match fuel with
  | O => NoFuel
  | S fuel' =>
      let! c := rd s i in
      if is_digit c then
        let '(nd, y, z) := add_digit nd y z (c - 48) in
        int_digits fuel' s (i + 1) nd y z
      else Done (i, c, nd, y, z)
  end.

(** The zeros before the position [i], back to [s0]. *)
Fixpoint zeros_before (n : nat) s (i : Z) : outcome E Z :=
  match n with
  | O => Done 0
  | S n' =>
      let! c := rd s (i - 1) in
      if c =? 48 then let! k := zeros_before n' s (i - 1) in Done (k + 1) else Done 0
  end.

Fixpoint pad_zeros (n : nat) (nd y z : Z) : Z * Z * Z :=
  match n with
  | O => (nd, y, z)
  | S n' => let '(nd, y, z) := add_digit nd y z 0 in pad_zeros n' nd y z
  end.

(** The digits behind the point: zeros are kept back in [nz] until another digit comes. *)
Fixpoint frac_digits (fuel : nat) s (t : scan) : outcome E scan :=
  match fuel with
  | O => NoFuel
  | S fuel' =>
      let! c := rd s (t_pos t) in
      if is_digit c then
        let nz := t_nz t + 1 in
        if c =? 48 then
          frac_digits fuel' s (mkScan (t_pos t + 1) c (t_s0 t) (t_dp0 t) (t_dp1 t) (t_dplen t) (t_nd t) (t_nd0 t) (t_nf t) nz (t_nz1 t) (t_y t) (t_z t))
        else
          let '(nd, y, z) := pad_zeros (Z.to_nat (nz - 1)) (t_nd t) (t_y t) (t_z t) in
          let '(nd, y, z) := add_digit nd y z (c - 48) in
          frac_digits fuel' s (mkScan (t_pos t + 1) c (t_s0 t) (t_dp0 t) (t_dp1 t) (t_dplen t) nd (t_nd0 t) (t_nf t + nz) 0 0 y z)
      else Done (mkScan (t_pos t) c (t_s0 t) (t_dp0 t) (t_dp1 t) (t_dplen t) (t_nd t) (t_nd0 t) (t_nf t) (t_nz t) (t_nz1 t) (t_y t) (t_z t))
  end.

(** From the first digit on. *)
Definition scan_digits s (i : Z) : outcome E scan :=
  let fuel := S (length s) in
  let! (j, c, nd, y, z) := int_digits fuel s i 0 0 0 in
  let dp := j - i in
  let! nz1 := zeros_before (Z.to_nat dp) s j in
  if c =? 46 then
    let dp1 := dp + 1 in
    if nd =? 0 then
      let! (j', c) := skip_zeros fuel s (j + 1) in
      let nz := j' - (j + 1) in
      if (48 <? c) && (c <=? 57) then
        let dp0 := i - j' in
        frac_digits fuel s (mkScan j' c j' dp0 (dp0 + 1) 1 nd nd nz 0 nz1 y z)
      else Done (mkScan j' c i dp dp1 1 nd nd 0 nz nz1 y z)
    else frac_digits fuel s (mkScan (j + 1) c i dp dp1 1 nd nd 0 0 nz1 y z)
  else Done (mkScan j c i dp dp 0 nd nd 0 0 nz1 y z).

(** The digits of an exponent from the second on. *)
Fixpoint exp_digits (fuel : nat) s (i L : Z) : outcome E (Z * Z) :=
  match fuel with
  | O => NoFuel
  | S fuel' =>
      let! c := rd s i in
      if is_digit c then
        let! L := int (10 * L + c) in
        exp_digits fuel' s (i + 1) (L - 48)
      else Done (i, L)
  end.

(** The exponent at the letter at [i], and where it ends. *)
Definition scan_exponent s (i : Z) : outcome E (Z * Z) :=
  let fuel := S (length s) in
  let! c := rd s (i + 1) in
  let esign := c =? 45 in
  let j := if (c =? 45) || (c =? 43) then i + 2 else i + 1 in
  let! c := rd s j in
  if is_digit c then
    let! (s1, c) := skip_zeros fuel s j in
    if (48 <? c) && (c <=? 57) then
      let! (k, L) := exp_digits fuel s (s1 + 1) (c - 48) in
      let e := if (8 <? k - s1) || (19999 <? L) then 19999 else L in
      Done (if esign then - e else e, k)
    else Done (0, s1)
  else Done (0, i).

(** ** The short way *)
Definition leading_value (nd y z : Z) : outcome E double :=
  let k := if nd <? DBL_DIG + 1 then nd else DBL_DIG + 1 in
  if 9 <? k then
    let! t := rd tens (k - 9) in
    Done (fadd (fmul t (of_Z y)) (of_Z z))
  else Done (of_Z y).

(** Digits and a power of 10 that are exact. *)
Definition short_way rv (nd e : Z) : outcome E (option double) :=
  if DBL_DIG <? nd then Done None
  else if e =? 0 then Done (Some rv)
  else if 0 <? e then
    if e <=? Ten_pmax then
      let! t := rd tens e in Done (Some (fmul rv t))
    else
      let i := DBL_DIG - nd in
      if e <=? Ten_pmax + i then
        let! t := rd tens i in
        let! t' := rd tens (e - i) in
        Done (Some (fmul (fmul rv t) t'))
      else Done None
  else if - Ten_pmax <=? e then
    let! t := rd tens (- e) in Done (Some (fdiv rv t))
  else Done None.

(** ** The first approximation *)
(** The approximation and its scale, or infinity or 0. *)
Inductive first := First (rv : double) (scale : Z) | Ovfl | Undfl.

(** [for(j = 0; e1 > 1; j++, e1 >>= 1) if(e1 & 1) rv *= bigtens[j];] *)
Fixpoint up_tens (fuel : nat) rv (e1 j : Z) : outcome E (double * Z) :=
  match fuel with
  | O => NoFuel
  | S fuel' =>
      if 1 <? e1 then
        let! rv := (if Z.odd e1 then let! t := rd bigtens j in Done (fmul rv t) else Done rv) in
        up_tens fuel' rv (Z.shiftr e1 1) (j + 1)
      else Done (rv, j)
  end.
Definition scale_up rv (e1 : Z) : outcome E first :=
  let i := Z.land e1 15 in
  let! rv := (if i =? 0 then Done rv else let! t := rd tens i in Done (fmul rv t)) in
  let e1 := e1 - i in
  if e1 =? 0 then Done (First rv 0)
  else if DBL_MAX_10_EXP <? e1 then Done Ovfl
  else
    let! (rv, j) := up_tens 10 rv (Z.shiftr e1 4) 0 in
    let rv := set_word0 (word0 rv - P * Exp_msk1) rv in
    let! t := rd bigtens j in
    let rv := fmul rv t in
    let z := Z.land (word0 rv) Exp_mask in
    if Exp_msk1 * (DBL_MAX_EXP + Bias - P) <? z then Done Ovfl
    else if Exp_msk1 * (DBL_MAX_EXP + Bias - 1 - P) <? z then Done (First Big 0)
    else Done (First (set_word0 (word0 rv + P * Exp_msk1) rv) 0).

(** [for(j = 0; e1 > 0; j++, e1 >>= 1) if(e1 & 1) rv *= tinytens[j];] *)
Fixpoint down_tens (fuel : nat) rv (e1 j : Z) : outcome E double :=
  match fuel with
  | O => NoFuel
  | S fuel' =>
      if 0 <? e1 then
        let! rv := (if Z.odd e1 then let! t := rd tinytens j in Done (fmul rv t) else Done rv) in
        down_tens fuel' rv (Z.shiftr e1 1) (j + 1)
      else Done rv
  end.
(** Of a scaled approximation of a denormal number the low [j] bits are cleared. *)
Definition clear_low rv (j : Z) : double :=
  if 32 <=? j then
    let rv := set_word1 0 rv in
    if 53 <=? j then set_word0 ((P + 2) * Exp_msk1) rv
    else set_word0 (Z.land (word0 rv) (u32 (Z.shiftl FFFFFFFF (j - 32)))) rv
  else set_word1 (Z.land (word1 rv) (u32 (Z.shiftl FFFFFFFF j))) rv.
Definition exp_field rv : Z := Z.shiftr (Z.land (word0 rv) Exp_mask) 20.

Definition scale_down rv (e1 : Z) : outcome E first :=
  let i := Z.land e1 15 in
  let! rv := (if i =? 0 then Done rv else let! t := rd tens i in Done (fdiv rv t)) in
  let e1 := Z.shiftr e1 4 in
  if e1 =? 0 then Done (First rv 0)
  else if Z.shiftl 1 n_bigtens <=? e1 then Done Undfl
  else
    let scale := if Z.land e1 Scale_Bit =? 0 then 0 else 2 * P in
    let! rv := down_tens 10 rv e1 0 in
    let j := 2 * P + 1 - exp_field rv in
    if negb (scale =? 0) && (0 <? j) && (54 <? j) then Done Undfl
    else
      let rv := if negb (scale =? 0) && (0 <? j) then clear_low rv j else rv in
      if is_zero rv then Done Undfl else Done (First rv scale).

Definition first_approximation rv (e1 : Z) : outcome E first :=
  if 0 <? e1 then scale_up rv e1
  else if e1 <? 0 then scale_down rv (- e1)
  else Done (First rv 0).

(** ** The correction *)
(** One unit in the last place. *)
Definition ulp (v : double) : double := of_words (Z.land (word0 v) Exp_mask - (P - 1) * Exp_msk1) 0.
(** The same, for a scaled number that will be denormal. *)
Definition sulp (v : double) (scale : Z) : double :=
  let rv := ulp v in
  let i := 2 * P + 1 - exp_field v in
  if (scale =? 0) || (i <=? 0) then rv
  else fmul rv (of_words (Exp_1 + Z.shiftl i 20) 0).

(** A double in [1, 2) with the top bits of [a], and the bits of its top word. *)
Definition b2d (a : Bigint) : outcome E (double * Z) :=
  let word i := if 0 <=? i then rdw (x a) i else Done 0 in
  let n := wds a in
  let! y := rdw (x a) (n - 1) in
  let kk := hi0bits y in
  if kk <? Ebits then
    let! w := word (n - 2) in
    Done (of_words (Z.lor Exp_1 (Z.shiftr y (Ebits - kk)))
                   (Z.lor (u32 (Z.shiftl y (32 - Ebits + kk))) (Z.shiftr w (Ebits - kk))), 32 - kk)
  else
    let! z := word (n - 2) in
    let m := kk - Ebits in
    if m =? 0 then Done (of_words (Z.lor Exp_1 y) z, 32 - kk)
    else
      let! y' := word (n - 3) in
      Done (of_words (Z.lor Exp_1 (Z.lor (u32 (Z.shiftl y m)) (Z.shiftr z (32 - m))))
                     (Z.lor (u32 (Z.shiftl z m)) (Z.shiftr y' (32 - m))), 32 - kk).

(** The quotient [a / b], with the error of three roundings. *)
Definition ratio (a b : Bigint) : outcome E double :=
  let! (da, ka) := b2d a in
  let! (db, kb) := b2d b in
  let kk := ka - kb + 32 * (wds a - wds b) in
  if 0 <? kk then Done (fdiv (set_word0 (word0 da + kk * Exp_msk1) da) db)
  else Done (fdiv da (set_word0 (word0 db - kk * Exp_msk1) db)).

(** What is left of the digits for the big integers: [nd0], [nd], the exponent and the
    first nine digits, after a long numeral is cut to at most 18 digits. *)
Fixpoint cut_zeros (fuel : nat) (s : list Z) (i j dp0 dp1 : Z) : outcome E Z :=
  match fuel with
  | O => NoFuel
  | S fuel' =>
      let j := j - 1 in
      let j := if (j <? dp1) && (dp0 <=? j) then dp0 - 1 else j in
      let! c := rd s j in
      if c =? 48 then cut_zeros fuel' s (i - 1) j dp0 dp1 else Done i
  end.
Fixpoint sum_digits (n : nat) (s : list Z) (j y : Z) : outcome E Z :=
  match n with
  | O => Done y
  | S n' => let! c := rd s j in sum_digits n' s (j + 1) (u32 (10 * y + c - 48))
  end.
Definition cut_digits (s : list Z) (nd0 nd y e dp0 dp1 dplen : Z) : outcome E (Z * Z * Z * Z) :=
  if nd <=? strtod_diglim then Done (nd0, nd, y, e)
  else
    let! i := cut_zeros 19 s 18 (if nd0 <? 18 then 18 + dplen else 18) dp0 dp1 in
    let e := e + (nd - i) in
    let nd0 := if i <? nd0 then i else nd0 in
    if i <? 9 then
      let! y := sum_digits (Z.to_nat nd0) s 0 0 in
      let! y := sum_digits (Z.to_nat (i - nd0)) s dp1 y in
      Done (nd0, i, y, e)
    else Done (nd0, i, y, e).

(** The numbers compared: [bb] is the approximation, [bd] the numeral, [bs] half a unit,
    with a common factor; [Lsb] and [Lsb1] the last bit in the low and the high word. *)
Record factors := mkFactors { bb2 : Z; bb5 : Z; bd2 : Z; bd5 : Z; bs2 : Z; lsb : Z; lsb1 : Z }.
Definition common_factors (e bbe bbbits scale : Z) : factors :=
  let '(bb2, bd2) := if 0 <=? e then (0, e) else (- e, 0) in
  let bb5 := bb2 in
  let bd5 := bd2 in
  let '(bb2, bd2) := if 0 <=? bbe then (bb2 + bbe, bd2) else (bb2, bd2 - bbe) in
  let bs2 := bb2 in
  let i := bbe - scale + bbbits - 1 in
  let j := P + 1 - bbbits in
  let '(j, l, l1) :=
    if i <? Emin then
      let i := Emin - i in
      (j - i, if i <? 32 then u32 (Z.shiftl 1 i) else 1,
       if i <? 32 then 0 else if i <? 52 then u32 (Z.shiftl 1 (i - 32)) else Exp_mask)
    else (j, 1, 0) in
  let bb2 := bb2 + j in
  let bd2 := bd2 + j + scale in
  let i := Z.min (Z.min bb2 bd2) bs2 in
  let i := if 0 <? i then i else 0 in
  mkFactors (bb2 - i) bb5 (bd2 - i) bd5 (bs2 - i) l l1.

Definition make_bb (bs bb : Bigint) (f : factors) : M pool event E (Bigint * Bigint) :=
  let* (bs, bb) :=
    (if 0 <? bb5 f then
       let* bs := pow5mult bs (bb5 f) in
       let* bb1 := mult bs bb in
       Bfree bb ;;
       ret (bs, bb1)
     else ret (bs, bb)) in
  let* bb := (if 0 <? bb2 f then lshift bb (bb2 f) else ret bb) in
  ret (bs, bb).
Definition make_bd (bd : Bigint) (f : factors) : M pool event E Bigint :=
  let* bd := (if 0 <? bd5 f then pow5mult bd (bd5 f) else ret bd) in
  if 0 <? bd2 f then lshift bd (bd2 f) else ret bd.

(** How a round of the correction ends: [Break] with the result, the side on which the
    numeral is, and whether its digits have to be compared; another round; infinity
    or 0. *)
Inductive verdict :=
  | Break (rv : double) (dsign : Z) (req : bool)
  | Cont (rv : double)
  | Overflow
  | Underflow.

Definition same_words (v : double) (w0 w1 : Z) : bool := (word0 v =? w0) && (word1 v =? w1).
(** The mantissa is a power of 2. *)
Definition power_of_2 (v : double) : bool := (word1 v =? 0) && (Z.land (word0 v) Bndry_mask =? 0).

(** [drop_down]: the double below a power of 2. *)
Definition drop_down rv (scale dsign : Z) (cut : bool) : verdict :=
  let L := Z.land (word0 rv) Exp_mask in
  if negb (scale =? 0) && (L <=? (2 * P + 1) * Exp_msk1) then
    if (P + 2) * Exp_msk1 <? L then Break rv dsign false
    else if cut then Break rv dsign false
    else Underflow
  else
    let rv := of_words (Z.lor (L - Exp_msk1) Bndry_mask1) FFFFFFFF in
    if cut then Cont rv else Break rv dsign false.

(** The mantissa has all bits set, the last of them that of a denormal number when the
    number is scaled. The shift is by 32 bits and more, which C leaves undefined, when
    21 bits of the mantissa or fewer are left: no numeral that is not cut is halfway
    between two such numbers. *)
Definition all_ones rv (scale : Z) : outcome E bool :=
  if negb (Z.land (word0 rv) Bndry_mask1 =? Bndry_mask1) then Done false
  else
    let y := Z.land (word0 rv) Exp_mask in
    if negb (scale =? 0) && (y <=? 2 * P * Exp_msk1) then
      let count := 2 * P + 1 - Z.shiftr y 20 in
      guard_or IntOverflow (count <? 32) ;;!
      Done (word1 rv =? u32 (Z.shiftl FFFFFFFF count))
    else Done (word1 rv =? FFFFFFFF).

(** Exactly halfway: to the even one. *)
Definition half_way rv (scale dsign : Z) (cut : bool) (l l1 : Z) : outcome E verdict :=
  let! carry := (if negb (dsign =? 0) then all_ones rv scale else Done false) in
  Done (
  if carry : bool then
    if same_words rv Big0 Big1 then Overflow
    else Break (of_words (Z.land (word0 rv) Exp_mask + Exp_msk1) 0) 0 false
  else if (dsign =? 0) && power_of_2 rv then drop_down rv scale dsign cut
  else if (if negb (l1 =? 0) then Z.land (word0 rv) l1 =? 0 else Z.land (word1 rv) l =? 0)
  then Break rv dsign false
  else if negb (dsign =? 0) then Break (fadd rv (sulp rv scale)) (1 - dsign) false
  else
    let rv := fsub rv (sulp rv scale) in
    if is_zero rv then (if cut then Break rv dsign false else Underflow)
    else Break rv (1 - dsign) false).

Definition leb (a b : double) : bool := SFleb a b.

(** The adjustment in units of the last place: its size and the same with its sign. *)
Definition adjustment (aadj : double) rv (dsign : Z) : double * double :=
  if leb aadj (of_Z 2) then
    if negb (dsign =? 0) then (of_Z 1, of_Z 1)
    else if negb (power_of_2 rv) then (of_Z 1, SFopp (of_Z 1))
    else
      let aadj := if SFltb aadj (of_Z 1) then c_0_5 else fmul aadj c_0_5 in
      (aadj, SFopp aadj)
  else
    let aadj := fmul aadj c_0_5 in
    (aadj, if negb (dsign =? 0) then aadj else SFopp aadj).

(** [z = aadj], toward 0. *)
Definition to_ULong (d : double) : Z :=
  match d with
  | S754_finite false m e => if 0 <=? e then Z.pos m * 2 ^ e else Z.pos m / 2 ^ (- e)
  | _ => 0
  end.

(** [Can we stop now?] *)
Definition can_stop (aadj : double) rv (dsign : Z) : outcome E bool :=
  let! L := to_Long aadj in
  let aadj := fsub aadj (of_Z L) in
  Done (if negb (dsign =? 0) || negb (power_of_2 rv)
        then SFltb aadj c_0_4999999 || SFltb c_0_5000001 aadj
        else SFltb aadj (fdiv c_0_4999999 (of_Z 2))).

Definition adjust rv (aadj : double) (scale dsign : Z) (cut full : bool) : outcome E verdict :=
  if leb aadj (of_Z 2) && (dsign =? 0) && same_words rv 0 1 && negb (power_of_2 rv) then
    Done (if cut then Break rv dsign false else Underflow)
  else
    let '(aadj, aadj1) := adjustment aadj rv dsign in
    let y := Z.land (word0 rv) Exp_mask in
    let stop rv (aadj : double) :=
      if full && (scale =? 0) && (y =? Z.land (word0 rv) Exp_mask) then
        let! st := can_stop aadj rv dsign in
        Done (if st then Break rv dsign false else Cont rv)
      else Done (Cont rv) in
    if y =? Exp_msk1 * (DBL_MAX_EXP + Bias - 1) then
      let rv0 := rv in
      let rv := set_word0 (word0 rv - P * Exp_msk1) rv in
      let rv := fadd rv (fmul aadj1 (ulp rv)) in
      if Exp_msk1 * (DBL_MAX_EXP + Bias - P) <=? Z.land (word0 rv) Exp_mask then
        Done (if same_words rv0 Big0 Big1 then Overflow else Cont Big)
      else stop (set_word0 (word0 rv + P * Exp_msk1) rv) aadj
    else if negb (scale =? 0) && (y <=? 2 * P * Exp_msk1) then
      let '(aadj, aadj1) :=
        if leb aadj (of_Z 2147483647) then
          let z := to_ULong aadj in
          let aadj := of_Z (if z <=? 0 then 1 else z) in
          (aadj, if negb (dsign =? 0) then aadj else SFopp aadj)
        else (aadj, aadj1) in
      let aadj1 := set_word0 (word0 aadj1 + (2 * P + 1) * Exp_msk1 - y) aadj1 in
      let rv := fadd rv (fmul aadj1 (ulp rv)) in
      if is_zero rv then Done (Break rv (if cut then 1 else dsign) false)
      else stop rv aadj
    else stop (fadd rv (fmul aadj1 (ulp rv))) aadj.

(** The decision of a round, from the difference and half a unit. *)
Definition decide_ rv (delta bs : Bigint) (scale : Z) (cut full : bool) (l l1 : Z) : M pool event E (verdict * Bigint) :=
  let dsign := sign delta in
  let delta := set_sign 0 delta in
  let* i := lift (cmp delta bs) in
  if cut && (i <=? 0) && negb (dsign =? 0) then ret (Break rv dsign true, delta)
  else
    let i := if cut && (i <=? 0) then -1 else i in
    if i <? 0 then
      if negb (dsign =? 0) || negb (power_of_2 rv) || (Z.land (word0 rv) Exp_mask <=? (2 * P + 1) * Exp_msk1)
      then ret (Break rv dsign false, delta)
      else
        let* none := lift (no_words delta) in
        if none then ret (Break rv dsign false, delta)
        else
          let* delta := lshift delta Log2P in
          let* c := lift (cmp delta bs) in
          ret (if 0 <? c then drop_down rv scale dsign cut else Break rv dsign false, delta)
    else if i =? 0 then
      let* v := lift (half_way rv scale dsign cut l l1) in
      ret (v, delta)
    else
      let* aadj := lift (ratio delta bs) in
      let* v := lift (adjust rv aadj scale dsign cut full) in
      ret (v, delta).

(** A round: [bd0] is the numeral without its exponent [e]; [cut] when it is longer than
    [bd0], [full] when it has no zeros at its end either. *)
Definition round_ rv (bd0 : Bigint) (e scale : Z) (cut full : bool)
    : M pool event E (verdict * Bigint * Bigint * Bigint * Bigint) :=
  let* bd := Balloc (k bd0) in
  let* bd := lift (Bcopy bd bd0) in
  let* (bb, bbe, bbbits) := d2b rv in
  let* bs := i2b 1 in
  let f := common_factors e bbe bbbits scale in
  let* (bs, bb) := make_bb bs bb f in
  let* bd := make_bd bd f in
  let* bs := (if 0 <? bs2 f then lshift bs (bs2 f) else ret bs) in
  let* delta := diff bb bd in
  let* (v, delta) := decide_ rv delta bs scale cut full (lsb f) (lsb1 f) in
  ret (v, bb, bd, bs, delta).

Fixpoint correct_loop (fuel : nat) rv (bd0 : Bigint) (e scale : Z) (cut full : bool) : M pool event E verdict :=
  match fuel with
  | O => lift NoFuel
  | S fuel' =>
      let* (v, bb, bd, bs, delta) := round_ rv bd0 e scale cut full in
      Bfree bb ;;
      Bfree bd ;;
      Bfree bs ;;
      match v with
      | Cont rv =>
          Bfree delta ;;
          correct_loop fuel' rv bd0 e scale cut full
      | _ =>
          Bfree bd0 ;;
          Bfree delta ;;
          ret v
      end
  end.

(** ** Long numerals *)
(** The quotients [b / d] against the digits from [j] on: the difference that decides, or
    the next quotient digit when there are no more. *)
Fixpoint compare_digits (n : nat) (s : list Z) (j i nd : Z) (b d : Bigint) (dig : Z)
    : M pool event E (Bigint * Z * option Z) :=
  match n with
  | O => ret (b, dig, None)
  | S n' =>
      let* c := lift (rd s j) in
      let dd := c - 48 - dig in
      if negb (dd =? 0) then ret (b, dig, Some dd)
      else
        let* w := lift (rdw (x b) 0) in
        if (w =? 0) && (wds b =? 1) then ret (b, dig, Some (if i + 1 <? nd then 1 else 0))
        else
          let* b := multadd b 10 0 in
          let* (dig, b) := lift (quorem b d) in
          compare_digits n' s (j + 1) (i + 1) nd b d dig
  end.

(** The number halfway to the next double as [b / d], its first digit, the approximation
    and whether that was 0. *)
Definition bigcomp_start rv (bc : BCinfo) : M pool event E (Bigint * Bigint * Z * double * bool) :=
  let p5 := bc_nd bc + bc_e0 bc - 1 in
  let* (b, p2, i, rv, speccase) :=
    (if is_zero rv then
       let* b := i2b 1 in
       ret (b, Emin - P + 1 - 1, 0, set_word0 (Z.shiftl (P + 2) 20) rv, true)
     else
       let* (b, p2, bbits) := d2b rv in
       let p2 := p2 - bc_scale bc in
       let i := Z.min (P - bbits) (P - Emin - 1 + p2) in
       let i := i + 1 in
       let* b := lshift b i in
       let* w := lift (rdw (x b) 0) in
       let* xs := lift (wrw (x b) 0 (Z.lor w 1)) in
       ret (set_x xs b, p2, i, rv, false)) in
  let p2 := p2 - (p5 + i) in
  let* d := i2b 1 in
  let* d := (if 0 <? p5 then pow5mult d p5 else ret d) in
  let* b := (if p5 <? 0 then pow5mult b (- p5) else ret b) in
  let b2 := Z.max p2 0 in
  let d2 := Z.max (- p2) 0 in
  let* i := lift (dshift d d2) in
  let* b := (if 0 <? b2 + i then lshift b (b2 + i) else ret b) in
  let* d := (if 0 <? d2 + i then lshift d (d2 + i) else ret d) in
  let* (dig, b) := lift (quorem b d) in
  if dig =? 0 then
    let* b := multadd b 10 0 in
    let* (dig, b) := lift (quorem b d) in
    ret (b, d, dig, rv, speccase)
  else ret (b, d, dig, rv, speccase).

(** The mantissa is odd, for a denormal number at its last bit. *)
Definition odd_mantissa rv (scale : Z) : bool :=
  let j := exp_field rv - scale in
  if j <=? 0 then
    let i := 1 - j in
    if i <=? 31 then negb (Z.land (word1 rv) (Z.shiftl 1 i) =? 0)
    else negb (Z.land (word0 rv) (Z.shiftl 1 (i - 32)) =? 0)
  else Z.odd (word1 rv).

Definition bigcomp rv (s : list Z) (bc : BCinfo) : M pool event E double :=
  let* (b, d, dig, rv, speccase) := bigcomp_start rv bc in
  let nd0 := bc_nd0 bc in
  let nd := bc_nd bc in
  let* (b, dig, dd) := compare_digits (Z.to_nat nd0) s 0 0 nd b d dig in
  let* (b, dd) :=
    match dd with
    | Some dd => ret (b, dd)
    | None =>
        let* (b, dig, dd) := compare_digits (Z.to_nat (nd - nd0)) s (bc_dp1 bc) nd0 nd b d dig in
        match dd with
        | Some dd => ret (b, dd)
        | None => let* w := lift (rdw (x b) 0) in ret (b, if negb (w =? 0) || (1 <? wds b) then -1 else 0)
        end
    end in
  Bfree b ;;
  Bfree d ;;
  let dsign := if speccase then 0 else bc_dsign bc in
  let up := fadd rv (sulp rv (bc_scale bc)) in
  let down := fsub rv (sulp rv (bc_scale bc)) in
  ret (if speccase then (if dd <=? 0 then S754_zero false else rv)
       else if dd <? 0 then (if dsign =? 0 then down else rv)
       else if 0 <? dd then (if dsign =? 0 then rv else up)
       else if odd_mantissa rv (bc_scale bc) then (if dsign =? 0 then down else up)
       else rv).

(** ** The conversion *)
(** The scaled result, unscaled. *)
Definition unscale rv (scale : Z) : double :=
  if scale =? 0 then rv else fmul rv (of_words (Exp_1 - 2 * P * Exp_msk1) 0).

Definition finish rv (scale dsign : Z) (req : bool) (s : list Z) (t : scan) (nd0 e0 : Z) : M pool event E double :=
  if req then
    let* rv := bigcomp rv s (mkBCinfo (t_dp1 t) nd0 (t_nd t - t_nz1 t) (e0 + t_nz1 t) scale dsign) in
    ret (if Z.land (word0 rv) Exp_mask =? Exp_mask then S754_infinity false
         else if is_zero rv then S754_zero false
         else unscale rv scale)
  else ret (unscale rv scale).

(** The value of the digits of [t], which begin at [s], times [10^e]. *)
Definition digits_value (s : list Z) (t : scan) (e : Z) : M pool event E double :=
  let nd := t_nd t in
  let nd0 := if t_nd0 t =? 0 then nd else t_nd0 t in
  let* rv := lift (leading_value nd (t_y t) (t_z t)) in
  let* short := lift (short_way rv nd e) in
  match short with
  | Some rv => ret rv
  | None =>
      let* a := lift (first_approximation rv (e + (nd - Z.min nd (DBL_DIG + 1)))) in
      match a with
      | Ovfl => ret (S754_infinity false)
      | Undfl => ret (S754_zero false)
      | First rv scale =>
          let* (nd0', nd', y, e') := lift (cut_digits s nd0 nd (t_y t) e (t_dp0 t) (t_dp1 t) (t_dplen t)) in
          let bnd := nd - t_nz1 t in
          let* bd0 := s2b s nd0' nd' y (t_dplen t) in
          let* v := correct_loop 100 rv bd0 e' scale (nd' <? bnd) (bnd =? nd') in
          match v with
          | Break rv dsign req => finish rv scale dsign req s t nd0 e
          | Underflow => ret (S754_zero false)
          | _ => ret (S754_infinity false)
          end
      end
  end.

(** [inf] or [infinity] and [nan] at the character [c] at [i]: the value and the end. *)
Definition special (s : list Z) (i c : Z) : outcome E (option (double * Z)) :=
  if (c =? 105) || (c =? 73) then
    let! m := match_ s i (lit "nf") in
    match m with
    | Some j =>
        let! m := match_ s (j - 1) (lit "inity") in
        Done (Some (S754_infinity false, match m with Some j' => j' | None => j end))
    | None => Done None
    end
  else if (c =? 110) || (c =? 78) then
    let! m := match_ s i (lit "an") in
    match m with
    | Some j =>
        let! c := rd s j in
        let! j := (if c =? 40 then hexnan s j else Done j) in
        Done (Some (S754_nan, j))
    | None => Done None
    end
  else Done None.

(** The numeral behind the sign, at [i]: [None] when there is none. *)
Definition unsigned_strtod (s : list Z) (i : Z) (nz0 : bool) : M pool event E (option (double * Z)) :=
  let* t := lift (scan_digits s i) in
  let none := (t_nd t =? 0) && (t_nz t =? 0) && negb nz0 in
  if ((t_c t =? 101) || (t_c t =? 69)) && none then ret None
  else
    let* (e, j) :=
      (if (t_c t =? 101) || (t_c t =? 69) then lift (scan_exponent s (t_pos t)) else ret (0, t_pos t)) in
    if t_nd t =? 0 then
      if none then (if t_dplen t =? 0 then lift (special s (t_pos t) (t_c t)) else ret None)
      else ret (Some (S754_zero false, j))
    else
      let* v := digits_value (drop (Z.to_nat (t_s0 t)) s) t (e - t_nf t) in
      ret (Some (v, j)).

(** The value and [*se]. *)
Definition fpconv_strtod (s : list Z) : M pool event E (double * Z) :=
  let* start := lift (start_loop (S (length s)) s 0) in
  match start with
  | None => ret (S754_zero false, 0)
  | Some (sgn, i) =>
      let signed v := if sgn : bool then SFopp v else v in
      let number i nz0 :=
        let* r := unsigned_strtod s i nz0 in
        ret (match r with Some (v, j) => (signed v, j) | None => (S754_zero false, 0) end) in
      let* c := lift (rd s i) in
      if c =? 48 then
        let* c1 := lift (rd s (i + 1)) in
        if (c1 =? 120) || (c1 =? 88) then
          let* (v, j) := gethex s i in
          ret (signed v, j)
        else
          let* (i, c) := lift (skip_zeros (S (length s)) s (i + 1)) in
          if c =? 0 then ret (signed (S754_zero false), i) else number i true
      else number i false
  end.
End Strtod.
(** An exponent of ten digits overflows the [Long] it is read into: the length is compared
    behind the loop. *)
Example long_exponent : fpconv_strtod (E:=Empty_set) (lit "1e99999999999" ++ [0]) pool0 = Fault IntOverflow.
Proof. vm_compute. reflexivity. Qed.
End Strtod.
