(* ===== verification/StrtodScan.v ===== *)
(** * dtoa.c: the scanner of [fpconv_strtod]

    [at_ s i w]: the string from the index [i] on is [w]. The scanner goes over the digits
    of a numeral once; what it keeps of them is [kept]: how many there are, the first nine
    as a number and the next seven. *)
From S2P Require Import Prelude Libc Double DoubleSpec Bigint Dtoa DtoaDigits Gethex Strtod.

Module StrtodScan.
Import Double DoubleSpec Bigint Dtoa DtoaDigits Strtod.

Definition at_ (s : list Z) (i : Z) (w : list Z) : Prop := 0 ≤ i ∧ drop (Z.to_nat i) s = w.

Lemma at_next s i c w : at_ s i (c :: w) → zget s i = Some c ∧ at_ s (i + 1) w.
Proof.
  intros [Hi Hd]. split.
  - apply zget_Some. split; [done|]. rewrite <- (Nat.add_0_r (Z.to_nat i)), <- lookup_drop, Hd. done.
  - split; [lia|]. replace (Z.to_nat (i + 1)) with (Z.to_nat i + 1)%nat by lia. by rewrite <- drop_drop, Hd.
Qed.

Lemma at_app s i v w : at_ s i (v ++ w) → at_ s (i + len v) w.
Proof.
  revert i. induction v as [|c v IH]; intros i Hi; [by rewrite Z.add_0_r|]. apply at_next in Hi as [_ Hi].
  apply IH in Hi. cbn [length]. by replace (i + Z.of_nat (S (length v))) with (i + 1 + len v) by lia.
Qed.

Lemma at_bound s i w : at_ s i w → (length w ≤ length s)%nat.
Proof. intros [_ <-]. rewrite length_drop. lia. Qed.

(** The character before a position. *)
Lemma at_before s i v c w : at_ s i (v ++ c :: w) → zget s (i + len v + 1 - 1) = Some c.
Proof. intros H. apply at_app, at_next in H as [H _]. by replace (i + len v + 1 - 1) with (i + len v) by lia. Qed.

Section scan.
Context {E : Type}.

Lemma at_rd s i c w : at_ s i (c :: w) → rd (E:=E) s i = Done c ∧ at_ s (i + 1) w.
Proof. intros [H ?]%at_next. split; [by apply rd_done|done]. Qed.

Lemma skip_zeros_spec fuel s i n c w :
  at_ s i (replicate n 48 ++ c :: w) → c ≠ 48 → (n < fuel)%nat →
  skip_zeros (E:=E) fuel s i = Done (i + Z.of_nat n, c).
Proof.
  revert i n. induction fuel as [|fuel IH]; intros i n Hat Hc Hf; [lia|]. cbn [skip_zeros]. destruct n as [|n].
  - apply at_rd in Hat as [-> _]. cbn [obind]. rewrite (proj2 (Z.eqb_neq c 48)) by done. do 2 f_equal. lia.
  - cbn [replicate app] in Hat. apply at_rd in Hat as [-> Hat]. cbn [obind]. change (48 =? 48) with true. cbv iota.
    rewrite (IH (i + 1) n) by (done || lia). do 2 f_equal. lia.
Qed.

(** ** What is kept of the digits *)
Definition first9 (ds : list Z) : Z := dec_value (take 9 ds).
Definition next7 (ds : list Z) : Z := dec_value (take 7 (drop 9 ds)).
Definition kept (ds : list Z) : Z * Z * Z := (len ds, first9 ds, next7 ds).

Lemma dec_value_take ds n : digits_ok ds → 0 ≤ dec_value (take n ds) < 10 ^ Z.of_nat n.
Proof.
  intros Hds. pose proof (dec_value_range (take n ds) ltac:(by apply Forall_take)) as Hr. rewrite length_take in Hr.
  pose proof (Z.pow_le_mono_r 10 (Z.of_nat (n `min` length ds)) (Z.of_nat n) ltac:(lia) ltac:(lia)). lia.
Qed.

Lemma add_digit_kept ds c :
  digits_ok ds → 48 ≤ c ≤ 57 → add_digit (len ds) (first9 ds) (next7 ds) (c - 48) = kept (ds ++ [c]).
Proof.
  intros Hds Hd. unfold kept, first9, next7, add_digit. rewrite length_app. cbn [length].
  pose proof (dec_value_take ds 9 Hds) as H9. pose proof (dec_value_take (drop 9 ds) 7 ltac:(by apply Forall_drop)) as H7.
  destruct (Z.ltb_spec (len ds) 9) as [Hs|Hs].
  - rewrite !(drop_ge _ 9) by (rewrite ?length_app; cbn [length]; lia). rewrite !(take_ge _ 9) in * by (rewrite ?length_app; cbn [length]; lia).
    rewrite dec_value_snoc. pose proof (dec_value_range ds Hds) as Hr.
    pose proof (Z.pow_le_mono_r 10 (len ds) 8 ltac:(lia) ltac:(lia)). rewrite (wrap_small 32) by lia.
    f_equal. f_equal; lia.
  - rewrite (take_app_le ds) by lia. rewrite (drop_app_le ds) by lia. replace (Z.of_nat (length ds + 1)) with (len ds + 1) by lia.
    destruct (Z.ltb_spec (len ds) 16) as [Hm|Hm].
    + rewrite !(take_ge _ 7) in * by (rewrite ?length_app, ?length_drop; cbn [length]; lia). rewrite dec_value_snoc.
      pose proof (dec_value_range (drop 9 ds) ltac:(by apply Forall_drop)) as Hr. rewrite length_drop in Hr.
      pose proof (Z.pow_le_mono_r 10 (Z.of_nat (length ds - 9)) 6 ltac:(lia) ltac:(lia)).
      rewrite (wrap_small 32) by lia. f_equal. lia.
    + rewrite (take_app_le (drop 9 ds)) by (rewrite length_drop; lia). done.
Qed.

Lemma is_digit_true c : is_digit c = true ↔ 48 ≤ c ≤ 57.
Proof. unfold is_digit. rewrite andb_true_iff, !Z.leb_le. done. Qed.

Lemma int_digits_spec fuel s i ds a c w :
  at_ s i (a ++ c :: w) → digits_ok ds → digits_ok a → is_digit c = false → (length a < fuel)%nat →
  int_digits (E:=E) fuel s i (len ds) (first9 ds) (next7 ds) =
    Done (i + len a, c, len (ds ++ a), first9 (ds ++ a), next7 (ds ++ a)).
Proof.
  revert i ds a. induction fuel as [|fuel IH]; intros i ds a Hat Hds Ha Hc Hf; [lia|]. cbn [int_digits]. destruct a as [|d a].
  - apply at_rd in Hat as [-> _]. cbn [obind]. rewrite Hc, app_nil_r, Z.add_0_r. done.
  - cbn [app] in Hat. apply at_rd in Hat as [-> Hat]. apply Forall_cons in Ha as [Hd Ha]. cbn [obind].
    rewrite (proj2 (is_digit_true d) Hd), add_digit_kept by done. unfold kept. cbn [length] in *.
    rewrite (IH (i + 1) (ds ++ [d]) a); [|done| |done|done|lia].
    + rewrite <- app_assoc. cbn [app]. do 5 f_equal. lia.
    + apply Forall_app. split; [done|by constructor].
Qed.

(** The digits end in [n] zeros, and no more. *)
Definition zeros_end (ds : list Z) (n : Z) : Prop := ∃ core (k : nat), ds = core ++ replicate k 48 ∧ n = Z.of_nat k ∧ stripped core.

Lemma zeros_end_stripped ds : stripped ds → zeros_end ds 0.
Proof. intros H. exists ds, O. by rewrite app_nil_r. Qed.
Lemma zeros_end_snoc ds n : zeros_end ds n → zeros_end (ds ++ [48]) (n + 1).
Proof.
  intros (core & k & -> & -> & Hc). exists core, (S k). split; [|split; [lia|done]]. by rewrite replicate_S_end, app_assoc.
Qed.
Lemma zeros_end_nonneg ds n : zeros_end ds n → 0 ≤ n.
Proof. intros (? & ? & _ & -> & _). lia. Qed.

Lemma zeros_before_spec v s i w :
  at_ s i (v ++ w) → ∃ n, zeros_before (E:=E) (length v) s (i + len v) = Done n ∧ zeros_end v n.
Proof.
  revert w. induction v as [|c v IH] using rev_ind; intros w Hat; [exists 0; split; [done|apply (zeros_end_stripped []); done]|].
  rewrite length_app, Nat.add_1_r. cbn [zeros_before]. rewrite <- app_assoc in Hat.
  replace (i + Z.of_nat (S (length v)) - 1) with (i + len v) by lia. pose proof (at_app _ _ _ _ Hat) as Hc.
  cbn [app] in Hc. apply at_rd in Hc as [-> _]. cbn [obind]. destruct (Z.eqb_spec c 48) as [->|Hc].
  - destruct (IH _ Hat) as (n & -> & Hn). exists (n + 1). split; [done|by apply zeros_end_snoc].
  - exists 0. split; [done|]. apply zeros_end_stripped. unfold stripped. rewrite last_snoc. congruence.
Qed.

Lemma pad_zeros_spec n ds :
  digits_ok ds → pad_zeros n (len ds) (first9 ds) (next7 ds) = kept (ds ++ replicate n 48).
Proof.
  revert ds. induction n as [|n IH]; intros ds Hds; cbn [pad_zeros replicate]; [by rewrite app_nil_r|].
  pose proof (add_digit_kept ds 48 Hds ltac:(lia)) as Ha. change (48 - 48) with 0 in Ha. rewrite Ha. unfold kept at 1.
  rewrite IH by (apply Forall_app; split; [done|by repeat constructor]). by rewrite <- app_assoc.
Qed.

(** ** The fraction *)
(** The digits [ds] are counted, and [n] zeros are kept back. *)
Definition counted (t : scan) (ds : list Z) (n : nat) : Prop :=
  t_nd t = len ds ∧ t_y t = first9 ds ∧ t_z t = next7 ds ∧ t_nz t = Z.of_nat n.

Definition same_place (t t' : scan) : Prop :=
  t_s0 t' = t_s0 t ∧ t_dp0 t' = t_dp0 t ∧ t_dp1 t' = t_dp1 t ∧ t_dplen t' = t_dplen t ∧ t_nd0 t' = t_nd0 t.

Lemma frac_digits_spec fuel s t b c w ds n :
  at_ s (t_pos t) (b ++ c :: w) → digits_ok ds → digits_ok b → is_digit c = false → (length b < fuel)%nat →
  counted t ds n → zeros_end ds (t_nz1 t) →
  ∃ t' ds' n', frac_digits (E:=E) fuel s t = Done t' ∧ t_pos t' = t_pos t + len b ∧ t_c t' = c ∧ same_place t t' ∧
    counted t' ds' n' ∧ ds ++ replicate n 48 ++ b = ds' ++ replicate n' 48 ∧
    t_nf t' + Z.of_nat n' = t_nf t + Z.of_nat n + len b ∧ zeros_end ds' (t_nz1 t') ∧
    t_nd t ≤ t_nd t' ∧ (t_nz1 t' = 0 ∨ t_nd t' = t_nd t ∧ t_nz1 t' = t_nz1 t).
Proof.
  revert t b ds n. induction fuel as [|fuel IH]; intros t b ds n Hat Hds Hb Hc Hf Ht Hz; [lia|].
  cbn [frac_digits]. pose proof Ht as (Hnd & Hy & Hzz & Hn). destruct b as [|d b].
  - cbn [app] in Hat. apply at_rd in Hat as [-> _]. cbn [obind]. rewrite Hc. eexists _, ds, n. split; [done|].
    cbn [t_pos t_c t_nf t_nz1 length]. rewrite app_nil_r. split; [lia|]. split; [done|]. split; [done|]. split; [done|]. split; [done|]. split; [lia|]. split; [done|]. cbn [t_nd t_nz1]. split; [lia|by right].
  - cbn [app] in Hat. apply at_rd in Hat as [-> Hat]. apply Forall_cons in Hb as [Hd Hb]. cbn [obind length] in *.
    rewrite (proj2 (is_digit_true d) Hd). destruct (Z.eqb_spec d 48) as [->|Hne].
    + match goal with |- context [frac_digits fuel s ?t1] => destruct (IH t1 b ds (S n)) as (t' & ds' & n' & Hr & Hp & Hc' & Hpl & Hh & He & Hv & Hz' & Hnd'); try done end.
      { lia. }
      { split; [done|]. split; [done|]. split; [done|]. cbn [t_nz]. lia. }
      exists t', ds', n'. split; [done|]. cbn [t_pos t_nf] in *. split; [lia|]. split; [done|]. split; [done|]. split; [done|].
      rewrite <- He, replicate_S_end, <- !app_assoc. split; [done|]. split; [lia|]. split; [done|cbn [t_nd t_nz1] in Hnd'; lia].
    + rewrite Hn. replace (Z.to_nat (Z.of_nat n + 1 - 1)) with n by lia. rewrite Hnd, Hy, Hzz, pad_zeros_spec by done. unfold kept at 1.
      assert (digits_ok (ds ++ replicate n 48)) as Hds' by (apply Forall_app; split; [done|by apply Forall_replicate]).
      rewrite add_digit_kept by done. unfold kept at 1.
      match goal with |- context [frac_digits fuel s ?t1] => destruct (IH t1 b ((ds ++ replicate n 48) ++ [d]) O) as (t' & ds' & n' & Hr & Hp & Hc' & Hpl & Hh & He & Hv & Hz' & Hnd'); try done end.
      { apply Forall_app. split; [done|by constructor]. }
      { lia. }
      { apply zeros_end_stripped. unfold stripped. rewrite last_snoc. congruence. }
      exists t', ds', n'. split; [done|]. cbn [t_pos t_nf] in *. split; [lia|]. split; [done|]. split; [done|]. split; [done|].
      rewrite <- He, <- !app_assoc. split; [done|]. split; [lia|]. split; [done|]. cbn [t_nd t_nz1] in Hnd'. rewrite !length_app, length_replicate in Hnd'. cbn [length] in Hnd'. lia.
Qed.

(** ** The digits *)
(** The digits [ds] in the text, the point behind the first [m] of them. *)
Definition digits_at (s ds : list Z) (m dplen : Z) : Prop :=
  ∀ j d, ds !! j = Some d → zget s (Z.of_nat j + (if Z.of_nat j <? m then 0 else dplen)) = Some d.

Lemma dec_value_leading_zeros n ds : dec_value (replicate n 48 ++ ds) = dec_value ds.
Proof. induction n as [|n IH]; [done|]. rewrite <- IH. unfold dec_value. done. Qed.

Lemma leading_part ds ds' n w : leading ds → ds ++ w = ds' ++ replicate n 48 → leading ds'.
Proof.
  intros (d & r & -> & Hd) He. destruct ds' as [|d' r']; cbn [app] in He.
  - destruct n; [done|]. injection He as -> _. lia.
  - injection He as <- _. by exists d, r'.
Qed.

Lemma digits_prefix ds ds' n : digits_ok ds → ds = ds' ++ replicate n 48 → digits_ok ds'.
Proof. intros Hds ->. by apply Forall_app in Hds as [? _]. Qed.

(** Zeros, and then something else. *)
Lemma split_zeros b : ∃ n b', b = replicate n 48 ++ b' ∧ hd 0 b' ≠ 48.
Proof.
  induction b as [|d b (n & b' & -> & Hb)]; [by exists O, []|]. destruct (decide (d = 48)) as [->|Hd].
  - by exists (S n), b'.
  - exists O, (d :: replicate n 48 ++ b'). by split.
Qed.

(** The point is behind the first [t_nd0] digits; more digits do not end in a zero. *)
Definition placed (t : scan) : Prop :=
  0 ≤ t_dplen t ∧ (t_nd0 t = t_nd t ∨ t_nz1 t = 0) ∧ if t_nd0 t =? 0 then t_dp1 t ≤ 0 else t_dp0 t = t_nd0 t ∧ t_dp1 t = t_nd0 t + t_dplen t.

(** What [scan_digits] has found: the numeral is [ds] and [n] zeros, without the point. *)
Definition scanned (s : list Z) (t : scan) (ab : list Z) (nb : Z) (ds : list Z) (n : nat) : Prop :=
  counted t ds n ∧ digits_ok ds ∧ (ds = [] ∨ leading ds) ∧ dec_value ab = dec_value ds * 10 ^ Z.of_nat n ∧
  (ds ≠ [] → t_nf t + Z.of_nat n = nb) ∧ zeros_end ds (t_nz1 t) ∧ (0 ≤ t_nd0 t ≤ t_nd t ∧ (ds ≠ [] → placed t)) ∧
  digits_at (drop (Z.to_nat (t_s0 t)) s) ds (if t_nd0 t =? 0 then t_nd t else t_nd0 t) (t_dplen t).

Lemma digits_at_plain s ds w m p : s = ds ++ w → len ds ≤ m → digits_at s ds m p.
Proof.
  intros -> Hm j d Hj. pose proof (lookup_lt_Some _ _ _ Hj). rewrite (proj2 (Z.ltb_lt _ _)) by lia.
  rewrite Z.add_0_r, zget_of_nat. by apply lookup_app_l_Some.
Qed.

Lemma digits_at_point s a b w ds n :
  s = a ++ 46 :: b ++ w → a ++ b = ds ++ replicate n 48 → digits_at s ds (len a) 1.
Proof.
  intros -> He j d Hj. assert ((a ++ b) !! j = Some d) as Hab by (rewrite He; by apply lookup_app_l_Some).
  destruct (Z.ltb_spec (Z.of_nat j) (len a)) as [Hlt|Hge].
  - rewrite Z.add_0_r, zget_of_nat. rewrite lookup_app_l in Hab |- * by lia. done.
  - replace (Z.of_nat j + 1) with (Z.of_nat (S j)) by lia. rewrite zget_of_nat. rewrite lookup_app_r in Hab |- * by lia.
    replace (S j - length a)%nat with (S (j - length a)) by lia. cbn [lookup]. by apply lookup_app_l_Some.
Qed.

Lemma scan_plain s i a c w :
  at_ s i (a ++ c :: w) → digits_ok a → (a = [] ∨ leading a) → is_digit c = false → c ≠ 46 →
  ∃ t, scan_digits (E:=E) s i = Done t ∧ t_pos t = i + len a ∧ t_c t = c ∧ t_dplen t = 0 ∧ scanned s t a 0 a 0.
Proof.
  intros Hat Ha Hl Hc Hp. pose proof (at_bound _ _ _ Hat) as Hlen. rewrite length_app in Hlen. unfold scan_digits. cbv zeta.
  rewrite (int_digits_spec _ s i [] a c w) by (done || lia || constructor). cbn [obind app].
  replace (i + len a - i) with (len a) by lia. rewrite Nat2Z.id.
  destruct (zeros_before_spec a s i (c :: w) Hat) as (k1 & -> & Hk1). cbn [obind]. rewrite (proj2 (Z.eqb_neq c 46)) by done.
  eexists. split; [done|]. cbn [t_pos t_c t_dplen]. split; [done|]. split; [done|]. split; [done|].
  split; [done|]. split; [done|]. split; [done|]. split; [lia|]. split; [done|]. split; [done|].
  split. { split; [cbn [t_nd t_nd0]; lia|]. intros Hne. split; [done|]. split; [by left|]. cbn [t_nd0 t_dp0 t_dp1 t_dplen]. destruct (Z.eqb_spec (len a) 0) as [H0|H0]; [destruct a; done|lia]. }
  cbn [t_s0 t_nd t_nd0 t_dplen]. destruct Hat as [_ ->]. eapply digits_at_plain; [done|]. destruct (len a =? 0); lia.
Qed.

Lemma scan_point s i a b c w :
  at_ s i (a ++ 46 :: b ++ c :: w) → digits_ok a → digits_ok b → leading a → is_digit c = false →
  ∃ t ds n, scan_digits (E:=E) s i = Done t ∧ t_pos t = i + len a + 1 + len b ∧ t_c t = c ∧ t_dplen t = 1 ∧ scanned s t (a ++ b) (len b) ds n.
Proof.
  intros Hat Ha Hb Hl Hc. pose proof (at_bound _ _ _ Hat) as Hlen. rewrite length_app in Hlen. cbn [length] in Hlen. rewrite length_app in Hlen.
  unfold scan_digits. cbv zeta. rewrite (int_digits_spec _ s i [] a 46 (b ++ c :: w)) by (done || lia || constructor). cbn [obind app].
  replace (i + len a - i) with (len a) by lia. rewrite Nat2Z.id.
  destruct (zeros_before_spec a s i _ Hat) as (k1 & -> & Hk1). cbn [obind]. change (46 =? 46) with true. cbv iota.
  assert (len a ≠ 0) as Hna by (destruct Hl as (d & r & -> & _); cbn [length]; lia). rewrite (proj2 (Z.eqb_neq (len a) 0)) by done.
  pose proof (at_app _ _ _ _ Hat) as Hat1. apply at_next in Hat1 as [_ Hat1].
  match goal with |- context [frac_digits _ s ?t1] =>
    destruct (frac_digits_spec (S (length s)) s t1 b c w a 0) as (t & ds & n & -> & Hp & Hcc & Hpl & Hh & He & Hv & Hz & Hnd); try done; [lia|] end.
  exists t, ds, n. split; [done|]. cbn [t_pos t_nf replicate app] in *. split; [lia|]. split; [done|].
  destruct Hpl as (H1 & Hdp0 & Hdp1 & H2 & H3). cbn [t_s0 t_dp0 t_dp1 t_dplen t_nd0] in *. split; [done|].
  split; [done|]. split; [eapply (digits_prefix (a ++ b)); [by apply Forall_app|done]|]. split; [right; by eapply leading_part|].
  split; [by rewrite He, dec_value_zeros|]. split; [intros _; lia|]. split; [done|].
  split. { cbn [t_nd t_nz1] in Hnd. split; [lia|]. intros _. unfold placed. rewrite H2, H3, Hdp0, Hdp1, (proj2 (Z.eqb_neq (len a) 0)) by done. lia. }
  rewrite H1, H2, H3, (proj2 (Z.eqb_neq (len a) 0)) by done. destruct Hat as [_ ->]. by eapply digits_at_point.
Qed.

Lemma scan_fraction s i b c w :
  at_ s i (46 :: b ++ c :: w) → digits_ok b → is_digit c = false →
  ∃ t ds n, scan_digits (E:=E) s i = Done t ∧ t_pos t = i + 1 + len b ∧ t_c t = c ∧ t_dplen t = 1 ∧ scanned s t b (len b) ds n.
Proof.
  intros Hat Hb Hc. pose proof (at_bound _ _ _ Hat) as Hlen. cbn [length] in Hlen. rewrite length_app in Hlen.
  unfold scan_digits. cbv zeta. rewrite (int_digits_spec _ s i [] [] 46 (b ++ c :: w)) by (exact Hat || done || (cbn [length]; lia) || (constructor; fail)). cbn [obind app length].
  rewrite Z.add_0_r, Z.sub_diag. change (Z.to_nat 0) with O. cbn [zeros_before obind]. change (46 =? 46) with true. change (Z.of_nat 0 =? 0) with true. cbv iota.
  destruct (split_zeros b) as (k0 & b' & -> & Hb'). apply Forall_app in Hb as [_ Hb]. apply at_next in Hat as [_ Hat].
  rewrite <- app_assoc in Hat. rewrite length_app, length_replicate in *. pose proof (at_app _ _ _ _ Hat) as Hat'. rewrite length_replicate in Hat'.
  destruct b' as [|d b'].
  - cbn [app] in *. assert (c ≠ 48) as Hc48 by (intros ->; done). rewrite (skip_zeros_spec _ s (i + 1) k0 c w) by (done || lia). cbn [obind].
    assert ((48 <? c) && (c <=? 57) = false) as ->.
    { apply not_true_iff_false. intros [Hq1%Z.ltb_lt Hq2%Z.leb_le]%andb_prop. pose proof (proj2 (is_digit_true c)). rewrite H in Hc; [done|lia]. }
    eexists _, [], k0. split; [done|]. cbn [t_pos t_c t_dplen length]. split; [lia|]. split; [done|]. split; [done|].
    split; [split; [done|]; split; [done|]; split; [done|]; cbn [t_nz]; lia|]. split; [done|]. split; [by left|].
    split; [by rewrite (dec_value_leading_zeros k0 [])|]. split; [done|]. split; [apply (zeros_end_stripped []); done|]. split; [split; [cbn [t_nd t_nd0]; lia|done]|]. intros j d Hj. done.
  - cbn [app hd] in *. apply Forall_cons in Hb as [Hd Hb]. rewrite (skip_zeros_spec _ s (i + 1) k0 d (b' ++ c :: w)) by (done || lia). cbn [obind].
    rewrite (proj2 (Z.ltb_lt 48 d)), (proj2 (Z.leb_le d 57)) by lia. cbn [andb length] in *.
    match goal with |- context [frac_digits _ s ?t1] =>
      destruct (frac_digits_spec (S (length s)) s t1 (d :: b') c w [] 0) as (t & ds & n & -> & Hp & Hcc & Hpl & Hh & He & Hv & Hz & Hnd); try done; cbn [length]; try lia end.
    { by constructor. }
    { apply (zeros_end_stripped []). done. }
    exists t, ds, n. split; [done|]. cbn [t_pos t_nf replicate app length] in *. split; [lia|]. split; [done|].
    destruct Hpl as (H1 & Hdp0 & Hdp1 & H2 & H3). cbn [t_s0 t_dp0 t_dp1 t_dplen t_nd0] in *. split; [done|].
    split; [done|]. split; [eapply digits_prefix; [|exact He]; by constructor|].
    split; [right; apply (leading_part (d :: b') ds n []); [exists d, b'; split; [done|lia]|by rewrite app_nil_r]|].
    split; [rewrite dec_value_leading_zeros, He; apply dec_value_zeros|]. split; [intros _; lia|]. split; [done|].
    split. { cbn [t_nd t_nz1] in Hnd. split; [lia|]. intros _. unfold placed. rewrite H2, H3, Hdp1. change (Z.of_nat 0 =? 0) with true. cbv iota. lia. }
    rewrite H1, H3. change (Z.of_nat 0 =? 0) with true. cbv iota. destruct Hat' as [_ ->]. destruct Hh as (-> & _).
    eapply digits_at_plain; [|done]. change (d :: b' ++ c :: w) with ((d :: b') ++ c :: w). rewrite He, <- app_assoc. done.
Qed.
(** ** The exponent *)
Lemma dec_value_app_le p a : digits_ok p → digits_ok a → dec_value p ≤ dec_value (p ++ a).
Proof.
  intros Hp. induction a as [|c a IH] using rev_ind; intros Ha; [by rewrite app_nil_r|].
  apply Forall_app in Ha as [Ha Hc]. apply Forall_cons in Hc as [Hc _]. specialize (IH Ha). rewrite app_assoc, dec_value_snoc.
  pose proof (dec_value_range p Hp). lia.
Qed.

Lemma exp_digits_spec fuel s i p a c w :
  at_ s i (a ++ c :: w) → digits_ok p → digits_ok a → is_digit c = false → (length a < fuel)%nat →
  dec_value (p ++ a) ≤ 19999 →
  exp_digits (E:=E) fuel s i (dec_value p) = Done (i + len a, dec_value (p ++ a)).
Proof.
  revert i p a. induction fuel as [|fuel IH]; intros i p a Hat Hp Ha Hc Hf Hv; [lia|]. cbn [exp_digits]. destruct a as [|d a].
  - apply at_rd in Hat as [-> _]. cbn [obind]. rewrite Hc, app_nil_r, Z.add_0_r. done.
  - cbn [app] in Hat. apply at_rd in Hat as [-> Hat]. apply Forall_cons in Ha as [Hd Ha]. cbn [obind].
    replace (p ++ d :: a) with ((p ++ [d]) ++ a) in * by (by rewrite <- app_assoc).
    assert (digits_ok (p ++ [d])) as Hp' by (apply Forall_app; split; [done|by constructor]).
    pose proof (dec_value_app_le _ a Hp' Ha) as Hle. rewrite dec_value_snoc in Hle. pose proof (dec_value_range p Hp).
    rewrite (proj2 (is_digit_true d) Hd), int_ok by (unfold INT_MAX; lia). cbn [obind length] in *.
    replace (10 * dec_value p + d - 48) with (dec_value (p ++ [d])) by (rewrite dec_value_snoc; lia).
    rewrite (IH (i + 1) (p ++ [d]) a) by (done || lia). do 2 f_equal. lia.
Qed.

Definition exponent_sign (sg : list Z) : Prop := sg = [] ∨ sg = [43] ∨ sg = [45].

Lemma scan_exponent_spec s i c sg es d w :
  at_ s i (c :: sg ++ es ++ d :: w) → exponent_sign sg → es ≠ [] → digits_ok es → is_digit d = false → dec_value es ≤ 19999 →
  scan_exponent (E:=E) s i = Done (signed (bool_decide (sg = [45])) (dec_value es), i + 1 + len sg + len es).
Proof.
  intros Hat Hsg Hne Hes Hd Hv. pose proof (at_bound _ _ _ Hat) as Hlen. cbn [length] in Hlen. rewrite !length_app in Hlen. cbn [length] in Hlen.
  apply at_next in Hat as [_ Hat]. unfold scan_exponent. cbv zeta.
  assert (∃ c1, rd (E:=E) s (i + 1) = Done c1 ∧ (c1 =? 45) = bool_decide (sg = [45]) ∧
    (if bool_decide (sg = [45]) || (c1 =? 43) then i + 2 else i + 1) = i + 1 + len sg) as (c1 & Hr & Hm & Hj).
  { destruct Hsg as [->|[->| ->]]; cbn [app] in Hat.
    - destruct es as [|d0 es]; [done|]. cbn [app] in Hat. apply at_rd in Hat as [-> _]. apply Forall_cons in Hes as [Hd0 _]. exists d0. split; [done|].
      rewrite (proj2 (Z.eqb_neq d0 45)), (proj2 (Z.eqb_neq d0 43)) by lia. split; [done|]. cbn [orb length]. rewrite bool_decide_eq_false_2 by done. cbn [orb]. lia.
    - apply at_rd in Hat as [-> _]. exists 43. split; [done|]. split; [done|]. rewrite bool_decide_eq_false_2 by done. change (false || (43 =? 43)) with true. cbn [length]. lia.
    - apply at_rd in Hat as [-> _]. exists 45. split; [done|]. split; [done|]. rewrite bool_decide_eq_true_2 by done. cbn [orb length]. lia. }
  rewrite Hr. cbn [obind]. rewrite Hm, Hj. clear Hr Hm Hj. apply at_app in Hat. set (j := i + 1 + len sg) in *.
  assert (∃ c0, rd (E:=E) s j = Done c0 ∧ is_digit c0 = true) as (c0 & -> & Hc0).
  { destruct es as [|d0 es]; [done|]. cbn [app] in Hat. apply at_rd in Hat as [-> _]. apply Forall_cons in Hes as [Hd0 _]. exists d0. split; [done|]. by apply is_digit_true. }
  cbn [obind]. rewrite Hc0. clear c0 Hc0. destruct (split_zeros es) as (n & es' & Hse & Hes'). rewrite Hse in *. clear Hse. rewrite dec_value_leading_zeros in *.
  apply Forall_app in Hes as [_ Hes]. rewrite !length_app, length_replicate in *. rewrite <- app_assoc in Hat.
  assert (∃ f w', es' ++ d :: w = f :: w' ∧ f ≠ 48 ∧ f = hd d es') as (f & w' & Hfw & Hf & Hfd).
  { destruct es' as [|f es']; cbn [app hd] in *; [|by exists f, (es' ++ d :: w)]. exists d, w. split; [done|]. split; [|done]. by intros ->. }
  rewrite Hfw in Hat. rewrite (skip_zeros_spec _ s j n f w') by (done || lia). cbn [obind].
  pose proof (at_app _ _ _ _ Hat) as Hat'. rewrite length_replicate in Hat'. rewrite <- Hfw in Hat'. clear Hat Hfw w'.
  destruct es' as [|f' es']; cbn [hd] in Hfd; subst f; cbn [length] in *.
  - assert ((48 <? d) && (d <=? 57) = false) as ->.
    { unfold is_digit in Hd. destruct (Z.leb_spec 48 d), (Z.ltb_spec 48 d), (Z.leb_spec d 57); cbn in *; (done || lia). }
    change (dec_value []) with 0. destruct (bool_decide _); cbn [signed]; do 2 f_equal; lia.
  - apply Forall_cons in Hes as [Hf' Hes]. rewrite (proj2 (Z.ltb_lt 48 f')), (proj2 (Z.leb_le f' 57)) by lia. cbn [andb].
    cbn [app] in Hat'. apply at_next in Hat' as [_ Hat'].
    replace (f' - 48) with (dec_value [f']) by (cbn; lia).
    rewrite (exp_digits_spec _ s _ [f'] es' d w); [|done|by constructor|done|done|lia|done]. cbn [obind app].
    assert (digits_ok (f' :: es')) as Hok by (by constructor).
    assert (len (f' :: es') ≤ 5) as H5.
    { pose proof (dec_value_leading (f' :: es') Hok) as Hl. specialize (Hl ltac:(exists f', es'; split; [done|lia])).
      destruct (decide (len (f' :: es') ≤ 5)) as [|Hgt]; [done|]. pose proof (Z.pow_le_mono_r 10 5 (len (f' :: es') - 1) ltac:(lia) ltac:(lia)). lia. }
    cbn [length] in H5. rewrite (proj2 (Z.ltb_ge _ _)) by lia. rewrite (proj2 (Z.ltb_ge 19999 _)) by done. cbn [orb].
    do 2 f_equal. lia.
Qed.
End scan.
(** ** A numeral of JSON *)
(** The exponent [ex] and its value. *)
Definition exponent_part (ex : list Z) (e : Z) : Prop :=
  (ex = [] ∧ e = 0) ∨ ∃ c sg es, ex = c :: sg ++ es ∧ (c = 101 ∨ c = 69) ∧ exponent_sign sg ∧ es ≠ [] ∧ digits_ok es ∧
    dec_value es ≤ 19999 ∧ e = signed (bool_decide (sg = [45])) (dec_value es).

(** [sgn ++ ds ++ frac ++ ex]: a sign, the integer part without a needless zero, the point
    and digits, and the exponent [e]. *)
Definition numeral (sgn ds frac ex : list Z) (e : Z) : Prop :=
  (sgn = [] ∨ sgn = [45]) ∧ digits_ok ds ∧ (ds = [48] ∨ leading ds) ∧
  (frac = [] ∨ ∃ fs, frac = 46 :: fs ∧ fs ≠ [] ∧ digits_ok fs) ∧ exponent_part ex e.

(** What ends a numeral, with the terminator. *)
Definition ends (rest : list Z) : Prop := stops rest ∧ rest ≠ [].

Lemma exponent_part_read ex e rest : exponent_part ex e → ends rest → exponent 101 (ex ++ rest) = (e, rest).
Proof.
  intros Hex [Hr Hne]. destruct rest as [|d r]; [done|]. destruct Hr as (Hd & _ & Hl & _).
  destruct Hex as [[-> ->]|(c & sg & es & -> & Hc & Hsg & Hnes & Hes & _ & ->)].
  - cbn [exponent app]. by rewrite (proj2 (Z.eqb_neq _ _) Hl).
  - cbn [exponent app]. assert ((lower c =? 101) = true) as -> by (by destruct Hc as [->| ->]). rewrite <- app_assoc.
    assert (Double.sign (sg ++ es ++ d :: r) = (bool_decide (sg = [45]), es ++ d :: r)) as ->.
    { destruct Hsg as [->|[->| ->]]; [|done..]. destruct es as [|d0 es]; [done|]. apply Forall_cons in Hes as [Hd0 _]. cbn [app Double.sign].
      rewrite (proj2 (Z.eqb_neq d0 45)), (proj2 (Z.eqb_neq d0 43)) by lia. done. }
    rewrite span_digits by done. by destruct es.
Qed.

(** What the C library reads of it. *)
Lemma numeral_strtod sgn ds frac ex e rest :
  numeral sgn ds frac ex e → ends rest →
  strtod 46 (sgn ++ ds ++ frac ++ ex ++ rest) =
    Some (of_decimal (bool_decide (sgn = [45])) (dec_value (ds ++ drop 1 frac)) (e - len (drop 1 frac)), rest).
Proof.
  intros (Hs & Hds & Hl & Hf & Hex) Hr. apply strtod_parts; try done.
  - destruct Hl as [->|(d & r & -> & _)]; done.
  - destruct Hex as [[-> _]|(c & sg & es & -> & Hc & _)]; [by left|right]. eexists _, _. split; [done|]. by destruct Hc as [->| ->].
  - by apply exponent_part_read.
  - apply Hr.
Qed.

Section numeral.
Context {E : Type}.

Lemma is_digit_isdigit c : is_digit c = isdigit c.
Proof. done. Qed.

(** The character behind the digits. *)
Lemma ends_head ex e rest :
  exponent_part ex e → ends rest → ∃ c w, ex ++ rest = c :: w ∧ is_digit c = false ∧ c ≠ 46 ∧ (ex = [] → (c =? 101) || (c =? 69) = false) ∧
    (c = 120 ∨ c = 88 → False).
Proof.
  intros Hex [Hr Hne]. destruct Hex as [[-> _]|(c & sg & es & -> & Hc & _)].
  - destruct rest as [|d r]; [done|]. destruct Hr as (Hd & Hp & Hl & Hx). exists d, r. split; [done|]. split; [done|]. split; [done|].
    split; [|intros [->| ->]; done]. intros _. apply orb_false_iff. split; apply Z.eqb_neq; intros ->; done.
  - exists c, ((sg ++ es) ++ rest). split; [done|]. destruct Hc as [->| ->]; (split; [done|]; split; [done|]; split; [done|lia]).
Qed.

Lemma exponent_step s i c w ex e rest :
  at_ s i (ex ++ rest) → ex ++ rest = c :: w → exponent_part ex e → ends rest →
  (if (c =? 101) || (c =? 69) then scan_exponent (E:=E) s i else Done (0, i)) = Done (e, i + len ex).
Proof.
  intros Hat Hc Hex Hr. pose proof (ends_head ex e rest Hex Hr) as (c' & w' & Hc' & _ & _ & Hnone & _).
  rewrite Hc in Hc'. injection Hc' as <- <-. destruct Hr as [Hr Hne].
  destruct Hex as [[-> ->]|(l & sg & es & -> & Hl & Hsg & Hnes & Hes & Hv & ->)].
  - rewrite Hnone by done. by rewrite Z.add_0_r.
  - cbn [app] in Hc. injection Hc as -> _. destruct rest as [|d r]; [done|]. destruct Hr as (Hd & _).
    assert ((c =? 101) || (c =? 69) = true) as -> by (by destruct Hl as [->| ->]). rewrite <- app_comm_cons, <- app_assoc in Hat.
    rewrite (scan_exponent_spec _ _ _ _ _ _ _ Hat) by done. do 2 f_equal. cbn [length]. rewrite length_app. lia.
Qed.
Lemma lift_step {A B} (o : outcome E A) a (f : A → M pool event E B) p Q :
  o = Done a → wp (f a) p Q → wp (bind (lift o) f) p Q.
Proof. intros -> Hf. apply wp_bind, wp_lift, returns_done. exact Hf. Qed.

(** The digits [t], and what is to be computed of them: their value times [10 ^ e]. *)
Definition to_convert (s : list Z) (t : scan) (dd : list Z) (e1 : Z) (N e : Z) : Prop :=
  ∃ n, counted t dd n ∧ digits_ok dd ∧ leading dd ∧ zeros_end dd (t_nz1 t) ∧ (0 ≤ t_nd0 t ≤ t_nd t ∧ placed t) ∧
  digits_at (drop (Z.to_nat (t_s0 t)) s) dd (if t_nd0 t =? 0 then t_nd t else t_nd0 t) (t_dplen t) ∧
  N = dec_value dd * 10 ^ Z.of_nat n ∧ e1 = e + Z.of_nat n.

Lemma unsigned_step p s i nz0 t c w ex e rest ab nb dd n (Q : option (double * Z) → pool → list event → Prop) :
  scan_digits (E:=E) s i = Done t → t_c t = c → at_ s (t_pos t) (ex ++ rest) → ex ++ rest = c :: w →
  exponent_part ex e → ends rest → scanned s t ab nb dd n → (dd = [] → nz0 = true ∨ t_nz t ≠ 0) →
  (dd = [] → Q (Some (S754_zero false, t_pos t + len ex)) p []) →
  (∀ e1, to_convert s t dd e1 (dec_value ab) (e - nb) →
    wp (digits_value (E:=E) (drop (Z.to_nat (t_s0 t)) s) t e1) p (fun v p' ws => Q (Some (v, t_pos t + len ex)) p' ws)) →
  wp (unsigned_strtod (E:=E) s i nz0) p Q.
Proof.
  intros Ht Hc Hat Hcw Hex Hr (Hh & Hds & Hl & Hv & Hnf & Hz1 & Hn0 & Hdat) Hne HQ0 HQ. unfold unsigned_strtod.
  eapply lift_step; [exact Ht|]. cbv zeta. rewrite Hc. pose proof Hh as (Hnd & _ & _ & Hnz).
  assert ((t_nd t =? 0) && (t_nz t =? 0) && negb nz0 = false) as ->.
  { destruct dd as [|d dd].
    - destruct (Hne eq_refl) as [->|Hz]; [by rewrite andb_false_r|]. by rewrite (proj2 (Z.eqb_neq _ _) Hz), andb_false_r.
    - cbn [length] in Hnd. rewrite (proj2 (Z.eqb_neq (t_nd t) 0)) by lia. done. }
  rewrite andb_false_r. pose proof (exponent_step s (t_pos t) c w ex e rest Hat Hcw Hex Hr) as He.
  assert (∀ (f : Z * Z → M pool event E (option (double * Z))), wp (f (e, t_pos t + len ex)) p Q →
    wp (bind (if (c =? 101) || (c =? 69) then lift (scan_exponent s (t_pos t)) else ret (0, t_pos t)) f) p Q) as Hstep.
  { intros f Hf. destruct ((c =? 101) || (c =? 69)).
    - by eapply lift_step.
    - injection He as <- He. rewrite <- He in Hf. apply wp_bind, wp_ret. exact Hf. }
  apply Hstep. clear Hstep He. destruct dd as [|d dd].
  - cbn [length] in Hnd. rewrite Hnd. change (Z.of_nat 0 =? 0) with true. cbv iota. apply wp_ret. by apply HQ0.
  - rewrite (proj2 (Z.eqb_neq (t_nd t) 0)) by (cbn [length] in Hnd; lia). apply wp_bind. eapply wp_mono; [apply HQ|].
    + exists n. destruct Hl as [|Hl]; [done|]. specialize (Hnf ltac:(done)).
      split; [done|]. split; [done|]. split; [done|]. split; [done|]. split; [split; [apply Hn0|by apply Hn0]|]. split; [done|]. split; [done|]. lia.
    + intros v p' ws Hw. apply wp_ret. by rewrite app_nil_r.
Qed.
Lemma start_sign s sgn d w :
  s = sgn ++ d :: w → (sgn = [] ∨ sgn = [45]) → 48 ≤ d ≤ 57 →
  start_loop (E:=E) (S (length s)) s 0 = Done (Some (bool_decide (sgn = [45]), len sgn)).
Proof.
  intros Hs Hsgn Hd. cbn [start_loop]. assert (at_ s 0 (sgn ++ d :: w)) as Hat by (split; [done|by rewrite Hs]). destruct Hsgn as [->| ->]; cbn [app] in Hat.
  - apply at_rd in Hat as [-> _]. cbn [obind]. rewrite (proj2 (Z.eqb_neq d 45)), (proj2 (Z.eqb_neq d 43)), (proj2 (Z.eqb_neq d 0)), (proj2 (Z.eqb_neq d 32)) by lia.
    rewrite (proj2 (Z.leb_gt d 13)) by lia. rewrite andb_false_r. done.
  - apply (at_rd (E:=E)) in Hat as [-> Hat]. apply (at_rd (E:=E)) in Hat as [Hr _]. cbn [obind]. change ((45 =? 45) || (45 =? 43)) with true. cbv iota. rewrite Hr. cbn [obind].
    rewrite (proj2 (Z.eqb_neq d 0)) by lia. done.
Qed.

Lemma leading_value_pos dd : digits_ok dd → leading dd → 0 < dec_value dd.
Proof. intros Hd Hl. pose proof (dec_value_leading dd Hd Hl). pose proof Hl as (d & r & -> & _). pose proof (Z.pow_pos_nonneg 10 (len (d :: r) - 1) ltac:(lia) ltac:(cbn [length]; lia)). lia. Qed.

(** The numeral is a sign and what is to be converted, or zero. *)
Lemma numeral_step p s sgn ds frac ex e rest (Q : double * Z → pool → list event → Prop) :
  numeral sgn ds frac ex e → ends rest → s = sgn ++ ds ++ frac ++ ex ++ rest →
  (dec_value (ds ++ drop 1 frac) = 0 → Q (S754_zero (bool_decide (sgn = [45])), len (sgn ++ ds ++ frac ++ ex)) p []) →
  (∀ t dd e1, to_convert s t dd e1 (dec_value (ds ++ drop 1 frac)) (e - len (drop 1 frac)) →
    wp (digits_value (E:=E) (drop (Z.to_nat (t_s0 t)) s) t e1) p
      (fun v p' ws => Q (if bool_decide (sgn = [45]) then SFopp v else v, len (sgn ++ ds ++ frac ++ ex)) p' ws)) →
  wp (fpconv_strtod (E:=E) s) p Q.
Proof.
  intros (Hsgn & Hds & Hl & Hfrac & Hex) Hr Hs HQ0 HQ. set (neg := bool_decide (sgn = [45])) in *. set (pos := len (sgn ++ ds ++ frac ++ ex)) in *.
  assert (pos = len sgn + len ds + len frac + len ex) as Hpos by (unfold pos; rewrite !length_app; lia).
  pose proof (ends_head ex e rest Hex Hr) as (c & w & Hcw & Hc & Hcp & _ & Hcx).
  assert (at_ s (len sgn) (ds ++ frac ++ ex ++ rest)) as Hat.
  { split; [lia|]. rewrite Hs, Nat2Z.id, drop_app_length. done. }
  unfold fpconv_strtod. assert (∃ d r, ds = d :: r ∧ 48 ≤ d ≤ 57) as (d & r & Hdr & Hd).
  { destruct Hl as [->|(d & r & -> & ?)]; [by exists 48, []|]. exists d, r. split; [done|lia]. }
  eapply lift_step. { rewrite Hdr in Hs. cbn [app] in Hs. by eapply start_sign. }
  fold neg. cbv beta zeta iota. eapply lift_step. { rewrite Hdr in Hat. cbn [app] in Hat. apply (at_rd (E:=E)) in Hat as [Hrd _]. exact Hrd. }
  assert (∀ i nz0, wp (unsigned_strtod (E:=E) s i nz0) p (λ r p' ws, ∃ v, r = Some (v, pos) ∧ Q (if neg then SFopp v else v, pos) p' ws) →
    wp (r <- unsigned_strtod (E:=E) s i nz0;; ret (match r with Some (v, j) => (if neg then SFopp v else v, j) | None => (S754_zero false, 0) end)) p Q) as Hnum.
  { intros i nz0 H. apply wp_bind. eapply wp_mono; [exact H|]. intros r0 p' ws (v & -> & Hv). apply wp_ret. by rewrite app_nil_r. }
  assert (∀ i nz0 t dd n ab nb, scan_digits (E:=E) s i = Done t → t_c t = c → at_ s (t_pos t) (ex ++ rest) → t_pos t + len ex = pos →
    scanned s t ab nb dd n → (dd = [] → nz0 = true ∨ t_nz t ≠ 0) → dec_value ab = dec_value (ds ++ drop 1 frac) → nb = len (drop 1 frac) →
    wp (unsigned_strtod (E:=E) s i nz0) p (λ r p' ws, ∃ v, r = Some (v, pos) ∧ Q (if neg then SFopp v else v, pos) p' ws)) as Huns.
  { intros i nz0 t dd n ab nb Ht Htc Htp Hpp Hsc Hne Hab ->. eapply (unsigned_step p s i nz0 t c w ex e rest ab _ dd n); try done; rewrite Hpp.
    - intros ->. eexists. split; [done|]. specialize (HQ0 ltac:(rewrite <- Hab; destruct Hsc as (_ & _ & _ & -> & _); done)). by destruct neg.
    - intros e1 H. rewrite Hab in H. eapply wp_mono; [by apply (HQ t dd e1)|]. intros v p' ws Hv. by exists v. }
  clear HQ. pose proof (at_app _ _ _ _ Hat) as Hat1. destruct Hl as [Hl|Hl].
  - (* a zero before the point *)
    subst ds. injection Hdr as <- <-. change (48 =? 48) with true. cbv iota. change (len [48]) with 1 in *.
    assert (∃ c1 w1, frac ++ ex ++ rest = c1 :: w1 ∧ c1 ≠ 48 ∧ (c1 =? 120) || (c1 =? 88) = false ∧ (c1 = 0 → frac = [])) as (c1 & w1 & Hc1 & Hc48 & Hcx1 & Hc0).
    { destruct Hfrac as [->|(fs & -> & _)]; [|by exists 46, (fs ++ ex ++ rest)]. exists c, w. split; [done|]. split; [by intros ->|]. split; [|done].
      apply orb_false_iff. split; apply Z.eqb_neq; intros ->; apply Hcx; auto. }
    pose proof Hat1 as Hat2. rewrite Hc1 in Hat2. eapply lift_step. { apply (at_rd (E:=E)) in Hat2 as [Hrd _]. exact Hrd. }
    rewrite Hcx1. eapply lift_step. { apply (skip_zeros_spec _ s (len sgn + 1) 0 c1 w1); [exact Hat2|done|lia]. }
    rewrite Z.add_0_r. cbv beta iota. destruct (Z.eqb_spec c1 0) as [->|Hn0].
    + rewrite (Hc0 eq_refl) in *. cbn [app drop length] in *. assert (ex = []) as Hex0.
      { destruct Hex as [[-> _]|(l & sg & es & -> & [->| ->] & _)]; [done|cbn in Hc1; done..]. }
      subst ex. cbn [length] in *. apply wp_ret. replace (len sgn + 1) with pos by lia. specialize (HQ0 ltac:(done)). by destruct neg.
    + apply Hnum. destruct Hfrac as [->|(fs & -> & Hnefs & Hfs)]; cbn [app drop length] in *.
      * rewrite Hcw in Hat1. destruct (scan_plain (E:=E) s _ [] c w Hat1 ltac:(by constructor) ltac:(by left) Hc Hcp) as (t & Ht & Hp & Htc & _ & Hsc).
        eapply (Huns _ _ t [] O [] 0); try done.
        { rewrite Hp, Hcw. cbn [length]. by rewrite Z.add_0_r. }
        { rewrite Hp. cbn [length]. lia. }
        intros _. by left.
      * rewrite Hcw in Hat1. destruct (scan_fraction (E:=E) s _ fs c w Hat1 Hfs Hc) as (t & dd & n & Ht & Hp & Htc & _ & Hsc).
        eapply (Huns _ _ t dd n fs (len fs)); try done.
        { rewrite Hp, Hcw. apply at_next in Hat1 as [_ Hat1]. by apply at_app in Hat1. }
        { rewrite Hp. lia. }
        intros _. by left.
  - assert (d ≠ 48) as Hd48. { destruct Hl as (d' & r' & Hdr' & ?). rewrite Hdr in Hdr'. injection Hdr' as -> _. lia. }
    rewrite (proj2 (Z.eqb_neq d 48)) by done. apply Hnum. destruct Hfrac as [->|(fs & -> & Hnefs & Hfs)]; cbn [app drop length] in *.
    + rewrite app_nil_r in *. rewrite Hcw in Hat. destruct (scan_plain (E:=E) s _ ds c w Hat Hds ltac:(by right) Hc Hcp) as (t & Ht & Hp & Htc & _ & Hsc).
      eapply (Huns _ _ t ds O ds 0); try done.
      { by rewrite Hp. }
      { rewrite Hp. lia. }
      intros ->. by destruct Hl as (? & ? & ? & _).
    + rewrite Hcw in Hat. destruct (scan_point (E:=E) s _ ds fs c w Hat Hds Hfs Hl Hc) as (t & dd & n & Ht & Hp & Htc & _ & Hsc).
      eapply (Huns _ _ t dd n (ds ++ fs) (len fs)); try done.
      { rewrite Hp. rewrite Hcw in Hat1. apply at_next in Hat1 as [_ Hat1]. rewrite Hcw. by apply at_app in Hat1. }
      { rewrite Hp. lia. }
      intros ->. exfalso. destruct Hsc as (_ & _ & _ & Hv & _). pose proof (leading_value_pos ds Hds Hl). pose proof (dec_value_app_le ds fs Hds Hfs). change (dec_value []) with 0 in Hv. lia.
Qed.
End numeral.
End StrtodScan.
