(* ===== verification/StrtodShort.v ===== *)
(** * dtoa.c: numerals of few digits

    Up to 15 digits are an exact double, and so are the powers of 10 up to the 22nd: one
    multiplication or division rounds the numeral once. [strtod] of the C library rounds
    it too, and there is only one rounding to nearest even, so both give the same
    double. *)
From Stdlib Require Import Reals Lra.
From S2P Require Import Prelude Libc Double DoubleSpec Bigint Dtoa FloatSpec FloatOps FloatRound DtoaEstimate DtoaDigits DtoaBig DtoaScale Gethex Strtod StrtodScan.

Module StrtodShort.
Import Double DoubleSpec Bigint Dtoa FloatSpec FloatOps FloatRound DtoaEstimate DtoaDigits DtoaSmall DtoaScale Strtod StrtodScan.

Lemma dec_value_app a b : dec_value (a ++ b) = dec_value a * 10 ^ len b + dec_value b.
Proof.
  induction b as [|c b IH] using rev_ind.
  - rewrite app_nil_r. change (dec_value []) with 0. change (10 ^ len []) with 1. lia.
  - rewrite app_assoc, !dec_value_snoc, IH, length_app. cbn [length]. rewrite Nat2Z.inj_add, Z.pow_add_r by lia. change (10 ^ Z.of_nat 1) with 10. ring.
Qed.

(** The sixteen digits that are kept. *)
Lemma kept_value ds : (9 < length ds)%nat → first9 ds * 10 ^ (Z.min (len ds) 16 - 9) + next7 ds = dec_value (take 16 ds).
Proof.
  intros Hl. unfold first9, next7. replace (take 16 ds) with (take 9 ds ++ take 7 (drop 9 ds)) by (by rewrite take_take_drop).
  rewrite dec_value_app, length_take, length_drop. do 3 f_equal. lia.
Qed.

Section short.
Context {E : Type}.

Lemma tens_int a : 0 ≤ a ≤ 22 → ∃ t, rd (E:=E) tens a = Done t ∧ good t ∧ val t = IZR (10 ^ a) ∧ (a ≤ 15 → is_int t (10 ^ a)).
Proof.
  intros Ha. destruct (tens_ok (E:=E) a Ha) as (t & Ht & Gt & Vt). exists t. rewrite pow10_IZR in Vt by lia. do 3 (split; [done|]). by split.
Qed.

Lemma pow10_15 a : 0 ≤ a ≤ 15 → 0 < 10 ^ a ≤ 10 ^ 15.
Proof. intros Ha. split; [apply Z.pow_pos_nonneg; lia|apply Z.pow_le_mono_r; lia]. Qed.

(** Up to 15 digits the leading value is exact. *)
Lemma leading_value_exact dd :
  digits_ok dd → (length dd ≤ 15)%nat →
  ∃ v, leading_value (E:=E) (len dd) (first9 dd) (next7 dd) = Done v ∧ is_int v (dec_value dd).
Proof.
  intros Hd Hl. unfold leading_value, DBL_DIG. cbv zeta. rewrite (proj2 (Z.ltb_lt (len dd) (15 + 1))) by lia.
  pose proof (dec_value_range dd Hd) as Hr. pose proof (Z.pow_le_mono_r 10 (len dd) 15 ltac:(lia) ltac:(lia)).
  destruct (Z.ltb_spec 9 (len dd)) as [H9|H9].
  - destruct (tens_int (len dd - 9) ltac:(lia)) as (t & -> & _ & _ & It). cbn [obind]. eexists. split; [done|].
    pose proof (kept_value dd ltac:(lia)) as Hk. rewrite (take_ge dd 16) in Hk by lia. replace (Z.min (len dd) 16 - 9) with (len dd - 9) in Hk by lia. rewrite <- Hk.
    pose proof (dec_value_take dd 9 Hd) as Hf. pose proof (dec_value_take (drop 9 dd) 7 ltac:(by apply Forall_drop)) as Hn.
    change (dec_value (take 9 dd)) with (first9 dd) in Hf. change (dec_value (take 7 (drop 9 dd))) with (next7 dd) in Hn.
    pose proof (Z.pow_pos_nonneg 10 (len dd - 9) ltac:(lia) ltac:(lia)). rewrite (Z.mul_comm (first9 dd)) in *.
    apply is_int_add; [|apply is_int_of_Z; lia|nia]. apply is_int_mul; [apply It; lia|apply is_int_of_Z; lia|nia].
  - exists (of_Z (first9 dd)). split; [done|]. unfold first9. rewrite take_ge by lia. apply is_int_of_Z. lia.
Qed.

(** The digits and a power of 10 by one operation. *)
Lemma short_way_ok v d nd e :
  is_int v d → 1 ≤ nd ≤ 15 → 10 ^ (nd - 1) ≤ d < 10 ^ nd → -22 ≤ e ≤ 37 - nd →
  ∃ v', short_way (E:=E) v nd e = Done (Some v') ∧ rounds v' (IZR d * pow10 e).
Proof.
  intros Iv Hnd Hd He. unfold short_way, DBL_DIG, Ten_pmax. rewrite (proj2 (Z.ltb_ge 15 nd)) by lia.
  pose proof (pow10_15 nd ltac:(lia)) as H15. pose proof (Z.pow_pos_nonneg 10 (nd - 1) ltac:(lia) ltac:(lia)).
  assert (0 < IZR d < pow2 60)%R as Hdr by (rewrite pow2_IZR by lia; split; apply IZR_lt; lia).
  pose proof Iv as [Gv Vv]. destruct (Z.eqb_spec e 0) as [->|Hne].
  { exists v. split; [done|]. change (pow10 0) with 1%R. rewrite Rmult_1_r, <- Vv. by apply rounds_self. }
  assert (∀ a, 0 ≤ a ≤ 22 → 1 <= pow10 a < pow2 100)%R as Hten.
  { intros a Ha. rewrite pow10_IZR, pow2_IZR by lia. pose proof (Z.pow_le_mono_r 10 a 22 ltac:(lia) ltac:(lia)). pose proof (Z.pow_pos_nonneg 10 a ltac:(lia) ltac:(lia)).
    split; [apply IZR_le; lia|apply IZR_lt; lia]. }
  pose proof (pow2_le (60 + 100) 1022 ltac:(lia)) as Hbig. rewrite pow2_add in Hbig. pose proof (pow2_lt 1022 1023 ltac:(lia)).
  destruct (Z.ltb_spec 0 e) as [Hp|Hp].
  - destruct (Z.leb_spec e 22) as [H22|H22].
    + destruct (tens_int e ltac:(lia)) as (t & -> & Gt & Vt & _). cbn [obind]. eexists. split; [done|]. rewrite <- pow10_IZR in Vt by lia. rewrite <- Vv, <- Vt.
      apply fmul_ok; [done..|]. rewrite Vv, Vt. pose proof (Hten e ltac:(lia)). rewrite Rabs_pos_eq by nra. nra.
    + rewrite (proj2 (Z.leb_le e (22 + (15 - nd)))) by lia.
      destruct (tens_int (15 - nd) ltac:(lia)) as (t & -> & _ & _ & It). cbn [obind].
      destruct (tens_int (e - (15 - nd)) ltac:(lia)) as (t' & -> & Gt' & Vt' & _). cbn [obind]. eexists. split; [done|].
      assert (d * 10 ^ (15 - nd) < 10 ^ 15) as Hprod.
      { replace 15 with (nd + (15 - nd)) at 2 by lia. rewrite Z.pow_add_r by lia. pose proof (Z.pow_pos_nonneg 10 (15 - nd) ltac:(lia) ltac:(lia)). nia. }
      pose proof (Z.pow_pos_nonneg 10 (15 - nd) ltac:(lia) ltac:(lia)).
      destruct (is_int_mul v t d (10 ^ (15 - nd)) Iv (It ltac:(lia)) ltac:(nia)) as [Gp Vp].
      assert (IZR d * pow10 e = val (fmul v t) * val t')%R as ->.
      { rewrite Vp, Vt', mult_IZR, <- !pow10_IZR, Rmult_assoc, <- tenpow_add by lia. do 2 f_equal. lia. }
      apply fmul_ok; [done..|]. rewrite Vp, Vt'. pose proof (Hten (e - (15 - nd)) ltac:(lia)) as Ht. rewrite pow10_IZR in Ht by lia.
      assert (0 < d * 10 ^ (15 - nd)) by nia. assert (0 < IZR (d * 10 ^ (15 - nd)) < pow2 60)%R as Hpr by (rewrite pow2_IZR by lia; split; apply IZR_lt; lia).
      rewrite Rabs_pos_eq by nra. nra.
  - rewrite (proj2 (Z.leb_le (- (22)) e)) by lia. destruct (tens_int (- e) ltac:(lia)) as (t & -> & Gt & Vt & _). cbn [obind]. eexists. split; [done|].
    rewrite <- pow10_IZR in Vt by lia. pose proof (Hten (- e) ltac:(lia)) as Ht.
    assert (IZR d * pow10 e = val v / val t)%R as Hq by (rewrite Vv, Vt; unfold Rdiv; rewrite pow10_inv, Z.opp_involutive; done).
    rewrite Hq. apply fdiv_ok; [done|done|rewrite Vv; lra|rewrite Vt; lra|]. rewrite <- Hq.
    pose proof (pow10_neg e). pose proof (pow2_neg 100) as Hinv. change (- (100)) with (-100) in Hinv. pose proof (pow10_pos e). pose proof (pow2_pos (-100)). pose proof (pow2_pos 100).
    pose proof (pow2_le (-1022) (-100) ltac:(lia)). assert (1 <= IZR d)%R by (apply IZR_le; lia).
    assert (pow10 e <= 1)%R by nra.
    assert (pow2 (-100) <= pow10 e)%R.
    { apply Rnot_lt_le. intros Hlt. assert (pow10 e * pow10 (- e) < pow2 (-100) * pow10 (- e))%R by (apply Rmult_lt_compat_r; lra).
      assert (pow2 (-100) * pow10 (- e) <= pow2 (-100) * pow2 100)%R by (apply Rmult_le_compat_l; lra). lra. }
    split; nra.
Qed.
Lemma digits_value_short p s t dd e1 N e :
  to_convert s t dd e1 N e → 10 ^ 15 > N → -22 ≤ e ≤ 22 →
  ∃ v, digits_value (E:=E) (drop (Z.to_nat (t_s0 t)) s) t e1 p = Done (v, p, []) ∧ rounds v (IZR N * pow10 e).
Proof.
  intros (n & (Hnd & Hy & Hz & _) & Hd & Hl & _ & _ & _ & -> & ->) HN He.
  pose proof (dec_value_range dd Hd) as Hr. pose proof (dec_value_leading dd Hd Hl) as Hlo.
  assert (1 ≤ len dd) as H1 by (destruct Hl as (? & ? & -> & _); cbn [length]; lia).
  assert (len dd + Z.of_nat n ≤ 15) as H15.
  { destruct (decide (len dd + Z.of_nat n ≤ 15)) as [|Hgt]; [done|]. exfalso.
    pose proof (Z.pow_le_mono_r 10 15 (len dd - 1 + Z.of_nat n) ltac:(lia) ltac:(lia)) as Hm. rewrite Z.pow_add_r in Hm by lia.
    pose proof (Z.pow_pos_nonneg 10 (Z.of_nat n) ltac:(lia) ltac:(lia)). nia. }
  destruct (leading_value_exact dd Hd ltac:(lia)) as (v & Hv & Iv).
  destruct (short_way_ok v (dec_value dd) (len dd) (e + Z.of_nat n) Iv) as (v' & Hs & Hrv); [lia..|].
  exists v'. unfold digits_value. rewrite Hnd, Hy, Hz. cbv zeta. unfold bind, lift. rewrite Hv, Hs. split; [done|].
  rewrite mult_IZR, <- pow10_IZR, Rmult_assoc, <- tenpow_add by lia. by rewrite (Z.add_comm (Z.of_nat n)).
Qed.

Lemma binary_normalize_opp z e : 0 < z → binary_normalize 53 1024 (- z) e true = SFopp (binary_normalize 53 1024 z e false).
Proof.
  intros Hz. destruct z as [|m|m]; [lia| |lia]. change (- Z.pos m) with (Z.neg m). cbn [binary_normalize]. unfold binary_round.
  destruct (shl_align _ _ _) as [m' e']. apply binary_round_aux_opp.
Qed.

Lemma of_decimal_sign neg d e : 0 ≤ d → of_decimal neg d e = if neg then SFopp (of_decimal false d e) else of_decimal false d e.
Proof.
  intros Hd. destruct neg; [|done]. unfold of_decimal. destruct (Z.eqb_spec d 0) as [->|Hn]; [done|]. cbn [signed].
  destruct (Z.leb_spec 0 e) as [He|He].
  - apply binary_normalize_opp. pose proof (Z.pow_pos_nonneg 10 e ltac:(lia) He). nia.
  - cbv zeta. set (den := 10 ^ (- e)). set (kk := Z.max 0 _). assert (0 < den) as Hden by (apply Z.pow_pos_nonneg; lia).
    pose proof (Z.log2_spec d ltac:(lia)) as Hld. pose proof (Z.log2_spec den Hden) as Hlden.
    pose proof (Z.log2_nonneg d). pose proof (Z.log2_nonneg den).
    assert (0 < (d * 2 ^ kk) / den).
    { apply Z.div_str_pos. split; [done|]. assert (2 ^ Z.succ (Z.log2 den) ≤ 2 ^ Z.log2 d * 2 ^ kk).
      { rewrite <- Z.pow_add_r by lia. apply Z.pow_le_mono_r; lia. }
      assert (2 ^ Z.log2 d * 2 ^ kk ≤ d * 2 ^ kk) by (apply Z.mul_le_mono_nonneg_r; lia). lia. }
    apply binary_normalize_opp. destruct (_ mod _ =? 0); lia.
Qed.
(** For a numeral of up to 15 digits with a power of 10 up to the 22nd, [fpconv_strtod]
    of dtoa.c gives the same double, and ends at the same place, as the conversion of the
    C library, which rounds the numeral once to nearest even; it allocates nothing and
    leaves the cache of the powers of 5 alone. The numeral has the syntax of JSON, and an
    exponent of any number of digits up to 19999. *)
Theorem strtod_short p sgn ds frac ex e rest :
  numeral sgn ds frac ex e → ends rest →
  dec_value (ds ++ drop 1 frac) < 10 ^ 15 → -22 ≤ e - len (drop 1 frac) ≤ 22 →
  ∃ v, strtod 46 (sgn ++ ds ++ frac ++ ex ++ rest) = Some (v, rest) ∧
    fpconv_strtod (E:=E) (sgn ++ ds ++ frac ++ ex ++ rest) p = Done ((v, len (sgn ++ ds ++ frac ++ ex)), p, []).
Proof.
  intros Hn Hr HN He. eexists. split; [by apply numeral_strtod|].
  set (N := dec_value (ds ++ drop 1 frac)) in *. set (e' := e - len (drop 1 frac)) in *. set (neg := bool_decide (sgn = [45])).
  set (pos := len (sgn ++ ds ++ frac ++ ex)).
  destruct (numeral_step (E:=E) p _ sgn ds frac ex e rest (λ r p' ws, r = (of_decimal neg N e', pos) ∧ p' = p ∧ ws = []) Hn Hr eq_refl) as (r & p' & ws & -> & -> & -> & ->).
  - fold N neg pos. intros ->. done.
  - intros t dd e1 Ht. fold N e' in Ht. fold neg pos. destruct (digits_value_short p _ t dd e1 N e' Ht ltac:(lia) He) as (v & Hv & Hrv).
    exists v, p, []. split; [exact Hv|]. split; [|done]. f_equal. destruct Ht as (n & _ & Hd & Hl & _ & _ & _ & HNd & _).
    pose proof (leading_value_pos dd Hd Hl). pose proof (Z.pow_pos_nonneg 10 (Z.of_nat n) ltac:(lia) ltac:(lia)). assert (1 ≤ N) as HN1 by nia.
    rewrite (of_decimal_sign neg) by lia.
    assert (pow2 (-80) <= pow10 e' <= pow2 80)%R as Hpw.
    { pose proof (pow10_le e' 22 ltac:(lia)) as Hu. pose proof (pow10_le (-22) e' ltac:(lia)) as Hlo. pose proof (pow10_neg 22) as Hi. change (- (22)) with (-22) in Hi.
      pose proof (pow2_neg 80) as Hj. change (- (80)) with (-80) in Hj. assert (pow10 22 <= pow2 80)%R by (rewrite pow10_IZR, pow2_IZR by lia; apply IZR_le; lia).
      pose proof (pow10_pos 22). pose proof (pow10_pos (-22)). pose proof (pow2_pos 80). pose proof (pow2_pos (-80)). split; [|lra].
      assert (pow2 (-80) <= pow10 (-22))%R; [|lra]. apply Rnot_lt_le. intros Hlt.
      assert (pow10 22 * pow10 (-22) < pow10 22 * pow2 (-80))%R by (apply Rmult_lt_compat_l; lra).
      assert (pow10 22 * pow2 (-80) <= pow2 80 * pow2 (-80))%R by (apply Rmult_le_compat_r; lra). lra. }
    assert (1 <= IZR N < pow2 60)%R as HNr by (rewrite pow2_IZR by lia; split; [apply IZR_le|apply IZR_lt]; lia).
    pose proof (pow2_pos (-80)). pose proof (pow2_le (-1018) (-80) ltac:(lia)). pose proof (pow2_le (-1074) (-80) ltac:(lia)).
    pose proof (pow2_le (60 + 80) 1022 ltac:(lia)) as Hbig. rewrite pow2_add in Hbig.
    assert (v = of_decimal false N e') as ->; [|by destruct neg].
    apply (rounds_equal _ _ (IZR N * pow10 e')); [done| |nra]. apply of_decimal_ok; [lia|]. pose proof (pow2_pos 80). split; nra.
  - done.
Qed.

End short.

Lemma strtod_short_witness :
  ∃ v, strtod 46 (lit "-12.50e-3" ++ [0]) = Some (v, [0]) ∧
    fpconv_strtod (E:=Empty_set) (lit "-12.50e-3" ++ [0]) pool0 = Done ((v, 9), pool0, []).
Proof.
  destruct (strtod_short (E:=Empty_set) pool0 [45] (lit "12") (lit ".50") (lit "e-3") (-3) [0]) as (v & H1 & H2); [| |vm_compute; done|vm_compute; done|].
  - split; [by right|]. split; [apply (bool_decide_unpack _); by vm_compute|]. split; [right; exists 49, [50]; split; [done|lia]|]. split; [right; exists (lit "50"); split; [done|]; split; [done|apply (bool_decide_unpack _); by vm_compute]|].
    right. exists 101, [45], [51]. split; [done|]. split; [by left|]. split; [right; by right|]. split; [done|]. split; [apply (bool_decide_unpack _); by vm_compute|]. split; [done|].
    rewrite bool_decide_eq_true_2 by done. done.
  - done.
  - exists v. split; [exact H1|exact H2].
Defined.
End StrtodShort.
