(* ===== verification/StrtodWords.v ===== *)
(** * dtoa.c: words, units and quotients in [fpconv_strtod]

    What the tests of the correction see of a normal double [m * 2^e] in its words, the
    unit of its last place ([ulp]), the double in [1, 2) with the top bits of a big integer
    ([b2d]) and the quotient of two big integers up to five roundings ([ratio]); the big
    integer of the digits ([s2b]). *)
From Stdlib Require Import Reals Lra.
From S2P Require Import Prelude Libc Double DoubleSpec Bigint BigintSpec BigintOps Dtoa FloatSpec FloatOps FloatRound DtoaWords DtoaEstimate DtoaDigits DtoaBig DtoaScale Gethex Strtod StrtodScan StrtodShort.

Module StrtodWords.
Import Double DoubleSpec Bigint BigintSpec BigintOps Dtoa FloatSpec FloatOps FloatRound DtoaWords DtoaEstimate DtoaDigits DtoaErrors DtoaScale Gethex Strtod StrtodScan StrtodShort.

(** ** Words of a normal double *)
Definition normal_m (m : positive) : Prop := 2 ^ 52 ≤ Z.pos m < 2 ^ 53.
Definition dbl (m : positive) (e : Z) : double := S754_finite false m e.

Lemma dbl_good m e : normal_m m → -1074 ≤ e ≤ 971 → good (dbl m e).
Proof. intros Hm He. split; [done|]. apply double_ok_finite. by left. Qed.

Lemma dbl_val m e : val (dbl m e) = (IZR (Z.pos m) * pow2 e)%R.
Proof. done. Qed.

Section words.
Context (m : positive) (e : Z) (Hm : normal_m m) (He : -1074 ≤ e ≤ 971).

Lemma word0_dbl : word0 (dbl m e) = (e + 1074) * 2 ^ 20 + Z.pos m / 2 ^ 32 ∧ word1 (dbl m e) = Z.pos m mod 2 ^ 32 ∧ 2 ^ 20 ≤ Z.pos m / 2 ^ 32 < 2 ^ 21.
Proof.
  unfold normal_m in Hm. assert (double_ok (dbl m e)) as Hok by (by apply dbl_good).
  destruct (word0_normal m e ltac:(lia) Hok) as [H0 _]. destruct (word0_fields false m e Hok) as (_ & H1 & _).
  assert (field_f m = Z.pos m + (-1048576) * 2 ^ 32) as Hf by (unfold field_f; destruct (Z.ltb_spec (Z.pos m) (2 ^ 52)); lia).
  fold (dbl m e) in *. rewrite H0, H1, Hf, Z.div_add, Z.mod_add by lia. split; [lia|]. split; [done|].
  split; [apply Z.div_le_lower_bound; lia|apply Z.div_lt_upper_bound; lia].
Qed.

Lemma exp_mask_dbl : Z.land (word0 (dbl m e)) Exp_mask = (e + 1075) * Exp_msk1.
Proof.
  destruct word0_dbl as (Hw & _ & Hr). assert (0 ≤ word0 (dbl m e) < 2 ^ 31) as Hb by (rewrite Hw; lia).
  assert (Z.land (word0 (dbl m e)) Exp_mask = word0 (dbl m e) / 2 ^ 20 * 2 ^ 20) as ->.
  { change Exp_mask with (Z.shiftl (Z.ones 11) 20). rewrite <- Z.shiftr_div_pow2, <- Z.shiftl_mul_pow2 by lia.
    apply Z.bits_inj'. intros n Hn. rewrite Z.land_spec. destruct (Z.lt_ge_cases n 20) as [Hlt|Hge].
    - rewrite !(Z.shiftl_spec_low _ _ n) by lia. apply andb_false_r.
    - rewrite !Z.shiftl_spec, Z.shiftr_spec by lia. replace (n - 20 + 20) with n by lia. destruct (Z.lt_ge_cases (n - 20) 11).
      + rewrite Z.ones_spec_low by lia. apply andb_true_r.
      + rewrite Z.ones_spec_high, andb_false_r by lia. symmetry. apply Z.bits_above_log2; [lia|].
        destruct (decide (word0 (dbl m e) = 0)) as [->|]; [cbn; lia|]. apply Z.log2_lt_pow2; [lia|]. eapply Z.lt_le_trans; [apply Hb|]. apply Z.pow_le_mono_r; lia. }
  rewrite Hw, Z.add_comm, Z.div_add by lia. replace (Z.pos m / 2 ^ 32 / 2 ^ 20) with 1; [change Exp_msk1 with (2 ^ 20); lia|].
  apply (Z.div_unique _ _ _ (Z.pos m / 2 ^ 32 - 2 ^ 20)); [left|]; lia.
Qed.

Lemma exp_field_dbl : exp_field (dbl m e) = e + 1075.
Proof. unfold exp_field. rewrite exp_mask_dbl, Z.shiftr_div_pow2 by lia. change Exp_msk1 with (2 ^ 20). apply Z.div_mul. done. Qed.

Lemma bndry_dbl : Z.land (word0 (dbl m e)) 1048575 = Z.pos m / 2 ^ 32 - 2 ^ 20.
Proof.
  destruct word0_dbl as (Hw & _ & Hr). change 1048575 with (Z.ones 20). rewrite Z.land_ones, Hw, Z.add_comm, Z.mod_add by lia.
  symmetry. apply (Z.mod_unique _ _ 1); [left|]; lia.
Qed.

Lemma power_of_2_dbl : power_of_2 (dbl m e) = (Z.pos m =? 2 ^ 52).
Proof.
  unfold power_of_2, Bndry_mask. rewrite bndry_dbl. destruct word0_dbl as (_ & -> & Hr).
  pose proof (Z.div_mod (Z.pos m) (2 ^ 32) ltac:(lia)) as Hd. pose proof (Z.mod_pos_bound (Z.pos m) (2 ^ 32) ltac:(lia)).
  destruct (Z.eqb_spec (Z.pos m mod 2 ^ 32) 0), (Z.eqb_spec (Z.pos m / 2 ^ 32 - 2 ^ 20) 0), (Z.eqb_spec (Z.pos m) (2 ^ 52)); cbn [andb]; (done || lia).
Qed.

Lemma all_ones_dbl {E} scale : 107 ≤ e + 1075 → all_ones (E:=E) (dbl m e) scale = Done (Z.pos m =? 2 ^ 53 - 1).
Proof.
  intros Hf. unfold all_ones, Bndry_mask1. cbv zeta. rewrite bndry_dbl, exp_mask_dbl. unfold P.
  rewrite (proj2 (Z.leb_gt ((e + 1075) * Exp_msk1) _)) by (unfold Exp_msk1; lia). rewrite andb_false_r. destruct word0_dbl as (_ & -> & Hr).
  pose proof (Z.div_mod (Z.pos m) (2 ^ 32) ltac:(lia)) as Hd. pose proof (Z.mod_pos_bound (Z.pos m) (2 ^ 32) ltac:(lia)). unfold FFFFFFFF.
  destruct (Z.eqb_spec (Z.pos m / 2 ^ 32 - 2 ^ 20) 1048575), (Z.eqb_spec (Z.pos m mod 2 ^ 32) 4294967295), (Z.eqb_spec (Z.pos m) (2 ^ 53 - 1)); cbn [negb]; (done || lia).
Qed.

Lemma lsb_dbl : (Z.land (word1 (dbl m e)) 1 =? 0) = Z.even (Z.pos m).
Proof.
  destruct word0_dbl as (_ & -> & _). change 1 with (Z.ones 1). rewrite Z.land_ones by lia. change (2 ^ 1) with 2.
  pose proof (Z.div_mod (Z.pos m) (2 ^ 32) ltac:(lia)) as Hd. rewrite Hd at 2. rewrite Z.even_add, Z.even_mul. change (Z.even (2 ^ 32)) with true. cbn [orb].
  rewrite Zmod_even. destruct (Z.even (Z.pos m mod 2 ^ 32)); done.
Qed.

Lemma same_words_dbl w0 w1 : same_words (dbl m e) w0 w1 = true → (e + 1074) * 2 ^ 20 + Z.pos m / 2 ^ 32 = w0.
Proof. unfold same_words. destruct word0_dbl as (-> & _). by intros [?%Z.eqb_eq _]%andb_prop. Qed.
End words.
(** ** The unit of the last place *)
(** A double of its exponent and fraction. *)
Lemma of_words_dbl (n : positive) e w0 w1 :
  normal_m n → -1074 ≤ e ≤ 971 → w0 = (e + 1074) * 2 ^ 20 + Z.pos n / 2 ^ 32 → w1 = Z.pos n mod 2 ^ 32 → of_words w0 w1 = dbl n e.
Proof.
  intros Hn He -> ->. destruct (word0_dbl n e Hn He) as (H0 & H1 & Hr). unfold of_words. unfold normal_m in *.
  pose proof (Z.div_mod (Z.pos n) (2 ^ 32) ltac:(lia)) as Hd. pose proof (Z.mod_pos_bound (Z.pos n) (2 ^ 32) ltac:(lia)).
  rewrite !wrap_small by lia. pose proof (of_bits_fields false (e + 1075) (Z.pos n - 2 ^ 52) ltac:(lia) ltac:(lia)) as Hb.
  cbv iota in Hb. rewrite Z.add_0_l in Hb. rewrite (proj2 (Z.eqb_neq _ _)) in Hb by lia.
  replace (Z.pos n - 2 ^ 52 + 2 ^ 52) with (Z.pos n) in Hb by lia. replace (e + 1075 - 1075) with e in Hb by lia.
  cbv iota in Hb. unfold dbl. rewrite <- Hb. f_equal. lia.
Qed.

Definition p52 : positive := 4503599627370496.
Lemma p52_normal : normal_m p52.
Proof. done. Qed.
Lemma p52_val e : val (dbl p52 e) = pow2 (e + 52).
Proof. rewrite dbl_val, Z.add_comm, pow2_add, (pow2_IZR 52) by lia. done. Qed.

Section units.
Context (m : positive) (e : Z) (Hm : normal_m m) (He : -968 ≤ e ≤ 970).

Lemma ulp_dbl : ulp (dbl m e) = dbl p52 (e - 52) ∧ good (ulp (dbl m e)) ∧ val (ulp (dbl m e)) = pow2 e.
Proof.
  assert (ulp (dbl m e) = dbl p52 (e - 52)) as ->.
  { unfold ulp, P. rewrite exp_mask_dbl by (done || lia). apply of_words_dbl; [apply p52_normal|lia| |done].
    change Exp_msk1 with (2 ^ 20). change (Z.pos p52 / 2 ^ 32) with (2 ^ 20). lia. }
  split; [done|]. split; [apply dbl_good; [apply p52_normal|lia]|]. rewrite p52_val. f_equal. lia.
Qed.

Lemma sulp_dbl scale : sulp (dbl m e) scale = ulp (dbl m e).
Proof.
  unfold sulp. cbv zeta. rewrite exp_field_dbl by (done || lia). unfold P. rewrite (proj2 (Z.leb_le (2 * 53 + 1 - (e + 1075)) 0)) by lia.
  by rewrite orb_true_r.
Qed.

(** A sum that is a double. *)
Lemma step_exact x (n : positive) e' :
  good x → normal_m n → -1074 ≤ e' ≤ 970 → (val (dbl m e) + val x = val (dbl n e'))%R → fadd (dbl m e) x = dbl n e'.
Proof.
  intros Gx Hn He' Hv. assert (good (dbl m e)) as Gv by (apply dbl_good; [done|lia]). assert (good (dbl n e')) as Gn by (apply dbl_good; [done|lia]).
  assert (Rabs (val (dbl n e')) < pow2 1023)%R as Hb.
  { rewrite dbl_val. pose proof (pow2_pos e'). unfold normal_m in Hn. assert (0 < IZR (Z.pos n) < pow2 53)%R as [? ?] by (rewrite pow2_IZR by lia; split; apply IZR_lt; lia).
    rewrite Rabs_pos_eq by nra. pose proof (pow2_le (53 + e') 1023 ltac:(lia)) as Hle. rewrite pow2_add in Hle. nra. }
  rewrite <- Hv in Hb. pose proof (fadd_ok (dbl m e) x Gv Gx Hb) as Hr. rewrite Hv in Hr.
  apply (rounds_equal _ _ (val (dbl n e'))); [exact Hr|by apply rounds_self|].
  rewrite dbl_val. unfold normal_m in Hn. assert (1 <= IZR (Z.pos n))%R by (apply IZR_le; lia). pose proof (pow2_le (-1074) e' ltac:(lia)). pose proof (pow2_pos e'). nra.
Qed.

Lemma opp_ulp : fsub (dbl m e) (ulp (dbl m e)) = fadd (dbl m e) (SFopp (ulp (dbl m e))).
Proof. destruct ulp_dbl as (-> & _). done. Qed.

(** The neighbours in the same binade, and the powers of 2 at its ends. *)
Lemma next_up : Z.pos m < 2 ^ 53 - 1 → fadd (dbl m e) (ulp (dbl m e)) = dbl (m + 1) e ∧ normal_m (m + 1).
Proof.
  intros Hlt. unfold normal_m in *. assert (normal_m (m + 1)) as Hn by (unfold normal_m; lia). split; [|done].
  destruct ulp_dbl as (_ & Gu & Vu). apply step_exact; [done|done|lia|]. rewrite Vu, !dbl_val, Pos2Z.inj_add, plus_IZR. lra.
Qed.
Lemma next_power : Z.pos m = 2 ^ 53 - 1 → e ≤ 969 → fadd (dbl m e) (ulp (dbl m e)) = dbl p52 (e + 1).
Proof.
  intros Heq He1. destruct ulp_dbl as (_ & Gu & Vu). apply step_exact; [done|apply p52_normal|lia|].
  rewrite Vu, p52_val, dbl_val, Heq. replace (e + 1 + 52) with (53 + e) by lia. rewrite pow2_add, (pow2_IZR 53) by lia. rewrite minus_IZR. lra.
Qed.
Lemma next_down : 2 ^ 52 < Z.pos m → fsub (dbl m e) (ulp (dbl m e)) = dbl (m - 1) e ∧ normal_m (m - 1).
Proof.
  intros Hlt. unfold normal_m in *. assert (normal_m (m - 1)) as Hn by (unfold normal_m; lia). split; [|done].
  destruct ulp_dbl as (_ & Gu & Vu). rewrite opp_ulp. apply step_exact; [destruct Gu; split; by destruct (ulp _)|done|lia|].
  rewrite val_opp, Vu, !dbl_val, Pos2Z.inj_sub, minus_IZR by lia. lra.
Qed.
End units.
(** ** The top bits of a big integer *)
Lemma lor_low a r n : 0 ≤ n → 0 ≤ r < 2 ^ n → Z.lor (a * 2 ^ n) r = a * 2 ^ n + r.
Proof. intros Hn Hr. rewrite <- Z.shiftl_mul_pow2 by done. rewrite lor_shiftl_add by done. by rewrite Z.shiftl_mul_pow2. Qed.

Lemma lor_exp v : 2 ^ 20 ≤ v < 2 ^ 21 → Z.lor Exp_1 v = 1022 * 2 ^ 20 + v.
Proof.
  intros Hv. replace v with (1 * 2 ^ 20 + (v - 2 ^ 20)) at 1 by lia. rewrite <- lor_low by lia. rewrite Z.lor_assoc.
  change (Z.lor Exp_1 (1 * 2 ^ 20)) with (1023 * 2 ^ 20). rewrite lor_low; lia.
Qed.

(** A shifted pair of words. *)
Lemma shifted_pair y z n :
  0 ≤ y → 0 ≤ z < 2 ^ 32 → 0 < n < 32 →
  Z.lor (u32 (Z.shiftl y n)) (Z.shiftr z (32 - n)) = (y * 2 ^ n + z / 2 ^ (32 - n)) mod 2 ^ 32 ∧
  0 ≤ z / 2 ^ (32 - n) < 2 ^ n.
Proof.
  intros Hy Hz Hn. assert (2 ^ 32 = 2 ^ n * 2 ^ (32 - n)) as H32 by (rewrite <- Z.pow_add_r by lia; f_equal; lia).
  pose proof (Z.pow_pos_nonneg 2 n ltac:(lia) ltac:(lia)). pose proof (Z.pow_pos_nonneg 2 (32 - n) ltac:(lia) ltac:(lia)).
  assert (0 ≤ z / 2 ^ (32 - n) < 2 ^ n) as Hq by (split; [apply Z.div_pos; lia|apply Z.div_lt_upper_bound; lia]). split; [|done].
  rewrite Z.shiftl_mul_pow2, Z.shiftr_div_pow2 by lia. unfold wrap. set (q := z / 2 ^ (32 - n)) in *.
  assert ((y * 2 ^ n) mod 2 ^ 32 = (y mod 2 ^ (32 - n)) * 2 ^ n) as -> by (rewrite H32, (Z.mul_comm (2 ^ n)); apply Z.mul_mod_distr_r; lia).
  rewrite lor_low by lia. pose proof (Z.mod_pos_bound y (2 ^ (32 - n)) ltac:(lia)). pose proof (Z.div_mod y (2 ^ (32 - n)) ltac:(lia)) as Hd.
  apply (Z.mod_unique _ _ (y / 2 ^ (32 - n))); [left; nia|]. rewrite H32. rewrite Hd at 1. ring.
Qed.

Lemma word_at ws j : words_ok ws → (j < length ws)%nat → ws !! j = Some ((value ws / W ^ Z.of_nat j) mod W).
Proof.
  intros Hws. revert j. induction Hws as [|w ws Hw Hws IH]; intros j Hj; [cbn in Hj; lia|]. unfold word_ok in Hw. destruct j as [|j].
  - change (W ^ Z.of_nat 0) with 1. rewrite Z.div_1_r. cbn [value lookup list_lookup]. f_equal. rewrite Z.mul_comm, Z.mod_add by lia. by rewrite Z.mod_small by lia.
  - cbn [length] in Hj. change ((w :: ws) !! S j) with (ws !! j). rewrite (IH j) by lia. rewrite size_S. cbn [value]. pose proof (size_pos j).
    rewrite <- Z.div_div by lia. rewrite (Z.mul_comm W (value ws)), Z.div_add by lia. by rewrite (Z.div_small w) by lia.
Qed.

Lemma read_word {E} ws rest i : words_ok ws → 0 ≤ i < len ws → rdw (E:=E) ((Some <$> ws) ++ rest) i = Done ((value ws / W ^ i) mod W).
Proof.
  intros Hws Hi. pose proof (word_at ws (Z.to_nat i) Hws ltac:(lia)) as Hw. rewrite Z2Nat.id in Hw by lia.
  unfold rdw, rd. rewrite <- (Z2Nat.id i) at 1 by lia. rewrite zget_of_nat, lookup_app_l by (rewrite length_fmap; lia). by rewrite list_lookup_fmap, Hw.
Qed.

(** The three highest words, missing ones as 0: the number from the third highest on. *)
Definition top3 (v n : Z) : Z := if 3 <=? n then v / W ^ (n - 3) else v * W ^ (3 - n).

Lemma top3_words {E} ws rest :
  words_ok ws → BigintSpec.normal ws →
  let word i := if 0 <=? i then rdw (E:=E) ((Some <$> ws) ++ rest) i else Done 0 in
  ∃ y z y', rdw (E:=E) ((Some <$> ws) ++ rest) (len ws - 1) = Done y ∧ word (len ws - 2) = Done z ∧ word (len ws - 3) = Done y' ∧
    0 < y < W ∧ word_ok z ∧ word_ok y' ∧ top3 (value ws) (len ws) = (y * W + z) * W + y'.
Proof.
  intros Hws Hn. cbv zeta. pose proof (normal_nonnil ws Hn) as H1. pose proof (normal_bound ws Hws Hn) as Hlo. pose proof (value_range ws Hws) as [_ Hhi].
  set (v := value ws) in *. set (n := len ws) in *. assert (1 ≤ n) as Hn1 by lia.
  assert (W ^ n = W ^ (n - 1) * W) as HWn by (replace n with (n - 1 + 1) at 1 by lia; rewrite Z.pow_add_r by lia; done).
  pose proof (Z.pow_pos_nonneg W (n - 1) ltac:(lia) ltac:(lia)) as Hp.
  set (y := v / W ^ (n - 1)). assert (0 < y < W) as Hy.
  { unfold y. split; [apply Z.div_str_pos; lia|apply Z.div_lt_upper_bound; lia]. }
  exists y. rewrite read_word by (done || lia). fold v y. rewrite (Z.mod_small y) by lia.
  assert (∀ i, 0 ≤ i → v / W ^ i = v / W ^ (i + 1) * W + (v / W ^ i) mod W) as Hstep.
  { intros i Hi. pose proof (Z.pow_pos_nonneg W i ltac:(lia) Hi). rewrite Z.pow_add_r, <- Z.div_div by lia. change (W ^ 1) with W.
    rewrite (Z.mul_comm _ W). apply Z.div_mod. lia. }
  unfold top3. destruct (Z.leb_spec 0 (n - 2)) as [H2|H2]; [rewrite read_word by (done || lia); fold v|].
  - exists ((v / W ^ (n - 2)) mod W). pose proof (Hstep (n - 2) H2) as Hs2. replace (n - 2 + 1) with (n - 1) in Hs2 by lia. fold y in Hs2.
    destruct (Z.leb_spec 0 (n - 3)) as [H3|H3]; [rewrite read_word by (done || lia); fold v|].
    + exists ((v / W ^ (n - 3)) mod W). pose proof (Hstep (n - 3) H3) as Hs3. replace (n - 3 + 1) with (n - 2) in Hs3 by lia.
      do 3 (split; [done|]). split; [done|]. split; [apply word_mod|]. split; [apply word_mod|]. rewrite (proj2 (Z.leb_le 3 n)) by lia. lia.
    + exists 0. do 3 (split; [done|]). split; [done|]. split; [apply word_mod|]. split; [done|]. rewrite (proj2 (Z.leb_gt 3 n)) by lia.
      assert (n = 2) as -> by lia. change (2 - 2) with 0 in Hs2. rewrite Z.pow_0_r, Z.div_1_r in Hs2. change (3 - 2) with 1. rewrite Z.pow_1_r, Z.add_0_r. change (2 - 2) with 0. rewrite Z.pow_0_r, Z.div_1_r. by rewrite <- Hs2.
  - exists 0, 0. rewrite (proj2 (Z.leb_gt 0 (n - 3))), (proj2 (Z.leb_gt 3 n)) by lia. do 3 (split; [done|]). split; [done|]. split; [done|]. split; [done|].
    assert (n = 1) as Hn1' by lia. unfold y. rewrite Hn1'. change (1 - 1) with 0. rewrite Z.pow_0_r, Z.div_1_r. change (W ^ (3 - 1)) with (W * W). ring.
Qed.
Lemma div_pair a b n : 0 ≤ n ≤ 32 → (a * W + b) / 2 ^ (32 - n) = a * 2 ^ n + b / 2 ^ (32 - n).
Proof.
  intros Hn. assert (W = 2 ^ n * 2 ^ (32 - n)) as HW by (rewrite <- Z.pow_add_r by lia; replace (n + (32 - n)) with 32 by lia; done).
  pose proof (Z.pow_pos_nonneg 2 (32 - n) ltac:(lia) ltac:(lia)). rewrite HW, Z.mul_assoc, Z.div_add_l by lia. done.
Qed.

(** The 53 bits from the highest one on. *)
Lemma top_bits y z y' n :
  0 < y < W → word_ok z → word_ok y' → n = hi0bits y →
  let M := ((y * W + z) * W + y') / 2 ^ (43 - n) in 0 ≤ n ≤ 31 ∧ 2 ^ 52 ≤ M < 2 ^ 53.
Proof.
  intros Hy Hz Hy' ->. rewrite hi0bits_spec by lia. unfold word_ok in *. pose proof (Z.log2_spec y ltac:(lia)) as Hl. pose proof (Z.log2_nonneg y).
  assert (Z.log2 y < 32) by (apply Z.log2_lt_pow2; lia). set (l := Z.log2 y) in *. cbv zeta. split; [lia|].
  replace (43 - (31 - l)) with (12 + l) by lia. pose proof (Z.pow_pos_nonneg 2 l ltac:(lia) ltac:(lia)). rewrite Z.pow_succ_r in Hl by lia.
  rewrite !(Z.pow_add_r 2 12) by lia. split; [apply Z.div_le_lower_bound|apply Z.div_lt_upper_bound]; nia.
Qed.

Section ratio.
Context {E : Type}.

Lemma b2d_words a ws :
  holds a ws → BigintSpec.normal ws →
  ∃ (p : positive) n, b2d (E:=E) a = Done (dbl p (-52), 32 - n) ∧ normal_m p ∧ 0 ≤ n ≤ 31 ∧ 32 * len ws - n = Z.log2 (value ws) + 1 ∧
    Z.pos p = top3 (value ws) (len ws) / 2 ^ (43 - n).
Proof.
  intros (_ & Hw & Hws & rest & Hx) Hn. destruct (top3_words (E:=E) ws rest Hws Hn) as (y & z & y' & Hry & Hrz & Hry' & Hy & Hz & Hy' & HT).
  unfold b2d. rewrite Hw, Hx, Hry. cbn [obind]. set (n := hi0bits y).
  destruct (top_bits y z y' n Hy Hz Hy' eq_refl) as [Hn31 HM]. rewrite HT. set (M := _ / 2 ^ (43 - n)) in *.
  assert (∃ p, Z.pos p = M) as [p Hp] by (destruct M as [|p|p]; [lia|by exists p|lia]). exists p, n.
  assert (normal_m p) as Hpn by (unfold normal_m; lia).
  assert (32 * len ws - n = Z.log2 (value ws) + 1) as Hbits.
  { destruct (bits_of_value (E:=E) ws Hws Hn) as (top & Htop & Hb). destruct (rdw (E:=E) ((Some <$> ws) ++ rest) (len ws - 1)) eqn:Hr; try done.
    pose proof (normal_nonnil ws Hn) as H1. pose proof (read_word (E:=E) ws [] (len ws - 1) Hws ltac:(lia)) as Hr1. rewrite app_nil_r in Hr1.
    pose proof (read_word (E:=E) ws rest (len ws - 1) Hws ltac:(lia)) as Hr2. rewrite Htop in Hr1. rewrite Hr2 in Hr. injection Hr1 as ->. injection Hr as Ha. rewrite Ha in Hb. injection Hry as ->. done. }
  split; [|by split; [|split; [|split]]].
  assert (M / 2 ^ 32 = (y * W + z) / 2 ^ (43 - n) ∧ 2 ^ 20 ≤ M / 2 ^ 32 < 2 ^ 21) as [HM32 HMr].
  { split; [|split; [apply Z.div_le_lower_bound|apply Z.div_lt_upper_bound]; lia]. unfold M. pose proof (Z.pow_pos_nonneg 2 (43 - n) ltac:(lia) ltac:(lia)).
    rewrite Z.div_div, (Z.mul_comm (2 ^ (43 - n)) (2 ^ 32)), <- Z.div_div by lia. change (2 ^ 32) with W. unfold word_ok in Hy'. rewrite Z.div_add_l, (Z.div_small y'), Z.add_0_r by lia. done. }
  assert (∀ w0 w1, w0 = 1022 * 2 ^ 20 + M / 2 ^ 32 → w1 = M mod 2 ^ 32 → of_words w0 w1 = dbl p (-52)) as Hof.
  { intros w0 w1 -> ->. rewrite <- Hp. by apply of_words_dbl; [|lia|lia|]. }
  unfold word_ok in *. unfold Ebits. destruct (Z.ltb_spec n 11) as [H11|H11].
  - rewrite Hrz. cbn [obind]. do 2 f_equal. apply Hof.
    + rewrite Z.shiftr_div_pow2 by lia. assert (y / 2 ^ (11 - n) = M / 2 ^ 32) as ->; [|by apply lor_exp].
      rewrite HM32. replace (43 - n) with (32 + (11 - n)) by lia. rewrite Z.pow_add_r by lia. pose proof (Z.pow_pos_nonneg 2 (11 - n) ltac:(lia) ltac:(lia)).
      rewrite <- Z.div_div by lia. change (2 ^ 32) with W. by rewrite Z.div_add_l, (Z.div_small z), Z.add_0_r by lia.
    + replace (32 - 11 + n) with (21 + n) by lia. replace (11 - n) with (32 - (21 + n)) by lia. destruct (shifted_pair y z (21 + n)) as [-> _]; [lia..|].
      rewrite <- div_pair by lia. f_equal. unfold M. replace (43 - n) with (32 + (32 - (21 + n))) by lia. rewrite (Z.pow_add_r 2 32) by lia.
      pose proof (Z.pow_pos_nonneg 2 (32 - (21 + n)) ltac:(lia) ltac:(lia)). rewrite <- Z.div_div by lia. change (2 ^ 32) with W. by rewrite Z.div_add_l, (Z.div_small y'), Z.add_0_r by lia.
  - rewrite Hrz. cbn [obind]. cbv zeta. set (m := n - 11). destruct (Z.eqb_spec m 0) as [Hm0|Hm0].
    + do 2 f_equal. unfold m in Hm0. assert (n = 11) as Hn' by lia. rewrite Hn' in *. change (43 - 11) with 32 in *. change (2 ^ 32) with W in *.
      assert (M = y * W + z) as HMv by (unfold M; rewrite Hn'; change (2 ^ (43 - 11)) with W; rewrite Z.div_add_l, (Z.div_small y') by lia; lia).
      assert (M / W = y) as HMd by (rewrite HM32, Z.div_add_l, (Z.div_small z) by lia; lia).
      apply Hof; [rewrite lor_exp; lia|]. rewrite HMv, Z.add_comm, Z.mod_add, Z.mod_small; lia.
    + rewrite Hry'. cbn [obind]. do 2 f_equal. assert (43 - n = 32 - m) as H43 by (unfold m; lia). rewrite H43 in *. assert (0 < m < 32) by (unfold m in *; lia). apply Hof.
      * destruct (shifted_pair y z m) as [-> _]; [lia..|]. rewrite <- div_pair, <- HM32, Z.mod_small by lia. by apply lor_exp.
      * destruct (shifted_pair z y' m) as [-> _]; [lia..|]. unfold M. rewrite H43, div_pair by lia. set (q := y' / 2 ^ (32 - m)).
        replace ((y * W + z) * 2 ^ m + q) with (z * 2 ^ m + q + y * 2 ^ m * 2 ^ 32) by (change (2 ^ 32) with W; ring).
        by rewrite Z.mod_add by lia.
Qed.
Lemma b2d_spec a v :
  big a v →
  ∃ p ka, b2d (E:=E) a = Done (dbl p (-52), ka) ∧ normal_m p ∧ ka + 32 * wds a = Z.log2 v + 33 ∧
    within 2 (val (dbl p (-52))) (IZR v * pow2 (- Z.log2 v)).
Proof.
  intros (ws & Hh & Hn & <-). destruct (b2d_words a ws Hh Hn) as (p & n & Hb & Hp & Hn31 & Hbits & HM). exists p, (32 - n).
  split; [done|]. split; [done|]. pose proof Hh as (_ & Hw & Hws & _). split; [rewrite Hw; lia|].
  pose proof (normal_nonnil ws Hn) as H1. set (v := value ws) in *. set (l := Z.log2 v) in *. assert (0 ≤ v) as Hv by apply (value_range ws Hws).
  assert (IZR (Z.pos p) * pow2 (l - 52) <= IZR v < (IZR (Z.pos p) + 1) * pow2 (l - 52))%R as [Hlo Hhi].
  { set (T := top3 v (len ws)) in *. pose proof (Z.pow_pos_nonneg 2 (43 - n) ltac:(lia) ltac:(lia)) as Hpn.
    pose proof (Z.div_mod T (2 ^ (43 - n)) ltac:(lia)) as Hd. pose proof (Z.mod_pos_bound T (2 ^ (43 - n)) ltac:(lia)). rewrite <- HM in Hd.
    unfold T, top3 in *. destruct (Z.leb_spec 3 (len ws)) as [H3|H3].
    - set (k1 := len ws - 3) in *. pose proof (Z.pow_pos_nonneg W k1 ltac:(lia) ltac:(unfold k1; lia)) as HpW. pose proof (Z.div_mod v (W ^ k1) ltac:(lia)) as Hd2.
      pose proof (Z.mod_pos_bound v (W ^ k1) ltac:(lia)).
      assert (pow2 (l - 52) = IZR (2 ^ (43 - n) * W ^ k1)) as ->.
      { change W with (2 ^ 32). rewrite <- Z.pow_mul_r, <- Z.pow_add_r by (unfold k1; lia). rewrite <- pow2_IZR by (unfold k1; lia). f_equal. unfold k1. lia. }
      rewrite <- (plus_IZR _ 1), <- !mult_IZR. split; [apply IZR_le|apply IZR_lt]; nia.
    - set (k1 := 3 - len ws) in *. pose proof (Z.pow_pos_nonneg W k1 ltac:(lia) ltac:(unfold k1; lia)) as HpW.
      assert (pow2 (l - 52) * IZR (W ^ k1) = IZR (2 ^ (43 - n)))%R as Hl.
      { change W with (2 ^ 32). rewrite <- Z.pow_mul_r, <- !pow2_IZR, <- pow2_add by (unfold k1; lia). f_equal. unfold k1. lia. }
      apply IZR_lt in HpW as HpW'. split; [apply Rmult_le_reg_r with (IZR (W ^ k1))|apply Rmult_lt_reg_r with (IZR (W ^ k1))]; try done;
        rewrite Rmult_assoc, Hl, <- ?(plus_IZR _ 1), <- !mult_IZR; [apply IZR_le|apply IZR_lt]; lia. }
  pose proof (pow2_pos (- l)) as Hpl. rewrite dbl_val. assert (pow2 (l - 52) * pow2 (- l) = pow2 (-52))%R as Hpp by (rewrite <- pow2_add; f_equal; lia).
  apply Rmult_le_compat_r with (r := pow2 (- l)) in Hlo; [|lra]. apply Rmult_lt_compat_r with (r := pow2 (- l)) in Hhi; [|done].
  rewrite Rmult_assoc, Hpp in Hlo, Hhi. set (x := (IZR v * pow2 (- l))%R) in *. set (q := IZR (Z.pos p)) in *.
  assert (pow2 52 <= q)%R as Hq by (rewrite pow2_IZR by lia; apply IZR_le; apply Hp).
  pose proof (pow2_pos (-52)) as Hp5. pose proof (pow2_pos 52). pose proof growth_range as [Hg1 _]. pose proof eps_range. pose proof growth_eq.
  assert (pow2 (-52) = 2 * eps)%R as He by (unfold eps; rewrite <- pow2_S; f_equal; lia).
  assert (1 + eps <= growth)%R as Hg by nra.
  assert (pow2 (-52) <= q * pow2 (-52) * (2 * eps))%R as Hstep.
  { rewrite <- He. assert (1 <= q * pow2 (-52))%R; [|nra]. pose proof (pow2_neg 52) as Hi. change (- (52)) with (-52) in Hi. nra. }
  split; [nra|]. cbn [pow]. rewrite Rmult_1_r. assert (0 < q * pow2 (-52))%R by nra. assert (1 <= growth * growth)%R by nra. split; [|nra]. set (d := (q * pow2 (-52))%R) in *.
  assert (0 < d)%R by (unfold d; nra). assert (x <= d * (1 + 2 * eps))%R by (unfold d in *; lra).
  assert (1 + 2 * eps <= growth * growth)%R by nra. nra.
Qed.

(** A double with the exponent changed. *)
Lemma shift_up (p : positive) e j :
  normal_m p → -1074 ≤ e ≤ 971 → -1074 ≤ e + j ≤ 971 →
  set_word0 (word0 (dbl p e) + j * Exp_msk1) (dbl p e) = dbl p (e + j).
Proof.
  intros Hp He Hej. pose proof (dbl_good p e Hp He) as [_ Hok]. unfold normal_m in Hp. destruct (word0_normal p e ltac:(lia) Hok) as [Hw Hr].
  apply set_exponent; [lia|done|lia|]. fold (dbl p e) in Hw. unfold dbl in *. rewrite Hw. change Exp_msk1 with (2 ^ 20). rewrite wrap_small; lia.
Qed.

Lemma ratio_spec a b v w :
  big a v → big b w → Z.abs (Z.log2 v - Z.log2 w) ≤ 900 →
  ∃ q, ratio (E:=E) a b = Done q ∧ good q ∧ within 5 (val q) (IZR v / IZR w).
Proof.
  intros Ha Hb Hl. destruct (b2d_spec a v Ha) as (p & ka & Hra & Hp & Hka & Hwa). destruct (b2d_spec b w Hb) as (p' & kb & Hrb & Hp' & Hkb & Hwb).
  unfold ratio. rewrite Hra. cbn [obind]. rewrite Hrb. cbn [obind]. clear Hra Hrb.
  replace (ka - kb + 32 * (wds a - wds b)) with (Z.log2 v - Z.log2 w) by lia. set (kk := Z.log2 v - Z.log2 w) in *.
  pose proof (big_pos a v Ha) as Hv. pose proof (big_pos b w Hb) as Hw. apply IZR_lt in Hv, Hw.
  assert (IZR v / IZR w = IZR v * pow2 (- Z.log2 v) * pow2 kk / (IZR w * pow2 (- Z.log2 w)))%R as Heq.
  { assert (pow2 (- Z.log2 v) * pow2 kk = pow2 (- Z.log2 w))%R as <- by (rewrite <- pow2_add; f_equal; unfold kk; lia).
    pose proof (pow2_pos (- Z.log2 v)). pose proof (pow2_pos kk). field. lra. }
  assert (∀ (q : positive) j, val (dbl q (-52 + j)) = val (dbl q (-52)) * pow2 j)%R as Hsh.
  { intros q j. rewrite !dbl_val, pow2_add. ring. }
  assert (∀ q, normal_m q → 1 <= val (dbl q (-52)) < 2)%R as Hone.
  { intros q Hq. rewrite dbl_val. pose proof (pow2_neg 52) as Hi. change (- (52)) with (-52) in Hi. pose proof (pow2_pos (-52)).
    assert (pow2 52 <= IZR (Z.pos q) < 2 * pow2 52)%R by (rewrite <- pow2_S, !pow2_IZR by lia; unfold normal_m in Hq; split; [apply IZR_le|apply IZR_lt]; lia). nra. }
  pose proof (Hone p Hp) as H1. pose proof (Hone p' Hp') as H2. set (d := val (dbl p (-52))) in *. set (d' := val (dbl p' (-52))) in *.
  pose proof (within_scale _ _ _ _ (pow2_pos kk) Hwa) as Hws. pose proof (within_div _ _ _ _ _ _ Hws Hwb) as Hdiv. rewrite <- Heq in Hdiv.
  assert (pow2 (-902) <= d * pow2 kk / d' < pow2 902)%R as Hrange.
  { pose proof (pow2_le (-901) kk ltac:(lia)). pose proof (pow2_le kk 901 ltac:(lia)). pose proof (pow2_pos kk).
    pose proof (pow2_S (-902)) as Hs1. pose proof (pow2_S 901) as Hs2. change (-902 + 1) with (-901) in Hs1. change (901 + 1) with 902 in Hs2.
    split; [apply Rmult_le_reg_r with d'|apply Rmult_lt_reg_r with d']; try lra; unfold Rdiv; rewrite Rmult_assoc, Rinv_l, Rmult_1_r by lra; nra. }
  pose proof (pow2_le (-1022) (-902) ltac:(lia)). pose proof (pow2_lt 902 1023 ltac:(lia)).
  assert (∀ x y, good x → good y → (0 < val x)%R → (0 < val y)%R → (val x / val y = d * pow2 kk / d')%R →
    ∃ q, Done (E:=E) (fdiv x y) = Done q ∧ good q ∧ within 5 (val q) (IZR v / IZR w)) as Hend.
  { intros x y Gx Gy Hx Hy Hxy. eexists. split; [done|]. destruct (fdiv_within x y Gx Gy Hx Hy) as [G Hw1]; [rewrite Hxy; lra|].
    split; [done|]. rewrite Hxy in Hw1. exact (within_trans _ _ _ _ _ Hdiv Hw1). }
  pose proof (pow2_pos kk). destruct (Z.ltb_spec 0 kk).
  - rewrite (shift_up p (-52) kk) by (done || lia). apply Hend; [apply dbl_good; (done || lia)|apply dbl_good; (done || lia)|rewrite Hsh; unfold d in *; nra|unfold d' in *; lra|by rewrite Hsh].
  - assert (word0 (dbl p' (-52)) - kk * Exp_msk1 = word0 (dbl p' (-52)) + - kk * Exp_msk1) as -> by lia. rewrite (shift_up p' (-52) (- kk)) by (done || lia).
    pose proof (pow2_pos (- kk)). apply Hend; [apply dbl_good; (done || lia)|apply dbl_good; (done || lia)|unfold d in *; lra|rewrite Hsh; unfold d' in *; nra|].
    rewrite Hsh. fold d d'. rewrite <- pow2_inv. field. lra.
Qed.
End ratio.
(** ** The digits as a big integer *)
Section s2b.
Context {E : Type}.

Lemma dec_value_cons c ds : dec_value (c :: ds) = (c - 48) * 10 ^ len ds + dec_value ds.
Proof. change (c :: ds) with ([c] ++ ds). rewrite dec_value_app. unfold dec_value at 1. cbn [foldl]. lia. Qed.

Lemma s2b_loop_spec p ds b s pos v :
  pool_ok p → (∀ (j : nat) d, ds !! j = Some d → zget s (pos + Z.of_nat j) = Some d) → digits_ok ds → big b v →
  (v + 1) * 10 ^ len ds ≤ 10 ^ 40 →
  run (s2b_loop (E:=E) (length ds) b s pos) p 0 (same (λ b', big b' (v * 10 ^ len ds + dec_value ds)) p).
Proof.
  intros Hp Hat Hds. revert p b v pos Hp Hat. induction Hds as [|c ds Hc Hds IH]; intros p b v pos Hp Hat Hb Hv; cbn [length s2b_loop].
  - apply run_ret; [done|]. split; [|done]. change (dec_value []) with 0. change (10 ^ Z.of_nat 0) with 1. by replace (v * 1 + 0) with v by lia.
  - apply run_lift. pose proof (Hat O c eq_refl) as H0. rewrite Z.add_0_r in H0. rewrite (rd_done _ _ _ H0). apply returns_done.
    cbn [length] in Hv. rewrite Nat2Z.inj_succ, Z.pow_succ_r in Hv |- * by lia. pose proof (big_pos b v Hb).
    pose proof (Z.pow_pos_nonneg 10 (len ds) ltac:(lia) ltac:(lia)).
    eapply (run_bind _ _ _ 0); [apply (multadd_spec p b v 10 (c - 48)); [done|done|lia|lia|]|].
    { apply Z.le_lt_trans with (10 ^ 40); [nia|done]. }
    intros b1 p1 Hp1 [Hb1 Hpp]. eapply run_mono; [apply (IH p1 b1 (v * 10 + (c - 48)) (pos + 1))|]; try done.
    + intros j d Hj. rewrite <- (Hat (S j) d Hj). f_equal. lia.
    + nia.
    + intros b2 p2 [Hb2 Hp2]. split; [|by rewrite Hp2]. rewrite dec_value_cons. replace (v * (10 * 10 ^ len ds) + _) with ((v * 10 + (c - 48)) * 10 ^ len ds + dec_value ds) by ring. done.
Qed.

Lemma s2b_size_small n : 1 ≤ n ≤ 5 → 0 ≤ s2b_size 31 n 1 0 ≤ Kmax.
Proof. intros Hn. assert (n = 1 ∨ n = 2 ∨ n = 3 ∨ n = 4 ∨ n = 5) as [->|[->|[->|[->| ->]]]] by lia; by vm_compute. Qed.

Lemma pow10_mono a b : 0 ≤ a ≤ b → 10 ^ a ≤ 10 ^ b.
Proof. intros. apply Z.pow_le_mono_r; lia. Qed.

Lemma s2b_spec p s dd nd0 dplen :
  pool_ok p → digits_at s dd nd0 dplen → digits_ok dd → leading dd → len dd ≤ 40 → 0 ≤ nd0 ≤ len dd →
  run (s2b (E:=E) s nd0 (len dd) (first9 dd) dplen) p 1 (same (λ b, big b (dec_value dd)) p).
Proof.
  intros Hp Hat Hds Hl H40 Hn0. unfold s2b. assert (1 ≤ len dd) as H1 by (destruct Hl as (? & ? & -> & _); cbn [length]; lia).
  rewrite Z.quot_div_nonneg by lia. assert (1 ≤ (len dd + 8) / 9 ≤ 5) as Hq.
  { split; [apply Z.div_le_lower_bound; lia|]. assert ((len dd + 8) / 9 < 6); [|lia]. apply Z.div_lt_upper_bound; lia. }
  eapply run_bind; [apply Balloc_spec; [done|by apply s2b_size_small]|]. intros b p1 Hp1 [[Hb _] Hpp]. apply run_lift.
  pose proof (dec_value_take dd 9 Hds) as Hf. change (dec_value (take 9 dd)) with (first9 dd) in Hf.
  destruct (first_word (E:=E) b (first9 dd) Hb) as (xs & -> & Hh); [unfold word_ok; lia|]. apply returns_done. set (b1 := set_wds 1 (set_x xs b)) in *.
  assert (leading (take 9 dd)) as Hl9 by (destruct Hl as (d & r & -> & ?); exists d, (take 8 r); done).
  assert (0 < first9 dd) as Hpos by (apply leading_value_pos; [by apply Forall_take|done]).
  assert (big b1 (first9 dd)) as Hb1 by (exists [first9 dd]; split; [done|]; split; [by exists [], (first9 dd)|cbn [value]; lia]).
  assert (∀ n, (n ≤ length dd)%nat → first9 (take n dd) * 10 ^ len (drop 9 (take n dd)) + dec_value (drop 9 (take n dd)) = dec_value (take n dd)) as Hsplit.
  { intros n Hn. unfold first9. rewrite <- dec_value_app, take_drop. done. }
  assert (∀ n, (9 ≤ n)%nat → first9 (take n dd) = first9 dd) as Hf9 by (intros n Hn; unfold first9; rewrite take_take; do 2 f_equal; lia).
  assert (∀ a n, (n ≤ length dd)%nat → (dec_value (take a (take n dd)) + 1) * 10 ^ Z.of_nat (n - a) ≤ 10 ^ 40) as Hcap.
  { intros a n Hn. pose proof (dec_value_take (take n dd) a ltac:(by apply Forall_take)) as Hr. pose proof (dec_value_range (take n dd) ltac:(by apply Forall_take)) as Hr2. rewrite length_take in Hr2.
    pose proof (Z.pow_pos_nonneg 10 (Z.of_nat (n - a)) ltac:(lia) ltac:(lia)). destruct (decide (a ≤ n)%nat) as [Han|Han].
    - apply Z.le_trans with (10 ^ Z.of_nat a * 10 ^ Z.of_nat (n - a)); [apply Z.mul_le_mono_nonneg_r; lia|]. rewrite <- Z.pow_add_r by lia. apply pow10_mono. lia.
    - replace (n - a)%nat with O by lia. change (10 ^ Z.of_nat 0) with 1. rewrite (take_ge (take n dd) a) by (rewrite length_take; lia).
      pose proof (pow10_mono (Z.of_nat (n `min` length dd)) 40 ltac:(lia)). lia. }
  destruct (Z.ltb_spec 9 nd0) as [H9|H9].
  - set (n0 := Z.to_nat nd0). assert (n0 ≤ length dd)%nat as Hn0l by lia.
    assert (Z.to_nat (nd0 - 9) = length (drop 9 (take n0 dd))) as -> by (rewrite length_drop, length_take; lia).
    eapply (run_bind _ _ _ 0).
    { apply (s2b_loop_spec p1 _ b1 s 9 (first9 dd)); [done| |by apply Forall_drop, Forall_take|done|].
      - intros j d Hj. rewrite lookup_drop in Hj. apply lookup_take_Some in Hj as [Hj Hlt]. pose proof (Hat _ d Hj) as Hz.
        rewrite (proj2 (Z.ltb_lt _ _)) in Hz by lia. rewrite <- Hz. f_equal. lia.
      - rewrite <- (Hf9 n0) by lia. rewrite length_drop, length_take. replace (n0 `min` length dd - 9)%nat with (n0 - 9)%nat by lia. by apply Hcap. }
    rewrite <- (Hf9 n0), Hsplit by lia. intros b2 p2 Hp2 [Hb2 Hpp2].
    assert (Z.to_nat (len dd - nd0) = length (drop n0 dd)) as -> by (rewrite length_drop; lia).
    eapply run_conv; [eapply run_mono; [apply (s2b_loop_spec p2 _ b2 s (nd0 + dplen) (dec_value (take n0 dd)))|]|lia]; try done.
    + intros j d Hj. rewrite lookup_drop in Hj. pose proof (Hat _ d Hj) as Hz. rewrite (proj2 (Z.ltb_ge _ _)) in Hz by lia. rewrite <- Hz. f_equal. lia.
    + by apply Forall_drop.
    + pose proof (Hcap n0 (length dd) ltac:(lia)) as Hc. rewrite (take_ge dd (length dd)) in Hc by lia. by rewrite length_drop.
    + intros b3 p3 [Hb3 Hpp3]. split; [|by rewrite Hpp3, Hpp2, Hpp]. rewrite <- dec_value_app, take_drop in Hb3. done.
  - assert (Z.to_nat (len dd - 9) = length (drop 9 dd)) as -> by (rewrite length_drop; lia).
    eapply run_conv; [eapply run_mono; [apply (s2b_loop_spec p1 _ b1 s (dplen + 9) (first9 dd))|]|lia]; try done.
    + intros j d Hj. rewrite lookup_drop in Hj. pose proof (Hat _ d Hj) as Hz. rewrite (proj2 (Z.ltb_ge _ _)) in Hz by lia. rewrite <- Hz. f_equal. lia.
    + by apply Forall_drop.
    + pose proof (Hcap 9%nat (length dd) ltac:(lia)) as Hc. rewrite (take_ge dd (length dd)) in Hc by lia. by rewrite length_drop.
    + intros b3 p3 [Hb3 Hpp3]. split; [|by rewrite Hpp3, Hpp]. pose proof (Hsplit (length dd) ltac:(lia)) as Hs. rewrite (take_ge dd (length dd)) in Hs by lia. by rewrite Hs in Hb3.
Qed.
End s2b.
End StrtodWords.
