(* ===== verification/StrtodRound.v ===== *)
(** * dtoa.c: one round of the correction in [fpconv_strtod]

    The approximation [m * 2^e] and the numeral [r] are compared exactly; in units of half
    a last place they are [delta / bs] apart. Below one the approximation is right, but for
    a power of 2; at one the even neighbour is; above one the quotient of the big integers
    moves it. [far], [near] and [last] say how close the approximation is before a round:
    each round ends with the numeral rounded to nearest even, or is a step closer. *)
From Stdlib Require Import Reals Lra.
From S2P Require Import Prelude Libc Double DoubleSpec Bigint BigintSpec BigintOps Dtoa FloatSpec FloatOps FloatRound DtoaWords DtoaEstimate DtoaDigits DtoaBig DtoaScale Gethex Strtod StrtodScan StrtodShort StrtodWords.

Module StrtodRound.
Import Double DoubleSpec Bigint BigintSpec BigintOps Dtoa FloatSpec FloatOps FloatRound DtoaWords DtoaEstimate DtoaDigits DtoaErrors DtoaScale Gethex Strtod StrtodScan StrtodShort StrtodWords.

(** ** How close an approximation is *)
Definition far (m : positive) (e : Z) (r : R) : Prop := (Rabs (val (dbl m e) - r) <= pow2 (-46) * val (dbl m e))%R.
Definition near (m : positive) (e : Z) (r : R) : Prop :=
  (Rabs (val (dbl m e) - r) <= pow2 (e - 1) * (1 + / 1000000))%R ∧
  (Z.pos m = 2 ^ 52 → (r < val (dbl m e))%R → (Rabs (val (dbl m e) - r) <= pow2 (e - 2) * (1 + / 1000000))%R).
Definition last (m : positive) (e : Z) (r : R) : Prop :=
  (Rabs (val (dbl m e) - r) < pow2 (e - 1))%R ∧
  (Z.pos m = 2 ^ 52 → (r < val (dbl m e))%R → (Rabs (val (dbl m e) - r) <= pow2 (e - 2))%R).

Lemma quarter e : (pow2 (e - 1) = 2 * pow2 (e - 2))%R.
Proof. rewrite <- pow2_S. f_equal. lia. Qed.
Lemma half e : (pow2 e = 2 * pow2 (e - 1))%R.
Proof. rewrite <- pow2_S. f_equal. lia. Qed.

Lemma dbl_range m e : normal_m m → (pow2 (e + 52) <= val (dbl m e) <= pow2 (e + 53) - pow2 e)%R.
Proof.
  intros Hm. rewrite dbl_val, (Z.add_comm e 52), (Z.add_comm e 53), !pow2_add, !(pow2_IZR 52), !(pow2_IZR 53) by lia. pose proof (pow2_pos e).
  unfold normal_m in Hm. assert (IZR (2 ^ 52) <= IZR (Z.pos m) <= IZR (2 ^ 53 - 1))%R as [H1 H2] by (split; apply IZR_le; lia).
  rewrite minus_IZR in H2. nra.
Qed.

Lemma last_near m e r : last m e r → near m e r.
Proof.
  intros [H1 H2]. pose proof (pow2_pos (e - 1)). pose proof (pow2_pos (e - 2)). split; [lra|]. intros Hm Hr. specialize (H2 Hm Hr). lra.
Qed.

Lemma near_far m e r : normal_m m → near m e r → far m e r.
Proof.
  intros Hm [H1 _]. pose proof (dbl_range m e Hm) as [Hlo _]. unfold far. eapply Rle_trans; [exact H1|].
  apply Rle_trans with (pow2 (-46) * pow2 (e + 52))%R; [|apply Rmult_le_compat_l; [pose proof (pow2_pos (-46))|]; lra].
  rewrite <- pow2_add. replace (-46 + (e + 52)) with (e + 6) by lia. pose proof (pow2_le (e - 1 + 1) (e + 6) ltac:(lia)) as Hle. rewrite pow2_S in Hle. pose proof (pow2_pos (e - 1)). lra.
Qed.

(** What is nearest, and even when halfway, is the rounding. *)
Lemma nearest_rounds m e r :
  normal_m m → -1073 ≤ e ≤ 971 → (Rabs (val (dbl m e) - r) <= pow2 (e - 1))%R →
  ((Rabs (val (dbl m e) - r) = pow2 (e - 1))%R → Z.even (Z.pos m) = true) →
  (Z.pos m = 2 ^ 52 → (r < val (dbl m e))%R → (Rabs (val (dbl m e) - r) <= pow2 (e - 2))%R) → rounds (dbl m e) r.
Proof.
  intros Hm He Herr Heven Hp. destruct (dbl_good m e Hm ltac:(lia)) as [Hf Hok]. split; [done|]. split; [done|].
  pose proof (dbl_range m e Hm) as [Hlo _]. pose proof (pow2_pos (e - 1)) as Hp1. pose proof (quarter e) as Hq. pose proof (half e) as Hh.
  assert (pow2 e <= pow2 (e + 52))%R by (apply pow2_le; lia).
  destruct (decide (Z.pos m = 2 ^ 52)) as [Hm52|Hm52].
  - destruct (Rlt_dec r (val (dbl m e))) as [Hlt|Hge].
    + specialize (Hp Hm52 Hlt). exists (2 ^ 53), (e - 1). rewrite dbl_val in *. rewrite Hm52 in *.
      assert (IZR (2 ^ 52) * pow2 e = IZR (2 ^ 53) * pow2 (e - 1))%R as Heq by (rewrite Hh; change (2 ^ 53) with (2 * 2 ^ 52); rewrite mult_IZR; ring).
      rewrite <- Heq. split; [done|]. replace (e - 1 - 1) with (e - 2) by lia. split; [done|]. split; [lia|]. split; [|done]. left.
      apply Rabs_le_inv in Hp. pose proof (half (e + 52)) as H52. replace (e + 52 - 1) with (e - 1 + 52) in H52 by lia.
      pose proof (pow2_le (e - 1 + 1) (e - 1 + 52) ltac:(lia)) as Hle. rewrite pow2_S in Hle. rewrite Rabs_pos_eq; lra.
    + exists (Z.pos m), e. rewrite <- dbl_val. split; [done|]. split; [done|]. split; [lia|]. split; [|done]. left. rewrite Rabs_pos_eq; [lra|]. pose proof (pow2_pos (e + 52)). lra.
  - exists (Z.pos m), e. rewrite <- dbl_val. split; [done|]. split; [done|]. split; [lia|]. split; [|done]. left.
    assert (pow2 (e + 52) + pow2 e <= val (dbl m e))%R as Hlo2.
    { rewrite dbl_val, (Z.add_comm e 52), pow2_add, (pow2_IZR 52) by lia. unfold normal_m in Hm. assert (IZR (2 ^ 52 + 1) <= IZR (Z.pos m))%R as H1 by (apply IZR_le; lia).
      rewrite plus_IZR in H1. pose proof (pow2_pos e). nra. }
    apply Rabs_le_inv in Herr. pose proof (pow2_pos (e + 52)). rewrite Rabs_pos_eq; lra.
Qed.

Lemma last_rounds m e r : normal_m m → -1073 ≤ e ≤ 971 → last m e r → rounds (dbl m e) r.
Proof. intros Hm He [H1 H2]. apply nearest_rounds; [done|done|lra|lra|done]. Qed.

(** A rounding in units of its last place. *)
Lemma rounds_dbl y s :
  rounds y s → (pow2 (-1000) <= s < pow2 1023)%R →
  ∃ m e, y = dbl m e ∧ normal_m m ∧ -1053 ≤ e ≤ 971 ∧ (Rabs (val (dbl m e) - s) <= pow2 (e - 1))%R ∧
    ((Rabs (val (dbl m e) - s) = pow2 (e - 1))%R → Z.even (Z.pos m) = true) ∧
    (Z.pos m = 2 ^ 52 → (s < val (dbl m e))%R → (Rabs (val (dbl m e) - s) <= pow2 (e - 2))%R).
Proof.
  intros Hr [Hs Hs2]. pose proof (rounds_good _ _ Hr) as Gy. pose proof (pow2_pos (-1000)) as Hp0.
  assert (repr (pow2 (-1000))) as Hrep by (exists 1, (-1000); split; [lra|lia]).
  pose proof (rounds_ge _ _ _ Hr Hrep Hs) as Hv.
  destruct (normal_double y Gy) as (m & e & Hy & Hm & Hok); [pose proof (pow2_le (-1022) (-1000) ltac:(lia)); lra|].
  destruct (double_ok_mantissa _ _ _ Hok) as (_ & He & Hm53). assert (normal_m m) as Hnm by (unfold normal_m; lia).
  pose proof Hr as Hr0. destruct Hr as (_ & _ & q & e1 & Hq & Herr & He1 & Hn & Htie). rewrite Hy in Hq, Hv. fold (dbl m e) in Hq, Hv. rewrite <- Hq in Herr, Htie. rewrite Rabs_pos_eq in Hn by lra.
  assert (pow2 (e1 + 52) <= s)%R as Hn'.
  { destruct Hn as [Hn| ->]; [done|]. pose proof (pow2_le (-1074 + 52) (-1000) ltac:(lia)). lra. }
  pose proof (dbl_range m e Hnm) as [Hlo Hhi].
  assert (-1053 ≤ e) as Hem.
  { destruct (decide (-1053 ≤ e)) as [|Hlt]; [done|]. pose proof (pow2_le (e + 53) (-1000) ltac:(lia)). pose proof (pow2_pos e). lra. }
  assert (pow2 (e1 + 52) <= val (dbl m e))%R as Hge.
  { pose proof (rounds_ge y s (pow2 (e1 + 52)) Hr0) as Hg. rewrite Hy in Hg. apply Hg; [|done]. exists 1, (e1 + 52). split; [lra|lia]. }
  exists m, e. split; [done|]. split; [done|]. split; [lia|].
  assert (e1 ≤ e) as Hle.
  { destruct (decide (e1 ≤ e)) as [|Hlt]; [done|]. pose proof (pow2_le (e + 53) (e1 + 52) ltac:(lia)). pose proof (pow2_pos e). lra. }
  pose proof (pow2_le (e1 - 1) (e - 1) ltac:(lia)). split; [lra|]. split.
  { intros Heq. destruct (decide (e1 = e)) as [->|Hne]; [|pose proof (pow2_lt (e1 - 1) (e - 1) ltac:(lia)); lra]. specialize (Htie Heq).
    rewrite dbl_val in Hq. apply Rmult_eq_reg_r in Hq; [|pose proof (pow2_pos e); lra]. apply eq_IZR in Hq. by rewrite Hq. }
  intros Hm52 Hlt. destruct (decide (e1 = e)) as [->|Hne].
  - exfalso. rewrite dbl_val, Hm52, <- (pow2_IZR 52), <- pow2_add, Z.add_comm in Hlt by lia. lra.
  - pose proof (pow2_le (e1 - 1) (e - 2) ltac:(lia)). lra.
Qed.
Lemma tiny_error s v e : (0 <= s)%R → (Rabs (v - s) <= pow2 (e - 1))%R → (v <= pow2 (e + 53) - pow2 e)%R → (pow2 (-80) * s <= pow2 (e - 2) * / 10000000)%R.
Proof.
  intros Hs Hv Hb. apply Rabs_le_inv in Hv. pose proof (half e). pose proof (pow2_pos (e - 1)). pose proof (pow2_pos (-80)).
  assert (s <= pow2 (e + 53))%R as Hs2 by lra. apply Rle_trans with (pow2 (-80) * pow2 (e + 53))%R; [apply Rmult_le_compat_l; lra|].
  rewrite <- pow2_add. replace (-80 + (e + 53)) with (e - 2 + -25) by lia. rewrite pow2_add. apply Rmult_le_compat_l; [pose proof (pow2_pos (e - 2)); lra|].
  change (-25) with (- (25)). rewrite <- pow2_inv, pow2_IZR by lia. change (2 ^ 25) with 33554432. apply Rinv_le_contravar; lra.
Qed.

(** The rounding of a number very close to [r] is near. *)
Lemma rounds_near y s r :
  rounds y s → (pow2 (-1000) <= s < pow2 1023)%R → (Rabs (s - r) <= pow2 (-80) * s)%R →
  ∃ m e, y = dbl m e ∧ normal_m m ∧ -1053 ≤ e ≤ 971 ∧ near m e r ∧ (Rabs (val (dbl m e) - s) <= pow2 (e - 1))%R ∧ (Rabs (s - r) <= pow2 (e - 2) * / 10000000)%R.
Proof.
  intros Hr Hs Hsr. destruct (rounds_dbl y s Hr Hs) as (m & e & -> & Hm & He & Herr & _ & Hp). exists m, e. split; [done|]. split; [done|]. split; [done|].
  pose proof (dbl_range m e Hm) as [_ Hhi]. pose proof (pow2_pos (-1000)). pose proof (tiny_error s _ e ltac:(lra) Herr Hhi) as Ht.
  pose proof (quarter e). pose proof (pow2_pos (e - 2)). assert (Rabs (s - r) <= pow2 (e - 2) * / 10000000)%R as Hsr' by lra.
  split; [|split; [exact Herr|exact Hsr']]. apply Rabs_le_inv in Herr, Hsr'. split.
  - apply Rabs_le. lra.
  - intros Hm52 Hlt. specialize (Hp Hm52). destruct (Rlt_dec s (val (dbl m e))) as [Hsv|Hsv]; [|apply Rabs_le; lra].
    specialize (Hp Hsv). apply Rabs_le_inv in Hp. apply Rabs_le. lra.
Qed.

Lemma leb_ok x y : good x → good y → leb x y = true ↔ (val x <= val y)%R.
Proof.
  intros Hx Hy. unfold leb, SFleb. destruct (SFcompare_ok x y Hx Hy) as (c & -> & Hc). destruct Hc; split; intros; (done || lra).
Qed.
Lemma leb_false x y : good x → good y → leb x y = false ↔ (val y < val x)%R.
Proof. intros Hx Hy. rewrite <- not_true_iff_false, leb_ok by done. split; lra. Qed.

(** ** The tolerances *)
Lemma small_constant p e b :
  valid_binary 53 1024 (S754_finite false p e) = true → -60 ≤ e ≤ 0 → Z.pos p * 2 ^ (60 + e) = b →
  good (S754_finite false p e) ∧ val (S754_finite false p e) = (IZR b / 1152921504606846976)%R.
Proof.
  intros Hv He <-. split; [done|]. rewrite val_sign, mult_IZR, <- pow2_IZR, Z.add_comm, pow2_add by lia. unfold Rdiv. rewrite Rmult_assoc. f_equal.
  assert (/ 1152921504606846976 = pow2 (-60))%R as -> by (change (-60) with (- (60)); rewrite <- pow2_inv, pow2_IZR by lia; done).
  pose proof (pow2_neg 60) as Hi. change (- (60)) with (-60) in Hi. rewrite Rmult_assoc, Hi. ring.
Qed.

Lemma tolerances :
  (good c_0_4999999 ∧ (4999998 / 10000000 < val c_0_4999999 < 49999995 / 100000000)%R) ∧
  (good c_0_5000001 ∧ (50000005 / 100000000 < val c_0_5000001)%R) ∧
  (good (fdiv c_0_4999999 (of_Z 2)) ∧ (24 / 100 < val (fdiv c_0_4999999 (of_Z 2)) < 249999975 / 1000000000)%R) ∧
  (good c_0_5 ∧ val c_0_5 = / 2)%R.
Proof.
  assert (fdiv c_0_4999999 (of_Z 2) = S754_finite false 9007197453301141 (-55)) as -> by (vm_compute; reflexivity).
  split; [|split; [|split]].
  - destruct (small_constant 9007197453301141 (-54) 576460637011273024) as [G V]; [done|lia|done|]. split; [exact G|]. unfold c_0_4999999. rewrite V. lra.
  - destruct (small_constant 4503600528090421 (-53) 576460867595573888) as [G V]; [done|lia|done|]. split; [exact G|]. unfold c_0_5000001. rewrite V. lra.
  - destruct (small_constant 9007197453301141 (-55) 288230318505636512) as [G V]; [done|lia|done|]. split; [exact G|]. rewrite V. lra.
  - destruct (small_constant 4503599627370496 (-53) 576460752303423488) as [G V]; [done|lia|done|]. split; [exact G|]. unfold c_0_5. rewrite V. lra.
Qed.

Lemma tiny_bounds : (pow2 (-53) <= / 1000000000 ∧ pow2 (-1075) <= / 1000000000)%R.
Proof.
  assert (pow2 (-53) <= / 1000000000)%R as H.
  { change (-53) with (- (53)). rewrite <- pow2_inv, pow2_IZR by lia. change (2 ^ 53) with 9007199254740992. apply Rinv_le_contravar; lra. }
  split; [done|]. pose proof (pow2_le (-1075) (-53) ltac:(lia)). lra.
Qed.

Section stop.
Context {E : Type}.

(** What a stop says about the fraction of the adjustment. *)
Lemma can_stop_spec a (m1 : positive) e1 dsign :
  good a → (0 <= val a < 1000)%R → normal_m m1 → -1074 ≤ e1 ≤ 971 →
  ∃ st L, can_stop (E:=E) a (dbl m1 e1) dsign = Done st ∧ (IZR L <= val a < IZR L + 1)%R ∧
    (val a = IZR L → st = true) ∧
    (st = true → ((val a - IZR L < 49999997 / 100000000)%R ∨ (50000003 / 100000000 < val a - IZR L)%R) ∧
      (dsign = 0 → Z.pos m1 = 2 ^ 52 → (val a - IZR L < 24999999 / 100000000)%R)).
Proof.
  intros Ga Ha Hm1 He1. unfold can_stop. destruct (to_Long_spec (E:=E) a Ga) as (L & -> & HL & Hp & _).
  { rewrite Rabs_pos_eq by lra. eapply Rlt_trans; [apply Ha|]. unfold INT_MAX. lra. }
  specialize (Hp ltac:(lra)). cbn [obind]. cbv zeta. assert (Z.abs L < 2 ^ 53) as HL53 by (unfold INT_MAX in HL; lia).
  destruct (of_Z_ok L HL53) as [GL VL]. rewrite (power_of_2_dbl m1 e1 Hm1 He1).
  assert (Rabs (val a - IZR L) < 1)%R as Hf1 by (apply Rabs_def1; lra).
  pose proof tiny_bounds as [T1 T2]. pose proof (pow2_le 0 1023 ltac:(lia)) as Hbig. change (pow2 0) with 1%R in Hbig.
  assert (rounds (fsub a (of_Z L)) (val a - IZR L)) as Hr by (rewrite <- VL; apply fsub_ok; [done|done|rewrite VL; lra]).
  pose proof (rounds_good _ _ Hr) as Gf. pose proof (rounds_error _ _ Hr) as Herr.
  assert (Rabs (val (fsub a (of_Z L)) - (val a - IZR L)) <= / 100000000)%R as He%Rabs_le_inv.
  { eapply Rle_trans; [exact Herr|]. pose proof (Rabs_pos (val a - IZR L)). pose proof (pow2_pos (-53)). nra. }
  destruct tolerances as ((G1 & V1) & (G2 & V2) & (G3 & V3) & _).
  exists (if negb (dsign =? 0) || negb (Z.pos m1 =? 2 ^ 52) then SFltb (fsub a (of_Z L)) c_0_4999999 || SFltb c_0_5000001 (fsub a (of_Z L))
    else SFltb (fsub a (of_Z L)) (fdiv c_0_4999999 (of_Z 2))), L.
  split; [done|]. split; [done|]. split.
  - intros Heq. assert (SFltb (fsub a (of_Z L)) c_0_4999999 = true) as -> by (apply SFltb_ok; [done|done|lra]).
    assert (SFltb (fsub a (of_Z L)) (fdiv c_0_4999999 (of_Z 2)) = true) as -> by (apply SFltb_ok; [done|done|lra]). by destruct (_ || _).
  - destruct (Z.eqb_spec dsign 0) as [Hd|Hd], (Z.eqb_spec (Z.pos m1) (2 ^ 52)) as [Hm|Hm]; cbn [negb orb]; intros Hst.
    + apply SFltb_ok in Hst; [|done|done]. split; [left; lra|lra].
    + apply orb_true_iff in Hst as [Hst|Hst]; (apply SFltb_ok in Hst; [|done|done]); (split; [|done]); [left|right]; lra.
    + apply orb_true_iff in Hst as [Hst|Hst]; (apply SFltb_ok in Hst; [|done|done]); (split; [|done]); [left|right]; lra.
    + apply orb_true_iff in Hst as [Hst|Hst]; (apply SFltb_ok in Hst; [|done|done]); (split; [|done]); [left|right]; lra.
Qed.
End stop.
(** ** Ends of a round *)
Definition done_with (r : R) (v : verdict) : Prop := ∃ rv sg, v = Break rv sg false ∧ rounds rv r.
Definition goes_on (P : positive → Z → R → Prop) (r : R) (v : verdict) : Prop :=
  ∃ m e, v = Cont (dbl m e) ∧ normal_m m ∧ -1053 ≤ e ≤ 971 ∧ P m e r.

Section adjust.
Context {E : Type} (m : positive) (e : Z) (r : R).
Context (Hm : normal_m m) (He : -965 ≤ e ≤ 970) (Hr : (pow2 (-912) <= r < pow2 1022)%R) (Hfar : far m e r).

(** The move by [a1] units and the test for the end. *)
Definition move (a a1 : double) (scale dsign : Z) (full : bool) : outcome E verdict :=
  let rv := fadd (dbl m e) (fmul a1 (ulp (dbl m e))) in
  if full && (scale =? 0) && ((e + 1075) * Exp_msk1 =? Z.land (word0 rv) Exp_mask) then
    let! st := can_stop a rv dsign in Done (if st then Break rv dsign false else Cont rv)
  else Done (Cont rv).

Lemma adjust_eq aadj scale dsign cut full :
  adjust (E:=E) (dbl m e) aadj scale dsign cut full = let '(a, a1) := adjustment aadj (dbl m e) dsign in move a a1 scale dsign full.
Proof.
  unfold adjust, move. assert (same_words (dbl m e) 0 1 = false) as ->.
  { apply not_true_iff_false. intros H%same_words_dbl; [|done|lia]. destruct (word0_dbl m e Hm ltac:(lia)) as (_ & _ & ?). lia. }
  rewrite andb_false_r. cbn [andb]. destruct (adjustment _ _ _) as [a a1]. rewrite exp_mask_dbl by (done || lia).
  rewrite (proj2 (Z.eqb_neq ((e + 1075) * Exp_msk1) _)) by (unfold Exp_msk1, DBL_MAX_EXP, Bias; lia).
  rewrite (proj2 (Z.leb_gt ((e + 1075) * Exp_msk1) _)) by (unfold Exp_msk1, P; lia). by rewrite andb_false_r.
Qed.

Lemma unit_small : (0 < pow2 e ∧ pow2 e * pow2 52 <= val (dbl m e) <= 2 * (pow2 e * pow2 52))%R.
Proof.
  pose proof (dbl_range m e Hm) as [Hlo Hhi]. rewrite pow2_add in Hlo. replace (e + 53) with (e + 52 + 1) in Hhi by lia. rewrite pow2_S, pow2_add in Hhi.
  pose proof (pow2_pos e). lra.
Qed.

Lemma far_value : (3 / 4 * val (dbl m e) <= r <= 5 / 4 * val (dbl m e))%R.
Proof.
  unfold far in Hfar. apply Rabs_le_inv in Hfar. pose proof (pow2_le (-46) (-2) ltac:(lia)) as Hp. change (-2) with (- (2)) in Hp. rewrite <- (pow2_inv 2), (pow2_IZR 2) in Hp by lia.
  change (2 ^ 2) with 4 in Hp. pose proof (pow2_pos (-46)). pose proof (dbl_range m e Hm) as [Hlo _]. pose proof (pow2_pos (e + 52)).
  assert (pow2 (-46) * val (dbl m e) <= / 4 * val (dbl m e))%R by (apply Rmult_le_compat_r; lra). lra.
Qed.

Lemma product_spec a1 :
  good a1 → (Rabs (val a1) < 1000)%R →
  good (fmul a1 (ulp (dbl m e))) ∧ (Rabs (val (fmul a1 (ulp (dbl m e))) - val a1 * pow2 e) <= pow2 e * / 100000000000)%R ∧
  (repr (val a1 * pow2 e) → val (fmul a1 (ulp (dbl m e))) = (val a1 * pow2 e)%R).
Proof.
  intros Ga Ha. destruct (ulp_dbl m e Hm ltac:(lia)) as (_ & Gu & Vu). rewrite <- Vu. pose proof (pow2_pos e) as Hp.
  assert (Rabs (val a1 * val (ulp (dbl m e))) < pow2 1023)%R as Hb.
  { rewrite Vu, Rabs_mult, (Rabs_pos_eq (pow2 e)) by lra. apply Rle_lt_trans with (1024 * pow2 e)%R; [nra|].
    assert (1024 = pow2 10)%R as -> by (by rewrite pow2_IZR by lia). rewrite <- pow2_add. apply pow2_lt. lia. }
  pose proof (fmul_ok a1 _ Ga Gu Hb) as Hro. split; [by eapply rounds_good|]. split; [|by apply rounds_exact].
  eapply Rle_trans; [apply (rounds_error _ _ Hro)|]. rewrite Rabs_mult, Vu, (Rabs_pos_eq (pow2 e)) by lra.
  pose proof (pow2_le (-1075) (e + -53) ltac:(lia)) as Hle. rewrite pow2_add in Hle. pose proof (pow2_pos (-53)).
  assert (pow2 (-53) <= / 1000000000000000)%R.
  { change (-53) with (- (53)). rewrite <- pow2_inv, pow2_IZR by lia. change (2 ^ 53) with 9007199254740992. apply Rinv_le_contravar; lra. }
  assert (pow2 (-53) * (Rabs (val a1) * pow2 e) <= / 1000000000000000 * (1000 * pow2 e))%R.
  { apply Rmult_le_compat; [lra|pose proof (Rabs_pos (val a1)); nra|done|nra]. } nra.
Qed.

(** The number before its rounding. *)
Lemma move_near a1 :
  good a1 → (Rabs (val a1) < 1000)%R → (Rabs (val (dbl m e) + val a1 * pow2 e - r) <= pow2 e * / 100000000000)%R →
  ∃ m1 e1, fadd (dbl m e) (fmul a1 (ulp (dbl m e))) = dbl m1 e1 ∧ normal_m m1 ∧ -1053 ≤ e1 ≤ 971 ∧ near m1 e1 r ∧
    (Rabs (val (dbl m1 e1) - (val (dbl m e) + val a1 * pow2 e)) <= pow2 (e1 - 1) + pow2 e * / 100000000000)%R.
Proof.
  intros Ga Ha Hacc. destruct (product_spec a1 Ga Ha) as (Gp & Hp & _). set (pr := fmul a1 _) in *. set (s := (val (dbl m e) + val pr)%R).
  pose proof (dbl_good m e Hm ltac:(lia)) as Gv. pose proof unit_small as (Hu & Hlo & Hhi). pose proof far_value as Hfv.
  apply Rabs_le_inv in Hacc, Hp. pose proof (pow2_S (-913)) as H913. change (-913 + 1) with (-912) in H913.
  assert (Rabs (s - r) <= pow2 e * / 10000000000)%R as Hsr by (unfold s; apply Rabs_le; lra).
  assert (/ 10000000000 <= pow2 (-30))%R as H30.
  { change (-30) with (- (30)). rewrite <- pow2_inv, pow2_IZR by lia. change (2 ^ 30) with 1073741824. apply Rinv_le_contravar; lra. }
  assert (pow2 e * / 10000000000 <= pow2 (-80) * (val (dbl m e) / 2))%R as Htiny.
  { apply Rle_trans with (pow2 e * pow2 (-30))%R; [apply Rmult_le_compat_l; lra|]. apply Rle_trans with (pow2 (-80) * (pow2 e * pow2 52 / 2))%R; [|pose proof (pow2_pos (-80)); nra].
    assert (pow2 (-30) = pow2 (-80) * pow2 52 * / 4)%R as ->; [|pose proof (pow2_pos (-80)); pose proof (pow2_pos 52); nra].
    rewrite <- pow2_add. change (-80 + 52) with (-28). change (-28) with (-30 + 2). rewrite (pow2_add (-30)). rewrite (pow2_IZR 2) by lia. change (2 ^ 2) with 4. lra. }
  assert (pow2 (-80) <= / 4)%R as H80 by (pose proof (pow2_le (-80) (-2) ltac:(lia)) as H4; change (-2) with (- (2)) in H4; rewrite <- (pow2_inv 2), (pow2_IZR 2) in H4 by lia; change (2 ^ 2) with 4 in H4; lra).
  pose proof (pow2_pos (-80)). pose proof (pow2_pos (-913)). apply Rabs_le_inv in Hsr.
  assert (pow2 (-80) * (val (dbl m e) / 2) <= / 4 * (val (dbl m e) / 2))%R as H8 by (apply Rmult_le_compat_r; lra).
  assert (val (dbl m e) / 2 <= s)%R as Hs2 by lra.
  pose proof (pow2_S 1022) as H1022. change (1022 + 1) with 1023 in H1022. pose proof (pow2_le (-1000) (-913) ltac:(lia)).
  assert (pow2 (-1000) <= s < pow2 1023)%R as Hs by lra.
  assert (Rabs (val (dbl m e) + val pr) < pow2 1023)%R as Hb by (fold s; rewrite Rabs_pos_eq by lra; lra).
  pose proof (fadd_ok _ _ Gv Gp Hb) as Hro. fold s in Hro.
  destruct (rounds_near _ s r Hro Hs) as (m1 & e1 & Heq & Hm1 & He1 & Hnear & Herr & _); [apply Rabs_le; nra|].
  exists m1, e1. split; [exact Heq|]. split; [done|]. split; [done|]. split; [done|]. apply Rabs_le_inv in Herr. unfold s in Herr. apply Rabs_le. lra.
Qed.
(** A whole number of units nearest to [a], when [a] is not too near to a half. *)
Lemma nearest_units k a L :
  (IZR L <= a < IZR L + 1)%R → (Rabs (IZR k - a) <= / 2 + / 100000000000)%R →
  (a - IZR L < 49999997 / 100000000)%R ∨ (50000003 / 100000000 < a - IZR L)%R →
  (Rabs (IZR k - a) <= 49999997 / 100000000)%R ∧ ((a - IZR L < 49999997 / 100000000)%R → k = L).
Proof.
  intros HL Hk%Rabs_le_inv Hf. assert (L - 1 < k < L + 2) as Hkl by (split; apply lt_IZR; rewrite ?minus_IZR, ?plus_IZR; lra).
  assert (k = L ∨ k = L + 1) as [->| ->] by lia; rewrite ?plus_IZR in *.
  - split; [|done]. destruct Hf; [apply Rabs_le; lra|lra].
  - destruct Hf; [lra|]. split; [apply Rabs_le; lra|lra].
Qed.

Lemma move_accurate a a1 scale dsign full :
  good a → good a1 → (2 / 5 <= val a < 900)%R → val a1 = (if (dsign =? 0)%Z then - val a else val a)%R →
  (dsign ≠ 0 → (3 / 4 <= val a)%R) → (Rabs (val (dbl m e) + val a1 * pow2 e - r) <= pow2 e * / 100000000000)%R →
  ∃ v, move a a1 scale dsign full = Done v ∧ (done_with r v ∨ goes_on near r v).
Proof.
  intros Ga Ga1 Ha Ha1 Hd Hacc. assert (Rabs (val a1) < 1000)%R as Ha1b by (rewrite Ha1; apply Rabs_def1; destruct (dsign =? 0); lra).
  destruct (move_near a1 Ga1 Ha1b Hacc) as (m1 & e1 & Heq & Hm1 & He1 & Hnear & Herr). unfold move. cbv zeta. rewrite Heq.
  assert (done_with r (Cont (dbl m1 e1)) ∨ goes_on near r (Cont (dbl m1 e1))) as Hcont by (right; by exists m1, e1).
  destruct (full && (scale =? 0) && ((e + 1075) * Exp_msk1 =? Z.land (word0 (dbl m1 e1)) Exp_mask)) eqn:Htest; [|by eexists].
  apply andb_prop in Htest as [_ Htest%Z.eqb_eq]. rewrite exp_mask_dbl in Htest by (done || lia). unfold Exp_msk1 in Htest. assert (e1 = e) as -> by lia.
  destruct (can_stop_spec (E:=E) a m1 e dsign Ga ltac:(lra) Hm1 ltac:(lia)) as (st & L & -> & HL & _ & Hst). cbn [obind]. destruct st; [|by eexists].
  eexists. split; [done|]. left. eexists _, _. split; [done|]. destruct (Hst eq_refl) as [Hf Hp]. clear Hst Hcont. pose proof unit_small as (Hu & _).
  set (k := if (dsign =? 0)%Z then Z.pos m - Z.pos m1 else Z.pos m1 - Z.pos m).
  assert (val (dbl m1 e) - (val (dbl m e) + val a1 * pow2 e) = (if (dsign =? 0)%Z then - (IZR k - val a) else IZR k - val a) * pow2 e)%R as Hk.
  { rewrite !dbl_val, Ha1. unfold k. destruct (dsign =? 0); rewrite minus_IZR; ring. }
  assert (Rabs (IZR k - val a) <= / 2 + / 100000000000)%R as Hka.
  { rewrite Hk, Rabs_mult, (Rabs_pos_eq (pow2 e)) in Herr by lra. pose proof (half e). apply Rmult_le_reg_r with (pow2 e); [done|].
    destruct (dsign =? 0); rewrite ?Rabs_Ropp in Herr; lra. }
  destruct (nearest_units k (val a) L HL Hka Hf) as [Hkb HkL].
  assert (∀ b, Rabs (IZR k - val a) <= b → Rabs (val (dbl m1 e) - r) <= (b + / 100000000000) * pow2 e)%R as Hclose.
  { intros b Hb. replace (val (dbl m1 e) - r)%R with ((val (dbl m1 e) - (val (dbl m e) + val a1 * pow2 e)) + (val (dbl m e) + val a1 * pow2 e - r))%R by ring.
    eapply Rle_trans; [apply Rabs_triang|]. rewrite Hk, Rabs_mult, (Rabs_pos_eq (pow2 e)) by lra.
    assert (Rabs (if (dsign =? 0)%Z then - (IZR k - val a) else IZR k - val a) <= b)%R by (destruct (dsign =? 0); rewrite ?Rabs_Ropp; done).
    apply Rle_trans with (b * pow2 e + pow2 e * / 100000000000)%R; [apply Rplus_le_compat; [apply Rmult_le_compat_r; lra|done]|lra]. }
  pose proof (Hclose _ Hkb) as Hc. pose proof (half e). pose proof (quarter e). apply nearest_rounds; [done|lia|nra|intros; nra|].
  intros Hm52 Hlt. destruct (Z.eqb_spec dsign 0) as [Hd0|Hd0].
  - specialize (Hp Hd0 Hm52). specialize (HkL ltac:(lra)). rewrite HkL in Hclose. pose proof (Hclose (24999999 / 100000000)%R) as Hc2.
    specialize (Hc2 ltac:(apply Rabs_le; lra)). nra.
  - exfalso. unfold normal_m in Hm. assert (IZR k <= 0)%R by (apply IZR_le; unfold k; lia). apply Rabs_le_inv in Hka. specialize (Hd Hd0). lra.
Qed.

(** A move by one unit, which [r] is more than half away. *)
Lemma move_last a1 (n : positive) e' scale dsign full :
  fadd (dbl m e) (fmul a1 (ulp (dbl m e))) = dbl n e' → normal_m n → -1053 ≤ e' ≤ 971 → last n e' r →
  ∃ v, move (of_Z 1) a1 scale dsign full = Done v ∧ (done_with r v ∨ goes_on last r v).
Proof.
  intros Heq Hn He' Hl. destruct (of_Z_ok 1 ltac:(lia)) as [G1 V1]. unfold move. cbv zeta. rewrite Heq.
  assert (goes_on last r (Cont (dbl n e'))) as Hc by (by exists n, e'). assert (∀ sg, done_with r (Break (dbl n e') sg false)) as Hb.
  { intros sg. eexists _, _. split; [done|]. apply last_rounds; [done|lia|done]. }
  destruct (_ && _); [|by eexists; split; [done|right]].
  destruct (can_stop_spec (E:=E) (of_Z 1) n e' dsign G1 ltac:(lra) Hn ltac:(lia)) as (st & L & -> & _). cbn [obind].
  destruct st; eexists; (split; [done|]); [by left|by right].
Qed.

Lemma move_one a1 scale dsign full :
  good a1 → val a1 = (if (dsign =? 0)%Z then -1 else 1)%R → (dsign = 0 → Z.pos m ≠ 2 ^ 52) → (Z.pos m = 2 ^ 53 - 1 → e ≤ 969) →
  (pow2 (e - 1) < Rabs (val (dbl m e) - r) <= pow2 e * (1 + / 10000000000))%R → (if (dsign =? 0)%Z then (r <= val (dbl m e))%R else (val (dbl m e) < r)%R) →
  ∃ v, move (of_Z 1) a1 scale dsign full = Done v ∧ (done_with r v ∨ goes_on last r v).
Proof.
  intros Ga Ha Hd Htop Herr Hside. destruct (product_spec a1 Ga) as (Gp & _ & Hp); [rewrite Ha; apply Rabs_def1; destruct (dsign =? 0); lra|].
  rewrite Ha in Hp. specialize (Hp ltac:(exists (if dsign =? 0 then -1 else 1), e; split; [destruct (dsign =? 0); lra|destruct (dsign =? 0); lia])). clear Ha.
  pose proof unit_small as (Hu & _). pose proof (half e) as Hh. pose proof (quarter e) as Hq. unfold normal_m in Hm.
  destruct (Z.eqb_spec dsign 0) as [Hd0|Hd0].
  - specialize (Hd Hd0). rewrite Rabs_pos_eq in Herr by lra.
    assert (normal_m (m - 1)) as Hn by (unfold normal_m; lia). assert (val (dbl (m - 1) e) = val (dbl m e) - pow2 e)%R as Hv by (rewrite !dbl_val, Pos2Z.inj_sub, minus_IZR by lia; ring).
    apply (move_last a1 (m - 1) e); [apply step_exact; (done || lia || (rewrite Hp, Hv; lra))|done|lia|]. unfold last. rewrite Hv. split; [apply Rabs_def1; lra|]. intros _ Hlt. rewrite Rabs_pos_eq; lra.
  - rewrite Rabs_left in Herr by lra. destruct (decide (Z.pos m = 2 ^ 53 - 1)) as [Hmx|Hmx].
    + specialize (Htop Hmx). assert (val (dbl p52 (e + 1)) = val (dbl m e) + pow2 e)%R as Hv.
      { rewrite p52_val, dbl_val, Hmx. replace (e + 1 + 52) with (53 + e) by lia. rewrite pow2_add, (pow2_IZR 53), minus_IZR by lia. ring. }
      apply (move_last a1 p52 (e + 1)); [apply step_exact; (done || lia || (rewrite Hp, Hv; lra))|done|lia|]. unfold last. rewrite Hv. replace (e + 1 - 1) with e by lia. replace (e + 1 - 2) with (e - 1) by lia.
      split; [apply Rabs_def1; lra|]. intros _ Hlt. rewrite Rabs_pos_eq; lra.
    + assert (normal_m (m + 1)) as Hn by (unfold normal_m; lia). assert (val (dbl (m + 1) e) = val (dbl m e) + pow2 e)%R as Hv by (rewrite !dbl_val, Pos2Z.inj_add, plus_IZR; ring).
      apply (move_last a1 (m + 1) e); [apply step_exact; (done || lia || (rewrite Hp, Hv; lra))|done|lia|]. unfold last. rewrite Hv. split; [apply Rabs_def1; lra|]. intros Hm52. lia.
Qed.
(** The quotient [q] is the distance in halves of the unit. *)
Lemma far_units : (Rabs (val (dbl m e) - r) <= 256 * pow2 (e - 1))%R ∧ (Z.pos m = 2 ^ 53 - 1 → e ≤ 969).
Proof.
  pose proof (dbl_range m e Hm) as [Hlo Hhi]. split.
  - eapply Rle_trans; [exact Hfar|]. assert (256 = pow2 8)%R as -> by (by rewrite pow2_IZR by lia). rewrite <- pow2_add. pose proof (pow2_pos e).
    apply Rle_trans with (pow2 (-46) * pow2 (e + 53))%R; [apply Rmult_le_compat_l; [pose proof (pow2_pos (-46)); lra|lra]|]. rewrite <- pow2_add. apply pow2_le. lia.
  - intros Hm53. destruct (decide (e ≤ 969)) as [|Hgt]; [done|]. exfalso. pose proof far_value as [Hf _]. assert (e = 970) as -> by lia.
    rewrite dbl_val, Hm53, minus_IZR, <- (pow2_IZR 53), Rmult_minus_distr_r, <- pow2_add in Hf by lia. change (53 + 970) with (1022 + 1) in Hf. rewrite pow2_S in Hf.
    pose proof (pow2_le 972 1022 ltac:(lia)) as H972. change 972 with (970 + 2) in H972. rewrite (pow2_add 970 2), (pow2_IZR 2) in H972 by lia. change (2 ^ 2) with 4 in H972. pose proof (pow2_pos 1022). lra.
Qed.

Lemma close_units q a1 x :
  (Rabs (val (dbl m e) - r) = x * pow2 (e - 1))%R → (Rabs (q - x / 2) <= / 100000000000)%R → 
  ∀ dsign, (if (dsign =? 0)%Z then (r <= val (dbl m e))%R else (val (dbl m e) < r)%R) → a1 = (if (dsign =? 0)%Z then - q else q)%R →
  (Rabs (val (dbl m e) + a1 * pow2 e - r) <= pow2 e * / 100000000000)%R.
Proof.
  intros Hx Hq%Rabs_le_inv dsign Hside ->. pose proof (half e) as Hh. pose proof (pow2_pos (e - 1)). apply Rabs_le.
  destruct (dsign =? 0); [rewrite Rabs_pos_eq in Hx by lra|rewrite Rabs_left in Hx by lra]; nra.
Qed.

Lemma adjust_spec q scale dsign full :
  good q → within 5 (val q) (Rabs (val (dbl m e) - r) / pow2 (e - 1)) → (pow2 (e - 1) < Rabs (val (dbl m e) - r))%R →
  (if (dsign =? 0)%Z then (r <= val (dbl m e))%R else (val (dbl m e) < r)%R) →
  ∃ v, adjust (E:=E) (dbl m e) q scale dsign false full = Done v ∧ (done_with r v ∨ goes_on near r v) ∧ (near m e r → done_with r v ∨ goes_on last r v).
Proof.
  intros Gq Hq Hgt Hside. destruct far_units as [H256 Htop]. pose proof (pow2_pos (e - 1)) as Hp. rewrite adjust_eq. set (x := (Rabs (val (dbl m e) - r) / pow2 (e - 1))%R) in *.
  assert (Rabs (val (dbl m e) - r) = x * pow2 (e - 1))%R as Hx by (unfold x; field; lra). rewrite Hx in Hgt, H256.
  assert (1 < x <= 256)%R as Hx1 by nra. pose proof (within_error 5 _ _ ltac:(lia) Hq) as Herr. pose proof eps_range as [He0 He1]. cbn [INR] in Herr.
  assert (Rabs (val q - x) <= / 100000000000)%R as Hqx%Rabs_le_inv by (eapply Rle_trans; [exact Herr|nra]). clear Herr.
  assert (∀ a, good a → (Rabs (val a - x / 2) <= / 100000000000)%R → (2 / 5 <= val a < 900)%R → (dsign ≠ 0 → (3 / 4 <= val a)%R) → ¬ near m e r →
    ∃ v, move a (if negb (dsign =? 0) then a else SFopp a) scale dsign full = Done v ∧ (done_with r v ∨ goes_on near r v) ∧ (near m e r → done_with r v ∨ goes_on last r v)) as Hacc.
  { intros a Ga Ha Har Hd Hnn. assert (val (if negb (dsign =? 0) then a else SFopp a) = if (dsign =? 0)%Z then - val a else val a)%R as Ha1 by (destruct (dsign =? 0); cbn [negb]; [apply val_opp|done]).
    destruct (move_accurate a (if negb (dsign =? 0) then a else SFopp a) scale dsign full Ga) as (v & Hv & Hend); try done.
    - destruct (dsign =? 0); cbn [negb]; [|done]. destruct Ga as [Gf Go]. split; [by destruct a|by destruct a].
    - by apply (close_units (val a) _ x Hx Ha dsign).
    - exists v. split; [done|]. split; [done|]. intros Hn. done. }
  unfold adjustment. destruct (of_Z_ok 2 ltac:(lia)) as [G2 V2]. destruct (of_Z_ok 1 ltac:(lia)) as [G1 V1]. destruct tolerances as (_ & _ & _ & (G5 & V5)).
  assert (good (fmul q c_0_5) ∧ (Rabs (val (fmul q c_0_5) - x / 2) <= / 100000000000)%R) as [Gh Vh].
  { pose proof (pow2_le 9 1022 ltac:(lia)) as Hbig. rewrite (pow2_IZR 9) in Hbig by lia. change (2 ^ 9) with 512 in Hbig. pose proof (pow2_lt 1022 1023 ltac:(lia)).
    assert (rounds (fmul q c_0_5) (val q * val c_0_5)) as Hr5 by (apply fmul_ok; [done|done|]; rewrite V5, Rabs_pos_eq by lra; lra).
    split; [by eapply rounds_good|]. rewrite V5 in Hr5. pose proof (rounds_error _ _ Hr5) as Herr. rewrite (Rabs_pos_eq (val q * / 2)) in Herr by lra.
    pose proof tiny_bounds as [T1 T2]. pose proof (pow2_le (-1075) (-53) ltac:(lia)). fold eps in *. apply Rabs_le_inv in Herr.
    assert (pow2 (-53) * (val q * / 2) <= / 1000000000000000 * 129)%R by (apply Rmult_le_compat; unfold eps in *; lra). 
    assert (Rabs (val q - x) <= 6 * eps * 256)%R as Hqx2%Rabs_le_inv by (pose proof (within_error 5 _ _ ltac:(lia) Hq) as Hw; cbn [INR] in Hw; eapply Rle_trans; [exact Hw|nra]).
    unfold eps in *. apply Rabs_le. lra. }
  apply Rabs_le_inv in Vh as Vh'. destruct (leb q (of_Z 2)) eqn:Hle.
  - apply leb_ok in Hle; [|done|done]. rewrite V2 in Hle. destruct (negb (dsign =? 0)) eqn:Hds; [|destruct (negb (power_of_2 (dbl m e))) eqn:Hpw].
    + apply negb_true_iff in Hds. destruct (move_one (of_Z 1) scale dsign full G1) as (v & Hv & Hend); try (rewrite Hds); try done.
      * apply Z.eqb_neq in Hds. done.
      * rewrite Hx, (half e). nra.
      * by rewrite Hds in Hside.
      * exists v. split; [done|]. split; [|by intros _]. destruct Hend as [Hend|(m1 & e1 & ? & ? & ? & ?)]; [by left|right]. exists m1, e1. eauto using last_near.
    + apply negb_false_iff in Hds. rewrite power_of_2_dbl in Hpw by (done || lia). apply negb_true_iff, Z.eqb_neq in Hpw.
      destruct (move_one (SFopp (of_Z 1)) scale dsign full) as (v & Hv & Hend); try (rewrite Hds); try done.
      * rewrite val_opp, V1. lra.
      * rewrite Hx, (half e). nra.
      * by rewrite Hds in Hside.
      * exists v. split; [done|]. split; [|by intros _]. destruct Hend as [Hend|(m1 & e1 & ? & ? & ? & ?)]; [by left|right]. exists m1, e1. eauto using last_near.
    + apply negb_false_iff in Hds. rewrite power_of_2_dbl in Hpw by (done || lia). apply negb_false_iff, Z.eqb_eq in Hpw. rewrite Hds in Hside.
      assert (¬ near m e r) as Hnn.
      { intros [_ Hn]. assert (r < val (dbl m e))%R as Hlt. { destruct Hside as [|Heq]; [done|]. rewrite Heq, Rminus_diag, Rabs_R0 in Hx. nra. }
        specialize (Hn Hpw Hlt). rewrite Hx, (quarter e) in Hn. pose proof (pow2_pos (e - 2)). nra. }
      destruct (SFltb q (of_Z 1)) eqn:Hlt1; cbv zeta; apply Hacc; try done; try (intros Hd; apply Z.eqb_eq in Hds; done); try lra.
      apply SFltb_ok in Hlt1; [|done|done]. apply Rabs_le. lra.
  - apply leb_false in Hle; [|done|done]. rewrite V2 in Hle. cbv zeta. apply Hacc; try done; try (intros; lra); try lra.
    intros [Hn _]. rewrite Hx in Hn. nra.
Qed.
End adjust.
(** ** The decision *)
Definition decided (m : positive) (e : Z) (r : R) (v : verdict) : Prop :=
  (done_with r v ∨ goes_on near r v) ∧ (near m e r → done_with r v ∨ goes_on last r v) ∧ (last m e r → done_with r v).

Lemma done_decided m e r v : done_with r v → decided m e r v.
Proof. intros H. split; [by left|]. split; [by left|done]. Qed.

Lemma rest_set_sign b n s : rest_of b n → rest_of (set_sign s b) n.
Proof. done. Qed.

Definition pmax : positive := 9007199254740991.
Lemma pmax_val e : val (dbl pmax (e - 1)) = (pow2 (e + 52) - pow2 (e - 1))%R.
Proof.
  rewrite dbl_val. change (Z.pos pmax) with (2 ^ 53 - 1). rewrite minus_IZR, <- (pow2_IZR 53), Rmult_minus_distr_r, <- pow2_add by lia.
  replace (53 + (e - 1)) with (e + 52) by lia. ring.
Qed.

Section decide.
Context {E : Type} (m : positive) (e : Z) (r : R).
Context (Hm : normal_m m) (He : -965 ≤ e ≤ 970) (Hr : (pow2 (-912) <= r < pow2 1022)%R) (Hfar : far m e r).

Lemma drop_down_dbl scale dsign cut :
  Z.pos m = 2 ^ 52 → drop_down (dbl m e) scale dsign cut = if cut then Cont (dbl pmax (e - 1)) else Break (dbl pmax (e - 1)) dsign false.
Proof.
  intros Hm52. unfold drop_down. cbv zeta. rewrite exp_mask_dbl by (done || lia). unfold P.
  rewrite (proj2 (Z.leb_gt ((e + 1075) * Exp_msk1) _)) by (unfold Exp_msk1; lia). rewrite andb_false_r.
  assert (of_words (Z.lor ((e + 1075) * Exp_msk1 - Exp_msk1) Bndry_mask1) FFFFFFFF = dbl pmax (e - 1)) as ->; [|done]. apply of_words_dbl; [done|lia| |done]. change Exp_msk1 with (2 ^ 20). replace ((e + 1075) * 2 ^ 20 - 2 ^ 20) with ((e + 1074) * 2 ^ 20) by lia.
  unfold Bndry_mask1. rewrite lor_low by lia. change (Z.pos pmax / 2 ^ 32) with (2 ^ 20 + 1048575). lia.
Qed.

(** Below a power of 2 the doubles are half as far apart. *)
Lemma below_power scale dsign :
  Z.pos m = 2 ^ 52 → (r < val (dbl m e))%R → (pow2 (e - 2) < Rabs (val (dbl m e) - r) <= pow2 (e - 1))%R →
  done_with r (drop_down (dbl m e) scale dsign false).
Proof.
  intros Hm52 Hlt Herr. rewrite drop_down_dbl by done. eexists _, _. split; [done|]. apply last_rounds; [done|lia|].
  assert (val (dbl m e) = pow2 (e + 52)) as Hv by (rewrite dbl_val, Hm52, Z.add_comm, pow2_add, (pow2_IZR 52) by lia; done).
  pose proof (pmax_val e) as Hp. pose proof (quarter e) as Hq. rewrite Rabs_pos_eq in Herr by lra. split.
  - rewrite Hp, <- Hv. replace (e - 1 - 1) with (e - 2) by lia. pose proof (pow2_pos (e - 2)). apply Rabs_def1; lra.
  - intros Hx. done.
Qed.

Lemma half_way_spec scale dsign :
  (Rabs (val (dbl m e) - r) = pow2 (e - 1))%R → (if (dsign =? 0)%Z then (r <= val (dbl m e))%R else (val (dbl m e) < r)%R) →
  returns (half_way (E:=E) (dbl m e) scale dsign false 1 0) (done_with r).
Proof.
  intros Herr Hside. pose proof (pow2_pos (e - 1)) as Hp1. pose proof (half e) as Hh. pose proof (quarter e) as Hq. pose proof (pow2_pos (e - 2)) as Hp2.
  unfold half_way. rewrite all_ones_dbl, power_of_2_dbl, (lsb_dbl m e) by (done || lia). change (negb (0 =? 0)) with false. cbv iota.
  replace (if negb (dsign =? 0) then Done (Z.pos m =? 2 ^ 53 - 1) else Done false)
    with (@Done E bool (negb (dsign =? 0) && (Z.pos m =? 2 ^ 53 - 1))) by (by destruct (dsign =? 0)).
  cbn [obind]. apply returns_done.
  destruct (dsign =? 0) eqn:Hds; cbn [negb andb].
  - rewrite Rabs_pos_eq in Herr by lra. destruct (Z.eqb_spec (Z.pos m) (2 ^ 52)) as [Hm52|Hm52].
    { apply below_power; [done|lra|]. rewrite Rabs_pos_eq; lra. }
    destruct (Z.even (Z.pos m)) eqn:Hev.
    { eexists _, _. split; [done|]. apply nearest_rounds; [done|lia|rewrite Rabs_pos_eq; lra|done|done]. }
    rewrite (sulp_dbl m e) by (done || lia). unfold normal_m in Hm. destruct (next_down m e) as [-> Hn]; [done|lia|lia|].
    cbv zeta. cbn [is_zero dbl]. eexists _, _. split; [done|].
    assert (val (dbl (m - 1) e) = val (dbl m e) - pow2 e)%R as Hv by (rewrite !dbl_val, Pos2Z.inj_sub, minus_IZR by lia; ring).
    apply nearest_rounds; [done|lia|rewrite Hv, Rabs_left; lra| |rewrite Hv; lra]. intros _. rewrite Pos2Z.inj_sub by lia. rewrite Z.even_sub, Hev. done.
  - rewrite Rabs_left in Herr by lra. destruct (Z.eqb_spec (Z.pos m) (2 ^ 53 - 1)) as [Hm53|Hm53].
    { destruct (same_words (dbl m e) Big0 Big1) eqn:Hsame.
      { exfalso. apply same_words_dbl in Hsame; [|done|lia]. rewrite Hm53 in Hsame. change ((2 ^ 53 - 1) / 2 ^ 32) with (2 ^ 21 - 1) in Hsame. unfold Big0, Exp_msk1, DBL_MAX_EXP, Bias in Hsame. lia. }
      eexists _, _. split; [done|]. assert (of_words (Z.land (word0 (dbl m e)) Exp_mask + Exp_msk1) 0 = dbl p52 (e + 1)) as ->.
      { rewrite exp_mask_dbl by (done || lia). apply of_words_dbl; [done|lia| |done]. change Exp_msk1 with (2 ^ 20). change (Z.pos p52 / 2 ^ 32) with (2 ^ 20). lia. }
      assert (val (dbl p52 (e + 1)) = val (dbl m e) + pow2 e)%R as Hv.
      { rewrite p52_val, dbl_val, Hm53. replace (e + 1 + 52) with (53 + e) by lia. rewrite pow2_add, (pow2_IZR 53), minus_IZR by lia. ring. }
      apply last_rounds; [done|lia|]. unfold last. rewrite Hv. replace (e + 1 - 1) with e by lia. replace (e + 1 - 2) with (e - 1) by lia.
      split; [|intros _ _]; rewrite Rabs_pos_eq; lra. }
    destruct (Z.even (Z.pos m)) eqn:Hev.
    { eexists _, _. split; [done|]. apply nearest_rounds; [done|lia|rewrite Rabs_left; lra|done|intros; lra]. }
    rewrite (sulp_dbl m e) by (done || lia). unfold normal_m in Hm. destruct (next_up m e) as [-> Hn]; [done|lia|lia|]. eexists _, _. split; [done|].
    assert (val (dbl (m + 1) e) = val (dbl m e) + pow2 e)%R as Hv by (rewrite !dbl_val, Pos2Z.inj_add, plus_IZR; ring).
    apply nearest_rounds; [done|lia|rewrite Hv, Rabs_pos_eq; lra| |lia]. intros _. rewrite Pos2Z.inj_add. rewrite Z.even_add, Hev. done.
Qed.

(** The quotient when the approximation is more than half a unit off. *)
Lemma far_ratio delta bs D B :
  rest_of delta D → big bs B → B < D → (IZR D * pow2 (e - 1) = Rabs (val (dbl m e) - r) * IZR B)%R →
  ∃ q, ratio (E:=E) delta bs = Done q ∧ good q ∧ within 5 (val q) (Rabs (val (dbl m e) - r) / pow2 (e - 1)) ∧ (pow2 (e - 1) < Rabs (val (dbl m e) - r))%R.
Proof.
  intros Hd Hb HBD Heq. pose proof (big_pos _ _ Hb) as HB0. pose proof (IZR_lt _ _ HB0) as HBr. pose proof (pow2_pos (e - 1)) as Hp1.
  destruct (far_units m e r Hm He Hr Hfar) as [H256 _].
  assert (D ≤ 256 * B) as HD256. { apply le_IZR. rewrite mult_IZR. apply Rmult_le_reg_r with (pow2 (e - 1)); nra. }
  assert (pow2 (e - 1) < Rabs (val (dbl m e) - r))%R as Hgt by (apply IZR_lt in HBD; apply Rmult_lt_reg_r with (IZR B); nra).
  pose proof (Z.log2_le_mono B D ltac:(lia)). pose proof (Z.log2_le_mono D (B * 2 ^ 8) ltac:(lia)) as Hlog. rewrite Z.log2_mul_pow2 in Hlog by lia.
  destruct Hd as [Hbig _]. specialize (Hbig ltac:(lia)). destruct (ratio_spec (E:=E) delta bs D B Hbig Hb ltac:(lia)) as (q & Hq & Gq & Wq).
  assert (IZR D / IZR B = Rabs (val (dbl m e) - r) / pow2 (e - 1))%R as HDB by (apply Rmult_eq_reg_r with (IZR B * pow2 (e - 1))%R; [field_simplify; lra|nra]).
  rewrite HDB in Wq. by exists q.
Qed.

Lemma decide_spec p delta bs D B scale full :
  pool_ok p → rest_of delta D → 0 ≤ D → big bs B → 2 * B < capacity → (IZR D * pow2 (e - 1) = Rabs (val (dbl m e) - r) * IZR B)%R →
  (if (sign delta =? 0)%Z then (r <= val (dbl m e))%R else (val (dbl m e) < r)%R) →
  run (decide_ (E:=E) (dbl m e) delta bs scale false full 1 0) p 0 (λ v _, decided m e r v.1 ∧ block_ok v.2).
Proof.
  intros Hp Hd HD Hb HB Heq Hside. pose proof (big_pos _ _ Hb) as HB0. pose proof (IZR_lt _ _ HB0) as HBr. pose proof (pow2_pos (e - 1)) as Hp1.
  unfold decide_. cbv zeta. cbn [andb]. set (dsign := sign delta) in *. pose proof (rest_set_sign delta D 0 Hd) as Hd'. set (delta' := set_sign 0 delta) in *.
  pose proof (DtoaBig.rest_block delta' D HD Hd') as Hblk. destruct (rest_cmp (E:=E) delta' D bs B HD Hd' Hb) as (c & Hc & Hclt & Hceq).
  apply run_lift. rewrite Hc. apply returns_done.
  assert (∀ v, done_with r v → run (E:=E) (ret (v, delta')) p 0 (λ v _, decided m e r v.1 ∧ block_ok v.2)) as Hend.
  { intros v Hv. apply run_ret; [done|]. split; [by apply done_decided|done]. }
  destruct (Z.ltb_spec c 0) as [Hc0|Hc0].
  - assert (Rabs (val (dbl m e) - r) < pow2 (e - 1))%R as Hlt by (assert (IZR D < IZR B)%R by (apply IZR_lt; lia); apply Rmult_lt_reg_r with (IZR B); nra).
    rewrite power_of_2_dbl, exp_mask_dbl by (done || lia). unfold Dtoa.P.
    rewrite (proj2 (Z.leb_gt ((e + 1075) * Exp_msk1) _)) by (unfold Exp_msk1; lia). rewrite orb_false_r.
    destruct (negb (dsign =? 0) || negb (Z.pos m =? 2 ^ 52)) eqn:Hcase.
    { apply Hend. eexists _, _. split; [done|]. apply last_rounds; [done|lia|]. split; [done|]. intros Hm52 Hrv.
      apply orb_true_iff in Hcase as [Hn%negb_true_iff|Hn%negb_true_iff%Z.eqb_neq]; [|lia]. rewrite Hn in Hside. lra. }
    apply orb_false_iff in Hcase as [Hn%negb_false_iff Hm52%negb_false_iff%Z.eqb_eq]. rewrite Hn in Hside.
    apply run_lift. rewrite (DtoaBig.no_words_spec delta' D) by done. apply returns_done. destruct (Z.eqb_spec D 0) as [->|HD0].
    { apply Hend. eexists _, _. split; [done|]. apply last_rounds; [done|lia|]. unfold last. assert (Rabs (val (dbl m e) - r) = 0)%R as -> by nra. pose proof (pow2_pos (e - 2)). split; intros; lra. }
    destruct Hd' as [Hbig _]. specialize (Hbig ltac:(lia)).
    eapply (run_bind _ _ _ 0); [apply (lshift_spec p delta' D Log2P); [done|done|by vm_compute|change (2 ^ Log2P) with 2; lia]|].
    change (2 ^ Log2P) with 2. intros delta2 p2 Hp2 [Hbig2 _]. destruct (cmp_spec (E:=E) delta2 bs _ _ Hbig2 Hb) as (c2 & Hc2 & Hc2lt & Hc2eq).
    apply run_lift. rewrite Hc2. apply returns_done. apply run_ret; [done|]. split; [|destruct Hbig2 as (? & [? _] & _); done]. cbn [fst]. apply done_decided.
    pose proof (quarter e) as Hq. assert (IZR (D * 2) * pow2 (e - 2) = Rabs (val (dbl m e) - r) * IZR B)%R as Heq2 by (rewrite mult_IZR, Rmult_assoc, <- Hq; exact Heq). pose proof (pow2_pos (e - 2)).
    destruct (Z.ltb_spec 0 c2).
    + assert (IZR B < IZR (D * 2))%R by (apply IZR_lt; lia). assert (pow2 (e - 2) < Rabs (val (dbl m e) - r))%R as Hgt by (apply Rmult_lt_reg_r with (IZR B); nra).
      apply below_power; [done| |lra]. destruct Hside as [|Hs]; [done|]. rewrite Hs, Rminus_diag, Rabs_R0 in Hgt. lra.
    + assert (IZR (D * 2) <= IZR B)%R by (apply IZR_le; lia). assert (Rabs (val (dbl m e) - r) <= pow2 (e - 2))%R as Hle by (apply Rmult_le_reg_r with (IZR B); nra).
      eexists _, _. split; [done|]. apply last_rounds; [done|lia|]. by split.
  - destruct (Z.eqb_spec c 0) as [Hc1|Hc1].
    { apply run_lift. eapply returns_mono; [apply half_way_spec; [|done]|intros v Hv; by apply Hend]. assert (D = B) as -> by lia. apply Rmult_eq_reg_r with (IZR B); lra. }
    destruct (far_ratio delta' bs D B Hd' Hb ltac:(lia) Heq) as (q & Hq & Gq & Wq & Hgt). apply run_lift. rewrite Hq. apply returns_done.
    destruct (adjust_spec (E:=E) m e r Hm He Hr Hfar q scale dsign full Gq Wq Hgt Hside) as (v & Hv & Hv1 & Hv2).
    apply run_lift. rewrite Hv. apply returns_done. apply run_ret; [done|]. split; [|done]. cbn [fst]. split; [done|]. split; [done|]. intros [Hl _]. lra.
Qed.
End decide.
(** ** The numbers compared *)
Section round.
Context {E : Type}.

Lemma shift_if p b m k :
  pool_ok p → big b m → 0 ≤ k → m * 2 ^ k < capacity → run (if 0 <? k then lshift (E:=E) b k else ret b) p 0 (λ b' _, big b' (m * 2 ^ k)).
Proof.
  intros Hp Hb Hk Hc. destruct (Z.ltb_spec 0 k).
  - eapply run_mono; [by apply lshift_spec|]. by intros ? ? [? _].
  - apply run_ret; [done|]. replace k with 0 by lia. by rewrite Z.mul_1_r.
Qed.

Lemma pow5_if p b m k :
  pool_ok p → big b m → 0 ≤ k < 1000 → m * 5 ^ k < capacity → run (if 0 <? k then pow5mult (E:=E) b k else ret b) p 0 (λ b' _, big b' (m * 5 ^ k)).
Proof.
  intros Hp Hb Hk Hc. destruct (Z.ltb_spec 0 k); [apply pow5mult_spec; done || lia|].
  apply run_ret; [done|]. replace k with 0 by lia. by rewrite Z.mul_1_r.
Qed.

Lemma product_bits n b f t :
  0 < n ≤ 2 ^ b → 0 ≤ b → 0 ≤ f → 0 ≤ t → b + 3 * f + t ≤ 4063 → 0 < n * 5 ^ f * 2 ^ t < capacity ∧ 0 < n * 5 ^ f < capacity.
Proof.
  intros Hn Hb Hf Ht Hs. pose proof (Z.pow_pos_nonneg 5 f ltac:(lia) Hf). pose proof (Z.pow_pos_nonneg 2 t ltac:(lia) Ht).
  assert (5 ^ f ≤ 2 ^ (3 * f)) as H5 by (rewrite Z.pow_mul_r by lia; apply Z.pow_le_mono_l; lia).
  assert (n * 5 ^ f ≤ 2 ^ (b + 3 * f)) as H1 by (rewrite Z.pow_add_r by lia; apply Z.mul_le_mono_nonneg; lia).
  assert (n * 5 ^ f * 2 ^ t ≤ 2 ^ (b + 3 * f + t)) as H2 by (rewrite (Z.pow_add_r 2 (b + 3 * f)) by lia; apply Z.mul_le_mono_nonneg_r; lia).
  split; (split; [nia|]); [apply (DtoaBig.capacity_bits _ (b + 3 * f + t))|apply (DtoaBig.capacity_bits _ (b + 3 * f))]; nia.
Qed.

(** [bb] is the approximation in units of [bs] and [bd] the numeral. *)
Lemma factors_spec e be bits scale f ed :
  common_factors ed be bits scale = f → e ≤ be ≤ e + 52 → bits = 53 - (be - e) → -968 ≤ e ≤ 970 → scale = 0 ∨ scale = 106 → -400 ≤ ed ≤ 400 →
  lsb f = 1 ∧ lsb1 f = 0 ∧ 0 ≤ bb5 f ≤ 400 ∧ 0 ≤ bd5 f ≤ 400 ∧ 0 ≤ bb2 f ≤ 1500 ∧ 0 ≤ bd2 f ≤ 1650 ∧ 0 ≤ bs2 f ≤ 1500 ∧
  bb2 f = bs2 f + 1 + (be - e) ∧ bd5 f - bb5 f = ed ∧ bd2 f - bs2 f = ed + scale + 1 - e.
Proof.
  intros Hf Hbe Hbits He Hs Hed. unfold common_factors, Emin, P in Hf.
  assert (be - scale + bits - 1 = e + 52 - scale) as Hi by lia. rewrite Hi in Hf. rewrite (proj2 (Z.ltb_ge (e + 52 - scale) _)) in Hf by lia.
  destruct (Z.leb_spec 0 ed), (Z.leb_spec 0 be); cbv beta iota zeta in Hf; subst f; cbn [bb2 bb5 bd2 bd5 bs2 lsb lsb1];
    match goal with |- context [if 0 <? ?a then _ else _] => destruct (Z.ltb_spec 0 a) end; repeat split; try lia.
Qed.

Lemma make_bb_spec p bs bb f n :
  pool_ok p → big bs 1 → big bb n → n ≤ 2 ^ 53 → 0 ≤ bb5 f ≤ 400 → 0 ≤ bb2 f ≤ 1500 →
  run (make_bb (E:=E) bs bb f) p 0 (λ r _, big r.1 (5 ^ bb5 f) ∧ big r.2 (n * 5 ^ bb5 f * 2 ^ bb2 f)).
Proof.
  intros Hp Hbs Hbb Hn H5 H2. pose proof (big_pos _ _ Hbb). unfold make_bb.
  destruct (product_bits n 53 (bb5 f) (bb2 f)) as [Hc1 Hc2]; [lia..|]. destruct (product_bits 1 53 (bb5 f) (bb2 f)) as [Hc3 Hc4]; [lia..|].
  eapply (run_bind _ _ _ 0 _ (λ r _, big r.1 (5 ^ bb5 f) ∧ big r.2 (n * 5 ^ bb5 f))).
  - destruct (Z.ltb_spec 0 (bb5 f)) as [H0|H0].
    + eapply (run_bind _ _ _ 0); [apply (pow5mult_spec p bs 1); [done|done|lia|lia]|]. rewrite Z.mul_1_l in *. intros bs' p1 Hp1 Hbs'.
      eapply (run_bind _ _ _ 1); [apply (mult_spec p1 bs' bb (5 ^ bb5 f) n); [done|done|done|lia]|]. intros bb1 p2 Hp2 [Hbb1 _].
      eapply (run_bind _ _ _ (-1)); [apply Bfree_spec; [done|by eapply big_block]|]. intros _ p3 Hp3 _.
      eapply run_conv; [apply run_ret; [done|]|lia]. cbn [fst snd]. split; [done|]. by rewrite Z.mul_comm.
    + apply run_ret; [done|]. replace (bb5 f) with 0 by lia. cbn [fst snd]. rewrite Z.mul_1_r. done.
  - intros [bs' bb'] p1 Hp1 [Hbs' Hbb']. cbn [fst snd] in *. eapply (run_bind _ _ _ 0); [apply (shift_if p1 bb' (n * 5 ^ bb5 f)); [done|done|lia|lia]|].
    intros bb2' p2 Hp2 Hbb2. eapply run_conv; [apply run_ret; [done|]|lia]. done.
Qed.

Lemma make_bd_spec p bd f n :
  pool_ok p → big bd n → n ≤ 2 ^ 140 → 0 ≤ bd5 f ≤ 400 → 0 ≤ bd2 f ≤ 1650 →
  run (make_bd (E:=E) bd f) p 0 (λ b _, big b (n * 5 ^ bd5 f * 2 ^ bd2 f)).
Proof.
  intros Hp Hbd Hn H5 H2. pose proof (big_pos _ _ Hbd). unfold make_bd. destruct (product_bits n 140 (bd5 f) (bd2 f)) as [Hc1 Hc2]; [lia..|].
  eapply (run_bind _ _ _ 0); [apply (pow5_if p bd n); [done|done|lia|lia]|]. intros bd' p1 Hp1 Hbd'.
  eapply run_conv; [apply (shift_if p1 bd'); [done|done|lia|lia]|lia].
Qed.

(** The numbers stand for the approximation and the numeral. *)
Lemma units_value (m : positive) e n be N ed scale f :
  n * 2 ^ (be - e) = Z.pos m → e ≤ be → bb2 f = bs2 f + 1 + (be - e) → bd5 f - bb5 f = ed → bd2 f - bs2 f = ed + scale + 1 - e →
  0 ≤ bb5 f → 0 ≤ bd5 f → 0 ≤ bs2 f → 0 ≤ bd2 f →
  let B := 5 ^ bb5 f * 2 ^ bs2 f in
  n * 5 ^ bb5 f * 2 ^ bb2 f = 2 * Z.pos m * B ∧ (IZR (N * 5 ^ bd5 f * 2 ^ bd2 f) * pow2 (e - 1) = IZR N * pow10 ed * pow2 scale * IZR B)%R.
Proof.
  intros Hn Hbe -> Hd5 Hd2 H5 Hd50 Hs2 Hd20. cbv zeta. split.
  - rewrite <- Hn, !Z.pow_add_r by lia. change (2 ^ 1) with 2. ring.
  - rewrite !mult_IZR, !DtoaBig.pow5_IZR, <- !pow2_IZR by done. replace (bd5 f) with (bb5 f + ed) by lia. rewrite tenpow_add.
    assert (pow2 (- (bb5 f + ed)) * pow2 (bd2 f) * pow2 (e - 1) = pow2 scale * pow2 (- bb5 f) * pow2 (bs2 f))%R as Hp by (rewrite <- !pow2_add; f_equal; lia).
    transitivity (IZR N * pow10 (bb5 f) * pow10 ed * (pow2 (- (bb5 f + ed)) * pow2 (bd2 f) * pow2 (e - 1)))%R; [ring|]. rewrite Hp. ring.
Qed.

(** Whatever the numbers are that stand for the distance, the decision has the property [Q]. *)
Definition decides (m : positive) (e : Z) (r : R) (scale : Z) (cut full : bool) (Q : verdict → Prop) : Prop :=
  ∀ p delta bs D B, pool_ok p → rest_of delta D → 0 ≤ D → big bs B → 2 * B < capacity →
    (IZR D * pow2 (e - 1) = Rabs (val (dbl m e) - r) * IZR B)%R →
    (if (sign delta =? 0)%Z then (r <= val (dbl m e))%R else (val (dbl m e) < r)%R) →
    run (decide_ (E:=E) (dbl m e) delta bs scale cut full 1 0) p 0 (λ v _, Q v.1 ∧ block_ok v.2).

Lemma round_spec p (m : positive) e r bd0 N ed scale cut full Q :
  normal_m m → -965 ≤ e ≤ 970 → decides m e r scale cut full Q →
  pool_ok p → big bd0 N → N ≤ 2 ^ 140 → -400 ≤ ed ≤ 400 → scale = 0 ∨ scale = 106 → r = (IZR N * pow10 ed * pow2 scale)%R →
  run (round_ (E:=E) (dbl m e) bd0 ed scale cut full) p 4 (λ '(v, bb, bd, bs, delta) _,
    Q v ∧ block_ok bb ∧ block_ok bd ∧ block_ok bs ∧ block_ok delta).
Proof.
  intros Hm He HQ Hp (ws & Hh & Hnorm & HN) HN140 Hed Hs Hrv. pose proof (holds_block _ _ Hh) as Hb0. unfold round_.
  eapply (run_bind _ _ _ 1); [apply Balloc_spec; [done|apply Hb0]|]. intros bd p1 Hp1 [[Hbd Hk] _].
  destruct (Bcopy_spec (E:=E) bd bd0 ws Hh Hbd) as (bd1 & Hc & Hh1 & _ & _).
  { destruct Hbd as (_ & -> & _), Hb0 as (_ & -> & _). by rewrite Hk. }
  apply run_lift. rewrite Hc. apply returns_done. assert (big bd1 N) as Hbd1 by (by exists ws).
  destruct (dbl_good m e Hm ltac:(lia)) as [_ Hok].
  eapply (run_bind _ _ _ 1); [apply (d2b_spec p1 m e Hp1 Hok)|]. intros [[bb be] bits] p2 Hp2 (n & Hbb & Hbe & Hn & Hbits & _).
  eapply (run_bind _ _ _ 1); [apply i2b_spec; [done|lia]|]. intros bs p3 Hp3 [Hbs _]. cbv zeta.
  pose proof (big_pos _ _ Hbb) as Hn0. unfold normal_m in Hm. assert (Z.log2 n + (be - e) = 52) as Hlog.
  { rewrite Z.add_comm. rewrite <- Z.log2_mul_pow2, Hn by lia. apply Z.log2_unique; [lia|]. change (2 ^ Z.succ 52) with (2 ^ 53). lia. }
  pose proof (Z.log2_nonneg n). destruct (Z.log2_spec n Hn0) as [_ Hn53].
  assert (n ≤ 2 ^ 53) as Hnb by (pose proof (Z.pow_le_mono_r 2 (Z.succ (Z.log2 n)) 53 ltac:(lia) ltac:(lia)); lia).
  remember (common_factors ed be bits scale) as f eqn:Hf. symmetry in Hf.
  destruct (factors_spec e be bits scale f ed Hf) as (-> & -> & Hb5 & Hd5 & Hb2 & Hd2 & Hs2 & E1 & E2 & E3); [lia|lia|lia|done|lia|].
  eapply (run_bind _ _ _ 0); [apply (make_bb_spec p3 bs bb f n); done|]. intros [bs1 bb1] p4 Hp4 [Hbs1 Hbb1]. cbn [fst snd] in *.
  eapply (run_bind _ _ _ 0); [apply (make_bd_spec p4 bd1 f N); done|]. intros bd2' p5 Hp5 Hbd2.
  destruct (product_bits 1 52 (bb5 f) (bs2 f)) as [HcB _]; [lia..|].
  eapply (run_bind _ _ _ 0); [apply (shift_if p5 bs1 (5 ^ bb5 f)); [done|done|lia|lia]|]. intros bs3 p6 Hp6 Hbs3.
  destruct (units_value m e n be N ed scale f Hn Hbe E1 E2 E3) as [HA HD]; [lia..|]. rewrite <- Hrv in HD. rewrite HA in Hbb1. set (B := 5 ^ bb5 f * 2 ^ bs2 f) in *.
  eapply (run_bind _ _ _ 1); [eapply (diff_spec p6 bb1 bd2'); [done|exact Hbb1|exact Hbd2]|]. intros delta p7 Hp7 [[Hrest Hsign] _].
  set (Dn := N * 5 ^ bd5 f * 2 ^ bd2 f) in *. pose proof (big_pos _ _ Hbs3) as HB0. pose proof (IZR_lt _ _ HB0) as HBr. pose proof (pow2_pos (e - 1)) as Hpe.
  assert (IZR (2 * Z.pos m * B) * pow2 (e - 1) = val (dbl m e) * IZR B)%R as HV.
  { rewrite dbl_val, (half e), !mult_IZR. ring. }
  eapply (run_bind _ _ _ 0).
  { apply (HQ p7 delta bs3 _ B Hp7 Hrest ltac:(lia) Hbs3).
    - destruct (product_bits 2 52 (bb5 f) (bs2 f)) as [HcB2 _]; [lia..|]. unfold B. lia.
    - rewrite abs_IZR, minus_IZR. transitivity (Rabs ((IZR (2 * Z.pos m * B) - IZR Dn) * pow2 (e - 1))); [rewrite Rabs_mult, (Rabs_pos_eq (pow2 _)); lra|].
      rewrite Rmult_minus_distr_r, HV, HD, <- Rmult_minus_distr_r, Rabs_mult, (Rabs_pos_eq (IZR B)); lra.
    - rewrite Hsign. destruct (Z.ltb_spec (2 * Z.pos m * B) Dn) as [Hlt|Hge].
      + apply IZR_lt in Hlt. apply Rmult_lt_reg_r with (IZR B); [done|]. rewrite <- HV, <- HD. by apply Rmult_lt_compat_r.
      + apply IZR_le in Hge. apply Rmult_le_reg_r with (IZR B); [done|]. rewrite <- HV, <- HD. apply Rmult_le_compat_r; lra. }
  intros [v delta1] p8 Hp8 [Hdec Hblk]. cbn [fst snd] in *. eapply run_conv; [apply run_ret; [done|]|lia]. split; [done|]. split; [by eapply big_block|]. split; [by eapply big_block|]. split; [by eapply big_block|done].
Qed.

(** ** The loop *)
Lemma far_range (m : positive) e r : normal_m m → (pow2 (-912) <= r < pow2 1022)%R → far m e r → -965 ≤ e ≤ 970.
Proof.
  intros Hm Hr Hfar. pose proof (far_value m e r Hm Hfar) as Hv. pose proof (dbl_range m e Hm) as [Hlo Hhi]. pose proof (pow2_pos e). pose proof (pow2_pos (-913)).
  pose proof (pow2_S (-913)) as H1. pose proof (pow2_S 1022) as H2. change (-913 + 1) with (-912) in H1. change (1022 + 1) with 1023 in H2. split.
  - destruct (decide (-965 ≤ e)) as [|Hlt]; [done|]. pose proof (pow2_le (e + 53) (-913) ltac:(lia)). lra.
  - destruct (decide (e ≤ 970)) as [|Hlt]; [done|]. pose proof (pow2_le 1023 (e + 52) ltac:(lia)). pose proof (pow2_pos 1022). lra.
Qed.

Section loop.
Context (r : R) (bd0 : Bigint) (N ed scale : Z) (cut full : bool) (F : verdict → Prop).
Context (Hr : (pow2 (-912) <= r < pow2 1022)%R) (Hbd : big bd0 N) (HN : N ≤ 2 ^ 140) (Hed : -400 ≤ ed ≤ 400) (Hs : scale = 0 ∨ scale = 106).
Context (Hrv : r = (IZR N * pow10 ed * pow2 scale)%R) (HF : ∀ v, F v → ∃ rv sg rq, v = Break rv sg rq).

Lemma loop_step fuel p (m : positive) e (P : positive → Z → R → Prop) Q :
  pool_ok p → normal_m m → far m e r → (-965 ≤ e ≤ 970 → decides m e r scale cut full Q) → (∀ v, Q v → F v ∨ goes_on P r v) →
  (∀ p' m1 e1, pool_ok p' → normal_m m1 → P m1 e1 r → run (correct_loop (E:=E) fuel (dbl m1 e1) bd0 ed scale cut full) p' (-1) (λ v _, F v)) →
  run (correct_loop (E:=E) (S fuel) (dbl m e) bd0 ed scale cut full) p (-1) (λ v _, F v).
Proof.
  intros Hp Hm Hfar HQ Hdec Hnext. pose proof (far_range m e r Hm Hr Hfar) as He. cbn [correct_loop].
  eapply (run_bind _ _ _ 4); [apply (round_spec p m e r bd0 N ed scale cut full Q); auto|]. intros [[[[v bb] bd] bs] delta] p1 Hp1 (Hv & Hbb & Hbd1 & Hbs & Hdelta).
  eapply (run_bind _ _ _ (-1)); [by apply Bfree_spec|]. intros _ p2 Hp2 _. eapply (run_bind _ _ _ (-1)); [by apply Bfree_spec|]. intros _ p3 Hp3 _.
  eapply (run_bind _ _ _ (-1)); [by apply Bfree_spec|]. intros _ p4 Hp4 _. destruct (Hdec v Hv) as [Hend|(m1 & e1 & -> & Hm1 & _ & HP)].
  - destruct (HF v Hend) as (rv & sg & rq & ->). eapply (run_bind _ _ _ (-1)); [apply Bfree_spec; [done|by eapply big_block]|]. intros _ p5 Hp5 _.
    eapply (run_bind _ _ _ (-1)); [by apply Bfree_spec|]. intros _ p6 Hp6 _. eapply run_conv; [by apply run_ret|lia].
  - eapply (run_bind _ _ _ (-1)); [by apply Bfree_spec|]. intros _ p5 Hp5 _. eapply run_conv; [by apply Hnext|lia].
Qed.

(** Three rounds are enough: the approximation is [far], then [near], then the [last]. *)
Lemma three_rounds fuel p (m : positive) e (Q : positive → Z → verdict → Prop) :
  (∀ m e, normal_m m → far m e r → -965 ≤ e ≤ 970 → decides m e r scale cut full (Q m e)) →
  (∀ m e v, Q m e v → (F v ∨ goes_on near r v) ∧ (near m e r → F v ∨ goes_on last r v) ∧ (last m e r → F v)) →
  pool_ok p → normal_m m → far m e r →
  run (correct_loop (E:=E) (S (S (S fuel))) (dbl m e) bd0 ed scale cut full) p (-1) (λ v _, F v).
Proof.
  intros HQ Hdec Hp Hm Hfar. apply (loop_step _ _ m e near (Q m e)); [done|done|done|auto|intros v Hv; by apply (Hdec _ _ _ Hv)|]. intros p1 m1 e1 Hp1 Hm1 Hn1.
  apply (loop_step _ _ m1 e1 last (Q m1 e1)); [done|done|by apply near_far|auto using near_far|intros v Hv; by apply (Hdec _ _ _ Hv)|]. intros p2 m2 e2 Hp2 Hm2 Hl2.
  apply (loop_step _ _ m2 e2 (λ _ _ _, False) (Q m2 e2)); [done|done|by apply near_far, last_near|auto using near_far, last_near|intros v Hv; left; by apply (Hdec _ _ _ Hv)|]. done.
Qed.
End loop.

Lemma correct_loop_spec fuel p r bd0 N ed scale full (m : positive) e :
  (pow2 (-912) <= r < pow2 1022)%R → big bd0 N → N ≤ 2 ^ 140 → -400 ≤ ed ≤ 400 → scale = 0 ∨ scale = 106 → r = (IZR N * pow10 ed * pow2 scale)%R →
  pool_ok p → normal_m m → far m e r →
  run (correct_loop (E:=E) (S (S (S fuel))) (dbl m e) bd0 ed scale false full) p (-1) (λ v _, done_with r v).
Proof.
  intros Hr Hbd HN Hed Hs Hrv. apply (three_rounds r bd0 N ed scale false full (done_with r) Hr Hbd HN Hed Hs Hrv) with (λ m e, decided m e r).
  - intros v (rv & sg & -> & _). eauto.
  - intros m1 e1 Hm1 Hf1 He1 p1 delta bs D B Hp1 Hd HD HB Hcap Heq Hside. by apply (decide_spec m1 e1 r Hm1 He1 Hr Hf1 p1 delta bs D B).
  - intros m1 e1 v Hv. exact Hv.
Qed.
End round.
End StrtodRound.
