(* ===== verification/StrtodStart.v ===== *)
(** * dtoa.c: the first approximation in [fpconv_strtod]

    Up to 16 digits are read into a double, which is multiplied by tabulated powers of
    10. Each step is a rounding or two; all of them together, and the digits left out,
    keep the approximation [far] enough for the correction: within [2 ^ -46] of the
    numeral. A numeral below [10 ^ -255] is scaled by [2 ^ 106]. *)
From Stdlib Require Import Reals Lra.
From S2P Require Import Prelude Libc Double DoubleSpec Bigint Dtoa FloatSpec FloatOps FloatRound DtoaWords DtoaEstimate DtoaDigits DtoaBig DtoaScale Gethex Strtod StrtodScan StrtodShort StrtodWords StrtodRound.

Module StrtodStart.
Import Double DoubleSpec Bigint Dtoa FloatSpec FloatOps FloatRound DtoaWords DtoaEstimate DtoaDigits DtoaSmall DtoaErrors DtoaScale Gethex Strtod StrtodScan StrtodShort StrtodWords StrtodRound.

(** ** Steps *)
(** A double with the error of [n] roundings. *)
Definition approx (n : nat) (v : double) (X : R) : Prop := good v ∧ within n (val v) X.

Lemma approx_le n k v X : (n ≤ k)%nat → approx n v X → approx k v X.
Proof. intros Hn [G W]. split; [done|by apply (within_le n)]. Qed.

Lemma approx_range n v X a b : (n ≤ 40)%nat → approx n v X → (pow2 a <= X <= pow2 b)%R → (pow2 (a - 1) <= val v <= pow2 (b + 1))%R.
Proof.
  intros Hn [_ W] HX. pose proof (pow2_pos a). pose proof (within_range n _ _ _ _ Hn W HX ltac:(done)) as Hr. rewrite pow2_S.
  pose proof (pow2_S (a - 1)) as Ha. replace (a - 1 + 1) with a in Ha by lia. lra.
Qed.

Lemma approx_mult n k x t X T :
  approx n x X → approx k t T → (n + k ≤ 39)%nat → (pow2 (-1021) <= X * T <= pow2 1021)%R → approx (n + k + 1) (fmul x t) (X * T).
Proof.
  intros [Gx Wx] [Gt Wt] Hn Hr. pose proof (within_mult _ _ _ _ _ _ Wx Wt) as W. pose proof (pow2_pos (-1021)).
  pose proof (within_range (n + k) _ _ _ _ ltac:(lia) W Hr ltac:(done)) as Hp. pose proof (pow2_S (-1022)) as H1. pose proof (pow2_S 1021) as H2.
  change (-1022 + 1) with (-1021) in H1. change (1021 + 1) with 1022 in H2. pose proof (pow2_lt 1022 1023 ltac:(lia)). pose proof (pow2_pos (-1022)).
  assert (rounds (fmul x t) (val x * val t)) as Hro by (apply fmul_ok; [done|done|]; rewrite Rabs_pos_eq; lra).
  split; [by eapply rounds_good|]. apply (within_trans _ _ _ (val x * val t)); [done|]. apply rounds_within; [done|lra].
Qed.

Lemma approx_div n k x t X T :
  approx n x X → approx k t T → (n + k ≤ 39)%nat → (pow2 (-1021) <= X / T <= pow2 1021)%R → approx (n + k + 1) (fdiv x t) (X / T).
Proof.
  intros [Gx Wx] [Gt Wt] Hn Hr. pose proof (within_div _ _ _ _ _ _ Wx Wt) as W. pose proof (pow2_pos (-1021)).
  pose proof (within_range (n + k) _ _ _ _ ltac:(lia) W Hr ltac:(done)) as Hp. pose proof (pow2_S (-1022)) as H1. pose proof (pow2_S 1021) as H2.
  change (-1022 + 1) with (-1021) in H1. change (1021 + 1) with 1022 in H2. pose proof (pow2_lt 1022 1023 ltac:(lia)).
  destruct (fdiv_within x t Gx Gt) as [G W1]; [by eapply within_pos|by eapply within_pos|lra|].
  split; [done|]. by apply (within_trans _ _ _ (val x / val t)).
Qed.

(** An approximation is a normal double. *)
Lemma approx_normal n v X a b :
  (n ≤ 40)%nat → approx n v X → (pow2 a <= X <= pow2 b)%R → -1021 ≤ a → ∃ m e, v = dbl m e ∧ normal_m m ∧ -1074 ≤ e ≤ 971 ∧ a - 53 ≤ e ≤ b - 51.
Proof.
  intros Hn H HX Ha. pose proof (approx_range n v X a b Hn H HX) as Hr. destruct H as [G _].
  destruct (normal_double v G) as (m & e & -> & Hm & Hok); [pose proof (pow2_le (-1022) (a - 1) ltac:(lia)); lra|].
  destruct (double_ok_mantissa _ _ _ Hok) as (_ & He & Hm53). assert (normal_m m) as Hnm by (unfold normal_m; lia). exists m, e.
  split; [done|]. split; [done|]. split; [done|]. fold (dbl m e) in Hr. pose proof (dbl_range m e Hnm) as [Hlo Hhi]. pose proof (pow2_pos e). split.
  - destruct (decide (a - 53 ≤ e)) as [|Hlt]; [done|]. pose proof (pow2_le (e + 53) (a - 1) ltac:(lia)). lra.
  - destruct (decide (e ≤ b - 51)) as [|Hlt]; [done|]. pose proof (pow2_lt (b + 1) (e + 52) ltac:(lia)). lra.
Qed.

Section start.
Context {E : Type}.

Lemma tens_approx a : 0 ≤ a ≤ 22 → ∃ t, rd (E:=E) tens a = Done t ∧ approx 0 t (pow10 a).
Proof. intros Ha. destruct (tens_ok (E:=E) a Ha) as (t & Ht & Gt & Vt). exists t. split; [done|]. split; [done|]. rewrite Vt. apply within_refl, pow10_pos. Qed.

Lemma approx_int v z : is_int v z → 0 < z → approx 0 v (IZR z).
Proof. intros [G V] Hz. split; [done|]. rewrite V. by apply within_refl, IZR_lt. Qed.

(** ** The leading digits *)
Lemma leading_value_spec dd :
  digits_ok dd → leading dd →
  let K := dec_value (take 16 dd) in let k := Z.min (len dd) 16 in
  ∃ v, leading_value (E:=E) (len dd) (first9 dd) (next7 dd) = Done v ∧ approx 2 v (IZR K) ∧ (len dd ≤ 15 → is_int v (dec_value dd)) ∧
    10 ^ (k - 1) ≤ K < 10 ^ 16 ∧ K * 10 ^ (len dd - k) ≤ dec_value dd < (K + 1) * 10 ^ (len dd - k).
Proof.
  intros Hd Hl. cbv zeta. set (K := dec_value (take 16 dd)). set (k := Z.min (len dd) 16).
  pose proof (dec_value_take dd 16 Hd) as HK. fold K in HK. change (Z.of_nat 16) with 16 in HK.
  assert (10 ^ (k - 1) ≤ K) as HK1.
  { pose proof (dec_value_leading (take 16 dd) ltac:(by apply Forall_take)) as H. rewrite length_take in H. unfold k.
    replace (Z.min (len dd) 16) with (Z.of_nat (16 `min` length dd)) by lia. apply H. destruct Hl as (d & r & -> & ?). exists d, (take 15 r). done. }
  assert (1 ≤ len dd) as Hl1 by (destruct Hl as (? & ? & -> & _); cbn [length]; lia).
  pose proof (Z.pow_pos_nonneg 10 (k - 1) ltac:(lia) ltac:(unfold k; lia)) as Hp.
  assert (K * 10 ^ (len dd - k) ≤ dec_value dd < (K + 1) * 10 ^ (len dd - k)) as Hcut.
  { rewrite <- (take_drop 16 dd) at 2 3. rewrite dec_value_app. fold K. pose proof (dec_value_range (drop 16 dd) ltac:(by apply Forall_drop)) as Hr.
    rewrite length_drop in *. replace (Z.of_nat (length dd - 16)) with (len dd - k) in * by (unfold k; lia). lia. }
  destruct (decide (len dd ≤ 15)) as [H15|H15].
  - destruct (leading_value_exact (E:=E) dd Hd ltac:(lia)) as (v & Hv & Iv). exists v. split; [done|].
    assert (K = dec_value dd) as HKd by (unfold K; by rewrite take_ge by lia). split; [|split; [done|split; [lia|done]]].
    apply (approx_le 0); [lia|]. rewrite HKd. apply approx_int; [done|lia].
  - unfold leading_value, DBL_DIG. cbv zeta. rewrite (proj2 (Z.ltb_ge (len dd) (15 + 1))) by lia. change (9 <? 15 + 1) with true. cbv iota. change (15 + 1 - 9) with 7.
    destruct (tens_approx 7 ltac:(lia)) as (t & -> & At). cbn [obind]. eexists. split; [done|]. split; [|split; [lia|split; [lia|done]]].
    pose proof (kept_value dd ltac:(lia)) as Hk. rewrite Z.min_r in Hk by lia. change (16 - 9) with 7 in Hk. fold K in Hk.
    pose proof (dec_value_take dd 9 Hd) as Hf. pose proof (dec_value_take (drop 9 dd) 7 ltac:(by apply Forall_drop)) as Hn.
    change (dec_value (take 9 dd)) with (first9 dd) in Hf. change (dec_value (take 7 (drop 9 dd))) with (next7 dd) in Hn.
    assert (1 ≤ first9 dd) as Hf1.
    { pose proof (leading_value_pos (take 9 dd) ltac:(by apply Forall_take)) as H. destruct Hl as (d & r & -> & ?). specialize (H ltac:(exists d, (take 8 r); done)). unfold first9. lia. }
    pose proof (pow2_le (-1021) 0 ltac:(lia)) as Hlo. change (pow2 0) with 1%R in Hlo. pose proof (pow2_le 60 1021 ltac:(lia)) as Hhi. rewrite pow2_IZR in Hhi by lia.
    rewrite pow10_IZR in At by lia.
    assert (approx 1 (fmul t (of_Z (first9 dd))) (IZR (10 ^ 7) * IZR (first9 dd))) as [Gm Wm].
    { apply (approx_mult 0 0); [done|apply approx_int; [apply is_int_of_Z; lia|lia]|lia|]. rewrite <- mult_IZR.
      assert (1 <= IZR (10 ^ 7 * first9 dd) <= IZR (2 ^ 60))%R by (split; apply IZR_le; lia). lra. }
    destruct (is_int_of_Z (next7 dd) ltac:(lia)) as [Gz Vz]. rewrite <- mult_IZR in Wm. set (A := 10 ^ 7 * first9 dd) in *.
    assert (IZR K = IZR A + IZR (next7 dd))%R as HKv by (rewrite <- plus_IZR; f_equal; unfold A; lia).
    assert (0 <= IZR (next7 dd))%R as Hz0 by (apply IZR_le; lia). assert (1 <= IZR A)%R as HA1 by (apply IZR_le; unfold A; lia).
    assert (within 1 (val (fmul t (of_Z (first9 dd))) + IZR (next7 dd)) (IZR K)) as Wsum.
    { destruct Wm as (_ & W1 & W2). rewrite pow_1 in *. pose proof growth_range as [Hg _]. split; [lra|]. rewrite pow_1. split; nra. }
    assert (pow2 0 <= IZR K <= pow2 60)%R as HKr by (change (pow2 0) with 1%R; rewrite pow2_IZR by lia; split; apply IZR_le; lia).
    pose proof (within_range 1 _ _ _ _ ltac:(lia) Wsum HKr ltac:(apply pow2_pos)) as Hsr. change (pow2 0) with 1%R in Hsr.
    pose proof (pow2_le (60 + 1) 1022 ltac:(lia)) as H1022. rewrite pow2_S in H1022. pose proof (pow2_lt 1022 1023 ltac:(lia)). pose proof pow2_1022_small.
    assert (rounds (fadd (fmul t (of_Z (first9 dd))) (of_Z (next7 dd))) (val (fmul t (of_Z (first9 dd))) + IZR (next7 dd))) as Hro.
    { rewrite <- Vz. apply fadd_ok; [done|done|]. rewrite Vz, Rabs_pos_eq; lra. }
    split; [by eapply rounds_good|]. apply (within_trans 1 1 _ _ _ Wsum). apply rounds_within; [done|lra].
Qed.
(** ** Large exponents *)
Lemma bigtens_approx i : 0 ≤ i ≤ 4 → ∃ t, rd (E:=E) bigtens i = Done t ∧ approx 1 t (pow10 (16 * 2 ^ i)).
Proof. intros Hi. destruct (bigtens_ok (E:=E) i Hi) as (t & Ht & Gt & _ & Wt). by exists t. Qed.

Lemma pow10_ge1 a : 0 ≤ a → (1 <= pow10 a)%R.
Proof. intros Ha. pose proof (pow10_le 0 a Ha). by change 1%R with (pow10 0). Qed.

Lemma approx_grow n k x t X T :
  approx n x X → approx k t T → (n + k ≤ 39)%nat → (1 <= X)%R → (1 <= T)%R → (X * T <= pow2 1021)%R → approx (n + k + 1) (fmul x t) (X * T).
Proof.
  intros Hx Ht Hn H1 H2 Hr. apply approx_mult; [done|done|done|]. split; [|done]. pose proof (pow2_le (-1021) 0 ltac:(lia)) as Hlo. change (pow2 0) with 1%R in Hlo. nra.
Qed.

(** The powers but the last. *)
Lemma up_tens_spec fuel rv e1 j n X :
  1 ≤ e1 → 0 ≤ j → e1 * 2 ^ j < 32 → e1 < 2 ^ Z.of_nat fuel → approx n rv X → (1 <= X)%R → (n + 2 * Z.to_nat (4 - j) ≤ 30)%nat →
  (X * pow10 (16 * 2 ^ j * e1) <= pow2 1022)%R →
  ∃ rv' j' X', up_tens (E:=E) fuel rv e1 j = Done (rv', j') ∧ j ≤ j' ≤ 4 ∧ approx (n + 2 * Z.to_nat (j' - j)) rv' X' ∧ (1 <= X')%R ∧
    (X' * pow10 (16 * 2 ^ j') = X * pow10 (16 * 2 ^ j * e1))%R.
Proof.
  revert rv e1 j n X. induction fuel as [|fuel IH]; intros rv e1 j n X He Hj Hej Hf HX HX1 Hn Hmax; [change (2 ^ Z.of_nat 0) with 1 in Hf; lia|].
  pose proof (Z.pow_pos_nonneg 2 j ltac:(lia) Hj) as Hpj. cbn [up_tens].
  assert (j ≤ 4) as Hj4 by (destruct (decide (j ≤ 4)) as [|H4]; [done|]; pose proof (Z.pow_le_mono_r 2 5 j ltac:(lia) ltac:(lia)); nia).
  destruct (Z.ltb_spec 1 e1) as [H1|H1].
  2: { assert (e1 = 1) as -> by lia. exists rv, j, X. split; [done|]. split; [lia|]. rewrite Z.sub_diag, Z.mul_1_r. change (n + 2 * Z.to_nat 0)%nat with (n + 0)%nat. rewrite Nat.add_0_r. done. }
  assert (j ≤ 3) as Hj3 by (destruct (decide (j ≤ 3)) as [|H4]; [done|]; assert (j = 4) as -> by lia; lia).
  pose proof (Z.div_mod e1 2 ltac:(lia)) as Hdm. rewrite Zmod_odd in Hdm. rewrite Z.shiftr_div_pow2 by lia. change (2 ^ 1) with 2.
  assert (1 ≤ e1 / 2) as Hq1 by (apply Z.div_le_lower_bound; lia).
  assert (e1 / 2 < 2 ^ Z.of_nat fuel) as Hq2 by (apply Z.div_lt_upper_bound; [lia|]; rewrite <- Z.pow_succ_r by lia; by rewrite <- Nat2Z.inj_succ).
  assert (e1 / 2 * 2 ^ (j + 1) < 32) as Hq3 by (rewrite Z.pow_add_r by lia; change (2 ^ 1) with 2; destruct (Z.odd e1); nia).
  assert (Z.to_nat (4 - j) = S (Z.to_nat (4 - (j + 1)))) as Hn4 by lia.
  assert (∀ rv1 n1 X1, approx n1 rv1 X1 → (n ≤ n1 ≤ n + 2)%nat → (1 <= X1)%R → (X1 * pow10 (16 * 2 ^ (j + 1) * (e1 / 2)) = X * pow10 (16 * 2 ^ j * e1))%R →
    ∃ rv' j' X', up_tens (E:=E) fuel rv1 (e1 / 2) (j + 1) = Done (rv', j') ∧ j ≤ j' ≤ 4 ∧ approx (n + 2 * Z.to_nat (j' - j)) rv' X' ∧ (1 <= X')%R ∧
    (X' * pow10 (16 * 2 ^ j') = X * pow10 (16 * 2 ^ j * e1))%R) as Hnext.
  { intros rv1 n1 X1 HX1' Hn1 HX11 Heq. destruct (IH rv1 (e1 / 2) (j + 1) n1 X1) as (rv' & j' & X' & Hr & Hj' & Ha & HX' & Heq'); try done; [lia|lia|by rewrite Heq|].
    exists rv', j', X'. split; [done|]. split; [lia|]. split; [apply (approx_le (n1 + 2 * Z.to_nat (j' - (j + 1)))); [lia|done]|]. split; [done|]. by rewrite Heq'. }
  destruct (Z.odd e1).
  - destruct (bigtens_approx j ltac:(lia)) as (t & -> & At). cbn [obind].
    assert (pow10 (16 * 2 ^ j) * pow10 (16 * 2 ^ (j + 1) * (e1 / 2)) = pow10 (16 * 2 ^ j * e1))%R as Hsplit.
    { rewrite <- tenpow_add. f_equal. rewrite Hdm at 2. rewrite Z.pow_add_r by lia. change (2 ^ 1) with 2. ring. }
    pose proof (pow10_ge1 (16 * 2 ^ j) ltac:(lia)) as HT. assert (1 <= 16 * 2 ^ (j + 1) * (e1 / 2)) as Hge by (pose proof (Z.pow_pos_nonneg 2 (j + 1) ltac:(lia) ltac:(lia)); nia).
    pose proof (pow10_le 1 _ Hge) as HS. rewrite (pow10_IZR 1) in HS by lia. change (10 ^ 1) with 10 in HS.
    apply (Hnext _ (n + 1 + 1)%nat (X * pow10 (16 * 2 ^ j))%R); [|lia|nra|rewrite Rmult_assoc, Hsplit; done].
    apply approx_grow; [done|done|lia|done|done|]. rewrite <- Hsplit, <- Rmult_assoc in Hmax. pose proof (pow2_S 1021) as H2. change (1021 + 1) with 1022 in H2.
    assert (0 < X * pow10 (16 * 2 ^ j))%R by nra. nra.
  - cbn [obind]. apply (Hnext rv n X); [done|lia|done|]. do 2 f_equal. rewrite Hdm at 2. rewrite Z.pow_add_r by lia. change (2 ^ 1) with 2. ring.
Qed.

Lemma pow10_limit : (pow2 1022 < pow10 308)%R.
Proof. rewrite pow10_IZR, pow2_IZR by lia. apply IZR_lt. vm_compute. reflexivity. Qed.

Lemma pow10_small i : 0 ≤ i ≤ 15 → (1 <= pow10 i <= pow2 50)%R.
Proof. intros Hi. split; [apply pow10_ge1; lia|]. rewrite pow10_IZR, pow2_IZR by lia. apply IZR_le. pose proof (Z.pow_le_mono_r 10 i 15 ltac:(lia) ltac:(lia)). lia. Qed.

(** Multiplication with the power of the low bits of the exponent. *)
Lemma low_power_up v i n X :
  approx n v X → (n ≤ 2)%nat → (1 <= X <= pow2 60)%R → 0 ≤ i ≤ 15 →
  ∃ v1, (if i =? 0 then Done v else obind (rd (E:=E) tens i) (λ t, Done (fmul v t))) = Done v1 ∧ approx (n + 1) v1 (X * pow10 i) ∧ (1 <= X * pow10 i)%R.
Proof.
  intros HX Hn HX1 Hi. pose proof (pow10_small i Hi) as Hp. destruct (Z.eqb_spec i 0) as [->|Hi0].
  - exists v. change (pow10 0) with 1%R. rewrite Rmult_1_r. split; [done|]. split; [by apply (approx_le n); [lia|]|lra].
  - destruct (tens_approx i ltac:(lia)) as (t & -> & At). exists (fmul v t). split; [done|]. split; [|nra]. rewrite <- (Nat.add_0_r n).
    apply approx_grow; [done|done|lia|lra|lra|]. pose proof (pow2_le (60 + 50) 1021 ltac:(lia)) as Hlo. rewrite pow2_add in Hlo. pose proof (pow2_pos 60). nra.
Qed.

Lemma scale_up_spec v e1 n X :
  approx n v X → (n ≤ 2)%nat → (1 <= X <= pow2 60)%R → 0 < e1 → (X * pow10 e1 < pow2 1022)%R →
  ∃ m e, scale_up (E:=E) v e1 = Done (First (dbl m e) 0) ∧ normal_m m ∧ approx 15 (dbl m e) (X * pow10 e1).
Proof.
  intros HX Hn HX1 He Hmax. unfold scale_up. cbv zeta. rewrite land_15. pose proof (Z.mod_pos_bound e1 16 ltac:(lia)) as Hm. pose proof (Z.div_mod e1 16 ltac:(lia)) as Hdm.
  set (i := e1 mod 16) in *. set (q := e1 / 16) in *. assert (0 ≤ q) as Hq0 by (apply Z.div_pos; lia).
  destruct (low_power_up v i n X HX Hn HX1 ltac:(lia)) as (v1 & -> & A1 & HX2). cbn [obind]. replace (e1 - i) with (16 * q) by lia.
  assert (X * pow10 e1 = X * pow10 i * pow10 (16 * 2 ^ 0 * q))%R as Hsplit by (rewrite Rmult_assoc, <- tenpow_add; do 2 f_equal; lia).
  rewrite Hsplit in *. set (X1 := (X * pow10 i)%R) in *. change (16 * 2 ^ 0 * q) with (16 * q) in *.
  pose proof (pow2_le (-1021) 0 ltac:(lia)) as Hlo. change (pow2 0) with 1%R in Hlo.
  destruct (Z.eqb_spec (16 * q) 0) as [H0|H0].
  { rewrite H0 in *. change (pow10 0) with 1%R in *. rewrite Rmult_1_r in *. destruct (approx_normal (n + 1) v1 X1 0 1022 ltac:(lia) A1) as (m & e & -> & Hnm & _); [change (pow2 0) with 1%R; lra|lia|].
    exists m, e. split; [done|]. split; [done|]. by apply (approx_le (n + 1)); [lia|]. }
  assert (16 * q < 308) as Hq308.
  { destruct (decide (16 * q < 308)) as [|Hge]; [done|]. exfalso. pose proof (pow10_le 308 (16 * q) ltac:(lia)). pose proof pow10_limit. pose proof (pow10_pos (16 * q)). nra. }
  rewrite (proj2 (Z.ltb_ge DBL_MAX_10_EXP _)) by (unfold DBL_MAX_10_EXP; lia). rewrite shiftr_4. replace (16 * q / 16) with q by (rewrite Z.mul_comm, Z.div_mul by lia; done).
  destruct (up_tens_spec 10 v1 q 0 (n + 1) X1) as (v2 & j & X2 & -> & Hj & A2 & HX21 & Heq); try done; try lia; [change (16 * 2 ^ 0 * q) with (16 * q); lra|].
  change (16 * 2 ^ 0 * q) with (16 * q) in Heq. rewrite <- Heq in Hmax. cbn [obind]. rewrite Z.sub_0_r in A2.
  pose proof (Z.pow_pos_nonneg 2 j ltac:(lia) ltac:(lia)) as Hpj. pose proof (pow10_ge1 (16 * 2 ^ j) ltac:(lia)) as HT.
  destruct (approx_normal (n + 1 + 2 * Z.to_nat j) v2 X2 0 1022 ltac:(lia) A2) as (m2 & e2 & -> & Hm2 & He2 & He2'); [change (pow2 0) with 1%R; nra|lia|].
  replace (word0 (dbl m2 e2) - P * Exp_msk1) with (word0 (dbl m2 e2) + - (53) * Exp_msk1) by (unfold P; lia). rewrite shift_up by (done || lia).
  destruct (bigtens_approx j ltac:(lia)) as (t & -> & At). cbn [obind].
  assert (approx (n + 1 + 2 * Z.to_nat j) (dbl m2 (e2 + - (53))) (X2 * pow2 (-53))) as A3.
  { destruct A2 as [_ W2]. split; [apply dbl_good; [done|lia]|]. rewrite dbl_val, pow2_add, <- Rmult_assoc. apply within_scale; [apply pow2_pos|done]. }
  set (F := (X2 * pow10 (16 * 2 ^ j))%R) in *. assert (1 <= F)%R as HF1 by (unfold F; nra).
  assert (X2 * pow2 (-53) * pow10 (16 * 2 ^ j) = F * pow2 (-53))%R as HF by (unfold F; ring).
  assert (pow2 (-53) <= F * pow2 (-53) <= pow2 969)%R as HFr.
  { pose proof (pow2_pos (-53)). split; [nra|]. change 969 with (1022 + -53). rewrite pow2_add. apply Rmult_le_compat_r; lra. }
  assert (approx (n + 1 + 2 * Z.to_nat j + 1 + 1) (fmul (dbl m2 (e2 + - (53))) t) (F * pow2 (-53))) as A4.
  { rewrite <- HF. apply approx_mult; [done|done|lia|]. rewrite HF. pose proof (pow2_le (-1021) (-53) ltac:(lia)). pose proof (pow2_le 969 1021 ltac:(lia)). lra. }
  destruct (approx_normal (n + 1 + 2 * Z.to_nat j + 1 + 1) _ _ (-53) 969 ltac:(lia) A4 HFr ltac:(lia)) as (m3 & e3 & Heq3 & Hm3 & He3 & He3'). rewrite Heq3 in *.
  rewrite exp_mask_dbl by (done || lia). rewrite (proj2 (Z.ltb_ge (Exp_msk1 * (DBL_MAX_EXP + Bias - P)) _)) by (unfold Exp_msk1, DBL_MAX_EXP, Bias, P; lia).
  rewrite (proj2 (Z.ltb_ge (Exp_msk1 * (DBL_MAX_EXP + Bias - 1 - P)) _)) by (unfold Exp_msk1, DBL_MAX_EXP, Bias, P; lia).
  change (P * Exp_msk1) with (53 * Exp_msk1). rewrite shift_up by (done || lia). exists m3, (e3 + 53). split; [done|]. split; [done|].
  apply (approx_le (n + 1 + 2 * Z.to_nat j + 1 + 1)); [lia|]. split; [apply dbl_good; [done|lia]|]. rewrite dbl_val, pow2_add, <- Rmult_assoc. rewrite <- Heq.
  pose proof (pow2_neg 53) as H53. change (- (53)) with (-53) in H53. replace F with (F * pow2 (-53) * pow2 53)%R by (rewrite Rmult_assoc, (Rmult_comm (pow2 (-53))), H53; ring).
  apply within_scale; [apply pow2_pos|apply A4].
Qed.

(** ** Small exponents *)
Definition near_inverse (d : double) (a s : Z) : bool :=
  match d with
  | S754_finite false m e => valid_binary 53 1024 d && (e <=? 0) && (Z.abs (Z.pos m * 10 ^ a - 2 ^ (s - e)) * 2 ^ 53 <=? 2 ^ (s - e))
  | _ => false
  end.

Lemma near_inverse_ok d a s : 0 ≤ a → 0 ≤ s → near_inverse d a s = true → approx 1 d (pow10 (- a) * pow2 s).
Proof.
  intros Ha Hs. destruct d as [| | |[] m e]; try done. cbn [near_inverse]. intros [[Hv He%Z.leb_le]%andb_prop Hz%Z.leb_le]%andb_prop.
  split; [done|]. pose proof (pow10_pos (- a)). pose proof (pow2_pos s). pose proof (pow10_pos a). pose proof (pow2_pos (- e)).
  apply within_one; [by apply Rmult_lt_0_compat|]. rewrite val_sign. apply IZR_le in Hz. rewrite mult_IZR, abs_IZR, minus_IZR, mult_IZR in Hz.
  rewrite <- (pow2_IZR 53), <- (pow2_IZR (s - e)), <- (pow10_IZR a) in Hz by lia. set (c := (pow10 a * pow2 (- e))%R). assert (0 < c)%R as Hc by (unfold c; nra).
  apply Rmult_le_reg_r with c; [done|]. rewrite <- (Rabs_pos_eq c) at 1 by lra. rewrite <- Rabs_mult.
  pose proof (pow10_neg a) as Hn10. pose proof (pow2_neg e) as Hn2. 
  assert ((IZR (Z.pos m) * pow2 e - pow10 (- a) * pow2 s) * c = IZR (Z.pos m) * pow10 a - pow2 (s - e))%R as ->.
  { unfold c. unfold Z.sub. rewrite pow2_add. transitivity (IZR (Z.pos m) * pow10 a * (pow2 e * pow2 (- e)) - pow10 a * pow10 (- a) * (pow2 s * pow2 (- e)))%R; [ring|]. rewrite Hn10, Hn2. ring. }
  assert (eps * (pow10 (- a) * pow2 s) * c = eps * pow2 (s - e))%R as ->.
  { unfold c. unfold Z.sub. rewrite pow2_add. transitivity (eps * (pow10 a * pow10 (- a)) * (pow2 s * pow2 (- e)))%R; [ring|]. rewrite Hn10. ring. }
  unfold eps. pose proof (pow2_neg 53) as H53. change (- (53)) with (-53) in H53. pose proof (pow2_pos 53). apply Rmult_le_reg_r with (pow2 53); [done|].
  replace (pow2 (-53) * pow2 (s - e) * pow2 53)%R with (pow2 (s - e) * (pow2 53 * pow2 (-53)))%R by ring. rewrite H53. lra.
Qed.

Lemma tinytens_checked : forallb (λ p, near_inverse p.2 p.1.1 p.1.2) (zip [(16, 0); (32, 0); (64, 0); (128, 0); (256, 106)] tinytens) = true.
Proof. vm_compute. reflexivity. Qed.

(** The power with which an exponent is scaled. *)
Definition scale_of (q : Z) : Z := if 16 <=? q then 106 else 0.

Lemma tinytens_approx j : 0 ≤ j ≤ 4 → ∃ t, rd (E:=E) tinytens j = Done t ∧ approx 1 t (pow10 (- (16 * 2 ^ j)) * pow2 (scale_of (2 ^ j))).
Proof.
  intros Hi. pose proof tinytens_checked as Hc. cbn [zip zip_with tinytens] in Hc. cbn [forallb fst snd] in Hc.
  rewrite !andb_true_iff in Hc. destruct Hc as (H0 & H1 & H2 & H3 & H4 & _).
  assert (j = 0 ∨ j = 1 ∨ j = 2 ∨ j = 3 ∨ j = 4) as [ -> |[ -> |[ -> |[ -> | -> ]]]] by lia;
    (eexists; split; [reflexivity|]; apply near_inverse_ok; [lia|by vm_compute|assumption]).
Qed.

Lemma small_part q : 0 ≤ q → (0 < pow10 (- (16 * q)) * pow2 (scale_of q) <= 1)%R.
Proof.
  intros Hq. pose proof (pow10_pos (- (16 * q))). pose proof (pow2_pos (scale_of q)). split; [nra|]. unfold scale_of. destruct (Z.leb_spec 16 q).
  - pose proof (pow10_le (- (16 * q)) (- (106)) ltac:(lia)). pose proof (pow10_neg 106) as Hn. pose proof (pow2_pos 106).
    assert (pow2 106 <= pow10 106)%R by (rewrite pow2_IZR, pow10_IZR by lia; apply IZR_le; apply Z.pow_le_mono_l; lia). pose proof (pow10_pos (- (106))). nra.
  - pose proof (pow10_le (- (16 * q)) 0 ltac:(lia)) as Hle1. change (pow10 0) with 1%R in Hle1. change (pow2 0) with 1%R. lra.
Qed.

Lemma scale_split h j : 0 ≤ h → 0 ≤ j ≤ 4 → (2 * h + 1) * 2 ^ j < 32 → scale_of ((2 * h + 1) * 2 ^ j) = scale_of (2 ^ j) + scale_of (h * 2 ^ (j + 1)).
Proof.
  intros Hh Hj Hlt. rewrite Z.pow_add_r by lia. change (2 ^ 1) with 2. unfold scale_of.
  assert (j = 0 ∨ j = 1 ∨ j = 2 ∨ j = 3 ∨ j = 4) as [-> |[-> |[-> |[-> | ->]]]] by lia;
    [change (2 ^ 0) with 1 in *|change (2 ^ 1) with 2 in *|change (2 ^ 2) with 4 in *|change (2 ^ 3) with 8 in *|change (2 ^ 4) with 16 in *];
    repeat match goal with |- context [16 <=? ?a] => destruct (Z.leb_spec 16 a) end; lia.
Qed.

Lemma down_tens_spec fuel rv q j n X :
  0 ≤ q → 0 ≤ j ≤ 5 → q * 2 ^ j < 32 → q < 2 ^ (Z.of_nat fuel - 1) → approx n rv X → (X <= pow2 1021)%R → (n + 2 * Z.to_nat (5 - j) ≤ 30)%nat →
  (pow2 (-1000) <= X * (pow10 (- (16 * (q * 2 ^ j))) * pow2 (scale_of (q * 2 ^ j))))%R →
  ∃ v, down_tens (E:=E) fuel rv q j = Done v ∧ approx (n + 2 * Z.to_nat (5 - j)) v (X * (pow10 (- (16 * (q * 2 ^ j))) * pow2 (scale_of (q * 2 ^ j)))).
Proof.
  revert rv q j n X. induction fuel as [|fuel IH]; intros rv q j n X Hq Hj Hqj Hf HX Hmax Hn Hmin; [change (2 ^ (Z.of_nat 0 - 1)) with 0 in Hf; lia|].
  pose proof (Z.pow_pos_nonneg 2 j ltac:(lia) ltac:(lia)) as Hpj. cbn [down_tens]. destruct (Z.ltb_spec 0 q) as [H0|H0].
  2: { assert (q = 0) as -> by lia. exists rv. split; [done|]. change (16 * (0 * 2 ^ j)) with 0. change (scale_of (0 * 2 ^ j)) with 0. change (pow10 (- 0)) with 1%R. change (pow2 0) with 1%R.
       rewrite !Rmult_1_r. by apply (approx_le n); [lia|]. }
  assert (j ≤ 4) as Hj4 by (destruct (decide (j ≤ 4)) as [|H4]; [done|]; assert (j = 5) as -> by lia; lia).
  pose proof (Z.div_mod q 2 ltac:(lia)) as Hdm. rewrite Zmod_odd in Hdm. rewrite Z.shiftr_div_pow2 by lia. change (2 ^ 1) with 2.
  assert (0 ≤ q / 2) as Hq1 by (apply Z.div_pos; lia).
  replace (Z.of_nat (S fuel) - 1) with (Z.of_nat fuel) in Hf by lia.
  assert (q / 2 < 2 ^ (Z.of_nat fuel - 1)) as Hq2.
  { destruct fuel as [|f]; [change (2 ^ Z.of_nat 0) with 1 in Hf; lia|]. apply Z.div_lt_upper_bound; [lia|]. rewrite <- Z.pow_succ_r by lia. by replace (Z.succ (Z.of_nat (S f) - 1)) with (Z.of_nat (S f)) by lia. }
  assert (2 ^ (j + 1) = 2 * 2 ^ j) as Hp1 by (rewrite Z.pow_add_r by lia; change (2 ^ 1) with 2; lia).
  assert (q / 2 * 2 ^ (j + 1) < 32) as Hq3 by (rewrite Hp1; destruct (Z.odd q); nia).
  assert (Z.to_nat (5 - j) = S (Z.to_nat (5 - (j + 1)))) as Hn5 by lia. destruct (Z.odd q) eqn:Hodd.
  - destruct (tinytens_approx j ltac:(lia)) as (t & -> & At). cbn [obind]. set (T := (pow10 (- (16 * 2 ^ j)) * pow2 (scale_of (2 ^ j)))%R) in *.
    pose proof (small_part (2 ^ j) ltac:(lia)) as HT. fold T in HT. pose proof (small_part (q / 2 * 2 ^ (j + 1)) ltac:(nia)) as HS.
    assert (pow10 (- (16 * (q * 2 ^ j))) * pow2 (scale_of (q * 2 ^ j)) = T * (pow10 (- (16 * (q / 2 * 2 ^ (j + 1)))) * pow2 (scale_of (q / 2 * 2 ^ (j + 1)))))%R as Heq.
    { unfold T. assert (- (16 * (q * 2 ^ j)) = - (16 * 2 ^ j) + - (16 * (q / 2 * 2 ^ (j + 1)))) as -> by (rewrite Hp1; nia). rewrite tenpow_add.
      rewrite Hdm at 2. rewrite (scale_split (q / 2) j), pow2_add by (rewrite <- ?Hdm; lia). ring. }
    rewrite Heq, <- Rmult_assoc in Hmin |- *. set (S1 := (pow10 (- (16 * (q / 2 * 2 ^ (j + 1)))) * pow2 (scale_of (q / 2 * 2 ^ (j + 1))))%R) in *.
    assert (0 < X)%R as HXp by apply (proj2 HX). pose proof (pow2_pos (-1000)). assert (pow2 (-1000) <= X * T)%R as HXT by nra. pose proof (pow2_le (-1021) (-1000) ltac:(lia)).
    destruct (IH (fmul rv t) (q / 2) (j + 1) (n + 1 + 1)%nat (X * T)%R) as (v & Hv & Av); try done; [lia| |nra|lia|].
    { apply approx_mult; [done|done|lia|]. split; [lra|nra]. }
    exists v. split; [done|]. eapply approx_le; [|exact Av]. lia.
  - cbn [obind]. assert (q / 2 * 2 ^ (j + 1) = q * 2 ^ j) as Heq by (rewrite Hp1; nia).
    destruct (IH rv (q / 2) (j + 1) n X) as (v & Hv & Av); try done; [lia|lia|by rewrite Heq|]. rewrite Heq in Av.
    exists v. split; [done|]. eapply approx_le; [|exact Av]. lia.
Qed.

Lemma low_power_down v i n X :
  approx n v X → (n ≤ 2)%nat → (1 <= X <= pow2 60)%R → 0 ≤ i ≤ 15 →
  ∃ v1, (if i =? 0 then Done v else obind (rd (E:=E) tens i) (λ t, Done (fdiv v t))) = Done v1 ∧ approx (n + 1) v1 (X * pow10 (- i)) ∧
    (pow2 (-50) <= X * pow10 (- i) <= pow2 60)%R.
Proof.
  intros HX Hn HX1 Hi. pose proof (pow10_small i Hi) as Hp. assert (X / pow10 i = X * pow10 (- i))%R as Hdiv by (unfold Rdiv; by rewrite pow10_inv).
  assert (pow2 (-50) <= X * pow10 (- i) <= pow2 60)%R as Hr.
  { pose proof (pow10_neg i). pose proof (pow2_neg 50) as H50. change (- (50)) with (-50) in H50. pose proof (pow10_pos (- i)). pose proof (pow2_pos (-50)). pose proof (pow2_pos 50). split; [|nra].
    assert (pow2 (-50) <= pow10 (- i))%R; [|nra]. apply Rmult_le_reg_l with (pow10 i); [lra|]. nra. }
  destruct (Z.eqb_spec i 0) as [->|Hi0].
  - exists v. change (pow10 (- 0)) with 1%R in *. rewrite Rmult_1_r in *. split; [done|]. split; [by apply (approx_le n); [lia|]|lra].
  - destruct (tens_approx i ltac:(lia)) as (t & -> & At). exists (fdiv v t). split; [done|]. split; [|done]. rewrite <- Hdiv in *. rewrite <- (Nat.add_0_r n).
    apply approx_div; [done|done|lia|]. pose proof (pow2_le (-1021) (-50) ltac:(lia)). pose proof (pow2_le 60 1021 ltac:(lia)). lra.
Qed.

Lemma pow10_small_limit : (pow2 1079 < pow10 325)%R ∧ (pow10 255 <= pow2 912)%R.
Proof. rewrite !pow10_IZR, !pow2_IZR by lia. split; [apply IZR_lt|apply IZR_le]; by vm_compute. Qed.

Lemma scale_down_spec v e1 n X :
  approx n v X → (n ≤ 2)%nat → (1 <= X <= pow2 60)%R → 0 < e1 → (pow2 (-1019) <= X * pow10 (- e1))%R →
  ∃ m e, scale_down (E:=E) v e1 = Done (First (dbl m e) (scale_of (e1 / 16))) ∧ normal_m m ∧ approx 15 (dbl m e) (X * pow10 (- e1) * pow2 (scale_of (e1 / 16))) ∧
    (scale_of (e1 / 16) = 0 → (pow2 (-912) <= X * pow10 (- e1))%R).
Proof.
  intros HX Hn HX1 He Hmin. unfold scale_down. cbv zeta. rewrite land_15, shiftr_4. pose proof (Z.mod_pos_bound e1 16 ltac:(lia)) as Hm. pose proof (Z.div_mod e1 16 ltac:(lia)) as Hdm.
  set (i := e1 mod 16) in *. set (q := e1 / 16) in *. assert (0 ≤ q) as Hq0 by (apply Z.div_pos; lia). destruct pow10_small_limit as [HL1 HL2].
  destruct (low_power_down v i n X HX Hn HX1 ltac:(lia)) as (v1 & -> & A1 & HX2). cbn [obind].
  assert (X * pow10 (- e1) = X * pow10 (- i) * pow10 (- (16 * q)))%R as Hsplit by (rewrite Rmult_assoc, <- tenpow_add; do 2 f_equal; lia).
  assert (e1 < 325) as He325.
  { destruct (decide (e1 < 325)) as [|Hge]; [done|]. exfalso. pose proof (pow10_le 325 e1 ltac:(lia)). pose proof (pow10_neg e1) as Hn1. pose proof (pow10_pos e1). pose proof (pow10_pos (- e1)).
    assert (pow2 (-1019) * pow10 e1 <= X)%R by (apply Rle_trans with (X * pow10 (- e1) * pow10 e1)%R; [apply Rmult_le_compat_r; lra|right; rewrite Rmult_assoc, (Rmult_comm (pow10 (- e1))), Hn1; ring]).
    pose proof (pow2_pos (-1019)). assert (pow2 60 = pow2 (-1019) * pow2 1079)%R as H60 by (rewrite <- pow2_add; done). rewrite H60 in HX1. assert (pow2 1079 < pow10 e1)%R by lra. nra. }
  assert (scale_of q = 0 → (pow2 (-912) <= X * pow10 (- e1))%R) as Hsc0.
  { intros H0. assert (q < 16) by (unfold scale_of in H0; destruct (Z.leb_spec 16 q); lia). pose proof (pow10_le (- (255)) (- e1) ltac:(lia)). pose proof (pow10_neg 255) as Hn1. pose proof (pow2_neg 912) as Hn2. change (- (912)) with (-912) in Hn2.
    pose proof (pow10_pos 255). pose proof (pow10_pos (- (255))). pose proof (pow2_pos 912). pose proof (pow2_pos (-912)). assert (pow2 (-912) <= pow10 (- (255)))%R; [|nra].
    apply Rmult_le_reg_l with (pow2 912); [done|]. rewrite Hn2. nra. }
  destruct (Z.eqb_spec q 0) as [H0|H0].
  { rewrite H0 in *. change (16 * 0) with 0 in *. change (pow10 (- 0)) with 1%R in *. change (scale_of 0) with 0 in *. change (pow2 0) with 1%R. rewrite !Rmult_1_r in *. rewrite Hsplit in *.
    destruct (approx_normal (n + 1) v1 _ (-50) 60 ltac:(lia) A1 HX2 ltac:(lia)) as (m & e & -> & Hnm & _). exists m, e.
    split; [done|]. split; [done|]. split; [by apply (approx_le (n + 1)); [lia|]|done]. }
  change (Z.shiftl 1 n_bigtens) with 32. rewrite (proj2 (Z.leb_gt 32 q)) by lia. change Scale_Bit with Bletch. rewrite land_16 by lia.
  assert ((if q <? 16 then 0 else 2 * P) = scale_of q) as -> by (unfold scale_of, P; destruct (Z.leb_spec 16 q), (Z.ltb_spec q 16); lia).
  set (F := (X * pow10 (- e1) * pow2 (scale_of q))%R). assert (pow2 (-913) <= F)%R as HF.
  { unfold F. unfold scale_of in *. destruct (16 <=? q); [|change (pow2 0) with 1%R; rewrite Rmult_1_r; specialize (Hsc0 eq_refl); pose proof (pow2_le (-913) (-912) ltac:(lia)); lra]. change (-913) with (-1019 + 106). rewrite pow2_add. apply Rmult_le_compat_r; [pose proof (pow2_pos 106); lra|done]. }
  assert (X * pow10 (- i) * (pow10 (- (16 * (q * 2 ^ 0))) * pow2 (scale_of (q * 2 ^ 0))) = F)%R as HFe by (unfold F; rewrite Hsplit; change (2 ^ 0) with 1; rewrite Z.mul_1_r; ring).
  pose proof (pow2_le 60 1021 ltac:(lia)). pose proof (pow2_le (-1000) (-913) ltac:(lia)).
  destruct (down_tens_spec 10 v1 q 0 (n + 1) _ Hq0 ltac:(lia) ltac:(lia) ltac:(change (2 ^ (Z.of_nat 10 - 1)) with 512; lia) A1 ltac:(lra)) as (v2 & -> & A2); [lia|lra|]. rewrite HFe in A2. cbn [obind].
  assert (F <= pow2 60)%R as HF60.
  { rewrite <- HFe. pose proof (small_part (q * 2 ^ 0) ltac:(lia)). pose proof (pow2_pos (-50)). nra. }
  destruct (approx_normal (n + 1 + 2 * Z.to_nat (5 - 0)) v2 F (-913) 60 ltac:(lia) A2 ltac:(lra) ltac:(lia)) as (m & e & -> & Hnm & He2 & He3).
  rewrite exp_field_dbl by done. rewrite (proj2 (Z.ltb_ge 0 (2 * P + 1 - (e + 1075)))) by (unfold P; lia). rewrite andb_false_r. cbn [andb is_zero dbl].
  exists m, e. split; [done|]. split; [done|]. split; [|done]. eapply approx_le; [|exact A2]. lia.
Qed.

(** ** The approximation *)
Lemma approx_far (m : positive) e F r : approx 15 (dbl m e) F → (F <= r <= F * (1 + / 1000000000000000))%R → far m e r.
Proof.
  intros [_ W] Hr. pose proof (within_pos _ _ _ W) as Hp. pose proof (within_error 15 _ _ ltac:(lia) W) as Herr. destruct W as (HF & _).
  assert (eps = / 9007199254740992)%R as He by (unfold eps; change (-53) with (- (53)); by rewrite <- pow2_inv, pow2_IZR by lia).
  rewrite He in Herr. clear He. replace (INR 15) with 15%R in Herr by (rewrite INR_IZR_INZ; done). apply Rabs_le_inv in Herr. unfold far.
  assert (/ 80000000000000 <= pow2 (-46))%R as H46.
  { change (-46) with (- (46)). rewrite <- pow2_inv, pow2_IZR by lia. change (2 ^ 46) with 70368744177664. apply Rinv_le_contravar; lra. }
  assert (15 * (/ 9007199254740992 * (1002 / 1000)) * F <= / 500000000000000 * F)%R as H15 by (apply Rmult_le_compat_r; lra).
  assert (/ 80000000000000 * val (dbl m e) <= pow2 (-46) * val (dbl m e))%R by (apply Rmult_le_compat_r; lra). apply Rabs_le. lra.
Qed.

Lemma first_approximation_spec dd v e1 :
  digits_ok dd → leading dd → approx 2 v (IZR (dec_value (take 16 dd))) →
  let r := (IZR (dec_value dd) * pow10 e1)%R in (pow2 (-1018) <= r < pow2 1022)%R →
  ∃ m e scale, first_approximation (E:=E) v (e1 + (len dd - Z.min (len dd) 16)) = Done (First (dbl m e) scale) ∧ normal_m m ∧
    (scale = 0 ∨ scale = 106) ∧ (pow2 (-912) <= r * pow2 scale < pow2 1022)%R ∧ far m e (r * pow2 scale).
Proof.
  intros Hd Hl HX. cbv zeta. intros Hr. destruct (leading_value_spec dd Hd Hl) as (_ & _ & _ & _ & [HK1 HK2] & Hcut). set (k := Z.min (len dd) 16) in *. set (K := dec_value (take 16 dd)) in *.
  set (ee := e1 + (len dd - k)) in *. set (X := IZR K) in *. set (r := (IZR (dec_value dd) * pow10 e1)%R) in *.
  assert (1 ≤ len dd) as Hl1 by (destruct Hl as (? & ? & -> & _); cbn [length]; lia). assert (1 ≤ k ≤ 16 ∧ k ≤ len dd) as [Hk Hkl] by (unfold k; lia).
  pose proof (Z.pow_pos_nonneg 10 (k - 1) ltac:(lia) ltac:(lia)).
  assert (1 <= X <= pow2 60)%R as HX1 by (rewrite pow2_IZR by lia; split; apply IZR_le; lia). pose proof (pow10_pos ee) as Hpe.
  assert (X * pow10 ee <= r <= X * pow10 ee * (1 + / 1000000000000000))%R as Hrel.
  { assert (pow10 ee = IZR (10 ^ (len dd - k)) * pow10 e1)%R as Hee by (unfold ee; rewrite Z.add_comm, tenpow_add, pow10_IZR by lia; done).
    pose proof (pow10_pos e1) as Hp1. destruct Hcut as [Hc1 Hc2]. pose proof (IZR_le _ _ Hc1) as Hc1r. rewrite mult_IZR in Hc1r. unfold r, X. rewrite Hee, <- !Rmult_assoc. split; [apply Rmult_le_compat_r; lra|].
    rewrite (Rmult_assoc _ (pow10 e1)), (Rmult_comm (pow10 e1)), <- Rmult_assoc. apply Rmult_le_compat_r; [lra|]. destruct (decide (len dd ≤ 16)) as [H16|H16].
    - assert (k = len dd) as Hkd by (unfold k; lia). rewrite Hkd, Z.sub_diag in *. change (10 ^ 0) with 1 in *. assert (dec_value dd = K) as -> by lia. fold X. lra.
    - apply IZR_lt in Hc2. rewrite mult_IZR, plus_IZR in Hc2. assert (k = 16) as Hkd by (unfold k; lia). rewrite Hkd in HK1. apply IZR_le in HK1. change (10 ^ (16 - 1)) with 1000000000000000 in HK1.
      pose proof (Z.pow_pos_nonneg 10 (len dd - k) ltac:(lia) ltac:(lia)) as Hpp. apply IZR_lt in Hpp. fold X in Hc1r, Hc2, HK1 |- *. assert (1 <= X * / 1000000000000000)%R by lra. nra. }
  set (F := (X * pow10 ee)%R) in *. assert (pow2 (-1019) <= F)%R as HF.
  { pose proof (pow2_S (-1019)) as H1. change (-1019 + 1) with (-1018) in H1. lra. }
  pose proof (pow2_le (-912) 0 ltac:(lia)) as H912. change (pow2 0) with 1%R in H912.
  assert (∀ m e s, approx 15 (dbl m e) (F * pow2 s) → far m e (r * pow2 s)) as Hfar.
  { intros m e s A. apply (approx_far m e (F * pow2 s)); [done|]. pose proof (pow2_pos s). split; [apply Rmult_le_compat_r; lra|].
    replace (F * pow2 s * (1 + / 1000000000000000))%R with (F * (1 + / 1000000000000000) * pow2 s)%R by ring. apply Rmult_le_compat_r; lra. }
  unfold first_approximation. destruct (Z.ltb_spec 0 ee) as [Hpos|Hneg]; [|destruct (Z.ltb_spec ee 0) as [Hlt|Hge]].
  - destruct (scale_up_spec v ee 2 X HX ltac:(lia) HX1 Hpos) as (m & e & -> & Hm & A); [fold F; lra|]. exists m, e, 0. split; [done|]. split; [done|]. split; [by left|]. change (pow2 0) with 1%R. rewrite Rmult_1_r.
    pose proof (pow10_ge1 ee ltac:(lia)). split; [unfold F in *; nra|]. specialize (Hfar m e 0). change (pow2 0) with 1%R in Hfar. rewrite !Rmult_1_r in Hfar. by apply Hfar.
  - destruct (scale_down_spec v (- ee) 2 X HX ltac:(lia) HX1 ltac:(lia)) as (m & e & -> & Hm & A & H0); [by rewrite Z.opp_involutive|]. rewrite Z.opp_involutive in *. fold F in A, H0.
    set (s := scale_of (- ee / 16)) in *. exists m, e, s. split; [done|]. split; [done|]. assert (s = 0 ∨ s = 106) as Hs by (unfold s, scale_of; destruct (_ <=? _); auto). split; [done|]. split; [|by apply Hfar].
    assert (r <= pow2 61)%R as Hr61.
    { pose proof (pow10_le ee 0 ltac:(lia)) as H1. change (pow10 0) with 1%R in H1. assert (F <= pow2 60)%R by (unfold F; nra). pose proof (pow2_S 60) as Hs61. change (60 + 1) with 61 in Hs61. lra. }
    destruct Hs as [Hs|Hs]; rewrite Hs in *.
    + change (pow2 0) with 1%R. rewrite Rmult_1_r. specialize (H0 eq_refl). split; lra.
    + pose proof (pow2_pos 106). split.
      * change (-912) with (-1018 + 106). rewrite pow2_add. apply Rmult_le_compat_r; lra.
      * apply Rle_lt_trans with (pow2 61 * pow2 106)%R; [apply Rmult_le_compat_r; lra|]. rewrite <- pow2_add. apply pow2_lt. lia.
  - assert (ee = 0) as He0 by lia. unfold F in *. rewrite He0 in *. change (pow10 0) with 1%R in *. rewrite Rmult_1_r in *.
    destruct (approx_normal 2 v X 0 60 ltac:(lia) HX) as (m & e & -> & Hm & _); [change (pow2 0) with 1%R; lra|lia|]. exists m, e, 0. split; [done|]. split; [done|]. split; [by left|].
    change (pow2 0) with 1%R. rewrite Rmult_1_r. split; [lra|]. specialize (Hfar m e 0). change (pow2 0) with 1%R in Hfar. rewrite !Rmult_1_r in Hfar. apply Hfar. by apply (approx_le 2); [lia|].
Qed.
End start.
End StrtodStart.
