(* ===== verification/StrtodLong.v ===== *)
(** * dtoa.c: numerals of more than 40 digits in [fpconv_strtod]

    Of a long numeral at most 18 digits become a big integer; the rest makes it larger by
    less than [10 ^ -17] of its value. The correction stops early when the approximation
    is below the numeral that was cut, and [bigcomp] compares all the digits with those of
    the number halfway to the next double. *)
From Stdlib Require Import Reals Lra.
From S2P Require Import Prelude Libc Double DoubleSpec Bigint BigintSpec BigintOps Dtoa FloatSpec FloatOps FloatRound DtoaWords DtoaEstimate DtoaDigits DtoaBig DtoaScale Gethex Strtod StrtodScan StrtodShort StrtodWords StrtodRound StrtodStart.

Module StrtodLong.
Import Double DoubleSpec Bigint BigintSpec BigintOps Dtoa FloatSpec FloatOps FloatRound DtoaWords DtoaEstimate DtoaDigits DtoaSmall DtoaErrors DtoaScale Gethex Strtod StrtodScan StrtodShort StrtodWords StrtodRound StrtodStart.

(** ** The digits that are kept *)
Lemma stripped_zeros a b k l : a ++ replicate k 48 = b ++ replicate l 48 → stripped a → stripped b → a = b.
Proof.
  revert l. induction k as [|k IH]; intros [|l] He Ha Hb; rewrite ?replicate_S_end, ?app_assoc in He; cbn [replicate] in He; rewrite ?app_nil_r in He.
  - done.
  - exfalso. apply Ha. rewrite He. apply last_snoc.
  - exfalso. apply Hb. rewrite <- He. apply last_snoc.
  - apply app_inj_tail in He as [He _]. by apply (IH l).
Qed.

Section cut.
Context {E : Type} (s dd : list Z) (nd0 dp0 dp1 dplen : Z).
Context (Hat : digits_at s dd nd0 dplen) (Hd : digits_ok dd) (Hl : leading dd) (H40 : 40 < len dd).
Context (Hplen : 0 ≤ dplen) (Hnd0 : 0 < nd0 ≤ len dd) (Hplace : (dp1 ≤ 0 ∧ nd0 = len dd) ∨ (dp0 = nd0 ∧ dp1 = nd0 + dplen)).

Lemma cut_zeros_spec fuel (i : nat) j :
  (1 ≤ i ≤ 18)%nat → (i < fuel)%nat → (j = Z.of_nat i ∧ Z.of_nat i ≤ nd0) ∨ (j = Z.of_nat i + dplen ∧ nd0 ≤ Z.of_nat i) →
  ∃ n, cut_zeros (E:=E) fuel s (Z.of_nat i) j dp0 dp1 = Done (Z.of_nat n) ∧ (1 ≤ n ≤ i)%nat ∧ stripped (take n dd) ∧
    take i dd = take n dd ++ replicate (i - n) 48.
Proof.
  revert i j. induction fuel as [|fuel IH]; intros i j Hi Hf Hj; [lia|]. cbn [cut_zeros]. destruct i as [|i]; [lia|].
  set (j1 := if (j - 1 <? dp1) && (dp0 <=? j - 1) then dp0 - 1 else j - 1).
  assert (j1 = Z.of_nat i + (if Z.of_nat i <? nd0 then 0 else dplen)) as Hj1.
  { unfold j1. destruct (Z.ltb_spec (j - 1) dp1), (Z.leb_spec dp0 (j - 1)), (Z.ltb_spec (Z.of_nat i) nd0); cbn [andb]; lia. }
  destruct (lookup_lt_is_Some_2 dd i ltac:(lia)) as [c Hc]. pose proof (Hat _ _ Hc) as Hz. rewrite <- Hj1 in Hz. rewrite (rd_done _ _ _ Hz). cbn [obind].
  pose proof (take_S_r dd i c Hc) as Ht. destruct (Z.eqb_spec c 48) as [->|Hne].
  - destruct i as [|i]; [destruct Hl as (d & r & Hdr & ?); rewrite Hdr in Hc; injection Hc as ->; lia|].
    replace (Z.of_nat (S (S i)) - 1) with (Z.of_nat (S i)) by lia.
    destruct (IH (S i) j1) as (n & Hn & Hni & Hs & Heq); [lia|lia|destruct (Z.ltb_spec (Z.of_nat (S i)) nd0); lia|].
    exists n. split; [done|]. split; [lia|]. split; [done|]. rewrite Ht, Heq. replace (S (S i) - n)%nat with (S (S i - n)) by lia. by rewrite replicate_S_end, app_assoc.
  - exists (S i). split; [done|]. split; [lia|]. rewrite Nat.sub_diag, app_nil_r. split; [|done]. unfold stripped. rewrite Ht, last_snoc. congruence.
Qed.

Lemma sum_digits_spec a b j :
  digits_ok (a ++ b) → (length (a ++ b) ≤ 9)%nat → (∀ (l : nat) c, b !! l = Some c → zget s (j + Z.of_nat l) = Some c) →
  sum_digits (E:=E) (length b) s j (dec_value a) = Done (dec_value (a ++ b)).
Proof.
  revert a j. induction b as [|c b IH]; intros a j Hok Hlen Hb; cbn [length sum_digits]; [by rewrite app_nil_r|].
  pose proof (Hb O c eq_refl) as H0. rewrite Z.add_0_r in H0. rewrite (rd_done _ _ _ H0). cbn [obind].
  replace (a ++ c :: b) with ((a ++ [c]) ++ b) in * by (by rewrite <- app_assoc).
  pose proof Hok as Hok'. apply Forall_app in Hok' as [Hac _]. pose proof (dec_value_range _ Hac) as Hr. rewrite length_app in Hlen.
  pose proof (Z.pow_le_mono_r 10 (len (a ++ [c])) 9 ltac:(lia) ltac:(lia)). rewrite dec_value_snoc in Hr.
  rewrite (wrap_small 32) by lia. replace (10 * dec_value a + c - 48) with (dec_value (a ++ [c])) by (rewrite dec_value_snoc; lia).
  apply IH; [done|rewrite length_app; lia|]. intros l c' Hc'. rewrite <- (Hb (S l) c' Hc'). f_equal. lia.
Qed.

(** The digits are cut to [n ≤ 18], the last of them not 0. *)
Lemma cut_digits_spec e :
  ∃ n nd0', cut_digits (E:=E) s nd0 (len dd) (first9 dd) e dp0 dp1 dplen = Done (nd0', Z.of_nat n, first9 (take n dd), e + (len dd - Z.of_nat n)) ∧
    (1 ≤ n ≤ 18)%nat ∧ 0 ≤ nd0' ≤ Z.of_nat n ∧ digits_at s (take n dd) nd0' dplen ∧ stripped (take n dd) ∧ take 18 dd = take n dd ++ replicate (18 - n) 48.
Proof.
  unfold cut_digits, strtod_diglim. rewrite (proj2 (Z.leb_gt (len dd) 40)) by lia.
  destruct (cut_zeros_spec 19 18 (if nd0 <? 18 then 18 + dplen else 18)) as (n & Hn & Hn18 & Hs & Heq); [lia|lia|destruct (Z.ltb_spec nd0 18); lia|].
  change (Z.of_nat 18) with 18 in Hn. rewrite Hn. cbn [obind]. set (nd0' := if Z.of_nat n <? nd0 then Z.of_nat n else nd0).
  assert (0 ≤ nd0' ≤ Z.of_nat n ∧ nd0' ≤ nd0) as [Hr Hr0] by (unfold nd0'; destruct (Z.ltb_spec (Z.of_nat n) nd0); lia).
  assert (digits_at s (take n dd) nd0' dplen) as Hat'.
  { intros j d Hj. apply lookup_take_Some in Hj as [Hj Hlt]. rewrite <- (Hat j d Hj). f_equal. f_equal. unfold nd0'.
    destruct (Z.ltb_spec (Z.of_nat n) nd0), (Z.ltb_spec (Z.of_nat j) nd0); rewrite ?(proj2 (Z.ltb_lt (Z.of_nat j) (Z.of_nat n))) by lia; lia || done. }
  exists n, nd0'. split; [|done]. destruct (Z.ltb_spec (Z.of_nat n) 9) as [H9|H9].
  - set (a := take (Z.to_nat nd0') dd). set (b := take (n - Z.to_nat nd0') (drop (Z.to_nat nd0') dd)).
    assert (a ++ b = take n dd) as Hab by (unfold a, b; rewrite take_take_drop; f_equal; lia).
    assert (digits_ok (take n dd)) as Hok by (by apply Forall_take). assert (length (take n dd) = n) as Hlen by (rewrite length_take; lia).
    assert (Z.to_nat nd0' = length a) as -> by (unfold a; rewrite length_take; lia).
    assert (Z.to_nat (Z.of_nat n - nd0') = length b) as -> by (unfold b; rewrite length_take, length_drop; lia).
    change (sum_digits (length a) s 0 0) with (sum_digits (E:=E) (length a) s 0 (dec_value [])). rewrite (sum_digits_spec [] a 0); [|cbn [app]; rewrite <- Hab in Hok; by apply Forall_app in Hok as [? _]|cbn [app]; rewrite <- Hab, length_app in Hlen; lia|].
    + cbn [obind app]. rewrite (sum_digits_spec a b dp1); [|by rewrite Hab|rewrite Hab; lia|].
      * cbn [obind]. rewrite Hab. assert (first9 (take n dd) = dec_value (take n dd)) as ->; [|done]. unfold first9. by rewrite (take_ge (take n dd) 9) by lia.
      * intros l c Hc. unfold b in Hc. apply lookup_take_Some in Hc as [Hc Hlt]. rewrite lookup_drop in Hc.
        assert (nd0 ≤ Z.of_nat n ∧ nd0' = nd0) as [Hge Heq0] by (unfold nd0' in *; destruct (Z.ltb_spec (Z.of_nat n) nd0); lia).
        pose proof (Hat _ c Hc) as Hz. rewrite (proj2 (Z.ltb_ge _ _)) in Hz by lia. rewrite <- Hz. f_equal. lia.
    + intros l c Hc. unfold a in Hc. apply lookup_take_Some in Hc as [Hc Hlt]. pose proof (Hat _ c Hc) as Hz.
      rewrite (proj2 (Z.ltb_lt _ _)) in Hz by lia. rewrite <- Hz. f_equal. lia.
  - cbn [obind]. assert (first9 (take n dd) = first9 dd) as ->; [|done]. unfold first9. rewrite take_take. do 2 f_equal. lia.
Qed.
End cut.
(** ** The digits of the number halfway *)
Section words.
Context {E : Type}.

Lemma quorem_trim_words fuel xb n r : 1 ≤ n → quorem_trim (E:=E) fuel xb n n = Done r → 1 ≤ r.
Proof.
  revert n. induction fuel as [|fuel IH]; intros n Hn; [done|]. cbn [quorem_trim]. destruct (Z.ltb_spec 0 (n - 1)); [|by intros [= <-]].
  intros (w & _ & Hw)%obind_done. destruct (w =? 0); [|by injection Hw as <-]. apply (IH (n - 1)); [lia|done].
Qed.

Lemma quorem_end_words b n b' n' : 1 ≤ n → 1 ≤ wds b → quorem_end (E:=E) b n = Done (b', n') → 1 ≤ wds b' ∧ 1 ≤ n'.
Proof.
  intros Hn Hb. unfold quorem_end. intros (w & _ & Hw)%obind_done. destruct (w =? 0); [|by injection Hw as <- <-].
  apply obind_done in Hw as (r & Hr & [= <- <-]). apply quorem_trim_words in Hr; [done|done].
Qed.

(** The remainder of a division by a number of two words or more has a word. *)
Lemma quorem_words b sb q b' : 2 ≤ wds sb → 1 ≤ wds b → quorem (E:=E) b sb = Done (q, b') → 1 ≤ wds b'.
Proof.
  intros Hs Hb. unfold quorem. destruct (wds b <? wds sb); [by intros [= _ <-]|].
  intros (bn & _ & Hq)%obind_done. apply obind_done in Hq as (sn & _ & Hq). destruct (u32 (sn + 1) =? 0); [done|].
  apply obind_done in Hq as ([b1 n1] & H1 & Hq). assert (1 ≤ wds b1 ∧ 1 ≤ n1) as [Hb1 Hn1].
  { destruct (_ =? 0); [injection H1 as <- <-; lia|]. apply obind_done in H1 as (xb & _ & H1). apply quorem_end_words in H1; [done|lia|done]. }
  apply obind_done in Hq as (c & _ & Hq). destruct (0 <=? c); [|by injection Hq as _ <-].
  apply obind_done in Hq as (xb & _ & Hq). apply obind_done in Hq as ([b2 n2] & H2 & [= _ <-]). by apply quorem_end_words in H2 as [? _].
Qed.

Lemma big_words b n : big b n → 1 ≤ wds b.
Proof. intros (ws & (_ & -> & _) & Hn & _). pose proof (normal_nonnil ws Hn). lia. Qed.
Lemma many_words b n : big b n → W ≤ n → 2 ≤ wds b.
Proof.
  intros (ws & (_ & -> & Hok & _) & _ & <-) HW. pose proof (value_range ws Hok). destruct (decide (2 ≤ len ws)) as [|Hlt]; [done|].
  pose proof (Z.pow_le_mono_r W (len ws) 1 ltac:(lia) ltac:(lia)). lia.
Qed.
End words.

Section compare.
Context {E : Type} (s dd : list Z) (bnd : nat) (d : Bigint) (dv hn : Z).
Context (Hd : digits_ok dd) (Hb : big d dv) (Hlog : Z.log2 dv mod 32 = 27) (Hcap : 10 * dv < capacity) (HW : W ≤ dv).
Context (Hbnd : ∀ k, (k ≤ length dd)%nat → 0 < dec_value (drop k dd) ↔ (k < bnd)%nat).

(** The first [i] digits are those of [hn / dv], its next quotient digit is [dig] and
    [b] the remainder. *)
Definition matched (i : nat) (b : Bigint) (dig : Z) : Prop :=
  ∃ nb, rest_of b nb ∧ 1 ≤ wds b ∧ 0 ≤ nb < dv ∧ (0 ≤ dig ∧ ((0 < i)%nat → dig < 10)) ∧ hn * 10 ^ Z.of_nat i = (10 * dec_value (take i dd) + dig) * dv + nb.

Definition order : comparison := dec_value dd * dv ?= hn * 10 ^ (len dd - 1).

Lemma split_digit i c : dd !! i = Some c →
  48 ≤ c ≤ 57 ∧ dec_value (take (S i) dd) = 10 * dec_value (take i dd) + (c - 48) ∧
  dec_value dd = dec_value (take (S i) dd) * 10 ^ (len dd - 1 - Z.of_nat i) + dec_value (drop (S i) dd) ∧
  0 ≤ dec_value (drop (S i) dd) < 10 ^ (len dd - 1 - Z.of_nat i).
Proof.
  intros Hc. pose proof (lookup_lt_Some _ _ _ Hc). split; [exact (Forall_lookup_1 _ _ _ _ Hd Hc)|]. rewrite (take_S_r dd i c Hc), dec_value_snoc. split; [lia|].
  rewrite <- dec_value_snoc, <- (take_S_r dd i c Hc). pose proof (dec_value_range (drop (S i) dd) ltac:(by apply Forall_drop)) as Hr. rewrite length_drop in Hr.
  replace (Z.of_nat (length dd - S i)) with (len dd - 1 - Z.of_nat i) in Hr by lia. split; [|done].
  rewrite <- (take_drop (S i) dd) at 1. rewrite dec_value_app, length_drop. do 3 f_equal. lia.
Qed.

Lemma matched_order i b dig c :
  matched i b dig → dd !! i = Some c →
  (c - 48 < dig → order = Lt) ∧ (dig < c - 48 → order = Gt) ∧
  (c - 48 = dig → rest_of b 0 → order = if decide (S i < bnd)%nat then Gt else Eq).
Proof.
  intros (nb & Hr & _ & Hnb & [Hdig _] & Heq) Hc. pose proof (lookup_lt_Some _ _ _ Hc) as Hlt. destruct (split_digit i c Hc) as (_ & HS & HD & HR).
  set (k := len dd - 1 - Z.of_nat i) in *. pose proof (Z.pow_pos_nonneg 10 k ltac:(lia) ltac:(unfold k; lia)) as Hp.
  assert (hn * 10 ^ (len dd - 1) = ((10 * dec_value (take i dd) + dig) * dv + nb) * 10 ^ k) as HH.
  { rewrite <- Heq, <- Z.mul_assoc, <- Z.pow_add_r by (unfold k; lia). do 2 f_equal. unfold k. lia. }
  unfold order. rewrite HH, HD, HS. set (A := dec_value (take i dd)) in *. set (R := dec_value (drop (S i) dd)) in *. set (q := 10 ^ k) in *. split; [|split].
  - intros Hcd. apply Z.compare_lt_iff. assert ((10 * A + (c - 48)) * q + R < (10 * A + dig) * q) by nia.
    assert (((10 * A + (c - 48)) * q + R) * dv < (10 * A + dig) * q * dv) by (apply Z.mul_lt_mono_pos_r; lia). assert (0 ≤ nb * q) by nia. lia.
  - intros Hcd. apply Z.compare_gt_iff. assert ((10 * A + dig + 1) * q ≤ (10 * A + (c - 48)) * q + R) by nia.
    assert ((10 * A + dig + 1) * q * dv ≤ ((10 * A + (c - 48)) * q + R) * dv) by (apply Z.mul_le_mono_nonneg_r; lia). assert (nb * q < dv * q) by (apply Z.mul_lt_mono_pos_r; lia). lia.
  - intros -> [_ H0]. assert (nb = 0) as ->.
    { destruct (decide (nb = 0)) as [|Hn]; [done|]. exfalso. specialize (H0 eq_refl). destruct Hr as [Hbig _]. destruct (Hbig ltac:(lia)) as (ws & (_ & Hw & Hok & rest & Hx) & Hnorm & Hv).
      destruct H0 as (_ & Hw1 & rest' & Hx'). rewrite Hw in Hw1. pose proof (normal_nonnil ws Hnorm). destruct ws as [|w [|? ?]]; cbn [length] in *; [lia| |lia].
      rewrite Hx in Hx'. cbn in Hx'. injection Hx' as -> _. cbn [value] in Hv. lia. }
    rewrite Z.add_0_r. specialize (Hbnd (S i) ltac:(lia)). fold R in Hbnd. destruct (decide (S i < bnd)%nat) as [Hl|Hl].
    + apply Hbnd in Hl. apply Z.compare_gt_iff. nia.
    + assert (R = 0) as -> by lia. apply Z.compare_eq_iff. lia.
Qed.

Lemma compare_digits_spec n p j i b dig :
  pool_ok p → (i + n ≤ length dd)%nat → (∀ (l : nat) c, (l < n)%nat → dd !! (i + l)%nat = Some c → zget s (j + Z.of_nat l) = Some c) → matched i b dig →
  run (compare_digits (E:=E) n s j (Z.of_nat i) (Z.of_nat bnd) b d dig) p 0 (λ '(b', dig', res) _,
    match res with Some v => block_ok b' ∧ (v ?= 0) = order | None => matched (i + n) b' dig' end).
Proof.
  revert p j i b dig. induction n as [|n IH]; intros p j i b dig Hp Hi Hat Hm; cbn [compare_digits].
  { apply run_ret; [done|]. by rewrite Nat.add_0_r. }
  destruct (lookup_lt_is_Some_2 dd i ltac:(lia)) as [c Hc]. pose proof (Hat O c ltac:(lia)) as Hz. rewrite Nat.add_0_r, Z.add_0_r in Hz.
  apply run_lift. rewrite (rd_done _ _ _ (Hz Hc)). apply returns_done. destruct (matched_order i b dig c Hm Hc) as (Hlt & Hgt & Heq).
  destruct Hm as (nb & Hr & Hw & Hnb & [Hdig _] & Hst). pose proof (DtoaBig.rest_block b nb ltac:(lia) Hr) as Hblk. cbv zeta. destruct (Z.eqb_spec (c - 48 - dig) 0) as [H0|H0]; cbn [negb].
  2: { apply run_ret; [done|]. split; [done|]. destruct (Z.compare_spec (c - 48 - dig) 0); [lia|rewrite Hlt; [done|lia]|rewrite Hgt; [done|lia]]. }
  pose proof (DtoaBig.no_words_spec (E:=E) b nb ltac:(lia) Hr) as Hnw. unfold no_words in Hnw. apply obind_done in Hnw as (w & Hw0 & Hnw). apply run_lift. rewrite Hw0. apply returns_done.
  assert ((w =? 0) && (wds b =? 1) = (nb =? 0)) as ->.
  { injection Hnw as <-. f_equal. destruct (Z.eqb_spec (wds b) 1), (Z.leb_spec (wds b) 1); (done || lia). }
  destruct (Z.eqb_spec nb 0) as [->|Hnz].
  - apply run_ret; [done|]. split; [done|]. rewrite Heq by (done || lia). destruct (decide (S i < bnd)%nat); [rewrite (proj2 (Z.ltb_lt _ _)) by lia|rewrite (proj2 (Z.ltb_ge _ _)) by lia]; done.
  - eapply (run_bind _ _ _ 0); [apply (multadd_spec p b nb 10 0); [done|apply Hr; lia|lia|lia|lia]|]. intros b1 p1 Hp1 [Hb1 _]. rewrite Z.add_0_r in Hb1.
    destruct (quorem_spec (E:=E) b1 d _ dv Hb1 Hb Hlog ltac:(lia)) as (b2 & Hq & Hr2). apply run_lift. rewrite Hq. apply returns_done.
    pose proof (Z.mod_pos_bound (nb * 10) dv ltac:(lia)). pose proof (Z.div_mod (nb * 10) dv ltac:(lia)). pose proof (Z.div_pos (nb * 10) dv ltac:(lia) ltac:(lia)).
    replace (Z.of_nat i + 1) with (Z.of_nat (S i)) by lia.
    eapply run_conv; [eapply run_mono; [apply (IH p1 (j + 1) (S i) b2 (nb * 10 / dv)); [done|lia| |]|]|lia].
    + intros l c' Hl Hc'. rewrite <- (Hat (S l) c' ltac:(lia)); [f_equal; lia|]. rewrite <- Hc'. f_equal. lia.
    + exists (nb * 10 mod dv). split; [done|]. split; [apply (quorem_words (E:=E) b1 d (nb * 10 / dv) b2); [by eapply many_words|by eapply big_words|done]|]. split; [done|].
      split; [split; [done|intros _; apply Z.div_lt_upper_bound; lia]|].
      destruct (split_digit i c Hc) as (_ & HS & _). rewrite HS, Nat2Z.inj_succ, Z.pow_succ_r by lia. replace (c - 48) with dig by lia. nia.
    + intros [[b' dig'] [v|]] p'; [done|]. by replace (i + S n)%nat with (S i + n)%nat by lia.
Qed.
End compare.

(** ** The number halfway *)
Section start.
Context {E : Type}.

Lemma set_low_bit b v :
  big b (2 * v) → ∃ w xs, rdw (E:=E) (x b) 0 = Done w ∧ wrw (E:=E) (x b) 0 (Z.lor w 1) = Done xs ∧ big (set_x xs b) (2 * v + 1).
Proof.
  intros (ws & (Hb & Hw & Hok & rest & Hx) & Hn & Hv). destruct ws as [|w ws]; [by apply normal_nil in Hn|].
  exists w, ((Some <$> Z.lor w 1 :: ws) ++ rest). pose proof Hok as Hok'. apply Forall_cons in Hok' as [Hww Hws]. cbn [value] in Hv. unfold word_ok in Hww. change W with 4294967296 in *.
  assert (Z.lor w 1 = w + 1) as Hlor. { assert (w = w / 2 * 2 ^ 1) as Hw2 by (pose proof (Z.div_mod w 2 ltac:(lia)); pose proof (Z.mod_pos_bound w 2 ltac:(lia)); lia). rewrite Hw2. rewrite lor_low by lia. lia. }
  assert (w + 1 < 4294967296) as Hlt by lia. rewrite Hx. split; [done|]. rewrite Hlor. split; [apply (wrw_mid (E:=E) []); [done|unfold word_ok; change W with 4294967296; lia]|]. exists (w + 1 :: ws). split; [|split].
  - destruct Hb as (Hk & Hm & Hlen). rewrite Hx in Hlen. split; [split; [done|]; split; [done|]|].
    { cbn [x set_x maxwds]. rewrite <- Hlen, !length_app, !length_fmap. done. }
    split; [done|]. split; [constructor; [unfold word_ok; change W with 4294967296; lia|done]|]. by exists rest.
  - destruct Hn as (us & u & Heq & Hu). destruct us as [|u' us]; cbn [app] in Heq.
    + injection Heq as -> ->. exists [], (u + 1). split; [done|lia].
    + injection Heq as -> ->. by exists (u' + 1 :: us), u.
  - cbn [value]. change W with 4294967296. lia.
Qed.

Lemma pow5_pos_if p b m k :
  pool_ok p → big b m → k < 1000 → m * 5 ^ Z.max k 0 < capacity → run (if 0 <? k then pow5mult (E:=E) b k else ret b) p 0 (λ b' _, big b' (m * 5 ^ Z.max k 0)).
Proof.
  intros Hp Hb Hk Hc. assert ((if 0 <? k then pow5mult (E:=E) b k else ret b) = if 0 <? Z.max k 0 then pow5mult b (Z.max k 0) else ret b) as ->.
  { destruct (Z.ltb_spec 0 k), (Z.ltb_spec 0 (Z.max k 0)); (done || lia || (do 2 f_equal; lia)). }
  apply pow5_if; (done || lia).
Qed.

(** [b / d] is the number halfway to the next double in units of [10 ^ p5]. *)
Lemma bigcomp_start_spec p (m : positive) e bc p5 :
  pool_ok p → normal_m m → -964 ≤ e ≤ 970 → bc_scale bc = 0 ∨ bc_scale bc = 106 → p5 = bc_nd bc + bc_e0 bc - 1 → -420 ≤ p5 ≤ 420 →
  let half := (IZR (2 * Z.pos m + 1) * pow2 (e - 1 - bc_scale bc))%R in (pow10 p5 <= half < 16 * pow10 p5)%R →
  run (bigcomp_start (E:=E) (dbl m e) bc) p 2 (λ '(b, d, dig, rv, sp) _, rv = dbl m e ∧ sp = false ∧ ∃ dv hn,
    big d dv ∧ Z.log2 dv mod 32 = 27 ∧ 10 * dv < capacity ∧ W ≤ dv ∧ (IZR hn * pow10 p5 = half * IZR dv)%R ∧ matched [] dv hn 0 b dig).
Proof.
  cbv zeta. intros Hp Hm He Hs -> Hp5 Hhalf. set (p5 := bc_nd bc + bc_e0 bc - 1) in *. unfold bigcomp_start. fold p5. cbn [is_zero dbl]. fold (dbl m e).
  destruct (dbl_good m e Hm ltac:(lia)) as [_ Hok]. set (scale := bc_scale bc) in *.
  assert (∀ f : Bigint * Z * Z * double * bool → M pool event E (Bigint * Bigint * Z * double * bool), ∀ Q,
    (∀ b p', pool_ok p' → big b (2 * Z.pos m + 1) → ∀ i, run (f (b, e - 1 - scale + i, i, dbl m e, false)) p' 1 Q) →
    run (bind (let* (b, p2, bbits) := d2b (dbl m e) in
       let p2 := p2 - scale in
       let i := Z.min (Dtoa.P - bbits) (Dtoa.P - Emin - 1 + p2) in
       let i := i + 1 in
       let* b := lshift b i in
       let* w := lift (rdw (x b) 0) in
       let* xs := lift (wrw (x b) 0 (Z.lor w 1)) in
       ret (set_x xs b, p2, i, dbl m e, false)) f) p 2 Q) as Hstep.
  { intros f Q Hf. eapply (run_bind _ _ _ 1 _ (λ r _, ∃ b i, r = (b, e - 1 - scale + i, i, dbl m e, false) ∧ big b (2 * Z.pos m + 1))).
    2: { intros r p1 Hp1 (b & i & -> & Hb). eapply run_conv; [by apply Hf|lia]. }
    eapply (run_bind _ _ _ 1); [apply (d2b_spec p m e Hp Hok)|]. intros [[b be] bits] p1 Hp1 (n & Hb & Hbe & Hn & -> & _). cbv zeta.
    pose proof (big_pos _ _ Hb) as Hn0. unfold normal_m in Hm. assert (Z.log2 n + (be - e) = 52) as Hlog.
    { rewrite Z.add_comm. rewrite <- Z.log2_mul_pow2, Hn by lia. apply Z.log2_unique; [lia|]. change (2 ^ Z.succ 52) with (2 ^ 53). lia. }
    pose proof (Z.log2_nonneg n). replace (Z.min _ _ + 1) with (be - e + 1) by (unfold Dtoa.P, Emin; lia).
    assert (n * 2 ^ (be - e + 1) = 2 * Z.pos m) as H2m by (rewrite Z.pow_add_r, <- Hn by lia; change (2 ^ 1) with 2; ring).
    eapply (run_bind _ _ _ 0); [apply (lshift_spec p1 b n (be - e + 1)); [done|done|lia|]|].
    { rewrite H2m. apply (DtoaBig.capacity_bits _ 54); lia. }
    rewrite H2m. intros b1 p2 Hp2 [Hb1 _]. destruct (set_low_bit b1 (Z.pos m) Hb1) as (w & xs & Hw & Hxs & Hb2).
    apply run_lift. rewrite Hw. apply returns_done. apply run_lift. rewrite Hxs. apply returns_done. eapply run_conv; [apply run_ret; [done|]|lia].
    eexists _, (be - e + 1). split; [|done]. repeat f_equal. lia. }
  apply Hstep. clear Hstep. intros b1 p1 Hp1 Hb1 i0. cbv beta iota zeta. replace (e - 1 - scale + i0 - (p5 + i0)) with (e - 1 - scale - p5) by lia. set (p2 := e - 1 - scale - p5).
  eapply (run_bind _ _ _ 1); [apply i2b_spec; [done|lia]|]. intros d1 p3 Hp3 [Hd1 _].
  unfold normal_m in Hm. assert (0 < 2 * Z.pos m + 1 ≤ 2 ^ 54) as Hm54 by (change (2 ^ 54) with (2 * 2 ^ 53); lia).
  set (f5 := Z.max p5 0). set (g5 := Z.max (- p5) 0).
  destruct (product_bits 1 52 f5 0) as [_ Hc1]; [unfold f5; lia..|]. destruct (product_bits (2 * Z.pos m + 1) 54 g5 0) as [_ Hc2]; [unfold g5; lia..|].
  eapply (run_bind _ _ _ 0); [apply (pow5_pos_if p3 d1 1 p5); [done|done|lia|apply Hc1]|]. fold f5. rewrite Z.mul_1_l in *. intros d2' p4 Hp4 Hd2.
  assert ((p5 <? 0) = (0 <? - p5)) as -> by (destruct (Z.ltb_spec p5 0), (Z.ltb_spec 0 (- p5)); (done || lia)).
  eapply (run_bind _ _ _ 0); [apply (pow5_pos_if p4 b1 (2 * Z.pos m + 1) (- p5)); [done|done|lia|apply Hc2]|]. fold g5. intros b2' p6 Hp6 Hb2.
  set (b2 := Z.max p2 0). set (d2 := Z.max (- p2) 0). assert (0 ≤ b2 ≤ 1500 ∧ 0 ≤ d2 ≤ 1500) as [Hb2r Hd2r] by (unfold b2, d2, p2; lia).
  destruct (DtoaBig.dshift_spec (E:=E) d2' _ d2 Hd2 ltac:(lia)) as (i & Hi & Hir & Hlog). apply run_lift. rewrite Hi. apply returns_done.
  destruct (product_bits (2 * Z.pos m + 1) 54 g5 (b2 + i)) as [Hc3 _]; [unfold g5; lia..|]. destruct (product_bits 10 54 f5 (d2 + i)) as [Hc4 _]; [unfold f5; lia..|].
  eapply (run_bind _ _ _ 0); [apply (shift_if p6 b2' ((2 * Z.pos m + 1) * 5 ^ g5) (b2 + i)); [done|exact Hb2|lia|lia]|]. intros b3 p7 Hp7 Hb3.
  eapply (run_bind _ _ _ 0); [apply (shift_if p7 d2' (5 ^ f5) (d2 + i)); [done|exact Hd2|lia|lia]|]. intros d3 p8 Hp8 Hd3.
  set (hn := (2 * Z.pos m + 1) * 5 ^ g5 * 2 ^ (b2 + i)) in *. set (dv := 5 ^ f5 * 2 ^ (d2 + i)) in *. pose proof (big_pos _ _ Hd3) as Hdv. pose proof (big_pos _ _ Hb3) as Hhn.
  assert (IZR hn * pow10 p5 = IZR (2 * Z.pos m + 1) * pow2 (e - 1 - scale) * IZR dv)%R as HH.
  { unfold hn, dv. rewrite !(mult_IZR _ (2 ^ _)), !(mult_IZR _ (5 ^ _)), !DtoaBig.pow5_IZR, <- !pow2_IZR by (unfold f5, g5; lia).
    assert (pow10 g5 * pow10 p5 = pow10 f5)%R as H10 by (rewrite <- tenpow_add; f_equal; unfold f5, g5; lia).
    assert (pow2 (- g5) * pow2 (b2 + i) = pow2 (e - 1 - scale) * pow2 (- f5) * pow2 (d2 + i))%R as H2 by (rewrite <- !pow2_add; f_equal; unfold b2, d2, p2, f5, g5; lia).
    transitivity (IZR (2 * Z.pos m + 1) * (pow10 g5 * pow10 p5) * (pow2 (- g5) * pow2 (b2 + i)))%R; [ring|]. rewrite H10, H2. ring. }
  pose proof (IZR_lt _ _ Hdv) as Hdvr. pose proof (pow10_pos p5) as Hp5r.
  assert (dv ≤ hn < 16 * dv) as [Hlo Hhi].
  { split; [apply le_IZR|apply lt_IZR; rewrite mult_IZR]; [apply Rmult_le_reg_r with (pow10 p5)|apply Rmult_lt_reg_r with (pow10 p5)]; try done; rewrite HH; nra. }
  assert (2 * Z.pos m + 1 ≤ hn) as Hmh.
  { unfold hn. pose proof (Z.pow_pos_nonneg 5 g5 ltac:(lia) ltac:(unfold g5; lia)). pose proof (Z.pow_pos_nonneg 2 (b2 + i) ltac:(lia) ltac:(lia)). nia. }
  assert (W ≤ dv) as HW by (change W with (2 ^ 32); change (2 ^ 52) with (2 ^ 32 * 1048576) in Hm; lia).
  assert (Z.log2 dv mod 32 = 27) as Hlog' by (unfold dv; rewrite Z.log2_mul_pow2 by lia; rewrite <- Hlog; f_equal; lia).
  destruct (quorem_spec (E:=E) b3 d3 _ _ Hb3 Hd3 Hlog' Hhi) as (b4 & Hq & Hr4). apply run_lift. rewrite Hq. apply returns_done.
  assert (1 ≤ hn / dv) as Hq1 by (apply Z.div_le_lower_bound; lia). rewrite (proj2 (Z.eqb_neq (hn / dv) 0)) by lia.
  eapply run_conv; [apply run_ret; [done|]|lia]. split; [done|]. split; [done|]. exists dv, hn. split; [done|]. split; [done|]. split; [lia|]. split; [done|]. split; [exact HH|].
  exists (hn mod dv). split; [done|]. split; [apply (quorem_words (E:=E) b3 d3 (hn / dv) b4); [apply (many_words d3 dv Hd3 HW)|apply (big_words b3 hn Hb3)|done]|].
  split; [apply Z.mod_pos_bound; lia|]. split; [split; [lia|intros; lia]|]. change (dec_value (take 0 [])) with 0. change (10 ^ Z.of_nat 0) with 1. pose proof (Z.div_mod hn dv ltac:(lia)). lia.
Qed.
End start.
(** ** The choice *)
Section choice.
Context (m : positive) (e : Z) (Hm : normal_m m) (He : -964 ≤ e ≤ 969).

Lemma stay_rounds h :
  (val (dbl m e) < h <= val (dbl m e) + pow2 (e - 1))%R → (h = val (dbl m e) + pow2 (e - 1) → Z.odd (Z.pos m) = false)%R → rounds (dbl m e) h.
Proof.
  intros Hh Heven. pose proof (pow2_pos (e - 1)). assert (Rabs (val (dbl m e) - h) = h - val (dbl m e))%R as Ha by (rewrite Rabs_left; lra).
  apply nearest_rounds; [done|lia|rewrite Ha; lra| |intros; lra]. rewrite Ha. intros Heq. rewrite <- Z.negb_odd, Heven; [done|lra].
Qed.

Lemma up_rounds scale h :
  (val (dbl m e) + pow2 (e - 1) <= h < val (dbl m e) + pow2 e)%R → (h = val (dbl m e) + pow2 (e - 1) → Z.odd (Z.pos m) = true)%R →
  rounds (fadd (dbl m e) (sulp (dbl m e) scale)) h.
Proof.
  intros Hh Hodd. pose proof (pow2_pos (e - 1)) as Hp. pose proof (half e) as Hhe. rewrite (sulp_dbl m e) by (done || lia). unfold normal_m in Hm.
  destruct (decide (Z.pos m = 2 ^ 53 - 1)) as [Hm53|Hm53].
  - rewrite (next_power m e) by (done || lia). assert (val (dbl p52 (e + 1)) = val (dbl m e) + pow2 e)%R as Hv.
    { rewrite p52_val, dbl_val, Hm53. replace (e + 1 + 52) with (53 + e) by lia. rewrite pow2_add, (pow2_IZR 53), minus_IZR by lia. ring. }
    apply last_rounds; [done|lia|]. unfold last. rewrite Hv. replace (e + 1 - 1) with e by lia. replace (e + 1 - 2) with (e - 1) by lia.
    split; [|intros _ _]; rewrite Rabs_pos_eq; lra.
  - destruct (next_up m e) as [-> Hn]; [done|lia|lia|].
    assert (val (dbl (m + 1) e) = val (dbl m e) + pow2 e)%R as Hv by (rewrite !dbl_val, Pos2Z.inj_add, plus_IZR; ring).
    apply nearest_rounds; [done|lia|rewrite Hv, Rabs_pos_eq; lra| |lia]. rewrite Hv, Rabs_pos_eq by lra. intros Heq.
    rewrite Pos2Z.inj_add, Z.even_add, <- Z.negb_odd, Hodd; [done|lra].
Qed.

Lemma odd_mantissa_dbl scale : scale ≤ 106 → odd_mantissa (dbl m e) scale = Z.odd (Z.pos m).
Proof.
  intros Hs. unfold odd_mantissa. cbv zeta. rewrite exp_field_dbl by (done || lia). rewrite (proj2 (Z.leb_gt _ _)) by lia.
  destruct (word0_dbl m e) as (_ & -> & _); [done|lia|]. pose proof (Z.div_mod (Z.pos m) (2 ^ 32) ltac:(lia)) as Hd. rewrite Hd at 2. rewrite Z.odd_add, Z.odd_mul. change (Z.odd (2 ^ 32)) with false. by rewrite andb_false_l, xorb_false_l.
Qed.

(** What the comparison [v] with the number halfway chooses. *)
Lemma choice_rounds scale h v :
  scale ≤ 106 → (val (dbl m e) < h < val (dbl m e) + pow2 e)%R → 
  match v ?= 0 with Lt => (h < val (dbl m e) + pow2 (e - 1))%R | Gt => (val (dbl m e) + pow2 (e - 1) < h)%R | Eq => h = (val (dbl m e) + pow2 (e - 1))%R end →
  rounds (if v <? 0 then dbl m e else if 0 <? v then fadd (dbl m e) (sulp (dbl m e) scale)
          else if odd_mantissa (dbl m e) scale then fadd (dbl m e) (sulp (dbl m e) scale) else dbl m e) h.
Proof.
  intros Hs Hh. rewrite odd_mantissa_dbl by done. destruct (Z.compare_spec v 0) as [->|Hv|Hv]; intros Hc.
  - change (0 <? 0) with false. cbv iota. destruct (Z.odd (Z.pos m)) eqn:Ho; [apply up_rounds; [lra|done]|apply stay_rounds; [lra|done]].
  - rewrite (proj2 (Z.ltb_lt v 0)) by done. apply stay_rounds; [lra|intros; lra].
  - rewrite (proj2 (Z.ltb_ge v 0)), (proj2 (Z.ltb_lt 0 v)) by lia. apply up_rounds; [lra|intros; lra].
Qed.
End choice.

(** A digit that is not 0 is left before the zeros at the end, and none behind. *)
Lemma tail_value (core : list Z) (z k : nat) :
  digits_ok core → stripped core → (k ≤ length (core ++ replicate z 48%Z))%nat → 0 < dec_value (drop k (core ++ replicate z 48)) ↔ (k < length core)%nat.
Proof.
  intros Hd Hs Hk. destruct (decide (k < length core)%nat) as [Hlt|Hge].
  - split; [done|]. intros _. rewrite drop_app_le, dec_value_zeros by lia. pose proof (Z.pow_pos_nonneg 10 (Z.of_nat z) ltac:(lia) ltac:(lia)).
    destruct core as [|c core _] using rev_ind; [cbn in Hlt; lia|]. rewrite length_app in Hlt. cbn [length] in Hlt. apply Forall_app in Hd as [Hd [Hc _]%Forall_cons].
    unfold stripped in Hs. rewrite last_snoc in Hs. rewrite drop_app_le, dec_value_snoc by lia. pose proof (dec_value_range (drop k core) ltac:(by apply Forall_drop)).
    assert (c ≠ 48) by congruence. nia.
  - split; [|lia]. rewrite drop_app_ge, drop_replicate by lia. intros H. pose proof (dec_value_zeros [] (z - (k - length core))) as H0. cbn [app] in H0. rewrite H0 in H. change (dec_value []) with 0 in H. lia.
Qed.

Section bigcomp.
Context {E : Type}.

(** The result is the numeral rounded. Only when the number halfway is the numeral and one
    more digit it is taken for a tie. *)
Lemma bigcomp_spec p (m : positive) e s dd bc nz1 e1 dplen :
  pool_ok p → normal_m m → -964 ≤ e ≤ 969 → bc_scale bc = 0 ∨ bc_scale bc = 106 → bc_dsign bc ≠ 0 →
  digits_ok dd → leading dd → zeros_end dd nz1 → bc_nd bc = len dd - nz1 → bc_e0 bc = e1 + nz1 → -420 ≤ len dd - 1 + e1 ≤ 420 →
  digits_at s dd (bc_nd0 bc) dplen → 0 < bc_nd0 bc ≤ len dd → bc_nd0 bc = len dd ∨ nz1 = 0 ∧ bc_dp1 bc = bc_nd0 bc + dplen →
  let sc := pow2 (bc_scale bc) in let r := (IZR (dec_value dd) * pow10 e1 * sc)%R in let half := (val (dbl m e) + pow2 (e - 1))%R in
  (val (dbl m e) < r < val (dbl m e) + pow2 e)%R → (pow10 (len dd - 1 + e1) * sc <= half)%R →
  run (bigcomp (E:=E) (dbl m e) s bc) p 0 (λ rv _, rounds rv r ∨
    ∃ d, 1 ≤ d ≤ 9 ∧ (IZR (10 * dec_value dd + d) * pow10 (e1 - 1) * sc = half)%R ∧ rounds rv half).
Proof.
  cbv zeta. intros Hp Hm He Hs Hds Hd Hl (core & z & Hdd & -> & Hst) Hnd He0 Hp5 Hat Hn0 Hplace Hr Hlow. set (L := len dd) in *. set (D := dec_value dd) in *.
  set (V := val (dbl m e)) in *. set (sc := pow2 (bc_scale bc)) in *. set (P := (pow10 (L - 1 + e1))%R) in *.
  assert (len core = L - Z.of_nat z) as Hcore by (unfold L; rewrite Hdd, length_app, length_replicate; lia).
  assert (0 < sc)%R as Hsc by apply pow2_pos. assert (0 < P)%R as HP by apply pow10_pos. pose proof (half e) as Hhe. pose proof (pow2_pos (e - 1)) as Hpe.
  assert (IZR (2 * Z.pos m + 1) * pow2 (e - 1 - bc_scale bc) * sc = V + pow2 (e - 1))%R as Hhalf.
  { unfold V, sc. rewrite dbl_val, plus_IZR, mult_IZR, Rmult_assoc, <- pow2_add, Hhe. replace (e - 1 - bc_scale bc + bc_scale bc) with (e - 1) by lia. ring. }
  set (half := (IZR (2 * Z.pos m + 1) * pow2 (e - 1 - bc_scale bc))%R) in *.
  assert (IZR D * pow10 e1 < 10 * P)%R as HrP.
  { pose proof (dec_value_range dd Hd) as [_ Hlt]. fold D L in Hlt. apply IZR_lt in Hlt. rewrite <- pow10_IZR in Hlt by lia. unfold P.
    assert (10 * pow10 (L - 1 + e1) = pow10 L * pow10 e1)%R as -> by (rewrite <- pow10_S, <- tenpow_add; f_equal; lia). apply Rmult_lt_compat_r; [apply pow10_pos|done]. }
  pose proof (dbl_range m e Hm) as [Hlo _]. fold V in Hlo. pose proof (pow2_le (e + 2) (e + 52) ltac:(lia)) as H4. rewrite (pow2_add e 2), (pow2_IZR 2) in H4 by lia. change (2 ^ 2) with 4 in H4.
  unfold bigcomp. eapply (run_bind _ _ _ 2); [apply (bigcomp_start_spec p m e bc (L - 1 + e1)); try done; try lia|].
  { fold half P. split; apply Rmult_le_reg_r with sc || apply Rmult_lt_reg_r with sc; try done; [lra|]. rewrite Hhalf. assert (IZR D * pow10 e1 * sc < 10 * P * sc)%R by (by apply Rmult_lt_compat_r). nra. }
  intros [[[[b d] dig] rv] sp] p1 Hp1 (-> & -> & dv & hn & Hbd & Hlog & Hcap & HW & Hhn & Hm0). fold half P in Hhn. set (bnd := length core).
  assert (∀ k, (k ≤ length dd)%nat → 0 < dec_value (drop k dd) ↔ (k < bnd)%nat) as Hbnd.
  { rewrite Hdd. intros k Hk. apply tail_value; [rewrite Hdd in Hd; by apply Forall_app in Hd as [? _]|done|done]. }
  assert (bc_nd bc = Z.of_nat bnd) as -> by (unfold bnd; lia). set (n0 := Z.to_nat (bc_nd0 bc)). set (n1 := Z.to_nat (Z.of_nat bnd - bc_nd0 bc)).
  assert ((n0 + n1)%nat = length dd) as Hn01 by (unfold n0, n1, bnd; lia). replace (bc_nd0 bc) with (Z.of_nat n0) in * by (unfold n0; lia).
  assert (matched dd dv hn 0 b dig) as Hmd by exact Hm0. clear Hm0. cbv zeta.
  (* the comparison *)
  set (decided v := (v ?= 0) = order dd dv hn ∨ v = 0 ∧ ∃ q, 1 ≤ q ≤ 9 ∧ hn * 10 ^ L = (10 * D + q) * dv).
  eapply (run_bind _ _ _ 0); [apply (compare_digits_spec s dd bnd d dv hn Hd Hbd Hlog Hcap HW Hbnd n0 p1 0 0 b dig Hp1 ltac:(lia)); [|done]|].
  { intros l c Hlt Hc. pose proof (Hat l c Hc) as Hz. rewrite (proj2 (Z.ltb_lt _ _)), Z.add_0_r in Hz by lia. done. }
  intros [[b1 dig1] res] p2 Hp2 Hres. eapply (run_bind _ _ _ 0 _ (λ r _, block_ok r.1 ∧ decided r.2)).
  { destruct res as [v|]; [apply run_ret; [done|]; destruct Hres; split; [done|by left]|].
    eapply (run_bind _ _ _ 0); [apply (compare_digits_spec s dd bnd d dv hn Hd Hbd Hlog Hcap HW Hbnd n1 p2 (bc_dp1 bc) n0 b1 dig1 Hp2 ltac:(lia)); [|done]|].
    { intros l c Hlt Hc. pose proof (Hat _ c Hc) as Hz. rewrite (proj2 (Z.ltb_ge _ _)) in Hz by lia. rewrite <- Hz. f_equal. unfold n1 in Hlt. lia. }
    intros [[b2 dig2] res] p3 Hp3 Hres2. destruct res as [v|]; [eapply run_conv; [apply run_ret; [done|]; destruct Hres2; split; [done|by left]|lia]|].
    rewrite Hn01 in Hres2. destruct Hres2 as (nb & Hr2 & Hw2 & Hnb & [Hdig Hdig9] & Heq). rewrite take_ge in Heq by lia. fold D L in Heq.
    pose proof (DtoaBig.no_words_spec (E:=E) b2 nb ltac:(lia) Hr2) as Hnw. unfold no_words in Hnw. apply obind_done in Hnw as (w & Hw0 & [= Hnw]). apply run_lift. rewrite Hw0. apply returns_done.
    assert (negb (w =? 0) || (1 <? wds b2) = negb (nb =? 0)) as -> by (rewrite <- Hnw, negb_andb; f_equal; destruct (Z.leb_spec (wds b2) 1), (Z.ltb_spec 1 (wds b2)); (done || lia)).
    eapply run_conv; [apply run_ret; [done|]|lia]. split; [apply (DtoaBig.rest_block b2 nb ltac:(lia) Hr2)|]. cbn [snd].
    assert (1 ≤ L) as HL by (unfold L; destruct Hl as (? & ? & -> & _); cbn [length]; lia). assert (hn * 10 ^ L = hn * 10 ^ (L - 1) * 10) as HLs by (rewrite <- Z.mul_assoc, (Z.mul_comm _ 10), <- (Z.pow_succ_r 10) by lia; do 2 f_equal; lia).
    destruct (Z.eqb_spec nb 0) as [->|Hnz]; cbn [negb].
    - destruct (decide (dig2 = 0)) as [->|Hd2].
      + left. symmetry. apply Z.compare_eq_iff. fold D L. lia.
      + right. split; [done|]. exists dig2. split; [specialize (Hdig9 ltac:(lia)); lia|lia].
    - left. symmetry. apply Z.compare_lt_iff. fold D L. nia. }
  intros [b2 v] p3 Hp3 [Hb2 Hv]. cbn [fst snd] in *. eapply (run_bind _ _ _ (-1)); [by apply Bfree_spec|]. intros _ p4 Hp4 _.
  eapply (run_bind _ _ _ (-1)); [apply Bfree_spec; [done|by eapply big_block]|]. intros _ p5 Hp5' _. eapply run_conv; [apply run_ret; [done|]|lia].
  cbv iota. rewrite (proj2 (Z.eqb_neq (bc_dsign bc) 0)) by done. pose proof (big_pos _ _ Hbd) as Hdv%IZR_lt.
  assert (∀ j, IZR hn * pow10 (j - 1 + e1 + (L - j)) * sc = (V + pow2 (e - 1)) * IZR dv)%R as Hscale.
  { intros j. replace (j - 1 + e1 + (L - j)) with (L - 1 + e1) by lia. fold P. rewrite Hhn, <- Hhalf. ring. }
  destruct Hv as [Hv|(-> & q & Hq & Heq)].
  - left. apply choice_rounds; [done|lia|lia|done|]. fold V. rewrite Hv. pose proof (pow10_pos e1) as Hp1e.
    assert (IZR (D * dv) * (pow10 e1 * sc) = IZR D * pow10 e1 * sc * IZR dv)%R as HA by (rewrite mult_IZR; ring).
    assert (IZR (hn * 10 ^ (L - 1)) * (pow10 e1 * sc) = (V + pow2 (e - 1)) * IZR dv)%R as HB.
    { rewrite <- (Hscale L), mult_IZR, <- pow10_IZR by (unfold L; destruct Hl as (? & ? & -> & _); cbn [length]; lia). replace (L - 1 + e1 + (L - L)) with (L - 1 + e1) by lia. rewrite tenpow_add. ring. }
    unfold order. fold D L. assert (0 < pow10 e1 * sc)%R as Hps by nra. destruct (Z.compare_spec (D * dv) (hn * 10 ^ (L - 1))) as [Hc|Hc|Hc].
    + apply Rmult_eq_reg_r with (IZR dv); [|lra]. by rewrite <- HA, <- HB, Hc.
    + apply Rmult_lt_reg_r with (IZR dv); [done|]. rewrite <- HA, <- HB. apply Rmult_lt_compat_r; [done|by apply IZR_lt].
    + apply Rmult_lt_reg_r with (IZR dv); [done|]. rewrite <- HA, <- HB. apply Rmult_lt_compat_r; [done|by apply IZR_lt].
  - right. exists q. split; [done|]. split.
    + apply Rmult_eq_reg_r with (IZR dv); [|lra]. rewrite <- (Hscale L). apply (f_equal IZR) in Heq. rewrite !(mult_IZR _ dv), mult_IZR, <- pow10_IZR in Heq by (unfold L; lia).
      replace (L - 1 + e1 + (L - L)) with (L + (e1 - 1)) by lia. rewrite tenpow_add, <- Rmult_assoc, Heq. ring.
    + apply (choice_rounds m e Hm He _ _ 0); [lia|fold V; lra|done].
Qed.
End bigcomp.
(** ** The correction of a numeral that was cut *)
Lemma adjust_cont {E} (m : positive) e q scale dsign cut v :
  normal_m m → -965 ≤ e ≤ 970 → adjust (E:=E) (dbl m e) q scale dsign cut false = Done v → ∃ rv, v = Cont rv.
Proof.
  intros Hm He. rewrite adjust_eq by done. destruct (adjustment _ _ _) as [a a1]. unfold move. cbn [andb]. intros [= <-]. by eexists.
Qed.

Section cut_round.
Context {E : Type} (x r : R) (Hx : (pow2 (-912) <= x < pow2 1022)%R) (Hxr : (x < r <= x * (1 + / 50000000000000000))%R).

(** The correction ends with the numeral rounded, or below it, near enough for the
    comparison of the digits. *)
Definition cut_done (v : verdict) : Prop :=
  done_with r v ∨ ∃ m e sg, v = Break (dbl m e) sg true ∧ sg ≠ 0 ∧ normal_m m ∧ (val (dbl m e) < x <= val (dbl m e) + pow2 (e - 1))%R.
Definition cut_decided (m : positive) (e : Z) (v : verdict) : Prop :=
  (cut_done v ∨ goes_on near x v) ∧ (near m e x → cut_done v ∨ goes_on last x v) ∧ (last m e x → cut_done v).

Lemma cut_rounds (m : positive) e :
  normal_m m → -965 ≤ e ≤ 970 → (x <= val (dbl m e))%R → (val (dbl m e) - x <= pow2 (e - 1))%R → (Z.pos m = 2 ^ 52 → (val (dbl m e) - x <= pow2 (e - 2))%R) →
  rounds (dbl m e) r.
Proof.
  intros Hm He Hle Hd Hp. pose proof (dbl_range m e Hm) as [_ Hhi]. pose proof (pow2_pos (e - 1)). pose proof (pow2_pos e).
  assert (x * / 50000000000000000 < pow2 (e - 1))%R as Htiny.
  { apply Rle_lt_trans with (pow2 (e + 53) * / 50000000000000000)%R; [apply Rmult_le_compat_r; lra|]. replace (e + 53) with (e - 1 + 54) by lia. rewrite pow2_add, (pow2_IZR 54) by lia. change (2 ^ 54) with 18014398509481984. lra. }
  apply last_rounds; [done|lia|]. split; [apply Rabs_def1; lra|]. intros Hm52 Hlt. specialize (Hp Hm52). rewrite Rabs_pos_eq; lra.
Qed.

Lemma decide_cut (m : positive) e scale :
  normal_m m → far m e x → -965 ≤ e ≤ 970 → decides (E:=E) m e x scale true false (cut_decided m e).
Proof.
  intros Hm Hfar He p delta bs D B Hp Hd HD Hb HB Heq Hside. pose proof (big_pos _ _ Hb) as HB0. pose proof (IZR_lt _ _ HB0) as HBr. pose proof (pow2_pos (e - 1)) as Hp1.
  unfold decide_. cbv zeta. set (dsign := sign delta) in *. pose proof (rest_set_sign delta D 0 Hd) as Hd'. set (delta' := set_sign 0 delta) in *.
  pose proof (DtoaBig.rest_block delta' D HD Hd') as Hblk. destruct (rest_cmp (E:=E) delta' D bs B HD Hd' Hb) as (c & Hc & Hclt & Hceq).
  apply run_lift. rewrite Hc. apply returns_done. cbn [andb].
  assert (∀ b v, block_ok b → cut_done v → run (E:=E) (ret (v, b)) p 0 (λ v _, cut_decided m e v.1 ∧ block_ok v.2)) as Hend.
  { intros b v Hbb Hv. apply run_ret; [done|]. split; [|done]. split; [by left|]. split; [by left|done]. }
  destruct (Z.leb_spec c 0) as [Hc0|Hc0]; cbn [andb].
  - assert (Rabs (val (dbl m e) - x) <= pow2 (e - 1))%R as Hle by (assert (IZR D <= IZR B)%R by (apply IZR_le; lia); apply Rmult_le_reg_r with (IZR B); nra).
    destruct (Z.eqb_spec dsign 0) as [Hd0|Hd0]; cbn [negb orb].
    2: { apply Hend; [done|]. right. exists m, e, dsign. rewrite Rabs_left in Hle by lra. do 3 (split; [done|]). lra. }
    change (-1 <? 0) with true. cbv iota. rewrite Rabs_pos_eq in Hle, Heq by lra. rewrite power_of_2_dbl, exp_mask_dbl by (done || lia). unfold Dtoa.P.
    rewrite (proj2 (Z.leb_gt ((e + 1075) * Exp_msk1) _)) by (unfold Exp_msk1; lia). rewrite orb_false_r.
    destruct (Z.eqb_spec (Z.pos m) (2 ^ 52)) as [Hm52|Hm52]; cbn [negb].
    2: { apply Hend; [done|]. left. eexists _, _. split; [done|]. by apply cut_rounds. }
    apply run_lift. rewrite (DtoaBig.no_words_spec delta' D) by done. apply returns_done. pose proof (pow2_pos (e - 2)) as Hp2. pose proof (quarter e) as Hq.
    destruct (Z.eqb_spec D 0) as [->|HD0].
    { apply Hend; [done|]. left. eexists _, _. split; [done|]. apply cut_rounds; [done..|]. intros _. nra. }
    destruct Hd' as [Hbig _]. specialize (Hbig ltac:(lia)).
    eapply (run_bind _ _ _ 0); [apply (lshift_spec p delta' D Log2P); [done|done|by vm_compute|change (2 ^ Log2P) with 2; lia]|].
    change (2 ^ Log2P) with 2. intros delta2 p2 Hp2' [Hbig2 _]. destruct (cmp_spec (E:=E) delta2 bs _ _ Hbig2 Hb) as (c2 & Hc2 & Hc2lt & Hc2eq).
    apply run_lift. rewrite Hc2. apply returns_done. assert (block_ok delta2) as Hblk2 by (destruct Hbig2 as (? & [? _] & _); done). apply run_ret; [done|]. split; [|done]. cbn [fst].
    assert (IZR (D * 2) * pow2 (e - 2) = (val (dbl m e) - x) * IZR B)%R as Heq2 by (rewrite mult_IZR, Rmult_assoc, <- Hq; exact Heq).
    destruct (Z.ltb_spec 0 c2).
    + assert (IZR B < IZR (D * 2))%R by (apply IZR_lt; lia). assert (pow2 (e - 2) < val (dbl m e) - x)%R as Hgt by (apply Rmult_lt_reg_r with (IZR B); nra).
      rewrite (drop_down_dbl m e Hm He scale dsign true Hm52). assert (goes_on last x (Cont (dbl pmax (e - 1)))) as Hgo.
      { exists pmax, (e - 1). do 2 (split; [done|]). split; [lia|].
        assert (val (dbl m e) = pow2 (e + 52)) as Hv by (rewrite dbl_val, Hm52, Z.add_comm, pow2_add, (pow2_IZR 52) by lia; done).
        pose proof (pmax_val e) as Hpm. rewrite <- Hv in Hpm. split; [|done]. rewrite Hpm. replace (e - 1 - 1) with (e - 2) by lia. apply Rabs_def1; lra. }
      split; [right; destruct Hgo as (m1 & e1 & ? & ? & ? & ?); exists m1, e1; eauto using last_near|]. split; [by right|].
      intros [_ Hl2]. specialize (Hl2 Hm52 ltac:(lra)). rewrite Rabs_pos_eq in Hl2 by lra. lra.
    + assert (IZR (D * 2) <= IZR B)%R by (apply IZR_le; lia). assert (val (dbl m e) - x <= pow2 (e - 2))%R as Hle2 by (apply Rmult_le_reg_r with (IZR B); nra).
      assert (cut_done (Break (dbl m e) dsign false)) as Hcd by (left; eexists _, _; split; [done|]; by apply cut_rounds). split; [by left|]. split; [by left|done].
  - rewrite (proj2 (Z.ltb_ge c 0)), (proj2 (Z.eqb_neq c 0)) by lia.
    destruct (far_ratio (E:=E) m e x Hm He Hx Hfar delta' bs D B Hd' Hb ltac:(lia) Heq) as (q & Hq & Gq & Wq & Hgt). apply run_lift. rewrite Hq. apply returns_done.
    destruct (adjust_spec (E:=E) m e x Hm He Hx Hfar q scale dsign false Gq Wq Hgt Hside) as (v & Hv & Hv1 & Hv2). rewrite adjust_eq in Hv by done.
    rewrite <- (adjust_eq m e Hm He q scale dsign true false) in Hv. destruct (adjust_cont m e q scale dsign true v Hm He Hv) as [rv ->].
    apply run_lift. rewrite Hv. apply returns_done. apply run_ret; [done|]. split; [|done]. cbn [fst].
    assert (¬ done_with x (Cont rv)) as Hnd by (intros (? & ? & ? & _); done). split; [right; tauto|]. split; [intros Hn; right; tauto|]. intros [Hl2 _]. lra.
Qed.

Lemma cut_loop_spec fuel p bd0 N ed scale (m : positive) e :
  big bd0 N → N ≤ 2 ^ 140 → -400 ≤ ed ≤ 400 → scale = 0 ∨ scale = 106 → x = (IZR N * pow10 ed * pow2 scale)%R →
  pool_ok p → normal_m m → far m e x →
  run (correct_loop (E:=E) (S (S (S fuel))) (dbl m e) bd0 ed scale true false) p (-1) (λ v _, cut_done v).
Proof.
  intros Hbd HN Hed Hs Hrv. apply (three_rounds x bd0 N ed scale true false cut_done Hx Hbd HN Hed Hs Hrv) with cut_decided.
  - intros v [(rv & sg & -> & _)|(? & ? & ? & -> & _)]; eauto.
  - intros m1 e1 Hm1 Hf1 He1. by apply decide_cut.
  - intros m1 e1 v Hv. exact Hv.
Qed.
End cut_round.
End StrtodLong.
