(* ===== verification/StrtodProps.v ===== *)
(** * dtoa.c: [fpconv_strtod] is right

    The short way, the first approximation and its correction together: the result is the
    numeral rounded once to nearest even, what the conversion of the C library gives. A
    numeral of more than 40 digits is cut and its digits are compared; the one error of
    that comparison is [short_of_tie]. *)
From Stdlib Require Import Reals Lra.
From S2P Require Import Prelude Libc Double DoubleSpec Bigint BigintSpec BigintOps Dtoa FloatSpec FloatOps FloatRound DtoaWords DtoaEstimate DtoaDigits DtoaBig DtoaScale Gethex Strtod StrtodScan StrtodShort StrtodWords StrtodRound StrtodStart StrtodLong DtoaProps Gfmt GfmtSpec GfmtProps.

Module StrtodProps.
Import Double DoubleSpec Bigint BigintOps Dtoa FloatSpec FloatOps FloatRound DtoaWords DtoaEstimate DtoaDigits DtoaSmall DtoaScale Gethex Strtod StrtodScan StrtodShort StrtodWords StrtodRound StrtodStart StrtodLong Gfmt GfmtSpec GfmtProps.

(** A scaled result is unscaled exactly. *)
Lemma unscale_ok rv scale r :
  scale = 0 ∨ scale = 106 → (pow2 (-912) <= r * pow2 scale < pow2 1022)%R → rounds rv (r * pow2 scale) → rounds (unscale rv scale) r.
Proof.
  intros Hs Hr Hrv. unfold unscale. destruct Hs as [->| ->].
  { change (pow2 0) with 1%R in Hrv. rewrite Rmult_1_r in Hrv. done. }
  pose proof (pow2_le (-1000) (-912) ltac:(lia)). pose proof (pow2_lt 1022 1023 ltac:(lia)).
  destruct (rounds_dbl rv _ Hrv ltac:(lra)) as (m & e & -> & Hm & He & Herr & Htie & Hp). change (106 =? 0) with false. cbv iota.
  assert (of_words (Exp_1 - 2 * P * Exp_msk1) 0 = dbl p52 (-158)) as -> by (vm_compute; reflexivity). set (s := (r * pow2 106)%R) in *.
  pose proof (dbl_range m e Hm) as [Hlo Hhi]. apply Rabs_le_inv in Herr as Herr'. pose proof (half e) as Hh. pose proof (pow2_pos (e - 1)) as Hpe.
  assert (-967 ≤ e) as He2.
  { destruct (decide (-967 ≤ e)) as [|Hlt]; [done|]. pose proof (pow2_le (e + 53) (-912) ltac:(lia)). pose proof (pow2_lt (e - 1) e ltac:(lia)). lra. }
  assert (∀ x, pow2 (x - 106) = pow2 x * pow2 (- (106)))%R as Hsc by (intros x; unfold Z.sub; by rewrite pow2_add). pose proof (pow2_pos (- (106))) as Hp106. pose proof (pow2_neg 106) as Hn.
  assert (r = s * pow2 (- (106)))%R as Hrs by (unfold s; rewrite Rmult_assoc, Hn; ring).
  assert (val (dbl m (e - 106)) = val (dbl m e) * pow2 (- (106)))%R as Hv by (rewrite !dbl_val, Hsc; ring).
  assert (Rabs (val (dbl m (e - 106)) - r) = Rabs (val (dbl m e) - s) * pow2 (- (106)))%R as Hd.
  { rewrite Hv, Hrs, <- Rmult_minus_distr_r, Rabs_mult, (Rabs_pos_eq (pow2 _)); lra. }
  assert (rounds (dbl m (e - 106)) r) as Hres.
  { apply nearest_rounds; [done|lia|rewrite Hd; replace (e - 106 - 1) with (e - 1 - 106) by lia; rewrite Hsc; apply Rmult_le_compat_r; lra| |].
    - rewrite Hd. replace (e - 106 - 1) with (e - 1 - 106) by lia. rewrite Hsc. intros Heq. apply Htie. apply Rmult_eq_reg_r in Heq; lra.
    - intros Hm52 Hlt. rewrite Hd. replace (e - 106 - 2) with (e - 2 - 106) by lia. rewrite Hsc. apply Rmult_le_compat_r; [lra|]. apply Hp; [done|]. rewrite Hv, Hrs in Hlt. apply Rmult_lt_reg_r in Hlt; lra. }
  assert (fmul (dbl m e) (dbl p52 (-158)) = dbl m (e - 106)) as ->; [|done].
  pose proof (dbl_good m e Hm ltac:(lia)) as Gv. pose proof (dbl_good m (e - 106) Hm ltac:(lia)) as Gv2. 
  assert (val (dbl m e) * val (dbl p52 (-158)) = val (dbl m (e - 106)))%R as Hprod by (rewrite Hv, p52_val; done).
  apply (rounds_equal _ _ (val (dbl m (e - 106)))); [|by apply rounds_self|].
  - rewrite <- Hprod. apply fmul_ok; [done|apply dbl_good; [done|lia]|]. rewrite Hprod. rewrite Hv, Rabs_pos_eq by (pose proof (pow2_pos (e + 52)); nra).
    pose proof (pow2_le (e + 53 - 106) 1022 ltac:(lia)) as Hle. rewrite Hsc in Hle. pose proof (pow2_pos e). nra.
  - rewrite Hv. pose proof (pow2_le (-1074) (e + 52 - 106) ltac:(lia)) as Hle. rewrite Hsc in Hle. nra.
Qed.
Section props.
Context {E : Type}.

Lemma short_way_none v nd e : 15 < nd ∨ e < -22 ∨ 37 - nd < e → short_way (E:=E) v nd e = Done None.
Proof.
  intros Hc. unfold short_way, DBL_DIG, Ten_pmax. destruct (Z.ltb_spec 15 nd); [done|]. destruct (Z.eqb_spec e 0); [lia|].
  destruct (Z.ltb_spec 0 e); [|destruct (Z.leb_spec (- (22)) e); [lia|done]].
  rewrite (proj2 (Z.leb_gt e 22)), (proj2 (Z.leb_gt e (22 + (15 - nd)))) by lia. done.
Qed.

(** The exponent of a numeral in range. *)
Lemma exponent_range d e : 1 ≤ d < 10 ^ 40 → (pow2 (-1018) <= IZR d * pow10 e < pow2 1022)%R → -400 ≤ e ≤ 400.
Proof.
  intros Hd Hr. pose proof (pow10_pos e) as Hp. assert (1 <= IZR d <= pow10 40)%R as Hdr by (rewrite pow10_IZR by lia; split; apply IZR_le; lia). split.
  - destruct (decide (-400 ≤ e)) as [|Hlt]; [done|]. exfalso. pose proof (pow10_le e (-400) ltac:(lia)) as Hle. pose proof (pow10_pos 40).
    assert (IZR d * pow10 e <= pow10 40 * pow10 (-400))%R as Hm by (apply Rmult_le_compat; lra). rewrite <- tenpow_add in Hm. change (40 + -400) with (- (360)) in Hm.
    assert (pow10 (- (360)) < pow2 (- (1018)))%R; [|change (- (1018)) with (-1018) in *; lra]. rewrite <- pow10_inv, <- pow2_inv, pow10_IZR, pow2_IZR by lia.
    apply Rinv_lt_contravar; [rewrite <- mult_IZR; apply IZR_lt; vm_compute; reflexivity|apply IZR_lt; vm_compute; reflexivity].
  - destruct (decide (e ≤ 400)) as [|Hlt]; [done|]. exfalso. pose proof (pow10_le 308 e ltac:(lia)). pose proof pow10_limit. nra.
Qed.

Lemma to_convert_length s t dd e1 N e : to_convert s t dd e1 N e → N < 10 ^ 40 → len dd ≤ 40.
Proof.
  intros (n & _ & Hd & Hl & _ & _ & _ & -> & _) HN. pose proof (dec_value_leading dd Hd Hl). pose proof (leading_value_pos dd Hd Hl). pose proof (Z.pow_pos_nonneg 10 (Z.of_nat n) ltac:(lia) ltac:(lia)).
  destruct (decide (len dd ≤ 40)) as [|Hgt]; [done|]. pose proof (Z.pow_le_mono_r 10 40 (len dd - 1) ltac:(lia) ltac:(lia)). nia.
Qed.

(** The value of the digits. *)
Lemma digits_value_spec p s t dd e1 N e :
  to_convert s t dd e1 N e → len dd ≤ 40 → pool_ok p → (pow2 (-1018) <= IZR N * pow10 e < pow2 1022)%R →
  run (digits_value (E:=E) (drop (Z.to_nat (t_s0 t)) s) t e1) p 0 (λ v _, rounds v (IZR N * pow10 e)).
Proof.
  intros (n & (Hnd & Hy & Hz & _) & Hd & Hl & Hz1%zeros_end_nonneg & [Hn0 _] & Hat & -> & ->) Hl40 Hp.
  assert (IZR (dec_value dd * 10 ^ Z.of_nat n) * pow10 e = IZR (dec_value dd) * pow10 (e + Z.of_nat n))%R as -> by (rewrite mult_IZR, <- pow10_IZR, Rmult_assoc, <- tenpow_add by lia; do 2 f_equal; lia).
  intros Hr. set (e1 := e + Z.of_nat n) in *. pose proof (leading_value_pos dd Hd Hl) as Hpos. pose proof (Z.pow_pos_nonneg 10 (Z.of_nat n) ltac:(lia) ltac:(lia)) as Hpn.
  assert (dec_value dd < 10 ^ 40) as HN2 by (pose proof (dec_value_range dd Hd); pose proof (Z.pow_le_mono_r 10 (len dd) 40 ltac:(lia) ltac:(lia)); lia). pose proof (exponent_range (dec_value dd) e1 ltac:(lia) Hr) as He1.
  assert (1 ≤ len dd) as Hl1 by (destruct Hl as (? & ? & -> & _); cbn [length]; lia).
  unfold digits_value. rewrite Hnd, Hy, Hz. cbv zeta. destruct (leading_value_spec (E:=E) dd Hd Hl) as (v & Hv & Av & Iv & _).
  apply run_lift. rewrite Hv. apply returns_done. apply run_lift. destruct (decide (15 < len dd ∨ e1 < -22 ∨ 37 - len dd < e1)) as [Hlong|Hshort].
  2: { destruct (short_way_ok (E:=E) v (dec_value dd) (len dd) e1) as (v' & -> & Hv'); [apply Iv; lia|lia| |lia|by apply returns_done, run_ret].
       split; [by apply dec_value_leading|by apply dec_value_range]. }
  rewrite short_way_none by done. apply returns_done. destruct (first_approximation_spec (E:=E) dd v e1 Hd Hl Av Hr) as (m & ee & scale & Hfirst & Hm & Hs & Hrs & Hfar).
  change (DBL_DIG + 1) with 16. apply run_lift. rewrite Hfirst. apply returns_done. unfold cut_digits, strtod_diglim. rewrite (proj2 (Z.leb_le (len dd) 40)) by done.
  apply run_lift, returns_done. rewrite Hnd in Hn0, Hat. set (nd0 := if t_nd0 t =? 0 then len dd else t_nd0 t) in *.
  eapply (run_bind _ _ _ 1); [apply (s2b_spec p _ dd nd0 (t_dplen t)); try done; unfold nd0; destruct (t_nd0 t =? 0); lia|]. intros bd0 p1 Hp1 [Hbd0 _].
  rewrite (proj2 (Z.ltb_ge (len dd) (len dd - t_nz1 t))) by lia.
  eapply (run_bind _ _ _ (-1)); [apply (correct_loop_spec _ _ _ bd0 (dec_value dd) e1 scale _ m ee Hrs Hbd0); try done|].
  { assert (10 ^ 40 ≤ 2 ^ 140) by (vm_compute; discriminate). lia. }
  intros w p2 Hp2 (rv & sg & -> & Hrv). cbn [finish]. unfold finish. apply run_ret; [done|]. by apply unscale_ok.
Qed.
(** Of a numeral that was cut the kept digits are nearly everything. *)
Lemma kept_digits dd e1 :
  digits_ok dd → leading dd → 40 < len dd →
  let K := dec_value (take 18 dd) in let x := (IZR K * pow10 (e1 + (len dd - 18)))%R in let r := (IZR (dec_value dd) * pow10 e1)%R in
  10 ^ 17 ≤ K < 10 ^ 18 ∧ (pow10 (len dd - 1 + e1) <= x <= r)%R ∧ (r <= x * (1 + / 100000000000000000))%R ∧
  (0 < dec_value (drop 18 dd) → (x < r)%R) ∧ (dec_value (drop 18 dd) = 0 → x = r).
Proof.
  intros Hd Hl H40. cbv zeta. pose proof (dec_value_take dd 18 Hd) as HK. change (Z.of_nat 18) with 18 in HK.
  assert (10 ^ 17 ≤ dec_value (take 18 dd)) as HK1.
  { pose proof (dec_value_leading (take 18 dd) ltac:(by apply Forall_take)) as H. rewrite length_take in H. replace (Z.of_nat (18 `min` length dd) - 1) with 17 in H by lia.
    apply H. destruct Hl as (d & r & -> & ?). by exists d, (take 17 r). }
  assert (dec_value dd = dec_value (take 18 dd) * 10 ^ (len dd - 18) + dec_value (drop 18 dd)) as HD.
  { rewrite <- (take_drop 18 dd) at 1. rewrite dec_value_app, length_drop. do 3 f_equal. lia. }
  pose proof (dec_value_range (drop 18 dd) ltac:(by apply Forall_drop)) as HR. rewrite length_drop in HR. replace (Z.of_nat (length dd - 18)) with (len dd - 18) in HR by lia.
  set (K := dec_value (take 18 dd)) in *. set (R := dec_value (drop 18 dd)) in *. set (k := len dd - 18) in *. pose proof (pow10_pos e1) as Hp1. pose proof (pow10_pos (e1 + k)) as Hpk.
  assert (IZR K * pow10 (e1 + k) = IZR (K * 10 ^ k) * pow10 e1)%R as HX by (rewrite mult_IZR, <- pow10_IZR, Rmult_assoc, <- tenpow_add by (unfold k; lia); do 2 f_equal; lia).
  assert (IZR (dec_value dd) * pow10 e1 = IZR K * pow10 (e1 + k) + IZR R * pow10 e1)%R as Hsum by (rewrite HX, HD, plus_IZR; ring).
  rewrite Hsum. destruct HR as [HR1 HR2]. pose proof (IZR_le _ _ HR1) as HR1r. pose proof (IZR_lt _ _ HR2) as HR2r. pose proof (IZR_le _ _ HK1) as HK1r. change (10 ^ 17) with 100000000000000000 in HK1r.
  rewrite <- (pow10_IZR k) in HR2r by (unfold k; lia). assert (IZR R * pow10 e1 <= pow10 (e1 + k))%R as HRk by (rewrite (Z.add_comm e1), tenpow_add; apply Rmult_le_compat_r; lra).
  split; [lia|]. split; [split|split; [|split]].
  - assert (pow10 (len dd - 1 + e1) = 100000000000000000 * pow10 (e1 + k))%R as ->; [|apply Rmult_le_compat_r; lra].
    change 100000000000000000 with (10 ^ 17). rewrite <- (pow10_IZR 17), <- tenpow_add by lia. f_equal. unfold k. lia.
  - nra.
  - nra.
  - intros H%IZR_lt. nra.
  - intros ->. ring.
Qed.

(** What is done with the result of the comparison. *)
Lemma unscaled rv scale h :
  scale = 0 ∨ scale = 106 → (pow2 (-912) <= h * pow2 scale < pow2 1022)%R → rounds rv (h * pow2 scale) →
  rounds (if Z.land (word0 rv) Exp_mask =? Exp_mask then S754_infinity false else if is_zero rv then S754_zero false else unscale rv scale) h.
Proof.
  intros Hs Hr Hrv. pose proof (pow2_le (-1000) (-912) ltac:(lia)). pose proof (pow2_lt 1022 1023 ltac:(lia)).
  destruct (rounds_dbl rv _ Hrv ltac:(lra)) as (m & e & Heq & Hm & He & Herr & _).
  assert (e ≤ 970) as He2.
  { destruct (decide (e ≤ 970)) as [|Hgt]; [done|]. exfalso. assert (e = 971) as -> by lia. pose proof (dbl_range m 971 Hm) as [Hlo _]. change (971 + 52) with 1023 in Hlo. change (971 - 1) with 970 in Herr.
    pose proof (pow2_S 1022) as H2. change (1022 + 1) with 1023 in H2. pose proof (pow2_lt 970 1022 ltac:(lia)). apply Rabs_le_inv in Herr. lra. }
  assert (is_zero rv = false) as -> by (by rewrite Heq). assert (Z.land (word0 rv) Exp_mask = (e + 1075) * Exp_msk1) as -> by (rewrite Heq; apply exp_mask_dbl; (done || lia)). rewrite (proj2 (Z.eqb_neq _ Exp_mask)) by (change Exp_mask with (2047 * 2 ^ 20); change Exp_msk1 with (2 ^ 20); lia).
  by apply unscale_ok.
Qed.

(** The numeral of 41 digits or more and one digit behind are halfway between two doubles,
    and [u] is one of them. *)
Definition taken_for_tie (N e : Z) (u : double) : Prop :=
  ∃ D k d m j, (IZR D * pow10 k = IZR N * pow10 e)%R ∧ 10 ^ 40 ≤ D ∧ 1 ≤ d ≤ 9 ∧ 2 ^ 52 ≤ m < 2 ^ 53 ∧
    (IZR (10 * D + d) * pow10 (k - 1) = IZR (2 * m + 1) * pow2 j)%R ∧ rounds u (IZR (2 * m + 1) * pow2 j).

(** The end of the correction, when the digits were cut. *)
Lemma finish_cut p v s t dd nd0 e1 scale (r := (IZR (dec_value dd) * pow10 e1)%R) (x := (IZR (dec_value (take 18 dd)) * pow10 (e1 + (len dd - 18)))%R) :
  pool_ok p → digits_ok dd → leading dd → 40 < len dd → zeros_end dd (t_nz1 t) → t_nd t = len dd → digits_at s dd nd0 (t_dplen t) → 0 < nd0 ≤ len dd →
  nd0 = len dd ∨ t_nz1 t = 0 ∧ t_dp1 t = nd0 + t_dplen t → scale = 0 ∨ scale = 106 →
  (pow2 (-912) <= x * pow2 scale)%R → (r * pow2 scale < pow2 1022)%R → (x < r)%R → -420 ≤ len dd - 1 + e1 ≤ 420 →
  cut_done (x * pow2 scale) (r * pow2 scale) v →
  run (E:=E) (match v with Break rv dsign req => finish rv scale dsign req s t nd0 e1 | Underflow => ret (S754_zero false) | _ => ret (S754_infinity false) end) p 0
    (λ u _, rounds u r ∨ taken_for_tie (dec_value dd) e1 u).
Proof.
  intros Hp Hd Hl H40 Hze Hnd Hat Hn0 Hpl Hs Hx Hr Hxr Hp5 Hv. destruct (kept_digits dd e1 Hd Hl H40) as (_ & [Hlow _] & Hrel & _). fold x r in Hlow, Hrel.
  pose proof (pow2_pos scale) as Hsc. set (sc := pow2 scale) in *. assert (x * sc < r * sc)%R as Hxrs by (by apply Rmult_lt_compat_r).
  assert (r * sc <= x * sc * (1 + / 100000000000000000))%R as Hrels by (rewrite Rmult_assoc, (Rmult_comm sc), <- Rmult_assoc; apply Rmult_le_compat_r; lra).
  destruct Hv as [(rv & sg & -> & Hrv)|(m & e & sg & -> & Hsg & Hm & HV)]; unfold finish.
  - apply run_ret; [done|]. left. apply unscale_ok; [done|fold sc; lra|done].
  - rewrite Hnd. pose proof (dbl_range m e Hm) as [Hlo Hhi]. pose proof (pow2_pos (e - 1)) as Hpe. pose proof (half e) as Hhe. pose proof (pow2_pos e).
    assert (-964 ≤ e ≤ 969) as He.
    { split.
      - destruct (decide (-964 ≤ e)) as [|Hlt]; [done|]. exfalso. pose proof (pow2_le (e + 53) (-912) ltac:(lia)). lra.
      - destruct (decide (e ≤ 969)) as [|Hgt]; [done|]. exfalso. pose proof (pow2_le 1022 (e + 52) ltac:(lia)). lra. }
    assert (r * sc - x * sc < pow2 (e - 1))%R as Htiny.
    { apply Rle_lt_trans with (pow2 (e + 53) * / 100000000000000000)%R; [apply Rle_trans with (x * sc * / 100000000000000000)%R; [lra|apply Rmult_le_compat_r; lra]|].
      replace (e + 53) with (e - 1 + 54) by lia. rewrite pow2_add, (pow2_IZR 54) by lia. change (2 ^ 54) with 18014398509481984. lra. }
    set (bc := mkBCinfo (t_dp1 t) nd0 (len dd - t_nz1 t) (e1 + t_nz1 t) scale sg).
    eapply (run_bind _ _ _ 0); [apply (bigcomp_spec p m e s dd bc (t_nz1 t) e1 (t_dplen t)); try done; cbn [bc_scale bc]; fold sc r; [lra|]|].
    { apply Rle_trans with (x * sc)%R; [apply Rmult_le_compat_r; lra|lra]. }
    cbn [bc_scale bc]. fold sc r. intros u p1 Hp1 Hu. eapply run_conv; [apply run_ret; [done|]|lia].
    destruct Hu as [Hu|(d & Hdr & Hh & Hu)]; [left; apply unscaled; [done|fold sc; lra|done]|right].
    assert (val (dbl m e) + pow2 (e - 1) < pow2 1022)%R as Hmax.
    { pose proof (pow2_le (e + 53) 1022 ltac:(lia)). lra. }
    assert (IZR (10 * dec_value dd + d) * pow10 (e1 - 1) = IZR (2 * Z.pos m + 1) * pow2 (e - 1 - scale))%R as Heq.
    { apply Rmult_eq_reg_r with sc; [|lra]. rewrite Hh. unfold sc. rewrite Rmult_assoc, <- pow2_add, dbl_val, plus_IZR, mult_IZR, Hhe. replace (e - 1 - scale + scale) with (e - 1) by lia. ring. }
    exists (dec_value dd), e1, d, (Z.pos m), (e - 1 - scale). split; [done|]. split; [pose proof (dec_value_leading dd Hd Hl); pose proof (Z.pow_le_mono_r 10 40 (len dd - 1) ltac:(lia) ltac:(lia)); lia|].
    split; [done|]. split; [exact Hm|]. split; [done|]. rewrite <- Heq. apply unscaled; [done|fold sc; rewrite Hh; lra|]. fold sc. by rewrite Hh.
Qed.

(** The value of more than 40 digits. *)
Lemma digits_value_long p s t dd e1 N e :
  to_convert s t dd e1 N e → 40 < len dd → pool_ok p → (pow2 (-1017) <= IZR N * pow10 e < pow2 1022)%R →
  run (digits_value (E:=E) (drop (Z.to_nat (t_s0 t)) s) t e1) p 0 (λ v _, rounds v (IZR N * pow10 e) ∨ taken_for_tie N e v).
Proof.
  intros (n & (Hnd & Hy & Hz & _) & Hd & Hl & Hze & [Hn0 (Hdpl & Hnz1 & Hpl)] & Hat & HNv & He1) H40 Hp.
  assert (IZR N * pow10 e = IZR (dec_value dd) * pow10 e1)%R as Hval by (rewrite HNv, He1, mult_IZR, <- pow10_IZR, Rmult_assoc, <- tenpow_add by lia; do 2 f_equal; lia).
  intros Hr. cut (run (digits_value (E:=E) (drop (Z.to_nat (t_s0 t)) s) t e1) p 0 (λ v _, rounds v (IZR (dec_value dd) * pow10 e1) ∨ taken_for_tie (dec_value dd) e1 v)).
  { intros H. eapply run_mono; [exact H|]. cbv beta. rewrite Hval. intros v p' [Hv|(D & k & HD)]; [by left|right]. exists D, k. by rewrite Hval. }
  rewrite Hval in Hr. clear HNv He1 Hval N e.
  destruct (kept_digits dd e1 Hd Hl H40) as (HK & [Hlow Hxr] & Hrel & Hlt & Heq). set (K := dec_value (take 18 dd)) in *. set (x := (IZR K * pow10 (e1 + (len dd - 18)))%R) in *. set (r := (IZR (dec_value dd) * pow10 e1)%R) in *.
  assert (pow2 (-1018) <= x < pow2 1022)%R as Hx.
  { pose proof (pow2_S (-1018)) as H1. change (-1018 + 1) with (-1017) in H1. pose proof (pow2_pos (-1018)). lra. }
  assert (10 ^ 18 ≤ 10 ^ 40) as H1840 by (vm_compute; discriminate). pose proof (exponent_range K (e1 + (len dd - 18)) ltac:(lia) Hx) as Hp5.
  assert (leading (take 18 dd)) as Hl18 by (destruct Hl as (d & w & -> & ?); by exists d, (take 17 w)). assert (digits_ok (take 18 dd)) as Hd18 by (by apply Forall_take).
  assert (len (take 18 dd) = 18) as Hlen18 by (rewrite length_take; lia).
  unfold digits_value. rewrite Hnd, Hy, Hz. cbv zeta. destruct (leading_value_spec (E:=E) dd Hd Hl) as (v & Hv & Av & _). apply run_lift. rewrite Hv. apply returns_done.
  apply run_lift. rewrite short_way_none by lia. apply returns_done. pose proof (pow2_lt (-1018) (-1017) ltac:(lia)) as H1718.
  destruct (first_approximation_spec (E:=E) dd v e1 Hd Hl Av ltac:(fold r; lra)) as (m1 & ee1 & scale & Hfirst & _ & Hs & Hrs & _). fold r in Hrs.
  assert (approx 2 v (IZR (dec_value (take 16 (take 18 dd))))) as Av18 by (by rewrite take_take).
  destruct (first_approximation_spec (E:=E) (take 18 dd) v (e1 + (len dd - 18)) Hd18 Hl18 Av18 Hx) as (m & ee & scale' & Hfirst' & Hm & _ & Hxs & Hfar). fold K x in Hxs, Hfar. rewrite Hlen18 in Hfirst'.
  replace (e1 + (len dd - 18) + (18 - Z.min 18 16)) with (e1 + (len dd - Z.min (len dd) 16)) in Hfirst' by lia. rewrite Hfirst in Hfirst'. injection Hfirst' as -> -> ->. rename scale' into scale.
  change (DBL_DIG + 1) with 16. apply run_lift. rewrite Hfirst. apply returns_done. rewrite Hnd in *. set (nd0 := if t_nd0 t =? 0 then len dd else t_nd0 t) in *.
  assert (0 < nd0 ≤ len dd) as Hnd0 by (unfold nd0; destruct (Z.eqb_spec (t_nd0 t) 0); lia).
  assert ((t_dp1 t ≤ 0 ∧ nd0 = len dd) ∨ (t_dp0 t = nd0 ∧ t_dp1 t = nd0 + t_dplen t)) as Hplace by (unfold nd0; destruct (Z.eqb_spec (t_nd0 t) 0); [by left|by right]).
  assert (nd0 = len dd ∨ t_nz1 t = 0 ∧ t_dp1 t = nd0 + t_dplen t) as Hplace2 by (unfold nd0; destruct (Z.eqb_spec (t_nd0 t) 0); [by left|destruct Hnz1 as [|]; [by left|right; tauto]]).
  destruct (cut_digits_spec (E:=E) _ dd nd0 (t_dp0 t) (t_dp1 t) (t_dplen t) Hat Hd Hl H40 Hdpl Hnd0 Hplace e1) as (c & nd0' & Hcut & Hc & Hnd0' & Hat' & Hst & Htake).
  apply run_lift. rewrite Hcut. apply returns_done. assert (len (take c dd) = Z.of_nat c) as Hlc by (rewrite length_take; lia).
  assert (leading (take c dd)) as Hlc2 by (destruct Hl as (d & w & -> & ?); destruct c as [|c]; [lia|]; by exists d, (take c w)).
  eapply (run_bind _ _ _ 1); [rewrite <- Hlc; apply (s2b_spec p _ (take c dd) nd0' (t_dplen t)); try done; try lia; by apply Forall_take|]. intros bd0 p1 Hp1 [Hbd0 _].
  assert (K = dec_value (take c dd) * 10 ^ (18 - Z.of_nat c)) as HKc by (unfold K; rewrite Htake, dec_value_zeros; do 2 f_equal; lia).
  assert (x = IZR (dec_value (take c dd)) * pow10 (e1 + (len dd - Z.of_nat c)))%R as Hxc.
  { unfold x. rewrite HKc, mult_IZR, <- pow10_IZR, Rmult_assoc, <- tenpow_add by lia. do 2 f_equal. lia. }
  pose proof (Z.pow_pos_nonneg 10 (18 - Z.of_nat c) ltac:(lia) ltac:(lia)). assert (dec_value (take c dd) ≤ 2 ^ 140) as H140 by (assert (10 ^ 18 ≤ 2 ^ 140) by (vm_compute; discriminate); nia).
  assert (-400 ≤ e1 + (len dd - Z.of_nat c) ≤ 400) as Hec.
  { apply (exponent_range (dec_value (take c dd))); [|by rewrite <- Hxc]. pose proof (leading_value_pos (take c dd) ltac:(by apply Forall_take) Hlc2). nia. }
  pose proof Hze as (core & z & Hdd & Hzn & Hcore). assert (len core = len dd - Z.of_nat z) as Hlcore by (rewrite Hdd, length_app, length_replicate; lia).
  assert (0 < dec_value (drop 18 dd) ↔ (18 < length core)%nat) as Htail by (rewrite Hdd; apply tail_value; [rewrite Hdd in Hd; by apply Forall_app in Hd as [? _]|done|rewrite <- Hdd; lia]).
  assert ((length core ≤ 18)%nat → c = length core) as Hshort.
  { intros Hcl. assert (take 18 dd = core ++ replicate (18 - length core) 48) as Ht2 by (rewrite Hdd, take_app_ge, take_replicate by lia; do 2 f_equal; rewrite Hdd, length_app, length_replicate in H40; lia).
    rewrite Ht2 in Htake. apply stripped_zeros in Htake; [|done|done]. rewrite Htake. lia. }
  rewrite Hzn, <- Hlcore. destruct (Z.ltb_spec (Z.of_nat c) (len core)) as [Hcut1|Hcut1].
  - rewrite (proj2 (Z.eqb_neq (len core) (Z.of_nat c))) by lia. assert (x < r)%R as Hxlt by (apply Hlt, Htail; destruct (decide (length core ≤ 18)%nat); [specialize (Hshort ltac:(done)); lia|lia]).
    pose proof (pow2_pos scale) as Hsc. eapply (run_bind _ _ _ (-1)).
    { apply (cut_loop_spec (x * pow2 scale) (r * pow2 scale)) with (N := dec_value (take c dd)); try done; [|by rewrite Hxc]. split; [by apply Rmult_lt_compat_r|].
      rewrite Rmult_assoc, (Rmult_comm (pow2 scale)), <- Rmult_assoc. apply Rmult_le_compat_r; lra. }
    intros w p2 Hp2 Hw. eapply run_conv; [apply (finish_cut p2 w _ t dd nd0 e1 scale); try done; fold K x r; (lra || lia)|lia].
  - assert (length core ≤ 18)%nat as Hle by lia. specialize (Hshort Hle). assert (x = r) as Hxr0.
    { apply Heq. pose proof (dec_value_range (drop 18 dd) ltac:(by apply Forall_drop)). destruct (decide (0 < dec_value (drop 18 dd))) as [Hgt|]; [apply Htail in Hgt; lia|lia]. }
    eapply (run_bind _ _ _ (-1)); [apply (correct_loop_spec _ _ (r * pow2 scale) bd0 (dec_value (take c dd))) with (m := m) (e := ee); try done; rewrite <- ?Hxr0; (done || by rewrite Hxc)|].
    intros w p2 Hp2 (rv & sg & -> & Hrv). unfold finish. apply run_ret; [done|]. left. by apply unscale_ok.
Qed.

(** The double that is read, and the end of the numeral. *)
Lemma strtod_read p sgn ds frac ex e rest :
  pool_ok p → numeral sgn ds frac ex e → ends rest →
  let N := dec_value (ds ++ drop 1 frac) in let e' := e - len (drop 1 frac) in
  N < 10 ^ 40 → N = 0 ∨ (pow2 (-1018) <= IZR N * pow10 e' < pow2 1022)%R →
  run (fpconv_strtod (E:=E) (sgn ++ ds ++ frac ++ ex ++ rest)) p 0 (λ r _, r = (of_decimal (bool_decide (sgn = [45])) N e', len (sgn ++ ds ++ frac ++ ex))).
Proof.
  cbv zeta. intros Hp Hn Hr HN Hrange. set (N := dec_value (ds ++ drop 1 frac)) in *. set (e' := e - len (drop 1 frac)) in *. set (neg := bool_decide (sgn = [45])).
  apply (numeral_step (E:=E) p _ sgn ds frac ex e rest _ Hn Hr eq_refl); fold N e' neg.
  - intros ->. split; [done|]. split; [cbn; lia|done].
  - intros t dd e1 Ht. assert (1 ≤ N) as HN1.
    { destruct Ht as (n & _ & Hd & Hl & _ & _ & _ & -> & _). pose proof (leading_value_pos dd Hd Hl). pose proof (Z.pow_pos_nonneg 10 (Z.of_nat n) ltac:(lia) ltac:(lia)). nia. }
    destruct Hrange as [|Hrange]; [lia|]. eapply wp_mono; [apply (digits_value_spec p _ t dd e1 N e' Ht (to_convert_length _ t dd e1 N e' Ht HN) Hp Hrange)|].
    intros v p' ws (Hp' & Hbal & Hv). split; [done|]. split; [done|]. f_equal. rewrite (of_decimal_sign neg) by lia.
    assert (v = of_decimal false N e') as ->; [|done]. apply (rounds_equal _ _ (IZR N * pow10 e')); [done|apply of_decimal_ok; [lia|done]|].
    pose proof (pow2_le (-1074) (-1018) ltac:(lia)). lra.
Qed.

(** C13: for a numeral of JSON whose digits are a number below [10 ^ 40], zero or between
    [2 ^ -1018] and [2 ^ 1022], [fpconv_strtod] of dtoa.c gives the double that the
    conversion of the C library gives, the numeral rounded once to nearest even, and ends
    at the same place. It does not fault, its loops end, and of the big integers only the
    cached powers of 5 are left allocated. *)
Theorem strtod_correct p sgn ds frac ex e rest :
  pool_ok p → numeral sgn ds frac ex e → ends rest →
  let N := dec_value (ds ++ drop 1 frac) in let e' := e - len (drop 1 frac) in
  N < 10 ^ 40 → N = 0 ∨ (pow2 (-1018) <= IZR N * pow10 e' < pow2 1022)%R →
  ∃ v, strtod 46 (sgn ++ ds ++ frac ++ ex ++ rest) = Some (v, rest) ∧
    run (fpconv_strtod (E:=E) (sgn ++ ds ++ frac ++ ex ++ rest)) p 0 (λ r _, r = (v, len (sgn ++ ds ++ frac ++ ex))).
Proof.
  cbv zeta. intros Hp Hn Hr HN Hrange. eexists. split; [by apply numeral_strtod|]. by apply strtod_read.
Qed.

(** C14: a numeral of JSON of any number of digits between [2 ^ -1017] and [2 ^ 1022] is read
    by [fpconv_strtod] of dtoa.c as by the conversion of the C library, rounded once to
    nearest even, with one exception: when it has more than 40 digits and one digit more
    would make it the number halfway between two doubles, one of the two is returned. The
    digits behind the 18th are never kept; they are compared with the quotients of two big
    integers. No fault, every loop ends, and only cached powers of 5 remain allocated. *)
Theorem strtod_long p sgn ds frac ex e rest :
  pool_ok p → numeral sgn ds frac ex e → ends rest →
  let N := dec_value (ds ++ drop 1 frac) in let e' := e - len (drop 1 frac) in
  (pow2 (-1017) <= IZR N * pow10 e' < pow2 1022)%R →
  ∃ v, strtod 46 (sgn ++ ds ++ frac ++ ex ++ rest) = Some (v, rest) ∧
    run (fpconv_strtod (E:=E) (sgn ++ ds ++ frac ++ ex ++ rest)) p 0 (λ r _, r.2 = len (sgn ++ ds ++ frac ++ ex) ∧
      (r.1 = v ∨ ∃ u, taken_for_tie N e' u ∧ r.1 = if bool_decide (sgn = [45]) then SFopp u else u)).
Proof.
  cbv zeta. intros Hp Hn Hr Hrange. eexists. split; [by apply numeral_strtod|]. set (N := dec_value (ds ++ drop 1 frac)) in *. set (e' := e - len (drop 1 frac)) in *. set (neg := bool_decide (sgn = [45])).
  pose proof (pow2_pos (-1017)) as Hp17. pose proof (pow10_pos e') as Hpe. assert (1 ≤ N) as HN1 by (apply (Zlt_le_succ 0), lt_IZR; nra).
  pose proof (pow2_lt (-1018) (-1017) ltac:(lia)). pose proof (pow2_lt (-1074) (-1017) ltac:(lia)).
  apply (numeral_step (E:=E) p _ sgn ds frac ex e rest _ Hn Hr eq_refl); fold N e' neg; [lia|].
  intros t dd e1 Ht. eapply wp_mono with (P := λ v p' ws, pool_ok p' ∧ balance ws + len (p5s p) = 0 + len (p5s p') ∧ (rounds v (IZR N * pow10 e') ∨ taken_for_tie N e' v)).
  - destruct (decide (len dd ≤ 40)) as [H40|H40]; [|apply (digits_value_long p _ t dd e1 N e' Ht); [lia|done|done]].
    eapply (run_mono (digits_value (E:=E) _ t e1) p 0); [apply (digits_value_spec p _ t dd e1 N e' Ht H40 Hp); lra|]. intros v p' Hv. by left.
  - intros v p' ws (Hp' & Hbal & Hv). split; [done|]. split; [done|]. split; [done|]. cbn [fst]. destruct Hv as [Hv|Hv]; [left|right; by exists v].
    rewrite (of_decimal_sign neg) by lia. assert (v = of_decimal false N e') as ->; [|by destruct neg]. apply (rounds_equal _ _ (IZR N * pow10 e')); [done|apply of_decimal_ok; [lia|lra]|lra].
Qed.
End props.

(** The last digit decides: a number halfway, and a unit in the 52nd place. *)
Lemma strtod_long_witness :
  ∃ v, strtod 46 (lit "-9007199254740993.000000000000000000000000000000000001" ++ [0]) = Some (v, [0]) ∧
    run (fpconv_strtod (E:=Empty_set) (lit "-9007199254740993.000000000000000000000000000000000001" ++ [0])) pool0 0 (λ r _, r.2 = 54 ∧
      (r.1 = v ∨ ∃ u, taken_for_tie (9007199254740993 * 10 ^ 36 + 1) (-36) u ∧ r.1 = SFopp u)).
Proof.
  destruct (strtod_long (E:=Empty_set) pool0 [45] (lit "9007199254740993") (lit ".000000000000000000000000000000000001") [] 0 [0]) as (v & H1 & H2); [apply pool0_ok| |done| |].
  - split; [by right|]. split; [apply (bool_decide_unpack _); by vm_compute|]. split; [right; exists 57, (lit "007199254740993"); split; [done|lia]|].
    split; [right; exists (lit "000000000000000000000000000000000001"); split; [done|]; split; [done|apply (bool_decide_unpack _); by vm_compute]|by left].
  - change (0 - len (drop 1 (lit ".000000000000000000000000000000000001"))) with (- (36)).
    change (dec_value (lit "9007199254740993" ++ drop 1 (lit ".000000000000000000000000000000000001"))) with (9007199254740993 * 10 ^ 36 + 1).
    rewrite <- pow10_inv, pow10_IZR by lia. pose proof (pow2_le (-1017) 0 ltac:(lia)) as Hlo. change (pow2 0) with 1%R in Hlo. pose proof (pow2_le 60 1022 ltac:(lia)) as Hhi. rewrite (pow2_IZR 60) in Hhi by lia. change (2 ^ 60) with 1152921504606846976 in Hhi.
    assert (0 < IZR (10 ^ 36))%R as Hp by (by apply IZR_lt). rewrite plus_IZR, mult_IZR. assert (1 <= IZR (10 ^ 36))%R as Hp1 by (by apply IZR_le).
    pose proof (Rinv_l (IZR (10 ^ 36)) ltac:(lra)) as Hi. pose proof (Rinv_0_lt_compat _ Hp) as Hip. split; nra.
  - exists v. split; [exact H1|exact H2].
Defined.

(** And its result: without the last digit it would be -9007199254740992, the even one. *)
Example strtod_above_tie :
  match fpconv_strtod (E:=Empty_set) (lit "-9007199254740993.000000000000000000000000000000000001" ++ [0]) pool0 with
  | Done (r, _, _) => r = (of_Z (-9007199254740994), 54)
  | _ => False
  end.
Proof. vm_compute. reflexivity. Qed.

(** The exception: the numeral lacks the last digit, a 5, of a number halfway, so the double
    below is nearer, but the even one above is returned. *)
Example short_of_tie :
  let s := lit "1.0000000000000003330669073875469621270895004272460937" ++ [0] in
  match fpconv_strtod (E:=Empty_set) s pool0, strtod 46 s with
  | Done ((v, _), _, _), Some (v', _) => (word0 v, word1 v) = (1072693248, 2) ∧ (word0 v', word1 v') = (1072693248, 1)
  | _, _ => False
  end.
Proof. vm_compute. auto. Qed.

(** [2 ^ 53 + 1] is halfway between two doubles. *)
Lemma strtod_correct_witness :
  ∃ v, strtod 46 (lit "-90071992547409.93e2" ++ [0]) = Some (v, [0]) ∧
    run (fpconv_strtod (E:=Empty_set) (lit "-90071992547409.93e2" ++ [0])) pool0 0 (λ r _, r = (v, 20)).
Proof.
  destruct (strtod_correct (E:=Empty_set) pool0 [45] (lit "90071992547409") (lit ".93") (lit "e2") 2 [0]) as (v & H1 & H2); [apply pool0_ok| | |vm_compute; done| |].
  - split; [by right|]. split; [apply (bool_decide_unpack _); by vm_compute|]. split; [right; exists 57, (lit "0071992547409"); split; [done|lia]|]. split; [right; exists (lit "93"); split; [done|]; split; [done|apply (bool_decide_unpack _); by vm_compute]|].
    right. exists 101, [], [50]. split; [done|]. split; [by left|]. split; [by left|]. split; [done|]. split; [apply (bool_decide_unpack _); by vm_compute|]. split; [done|].
    rewrite bool_decide_eq_false_2 by done. done.
  - done.
  - right. change (2 - len (drop 1 (lit ".93"))) with 0. change (pow10 0) with 1%R. rewrite Rmult_1_r.
    change (dec_value (lit "90071992547409" ++ drop 1 (lit ".93"))) with 9007199254740993.
    pose proof (pow2_le (-1018) 0 ltac:(lia)) as Hlo. change (pow2 0) with 1%R in Hlo. pose proof (pow2_le 60 1022 ltac:(lia)) as Hhi. rewrite (pow2_IZR 60) in Hhi by lia. change (2 ^ 60) with 1152921504606846976 in Hhi. lra.
  - exists v. split; [exact H1|exact H2].
Defined.

(** And the result of the definitions at that numeral: the even neighbour. *)
Example strtod_tie :
  match fpconv_strtod (E:=Empty_set) (lit "-90071992547409.93e2" ++ [0]) pool0 with
  | Done (r, _, _) => r = (of_Z (-9007199254740992), 20)
  | _ => False
  end.
Proof. vm_compute. reflexivity. Qed.
(** ** Written again *)
(** A decimal of at most 15 digits is the nearest one to its double. *)
Section recover.
Context (U : R) (d e P : Z) (Hd : 0 < d < 10 ^ P) (HP : 1 ≤ P ≤ 15) (Herr : (Rabs (U - IZR d * pow10 e) <= pow2 (-53) * (IZR d * pow10 e))%R).

Lemma decimal_near K :
  decade U K → K < e + P ∧ (Rabs (U * pow10 (P - 1 - K) - IZR (d * 10 ^ (e + P - 1 - K))) < / 4)%R.
Proof.
  intros [HK1 HK2]. set (r := (IZR d * pow10 e)%R) in *. pose proof (pow10_pos e) as Hpe. assert (1 <= IZR d)%R as Hd1 by (apply IZR_le; lia).
  assert (IZR d <= pow10 P - 1)%R as HdP by (rewrite pow10_IZR, <- (minus_IZR _ 1) by lia; apply IZR_le; lia).
  assert (pow10 P <= 1000000000000000)%R as HP15 by (rewrite pow10_IZR by lia; apply IZR_le; pose proof (Z.pow_le_mono_r 10 P 15 ltac:(lia) ltac:(lia)); lia).
  assert (pow2 (-53) = / 9007199254740992)%R as He53 by (change (-53) with (- (53)); by rewrite <- pow2_inv, pow2_IZR by lia).
  rewrite He53 in Herr. assert (0 < r)%R as Hr by (unfold r; nra). apply Rabs_le_inv in Herr as Herr'.
  assert (K < e + P) as HKP.
  { destruct (decide (K < e + P)) as [|Hge]; [done|]. exfalso. pose proof (pow10_le (P + e) K ltac:(lia)) as Hle. rewrite tenpow_add in Hle.
    assert (r <= (pow10 P - 1) * pow10 e)%R as Hr2 by (unfold r; apply Rmult_le_compat_r; lra). nra. }
  split; [done|]. pose proof (pow10_pos (P - 1 - K)) as Hps.
  assert (IZR (d * 10 ^ (e + P - 1 - K)) = r * pow10 (P - 1 - K))%R as ->.
  { unfold r. rewrite mult_IZR, <- pow10_IZR, Rmult_assoc, <- tenpow_add by lia. do 2 f_equal. lia. }
  rewrite <- Rmult_minus_distr_r, Rabs_mult, (Rabs_pos_eq (pow10 _)) by lra.
  assert (U * pow10 (P - 1 - K) <= pow10 P)%R as HUs.
  { apply Rle_trans with (pow10 (K + 1) * pow10 (P - 1 - K))%R; [apply Rmult_le_compat_r; lra|]. rewrite <- tenpow_add. apply pow10_le. lia. }
  assert (r * pow10 (P - 1 - K) <= 11 / 10 * (U * pow10 (P - 1 - K)))%R as Hrs by (rewrite <- Rmult_assoc; apply Rmult_le_compat_r; lra).
  apply Rle_lt_trans with (/ 9007199254740992 * (r * pow10 (P - 1 - K)))%R; [rewrite <- Rmult_assoc; apply Rmult_le_compat_r; lra|lra].
Qed.

Lemma not_a_tie : ¬ tie U P.
Proof.
  intros (K & z & HK & Hz). destruct (decimal_near K HK) as [_ Hn]. rewrite Hz in Hn. set (w := d * 10 ^ (e + P - 1 - K)) in *. apply Rabs_lt_inv in Hn.
  assert (-1 < z - w) by (apply lt_IZR; rewrite minus_IZR; lra). assert (z - w < 0) by (apply lt_IZR; rewrite minus_IZR; lra). lia.
Qed.

Lemma decimal_recovered cs x : decimal U P cs x → (IZR (dec_value cs) * pow10 (x + 1 - len cs) = IZR d * pow10 e)%R.
Proof.
  intros (Hcs & Hl & Hlen & K & r & HK & Hr & Hx & Hv). destruct (decimal_near K HK) as [HKP Hn].
  assert (r = d * 10 ^ (e + P - 1 - K)) as Heq by (apply (nearest_unique _ _ _ Hr), nearest_close; lra). rewrite Heq in Hv. apply (f_equal IZR) in Hv.
  rewrite !mult_IZR, <- !pow10_IZR in Hv by lia. replace (x + 1 - len cs) with (P - len cs + (x - K) + (K + 1 - P)) by lia. rewrite tenpow_add, <- Rmult_assoc, Hv, Rmult_assoc, <- tenpow_add. do 2 f_equal. lia.
Qed.
End recover.

(** The exponent of the text. *)
Lemma print_exp_checked : forallb (λ n, bool_decide (digits_ok (pad_left 2 48 (fmt_u (Z.of_nat n))) ∧ dec_value (pad_left 2 48 (fmt_u (Z.of_nat n))) = Z.of_nat n)) (seq 0 500) = true.
Proof. vm_compute. reflexivity. Qed.

Lemma print_exp_part x : Z.abs x < 500 → exponent_part (print_exp x) x.
Proof.
  intros Hx. right. pose proof print_exp_checked as Hc. rewrite forallb_forall in Hc. specialize (Hc (Z.to_nat (Z.abs x)) ltac:(apply in_seq; lia)). rewrite Z2Nat.id in Hc by lia.
  apply bool_decide_eq_true in Hc as [Hdig Hval]. exists 101, [if x <? 0 then 45 else 43], (pad_left 2 48 (fmt_u (Z.abs x))). split; [done|]. split; [by left|].
  split; [right; destruct (x <? 0); auto|]. split; [intros Heq; rewrite Heq in Hval; change (dec_value []) with 0 in Hval; assert (x = 0) as -> by lia; done|].
  split; [done|]. split; [lia|]. rewrite Hval. destruct (Z.ltb_spec x 0); [rewrite bool_decide_eq_true_2 by done|rewrite bool_decide_eq_false_2 by done]; cbn [signed]; lia.
Qed.

(** The text is a numeral of the value of its digits. *)
Lemma g_text_numeral s P x cs :
  digits_ok cs → leading cs → len cs ≤ P → P ≤ 15 → Z.abs x < 500 →
  ∃ ds frac ex e, g_text P x cs = ds ++ frac ++ ex ∧ numeral (sign_text s) ds frac ex e ∧ 0 < dec_value (ds ++ drop 1 frac) < 10 ^ 40 ∧
    (IZR (dec_value (ds ++ drop 1 frac)) * pow10 (e - len (drop 1 frac)) = IZR (dec_value cs) * pow10 (x + 1 - len cs))%R.
Proof.
  intros Hcs Hl Hlen HP Hx. assert (sign_text s = [] ∨ sign_text s = [45]) as Hsg by (destruct s; auto). pose proof (leading_value_pos cs Hcs Hl) as Hpos.
  assert (dec_value cs < 10 ^ 15) as H15 by (pose proof (dec_value_range cs Hcs); pose proof (Z.pow_le_mono_r 10 (len cs) 15 ltac:(lia) ltac:(lia)); lia).
  assert (10 ^ 15 ≤ 10 ^ 40) as H1540 by (vm_compute; discriminate). pose proof Hl as (d & w & Hdw & Hdr). unfold g_text.
  destruct ((x + 1 <=? -4) || (P <? x + 1)) eqn:Hsci; [|apply orb_false_iff in Hsci as [Hx1%Z.leb_gt Hx2%Z.ltb_ge]; destruct (Z.leb_spec (x + 1) 0) as [Hx0|Hx0]].
  - exists (take 1 cs), (point (drop 1 cs)), (print_exp x), x. rewrite Hdw in *. cbn [take drop app]. rewrite take_0, drop_0. apply Forall_cons in Hcs as [Hd Hw].
    assert (drop 1 (point w) = w) as Hdrop by (by destruct w). split; [done|]. split; [|rewrite Hdrop; cbn [app]; split; [lia|do 2 f_equal; cbn [length]; lia]].
    split; [done|]. split; [by constructor|]. split; [right; by exists d, []|]. split; [|by apply print_exp_part]. destruct w as [|c w]; [by left|right; by exists (c :: w)].
  - set (k := Z.to_nat (- (x + 1))). exists [48], (46 :: replicate k 48 ++ cs), [], 0. cbn [drop]. rewrite drop_0, app_nil_r. split; [done|].
    change ([48] ++ replicate k 48 ++ cs) with (replicate (S k) 48 ++ cs). rewrite dec_value_leading_zeros. split; [|split; [lia|rewrite length_app, length_replicate; do 2 f_equal; unfold k; lia]].
    split; [done|]. split; [by constructor|]. split; [by left|]. split; [|by left]. right. exists (replicate k 48 ++ cs). split; [done|]. split; [rewrite Hdw; by destruct k|].
    apply Forall_app. split; [by apply Forall_replicate|done].
  - rewrite plain_out_eq by lia. destruct (Z.ltb_spec (x + 1) (len cs)) as [Hlt|Hge].
    + set (k := Z.to_nat (x + 1)). exists (take k cs), (46 :: drop k cs), [], 0. cbn [drop]. rewrite drop_0, take_drop. replace (Z.to_nat (x + 1 - len cs)) with O by lia. split; [cbn [replicate]; by rewrite !app_nil_r|].
      split; [|split; [lia|rewrite length_drop; do 2 f_equal; unfold k; lia]]. split; [done|]. split; [by apply Forall_take|].
      split; [right; assert (k = S (k - 1)) as -> by (unfold k; lia); rewrite Hdw; exists d, (take (k - 1) w); done|].
      split; [|by left]. right. exists (drop k cs). split; [done|]. split; [|by apply Forall_drop]. intros Hnil. apply (f_equal length) in Hnil. rewrite length_drop in Hnil. cbn [length] in Hnil. unfold k in Hnil. lia.
    + set (k := Z.to_nat (x + 1 - len cs)). exists (cs ++ replicate k 48), [], [], 0. cbn [drop]. rewrite !app_nil_r. split; [done|]. rewrite dec_value_zeros.
      pose proof (Z.pow_pos_nonneg 10 (Z.of_nat k) ltac:(lia) ltac:(lia)) as Hpk. split; [|split].
      * split; [done|]. split; [apply Forall_app; split; [done|by apply Forall_replicate]|]. split; [right; rewrite Hdw; by exists d, (w ++ replicate k 48)|]. split; [by left|by left].
      * pose proof (Z.pow_le_mono_r 10 (Z.of_nat k) 15 ltac:(lia) ltac:(unfold k; lia)). split; [nia|]. assert (10 ^ 40 = 10 ^ 15 * 10 ^ 25) as -> by (vm_compute; reflexivity). assert (10 ^ 15 ≤ 10 ^ 25) by (vm_compute; discriminate). nia.
      * rewrite mult_IZR, <- pow10_IZR, Rmult_assoc, <- tenpow_add by lia. cbn [length]. do 2 f_equal. unfold k. lia.
Qed.

Section roundtrip.
Context {E : Type}.

(** C16: a numeral of at most [P ≤ 15] significant digits that is read by [fpconv_strtod] of
    dtoa.c and written by [fpconv_g_fmt] of g_fmt.c with the precision [P] comes out as a
    numeral with the same sign and exactly the same value: reading rounds to 53 bits,
    writing to [P] digits, and the second rounding undoes the first. Both stay inside their
    buffers and give back every block. *)
Theorem numeral_roundtrip p buf P d j sgn ds frac ex e rest :
  pool_ok p → numeral sgn ds frac ex e → ends rest → 1 ≤ P ≤ 15 → 32 ≤ len buf →
  let N := dec_value (ds ++ drop 1 frac) in let e' := e - len (drop 1 frac) in
  N = d * 10 ^ Z.of_nat j → 0 < d < 10 ^ P → N < 10 ^ 40 → (pow2 (-1018) <= IZR N * pow10 e' < pow2 1022)%R →
  run (r <- fpconv_strtod (E:=E) (sgn ++ ds ++ frac ++ ex ++ rest);; fpconv_g_fmt buf r.1 P) p 0 (λ r _, ∃ ds' frac' ex' e2,
    prints buf (sgn ++ ds' ++ frac' ++ ex') r ∧ numeral sgn ds' frac' ex' e2 ∧
    (IZR (dec_value (ds' ++ drop 1 frac')) * pow10 (e2 - len (drop 1 frac')) = IZR N * pow10 e')%R).
Proof.
  cbv zeta. intros Hp Hn Hr HP Hb HNd Hd HN Hrange. set (N := dec_value (ds ++ drop 1 frac)) in *. set (e' := e - len (drop 1 frac)) in *.
  pose proof (Z.pow_pos_nonneg 10 (Z.of_nat j) ltac:(lia) ltac:(lia)) as Hpj. assert (1 ≤ N) as HN1 by nia.
  eapply (run_bind _ _ _ 0); [apply (strtod_read p sgn ds frac ex e rest); try done; by right|]. fold N e'. intros r p1 Hp1 ->. cbn [fst].
  set (neg := bool_decide (sgn = [45])). rewrite (of_decimal_sign neg) by lia. pose proof (of_decimal_ok N e' ltac:(lia) Hrange) as Hro. pose proof (rounds_good _ _ Hro) as Gv.
  assert (IZR N * pow10 e' = IZR d * pow10 (e' + Z.of_nat j))%R as HNe by (rewrite HNd, mult_IZR, <- pow10_IZR, Rmult_assoc, <- tenpow_add by lia; do 2 f_equal; lia). rewrite HNe in *.
  pose proof (pow2_le (-1022) (-1018) ltac:(lia)) as Hlo. pose proof (pow2_pos (-1022)). pose proof (rounds_relative _ _ Hro ltac:(rewrite Rabs_pos_eq; lra)) as Herr. rewrite (Rabs_pos_eq (IZR d * _)) in Herr by lra.
  destruct (val_positive (of_decimal false N e') Gv) as (m & ee & Hv).
  { apply Rabs_le_inv in Herr. pose proof (pow2_le (-53) (-1) ltac:(lia)) as H1. rewrite half_inv in H1. nra. }
  rewrite Hv in *. assert ((if neg then SFopp (S754_finite false m ee) else S754_finite false m ee) = S754_finite neg m ee) as -> by (by destruct neg).
  assert (sign_text neg = sgn) as Hsg by (unfold neg; destruct Hn as ([->| ->] & _); done).
  eapply run_conv; [eapply run_mono; [apply (g_fmt_digits p1 neg m ee P buf); [done|by destruct Gv|lia|lia|by apply (not_a_tie _ d (e' + Z.of_nat j))]|]|lia].
  intros r _ (cs & x & Hdec & _ & Hx & Hpr). pose proof Hdec as (Hcs & Hl & Hlen & _).
  destruct (g_text_numeral neg P x cs Hcs Hl Hlen ltac:(lia) Hx) as (ds' & frac' & ex' & e2 & Ht & Hn' & _ & Hval). rewrite Ht, Hsg in *.
  exists ds', frac', ex', e2. split; [done|]. split; [done|]. rewrite Hval. by apply (decimal_recovered (val (S754_finite false m ee)) d (e' + Z.of_nat j) P).
Qed.
End roundtrip.
Lemma numeral_roundtrip_witness :
  run (r <- fpconv_strtod (E:=Empty_set) (lit "-1.250e30" ++ [0]);; fpconv_g_fmt (replicate 32 None) r.1 14) pool0 0 (λ r _, ∃ ds' frac' ex' e2,
    prints (replicate 32 None) ([45] ++ ds' ++ frac' ++ ex') r ∧ numeral [45] ds' frac' ex' e2 ∧
    (IZR (dec_value (ds' ++ drop 1 frac')) * pow10 (e2 - len (drop 1 frac')) = IZR 1250 * pow10 27)%R).
Proof.
  apply (numeral_roundtrip (E:=Empty_set) pool0 (replicate 32 None) 14 125 1 [45] (lit "1") (lit ".250") (lit "e30") 30 [0]).
  - apply pool0_ok.
  - split; [by right|]. split; [apply (bool_decide_unpack _); by vm_compute|]. split; [right; exists 49, []; split; [done|lia]|]. split; [right; exists (lit "250"); split; [done|]; split; [done|apply (bool_decide_unpack _); by vm_compute]|].
    right. exists 101, [], [51; 48]. split; [done|]. split; [by left|]. split; [by left|]. split; [done|]. split; [apply (bool_decide_unpack _); by vm_compute|]. split; [done|].
    rewrite bool_decide_eq_false_2 by done. done.
  - done.
  - lia.
  - vm_compute. discriminate.
  - vm_compute. reflexivity.
  - split; [lia|]. vm_compute. reflexivity.
  - vm_compute. reflexivity.
  - change (30 - len (drop 1 (lit ".250"))) with 27. change (dec_value (lit "1" ++ drop 1 (lit ".250"))) with 1250. rewrite pow10_IZR by lia. rewrite <- mult_IZR.
    pose proof (pow2_le (-1018) 0 ltac:(lia)) as Hlo. change (pow2 0) with 1%R in Hlo. pose proof (pow2_le 200 1022 ltac:(lia)) as Hhi. rewrite (pow2_IZR 200) in Hhi by lia. split.
    + eapply Rle_trans; [exact Hlo|]. apply IZR_le. vm_compute. discriminate.
    + eapply Rlt_le_trans; [|exact Hhi]. apply IZR_lt. vm_compute. reflexivity.
Defined.

Example roundtrip_text :
  match (r <- fpconv_strtod (E:=Empty_set) (lit "-1.250e30" ++ [0]);; fpconv_g_fmt (replicate 32 None) r.1 14) pool0 with
  | Done ((buf, n), _, _) => n = 9 ∧ take 10 buf = Some <$> (lit "-1.25e+30" ++ [0])
  | _ => False
  end.
Proof. vm_compute. auto. Qed.
End StrtodProps.
