(* ===== verification/Srp.v ===== *)
(** * lua-srp.c: the SRP key exchange

    The Lua functions around OpenSSL's SRP routines. The routines are the
    operations of the class [OpenSSL]; [SrpLaws] (in SrpProps.v) states what their
    documentation promises. A BIGNUM is a number, [None] is the NULL pointer;
    allocations and releases are effects. The state is the source of random bytes:
    the results of the coming calls of [RAND_bytes], [None] for one that fails. *)
From S2P Require Import Prelude Libc.

Module Srp.

Definition KEY_SIZE : Z := 32.
Abbreviation bn := (option Z).

(** The group of [SRP_get_default_gN("1024")] is [N], [g]. The first argument of
    [SRP_create_verifier_BN] stands for the random salt. *)
Class OpenSSL := {
  N : Z;
  g : Z;
  BN_bin2bn : list Z → Z;
  BN_bn2bin : Z → list Z;
  SRP_create_verifier_BN : Z → list Z → list Z → Z → Z → option (Z * Z);
  SRP_Calc_A : bn → Z → Z → bn;
  SRP_Verify_A_mod_N : bn → Z → bool;
  SRP_Calc_B : bn → Z → Z → bn → bn;
  SRP_Verify_B_mod_N : bn → Z → bool;
  SRP_Calc_u : bn → bn → Z → bn;
  SRP_Calc_x : bn → list Z → list Z → bn;
  SRP_Calc_server_key : bn → bn → bn → bn → Z → bn;
  SRP_Calc_client_key : Z → bn → Z → bn → bn → bn → bn
}.

Inductive call := New (n : Z) | Free (n : Z) | ClearFree (n : Z).
(** [luaL_checkstring] names the argument, [lua_error] raises what is on the stack. *)
Inductive lua_error := ArgError (arg : Z) | TopError.

Abbreviation act A := (M (list (option (list Z))) call lua_error A).
Definition throw {A} (e : lua_error) : act A := fun _ => Raise e.

Section Srp.
Context `{OpenSSL}.

(** A function that returns a fresh BIGNUM, or NULL. *)
Definition fresh (n : bn) : act bn :=
  match n with Some z => emit (New z) ;; ret n | None => ret n end.
(** The release functions do nothing for NULL. *)
Definition BN_free (n : bn) : act unit :=
  match n with Some z => emit (Free z) | None => ret tt end.
Definition BN_clear_free (n : bn) : act unit :=
  match n with Some z => emit (ClearFree z) | None => ret tt end.

(** The result of [RAND_bytes] is not checked: after a failure [tmp] is unwritten. *)
Definition random_key : act bn :=
  let* s := get in
  match s with
  | [] => lift NoFuel
  | None :: _ => fault_ Uninitialised
  | Some tmp :: s => put s ;; fresh (Some (BN_bin2bn (take (Z.to_nat KEY_SIZE) tmp)))
  end.

(** [BN_bn2bin] writes to an array of 1024 bytes before the length is asserted. *)
Definition push_bn (n : bn) : act (list Z) :=
  match n with
  | None => fault_ NullDeref
  | Some z =>
      let buf := BN_bn2bin z in
      if 1024 <? len buf then fault_ OutOfBounds
      else lift (guard_or AssertFailed (len buf <? 1024)) ;; ret buf
  end.

(** An argument as [lua_tolstring] gives it. *)
Definition lua_tobn (arg : option (list Z)) : act bn :=
  match arg with
  | None => throw TopError
  | Some s => fresh (Some (BN_bin2bn s))
  end.

Definition luaL_checkstring (i : Z) (arg : option (list Z)) : act (list Z) :=
  match arg with
  | None => throw (ArgError i)
  | Some s => ret (cstr s)
  end.

(** The strings that a function returns to Lua; [salt] is the random salt. *)
Definition lcreate_verifier (salt : Z) (arg1 arg2 : option (list Z)) : act (list (list Z)) :=
  let* user := luaL_checkstring 1 arg1 in
  let* pass := luaL_checkstring 2 arg2 in
  match SRP_create_verifier_BN salt user pass N g with
  | None => ret []
  | Some (s, v) =>
      let* s := fresh (Some s) in
      let* v := fresh (Some v) in
      let* s_str := push_bn s in
      let* v_str := push_bn v in
      BN_free s ;;
      BN_clear_free v ;;
      ret [s_str; v_str]
  end.

(** The loops take a round for each key that is drawn. *)
Fixpoint client_key_loop (fuel : nat) : act (bn * bn) :=
  match fuel with
  | O => lift NoFuel
  | S fuel =>
      let* a := random_key in
      let* A := fresh (SRP_Calc_A a N g) in
      if negb (SRP_Verify_A_mod_N A N) then
        BN_clear_free a ;; BN_free A ;; client_key_loop fuel
      else ret (a, A)
  end.

Definition lcreate_client_key : act (list (list Z)) :=
  let* s := get in
  let* (a, A) := client_key_loop (length s) in
  let* a_str := push_bn a in
  let* A_str := push_bn A in
  BN_clear_free a ;;
  BN_free A ;;
  ret [a_str; A_str].

Fixpoint server_key_loop (fuel : nat) (v : bn) : act (bn * bn) :=
  match fuel with
  | O => lift NoFuel
  | S fuel =>
      let* b := random_key in
      let* B := fresh (SRP_Calc_B b N g v) in
      if negb (SRP_Verify_B_mod_N B N) then
        BN_clear_free b ;; BN_free B ;; server_key_loop fuel v
      else ret (b, B)
  end.

Definition lcreate_server_session_key (arg1 arg2 : option (list Z)) : act (list (list Z)) :=
  let* v := lua_tobn arg1 in
  let* A := lua_tobn arg2 in
  let* s := get in
  let* (b, B) := server_key_loop (length s) v in
  let* u := fresh (SRP_Calc_u A B N) in
  let* K := fresh (SRP_Calc_server_key A v u b N) in
  let* K_str := push_bn K in
  let* b_str := push_bn b in
  let* B_str := push_bn B in
  BN_clear_free b ;;
  BN_free B ;;
  BN_clear_free v ;;
  BN_free A ;;
  BN_clear_free u ;;
  BN_clear_free K ;;
  ret [K_str; b_str; B_str].

Definition lcreate_client_session_key (arg1 arg2 arg3 arg4 arg5 arg6 : option (list Z))
    : act (list (list Z)) :=
  let* user := luaL_checkstring 1 arg1 in
  let* pass := luaL_checkstring 2 arg2 in
  let* s := lua_tobn arg3 in
  let* a := lua_tobn arg4 in
  let* A := lua_tobn arg5 in
  let* B := lua_tobn arg6 in
  let* u := fresh (SRP_Calc_u A B N) in
  let* x := fresh (SRP_Calc_x s user pass) in
  let* K := fresh (SRP_Calc_client_key N B g x a u) in
  let* K_str := push_bn K in
  BN_free s ;;
  BN_clear_free a ;;
  BN_free A ;;
  BN_free B ;;
  BN_clear_free u ;;
  BN_clear_free x ;;
  BN_clear_free K ;;
  ret [K_str].

Definition lrandom : act (list (list Z)) :=
  let* r := random_key in
  let* r_str := push_bn r in
  BN_free r ;;
  ret [r_str].
End Srp.
End Srp.
