(* ===== verification/SrpProps.v ===== *)
(** * What OpenSSL's SRP routines promise, and lemmas on the key exchange *)
From Stdlib Require Import Zdivisibility.
From S2P Require Import Prelude Libc Srp.

Module SrpSpec.
Import Srp.

(** The documented behaviour of the routines; [k] is the multiplier of SRP-6a, a hash
    of the group. Of the hashes [u] and [x] only their range is known. *)
Class SrpLaws `{OpenSSL} (k : Z) : Prop := {
  N_range : 1 < N < 2 ^ 1024;
  g_unit : Z.gcd g N = 1;
  bin2bn_spec : ∀ s, bytes_ok s → BN_bin2bn s = be_value s;
  bn2bin_spec : ∀ n, 0 ≤ n → bytes_ok (BN_bn2bin n) ∧ be_value (BN_bn2bin n) = n;
  bn2bin_length : ∀ n, 0 ≤ n < 2 ^ 1024 → len (BN_bn2bin n) ≤ 128;
  calc_A : ∀ a, 0 ≤ a → SRP_Calc_A (Some a) N g = Some (g ^ a mod N);
  verify_A : ∀ A, SRP_Verify_A_mod_N (Some A) N = negb (A mod N =? 0);
  calc_B : ∀ b v, 0 ≤ b → SRP_Calc_B (Some b) N g (Some v) = Some ((k * v + g ^ b) mod N);
  verify_B : ∀ B, SRP_Verify_B_mod_N (Some B) N = negb (B mod N =? 0);
  calc_u : ∀ A B, 0 ≤ A < N → 0 ≤ B < N → ∃ u, 0 ≤ u ∧ SRP_Calc_u (Some A) (Some B) N = Some u;
  calc_x : ∀ s user pass, 0 ≤ s → ∃ x, 0 ≤ x ∧ SRP_Calc_x (Some s) user pass = Some x;
  create_verifier : ∀ salt user pass s v, SRP_create_verifier_BN salt user pass N g = Some (s, v) →
    0 ≤ s < 2 ^ 1024 ∧ ∃ x, SRP_Calc_x (Some s) user pass = Some x ∧ v = g ^ x mod N;
  server_key : ∀ A v u b, 0 ≤ u → 0 ≤ b →
    SRP_Calc_server_key (Some A) (Some v) (Some u) (Some b) N = Some ((A * v ^ u) ^ b mod N);
  client_key : ∀ B x a u, 0 ≤ x → 0 ≤ a → 0 ≤ u →
    SRP_Calc_client_key N (Some B) g (Some x) (Some a) (Some u) = Some ((B - k * g ^ x) ^ (a + u * x) mod N)
}.

(** ** Equality modulo [m] *)
Section modulo.
Context (m : Z) (Hm : 1 < m).

Definition eqm (x y : Z) : Prop := x mod m = y mod m.

#[local] Instance eqm_equiv : Equivalence eqm.
Proof. unfold eqm. split; [by intros ?|by intros ??|by intros ??? -> ->]. Qed.

#[local] Instance add_eqm : Proper (eqm ==> eqm ==> eqm) Z.add.
Proof. intros a b Hab c d Hcd. unfold eqm in *. by rewrite Zplus_mod, Hab, Hcd, <- Zplus_mod. Qed.

#[local] Instance sub_eqm : Proper (eqm ==> eqm ==> eqm) Z.sub.
Proof. intros a b Hab c d Hcd. unfold eqm in *. by rewrite Zminus_mod, Hab, Hcd, <- Zminus_mod. Qed.

#[local] Instance mul_eqm : Proper (eqm ==> eqm ==> eqm) Z.mul.
Proof. intros a b Hab c d Hcd. unfold eqm in *. by rewrite Zmult_mod, Hab, Hcd, <- Zmult_mod. Qed.

#[local] Instance pow_eqm : Proper (eqm ==> eq ==> eqm) Z.pow.
Proof.
  intros a b Hab c ? <-. unfold eqm in *.
  by rewrite <- Z.mod_pow_l, Hab, Z.mod_pow_l.
Qed.

Lemma mod_eqm x : eqm (x mod m) x.
Proof. unfold eqm. by rewrite Zmod_mod. Qed.

(** The two sides compute the same key. *)
Lemma keys_agree g k a b u x : 0 ≤ a → 0 ≤ b → 0 ≤ u → 0 ≤ x →
  let v := g ^ x mod m in
  ((g ^ a mod m) * v ^ u) ^ b mod m =
  ((k * v + g ^ b) mod m - k * g ^ x) ^ (a + u * x) mod m.
Proof.
  intros Ha Hb Hu Hx v. change (eqm (((g ^ a mod m) * v ^ u) ^ b)
    (((k * v + g ^ b) mod m - k * g ^ x) ^ (a + u * x))).
  assert (eqm v (g ^ x)) as Hv by apply mod_eqm.
  rewrite !mod_eqm, Hv.
  assert (k * g ^ x + g ^ b - k * g ^ x = g ^ b) as -> by ring.
  rewrite <- !Z.pow_mul_r, <- Z.pow_add_r, <- Z.pow_mul_r by nia.
  replace ((a + x * u) * b) with (b * (a + u * x)) by ring. reflexivity.
Qed.

Lemma pow_not_zero g a : Z.gcd g m = 1 → 0 ≤ a → g ^ a mod m ≠ 0.
Proof.
  intros Hg Ha Hz. apply Z.mod_divide in Hz; [|lia].
  assert (Z.gcd m (g ^ a) = 1) as Hgcd by (apply Z.coprime_pow_r; [done|]; unfold Z.coprime; by rewrite Z.gcd_comm).
  apply Z.divide_gcd_iff in Hz; lia.
Qed.
End modulo.

(** ** The calls *)
Definition allocated (w : list call) : list Z := omap (fun c => match c with New n => Some n | _ => None end) w.
Definition released (w : list call) : list Z :=
  omap (fun c => match c with Free n | ClearFree n => Some n | New _ => None end) w.

(** What remains allocated after the calls is [l]. *)
Definition leaves (l : list Z) (w : list call) : Prop := allocated w ≡ₚ released w ++ l.

Lemma leaves_app l1 l2 w1 w2 : leaves l1 w1 → leaves l2 w2 → leaves (l1 ++ l2) (w1 ++ w2).
Proof.
  unfold leaves, allocated, released. rewrite !omap_app. intros -> ->. solve_Permutation.
Qed.

(** [ledger]: the calls of a concrete list balance. *)
Ltac ledger := unfold leaves, allocated, released; rewrite ?omap_app; simpl; solve_Permutation.

(** The results of the random source, and a key from it. *)
Abbreviation draw := (option (list Z)).
Definition key_ok (tmp : list Z) : Prop := bytes_ok tmp ∧ len tmp = KEY_SIZE.

#[export] Instance key_ok_dec tmp : Decision (key_ok tmp).
Proof. unfold key_ok. apply _. Defined.

Lemma key_range tmp : key_ok tmp → 0 ≤ be_value tmp < 2 ^ 1024.
Proof.
  intros [Hb Hl]. pose proof (be_value_range tmp Hb) as Hr. rewrite Hl in Hr.
  assert (256 ^ KEY_SIZE < 2 ^ 1024) by (vm_compute; reflexivity). lia.
Qed.

Section calls.
Context `{L : SrpLaws k}.
Implicit Types (s : list draw) (tmp : list Z) (Q : list Z → list draw → list call → Prop).

Lemma mod_range z : 0 ≤ z mod N < N.
Proof. apply Z.mod_pos_bound. pose proof N_range. lia. Qed.

Lemma mod_range' z : 0 ≤ z mod N < 2 ^ 1024.
Proof. pose proof (mod_range z). pose proof N_range. lia. Qed.

Lemma wp_fresh n s (Q : bn → list draw → list call → Prop) :
  Q (Some n) s [New n] → wp (fresh (Some n)) s Q.
Proof. intros. by repeat step. Qed.

Lemma wp_free n s (Q : unit → list draw → list call → Prop) :
  Q tt s [Free n] → wp (BN_free (Some n)) s Q.
Proof. intros. by step. Qed.

Lemma wp_clear_free n s (Q : unit → list draw → list call → Prop) :
  Q tt s [ClearFree n] → wp (BN_clear_free (Some n)) s Q.
Proof. intros. by step. Qed.

Lemma wp_checkstring i str s Q : Q (cstr str) s [] → wp (luaL_checkstring i (Some str)) s Q.
Proof. intros. by step. Qed.

Lemma wp_random_key tmp s (Q : bn → list draw → list call → Prop) :
  key_ok tmp → Q (Some (be_value tmp)) s [New (be_value tmp)] → wp random_key (Some tmp :: s) Q.
Proof.
  intros [Hb Hl] HQ. eexists _, _, _. split; [reflexivity|].
  rewrite <- Hl, Nat2Z.id, firstn_all, bin2bn_spec by done. exact HQ.
Qed.

Lemma wp_push_bn n s Q : 0 ≤ n < 2 ^ 1024 → Q (BN_bn2bin n) s [] → wp (push_bn (Some n)) s Q.
Proof.
  intros Hn HQ. pose proof (bn2bin_length n Hn) as Hl. unfold push_bn.
  destruct (Z.ltb_spec 1024 (len (BN_bn2bin n))); [lia|].
  step. step. exists tt. destruct (Z.ltb_spec (len (BN_bn2bin n)) 1024); [|lia].
  split; [done|]. by step.
Qed.

Lemma wp_lua_tobn str s (Q : bn → list draw → list call → Prop) :
  bytes_ok str → Q (Some (be_value str)) s [New (be_value str)] → wp (lua_tobn (Some str)) s Q.
Proof. intros Hs HQ. eexists _, _, _. split; [reflexivity|]. by rewrite bin2bn_spec. Qed.

#[local] Opaque fresh BN_free BN_clear_free luaL_checkstring random_key push_bn lua_tobn.

(** [run]: the steps up to the next call that has conditions. *)
Ltac run := repeat (step || (apply wp_fresh; simpl) || (apply wp_free; simpl)
  || (apply wp_clear_free; simpl) || (apply wp_checkstring; simpl)).

(** The first key gives a usable [A]. *)
Lemma client_key_loop_spec fuel tmp s (Q : bn * bn → list draw → list call → Prop) :
  key_ok tmp →
  let a := be_value tmp in let A := g ^ a mod N in
  Q (Some a, Some A) s [New a; New A] → wp (client_key_loop (S fuel)) (Some tmp :: s) Q.
Proof.
  intros Hk a A HQ. pose proof (key_range tmp Hk) as Ha. cbn [client_key_loop].
  step. apply wp_random_key; [done|]. rewrite calc_A by lia. run. rewrite verify_A, Zmod_mod.
  destruct (Z.eqb_spec (g ^ be_value tmp mod N) 0) as [Hz|Hz].
  - exfalso. revert Hz. pose proof N_range. apply pow_not_zero; [lia|apply g_unit|lia].
  - by step.
Qed.

(** The server's public number; a key is rejected when it is 0. *)
Definition server_public (v : Z) (tmp : list Z) : Z := (k * v + g ^ be_value tmp) mod N.

Lemma server_key_loop_spec fuel v bad tmp rest
    (Q : bn * bn → list draw → list call → Prop) :
  Forall key_ok bad → key_ok tmp → (length bad < fuel)%nat →
  Forall (fun t => server_public v t = 0) bad → server_public v tmp ≠ 0 →
  (∀ w, leaves [be_value tmp; server_public v tmp] w →
     Q (Some (be_value tmp), Some (server_public v tmp)) rest w) →
  wp (server_key_loop fuel (Some v)) ((Some <$> bad) ++ Some tmp :: rest) Q.
Proof.
  intros Hbad Htmp Hfuel Hrej Hacc. revert fuel Q Hfuel.
  induction bad as [|t bad IH]; intros [|fuel] Q Hfuel HQ; try (simpl in Hfuel; lia).
  - cbn [server_key_loop fmap list_fmap app]. step. apply wp_random_key; [done|].
    pose proof (key_range tmp Htmp). rewrite calc_B by lia. run. rewrite verify_B, Zmod_mod.
    fold (server_public v tmp). destruct (Z.eqb_spec (server_public v tmp) 0); [done|].
    run. apply HQ. ledger.
  - apply Forall_cons in Hbad as [Ht Hbad]. apply Forall_cons in Hrej as [Hr Hrej].
    simpl in Hfuel. cbn [server_key_loop fmap list_fmap app]. step. apply wp_random_key; [done|].
    pose proof (key_range t Ht). rewrite calc_B by lia. run. rewrite verify_B, Zmod_mod.
    fold (server_public v t). rewrite Hr. simpl. run. apply IH; [done|done|lia|]. intros w Hw. apply HQ.
    change [be_value tmp; server_public v tmp] with ([] ++ [be_value tmp; server_public v tmp]).
    apply (leaves_app [] _ [New (be_value t); New 0; ClearFree (be_value t); Free 0] w); [ledger|done].
Qed.

#[local] Opaque client_key_loop server_key_loop.

(** ** The functions that Lua calls *)
Abbreviation results := (list (list Z) → list draw → list call → Prop).

Lemma wp_create_verifier salt user pass (s v : Z) σ (Q : results) :
  SRP_create_verifier_BN salt (cstr user) (cstr pass) N g = Some (s, v) →
  (∀ w, leaves [] w → Q [BN_bn2bin s; BN_bn2bin v] σ w) →
  wp (lcreate_verifier salt (Some user) (Some pass)) σ Q.
Proof.
  intros Hc HQ. destruct (create_verifier _ _ _ _ _ Hc) as (Hs & x & _ & Hv).
  unfold lcreate_verifier. run. rewrite Hc. run.
  apply wp_push_bn; [done|]. run. apply wp_push_bn; [rewrite Hv; apply mod_range'|].
  run. apply HQ. ledger.
Qed.

Lemma wp_create_client_key tmp σ (Q : results) :
  key_ok tmp →
  let a := be_value tmp in let A := g ^ a mod N in
  (∀ w, leaves [] w → Q [BN_bn2bin a; BN_bn2bin A] σ w) →
  wp lcreate_client_key (Some tmp :: σ) Q.
Proof.
  intros Hk a A HQ. unfold lcreate_client_key. run. cbn [length].
  apply client_key_loop_spec; [done|]. run.
  apply wp_push_bn; [by apply key_range|]. run. apply wp_push_bn; [apply mod_range'|].
  run. apply HQ. ledger.
Qed.

Lemma wp_server_session_key vs As u bad tmp rest (Q : results) :
  bytes_ok vs → bytes_ok As → 0 ≤ u → Forall key_ok bad → key_ok tmp →
  let v := be_value vs in let A := be_value As in let B := server_public v tmp in
  Forall (fun t => server_public v t = 0) bad → B ≠ 0 →
  SRP_Calc_u (Some A) (Some B) N = Some u →
  (∀ w, leaves [] w →
    Q [BN_bn2bin ((A * v ^ u) ^ be_value tmp mod N); BN_bn2bin (be_value tmp); BN_bn2bin B] rest w) →
  wp (lcreate_server_session_key (Some vs) (Some As))
     ((Some <$> bad) ++ Some tmp :: rest) Q.
Proof.
  intros Hvs HAs Hu Hbad Htmp v A B Hrej Hacc Hcu HQ. unfold lcreate_server_session_key.
  pose proof (key_range tmp Htmp) as Hb.
  step. apply wp_lua_tobn; [done|]. run. apply wp_lua_tobn; [done|]. run.
  apply server_key_loop_spec; try done.
  { rewrite length_app, length_fmap. simpl. lia. }
  intros w Hw. fold v A B in Hw |- *. rewrite Hcu. run. rewrite server_key by lia. run.
  apply wp_push_bn; [apply mod_range'|]. run. apply wp_push_bn; [done|]. run.
  apply wp_push_bn; [apply mod_range'|]. run. apply HQ.
  unfold leaves, allocated, released in *. simpl. rewrite !omap_app, Hw. simpl. solve_Permutation.
Qed.

Lemma wp_client_session_key user pass ss As Bs x u (a : list Z) σ (Q : results) :
  bytes_ok ss → bytes_ok a → bytes_ok As → bytes_ok Bs → 0 ≤ x → 0 ≤ u →
  SRP_Calc_x (Some (be_value ss)) (cstr user) (cstr pass) = Some x →
  SRP_Calc_u (Some (be_value As)) (Some (be_value Bs)) N = Some u →
  (∀ w, leaves [] w →
    Q [BN_bn2bin ((be_value Bs - k * g ^ x) ^ (be_value a + u * x) mod N)] σ w) →
  wp (lcreate_client_session_key (Some user) (Some pass) (Some ss) (Some a) (Some As) (Some Bs)) σ Q.
Proof.
  intros Hss Ha HAs HBs Hx Hu Hcx Hcu HQ. unfold lcreate_client_session_key.
  pose proof (be_value_range a Ha). run.
  apply wp_lua_tobn; [done|]. run. apply wp_lua_tobn; [done|]. run.
  apply wp_lua_tobn; [done|]. run. apply wp_lua_tobn; [done|]. run.
  rewrite Hcu. run. rewrite Hcx. run. rewrite client_key by lia. run.
  apply wp_push_bn; [apply mod_range'|]. run. apply HQ. ledger.
Qed.
End calls.
End SrpSpec.

(** * lua-srp.c: the claims, and an instance of OpenSSL's promises *)
Module SrpProps.
Import Srp SrpSpec.

Section handshake.
Context `{L : SrpLaws k}.

(** Registration and login: the server stores the salt and the verifier, the client
    draws its key, the server answers with [B], and each computes its session key. *)
Definition handshake (salt : Z) (user pass : list Z) : act (list Z * list Z) :=
  let* sv := lcreate_verifier salt (Some user) (Some pass) in
  let* aA := lcreate_client_key in
  let* KbB := lcreate_server_session_key (sv !! 1%nat) (aA !! 1%nat) in
  let* K := lcreate_client_session_key (Some user) (Some pass) (sv !! 0%nat)
              (aA !! 0%nat) (aA !! 1%nat) (KbB !! 2%nat) in
  ret (default [] (K !! 0%nat), default [] (KbB !! 0%nat)).

(** C11: the client and the server compute the same session key, for every user,
    password, salt and private keys: a key of the client is accepted at once, the
    server draws keys until one gives a public number that is not 0, and when all is
    done every BIGNUM has been freed. *)
Theorem session_keys_agree salt user pass a bad b rest s v :
  SRP_create_verifier_BN salt (cstr user) (cstr pass) N g = Some (s, v) →
  key_ok a → Forall key_ok bad → key_ok b →
  Forall (fun t => server_public (k:=k) v t = 0) bad → server_public (k:=k) v b ≠ 0 →
  wp (handshake salt user pass) (Some a :: (Some <$> bad) ++ Some b :: rest) (fun '(Kc, Ks) σ w =>
    Kc = Ks ∧ σ = rest ∧ leaves [] w).
Proof.
  intros Hc Ha Hbad Hb Hrej Hacc. destruct (create_verifier _ _ _ _ _ Hc) as (Hs & x & Hcx & Hv).
  destruct (calc_x s (cstr user) (cstr pass)) as (x' & Hx & Hx'); [lia|].
  rewrite Hcx in Hx'. injection Hx' as <-.
  destruct (bn2bin_spec s) as [Hsb Hsv]; [lia|].
  assert (0 ≤ v < N) as Hvr by (rewrite Hv; apply mod_range).
  destruct (bn2bin_spec v) as [Hvb Hvv]; [lia|].
  pose proof (key_range a Ha) as Har. destruct (bn2bin_spec (be_value a)) as [Hab Hav]; [lia|].
  pose proof (mod_range (g ^ be_value a)) as HAr.
  destruct (bn2bin_spec (g ^ be_value a mod N)) as [HAb HAv]; [lia|].
  pose proof (mod_range (k * v + g ^ be_value b)) as HBr.
  destruct (bn2bin_spec (server_public (k:=k) v b)) as [HBb HBv]; [unfold server_public; lia|].
  destruct (calc_u _ _ HAr HBr) as (u & Hu & Hcu).
  pose proof (key_range b Hb) as Hbr.
  unfold handshake. step. eapply wp_create_verifier; [done|]. intros w1 Hw1.
  step. apply wp_create_client_key; [done|]. intros w2 Hw2. cbn [lookup list_lookup].
  step. eapply (wp_server_session_key _ _ u); try done; rewrite ?Hvv, ?HAv; try done.
  intros w3 Hw3. cbn [lookup list_lookup].
  step. eapply (wp_client_session_key _ _ _ _ _ x u); try done; rewrite ?Hsv, ?HAv, ?HBv; try done.
  intros w4 Hw4. step. split; [|split; [done|]].
  - rewrite Hav, Hv. unfold server_public. f_equal. symmetry. apply keys_agree; pose proof N_range; lia.
  - pose proof (leaves_app _ _ _ _ Hw1 (leaves_app _ _ _ _ Hw2 (leaves_app _ _ _ _ Hw3 Hw4))) as Hw.
    by rewrite !app_nil_r in *.
Qed.

(** The server never checks the public number of the client. If it is 0, as for
    the empty string, the session key is 0 for every verifier: a client that does not
    know the password computes the same key. *)
Theorem zero_public_key vs As bad b rest :
  bytes_ok vs → bytes_ok As → be_value As = 0 → Forall key_ok bad → key_ok b → be_value b ≠ 0 →
  Forall (fun t => server_public (k:=k) (be_value vs) t = 0) bad →
  server_public (k:=k) (be_value vs) b ≠ 0 →
  wp (lcreate_server_session_key (Some vs) (Some As)) ((Some <$> bad) ++ Some b :: rest) (fun r σ w =>
    head r = Some (BN_bn2bin 0) ∧ σ = rest ∧ leaves [] w).
Proof.
  intros Hvs HAs HA Hbad Hb Hb0 Hrej Hacc. pose proof N_range. pose proof (key_range b Hb) as Hbr.
  destruct (calc_u 0 (server_public (k:=k) (be_value vs) b)) as (u & Hu & Hcu); [lia|apply mod_range|].
  apply (wp_server_session_key _ _ u); try done; [by rewrite HA|].
  intros w Hw. split; [|done]. rewrite HA. simpl. do 2 f_equal.
  by rewrite Z.mul_0_l, Z.pow_0_l, Zmod_0_l by lia.
Qed.
End handshake.

(** ** An instance: the group of order 22 modulo 23 *)
(** The bytes of a number, without leading zeros. *)
Fixpoint strip (l : list Z) : list Z :=
  match l with
  | [] => []
  | c :: l' => if c =? 0 then strip l' else l
  end.
Definition num_bytes (n : Z) : nat := S (Z.to_nat (Z.log2 n / 8)).
Definition bn2bin (n : Z) : list Z := strip (be_bytes (num_bytes n) n).

Lemma strip_value l : be_value (strip l) = be_value l.
Proof.
  induction l as [|c l IH]; [done|]. simpl. destruct (Z.eqb_spec c 0) as [->|]; [|done].
  rewrite IH. change (0 :: l) with ([0] ++ l). rewrite be_value_app.
  change (be_value [0]) with 0. lia.
Qed.

Lemma strip_ok l : bytes_ok l → bytes_ok (strip l).
Proof. induction 1 as [|c l Hc Hl IH]; simpl; [constructor|]. case_match; [done|by constructor]. Qed.

Lemma strip_length l : (length (strip l) ≤ length l)%nat.
Proof. induction l as [|c l IH]; simpl; [done|]. case_match; simpl; lia. Qed.

Lemma num_bytes_enough n : 0 ≤ n → n < 256 ^ Z.of_nat (num_bytes n).
Proof.
  intros Hn. unfold num_bytes. rewrite Nat2Z.inj_succ.
  pose proof (Z.log2_nonneg n). rewrite Z2Nat.id by dlia.
  destruct (decide (n = 0)) as [->|]; [vm_compute; reflexivity|].
  pose proof (Z.log2_spec n ltac:(lia)) as [_ Hlt]. change 256 with (2 ^ 8).
  rewrite <- Z.pow_mul_r by dlia. eapply Z.lt_le_trans; [exact Hlt|].
  apply Z.pow_le_mono_r; dlia.
Qed.

#[local] Instance toy : OpenSSL := {|
  N := 23; g := 5;
  BN_bin2bn := be_value; BN_bn2bin := bn2bin;
  SRP_create_verifier_BN := fun salt user pass N g =>
    Some (Z.abs salt mod 2 ^ 160, g ^ (Z.abs salt mod 2 ^ 160 + len user + len pass) mod N);
  SRP_Calc_A := fun a N g => a ← a; Some (g ^ a mod N);
  SRP_Verify_A_mod_N := fun A N => match A with Some A => negb (A mod N =? 0) | None => false end;
  SRP_Calc_B := fun b N g v => b ← b; v ← v; Some ((3 * v + g ^ b) mod N);
  SRP_Verify_B_mod_N := fun B N => match B with Some B => negb (B mod N =? 0) | None => false end;
  SRP_Calc_u := fun A B N => A ← A; B ← B; Some (A + 7 * B);
  SRP_Calc_x := fun s user pass => s ← s; Some (s + len user + len pass);
  SRP_Calc_server_key := fun A v u b N =>
    A ← A; v ← v; u ← u; b ← b; Some ((A * v ^ u) ^ b mod N);
  SRP_Calc_client_key := fun N B g x a u =>
    B ← B; x ← x; a ← a; u ← u; Some ((B - 3 * g ^ x) ^ (a + u * x) mod N)
|}.

#[local] Instance toy_laws : SrpLaws 3.
Proof.
  split; try done.
  - intros n Hn. split; [apply strip_ok, be_bytes_ok|]. simpl. unfold bn2bin.
    rewrite strip_value, be_value_bytes; [done|]. split; [done|]. by apply num_bytes_enough.
  - intros n [Hn Hlt]. simpl. unfold bn2bin.
    pose proof (strip_length (be_bytes (num_bytes n) n)) as Hl. rewrite length_be_bytes in Hl.
    unfold num_bytes in *. destruct (decide (n = 0)) as [->|]; [vm_compute; discriminate|].
    assert (Z.log2 n < 1024) by (apply Z.log2_lt_pow2; lia). dlia.
  - intros A B HA HB. eexists. split; [|reflexivity]. lia.
  - intros s user pass Hs. eexists. split; [|reflexivity]. lia.
  - intros salt user pass s v [= <- <-]. split.
    + pose proof (Z.mod_pos_bound (Z.abs salt) (2 ^ 160)). lia.
    + by eexists.
Qed.

Definition key (n : Z) : list Z := be_bytes 32 n.

(** The server's first key is rejected. *)
Lemma session_keys_agree_witness :
  wp (handshake 99 (lit "jintiao") (lit "secret")) (Some <$> [key 6; key 7; key 8])
    (fun '(Kc, Ks) σ w => Kc = Ks ∧ σ = [] ∧ leaves [] w).
Proof.
  apply (session_keys_agree (k:=3) 99 (lit "jintiao") (lit "secret") (key 6) [key 7] (key 8) [] 99
           (5 ^ 112 mod 23));
    first [vm_compute; reflexivity | vm_compute; discriminate
          | apply (bool_decide_unpack _); vm_compute; exact I].
Defined.

Lemma zero_public_key_witness :
  BN_bn2bin 0 = [] ∧
  wp (lcreate_server_session_key (Some [9]) (Some [])) [Some (key 7)] (fun r σ w =>
    head r = Some (BN_bn2bin 0) ∧ σ = [] ∧ leaves [] w).
Proof.
  split; [vm_compute; reflexivity|].
  apply (zero_public_key (k:=3) [9] [] [] (key 7) []);
    first [vm_compute; reflexivity | vm_compute; discriminate
          | apply (bool_decide_unpack _); vm_compute; exact I].
Defined.
End SrpProps.
