(* ===== verification/Aes.v ===== *)
(** * lua-aes.c: AES-128 for Lua strings

    The two functions call OpenSSL's EVP interface, whose functions are the
    operations of the class [Evp]; AesProps.v has what their documentation promises.
    They may write more bytes than the number they report: both are part of the model.
    The block that receives the output is a list of cells, [None] before they are
    written. *)
From S2P Require Import Prelude Libc.

Module Aes.

Definition AES_BLOCK_SIZE : Z := 16.
(** The bytes that the cipher reads from the key. *)
Definition AES_KEY_LENGTH : Z := 16.

(** What a call writes to its output: the bytes it reports, and those behind them that it
    writes as well. *)
Record written := Written { reported : list Z; behind : list Z }.
Definition bytes_of (w : written) : list Z := reported w ++ behind w.

(** A context after an initialisation with a key ([None] is NULL) and the iv; an
    update reads [inl] bytes of the text; the final call tells whether it succeeds. *)
Class Evp (C : Type) := {
  EVP_EncryptInit : option (list Z) → list Z → C;
  EVP_EncryptUpdate : C → list Z → Z → C * written;
  EVP_EncryptFinal : C → written * bool;
  EVP_DecryptInit : option (list Z) → list Z → C;
  EVP_DecryptUpdate : C → list Z → Z → C * written;
  EVP_DecryptFinal : C → written * bool
}.

Inductive call := CtxNew | CtxFree | Malloc (size : Z) | FreeOutput.
Abbreviation cells := (list (option Z)).
Abbreviation act A := (M unit call Empty_set A).

Section Aes.
Context {C : Type} `{Evp C}.

(** The key is a C string: its bytes and the terminator can be read. *)
Definition read_key (key : option (list Z)) : act (option (list Z)) :=
  match key with
  | None => ret None
  | Some key => let* k := lift (rdn (key ++ [0]) AES_KEY_LENGTH) in ret (Some k)
  end.

Definition iv : list Z := replicate 16 0.

(** [lua_pushlstring(L, output, n)]. *)
Definition push_output (output : cells) (n : Z) : act (list Z) :=
  let* cs := lift (rdn output n) in
  if decide (Forall is_Some cs) then ret (omap Datatypes.id cs) else fault_ Uninitialised.

(** The part that both functions share, from the update to the return: [size] is the
    size of the block. *)
Definition crypt (ctx : C) (update : C → list Z → Z → C * written) (final : C → written * bool)
    (text : list Z) (size : Z) : act (list (list Z)) :=
  let output : cells := replicate (Z.to_nat size) None in
  let (ctx, out1) := update ctx text (i32 (len text)) in
  let* output := lift (memcpy output 0 (Some <$> bytes_of out1)) in
  let olen1 := len (reported out1) in
  let (out2, ok) := final ctx in
  let* output := lift (memcpy output olen1 (Some <$> bytes_of out2)) in
  let olen2 := len (reported out2) in
  if negb ok then emit FreeOutput ;; emit CtxFree ;; ret []
  else
    let* r := push_output output (olen1 + olen2) in
    emit FreeOutput ;; emit CtxFree ;; ret [r].

(** The arguments as [lua_tolstring] gives them; NULL has the length 0. The results
    are the strings that are returned to Lua. *)
Definition lencrypt (text key : option (list Z)) : act (list (list Z)) :=
  let text := default [] text in
  emit CtxNew ;;
  let size := u64 (len text + AES_BLOCK_SIZE) in
  emit (Malloc size) ;;
  let* k := read_key key in
  crypt (EVP_EncryptInit k iv) EVP_EncryptUpdate EVP_EncryptFinal text size.

Definition ldecrypt (text key : option (list Z)) : act (list (list Z)) :=
  let text := default [] text in
  emit CtxNew ;;
  let size := len text in
  emit (Malloc size) ;;
  let* k := read_key key in
  crypt (EVP_DecryptInit k iv) EVP_DecryptUpdate EVP_DecryptFinal text size.
End Aes.
End Aes.
