(* ===== verification/AesProps.v ===== *)
(** * lua-aes.c: decryption undoes encryption

    EVP_aes_128_ecb with padding, as documented: the text is padded to whole blocks
    with bytes that tell their number, and every block is enciphered on its own. How much
    a call may write beyond the bytes it reports is taken from the documentation; whether
    decryption stays in its block depends on it. *)
From S2P Require Import Prelude Libc Aes.

Module AesProps.
Import Aes.

Definition block : nat := 16.

(** PKCS padding, and the length of the text behind it. *)
Definition pad (text : list Z) : list Z :=
  let n := (block - length text `mod` block)%nat in text ++ replicate n (Z.of_nat n).
Definition unpad (l : list Z) : option (list Z) :=
  n ← last l;
  if (1 <=? n) && (n <=? 16) && bool_decide (drop (length l - Z.to_nat n) l = replicate (Z.to_nat n) n)
  then Some (take (length l - Z.to_nat n) l) else None.

(** Electronic code book: [f] on each of [n] blocks. *)
Fixpoint ecb (f : list Z → list Z) (n : nat) (l : list Z) : list Z :=
  match n with
  | O => []
  | S n => f (take block l) ++ ecb f n (drop block l)
  end.
Definition blocks (l : list Z) : nat := (length l / block)%nat.

(** The documentation of the EVP functions, for a block cipher [E] with inverse [D]. An
    update of the encryption writes fewer than [inl + 16] bytes, the final call the last
    block. For an update of the decryption the caller has to provide [inl + 16] bytes, for
    the final call one block; nothing less is promised. *)
Class EvpLaws {C} `{Evp C} (E D : list Z → list Z → list Z) : Prop := {
  cipher_block : ∀ k b, length b = block → bytes_ok b → length (E k b) = block ∧ bytes_ok (E k b);
  cipher_inverse : ∀ k b, length b = block → bytes_ok b → D k (E k b) = b;
  encrypt_doc : ∀ k text, bytes_ok text → len text ≤ INT_MAX → ∃ c out1 out2,
    EVP_EncryptUpdate (EVP_EncryptInit (Some k) iv) text (len text) = (c, out1) ∧
    EVP_EncryptFinal c = (out2, true) ∧
    len (bytes_of out1) < len text + 16 ∧ length (reported out2) = block ∧ behind out2 = [] ∧
    reported out1 ++ reported out2 = ecb (E k) (blocks (pad text)) (pad text);
  decrypt_doc : ∀ k text plain, bytes_ok text → len text ≤ INT_MAX → (length text `mod` block = 0)%nat →
    unpad (ecb (D k) (blocks text) text) = Some plain → ∃ c out1 out2,
    EVP_DecryptUpdate (EVP_DecryptInit (Some k) iv) text (len text) = (c, out1) ∧
    EVP_DecryptFinal c = (out2, true) ∧
    len (bytes_of out1) ≤ len text + 16 ∧ len (bytes_of out2) ≤ 16 ∧
    reported out1 ++ reported out2 = plain
}.

(** Whether everything the two calls write when [cipher] is decrypted lies in a block of
    its length, the one that [ldecrypt] provides. *)
Definition decrypt_fits {C} `{Evp C} (k cipher : list Z) : bool :=
  let (c, out1) := EVP_DecryptUpdate (EVP_DecryptInit (Some k) iv) cipher (len cipher) in
  let (out2, _) := EVP_DecryptFinal c in
  (len (bytes_of out1) <=? len cipher) && (len (reported out1) + len (bytes_of out2) <=? len cipher).

Lemma pad_length text : length (pad text) = (block * (length text / block + 1))%nat.
Proof.
  unfold pad. rewrite length_app, length_replicate.
  pose proof (Nat.div_mod_eq (length text) block). pose proof (Nat.mod_upper_bound (length text) block).
  unfold block in *. lia.
Qed.

Lemma pad_blocks text : length (pad text) = (block * blocks (pad text))%nat ∧
  (length (pad text) ≤ length text + 16)%nat.
Proof.
  unfold blocks. rewrite pad_length. split.
  - f_equal. symmetry. rewrite Nat.mul_comm. by apply Nat.div_mul.
  - pose proof (Nat.Div0.mul_div_le (length text) block). unfold block in *. lia.
Qed.

Lemma pad_ok text : bytes_ok text → bytes_ok (pad text).
Proof.
  intros. apply Forall_app. split; [done|]. apply Forall_replicate.
  unfold byte_ok, block. lia.
Qed.

Lemma unpad_pad text : unpad (pad text) = Some text.
Proof.
  pose proof (Nat.mod_upper_bound (length text) block) as Hm.
  unfold pad, unpad. set (n := (block - length text `mod` block)%nat).
  assert (1 ≤ n ≤ 16)%nat as Hn by (unfold n, block in *; lia).
  rewrite last_app. assert (last (replicate n (Z.of_nat n)) = Some (Z.of_nat n)) as ->.
  { destruct n as [|m]; [lia|]. rewrite replicate_S_end, last_snoc. done. }
  simpl. destruct (Z.leb_spec 1 (Z.of_nat n)), (Z.leb_spec (Z.of_nat n) 16); try lia. simpl.
  rewrite Nat2Z.id, length_app, length_replicate, Nat.add_sub.
  rewrite drop_app_length, take_app_length. by rewrite bool_decide_true.
Qed.

Section ecb.
Context (E D : list Z → list Z).
Hypothesis block_E : ∀ b, length b = block → bytes_ok b → length (E b) = block ∧ bytes_ok (E b).
Hypothesis D_E : ∀ b, length b = block → bytes_ok b → D (E b) = b.

Lemma block_split n l : length l = (block * S n)%nat → bytes_ok l →
  length (take block l) = block ∧ bytes_ok (take block l) ∧
  length (drop block l) = (block * n)%nat ∧ bytes_ok (drop block l).
Proof.
  intros Hl Hb. rewrite length_take, length_drop.
  split; [lia|]. split; [by apply Forall_take|]. split; [lia|by apply Forall_drop].
Qed.

Lemma ecb_ok n l : length l = (block * n)%nat → bytes_ok l →
  length (ecb E n l) = length l ∧ bytes_ok (ecb E n l).
Proof.
  revert l. induction n as [|n IH]; intros l Hl Hb; simpl; [split; [simpl; lia|constructor]|].
  destruct (block_split n l Hl Hb) as (Ht & Htb & Hd & Hdb).
  destruct (block_E _ Ht Htb) as [HE HEb]. destruct (IH _ Hd Hdb) as [IHl IHb].
  rewrite length_app. split; [lia|]. by apply Forall_app.
Qed.

Lemma ecb_inverse n l : length l = (block * n)%nat → bytes_ok l → ecb D n (ecb E n l) = l.
Proof.
  revert l. induction n as [|n IH]; intros l Hl Hb; [destruct l; [done|simpl in Hl; lia]|].
  destruct (block_split n l Hl Hb) as (Ht & Htb & Hd & Hdb).
  destruct (block_E _ Ht Htb) as [HE HEb]. cbn [ecb].
  rewrite take_app_length', drop_app_length' by done. rewrite D_E, IH by done. apply take_drop.
Qed.
End ecb.

Lemma length_bytes_of w : length (bytes_of w) = (length (reported w) + length (behind w))%nat.
Proof. apply length_app. Qed.

Lemma i32_len (text : list Z) : len text ≤ INT_MAX → i32 (len text) = len text.
Proof. intros Htext. apply swrap_small; [lia|]. unfold INT_MAX in Htext. simpl. lia. Qed.

Section roundtrip.
Context {C : Type} `{L : EvpLaws C E D}.
Implicit Types Q : list (list Z) → unit → list call → Prop.

(** All that is written lies in the block, and the reported bytes are returned. *)
Lemma wp_crypt (ctx : C) update final text size c out1 out2 Q :
  update ctx text (len text) = (c, out1) → final c = (out2, true) → len text ≤ INT_MAX →
  len (bytes_of out1) ≤ size → len (reported out1) + len (bytes_of out2) ≤ size →
  Q [reported out1 ++ reported out2] tt [FreeOutput; CtxFree] → wp (crypt ctx update final text size) tt Q.
Proof.
  intros Hu Hf Htext H1 H2 HQ. unfold crypt. rewrite i32_len, Hu by done.
  set (output := replicate (Z.to_nat size) None).
  assert (length output = Z.to_nat size) as Hlen by apply length_replicate.
  pose proof (length_bytes_of out1) as Hb1. pose proof (length_bytes_of out2) as Hb2.
  apply wp_bind, wp_lift. change 0 with (Z.of_nat 0).
  rewrite memcpy_done by (rewrite length_fmap; lia). apply returns_done. rewrite Hf. cbn [negb].
  set (first := splice output 0 (Some <$> bytes_of out1)).
  assert (length first = Z.to_nat size) as Hlen1 by (unfold first; rewrite length_splice; rewrite ?length_fmap; lia).
  assert (take (length (reported out1)) first = Some <$> reported out1) as Hfirst.
  { unfold first, bytes_of, splice. rewrite fmap_app, take_0, app_nil_l, <- app_assoc.
    apply take_app_length'. by rewrite length_fmap. }
  apply wp_bind, wp_lift. rewrite memcpy_done by (rewrite length_fmap; lia). apply returns_done.
  set (full := splice first (length (reported out1)) _).
  assert (take (length (reported out1) + length (reported out2)) full = Some <$> reported out1 ++ reported out2) as Hfull.
  { unfold full, splice. rewrite Hfirst. unfold bytes_of. rewrite !fmap_app, <- (app_assoc _ _ (drop _ _)), (app_assoc (Some <$> reported out1)).
    apply take_app_length'. by rewrite length_app, !length_fmap. }
  unfold push_output. apply wp_bind, wp_bind, wp_lift. rewrite <- Nat2Z.inj_add, rdn_done, Hfull.
  2: { unfold full. rewrite length_splice; rewrite ?length_fmap; lia. }
  apply returns_done. rewrite decide_True by (apply Forall_fmap, Forall_true; by eexists).
  rewrite omap_id_Some. do 6 step. exact HQ.
Qed.

(** One of the two calls writes behind the end of the block. *)
Lemma crypt_overrun (ctx : C) update final text size c out1 out2 ok :
  update ctx text (len text) = (c, out1) → final c = (out2, ok) → len text ≤ INT_MAX → 0 ≤ size →
  size < len (bytes_of out1) ∨ size < len (reported out1) + len (bytes_of out2) →
  crypt ctx update final text size tt = Fault OutOfBounds.
Proof.
  intros Hu Hf Htext Hsize Hover. unfold crypt. rewrite i32_len, Hu by done.
  set (output := replicate (Z.to_nat size) None).
  assert (length output = Z.to_nat size) as Hlen by apply length_replicate.
  change 0 with (Z.of_nat 0). destruct (Z.ltb_spec size (len (bytes_of out1))).
  { apply bind_fault_now, lift_fault, memcpy_fault. rewrite length_fmap. lia. }
  eapply bind_fault; [apply lift_done, memcpy_done; rewrite length_fmap; lia|]. rewrite Hf.
  apply bind_fault_now, lift_fault, memcpy_fault. rewrite length_splice; rewrite ?length_fmap; lia.
Qed.

Lemma wp_read_key key s (P : option (list Z) → unit → list call → Prop) :
  15 ≤ len key → P (Some (take 16 (key ++ [0]))) s [] → wp (read_key (Some key)) s P.
Proof.
  intros Hkey HP. unfold read_key. apply wp_bind, wp_lift.
  change AES_KEY_LENGTH with (Z.of_nat 16). rewrite rdn_done by (rewrite length_app; simpl; lia).
  apply returns_done. by step.
Qed.

(** C39: [lencrypt], with a key of at least 15 bytes, returns the padded text enciphered
    block by block, writes inside its block, and frees it and the context once. What
    [ldecrypt] then does with the ciphertext and the same key depends on how much
    OpenSSL writes: when that lies in a block of the length of the ciphertext, it returns
    the text and frees its block and its context once; otherwise it writes outside its
    block. The documentation asks for 16 bytes more than the length, so that it allows
    both. *)
Theorem decrypt_encrypt text key :
  bytes_ok text → len text ≤ INT_MAX - 16 → 15 ≤ len key →
  let k := take 16 (key ++ [0]) in
  let cipher := ecb (E k) (blocks (pad text)) (pad text) in
  wp (lencrypt (Some text) (Some key)) tt
    (fun r _ w => r = [cipher] ∧ w = [CtxNew; Malloc (len text + 16); FreeOutput; CtxFree]) ∧
  if decrypt_fits k cipher then
    wp (ldecrypt (Some cipher) (Some key)) tt
      (fun r _ w => r = [text] ∧ w = [CtxNew; Malloc (len cipher); FreeOutput; CtxFree])
  else ldecrypt (Some cipher) (Some key) tt = Fault OutOfBounds.
Proof.
  intros Htext Hmax Hkey k cipher.
  destruct (pad_blocks text) as [Hblocks Hle]. pose proof (pad_ok text Htext) as Hpb.
  destruct (ecb_ok (E k) (cipher_block k) _ _ Hblocks Hpb) as [Hcl Hcb]. fold cipher in Hcl, Hcb.
  split.
  - destruct (encrypt_doc k text Htext) as (c & out1 & out2 & Hu & Hf & H1 & H2 & Hb & Hout); [lia|].
    apply (f_equal length) in Hout as Hl. rewrite length_app in Hl. fold cipher in Hl, Hout. unfold block in H2.
    unfold lencrypt. cbn [default]. step. step.
    assert (u64 (len text + AES_BLOCK_SIZE) = len text + 16) as ->.
    { unfold AES_BLOCK_SIZE. apply wrap_small. unfold INT_MAX in Hmax. lia. }
    step. step. step. apply wp_read_key; [done|].
    eapply wp_crypt; [done|done|lia|lia|unfold bytes_of; rewrite Hb, app_nil_r; lia|]. by rewrite Hout.
  - assert (blocks cipher = blocks (pad text)) as Hbc by (unfold blocks; by rewrite Hcl).
    destruct (decrypt_doc k cipher text) as (c & out1 & out2 & Hu & Hf & _ & _ & Hout); [done|lia| | |].
    { rewrite Hcl, Hblocks, Nat.mul_comm. by apply Nat.Div0.mod_mul. }
    { rewrite Hbc. unfold cipher.
      rewrite (ecb_inverse (E k) (D k) (cipher_block k) (cipher_inverse k)) by done. apply unpad_pad. }
    unfold decrypt_fits. rewrite Hu, Hf. clearbody cipher. unfold ldecrypt. cbn [default].
    destruct (Z.leb_spec (len (bytes_of out1)) (len cipher)) as [H1|H1];
      [destruct (Z.leb_spec (len (reported out1) + len (bytes_of out2)) (len cipher)) as [H2|H2]|]; cbn [andb].
    { do 4 step. step. apply wp_read_key; [done|]. eapply wp_crypt; [done|done|lia|lia|lia|]. by rewrite Hout. }
    all: eapply bind_fault; [done|]; eapply bind_fault; [done|]; apply bind_fault_wp, wp_read_key; [done|];
      eapply crypt_overrun; [done|done|unfold Datatypes.id; lia..].
Qed.
End roundtrip.

(** ** Instances

    Every block is reversed. The encryption writes the whole blocks and keeps the rest
    for the final call. The decryption, as in OpenSSL, keeps the last block back for the
    final call, but has already written it behind the bytes it reports, and [scratch]
    bytes more. *)
Lemma ecb_split f n m l : ecb f (n + m) l = ecb f n l ++ ecb f m (drop (block * n) l).
Proof.
  revert l. induction n as [|n IH]; intros l; [by rewrite Nat.mul_0_r|]. cbn [ecb Nat.add].
  rewrite IH, <- app_assoc, drop_drop. by replace (block * S n)%nat with (block + block * n)%nat by lia.
Qed.

Lemma ecb_prefix f n l r : (block * n ≤ length l)%nat → ecb f n (l ++ r) = ecb f n l.
Proof.
  revert l. induction n as [|n IH]; intros l Hl; [done|]. cbn [ecb].
  rewrite take_app_le, drop_app_le, IH by (rewrite ?length_drop; lia). done.
Qed.

Lemma pad_split text : ecb reverse (blocks (pad text)) (pad text) =
  ecb reverse (blocks text) text ++ ecb reverse 1 (pad (drop (block * blocks text) text)).
Proof.
  pose proof (Nat.div_mod_eq (length text) block) as Hd. fold (blocks text) in Hd.
  assert (blocks (pad text) = (blocks text + 1)%nat) as ->.
  { unfold blocks at 1. rewrite pad_length, Nat.mul_comm. by apply Nat.div_mul. }
  rewrite ecb_split. unfold pad at 1. rewrite ecb_prefix by lia. do 2 f_equal.
  unfold pad. rewrite drop_app_le by lia. rewrite length_drop.
  replace ((length text - block * blocks text) `mod` block)%nat with (length text `mod` block)%nat; [done|].
  replace (length text - block * blocks text)%nat with (length text `mod` block)%nat by lia.
  symmetry. by apply Nat.Div0.mod_mod.
Qed.

Lemma unpad_app a b : length b = block → unpad (a ++ b) = (a ++.) <$> unpad b.
Proof.
  intros Hb. unfold unpad. rewrite last_app. destruct (last b) as [n|] eqn:Hn.
  2: { apply last_None in Hn. by subst. }
  cbn [mbind option_bind]. destruct (Z.leb_spec 1 n), (Z.leb_spec n 16); try done. cbn [andb].
  rewrite length_app. unfold block in Hb. replace (length a + length b - Z.to_nat n)%nat with (length a + (length b - Z.to_nat n))%nat by lia.
  rewrite drop_app_add, take_app_add. by destruct (bool_decide _).
Qed.

Definition blocks_evp (scratch : nat) : Evp (list Z) := {|
  EVP_EncryptInit := fun _ _ => [];
  EVP_EncryptUpdate := fun _ text _ =>
    (drop (block * blocks text) text, Written (ecb reverse (blocks text) text) []);
  EVP_EncryptFinal := fun c => (Written (ecb reverse 1 (pad c)) [], true);
  EVP_DecryptInit := fun _ _ => [];
  EVP_DecryptUpdate := fun _ text _ =>
    let n := ((length text - 1) / block)%nat in
    (drop (block * n) text,
     Written (ecb reverse n text) (ecb reverse 1 (drop (block * n) text) ++ replicate scratch 0));
  EVP_DecryptFinal := fun c =>
    match unpad (ecb reverse 1 c) with Some p => (Written p [], true) | None => (Written [] [], false) end
|}.

Lemma reverse_block b : length b = block → bytes_ok b → length (reverse b) = block ∧ bytes_ok (reverse b).
Proof. intros Hl Hb. rewrite length_reverse. split; [done|]. unfold bytes_ok. by rewrite (reverse_Permutation b). Qed.

Lemma ecb_reverse_length n l : (block * n ≤ length l)%nat → length (ecb reverse n l) = (block * n)%nat.
Proof.
  revert l. induction n as [|n IH]; intros l Hl; [done|]. cbn [ecb].
  rewrite length_app, length_reverse, length_take, IH by (rewrite length_drop; lia). lia.
Qed.

Lemma unpad_length l p : unpad l = Some p → (length p ≤ length l)%nat.
Proof.
  unfold unpad. destruct (last l); [|done]. cbn [mbind option_bind]. case_match; [|done].
  intros [= <-]. rewrite length_take. lia.
Qed.

#[local] Instance blocks_laws scratch : (scratch ≤ 16)%nat →
  EvpLaws (H:=blocks_evp scratch) (fun _ => reverse) (fun _ => reverse).
Proof.
  intros Hs. split.
  - intros _. apply reverse_block.
  - intros _ b _ _. apply reverse_involutive.
  - intros k text _ _. eexists _, _, _. split; [reflexivity|]. split; [reflexivity|].
    pose proof (Nat.div_mod_eq (length text) block) as Hd. fold (blocks text) in Hd.
    assert (pad_length_rest : (length (drop (block * blocks text) text) < block)%nat).
    { rewrite length_drop. pose proof (Nat.mod_upper_bound (length text) block ltac:(done)). lia. }
    unfold bytes_of. cbn [reported behind]. rewrite app_nil_r. split_and!; [| |done|by rewrite pad_split].
    + rewrite ecb_reverse_length by lia. unfold block in *. lia.
    + rewrite ecb_reverse_length; [unfold block; lia|]. rewrite pad_length. lia.
  - intros k text plain _ _ Hmod Hu.
    pose proof (Nat.div_mod_eq (length text) block) as Hd. rewrite Hmod, Nat.add_0_r in Hd. fold (blocks text) in Hd.
    destruct (blocks text) as [|n] eqn:Hn.
    { by destruct text. }
    replace (S n) with (n + 1)%nat in Hu by lia. rewrite ecb_split, unpad_app in Hu.
    2: { rewrite ecb_reverse_length; [done|]. rewrite length_drop. unfold block in *. lia. }
    destruct (unpad (ecb reverse 1 (drop (block * n) text))) as [p|] eqn:Hp; [|done]. injection Hu as <-.
    assert (((length text - 1) / block)%nat = n) as Hq.
    { rewrite Hd. symmetry. apply (Nat.div_unique _ _ _ 15); unfold block; lia. }
    eexists _, _, _. split; [cbn [EVP_DecryptUpdate blocks_evp]; by rewrite Hq|]. cbn [EVP_DecryptFinal blocks_evp].
    rewrite Hp. split; [done|]. unfold bytes_of. cbn [reported behind].
    assert (length (drop (block * n) text) = block) as Hlast by (rewrite length_drop; unfold block in *; lia).
    apply unpad_length in Hp. rewrite ecb_reverse_length in Hp by (rewrite Hlast; unfold block; lia).
    rewrite app_nil_r, !length_app, length_replicate, !ecb_reverse_length by (rewrite ?Hlast; unfold block in *; lia).
    unfold block in *. split_and!; [lia|lia|done].
Qed.

Definition demo_text : list Z := lit "hello aes, this is more than one block".
Definition demo_key : list Z := lit "0123456789abcdef".
Definition demo_cipher : list Z := ecb reverse (blocks (pad demo_text)) (pad demo_text).

(** With nothing written behind the last block the text comes back. *)
Lemma decrypt_encrypt_witness :
  wp (lencrypt (H:=blocks_evp 0) (Some demo_text) (Some demo_key)) tt
    (fun r _ w => r = [demo_cipher] ∧ w = [CtxNew; Malloc (len demo_text + 16); FreeOutput; CtxFree]) ∧
  wp (ldecrypt (H:=blocks_evp 0) (Some demo_cipher) (Some demo_key)) tt
    (fun r _ w => r = [demo_text] ∧ w = [CtxNew; Malloc (len demo_cipher); FreeOutput; CtxFree]).
Proof.
  apply (decrypt_encrypt (H:=blocks_evp 0) (L:=blocks_laws 0 ltac:(lia)) (E:=fun _ => reverse) (D:=fun _ => reverse) demo_text demo_key);
    [apply (bool_decide_unpack _); vm_compute; exact I|vm_compute; discriminate|vm_compute; discriminate].
Defined.

(** One byte behind it, which the documentation allows, and [ldecrypt] writes outside
    its block. *)
Lemma decrypt_overrun :
  ldecrypt (H:=blocks_evp 1) (Some demo_cipher) (Some demo_key) tt = Fault OutOfBounds.
Proof. vm_compute. reflexivity. Qed.

(** A key that is too short is read beyond its end. *)
Lemma short_key {C} `{Evp C} text : lencrypt (Some text) (Some (lit "key")) tt = Fault OutOfBounds.
Proof. reflexivity. Qed.
End AesProps.
